(* ===== verification/_CoqProject ===== *)
-Q . S2P
Prelude.v
McaCrc.v
Bytes.v
LockfreeProg.v
SysAtomic.v
MrapiAtomic.v
AtomicSpec.v
AtomicBarrier.v
AtomicTheorems.v
MrapiTypes.v
MrapiDisplay.v
MrapiHandles.v
MrapiNodes.v
MrapiLocks.v
MrapiMutexRwl.v
MrapiLockApi.v
MrapiShmem.v
McapiGlue.v
MrapiRmem.v
MrapiResources.v
LockSlots.v
LockSpec.v
LockEntry.v
DbInvariant.v
LockCreate.v
LockSafety.v
NodeSafety.v
LockSystem.v
LockTheorems.v
MutexTheorems.v
CreateTheorems.v
McapiGlueTheorems.v
NodeTheorems.v
HandleTheorems.v
RmemTheorems.v
ResourceSpec.v
ResourceCopy.v
ResourceTree.v
ResourceTheorems.v
ResourceUse.v
MemoryTheorems.v
McapiTypes.v
McapiQueue.v
McapiRequests.v
McapiTransport.v
McapiMessages.v
McapiChannels.v
McapiCheck.v
McapiNodes.v
McapiApi.v
McapiDisplay.v
McapiRequestList.v
McapiRing.v
McapiQueueSpec.v
McapiFifo.v
McapiQueueTheorems.v
McapiAccess.v
McapiMailbox.v
McapiBlocking.v
McapiChannelSpec.v
McapiEndpoints.v
McapiEndpointTheorems.v
McapiNodeTheorems.v
McapiApiTheorems.v
McapiChannelTheorems.v
McapiMessageTheorems.v
McapiRequestTheorems.v
LockfreeQueue.v
LockfreeFifo.v
LockfreeSender.v
LockfreeReceiver.v
LockfreeTheorems.v
LockfreeState.v
LockfreeReader.v
LockfreeStateTheorems.v
LockfreeUse.v
Mtapi.v
MtapiTasks.v
MtapiRemote.v
MtapiTheorems.v
