(* ===== verification/Prelude.v ===== *)
(** * MxAPI: the multicore resource management API, verified

    The repository implements the Multicore Association's APIs in C on top of
    a database in shared memory: MRAPI (locks, shared and remote memory, nodes
    and domains; src/mca-2.0.3/mrapi) and MCAPI (messages and channels between
    endpoints; src/mca-2.0.3/mcapi), and MTAPI on top of MCAPI (tasks as
    threads, in this process or another; src/mca-2.0.3/mtapi).  This development models the baseline
    variant (the files without the suffix _abb or _abl, on the unix side of
    every #if) as executable functions on the database, and the core of the
    lock-free transport of the _abb variant as programs of single accesses to
    shared memory, and proves what the components promise.

    ** How the program is put together

    Every node (a thread) maps the same [mrapi_database]: fixed arrays of lock
    entries, memory segments, domains with their nodes, and requests.  The
    public functions (src/mca-2.0.3/mrapi/src/Fragments) check the caller and
    the handle and call the implementation
    (src/mca-2.0.3/mrapi/src/mrapi_impl/Fragments), whose critical sections
    run between mrapi_impl_access_database_pre and _post.  Handles are array
    indices with a valid bit; a node's identity is cached in thread-local
    variables.

    MCAPI maps its own [mcapi_database] in the same way: domains with nodes,
    nodes with endpoints, an endpoint with its receive queue, a pool of
    buffers and a table of requests.  The public functions
    (src/mca-2.0.3/mcapi/src/mcapi.c) check their arguments and call the
    transport (src/mca-2.0.3/mcapi/src/mcapi_trans/mcapi_trans_sm), whose
    functions run between mcapi_trans_access_database_pre and _post.  A
    message, packet or scalar is copied into a buffer whose index goes into
    the receive queue; a non-blocking receive that finds nothing reserves an
    entry of the queue, and its request is completed by the test that finds
    the entry filled.  Blocking calls are non-blocking ones with a wait.

    The _abb variant has no lock around its transport functions: a receive
    queue has two counters, each advanced twice by every operation, and the
    states of its entries and the markers of the buffers change by atomic
    operations.  An endpoint for state messages keeps a few buffers that the
    sender overwrites in turn, and a reader that was overtaken reads again.

    ** The model, file by file

    - Prelude.v: machine integers ([u8], [u16], [u32], [i32] as Z modulo a
      power of two), the monad [M] of state-passing computations that can
      [Fault] (a failed mrapi_assert, an index outside an array, or no fuel
      left), its weakest precondition [wp], the invariant rules [keeps] and
      [runs], bounded loops ([c_for], [c_scan]) and counting lemmas.
    - McaCrc.v: the checksum of the utilities (mca_utils_impl.c), the keys
      derived from it (mrapi_impl_spec_initialize.c) and its properties.
    - Bytes.v: memory as a finite map from addresses to bytes.
    - SysAtomic.v, MrapiAtomic.v: the atomic operations on shared words with
      their sync descriptors (sysvr4_atomic.c), the wrappers around them
      (mrapi_impl_spec_atomic.c) and the public functions (mrapi_atomic.c);
      they serve the _abb variant and stand on their own.
    - LockfreeProg.v: programs of atomic steps, their runs under a schedule,
      and rely-guarantee reasoning ([safe], sound by [run_safe]; [live], where a
      thread pays for its steps, so that it returns, by [run_returns]).
    - AtomicSpec.v, AtomicBarrier.v: an operation as one access; a barrier and an
      exchange step by step, and any number of writers of one word as programs.
    - MrapiTypes.v: status codes, limits and the records of the database
      (mrapi.h, mrapi_impl_spec_data.h, mrapi_impl_spec_inc.h); [caller] is
      the thread-local identity.
    - MrapiDisplay.v: mrapi_display_status and the property of its buffer.
    - MrapiHandles.v: handle encoding, whoami, handle checks, the request
      table (mrapi_impl_spec_body1.c).
    - MrapiNodes.v: initialize and finalize (mrapi_impl_spec_initialize.c,
      mrapi_impl_spec_finalize.c, mrapi_initialize.c).
    - MrapiLocks.v, MrapiMutexRwl.v, MrapiLockApi.v: the counting lock behind
      semaphores, mutexes and reader-writer locks (mrapi_impl_spec_sem.c,
      _mutex.c, _rwl.c) and the public functions (mrapi_sem.c, mrapi_mutex.c,
      mrapi_rwl.c).
    - MrapiShmem.v, MrapiRmem.v: shared memory, remote memory with its strided
      transfers, and the non-blocking calls (mrapi_impl_spec_shmem.c,
      mrapi_impl_spec_rmem.c, mrapi_shmem.c, mrapi_rmem.c, mrapi_vtime.c).
    - MrapiResources.v: the tree of resources with its attributes and callbacks
      (mrapi_impl_spec_resources.c, mrapi_resources.c, resource_tree.h) over a
      memory of typed cells; ResourceSpec.v: trees as inductive data and how
      memory represents them; ResourceCopy.v, ResourceTree.v: the copy,
      the filtered tree and its release, as separate blocks.
    - LockSlots.v, LockEntry.v: the loops over the slots of an entry as one
      list update; the invariant [sem_wf] of an entry, its holders as a
      multiset, and closed forms of acquire, release and delete.
    - LockSpec.v: the abstract counting lock (class [CountingLock]) and the
      consequences every implementation inherits; an entry of the database
      implements it (LockSafety.v).
    - DbInvariant.v, LockCreate.v, LockSafety.v, NodeSafety.v: the invariant
      [db_wf] of the database (well-formed entries, unique node identities)
      and its preservation by every operation; in LockSafety.v also
      the blocking lock under interference.
    - LockSystem.v: the calls any number of threads can make, as a step
      relation on the database ([sys_step], [reachable]), and what a node holds
      while the others call.
    - McapiGlue.v: MCAPI's lock and shared memory on top of MRAPI
      (transport_sm_mrapi_body.c) and the brackets of its critical sections
      (mcapi_trans_access_database_pre and _post of transport_sm.c).
    - McapiTypes.v: status codes, limits and records of MCAPI (mcapi.h,
      mcapi_impl_spec.h, transport_sm.h); a [world] is the database with the
      memory of the user.  McapiDisplay.v: mcapi_display_status.
    - McapiQueue.v, McapiRequests.v: the ring of a receive queue with its
      reservations (transport_sm_queue.c, the loops of transport_sm_request.c)
      and the doubly linked lists of request entries (transport_sm_request.c).
    - McapiTransport.v: the functions of transport_sm.c that work under the
      lock, and setting up, completing and cancelling requests.
    - McapiMessages.v: messages, endpoints, test, wait and cancel
      (transport_sm_msg.c, transport_sm_endpoint.c, transport_sm_wait.c);
      McapiChannels.v: packets and scalars (transport_sm_pktchan.c,
      transport_sm_sclchan.c); McapiCheck.v: the checks
      (transport_sm_check.c); McapiNodes.v: initialize, finalize, attributes
      and wait_any (transport_sm_initialize.c, transport_sm_finalize.c,
      transport_sm_attributes.c); McapiApi.v: the public functions (mcapi.c).
    - McapiRequestList.v, McapiRing.v, McapiQueueSpec.v, McapiFifo.v: the request lists as permutations, the ring as a list of
      slots, and the queue as a FIFO with waiting receives.
    - McapiAccess.v, McapiMailbox.v: how the operations reach the database and
      a request from reservation to test; an endpoint as a list of messages,
      packets or scalars (record [contents]).  McapiBlocking.v: the public calls
      around the request table, with entries left and without.
    - McapiChannelSpec.v: a connected channel as a list of items, and a
      concrete database.
      McapiEndpoints.v: the endpoint table of a node as a map to ports, and
      what the other calls of the API leave alone in it.
    - LockfreeQueue.v: the lock-free transport (transport_sm_abb.c,
      transport_sm_queue_abb.c, transport_sm_abb.h).
    - LockfreeFifo.v, LockfreeSender.v, LockfreeReceiver.v: the invariant of the
      queues with the phases of their sender and receiver as ghost state, and
      the two access by access.
    - LockfreeState.v, LockfreeReader.v: the same for the writer and the readers
      of state messages.  LockfreeUse.v: concrete runs.
    - Mtapi.v: MTAPI (mtapi.c) and the wrapper around threads
      (mthread_impl_posix.c) as programs on a system of processes and a network;
      class [Mcapi]: what it uses of MCAPI.
    - MtapiTasks.v: the stages of a task, and the thread that creates and waits
      for it against the thread that runs it.  MtapiRemote.v: the structs that are
      sent, the laws of the network (class [McapiLaws]), and the client against
      the listener of another process.
    - *Theorems.v: the properties.

    ** What the theorems show

    - LockTheorems.v: in every reachable database every call is free of faults;
      mutual exclusion (what a node holds it keeps, whatever
      others call), reader/writer exclusion; acquire, release and delete on
      every branch; conservation of units over any history; success, time-out
      and termination of the blocking lock under any interference.
    - MutexTheorems.v: recursive locking nests, unlock order, and the two
      places where the mutex departs from its documentation.
    - McaCrc.v: the table-driven checksum is the division by the CRC-32
      polynomial; it detects every burst of up to 32 bits.
    - McapiGlueTheorems.v: all nodes that use a key share one lock, at most one
      of them is in a section of MCAPI, and it alone can leave it.
    - CreateTheorems.v, NodeTheorems.v: creation and lookup of locks; unique
      node identities, initialize and finalize on every branch.
    - HandleTheorems.v: handles and requests, with the limit of 256;
      mrapi_wait_any decides in one pass, or never returns.
    - ResourceTheorems.v, ResourceUse.v: what a filter returns and what its
      release leaves allocated; attributes on every branch, the dynamic
      attribute as a counter, and callbacks at every f-th event.
    - RmemTheorems.v, MemoryTheorems.v: transfers to remote memory preserve
      the data and stay inside the buffer, for any lengths, strides and
      numbers of strides, and under exactly which conditions they end; the shared and remote memory calls keep the database well formed.
    - AtomicTheorems.v: every atomic operation but xchg is one step; writes
      through barriers by any number of processes, interleaved in any way,
      linearize; reads under interference, exchanges, and what a time-out breaks.
    - McapiQueueTheorems.v: over any history of sends, receives, tests and
      cancellations each receive gets the message of its rank, and no operation
      of a queue fails, spins or leaves an array.
    - McapiMessageTheorems.v: what is sent to an endpoint is received byte for
      byte; sending appends to, and receiving takes from, the list of messages.
    - McapiRequestTheorems.v: the request lists over any history; the test
      that completes a receive; cancellation; the retry loop that never ends.
    - McapiApiTheorems.v: a blocking send is the direct one while the request
      table has entries, and loses its message after an attempt without;
      errors of non-blocking calls are reported by their requests, and lost
      when the table is exhausted; waiting ends.
    - McapiChannelTheorems.v: connecting makes an empty channel, streams of
      scalars of any widths, the life of a packet up to its release.
    - McapiEndpointTheorems.v, McapiNodeTheorems.v: the endpoint tables over
      any history, with what others do between the sections of creation and
      deletion, and the races that are left; creation, deletion and lookup on
      every branch; unique node identities, what initialization registers, and
      the places where endpoints or processes get stuck, one of them when an
      initialization meets a finalization.
    - LockfreeTheorems.v: under every schedule the receiver of a lock-free
      endpoint gets what its sender sent, in order; a call that is alone
      returns, and when it is refused, but for a blocking receive with nothing
      to receive, which does not return; how much fuel a run needs.
    - LockfreeStateTheorems.v: under every schedule readers of state messages
      get whole messages, in the order they were written.
    - LockfreeUse.v: two senders or receivers on one
      endpoint, the wrap-around of the counters and the numbers of buffers with
      which state messages fail.
    - MtapiTheorems.v: under every schedule the first task of this process or
      another gives its result to the thread that waits for it; what registration,
      commands and the end of a task do on every branch; and, as runs, seven
      places where MTAPI fails: a name nobody registered, a second task, two
      creations at once, a thread that cannot be created, a second session, and
      more tasks than entries.

    ** Interference, fuel and other choices

    A critical section is one function on the database: the operating-system
    lock makes it atomic.  A public function's handle check and its critical
    section run without interference in between; where one call has several
    critical sections (mutex and reader-writer lock and unlock) the parameter
    [gap] is what other threads do between them, and [yield k] what they do at
    the [k]-th yield of the blocking lock.  [LockSystem] lets both be any
    sequence of calls of other threads.  The lock for create, get, initialize
    and finalize is the global semaphore and the lock for lock and unlock is
    the entry's own, so that in the program one of each may overlap; the model
    interleaves them as whole sections.

    Fuel bounds only these loops of MRAPI: the blocking lock (max(timeout, 1)
    iterations suffice for a finite timeout, which is a theorem), mrapi_wait,
    mrapi_wait_any (one pass, or no fuel is enough), the recursion over the
    resource tree (its depth), and the strided copy, whose 16-bit counter makes num_strides iterations enough
    below 65536 and none enough from there on, which are theorems too.

    The operating system's answers (identifiers, addresses, success) are the
    fields of a record [os]; the allocator of the resource tree is a parameter
    that answers with fresh addresses, and [gap k] is what others do after the
    [k]-th release of the lock in an event.  Elsewhere pointers are unbounded integers and the memory of
    a process is a finite map from addresses to bytes; the address the program
    uses as a key for MRAPI_SEM_ID_ANY is the function [c_sem_addr] of the
    caller.  [reachable] starts from zeroed memory.  mrapi_rwl_create accepts
    any limit, and beyond 32 it writes outside the entry
    ([LockSlots.set_locks_valid_oob]); [call_ok] leaves that call out, and Example [rwl_create_overruns] shows it.

    In MCAPI every transport function is one step on the [world] (that its
    sections exclude each other is the subject of McapiGlueTheorems.v), and what
    other nodes do at the yields of the waiting functions is the parameter
    [between], called with the number of the yield.  mcapi_endpoint_create,
    mcapi_endpoint_delete, mcapi_initialize and mcapi_finalize have several
    sections: [gap k] is what others do at the [k]-th point between them
    ([undisturbed] when nothing); in the other public functions the checks and
    the transport follow each other.  Fuel bounds the waits, the
    retry loops and the polls of initialization and finalization: one
    iteration is enough for a blocking call that finds its request complete,
    max(timeout, 1) for any wait with a finite time-out, and no fuel for the
    loops that are proved not to end.  Values passed by pointer are passed in
    and returned; a buffer is an address in the user's memory; [buff_addr i] is
    the address of the data of buffer [i], which packet receives hand to the
    user, and from which mcapi_pktchan_free computes the entry back with the
    offsets of its members (those of 64-bit pointers; [offsetof_buff]).  The limits are the defaults of configure.ac.  The model faults
    where the code writes array[-1] (the last free request) and where it calls
    an assertion that fails; [process], [thread] and [system] hold the
    variables of a process, those of a thread, and what the operating system
    and the MRAPI layer below answer to initialization and finalization.

    Atomic operations see memory that others change: the parameter [env n] is
    what they do before the [n]-th access, and a descriptor is part of the
    state.  Memory is sequentially consistent.  Fuel bounds the spinning and the
    retries: for an infinite time-out a reader has enough with any fuel above
    the access from which nobody writes, and writers, whose accesses are then
    the steps of programs, with fuel above the length of their schedule; for a
    finite one max(timeout, 1) is enough.

    In the lock-free transport an access of a shared word is one step of a
    thread, and a schedule is any list of thread numbers.  The atomic operations
    have no sync descriptor there, so that each is one access
    (AtomicTheorems.v), and an exchange is a read and a compare-and-swap.  Bytes
    are copied one by one; plain reads and writes are as ordered as atomic ones
    (memory is sequentially consistent).  A thread that has used up its fuel
    takes no more steps, and fuel above the length of the schedule is never used
    up.  The theorems assume fewer than 2^31 messages on an endpoint: beyond,
    the counters wrap and the code fails.

    In MTAPI a step is a call of MCAPI, a call of the threads' wrapper, or a run
    of accesses to the variables of the process between two of them; the threads
    are scheduled as above.  A blocking call looks at its answer once in each
    step, at most [fuel] times, and one that has used up its fuel takes no more
    steps.  The round trips say what every answer is, and that there is one after 50
    (or 16) rounds in which every thread takes a step, for fuel above the length of
    the schedule; Example [session_ends] runs a whole session.  The user's task, malloc, what pthread_create
    answers, and MCAPI are parameters.  [McapiLaws] states what MCAPI's documentation promises (messages
    arrive unchanged, once and in order at an endpoint that is found by its
    address), and that receives do not run out of requests; a network of
    mailboxes ([office_laws]) satisfies it.

    ** What is not modelled

    The operating-system layer (sysvr4, system semaphores, shared memory
    wrappers, signals), the forwarding of atomic operations by signals, debug output (mcapi_display_state,
    print_queue, the debug level), the installation of signal handlers, the rest
    of the _abb variant (the requests on top of its lock-free transport, its
    configuration and topology files) and the _abl variant, the messages MTAPI prints, Conker, the utilities but for the checksum, the tests, the
    vendored Mini-XML and the unfinished Rust port.

    ** What is left

    An instance of [McapiLaws] by the functions of McapiApi.v: they are steps on
    one [world] with buffers in the users' memory, while MTAPI's messages are
    byte lists, and mcapi_endpoint_get, which ignores its time-out, never
    answers for an endpoint that is not there.
*)

From stdpp Require Export prelude list gmap gmultiset strings.
From Stdlib Require Export ZArith Lia.

#[global] Open Scope Z_scope.

(** ** Machine integers *)

Definition u8 (z : Z) : Z := z mod 2 ^ 8.
Definition u16 (z : Z) : Z := z mod 2 ^ 16.
Definition u32 (z : Z) : Z := z mod 2 ^ 32.
Definition i32 (z : Z) : Z :=
  let m := z mod 2 ^ 32 in if m <? 2 ^ 31 then m else m - 2 ^ 32.

Lemma u8_small z : 0 <= z < 256 → u8 z = z.
Proof. intros. unfold u8. apply Z.mod_small. lia. Qed.
Lemma u8_range z : 0 <= u8 z < 256.
Proof. unfold u8. apply Z.mod_pos_bound. lia. Qed.
Lemma u16_small z : 0 <= z < 65536 → u16 z = z.
Proof. intros. unfold u16. apply Z.mod_small. lia. Qed.
Lemma u16_range z : 0 <= u16 z < 65536.
Proof. unfold u16. apply Z.mod_pos_bound. lia. Qed.
Lemma u32_small z : 0 <= z < 2 ^ 32 → u32 z = z.
Proof. intros. unfold u32. by apply Z.mod_small. Qed.
Lemma u32_range z : 0 <= u32 z < 2 ^ 32.
Proof. unfold u32. apply Z.mod_pos_bound. lia. Qed.
Lemma i32_small z : 0 <= z < 2 ^ 31 → i32 z = z.
Proof.
  intros. unfold i32. rewrite Z.mod_small by lia.
  by destruct (Z.ltb_spec z (2 ^ 31)); [|lia].
Qed.

(** ** Faults and the state monad of the embedding

    A C function that reads or writes the shared database becomes a value of
    [M S A]: it either finishes with a result and a new state, or it runs
    into a fault.  [AssertFailed] is an [mrapi_assert] / [mcapi_assert] that
    shuts the process down, [OutOfBounds] an access outside an array or a
    buffer, [OutOfFuel] a loop that used up the iterations the model gives
    it. *)

Inductive fault := AssertFailed | OutOfBounds | OutOfFuel.

Inductive result (A : Type) : Type :=
| Done (a : A)
| Fault (f : fault).
Arguments Done {A} a.
Arguments Fault {A} f.

Definition M (S A : Type) : Type := S → result (A * S).

Definition ret {S A} (a : A) : M S A := λ s, Done (a, s).
Definition bind {S A B} (m : M S A) (k : A → M S B) : M S B := λ s,
  match m s with
  | Done (a, s') => k a s'
  | Fault f => Fault f
  end.
Definition get {S} : M S S := λ s, Done (s, s).
Definition gets {S A} (f : S → A) : M S A := λ s, Done (f s, s).
Definition modify {S} (f : S → S) : M S unit := λ s, Done (tt, f s).
Definition raise {S A} (f : fault) : M S A := λ _, Fault f.
Definition c_assert {S} (b : bool) : M S unit :=
  if b then ret tt else raise AssertFailed.
Definition lift {S A} (r : result A) : M S A := λ s,
  match r with Done a => Done (a, s) | Fault f => Fault f end.
Definition from_option_oob {S A} (o : option A) : M S A :=
  match o with Some a => ret a | None => raise OutOfBounds end.

Declare Scope c_scope.
Delimit Scope c_scope with c.
Notation "'let*' p ':=' m 'in' k" := (bind m (λ p, k))
  (at level 10, p pattern at level 0, m at level 200, k at level 200,
   format "'[v' 'let*'  p  ':='  m  'in' '/' k ']'") : c_scope.
Notation "m ;; k" := (bind m (λ _, k))
  (at level 100, right associativity) : c_scope.

(** ** Record update

    [r <| f := v |>] is [r] with field [f] replaced by [v].  A record type
    gives its eta expansion once ([Settable]); the setter of a projection is
    found by abstracting the projection out of that expansion. *)

Class Settable (R : Type) := eta_of : R → R.
Class Setter {R T : Type} (proj : R → T) := set_field : (T → T) → R → R.
Arguments set_field {R T} proj {_} f r.

Ltac solve_setter :=
  match goal with
  | |- @Setter ?R ?T ?proj =>
      let f := fresh "f" in
      let r := fresh "r" in
      intros f r;
      let e := eval cbv [eta_of] in (eta_of (R := R)) in
      let e' := lazymatch e with ?i => eval cbv delta [i] in i end in
      let t := eval cbv beta in (e' r) in
      let p := eval pattern (proj r) in t in
      lazymatch p with
      | ?g _ => let u := eval cbv beta in (g (f (proj r))) in exact u
      end
  end.
#[export] Hint Extern 1 (Setter _) => solve_setter : typeclass_instances.

#[warnings="-postfix-notation-not-level-1"]
Notation "r <| f ::= g |>" := (set_field f g r)
  (at level 12, f at next level, left associativity) : c_scope.
#[warnings="-postfix-notation-not-level-1"]
Notation "r <| f := v |>" := (set_field f (λ _, v) r)
  (at level 12, f at next level, left associativity) : c_scope.


#[global] Open Scope c_scope.

(** ** Reading array elements *)

Definition arr_get {S A} (l : S → list A) (i : nat) : M S A :=
  let* s := get in from_option_oob (l s !! i).
Definition guard_in_range {S A} (l : S → list A) (i : nat) : M S unit :=
  arr_get l i;; ret tt.

(** ** Total-correctness weakest preconditions

    [wp m Q s]: started in [s], [m] finishes without a fault, and its result
    and final state satisfy [Q]. *)

Definition wp {S A} (m : M S A) (Q : A → S → Prop) (s : S) : Prop :=
  match m s with Done (a, s') => Q a s' | Fault _ => False end.

Section wp_rules.
Context {S A B : Type}.
Implicit Types (m : M S A) (s : S).

Lemma wp_mono m (Q Q' : A → S → Prop) s :
  wp m Q s → (∀ a s', Q a s' → Q' a s') → wp m Q' s.
Proof. unfold wp. destruct (m s) as [[a s']|]; naive_solver. Qed.
Lemma wp_ret (a : A) (Q : A → S → Prop) s : Q a s → wp (ret a) Q s.
Proof. done. Qed.
Lemma wp_bind m (k : A → M S B) (Q : B → S → Prop) s :
  wp m (λ a s', wp (k a) Q s') s → wp (bind m k) Q s.
Proof. unfold wp, bind. by destruct (m s) as [[a s']|]. Qed.
Lemma wp_get (Q : S → S → Prop) s : Q s s → wp get Q s.
Proof. done. Qed.
Lemma wp_gets (f : S → A) (Q : A → S → Prop) s : Q (f s) s → wp (gets f) Q s.
Proof. done. Qed.
Lemma wp_modify (f : S → S) (Q : unit → S → Prop) s :
  Q tt (f s) → wp (modify f) Q s.
Proof. done. Qed.
Lemma wp_assert (b : bool) (Q : unit → S → Prop) s :
  b = true → Q tt s → wp (c_assert b) Q s.
Proof. by intros ->. Qed.
Lemma wp_lift (a : A) (r : result A) (Q : A → S → Prop) s :
  r = Done a → Q a s → wp (lift r) Q s.
Proof. by intros ->. Qed.
Lemma wp_oob (a : A) (o : option A) (Q : A → S → Prop) s :
  o = Some a → Q a s → wp (from_option_oob o) Q s.
Proof. by intros ->. Qed.
Lemma wp_arr_get (l : S → list A) i a (Q : A → S → Prop) s :
  l s !! i = Some a → Q a s → wp (arr_get l i) Q s.
Proof. intros Hl HQ. unfold wp, arr_get, bind, get. by rewrite Hl. Qed.

(** A run that finishes is described by [wp], and conversely. *)
Lemma wp_run m (Q : A → S → Prop) s a s' :
  wp m Q s → m s = Done (a, s') → Q a s'.
Proof. unfold wp. intros HQ Hm. by rewrite Hm in HQ. Qed.
Lemma wp_done m (Q : A → S → Prop) s :
  wp m Q s → ∃ a s', m s = Done (a, s') ∧ Q a s'.
Proof. unfold wp. destruct (m s) as [[a s']|]; naive_solver. Qed.
Lemma wp_intro m (Q : A → S → Prop) s a s' :
  m s = Done (a, s') → Q a s' → wp m Q s.
Proof. unfold wp. by intros ->. Qed.

Lemma bind_done m (k : A → M S B) s a s' :
  m s = Done (a, s') → bind m k s = k a s'.
Proof. unfold bind. by intros ->. Qed.
Lemma bind_inv m (k : A → M S B) s b s' :
  bind m k s = Done (b, s') →
  ∃ a s1, m s = Done (a, s1) ∧ k a s1 = Done (b, s').
Proof. unfold bind. destruct (m s) as [[a s1]|]; naive_solver. Qed.
Lemma assert_true m s : (c_assert true;; m) s = m s.
Proof. done. Qed.
End wp_rules.

Lemma bind_ret_r {S A} (m : M S A) x : bind m ret x = m x.
Proof. unfold bind. by destruct (m x) as [[a s']|]. Qed.
Lemma bind_assoc {S A B C} (m : M S A) (k : A → M S B) (k' : B → M S C) x :
  bind (bind m k) k' x = bind m (λ a, bind (k a) k') x.
Proof. unfold bind. by destruct (m x) as [[a s']|]. Qed.
Lemma bind_ext {S A B} (m : M S A) (k k' : A → M S B) x :
  (∀ a s, k a s = k' a s) → bind m k x = bind m k' x.
Proof. intros Hk. unfold bind. by destruct (m x) as [[a s']|]. Qed.

Ltac wp_step :=
  lazymatch goal with
  | |- wp (bind _ _) _ _ => apply wp_bind
  | |- wp (ret _) _ _ => apply wp_ret
  | |- wp get _ _ => apply wp_get
  | |- wp (gets _) _ _ => apply wp_gets
  | |- wp (modify _) _ _ => apply wp_modify
  | |- wp (c_assert _) _ _ => apply wp_assert
  | |- wp (from_option_oob _) _ _ => eapply wp_oob
  | |- wp (arr_get _ _) _ _ => eapply wp_arr_get
  | |- wp (if ?b then _ else _) _ _ => let E := fresh "E" in destruct b eqn:E
  end.
Ltac wp_steps := repeat (wp_step; cbn beta iota; try done).

(** ** Counting loops: [for (; i < i + k; i++) body(i);] *)

Fixpoint c_for {S} (k i : nat) (body : nat → M S unit) : M S unit :=
  match k with
  | O => ret tt
  | Datatypes.S k' => body i;; c_for k' (Datatypes.S i) body
  end.
#[global] Arguments c_for : simpl never.

Lemma wp_for {S} (I : nat → S → Prop) k i body (Q : unit → S → Prop) (s : S) :
  I i s →
  (∀ j s, (i <= j < i + k)%nat → I j s → wp (body j) (λ _ s', I (Datatypes.S j) s') s) →
  (∀ s, I (i + k)%nat s → Q tt s) →
  wp (c_for k i body) Q s.
Proof.
  revert i s. induction k as [|k IH]; intros i s HI Hbody HQ.
  - apply HQ. by rewrite Nat.add_0_r.
  - apply wp_bind. eapply wp_mono; [apply Hbody; [lia|done]|].
    intros [] s' HI'. apply IH; [done| |].
    + intros j s1 Hj. apply Hbody. lia.
    + intros s1. rewrite Nat.add_succ_comm. apply HQ.
Qed.

(** ** Invariants

    [keeps F I m P]: from every state in [I], [m] runs without a fault, stays
    in [I] and its result satisfies [P].  With [F := True] the run may also
    use up its fuel; with [F := False] it finishes. *)

Definition runs {S A} (F : Prop) (I : S → Prop) (m : M S A) (P : A → Prop) (s : S) : Prop :=
  match m s with
  | Done (a, s') => P a ∧ I s'
  | Fault f => F ∧ f = OutOfFuel
  end.
Definition keeps {S A} (F : Prop) (I : S → Prop) (m : M S A) (P : A → Prop) : Prop :=
  ∀ s, I s → runs F I m P s.

Section keeps_rules.
Context {S A B : Type} (F : Prop) (I : S → Prop).
Implicit Types (m : M S A) (P : A → Prop).

Lemma runs_done m P s a s' :
  m s = Done (a, s') → P a → I s' → runs F I m P s.
Proof. unfold runs. by intros ->. Qed.
Lemma runs_step m (k : A → M S B) Q s a s' :
  m s = Done (a, s') → runs F I (k a) Q s' → runs F I (bind m k) Q s.
Proof. unfold runs, bind. by intros ->. Qed.
Lemma runs_bind P m (k : A → M S B) Q s :
  runs F I m P s → (∀ a, P a → keeps F I (k a) Q) → runs F I (bind m k) Q s.
Proof.
  unfold runs, bind. intros Hm Hk. destruct (m s) as [[a s']|]; [|done].
  destruct Hm as [HP Hs']. by apply Hk.
Qed.
Lemma keeps_mono m P P' : keeps F I m P → (∀ a, P a → P' a) → keeps F I m P'.
Proof.
  intros Hm HP s Hs. specialize (Hm s Hs). unfold runs in *.
  destruct (m s) as [[a s']|]; naive_solver.
Qed.
Lemma keeps_bind P m (k : A → M S B) Q :
  keeps F I m P → (∀ a, P a → keeps F I (k a) Q) → keeps F I (bind m k) Q.
Proof.
  intros Hm Hk s Hs. eapply runs_bind; eauto.
Qed.
Lemma keeps_ret (a : A) P : P a → keeps F I (ret a) P.
Proof. by intros HP s Hs. Qed.
Lemma keeps_get (P : S → Prop) : (∀ s, I s → P s) → keeps F I get P.
Proof. intros HP s Hs. cbn. auto. Qed.
Lemma keeps_modify (f : S → S) (P : unit → Prop) :
  P tt → (∀ s, I s → I (f s)) → keeps F I (modify f) P.
Proof. intros HP Hf s Hs. cbn. auto. Qed.
Lemma keeps_assert (b : bool) (P : unit → Prop) :
  b = true → P tt → keeps F I (c_assert b) P.
Proof. intros -> HP s Hs. cbn. auto. Qed.
Lemma keeps_lift (r : result A) a P : r = Done a → P a → keeps F I (lift r) P.
Proof. intros -> HP s Hs. cbn. auto. Qed.
Lemma keeps_oob (o : option A) P :
  is_Some o → (∀ a, o = Some a → P a) → keeps F I (from_option_oob o) P.
Proof. intros [a ->] HP s Hs. cbn. auto. Qed.
Lemma keeps_arr_get (l : S → list A) i P :
  (∀ s, I s → is_Some (l s !! i)) → (∀ s a, I s → l s !! i = Some a → P a) →
  keeps F I (arr_get l i) P.
Proof.
  intros Hl HP s Hs. unfold runs, arr_get, bind, get. destruct (Hl s Hs) as [a Ha].
  rewrite Ha. cbn. eauto.
Qed.
Lemma keeps_wp m P s :
  ¬ F → keeps F I m P → I s → wp m (λ a s', P a ∧ I s') s.
Proof.
  intros HF Hm Hs. unfold wp. specialize (Hm s Hs). unfold runs in Hm.
  destruct (m s) as [[a s']|]; tauto.
Qed.
Lemma wp_keeps m P :
  (∀ s, I s → wp m (λ a s', P a ∧ I s') s) → keeps F I m P.
Proof.
  intros Hm s Hs. specialize (Hm s Hs). unfold wp in Hm. unfold runs.
  by destruct (m s) as [[a s']|].
Qed.
End keeps_rules.

Lemma keeps_for {S} (F : Prop) (I : S → Prop) k i (body : nat → M S unit) (P : unit → Prop) :
  P tt → (∀ j, (i <= j < i + k)%nat → keeps F I (body j) (λ _, True)) →
  keeps F I (c_for k i body) P.
Proof.
  intros HP. revert i. induction k as [|k IH]; intros i Hbody; [by apply keeps_ret|].
  eapply keeps_bind; [apply Hbody; lia|]. intros _ _. apply IH. intros j Hj. apply Hbody. lia.
Qed.

(** ** Linear search

    [c_scan p l k i] is [for (; i < i + k; i++) if (p (l[i])) break;]: the
    first index from [i] that satisfies [p], or the bound [i + k]. *)

Fixpoint c_scan {A} (p : A → bool) (l : list A) (k i : nat) : result nat :=
  match k with
  | O => Done i
  | S k' =>
      match l !! i with
      | None => Fault OutOfBounds
      | Some x => if p x then Done i else c_scan p l k' (S i)
      end
  end.
#[global] Arguments c_scan : simpl never.

Section c_scan.
Context {A : Type}.
Implicit Types (p : A → bool) (l : list A).

Lemma c_scan_spec p l k i :
  (i + k <= length l)%nat →
  ∃ j, c_scan p l k i = Done j ∧ (i <= j <= i + k)%nat ∧
    (∀ m x, (i <= m < j)%nat → l !! m = Some x → p x = false) ∧
    ((j < i + k)%nat → ∃ x, l !! j = Some x ∧ p x = true).
Proof.
  revert i. induction k as [|k IH]; intros i Hlen.
  - exists i. split; [done|]. split; [lia|]. split; intros; lia.
  - destruct (lookup_lt_is_Some_2 l i) as [x Hx]; [lia|].
    unfold c_scan; fold (@c_scan A). rewrite Hx.
    destruct (p x) eqn:Hp.
    + exists i. split; [done|]. split; [lia|]. split; [intros; lia|]. eauto.
    + destruct (IH (S i)) as (j & Hj & Hle & Hbefore & Hat); [lia|].
      exists j. split; [done|]. split; [lia|]. split.
      * intros m y Hm Hy. destruct (decide (m = i)) as [->|]; [congruence|].
        apply (Hbefore m); [lia|done].
      * intros. apply Hat. lia.
Qed.

(** Searching a whole array: the first match, or the length. *)
Lemma c_scan_all p l k :
  length l = k →
  (∃ j x, c_scan p l k 0 = Done j ∧ (j < k)%nat ∧ l !! j = Some x ∧
     p x = true ∧ ∀ m y, (m < j)%nat → l !! m = Some y → p y = false) ∨
  (c_scan p l k 0 = Done k ∧ ∀ m y, l !! m = Some y → p y = false).
Proof.
  intros Hlen. destruct (c_scan_spec p l k 0) as (j & Hj & Hle & Hb & Ha); [lia|].
  destruct (decide (j < k)%nat) as [Hlt|Hge].
  - left. destruct (Ha Hlt) as (x & Hx & Hp). exists j, x.
    repeat split; try done. intros m y Hm. apply Hb. lia.
  - right. replace k with j by lia. split; [by replace j with k at 1 by lia|].
    intros m y Hy. apply (Hb m); [|done].
    pose proof (lookup_lt_Some _ _ _ Hy). lia.
Qed.
End c_scan.

(** ** Counting the elements of an array that satisfy a test *)

Definition countb {A} (f : A → bool) (l : list A) : Z :=
  Z.of_nat (length (filter (λ x, f x = true) l)).

Section countb.
Context {A : Type}.
Implicit Types (f g : A → bool) (l : list A).

Lemma countb_nil f : countb f [] = 0.
Proof. done. Qed.
Lemma countb_cons f x l : countb f (x :: l) = Z.b2z (f x) + countb f l.
Proof.
  unfold countb. rewrite filter_cons. destruct (f x) eqn:E; case_decide; try congruence; cbn; lia.
Qed.
Lemma countb_app f l1 l2 : countb f (l1 ++ l2) = countb f l1 + countb f l2.
Proof. unfold countb. rewrite filter_app, length_app. lia. Qed.
Lemma countb_nonneg f l : 0 <= countb f l.
Proof. unfold countb. lia. Qed.
Lemma countb_le_length f l : countb f l <= Z.of_nat (length l).
Proof. unfold countb. pose proof (length_filter (λ x, f x = true) l). lia. Qed.
Lemma countb_insert f l i x y :
  l !! i = Some x →
  countb f (<[i := y]> l) = countb f l - Z.b2z (f x) + Z.b2z (f y).
Proof.
  intros Hi. rewrite (insert_take_drop _ _ _ (lookup_lt_Some _ _ _ Hi)).
  rewrite <- (take_drop_middle l i x Hi) at 3.
  rewrite !countb_app, !countb_cons. lia.
Qed.
Lemma countb_mono f g l :
  (∀ x, x ∈ l → f x = true → g x = true) → countb f l <= countb g l.
Proof.
  induction l as [|x l IH]; intros Hfg; [done|]. rewrite !countb_cons.
  assert (countb f l <= countb g l) by (apply IH; set_solver).
  specialize (Hfg x ltac:(set_solver)).
  destruct (f x), (g x); cbn; lia.
Qed.
Lemma countb_le_eq f g l :
  (∀ x, x ∈ l → f x = true → g x = true) → countb g l <= countb f l →
  ∀ x, x ∈ l → f x = g x.
Proof.
  induction l as [|x l IH]; intros Hfg Hle y Hy; [set_solver|].
  rewrite !countb_cons in Hle.
  pose proof (countb_mono f g l ltac:(set_solver)).
  pose proof (Hfg x ltac:(set_solver)) as Hx.
  assert (f x = g x) as Hx'.
  { destruct (f x), (g x); try done; cbn in Hle; [by specialize (Hx eq_refl)|lia]. }
  rewrite Hx' in Hle. apply elem_of_cons in Hy as [->|Hy]; [done|].
  apply IH; [set_solver|lia|done].
Qed.
Lemma countb_pos f l : 0 < countb f l → ∃ x, x ∈ l ∧ f x = true.
Proof.
  induction l as [|x l IH]; [done|]. rewrite countb_cons.
  destruct (f x) eqn:E; [intros _; exists x; set_solver|cbn].
  intros (y&?&?)%IH. exists y; set_solver.
Qed.
Lemma countb_ext f g l : (∀ x, x ∈ l → f x = g x) → countb f l = countb g l.
Proof.
  intros H. apply Z.le_antisymm; apply countb_mono; intros x Hx; by rewrite H.
Qed.
Lemma countb_zero f l : (∀ x, x ∈ l → f x = false) → countb f l = 0.
Proof.
  intros H. rewrite (countb_ext f (λ _, false)) by done.
  induction l; [done|]. rewrite countb_cons, IHl by set_solver. done.
Qed.
End countb.

#[export] Hint Resolve countb_nonneg : core.
