(* ===== verification/McaCrc.v ===== *)
(** * The CRC-32 of mca_utils_impl.c and the keys of the databases

    mca_Crc32_ComputeBuf works a byte at a time with a table; here it is proved
    to be the division of the message, bit by bit, by the CRC-32 polynomial, and
    never to miss a single changed byte.  The initialization of MRAPI derives the
    keys of its shared databases from it. *)

From S2P Require Import Prelude.

(** ** The table and the routine (mca_utils_impl.c) *)

Definition crcTable : list Z :=
  [0x00000000; 0x77073096; 0xee0e612c; 0x990951ba; 0x076dc419; 0x706af48f;
   0xe963a535; 0x9e6495a3; 0x0edb8832; 0x79dcb8a4; 0xe0d5e91e; 0x97d2d988;
   0x09b64c2b; 0x7eb17cbd; 0xe7b82d07; 0x90bf1d91; 0x1db71064; 0x6ab020f2;
   0xf3b97148; 0x84be41de; 0x1adad47d; 0x6ddde4eb; 0xf4d4b551; 0x83d385c7;
   0x136c9856; 0x646ba8c0; 0xfd62f97a; 0x8a65c9ec; 0x14015c4f; 0x63066cd9;
   0xfa0f3d63; 0x8d080df5; 0x3b6e20c8; 0x4c69105e; 0xd56041e4; 0xa2677172;
   0x3c03e4d1; 0x4b04d447; 0xd20d85fd; 0xa50ab56b; 0x35b5a8fa; 0x42b2986c;
   0xdbbbc9d6; 0xacbcf940; 0x32d86ce3; 0x45df5c75; 0xdcd60dcf; 0xabd13d59;
   0x26d930ac; 0x51de003a; 0xc8d75180; 0xbfd06116; 0x21b4f4b5; 0x56b3c423;
   0xcfba9599; 0xb8bda50f; 0x2802b89e; 0x5f058808; 0xc60cd9b2; 0xb10be924;
   0x2f6f7c87; 0x58684c11; 0xc1611dab; 0xb6662d3d; 0x76dc4190; 0x01db7106;
   0x98d220bc; 0xefd5102a; 0x71b18589; 0x06b6b51f; 0x9fbfe4a5; 0xe8b8d433;
   0x7807c9a2; 0x0f00f934; 0x9609a88e; 0xe10e9818; 0x7f6a0dbb; 0x086d3d2d;
   0x91646c97; 0xe6635c01; 0x6b6b51f4; 0x1c6c6162; 0x856530d8; 0xf262004e;
   0x6c0695ed; 0x1b01a57b; 0x8208f4c1; 0xf50fc457; 0x65b0d9c6; 0x12b7e950;
   0x8bbeb8ea; 0xfcb9887c; 0x62dd1ddf; 0x15da2d49; 0x8cd37cf3; 0xfbd44c65;
   0x4db26158; 0x3ab551ce; 0xa3bc0074; 0xd4bb30e2; 0x4adfa541; 0x3dd895d7;
   0xa4d1c46d; 0xd3d6f4fb; 0x4369e96a; 0x346ed9fc; 0xad678846; 0xda60b8d0;
   0x44042d73; 0x33031de5; 0xaa0a4c5f; 0xdd0d7cc9; 0x5005713c; 0x270241aa;
   0xbe0b1010; 0xc90c2086; 0x5768b525; 0x206f85b3; 0xb966d409; 0xce61e49f;
   0x5edef90e; 0x29d9c998; 0xb0d09822; 0xc7d7a8b4; 0x59b33d17; 0x2eb40d81;
   0xb7bd5c3b; 0xc0ba6cad; 0xedb88320; 0x9abfb3b6; 0x03b6e20c; 0x74b1d29a;
   0xead54739; 0x9dd277af; 0x04db2615; 0x73dc1683; 0xe3630b12; 0x94643b84;
   0x0d6d6a3e; 0x7a6a5aa8; 0xe40ecf0b; 0x9309ff9d; 0x0a00ae27; 0x7d079eb1;
   0xf00f9344; 0x8708a3d2; 0x1e01f268; 0x6906c2fe; 0xf762575d; 0x806567cb;
   0x196c3671; 0x6e6b06e7; 0xfed41b76; 0x89d32be0; 0x10da7a5a; 0x67dd4acc;
   0xf9b9df6f; 0x8ebeeff9; 0x17b7be43; 0x60b08ed5; 0xd6d6a3e8; 0xa1d1937e;
   0x38d8c2c4; 0x4fdff252; 0xd1bb67f1; 0xa6bc5767; 0x3fb506dd; 0x48b2364b;
   0xd80d2bda; 0xaf0a1b4c; 0x36034af6; 0x41047a60; 0xdf60efc3; 0xa867df55;
   0x316e8eef; 0x4669be79; 0xcb61b38c; 0xbc66831a; 0x256fd2a0; 0x5268e236;
   0xcc0c7795; 0xbb0b4703; 0x220216b9; 0x5505262f; 0xc5ba3bbe; 0xb2bd0b28;
   0x2bb45a92; 0x5cb36a04; 0xc2d7ffa7; 0xb5d0cf31; 0x2cd99e8b; 0x5bdeae1d;
   0x9b64c2b0; 0xec63f226; 0x756aa39c; 0x026d930a; 0x9c0906a9; 0xeb0e363f;
   0x72076785; 0x05005713; 0x95bf4a82; 0xe2b87a14; 0x7bb12bae; 0x0cb61b38;
   0x92d28e9b; 0xe5d5be0d; 0x7cdcefb7; 0x0bdbdf21; 0x86d3d2d4; 0xf1d4e242;
   0x68ddb3f8; 0x1fda836e; 0x81be16cd; 0xf6b9265b; 0x6fb077e1; 0x18b74777;
   0x88085ae6; 0xff0f6a70; 0x66063bca; 0x11010b5c; 0x8f659eff; 0xf862ae69;
   0x616bffd3; 0x166ccf45; 0xa00ae278; 0xd70dd2ee; 0x4e048354; 0x3903b3c2;
   0xa7672661; 0xd06016f7; 0x4969474d; 0x3e6e77db; 0xaed16a4a; 0xd9d65adc;
   0x40df0b66; 0x37d83bf0; 0xa9bcae53; 0xdebb9ec5; 0x47b2cf7f; 0x30b5ffe9;
   0xbdbdf21c; 0xcabac28a; 0x53b39330; 0x24b4a3a6; 0xbad03605; 0xcdd70693;
   0x54de5729; 0x23d967bf; 0xb3667a2e; 0xc4614ab8; 0x5d681b02; 0x2a6f2b94;
   0xb40bbe37; 0xc30c8ea1; 0x5a05df1b; 0x2d02ef8d].
Definition crc_mask : Z := 0xFFFFFFFF.

(** [for (i=0; i < bufLen; i++)]; unsigned long is wide enough for every
    value, and the index never leaves the table. *)
Fixpoint crc_loop (crc32 : Z) (byteBuf : list Z) : Z :=
  match byteBuf with
  | [] => crc32
  | b :: l =>
      crc_loop (Z.lxor (Z.shiftr crc32 8)
        (nth (Z.to_nat (Z.land (Z.lxor crc32 b) 0xFF)) crcTable 0)) l
  end.
Definition mca_Crc32_ComputeBuf (inCrc32 : Z) (buf : list Z) : Z :=
  Z.lxor (crc_loop (Z.lxor inCrc32 crc_mask) buf) crc_mask.

(** ** Database keys (mrapi_impl_spec_initialize.c)

    A key is an int.  A conversion to unsigned long extends its sign, and the
    result is cut down to an int again. *)

Definition key_of (key : Z) (buff : list Z) : Z :=
  i32 (mca_Crc32_ComputeBuf (key mod 2 ^ 64) buff).
(** char buff[128], filled with NULs by memset; strcat past its end is a
    fault. *)
Definition buff_size : nat := 128.
Definition fill_buff (s : list Z) : result (list Z) :=
  if (length s <? buff_size)%nat then Done (s ++ repeat 0 (buff_size - length s))
  else Fault OutOfBounds.
Definition chars (s : string) : list Z :=
  (λ c, Z.of_nat (Ascii.nat_of_ascii c)) <$> String.list_ascii_of_string s.

(** The key over all, then one key for each database, the text growing at each
    step. *)
Fixpoint suffix_keys (key : Z) (text : list Z) (suffixes : list string) : result (list Z) :=
  match suffixes with
  | [] => Done []
  | suffix :: rest =>
      let text := text ++ chars suffix in
      match fill_buff text with
      | Fault f => Fault f
      | Done buff =>
          match suffix_keys key text rest with
          | Fault f => Fault f
          | Done keys => Done (key_of key buff :: keys)
          end
      end
  end.
Definition mrapi_database_keys (user : list Z) : result (Z * list Z) :=
  let text := user ++ chars "_mrapi" in
  match fill_buff text with
  | Fault f => Fault f
  | Done buff =>
      let key := key_of 0 buff in
      match suffix_keys key text ["_db"; "_sems"; "_shmems"; "_rmems"; "_requests"] with
      | Fault f => Fault f
      | Done keys => Done (key, keys)
      end
  end.

(** ** The reference: division bit by bit *)

(** The polynomial of CRC-32, the bit of the highest power first to leave. *)
Definition polynomial : Z := 0xEDB88320.
Definition crc_bit (c : Z) : Z :=
  if Z.testbit c 0 then Z.lxor (Z.shiftr c 1) polynomial else Z.shiftr c 1.
Definition crc_byte (c b : Z) : Z := Nat.iter 8 crc_bit (Z.lxor c b).
Definition crc32_reference (c : Z) (buf : list Z) : Z :=
  Z.lxor (foldl crc_byte (Z.lxor c crc_mask) buf) crc_mask.
Definition is_byte (b : Z) : Prop := 0 <= b < 256.

(** ** A step of the table is eight steps of the division *)

Lemma byte_high_bits b n : is_byte b → 8 <= n → Z.testbit b n = false.
Proof.
  intros [H0 H1] Hn. destruct (decide (b = 0)) as [->|]; [apply Z.testbit_0_l|].
  apply Z.bits_above_log2; [lia|]. assert (Z.log2 b < 8); [|lia]. apply Z.log2_lt_pow2; lia.
Qed.
Lemma crc_bit_lxor a b : crc_bit (Z.lxor a b) = Z.lxor (crc_bit a) (crc_bit b).
Proof.
  unfold crc_bit. rewrite Z.lxor_spec, Z.shiftr_lxor.
  set (x := Z.shiftr a 1). set (y := Z.shiftr b 1).
  destruct (Z.testbit a 0), (Z.testbit b 0); cbn [xorb].
  - rewrite <- (Z.lxor_assoc (Z.lxor x polynomial)), (Z.lxor_assoc x polynomial y),
      (Z.lxor_comm polynomial y), <- (Z.lxor_assoc x y), Z.lxor_assoc, Z.lxor_nilpotent.
    by rewrite Z.lxor_0_r.
  - by rewrite !Z.lxor_assoc, (Z.lxor_comm y).
  - by rewrite Z.lxor_assoc.
  - done.
Qed.
Lemma crc_bits_lxor k a b :
  Nat.iter k crc_bit (Z.lxor a b) = Z.lxor (Nat.iter k crc_bit a) (Nat.iter k crc_bit b).
Proof. induction k as [|k IH]; [done|]. by rewrite !Nat.iter_succ, IH, crc_bit_lxor. Qed.
Lemma crc_bit_shiftl h n : 0 < n → crc_bit (Z.shiftl h n) = Z.shiftl h (n - 1).
Proof.
  intros Hn. unfold crc_bit. rewrite Z.shiftl_spec_low by lia.
  by rewrite Z.shiftr_shiftl_l by lia.
Qed.
Lemma crc_bits_shiftl k h n : Z.of_nat k <= n → Nat.iter k crc_bit (Z.shiftl h n) = Z.shiftl h (n - Z.of_nat k).
Proof.
  induction k as [|k IH]; intros Hn; [by rewrite Z.sub_0_r|].
  rewrite Nat.iter_succ, IH by lia. rewrite crc_bit_shiftl by lia. f_equal. lia.
Qed.
Lemma table_entries i : is_byte i → nth (Z.to_nat i) crcTable 0 = Nat.iter 8 crc_bit i.
Proof.
  intros Hi. assert (forallb (λ n, nth n crcTable 0 =? Nat.iter 8 crc_bit (Z.of_nat n)) (seq 0 256) = true)
    as Hall by by vm_compute.
  rewrite forallb_forall in Hall. specialize (Hall (Z.to_nat i)).
  rewrite Z.eqb_eq, Z2Nat.id in Hall by apply Hi. apply Hall. apply in_seq. unfold is_byte in Hi. lia.
Qed.
Lemma low_byte x : is_byte (Z.land x 0xFF).
Proof. change 0xFF with (Z.ones 8). rewrite Z.land_ones by lia. apply Z.mod_pos_bound. lia. Qed.

(** A register is its high part and its low byte. *)
Lemma split_byte c b :
  is_byte b → Z.lxor c b = Z.lxor (Z.shiftl (Z.shiftr c 8) 8) (Z.land (Z.lxor c b) 0xFF).
Proof.
  intros Hb. apply Z.bits_inj'. intros n Hn. change 0xFF with (Z.ones 8).
  rewrite !Z.lxor_spec, Z.land_spec, Z.shiftl_spec, Z.lxor_spec by lia.
  destruct (decide (n < 8)).
  - rewrite Z.ones_spec_low by lia. rewrite (Z.testbit_neg_r _ (n - 8)) by lia. by rewrite andb_true_r.
  - rewrite Z.ones_spec_high by lia. rewrite (byte_high_bits b n Hb) by lia.
    rewrite Z.shiftr_spec by lia. replace (n - 8 + 8) with n by lia. by rewrite andb_false_r, !xorb_false_r.
Qed.
Lemma crc_step c b :
  is_byte b →
  Z.lxor (Z.shiftr c 8) (nth (Z.to_nat (Z.land (Z.lxor c b) 0xFF)) crcTable 0) = crc_byte c b.
Proof.
  intros Hb. unfold crc_byte. rewrite (split_byte c b Hb), crc_bits_lxor.
  rewrite (crc_bits_shiftl 8) by done. rewrite Z.shiftl_0_r.
  rewrite <- (table_entries _ (low_byte _)). do 3 f_equal. by rewrite <- (split_byte c b Hb).
Qed.
Lemma crc_loop_reference buf c : Forall is_byte buf → crc_loop c buf = foldl crc_byte c buf.
Proof.
  intros Hb. revert c. induction Hb as [|b l Hb Hl IH]; intros c; cbn [crc_loop foldl]; [done|].
  by rewrite crc_step, IH.
Qed.

(** ** Registers of 32 bits *)

Definition is_register (c : Z) : Prop := 0 <= c < 2 ^ 32.

Lemma register_log2 c : is_register c → Z.log2 c < 32.
Proof.
  intros [H0 H1]. destruct (decide (c = 0)) as [->|]; [done|]. apply Z.log2_lt_pow2; lia.
Qed.
Lemma lxor_register a b : is_register a → is_register b → is_register (Z.lxor a b).
Proof.
  intros Ha Hb. pose proof (register_log2 a Ha). pose proof (register_log2 b Hb).
  assert (0 <= Z.lxor a b) as Hpos by (apply Z.lxor_nonneg; unfold is_register in *; lia).
  split; [done|]. destruct (decide (Z.lxor a b = 0)) as [->|]; [lia|].
  apply Z.log2_lt_pow2; [lia|]. pose proof (Z.log2_lxor a b). unfold is_register in *. lia.
Qed.
Lemma shiftr_register c : is_register c → 0 <= Z.shiftr c 1 < 2 ^ 31.
Proof.
  intros [H0 H1]. rewrite Z.shiftr_div_pow2 by lia. change (2 ^ 1) with 2.
  pose proof (Z.div_mod c 2 ltac:(lia)). pose proof (Z.mod_pos_bound c 2 ltac:(lia)). lia.
Qed.
Lemma crc_bit_register c : is_register c → is_register (crc_bit c).
Proof.
  intros Hc. pose proof (shiftr_register c Hc). unfold crc_bit.
  destruct (Z.testbit c 0); [apply lxor_register; [|by split]|]; unfold is_register; lia.
Qed.
(** No bit is lost: a step of the division only makes zero from zero. *)
Lemma crc_bit_nonzero c : is_register c → c ≠ 0 → crc_bit c ≠ 0.
Proof.
  intros Hc Hn He. pose proof (shiftr_register c Hc) as Hr. unfold crc_bit in He.
  destruct (Z.testbit c 0) eqn:Hb.
  - apply Z.lxor_eq in He. rewrite He in Hr. unfold polynomial in Hr. lia.
  - rewrite Z.bit0_odd in Hb. rewrite Z.shiftr_div_pow2 in He by lia. change (2 ^ 1) with 2 in He.
    pose proof (Z.div_mod c 2 ltac:(lia)). rewrite Zmod_odd, Hb in *. lia.
Qed.
Lemma crc_bits_nonzero k c : is_register c → c ≠ 0 → Nat.iter k crc_bit c ≠ 0.
Proof.
  intros Hc Hn. assert (is_register (Nat.iter k crc_bit c) ∧ Nat.iter k crc_bit c ≠ 0); [|tauto].
  induction k as [|k [IH1 IH2]]; [done|]. rewrite Nat.iter_succ.
  split; [by apply crc_bit_register|by apply crc_bit_nonzero].
Qed.

(** ** A buffer as one number *)

(** The bits of a buffer, the first byte lowest. *)
Fixpoint bits_of (buf : list Z) : Z :=
  match buf with
  | [] => 0
  | b :: l => Z.lxor b (Z.shiftl (bits_of l) 8)
  end.
Lemma crc_fold buf c :
  foldl crc_byte c buf = Nat.iter (8 * length buf) crc_bit (Z.lxor c (bits_of buf)).
Proof.
  revert c. induction buf as [|b l IH]; intros c; cbn [foldl bits_of length];
    [by rewrite Z.lxor_0_r|].
  rewrite IH. replace (8 * S (length l))%nat with (8 * length l + 8)%nat by lia.
  rewrite Nat.iter_add. f_equal. unfold crc_byte.
  rewrite <- Z.lxor_assoc, (crc_bits_lxor 8 (Z.lxor c b)), (crc_bits_shiftl 8) by done.
  by rewrite Z.shiftl_0_r.
Qed.

(** ** The properties *)

(** C35: The table-driven routine divides the message by the CRC-32 polynomial bit by
    bit, whatever value it continues from. *)
Theorem crc32_is_polynomial_division inCrc32 buf :
  Forall is_byte buf → mca_Crc32_ComputeBuf inCrc32 buf = crc32_reference inCrc32 buf.
Proof.
  intros Hb. unfold mca_Crc32_ComputeBuf, crc32_reference. by rewrite crc_loop_reference.
Qed.
Lemma crc32_is_polynomial_division_witness :
  mca_Crc32_ComputeBuf 0 (chars "123456789") = crc32_reference 0 (chars "123456789") ∧
  crc32_reference 0 (chars "123456789") = 0xCBF43926.
Proof.
  split; [|by vm_compute]. apply crc32_is_polynomial_division.
  apply (bool_decide_unpack (Forall (λ b, 0 <= b < 256) (chars "123456789"))). by vm_compute.
Defined.

(** Two buffers of one length whose bits differ inside a window of 32 bits,
    wherever it lies, have different checksums: the routine detects every burst
    of up to 32 bits, and so every changed byte. *)
Theorem crc32_detects_bursts inCrc32 buf1 buf2 e k :
  Forall is_byte buf1 → Forall is_byte buf2 → length buf1 = length buf2 →
  Z.lxor (bits_of buf1) (bits_of buf2) = Z.shiftl e k → 0 < e < 2 ^ 32 →
  0 <= k <= 8 * Z.of_nat (length buf1) →
  mca_Crc32_ComputeBuf inCrc32 buf1 ≠ mca_Crc32_ComputeBuf inCrc32 buf2.
Proof.
  intros H1 H2 Hl He Hr Hk Heq. unfold mca_Crc32_ComputeBuf in Heq.
  rewrite !crc_loop_reference, !crc_fold, <- Hl in Heq by done.
  set (c := Z.lxor inCrc32 crc_mask) in Heq.
  apply (f_equal (λ x, Z.lxor x crc_mask)) in Heq.
  rewrite !Z.lxor_assoc, Z.lxor_nilpotent, !Z.lxor_0_r in Heq.
  apply (proj2 (Z.lxor_eq_0_iff _ _)) in Heq. rewrite <- crc_bits_lxor in Heq.
  replace (Z.lxor (Z.lxor c (bits_of buf1)) (Z.lxor c (bits_of buf2))) with (Z.shiftl e k) in Heq.
  2: { rewrite <- He, (Z.lxor_comm c (bits_of buf1)), Z.lxor_assoc, <- (Z.lxor_assoc c c).
       by rewrite Z.lxor_nilpotent, Z.lxor_0_l. }
  replace (8 * length buf1)%nat with ((8 * length buf1 - Z.to_nat k) + Z.to_nat k)%nat in Heq by lia.
  rewrite Nat.iter_add, crc_bits_shiftl in Heq by lia.
  replace (k - Z.of_nat (Z.to_nat k)) with 0 in Heq by lia. rewrite Z.shiftl_0_r in Heq.
  apply (crc_bits_nonzero _ e) in Heq; [done|unfold is_register; lia|lia].
Qed.
Lemma crc32_detects_bursts_witness :
  mca_Crc32_ComputeBuf 7 (chars "semaphore") ≠ mca_Crc32_ComputeBuf 7 (chars "semafhore").
Proof.
  apply (crc32_detects_bursts 7 _ _ (Z.lxor 112 102) 32); try (apply (bool_decide_unpack
    (Forall (λ b, 0 <= b < 256) _)); by vm_compute); [done|by vm_compute|by vm_compute|].
  split; [lia|]. vm_compute. discriminate.
Defined.

(** A checksum continues over several buffers, as the documentation says. *)
Lemma crc32_accumulates inCrc32 buf1 buf2 :
  mca_Crc32_ComputeBuf (mca_Crc32_ComputeBuf inCrc32 buf1) buf2
  = mca_Crc32_ComputeBuf inCrc32 (buf1 ++ buf2).
Proof.
  unfold mca_Crc32_ComputeBuf. rewrite Z.lxor_assoc, Z.lxor_nilpotent, Z.lxor_0_r. f_equal.
  generalize (Z.lxor inCrc32 crc_mask). induction buf1 as [|b l IH]; intros c; [done|].
  cbn [crc_loop app]. apply IH.
Qed.
(** A key with its top bit set is extended to 64 bits before it is continued, so
    that the keys of the databases are then not the checksums of the text so
    far. *)
Lemma negative_keys_do_not_accumulate :
  ∃ buff text, key_of (key_of 0 buff) text ≠ key_of 0 (buff ++ text).
Proof.
  exists (chars "123456789"), (chars "_db_"). by vm_compute.
Qed.
(** The six texts fit the buffer exactly when the user's name has at most 91
    characters. *)
Lemma database_keys_fit user :
  (length user <= 91)%nat ↔ ∃ keys, mrapi_database_keys user = Done keys.
Proof.
  unfold mrapi_database_keys. cbn [suffix_keys]. unfold fill_buff. rewrite !length_app.
  change (length (chars "_mrapi")) with 6%nat. change (length (chars "_db")) with 3%nat.
  change (length (chars "_sems")) with 5%nat. change (length (chars "_shmems")) with 7%nat.
  change (length (chars "_rmems")) with 6%nat. change (length (chars "_requests")) with 9%nat.
  unfold buff_size. split.
  - intros Hl. repeat (rewrite (proj2 (Nat.ltb_lt _ _)) by lia). eauto.
  - intros [keys Hk]. destruct (decide (length user <= 91)%nat); [done|]. exfalso.
    repeat (lazymatch type of Hk with context [if (?a <? ?b)%nat then _ else _] =>
      destruct (Nat.ltb_spec a b); [|discriminate Hk] end). lia.
Qed.
