(* ===== verification/Bytes.v ===== *)
(** Byte-addressed memory: a finite map from addresses to bytes, and integers
    in it, least significant byte first. *)

From S2P Require Import Prelude.

Fixpoint load_bytes (k : nat) (a : Z) (m : gmap Z Z) : result (list Z) :=
  match k with
  | O => Done []
  | S k' =>
      match m !! a with
      | None => Fault OutOfBounds
      | Some b =>
          match load_bytes k' (a + 1) m with
          | Fault f => Fault f
          | Done l => Done (b :: l)
          end
      end
  end.
Fixpoint store_bytes (l : list Z) (a : Z) (m : gmap Z Z) : result (gmap Z Z) :=
  match l with
  | [] => Done m
  | b :: l' =>
      match m !! a with
      | None => Fault OutOfBounds
      | Some _ => store_bytes l' (a + 1) (<[a := b]> m)
      end
  end.
(** The [k] bytes of an integer, least significant first. *)
Fixpoint le_bytes (k : nat) (v : Z) : list Z :=
  match k with
  | O => []
  | S k' => u8 v :: le_bytes k' (Z.shiftr v 8)
  end.
Fixpoint le_value (l : list Z) : Z :=
  match l with
  | [] => 0
  | b :: l' => b + 256 * le_value l'
  end.

(** ** Loading and storing *)

Lemma load_bytes_length k a m l : load_bytes k a m = Done l → length l = k.
Proof.
  revert a l. induction k as [|k IH]; intros a l; cbn; [by intros [= <-]|].
  destruct (m !! a); [|done]. destruct (load_bytes k (a + 1) m) eqn:Hl; [|done].
  intros [= <-]. cbn. f_equal. by eapply IH.
Qed.
Lemma store_bytes_below l a m m' x : store_bytes l a m = Done m' → x < a → m' !! x = m !! x.
Proof.
  revert a m. induction l as [|b l IH]; intros a m; cbn; [by intros [= ->]|].
  destruct (m !! a) eqn:Ha; [|done]. intros Hs Hx. rewrite (IH _ _ Hs) by lia.
  by rewrite lookup_insert_ne by lia.
Qed.
(** What was stored is loaded again. *)
Lemma load_store_bytes l a m m' :
  store_bytes l a m = Done m' → load_bytes (length l) a m' = Done l.
Proof.
  revert a m. induction l as [|b l IH]; intros a m; cbn; [done|].
  destruct (m !! a) eqn:Ha; [|done]. intros Hs.
  rewrite (store_bytes_below _ _ _ _ a Hs) by lia. rewrite lookup_insert_eq.
  by rewrite (IH _ _ Hs).
Qed.
(** Storing works exactly where there is memory. *)
Lemma store_bytes_ok l a m :
  (∀ i, 0 <= i < Z.of_nat (length l) → is_Some (m !! (a + i))) → ∃ m', store_bytes l a m = Done m'.
Proof.
  revert a m. induction l as [|b l IH]; intros a m Hm; cbn [store_bytes]; [eauto|].
  cbn [length] in Hm. destruct (Hm 0) as [x Hx]; [lia|]. rewrite Z.add_0_r in Hx. rewrite Hx.
  apply IH. intros i Hi. rewrite lookup_insert_ne by lia.
  replace (a + 1 + i) with (a + (i + 1)) by lia. apply Hm. lia.
Qed.
Lemma store_bytes_domain l a m m' x : store_bytes l a m = Done m' → is_Some (m !! x) → is_Some (m' !! x).
Proof.
  revert a m. induction l as [|b l IH]; intros a m; cbn; [by intros [= ->]|].
  destruct (m !! a); [|done]. intros Hs Hx. eapply IH; [exact Hs|]. rewrite lookup_insert_is_Some'. tauto.
Qed.
Lemma le_bytes_length k v : length (le_bytes k v) = k.
Proof. revert v. induction k; intros v; cbn; [done|]. by rewrite IHk. Qed.

(** An integer survives the way through its bytes. *)
Lemma le_value_bytes k v : le_value (le_bytes k v) = v mod 2 ^ (8 * Z.of_nat k).
Proof.
  revert v. induction k as [|k IH]; intros v; cbn [le_bytes le_value]; [by rewrite Z.mod_1_r|].
  rewrite IH, Z.shiftr_div_pow2 by lia. unfold u8.
  replace (8 * Z.of_nat (S k)) with (8 + 8 * Z.of_nat k) by lia.
  rewrite Z.pow_add_r, Z.rem_mul_r by lia. done.
Qed.
