(* ===== verification/LockfreeProg.v ===== *)
(** Programs of atomic steps, their interleavings, and rely-guarantee reasoning.

    A thread is a [prog]: a tree of accesses to the shared state, each of which
    happens at once.  [run] executes threads under a schedule, and [safe]
    establishes for one thread at a time what holds under every schedule; [lasts]
    says how long a thread makes do with the fuel of its loops; [live] is [safe]
    with a budget that every step pays for, so that a thread that is not kept
    waiting returns. *)

From S2P Require Import Prelude.

(** ** Programs *)

Inductive prog (S A : Type) : Type :=
| Return (a : A)
| Atomic (X : Type) (access : M S X) (k : X → prog S A)
| Raise (f : fault).
Arguments Return {S A} a.
Arguments Atomic {S A X} access k.
Arguments Raise {S A} f.

Fixpoint then_do {S A B} (p : prog S A) (k : A → prog S B) : prog S B :=
  match p with
  | Return a => k a
  | Atomic access next => Atomic access (λ x, then_do (next x) k)
  | Raise f => Raise f
  end.

Declare Scope prog_scope.
Delimit Scope prog_scope with prog.
Notation "'let!' p ':=' m 'in' k" := (then_do m (λ p, k))
  (at level 10, p pattern at level 0, m at level 200, k at level 200,
   format "'[v' 'let!'  p  ':='  m  'in' '/' k ']'") : prog_scope.
Notation "m ;! k" := (then_do m (λ _, k))
  (at level 100, right associativity) : prog_scope.
#[global] Open Scope prog_scope.

Definition once {S X} (access : M S X) : prog S X := Atomic access Return.
Definition assert_that {S} (b : bool) : prog S unit :=
  if b then Return tt else Raise AssertFailed.

(** [for (i = 0; i < n; i++)] *)
Fixpoint for_each {S} (i n : nat) (body : nat → prog S unit) : prog S unit :=
  match n with
  | O => Return tt
  | Datatypes.S n => body i;! for_each (Datatypes.S i) n body
  end.

(** ** Interleavings

    One step of a thread is one access.  A thread that has returned, or that has
    used up the iterations the model gives to a loop, takes no more steps; any
    other fault is a fault of the whole system. *)

Definition step_thread {S A} (p : prog S A) (s : S) : result (prog S A * S) :=
  match p with
  | Return _ | Raise OutOfFuel => Done (p, s)
  | Atomic access k => match access s with Done (x, s) => Done (k x, s) | Fault f => Fault f end
  | Raise f => Fault f
  end.
Fixpoint run {S A} (schedule : list nat) (ts : list (prog S A)) (s : S) :
    result (list (prog S A) * S) :=
  match schedule with
  | [] => Done (ts, s)
  | i :: schedule =>
      match ts !! i with
      | None => run schedule ts s
      | Some p =>
          match step_thread p s with
          | Done (p, s) => run schedule (<[i := p]> ts) s
          | Fault f => Fault f
          end
      end
  end.
(** A thread alone. *)
Fixpoint alone {S A} (p : prog S A) : M S A :=
  match p with
  | Return a => ret a
  | Atomic access k => bind access (λ x, alone (k x))
  | Raise f => raise f
  end.

(** ** Safety of one thread

    [W] is the shared state together with ghost state, [real] forgets the ghost.
    The thread relies on others to make only [R] steps, which are reflexive and
    transitive, and guarantees that its own are [G] steps; a fault never happens,
    but that a loop may take more iterations than the model gives it, if [stuck]. *)

Section safe.
Context {S W : Type} (stuck : Prop) (real : W → S) (R : relation W) (G : relation W).
Context `{!PreOrder R}.

Fixpoint safe {A} (p : prog S A) (Q : A → W → Prop) (w : W) : Prop :=
  match p with
  | Return a => ∀ w', R w w' → Q a w'
  | Atomic access k => ∀ w', R w w' →
      ∃ x w'', access (real w') = Done (x, real w'') ∧ G w' w'' ∧ safe (k x) Q w''
  | Raise f => stuck ∧ f = OutOfFuel
  end.

Lemma safe_rely {A} (p : prog S A) Q w w' : safe p Q w → R w w' → safe p Q w'.
Proof.
  destruct p; cbn; intros Hp Hw; [|intros w2 Hw2; apply Hp; by etrans|done].
  intros w2 Hw2. apply Hp. by etrans.
Qed.
Lemma safe_mono {A} (p : prog S A) (Q Q' : A → W → Prop) w :
  safe p Q w → (∀ a w', Q a w' → Q' a w') → safe p Q' w.
Proof.
  intros Hp HQ. revert w Hp. induction p as [a|X access k IH|f]; cbn; intros w Hp; [|  |done].
  - intros w' Hw. apply HQ, Hp, Hw.
  - intros w' Hw. destruct (Hp w' Hw) as (x & w2 & Ha & HG & Hk). exists x, w2. auto.
Qed.
Lemma safe_then {A B} (p : prog S A) (k : A → prog S B) Q w :
  safe p (λ a w', safe (k a) Q w') w → safe (then_do p k) Q w.
Proof.
  revert w. induction p as [a|X access next IH|f]; cbn; intros w Hp; [by apply Hp| |done].
  intros w' Hw. destruct (Hp w' Hw) as (x & w2 & Ha & HG & Hk). exists x, w2. auto.
Qed.
Lemma safe_return {A} (a : A) (Q : A → W → Prop) w :
  (∀ w', R w w' → Q a w') → safe (Return a) Q w.
Proof. done. Qed.
Lemma safe_once {X} (access : M S X) (Q : X → W → Prop) w :
  (∀ w', R w w' → ∃ x w'', access (real w') = Done (x, real w'') ∧ G w' w'' ∧
     ∀ w3, R w'' w3 → Q x w3) →
  safe (once access) Q w.
Proof. done. Qed.
Lemma safe_assert b (Q : unit → W → Prop) w :
  b = true → (∀ w', R w w' → Q tt w') → safe (assert_that b) Q w.
Proof. by intros ->. Qed.

(** A thread that is alone and is not stuck returns. *)
Lemma safe_alone {A} (p : prog S A) Q w :
  ¬ stuck → safe p Q w → ∃ a w', alone p (real w) = Done (a, real w') ∧ Q a w'.
Proof.
  intros Hst. revert w. induction p as [a|X access k IH|f]; cbn; intros w Hp; [| |by destruct Hp].
  - exists a, w. split; [done|]. by apply Hp.
  - destruct (Hp w (reflexivity _)) as (x & w1 & Ha & _ & Hk). destruct (IH x w1 Hk) as (b & w2 & Hb & HQ).
    exists b, w2. split; [|done]. by rewrite (bind_done _ _ _ _ _ Ha).
Qed.

(** One that may be stuck returns or runs out of iterations. *)
Lemma safe_alone_or_stuck {A} (p : prog S A) Q w :
  safe p Q w → alone p (real w) = Fault OutOfFuel ∨
    ∃ a w', alone p (real w) = Done (a, real w') ∧ Q a w'.
Proof.
  revert w. induction p as [a|X access k IH|f]; cbn; intros w Hp; [| |by destruct Hp as [_ ->]; left].
  - right. exists a, w. split; [done|]. by apply Hp.
  - destruct (Hp w (reflexivity _)) as (x & w1 & Ha & _ & Hk).
    rewrite (bind_done _ _ _ _ _ Ha). by apply IH.
Qed.

(** One access with what follows it. *)
Lemma safe_access {X B} (access : M S X) (k : X → prog S B) Q w :
  (∀ w', R w w' → ∃ x w'', access (real w') = Done (x, real w'') ∧ G w' w'' ∧ safe (k x) Q w'') →
  safe (let! x := once access in k x) Q w.
Proof. done. Qed.

(** A loop with an invariant that others keep. *)
Lemma safe_for (I : nat → W → Prop) i n body Q w :
  (∀ j w w', R w w' → I j w → I j w') →
  (∀ j w, (i <= j < i + n)%nat → I j w → safe (body j) (λ _, I (Datatypes.S j)) w) →
  (∀ w, I (i + n)%nat w → Q tt w) →
  I i w → safe (for_each i n body) Q w.
Proof.
  intros HI Hbody. revert i w Hbody. induction n as [|n IH]; intros i w Hbody HQ Hi; cbn [for_each].
  - intros w' Hw. apply HQ. rewrite Nat.add_0_r. by eapply HI.
  - apply safe_then. eapply safe_mono; [apply Hbody; [lia|done]|]. intros [] w1 H1. apply IH; [| |done].
    + intros j w2 Hj. apply Hbody. lia.
    + intros w2 H2. apply HQ. by replace (i + Datatypes.S n)%nat with (Datatypes.S i + n)%nat by lia.
Qed.
End safe.

(** ** Soundness

    When each thread guarantees what the others rely on, every schedule keeps all
    threads safe: nothing faults, and a thread that has returned has its result. *)

Section soundness.
Context {S W A : Type} (real : W → S) (R G : nat → relation W) (Q : nat → A → W → Prop).
Context `{!∀ i, PreOrder (R i)}.
Hypothesis compatible : ∀ i j w w', i ≠ j → G i w w' → R j w w'.

Definition all_safe (ts : list (prog S A)) (w : W) : Prop :=
  ∀ i p, ts !! i = Some p → safe True real (R i) (G i) p (Q i) w.

Lemma step_safe i p w ts :
  all_safe ts w → ts !! i = Some p →
  ∃ p' w', step_thread p (real w) = Done (p', real w') ∧ all_safe (<[i := p']> ts) w'.
Proof.
  intros Hts Hi. pose proof (Hts i p Hi) as Hp.
  assert (all_safe (<[i := p]> ts) w) as Hsame.
  { by rewrite list_insert_id. }
  destruct p as [a|X access k|f]; cbn in *.
  - by exists (Return a), w.
  - destruct (Hp w (reflexivity _)) as (x & w' & Ha & HG & Hk).
    exists (k x), w'. rewrite Ha. split; [done|]. intros j q.
    destruct (decide (i = j)) as [<-|Hne].
    + rewrite list_lookup_insert_eq by (by eapply lookup_lt_Some). by intros [= <-].
    + rewrite list_lookup_insert_ne by done. intros Hj.
      eapply (safe_rely True real (R j) (G j)); [apply (Hts j q Hj)|by eapply compatible].
  - destruct Hp as [_ ->]. by exists (Raise OutOfFuel), w.
Qed.

Theorem run_safe schedule ts w :
  all_safe ts w → ∃ ts' w', run schedule ts (real w) = Done (ts', real w') ∧ all_safe ts' w'.
Proof.
  revert ts w. induction schedule as [|i schedule IH]; intros ts w Hts; [by exists ts, w|].
  cbn [run]. destruct (ts !! i) as [p|] eqn:Hi; [|by apply IH].
  destruct (step_safe i p w ts Hts Hi) as (p' & w' & -> & Hts'). by apply IH.
Qed.
End soundness.

(** ** Programs that last

    An iteration of a loop makes at least one access, so that no thread of a run uses
    up more iterations than the run has steps. *)

(** The program does not run out of iterations within its next [n] accesses. *)
Fixpoint lasts {S A} (n : nat) (p : prog S A) {struct p} : Prop :=
  match p, n with
  | _, O | Return _, _ => True
  | Atomic _ k, Datatypes.S n => ∀ x, lasts n (k x)
  | Raise f, _ => f ≠ OutOfFuel
  end.

Section lasts.
Context {S : Type}.

Lemma lasts_le {A} (p : prog S A) n m : lasts n p → (m <= n)%nat → lasts m p.
Proof.
  revert n m. induction p as [a|X access k IH|f]; intros n m Hp Hle; destruct m as [|m]; try done;
    destruct n as [|n]; try lia; try done.
  intros x. apply (IH x n); [apply Hp|lia].
Qed.
Lemma lasts_then {A B} (p : prog S A) (k : A → prog S B) n :
  lasts n p → (∀ a, lasts n (k a)) → lasts n (then_do p k).
Proof.
  revert n. induction p as [a|X access next IH|f]; intros n Hp Hk; [apply Hk| |].
  - destruct n as [|n]; [done|]. intros x. apply IH; [apply Hp|]. intros a. eapply lasts_le; [apply Hk|lia].
  - by destruct n.
Qed.
Lemma lasts_atomic {X A} (access : M S X) (k : X → prog S A) n :
  (∀ x, lasts n (k x)) → lasts n (Atomic access k).
Proof. destruct n; [done|]. intros Hk x. eapply lasts_le; [apply Hk|lia]. Qed.
Lemma lasts_once {X} (access : M S X) n : lasts n (once access).
Proof. apply lasts_atomic. intros x. by destruct n. Qed.
Lemma lasts_return {A} (a : A) n : lasts n (Return a : prog S A).
Proof. by destruct n. Qed.
Lemma lasts_raise {A} f n : f ≠ OutOfFuel → lasts n (Raise f : prog S A).
Proof. by destruct n. Qed.
Lemma lasts_assert b n : lasts n (assert_that b : prog S unit).
Proof. destruct b; [apply lasts_return|by destruct n]. Qed.
Lemma lasts_for (body : nat → prog S unit) i c n : (∀ j, lasts n (body j)) → lasts n (for_each i c body).
Proof.
  intros Hb. revert i. induction c as [|c IH]; intros i; [apply lasts_return|].
  cbn [for_each]. by apply lasts_then.
Qed.

(** A run has no stuck thread if every thread lasts longer than the schedule. *)
Lemma run_lasts {A} schedule (ts ts' : list (prog S A)) s s' :
  Forall (lasts (Datatypes.S (length schedule))) ts → run schedule ts s = Done (ts', s') →
  Forall (λ p, p ≠ Raise OutOfFuel) ts'.
Proof.
  revert ts s. induction schedule as [|i schedule IH]; intros ts s Hts Hrun; cbn [run] in Hrun.
  - simplify_eq. eapply Forall_impl; [exact Hts|]. intros [| |f] Hp; try done. by intros [= ->].
  - assert (Forall (lasts (Datatypes.S (length schedule))) ts) as Hless.
    { eapply Forall_impl; [exact Hts|]. intros p Hp. eapply lasts_le; [exact Hp|]. cbn. lia. }
    destruct (ts !! i) as [p|] eqn:Hi; [|by eapply IH].
    pose proof (proj1 (Forall_lookup _ _) Hts i p Hi) as Hp.
    destruct p as [a|X access k|f]; cbn in Hrun.
    + rewrite list_insert_id in Hrun by done. by eapply IH.
    + destruct (access s) as [[x s1]|] eqn:Ha; [|done]. eapply IH; [|exact Hrun].
      apply Forall_insert; [done|]. apply Hp.
    + destruct f; try done; by destruct Hp.
Qed.
End lasts.

(** ** Threads that return

    As [safe], for a thread that pays for each step out of the budget [n] (and the
    potential [pot] of the state, which a thread may leave for another one), but
    for a step that is [idle], in vain, while the thread [waits] for others.  It does
    not run out of iterations within its next [t] steps.  The postcondition gets
    what is left of the budget.  Payments are only promised under [hope]. *)

Section live.
Context {S W : Type} (real : W → S) (R G : relation W).
Context (hope : Prop) (waits : W → Prop) (idle : relation W) (pot : W → nat).
Context `{!PreOrder R}.

Definition pays (n : nat) (w : W) (m : nat) (w' : W) : Prop :=
  (m + pot w' < n + pot w)%nat ∨ (waits w ∧ idle w w' ∧ (m + pot w' <= n + pot w)%nat).

Fixpoint live {A} (t n : nat) (p : prog S A) (Q : nat → A → W → Prop) (w : W) : Prop :=
  match p with
  | Return a => ∀ w', R w w' → ∃ m, (m <= n)%nat ∧ Q m a w'
  | Atomic access k => ∀ w', R w w' →
      ∃ x w'' m, access (real w') = Done (x, real w'') ∧ G w' w'' ∧ (hope → pays n w' m w'') ∧
        live (pred t) m (k x) Q w''
  | Raise f => f = OutOfFuel ∧ t = 0%nat
  end.

Lemma pays_more n n' w m w' : pays n w m w' → (n <= n')%nat → pays n' w m w'.
Proof. intros [?|(? & ? & ?)] ?; [left; lia|right; split_and!; [done..|lia]]. Qed.
Lemma live_rely {A} t n (p : prog S A) Q w w' : live t n p Q w → R w w' → live t n p Q w'.
Proof.
  destruct p; cbn; intros Hp Hw; [|intros w2 Hw2; apply Hp; by etrans|done].
  intros w2 Hw2. apply Hp. by etrans.
Qed.
Lemma live_le {A} t n t' n' (p : prog S A) Q w :
  live t n p Q w → (t' <= t)%nat → (n <= n')%nat → live t' n' p Q w.
Proof.
  revert t n t' n' w. induction p as [a|X access k IH|f]; cbn; intros t n t' n' w Hp Ht Hn.
  - intros w' Hw. destruct (Hp w' Hw) as (m & Hm & HQ). exists m. split; [lia|done].
  - intros w' Hw. destruct (Hp w' Hw) as (x & w2 & m & Ha & HG & Hpay & Hk). exists x, w2, m.
    split; [done|]. split; [done|]. split; [intros Hh; eapply pays_more; [by apply Hpay|done]|].
    eapply IH; [exact Hk|lia|lia].
  - destruct Hp. split; [done|lia].
Qed.
Lemma live_mono {A} t n (p : prog S A) (Q Q' : nat → A → W → Prop) w :
  live t n p Q w → (∀ m a w', Q m a w' → Q' m a w') → live t n p Q' w.
Proof.
  intros Hp HQ. revert t n w Hp. induction p as [a|X access k IH|f]; cbn; intros t n w Hp; [| |done].
  - intros w' Hw. destruct (Hp w' Hw) as (m & Hm & Ha). exists m. auto.
  - intros w' Hw. destruct (Hp w' Hw) as (x & w2 & m & Ha & HG & Hpay & Hk). exists x, w2, m.
    split_and!; auto.
Qed.
Lemma live_then {A B} t n (p : prog S A) (k : A → prog S B) Q w :
  live t n p (λ m a w', live t m (k a) Q w') w → live t n (then_do p k) Q w.
Proof.
  assert (∀ t' n w, (t' <= t)%nat → live t' n p (λ m a w', live t m (k a) Q w') w → live t' n (then_do p k) Q w)
    as Hgen; [|by apply Hgen].
  induction p as [a|X access next IH|f]; cbn; intros t' n' w' Ht Hp; [| |done].
  - destruct (Hp w' (reflexivity _)) as (m & Hm & Hk). by eapply live_le.
  - intros w1 Hw. destruct (Hp w1 Hw) as (x & w2 & m & Ha & HG & Hpay & Hk). exists x, w2, m.
    split_and!; [done..|]. apply IH; [lia|done].
Qed.
Lemma live_return {A} t n (a : A) (Q : nat → A → W → Prop) w :
  (∀ w', R w w' → Q n a w') → live t n (Return a) Q w.
Proof. intros HQ w' Hw. exists n. split; [done|by apply HQ]. Qed.
(** One access with what follows it. *)
Lemma live_access {X B} t n (access : M S X) (k : X → prog S B) Q w :
  (∀ w', R w w' → ∃ x w'' m, access (real w') = Done (x, real w'') ∧ G w' w'' ∧
     (hope → pays n w' m w'') ∧ live (pred t) m (k x) Q w'') →
  live t n (let! x := once access in k x) Q w.
Proof. done. Qed.
End live.

(** A round gives every thread a step. *)
Definition has_rounds (k threads : nat) (schedule : list nat) : Prop :=
  ∃ rs, schedule = concat rs ∧ (k <= length rs)%nat ∧
    Forall (λ r, ∀ i, (i < threads)%nat → i ∈ r) rs.
Lemma has_rounds_replicate k threads : has_rounds k threads (concat (replicate k (seq 0 threads))).
Proof.
  exists (replicate k (seq 0 threads)). split; [done|]. split; [by rewrite length_replicate|].
  apply Forall_replicate. intros i Hi. apply elem_of_seq. lia.
Qed.

Section liveness.
Context {S W A : Type} (real : W → S) (R G : nat → relation W) (Q : nat → nat → A → W → Prop).
Context (hope : Prop) (waits : nat → W → Prop) (idle : relation W) (pot : W → nat).
Context `{!∀ i, PreOrder (R i)}.
Hypothesis compatible : ∀ i j w w', i ≠ j → G i w w' → R j w w'.
Hypothesis idle_waits : ∀ i w w', idle w w' → waits i w' → waits i w.

Abbreviation thread_live i t n p w := (live real (R i) (G i) hope (waits i) idle pot t n p (Q i) w).
Definition all_live (t : nat) (ns : list nat) (ts : list (prog S A)) (w : W) : Prop :=
  length ns = length ts ∧ ∀ i n p, ns !! i = Some n → ts !! i = Some p → thread_live i t n p w.
Definition purse (ns : list nat) : nat := foldr Nat.add 0%nat ns.
Definition total (ns : list nat) (w : W) : nat := (purse ns + pot w)%nat.

Lemma purse_replicate k n : purse (replicate k n) = (k * n)%nat.
Proof using. unfold purse. induction k as [|k IH]; [done|]. cbn. by rewrite IH. Qed.
Lemma purse_insert ns i n m :
  ns !! i = Some n → (purse (<[i := m]> ns) + n = purse ns + m)%nat.
Proof using.
  unfold purse. revert i. induction ns as [|x ns IH]; intros [|i] Hi; [done..|injection Hi as ->; cbn; lia|].
  change (<[Datatypes.S i := m]> (x :: ns)) with (x :: <[i := m]> ns). specialize (IH i Hi). cbn [foldr]. lia.
Qed.
Definition has_returned (p : prog S A) : Prop := ∃ a, p = Return a.
Lemma step_live i t ns ts p w :
  all_live t ns ts w → ts !! i = Some p →
  ∃ p' w' ns', step_thread p (real w) = Done (p', real w') ∧ all_live (pred t) ns' (<[i := p']> ts) w' ∧
    (hope → t ≠ 0%nat → (total ns' w' < total ns w)%nat ∨
       (total ns' w' <= total ns w)%nat ∧ (∀ j, waits j w' → waits j w) ∧ (has_returned p ∨ waits i w)) ∧
    (w' = w ∨ G i w w').
Proof.
  intros [Hlen Hts] Hi.
  assert (is_Some (ns !! i)) as [n Hn] by (apply lookup_lt_is_Some; rewrite Hlen; by eapply lookup_lt_Some).
  pose proof (Hts i n p Hn Hi) as Hp.
  assert (all_live (pred t) ns ts w) as Hsame.
  { split; [done|]. intros j n' q Hj Hq. eapply live_le; [by apply Hts|lia|done]. }
  destruct p as [a|X access k|f]; cbn in *.
  - exists (Return a), w, ns. split; [done|]. rewrite list_insert_id by done. split; [done|]. split; [|by left].
    intros _ _. right. split; [done|]. split; [done|]. left. by exists a.
  - destruct (Hp w (reflexivity _)) as (x & w' & m & Ha & HG & Hpay & Hk).
    exists (k x), w', (<[i := m]> ns). rewrite Ha. split; [done|]. split.
    + split; [by rewrite !length_insert|]. intros j n' q.
      destruct (decide (i = j)) as [<-|Hne].
      * rewrite !list_lookup_insert_eq by (by eapply lookup_lt_Some). by intros [= <-] [= <-].
      * rewrite !list_lookup_insert_ne by done. intros Hj Hq. eapply live_rely; [by apply _|by apply Hsame|].
        by eapply compatible.
    + split; [|by right]. intros Hh _. pose proof (purse_insert ns i n m Hn). unfold total.
      destruct (Hpay Hh) as [?|(Hw & Hidle & ?)]; [left; lia|]. right. split; [lia|].
      split; [intros j; by apply idle_waits|by right].
  - destruct Hp as [-> ->]. exists (Raise OutOfFuel), w, ns. split; [done|].
    rewrite list_insert_id by done. split; [done|]. by split; [|left].
Qed.
(** Every schedule keeps all threads live, and costs something; it is made of steps
    of the threads. *)
Lemma run_live schedule t ns ts w :
  all_live t ns ts w →
  ∃ ts' w' ns', run schedule ts (real w) = Done (ts', real w') ∧ all_live (t - length schedule) ns' ts' w' ∧
    (hope → (length schedule <= t)%nat → (total ns' w' <= total ns w)%nat) ∧
    rtc (λ w w', ∃ i, G i w w') w w'.
Proof.
  revert t ns ts w. induction schedule as [|i schedule IH]; intros t ns ts w Hts.
  { exists ts, w, ns. cbn. rewrite Nat.sub_0_r. split_and!; [done..|apply rtc_refl]. }
  cbn [run length]. destruct (ts !! i) as [p|] eqn:Hi.
  - destruct (step_live i t ns ts p w Hts Hi) as (p' & w1 & ns1 & -> & H1 & Hpay & HG).
    destruct (IH _ _ _ _ H1) as (ts' & w' & ns' & Hrun & H' & Hle & Hrtc). exists ts', w', ns'.
    split; [done|]. replace (t - Datatypes.S (length schedule))%nat with (pred t - length schedule)%nat by lia.
    split; [done|]. split; [|destruct HG as [->|HG]; [done|eapply rtc_l; [by exists i|done]]]. intros Hh Ht. specialize (Hle Hh ltac:(lia)).
    destruct (Hpay Hh ltac:(lia)) as [?|[? _]]; lia.
  - assert (all_live (pred t) ns ts w) as H1.
    { destruct Hts as [? Hts]. split; [done|]. intros. eapply live_le; [by apply Hts|lia|done]. }
    destruct (IH _ _ _ _ H1) as (ts' & w' & ns' & Hrun & H' & Hle & Hrtc). exists ts', w', ns'.
    split; [done|]. replace (t - Datatypes.S (length schedule))%nat with (pred t - length schedule)%nat by lia.
    split; [done|]. split; [|done]. intros Hh Ht. apply Hle; [done|lia].
Qed.

(** A round in which a thread that need not wait takes a step makes the total less. *)
Lemma round_progress r i t ns ts w :
  hope → all_live (length r + t) ns ts w → i ∈ r → ¬ waits i w →
  (∃ p, ts !! i = Some p ∧ ¬ has_returned p) →
  ∃ ts' w' ns', run r ts (real w) = Done (ts', real w') ∧ all_live t ns' ts' w' ∧
    (total ns' w' < total ns w)%nat.
Proof.
  intros Hh. revert ns ts w. induction r as [|j r IH]; intros ns ts w Hts Hin Hi (p & Hp & Hret).
  { by apply not_elem_of_nil in Hin. }
  cbn [run length]. destruct (ts !! j) as [q|] eqn:Hj.
  - destruct (step_live j _ ns ts q w Hts Hj) as (q' & w1 & ns1 & -> & H1 & Hpay & _).
    cbn [length Nat.add pred] in H1. destruct (Hpay Hh) as [Hless|(Hle & Hwaits & Hq)]; [done| |].
    + destruct (run_live r _ ns1 _ w1 H1) as (ts' & w' & ns' & Hrun & H' & Hle & _).
      exists ts', w', ns'. split; [done|]. replace (length r + t - length r)%nat with t in H' by lia.
      split; [done|]. specialize (Hle Hh ltac:(lia)). lia.
    + assert (i ≠ j) as Hne.
      { intros <-. rewrite Hp in Hj. injection Hj as <-. by destruct Hq. }
      destruct (IH ns1 (<[j := q']> ts) w1 H1) as (ts' & w' & ns' & Hrun & H' & Hless).
      * apply elem_of_cons in Hin as [|]; done.
      * intros Hw. by apply Hi, Hwaits.
      * exists p. by rewrite list_lookup_insert_ne by congruence.
      * exists ts', w', ns'. split_and!; [done..|lia].
  - apply elem_of_cons in Hin as [->|Hin]; [congruence|].
    assert (all_live (length r + t) ns ts w) as H1.
    { destruct Hts as [? Hts]. split; [done|]. intros. eapply live_le; [by apply Hts|cbn; lia|done]. }
    destruct (IH ns ts w H1) as (ts' & w' & ns' & Hrun & H' & Hless); eauto 10.
Qed.
Lemma run_returned schedule (ts ts' : list (prog S A)) s s' g a :
  run schedule ts s = Done (ts', s') → ts !! g = Some (Return a) → ts' !! g = Some (Return a).
Proof using.
  revert ts s. induction schedule as [|i schedule IH]; intros ts s; cbn [run]; [by intros [= <- <-]|].
  intros Hrun Hg. destruct (ts !! i) as [p|] eqn:Hi; [|by eapply IH].
  destruct (step_thread p s) as [[p' s1]|] eqn:Hs; [|done]. eapply IH; [exact Hrun|].
  destruct (decide (i = g)) as [->|Hne]; [|by rewrite list_lookup_insert_ne].
  rewrite Hg in Hi. injection Hi as <-. cbn in Hs. injection Hs as <- <-.
  apply list_lookup_insert_eq. by eapply lookup_lt_Some.
Qed.
Lemma run_app schedule schedule' (ts : list (prog S A)) s :
  run (schedule ++ schedule') ts s =
  match run schedule ts s with Done (ts', s') => run schedule' ts' s' | Fault f => Fault f end.
Proof using.
  revert ts s. induction schedule as [|i schedule IH]; intros ts s; [done|]. cbn [run app].
  destruct (ts !! i); [|apply IH]. by destruct (step_thread _ _) as [[]|].
Qed.
Lemma run_length schedule (ts ts' : list (prog S A)) s s' :
  run schedule ts s = Done (ts', s') → length ts' = length ts.
Proof using.
  revert ts s. induction schedule as [|i schedule IH]; intros ts s; cbn [run]; [by intros [= <- <-]|].
  destruct (ts !! i); [|apply IH]. destruct (step_thread _ _) as [[]|]; [|done].
  intros Hrun. rewrite (IH _ _ Hrun). apply length_insert.
Qed.

(** When there is always a thread that has not returned and need not wait, until
    [g] has returned, every schedule with enough rounds lets [g] return. *)
Theorem run_returns g threads schedule t ns ts w k :
  hope → all_live t ns ts w → length ts = threads → (g < threads)%nat →
  (length schedule < t)%nat → has_rounds k threads schedule → (total ns w < k)%nat →
  (∀ t ns ts w, all_live (Datatypes.S t) ns ts w → length ts = threads →
     (∃ p, ts !! g = Some p ∧ ¬ has_returned p) → ∃ i p, ts !! i = Some p ∧ ¬ has_returned p ∧ ¬ waits i w) →
  ∃ ts' s' a, run schedule ts (real w) = Done (ts', s') ∧ ts' !! g = Some (Return a).
Proof.
  intros Hh Hts Hlen Hg Ht (rs & -> & Hk & Hrs) Htotal Hsome.
  assert (total ns w < length rs)%nat as Hless by lia. clear k Hk Htotal.
  revert t ns ts w Hts Ht Hrs Hless Hlen.
  induction rs as [|r rs IH]; intros t ns ts w Hts Ht Hrs Hless Hlen; cbn in Hless; [lia|].
  cbn [concat] in Ht |- *. rewrite length_app in Ht.
  destruct (lookup_lt_is_Some_2 ts g) as [p Hp]; [lia|].
  assert (has_returned p ∨ ¬ has_returned p) as [[a ->]|Hret].
  { destruct p as [a| |]; [left; by exists a|right; by intros [a' ?]..]. }
  { destruct (run_live (r ++ concat rs) t ns ts w Hts) as (ts' & w' & ns' & Hrun & _).
    exists ts', (real w'), a. split; [done|]. by eapply run_returned. }
  destruct t as [|t']; [lia|].
  destruct (Hsome t' ns ts w Hts Hlen) as (i & q & Hi & Hq & Hw); [by exists p|].
  assert (all_live (length r + (Datatypes.S t' - length r)) ns ts w) as Hts'.
  { by replace (length r + (Datatypes.S t' - length r))%nat with (Datatypes.S t') by lia. }
  apply Forall_cons in Hrs as [Hr Hrs].
  destruct (round_progress r i _ ns ts w Hh Hts') as (ts1 & w1 & ns1 & Hrun & H1 & Hless1);
    [apply Hr; rewrite <- Hlen; by eapply lookup_lt_Some|done|by exists q|].
  rewrite run_app, Hrun. pose proof (run_length _ _ _ _ _ Hrun) as Hlen1.
  eapply IH; [exact H1|lia|done|lia|congruence].
Qed.
End liveness.
