(* ===== verification/SysAtomic.v ===== *)
(** * Atomic operations on shared memory (sysvr4_atomic.c)

    The operations work on memory that other processes change at any time.
    A [machine] is that memory, the number of accesses this process has made,
    and the sync descriptor passed as the argument [sync] ([None]: NULL).
    Every access to shared memory is one atomic step; before the [n]-th the
    others do [env n].  __sync_synchronize and sys_os_yield change nothing that
    is modelled: memory is sequentially consistent here. *)

From S2P Require Import Prelude Bytes.

(** ** Sync descriptors (mrapi_abb.h) *)

Inductive mrapi_atomic_mode_t := MRAPI_ATOMIC_WRITE | MRAPI_ATOMIC_READ | MRAPI_ATOMIC_NONE.
Definition mode_value (m : mrapi_atomic_mode_t) : Z :=
  match m with MRAPI_ATOMIC_WRITE => 0 | MRAPI_ATOMIC_READ => 1 | MRAPI_ATOMIC_NONE => 2 end.

(** Offsets and widths of the two members of mrapi_msg_t the barrier uses. *)
Definition valid_offset : Z := 0.
Definition counter_offset : Z := 8.

Record mrapi_atomic_sync_t := mk_sync {
  pindex : option Z;
  last_counter : Z;
  hold : bool;
  override : bool;
  active : bool;
}.
#[export] Instance eta_sync : Settable mrapi_atomic_sync_t := λ r,
  mk_sync (pindex r) (last_counter r) (hold r) (override r) (active r).

Record mrapi_atomic_barrier_t := mk_barrier {
  axb_mode : mrapi_atomic_mode_t;
  axb_xchg : bool;
  axb_timeout : Z;
  axb_src : Z;
  axb_dest : Z;
  axb_elems : Z;
  axb_size : Z;
  axb_sync : mrapi_atomic_sync_t;
  axb_buffer : Z;
}.
#[export] Instance eta_barrier : Settable mrapi_atomic_barrier_t := λ r,
  mk_barrier (axb_mode r) (axb_xchg r) (axb_timeout r) (axb_src r) (axb_dest r)
    (axb_elems r) (axb_size r) (axb_sync r) (axb_buffer r).

Record machine := mk_machine {
  shared_mem : gmap Z Z;
  clock : nat;
  axb : option mrapi_atomic_barrier_t;
}.
#[export] Instance eta_machine : Settable machine := λ r,
  mk_machine (shared_mem r) (clock r) (axb r).

Definition MCA_INFINITE : Z := 2 ^ 32 - 1.
Definition MRAPI_TRUE : Z := 1.
Definition MRAPI_FALSE : Z := 0.

(** ** Words in memory *)

Definition word (size z : Z) : Z := z mod 2 ^ (8 * size).
Definition load_word (size a : Z) (m : gmap Z Z) : result Z :=
  match load_bytes (Z.to_nat size) a m with
  | Done l => Done (le_value l)
  | Fault f => Fault f
  end.
Definition store_word (size a v : Z) (m : gmap Z Z) : result (gmap Z Z) :=
  store_bytes (le_bytes (Z.to_nat size) v) a m.
(** sizeof(uint8_t), sizeof(uint16_t), sizeof(uint32_t), sizeof(uint64_t) *)
Definition integer_size (size : Z) : bool :=
  (size =? 1) || (size =? 2) || (size =? 4) || (size =? 8).

Definition modify_sync (f : mrapi_atomic_sync_t → mrapi_atomic_sync_t) : M machine unit :=
  modify (λ s, s <| axb ::= fmap (λ b, b <| axb_sync ::= f |>) |>).

Section atomics.
(** [env n]: what other processes do before the [n]-th access; [fuel]: bound
    on the iterations of each loop. *)
Context (env : nat → gmap Z Z → gmap Z Z) (fuel : nat).

Definition interfere : M machine unit :=
  modify (λ s, s <| shared_mem ::= env (clock s) |> <| clock ::= S |>).
Definition shared_load (size a : Z) : M machine Z :=
  interfere;; let* s := get in lift (load_word size a (shared_mem s)).
(** A read-modify-write instruction; the old value is the result. *)
Definition shared_update (size a : Z) (f : Z → Z) : M machine Z :=
  interfere;;
  let* s := get in
  let* old := lift (load_word size a (shared_mem s)) in
  let* m := lift (store_word size a (f old) (shared_mem s)) in
  modify (λ s, s <| shared_mem := m |>);;
  ret old.
Definition shared_store (size a v : Z) : M machine unit :=
  shared_update size a (λ _, v);; ret tt.
Definition val_compare_and_swap (size a compare exchange : Z) : M machine Z :=
  shared_update size a (λ old, if old =? word size compare then exchange else old).

(** ** The barrier *)

Definition atomic_barrier_mode (mode : mrapi_atomic_mode_t) : M machine unit :=
  modify (λ s, s <| axb ::= fmap (λ b, b <| axb_mode := mode |>) |>).

Definition barrier_needed (b : mrapi_atomic_barrier_t) : bool :=
  negb (mode_value (axb_mode b) =? 2) &&
  (axb_xchg b || negb (axb_dest b =? axb_src b)) && negb (active (axb_sync b)).

Definition elem_address (b : mrapi_atomic_barrier_t) : M machine Z :=
  let* idx := match pindex (axb_sync b) with None => ret 0 | Some p => shared_load 4 p end in
  c_assert (idx <? axb_elems b);;
  ret (axb_buffer b + idx * axb_size b).

(** MCA_INFINITE != timeout && (0 == timeout || 0 >= --timeout) *)
Definition expired (timeout : Z) : bool :=
  negb (MCA_INFINITE =? timeout) && ((0 =? timeout) || (timeout - 1 <=? 0)).
Definition count_down (timeout : Z) : Z :=
  if MCA_INFINITE =? timeout then timeout else timeout - 1.
Fixpoint spin (fuel : nat) (attempt : M machine bool) (timeout : Z) : M machine bool :=
  match fuel with
  | O => raise OutOfFuel
  | S fuel' =>
      let* ok := attempt in
      if ok then ret true
      else if expired timeout then ret false
      else spin fuel' attempt (count_down timeout)
  end.

Definition exchange_attempt (mode : mrapi_atomic_mode_t) (elem : Z) : M machine bool :=
  let* _ := shared_load 1 (elem + valid_offset) in
  let* valid := shared_load 1 (elem + valid_offset) in
  ret (Z.lxor (mode_value mode) valid =? 0).
(** sys_atomic_read stores two bytes in the four of last_counter. *)
Definition read_last_counter (elem : Z) : M machine unit :=
  let* v := shared_load 2 (elem + counter_offset) in
  modify_sync (λ y, y <| last_counter ::= λ l, l - u16 l + v |>).
Definition get_last_counter : M machine Z :=
  gets (λ s, default 0 ((λ b, last_counter (axb_sync b)) <$> axb s)).
Definition read_attempt (elem : Z) : M machine bool :=
  read_last_counter elem;;
  let* l := get_last_counter in
  ret (l mod 2 =? 0).
Definition write_attempt (elem : Z) : M machine bool :=
  read_last_counter elem;;
  let* l := get_last_counter in
  let counter := u16 (l + 1) in
  if counter mod 2 =? 1 then
    let* old := val_compare_and_swap 2 (elem + counter_offset) l counter in
    if old =? u16 l then
      modify_sync (λ y, y <| last_counter := counter |>);; ret true
    else ret false
  else ret false.

Definition acquire_element (b : mrapi_atomic_barrier_t) : M machine bool :=
  let* elem := elem_address b in
  let over := override (axb_sync b) in
  if axb_xchg b then
    if over then
      shared_store 1 (elem + valid_offset) (mode_value (axb_mode b));; ret true
    else spin fuel (exchange_attempt (axb_mode b) elem) (axb_timeout b)
  else
    if over then ret true
    else
      match axb_mode b with
      | MRAPI_ATOMIC_NONE => ret true
      | MRAPI_ATOMIC_READ => spin fuel (read_attempt elem) (axb_timeout b)
      | MRAPI_ATOMIC_WRITE => spin fuel (write_attempt elem) (axb_timeout b)
      end.
Definition try_atomic_barrier_acquire : M machine bool :=
  let* s := get in
  match axb s with
  | None => ret true
  | Some b =>
      let* rc := if barrier_needed b then acquire_element b else ret true in
      modify_sync (λ y, y <| active := hold y |>);;
      ret rc
  end.

Definition flip_valid (elem : Z) : M machine unit :=
  let* v := shared_load 1 (elem + valid_offset) in
  let valid := if v =? 0 then MRAPI_TRUE else MRAPI_FALSE in
  let* previous := shared_load 1 (elem + valid_offset) in
  let* _ := val_compare_and_swap 1 (elem + valid_offset) previous valid in
  ret tt.
Definition release_element (b : mrapi_atomic_barrier_t) : M machine bool :=
  let* elem := elem_address b in
  let last := last_counter (axb_sync b) in
  if axb_xchg b then flip_valid elem;; ret true
  else
    match axb_mode b with
    | MRAPI_ATOMIC_NONE => ret true
    | MRAPI_ATOMIC_READ =>
        let* counter := shared_load 2 (elem + counter_offset) in
        ret (last =? counter)
    | MRAPI_ATOMIC_WRITE =>
        let* old := val_compare_and_swap 2 (elem + counter_offset) last (u16 (last + 1)) in
        ret (old =? u16 last)
    end.
Definition atomic_barrier_release : M machine bool :=
  let* s := get in
  match axb s with
  | None => ret true
  | Some b =>
      let* rc := if barrier_needed b then release_element b else ret true in
      modify_sync (λ y, y <| override := false |>);;
      ret rc
  end.

(** [while(1)] of every operation: [body] runs when the barrier was acquired,
    and the release decides whether to start over. *)
Fixpoint barrier_loop {A} (fuel : nat) (body : A → M machine A) (a : A) : M machine A :=
  match fuel with
  | O => raise OutOfFuel
  | S fuel' =>
      let* got := try_atomic_barrier_acquire in
      let* a' := if got then body a else ret a in
      let* ok := atomic_barrier_release in
      if ok then ret a' else barrier_loop fuel' body a'
  end.
Definition with_barrier {A} (mode : mrapi_atomic_mode_t) (body : A → M machine A) (a : A) :
    M machine A :=
  atomic_barrier_mode mode;; barrier_loop fuel body a.

(** ** Descriptors *)

Definition sys_atomic_barrier_init (src dest buffer elems size : Z) (pidx : option Z)
    (timeout : Z) : M machine bool :=
  let* s := get in
  match axb s with
  | None => ret false
  | Some _ =>
      modify (λ s, s <| axb := Some (mk_barrier MRAPI_ATOMIC_NONE false timeout src dest elems size
        (mk_sync pidx 0 false false false) buffer) |>);;
      ret true
  end.
Definition sys_atomic_exchange_init (src dest buffer elems size : Z) (pidx : option Z)
    (timeout : Z) : M machine bool :=
  let* rc := sys_atomic_barrier_init src dest buffer elems size pidx timeout in
  (if rc then modify (λ s, s <| axb ::= fmap (λ b, b <| axb_xchg := true |>) |>) else ret tt);;
  ret rc.
Definition sys_atomic_hold (h : bool) : M machine bool :=
  let* s := get in
  match axb s with
  | None => ret false
  | Some b => modify_sync (λ y, y <| hold := h |>);; ret (hold (axb_sync b))
  end.
Definition sys_atomic_override : M machine unit :=
  modify_sync (λ y, y <| override := true |>).

(** ** Operations

    An operation returns its result and what it stores through its output
    pointer ([None]: nothing was stored). *)

Definition out : Type := bool * option Z.
Definition nothing : out := (false, None).

(** One case of the switch per width; other widths fail an assertion. *)
Definition switch_size (size : Z) (run : M machine out) : M machine out :=
  if integer_size size then run else raise AssertFailed.
Definition not_null (a : Z) : M machine unit := c_assert (negb (a =? 0)).

Definition sys_atomic_read (dest size : Z) : M machine out :=
  not_null dest;;
  with_barrier MRAPI_ATOMIC_READ (λ _, switch_size size (
    let* v := shared_load size dest in ret (true, Some v))) nothing.
Definition sys_atomic_read_ptr (dest : Z) : M machine out :=
  not_null dest;;
  with_barrier MRAPI_ATOMIC_READ (λ _, let* v := shared_load 8 dest in ret (true, Some v)) nothing.

(** __sync_fetch_and_op, which returns the old value. *)
Definition fetch_and (f : Z → Z) (dest size : Z) : M machine out :=
  not_null dest;;
  with_barrier MRAPI_ATOMIC_WRITE (λ _, switch_size size (
    let* old := shared_update size dest f in ret (true, Some old))) nothing.
(** __sync_op_and_fetch, which returns the new value. *)
Definition and_fetch (f : Z → Z) (dest size : Z) : M machine out :=
  not_null dest;;
  with_barrier MRAPI_ATOMIC_WRITE (λ _, switch_size size (
    let* old := shared_update size dest f in ret (true, Some (word size (f old))))) nothing.

Definition sys_atomic_add (dest value size : Z) : M machine out :=
  fetch_and (λ old, old + word size value) dest size.
Definition sys_atomic_inc (dest size : Z) : M machine out := and_fetch (λ old, old + 1) dest size.
Definition sys_atomic_dec (dest size : Z) : M machine out := and_fetch (λ old, old - 1) dest size.
Definition sys_atomic_or (dest value size : Z) : M machine out :=
  fetch_and (λ old, Z.lor old (word size value)) dest size.
Definition sys_atomic_and (dest value size : Z) : M machine out :=
  fetch_and (λ old, Z.land old (word size value)) dest size.
Definition sys_atomic_xor (dest value size : Z) : M machine out :=
  fetch_and (λ old, Z.lxor old (word size value)) dest size.

(** The result survives a later iteration that fails.  With [aliased] the
    pointer [previous] is also [compare], which the next iteration reads. *)
Definition cas_state : Type := out * Z.
Definition sys_atomic_cas_at (aliased : bool) (dest exchange compare size : Z) :
    M machine cas_state :=
  not_null dest;;
  with_barrier MRAPI_ATOMIC_WRITE (λ x : cas_state,
    let '((rc, _), compare) := x in
    if integer_size size then
      let* value := val_compare_and_swap size dest compare (word size exchange) in
      ret ((if word size compare =? value then true else rc, Some value),
           if aliased then value else compare)
    else raise AssertFailed) (nothing, compare).
Definition sys_atomic_cas (dest exchange compare size : Z) : M machine out :=
  let* x := sys_atomic_cas_at false dest exchange compare size in ret (fst x).
(** The value of [previous]. *)
Definition sys_atomic_xchg (dest exchange size : Z) : M machine Z :=
  if integer_size size then
    let* previous := shared_load size dest in
    let* x := sys_atomic_cas_at true dest exchange previous size in
    ret (snd x)
  else raise AssertFailed.
Definition sys_atomic_cas_ptr (dest exchange compare : Z) : M machine out :=
  not_null dest;;
  with_barrier MRAPI_ATOMIC_WRITE (λ o : out,
    let* value := val_compare_and_swap 8 dest compare exchange in
    ret (if compare =? value then true else fst o, Some value)) nothing.
Definition sys_atomic_xchg_ptr (dest exchange : Z) : M machine Z :=
  let* orig := shared_load 8 dest in
  let* o := sys_atomic_cas_ptr dest exchange orig in
  ret (default orig (snd o)).

Definition sys_atomic_sync : M machine unit :=
  with_barrier MRAPI_ATOMIC_WRITE (λ _, ret tt) tt.

Definition sys_atomic_lock (dest size : Z) : M machine out := fetch_and (λ _, 1) dest size.
Definition sys_atomic_release (dest size : Z) : M machine out :=
  not_null dest;;
  with_barrier MRAPI_ATOMIC_WRITE (λ _, switch_size size (
    shared_store size dest 0;; ret (true, None))) nothing.

(** ** Bits

    The operand of bts, btr and btc is the 32-bit word that holds the bit. *)

Definition test_and_update_bit (f : Z → Z → Z) (offset a : Z) : M machine bool :=
  let bit := offset mod 32 in
  let* old := shared_update 4 (a + 4 * (offset / 32)) (λ old, f old bit) in
  ret (Z.testbit old bit).
Definition test_and_set_bit : Z → Z → M machine bool := test_and_update_bit Z.setbit.
Definition test_and_clear_bit : Z → Z → M machine bool := test_and_update_bit Z.clearbit.
Definition test_and_change_bit : Z → Z → M machine bool :=
  test_and_update_bit (λ old bit, Z.lxor old (Z.shiftl 1 bit)).

Definition on_bit (test : M machine bool) (result : bool → bool) (size : Z) : M machine out :=
  with_barrier MRAPI_ATOMIC_WRITE (λ _,
    if size =? 4 then let* orig := test in ret (result orig, Some (Z.b2z orig))
    else raise AssertFailed) nothing.
Definition sys_atomic_set (dest bit size : Z) : M machine out :=
  not_null dest;;
  c_assert ((0 <=? bit) && (8 * size >? bit));;
  on_bit (test_and_set_bit bit dest) negb size.
Definition sys_atomic_clear (dest bit size : Z) : M machine out :=
  not_null dest;;
  c_assert ((0 <=? bit) && (8 * size >? bit));;
  on_bit (test_and_clear_bit bit dest) id size.
Definition sys_atomic_change (dest bit size : Z) : M machine out :=
  not_null dest;;
  c_assert ((0 <=? bit) && (size >? bit));;
  on_bit (test_and_change_bit bit dest) (λ _, true) size.
End atomics.
