(* ===== verification/MrapiAtomic.v ===== *)
(** * Atomic operations of the MRAPI implementation and its public functions
    (mrapi_impl_spec_atomic.c, mrapi_atomic.c)

    The functions report through [*status]: the model takes its value before
    the call and returns the one after it, with what the operation stored. *)

From S2P Require Import Prelude Bytes SysAtomic.

(** mrapi_abb.h *)
Definition MRAPI_SUCCESS : Z := 0.
Definition MRAPI_ERR_NODE_NOTINIT : Z := 23.
Definition MRAPI_ERR_ATOM_OP_FAILED : Z := 77.

Section mrapi_atomics.
(** [initialized] is the answer of mrapi_impl_initialized, [mrapi_pid] the
    identifier of the process. *)
Context (env : nat → gmap Z Z → gmap Z Z) (fuel : nat) (initialized : bool) (mrapi_pid : Z).

(** ** The implementation *)

Definition mrapi_impl_atomic_barrier_init (dest buffer elems size : Z) (pidx : option Z)
    (timeout : Z) : M machine bool :=
  sys_atomic_barrier_init mrapi_pid dest buffer elems size pidx timeout.
Definition mrapi_impl_atomic_exchange_init (dest buffer elems size : Z) (pidx : option Z)
    (timeout : Z) : M machine bool :=
  sys_atomic_exchange_init mrapi_pid dest buffer elems size pidx timeout.
Definition mrapi_impl_atomic_hold (h : bool) : M machine bool := sys_atomic_hold h.

(** if(!rc) *status = MRAPI_ERR_ATOM_OP_FAILED; *)
Definition or_failed (op : M machine out) (status : Z) : M machine (out * Z) :=
  let* o := op in
  ret (o, if fst o then status else MRAPI_ERR_ATOM_OP_FAILED).

Definition mrapi_impl_atomic_read (dest size : Z) : Z → M machine (out * Z) :=
  or_failed (sys_atomic_read env fuel dest size).
Definition mrapi_impl_atomic_read_ptr (dest : Z) : Z → M machine (out * Z) :=
  or_failed (sys_atomic_read_ptr env fuel dest).
Definition mrapi_impl_atomic_add (dest value size : Z) : Z → M machine (out * Z) :=
  or_failed (sys_atomic_add env fuel dest value size).
Definition mrapi_impl_atomic_inc (dest size : Z) : Z → M machine (out * Z) :=
  or_failed (sys_atomic_inc env fuel dest size).
Definition mrapi_impl_atomic_dec (dest size : Z) : Z → M machine (out * Z) :=
  or_failed (sys_atomic_dec env fuel dest size).
Definition mrapi_impl_atomic_or (dest value size : Z) : Z → M machine (out * Z) :=
  or_failed (sys_atomic_or env fuel dest value size).
Definition mrapi_impl_atomic_and (dest value size : Z) : Z → M machine (out * Z) :=
  or_failed (sys_atomic_and env fuel dest value size).
Definition mrapi_impl_atomic_xor (dest value size : Z) : Z → M machine (out * Z) :=
  or_failed (sys_atomic_xor env fuel dest value size).
Definition mrapi_impl_atomic_cas (dest exchange compare size : Z) : Z → M machine (out * Z) :=
  or_failed (sys_atomic_cas env fuel dest exchange compare size).
Definition mrapi_impl_atomic_xchg (dest exchange size : Z) (status : Z) : M machine (out * Z) :=
  let* previous := sys_atomic_xchg env fuel dest exchange size in ret ((true, Some previous), status).
Definition mrapi_impl_atomic_cas_ptr (dest exchange compare : Z) : Z → M machine (out * Z) :=
  or_failed (sys_atomic_cas_ptr env fuel dest exchange compare).
Definition mrapi_impl_atomic_xchg_ptr (dest exchange : Z) (status : Z) : M machine (out * Z) :=
  let* previous := sys_atomic_xchg_ptr env fuel dest exchange in ret ((true, Some previous), status).
Definition mrapi_impl_atomic_sync : M machine unit := sys_atomic_sync env fuel.
Definition mrapi_impl_atomic_lock (dest size : Z) : Z → M machine (out * Z) :=
  or_failed (sys_atomic_lock env fuel dest size).
Definition mrapi_impl_atomic_release (dest size : Z) : Z → M machine (out * Z) :=
  or_failed (sys_atomic_release env fuel dest size).
Definition mrapi_impl_atomic_set (dest bit size : Z) : Z → M machine (out * Z) :=
  or_failed (sys_atomic_set env fuel dest bit size).
Definition mrapi_impl_atomic_clear (dest bit size : Z) : Z → M machine (out * Z) :=
  or_failed (sys_atomic_clear env fuel dest bit size).
Definition mrapi_impl_atomic_change (dest bit size : Z) : Z → M machine (out * Z) :=
  or_failed (sys_atomic_change env fuel dest bit size).

(** ** The public functions *)

(** The status is left as it is when the implementation answers no. *)
Definition reported (op : Z → M machine (out * Z)) (status : Z) : M machine (option Z * Z) :=
  if negb initialized then ret (None, MRAPI_ERR_NODE_NOTINIT)
  else
    let* r := op status in
    ret (snd (fst r), if fst (fst r) then MRAPI_SUCCESS else snd r).

Definition mrapi_barrier_init (dest buffer elems size : Z) (counter : option Z) (timeout status : Z) :
    M machine Z :=
  if negb initialized then ret MRAPI_ERR_NODE_NOTINIT
  else
    let* rc := mrapi_impl_atomic_barrier_init dest buffer elems size counter timeout in
    ret (if rc then MRAPI_SUCCESS else status).
Definition mrapi_exchange_init (dest buffer elems size : Z) (counter : option Z) (timeout status : Z) :
    M machine Z :=
  if negb initialized then ret MRAPI_ERR_NODE_NOTINIT
  else
    let* rc := mrapi_impl_atomic_exchange_init dest buffer elems size counter timeout in
    ret (if rc then MRAPI_SUCCESS else status).
Definition mrapi_atomic_hold (h : bool) : M machine (bool * Z) :=
  if negb initialized then ret (false, MRAPI_ERR_NODE_NOTINIT)
  else let* rc := mrapi_impl_atomic_hold h in ret (rc, MRAPI_SUCCESS).
Definition mrapi_atomic_read (dest size : Z) : Z → M machine (option Z * Z) :=
  reported (mrapi_impl_atomic_read dest size).
Definition mrapi_atomic_read_ptr (dest : Z) : Z → M machine (option Z * Z) :=
  reported (mrapi_impl_atomic_read_ptr dest).
Definition mrapi_atomic_add (dest value size : Z) : Z → M machine (option Z * Z) :=
  reported (mrapi_impl_atomic_add dest value size).
Definition mrapi_atomic_inc (dest size : Z) : Z → M machine (option Z * Z) :=
  reported (mrapi_impl_atomic_inc dest size).
Definition mrapi_atomic_dec (dest size : Z) : Z → M machine (option Z * Z) :=
  reported (mrapi_impl_atomic_dec dest size).
Definition mrapi_atomic_or (dest value size : Z) : Z → M machine (option Z * Z) :=
  reported (mrapi_impl_atomic_or dest value size).
(** The calls of mrapi_atomic_and and mrapi_atomic_xor are to [or]. *)
Definition mrapi_atomic_and (dest value size : Z) : Z → M machine (option Z * Z) :=
  reported (mrapi_impl_atomic_or dest value size).
Definition mrapi_atomic_xor (dest value size : Z) : Z → M machine (option Z * Z) :=
  reported (mrapi_impl_atomic_or dest value size).
Definition mrapi_atomic_cas (dest exchange compare size : Z) : Z → M machine (option Z * Z) :=
  reported (mrapi_impl_atomic_cas dest exchange compare size).
Definition mrapi_atomic_xchg (dest exchange size : Z) : Z → M machine (option Z * Z) :=
  reported (mrapi_impl_atomic_xchg dest exchange size).
Definition mrapi_atomic_cas_ptr (dest exchange compare : Z) : Z → M machine (option Z * Z) :=
  reported (mrapi_impl_atomic_cas_ptr dest exchange compare).
Definition mrapi_atomic_xchg_ptr (dest exchange : Z) : Z → M machine (option Z * Z) :=
  reported (mrapi_impl_atomic_xchg_ptr dest exchange).
Definition mrapi_atomic_sync : M machine Z :=
  if negb initialized then ret MRAPI_ERR_NODE_NOTINIT
  else mrapi_impl_atomic_sync;; ret MRAPI_SUCCESS.
Definition mrapi_atomic_lock (dest size : Z) : Z → M machine (option Z * Z) :=
  reported (mrapi_impl_atomic_lock dest size).
Definition mrapi_atomic_release (dest size : Z) : Z → M machine (option Z * Z) :=
  reported (mrapi_impl_atomic_release dest size).
Definition mrapi_atomic_set (dest bit size : Z) : Z → M machine (option Z * Z) :=
  reported (mrapi_impl_atomic_set dest bit size).
Definition mrapi_atomic_clear (dest bit size : Z) : Z → M machine (option Z * Z) :=
  reported (mrapi_impl_atomic_clear dest bit size).
Definition mrapi_atomic_change (dest bit size : Z) : Z → M machine (option Z * Z) :=
  reported (mrapi_impl_atomic_change dest bit size).
End mrapi_atomics.
