(* ===== verification/AtomicSpec.v ===== *)
(** Words of shared memory, the steps of the atomic operations as equations,
    and the operations without a sync descriptor as single steps. *)

From S2P Require Import Prelude Bytes SysAtomic.

(** ** Words *)

Lemma word_range size z : 0 <= size → 0 <= word size z < 2 ^ (8 * size).
Proof. intros. apply Z.mod_pos_bound, Z.pow_pos_nonneg; lia. Qed.
Lemma word_twice size z : word size (word size z) = word size z.
Proof. apply Zmod_mod. Qed.
Lemma word_u16 z : word 2 z = u16 z.
Proof. done. Qed.

Lemma load_bytes_ext k a m m' :
  (∀ x, a <= x < a + Z.of_nat k → m' !! x = m !! x) → load_bytes k a m' = load_bytes k a m.
Proof.
  revert a. induction k as [|k IH]; intros a Hm; cbn; [done|].
  rewrite (Hm a) by lia. rewrite (IH (a + 1)); [done|]. intros x Hx. apply Hm. lia.
Qed.
Lemma load_bytes_mem k a m l x :
  load_bytes k a m = Done l → a <= x < a + Z.of_nat k → is_Some (m !! x).
Proof.
  revert a l. induction k as [|k IH]; intros a l; cbn; [lia|].
  destruct (m !! a) eqn:Ha; [|done]. destruct (load_bytes k (a + 1) m) eqn:Hl; [|done].
  intros _ Hx. destruct (decide (x = a)) as [->|]; [done|]. eapply (IH _ _ Hl). lia.
Qed.
Lemma store_bytes_above l a m m' x :
  store_bytes l a m = Done m' → a + Z.of_nat (length l) <= x → m' !! x = m !! x.
Proof.
  revert a m. induction l as [|b l IH]; intros a m; cbn [store_bytes length]; [by intros [= ->]|].
  destruct (m !! a) eqn:Ha; [|done]. intros Hs Hx. rewrite (IH _ _ Hs) by lia.
  by rewrite lookup_insert_ne by lia.
Qed.

(** The two accesses do not overlap. *)
Definition apart (size a size' a' : Z) : Prop := a + size <= a' ∨ a' + size' <= a.

Section words.
Context (size a : Z) (Hsize : 0 <= size).
Implicit Types (m : gmap Z Z).

Lemma store_word_ok m old v :
  load_word size a m = Done old → ∃ m', store_word size a v m = Done m'.
Proof using Hsize.
  unfold load_word. destruct (load_bytes _ a m) as [l|] eqn:Hl; [|done]. intros _.
  apply store_bytes_ok. rewrite le_bytes_length. intros i Hi.
  eapply (load_bytes_mem _ _ _ _ _ Hl). lia.
Qed.
Lemma load_store_word m m' v :
  store_word size a v m = Done m' → load_word size a m' = Done (word size v).
Proof using Hsize.
  intros Hs. unfold load_word. pose proof (load_store_bytes _ _ _ _ Hs) as Hl.
  rewrite le_bytes_length in Hl. rewrite Hl, le_value_bytes. unfold word. by rewrite Z2Nat.id.
Qed.
Lemma store_word_outside m m' v x :
  store_word size a v m = Done m' → x < a ∨ a + size <= x → m' !! x = m !! x.
Proof using Hsize.
  intros Hs [Hx|Hx]; [by eapply store_bytes_below|]. eapply store_bytes_above; [exact Hs|].
  rewrite le_bytes_length. lia.
Qed.
Lemma load_word_ext m m' :
  (∀ x, a <= x < a + size → m' !! x = m !! x) → load_word size a m' = load_word size a m.
Proof using Hsize. intros Hm. unfold load_word. rewrite (load_bytes_ext _ _ m m'); [done|].
  intros x Hx. apply Hm. lia.
Qed.
End words.

Lemma load_word_apart size a size' a' m m' v :
  0 <= size → 0 <= size' → apart size a size' a' →
  store_word size' a' v m = Done m' → load_word size a m' = load_word size a m.
Proof.
  intros H0 H1 Ha Hs. apply load_word_ext; [done|]. intros x Hx.
  eapply (store_word_outside size' a'); [done|done|]. destruct Ha; lia.
Qed.

(** ** Memory of bytes *)

Definition byte_mem (m : gmap Z Z) : Prop := map_Forall (λ _ b, 0 <= b < 256) m.

Lemma load_bytes_range k a m l :
  byte_mem m → load_bytes k a m = Done l → 0 <= le_value l < 2 ^ (8 * Z.of_nat k).
Proof.
  intros Hm. revert a l. induction k as [|k IH]; intros a l; cbn [load_bytes]; [by intros [= <-]|].
  destruct (m !! a) as [x|] eqn:Ha; [|done]. destruct (load_bytes k (a + 1) m) eqn:Hl; [|done].
  intros [= <-]. pose proof (IH _ _ Hl). pose proof (Hm _ _ Ha) as Hx. cbn beta in Hx. cbn [le_value].
  replace (8 * Z.of_nat (S k)) with (8 + 8 * Z.of_nat k) by lia. rewrite Z.pow_add_r by lia. change (2 ^ 8) with 256. lia.
Qed.
Lemma load_word_range size a m v :
  0 <= size → byte_mem m → load_word size a m = Done v → 0 <= v < 2 ^ (8 * size).
Proof.
  intros Hs Hm. unfold load_word. destruct (load_bytes _ a m) as [l|] eqn:Hl; [|done].
  intros [= <-]. pose proof (load_bytes_range _ _ _ _ Hm Hl) as H. by rewrite Z2Nat.id in H.
Qed.
(** Storing what was loaded changes nothing. *)
Lemma store_loaded_bytes k a m l :
  byte_mem m → load_bytes k a m = Done l → store_bytes (le_bytes k (le_value l)) a m = Done m.
Proof.
  intros Hm. revert a l. induction k as [|k IH]; intros a l; cbn [load_bytes]; [by intros [= <-]|].
  destruct (m !! a) as [x|] eqn:Ha; [|done]. destruct (load_bytes k (a + 1) m) as [l'|] eqn:Hl; [|done].
  intros [= <-]. pose proof (Hm _ _ Ha) as Hx. cbn beta in Hx. cbn [le_bytes le_value store_bytes]. rewrite Ha.
  rewrite Z.shiftr_div_pow2 by lia. unfold u8. change (2 ^ 8) with 256.
  replace ((x + 256 * le_value l') `mod` 256) with x.
  2: { rewrite (Z.mul_comm 256), Z_mod_plus_full. by rewrite Z.mod_small. }
  replace ((x + 256 * le_value l') `div` 256) with (le_value l').
  2: { rewrite (Z.mul_comm 256), Z_div_plus_full by lia. rewrite Z.div_small by lia. lia. }
  rewrite insert_id by done. by apply IH.
Qed.
Lemma store_loaded size a m v :
  byte_mem m → load_word size a m = Done v → store_word size a v m = Done m.
Proof.
  intros Hm. unfold load_word, store_word. destruct (load_bytes _ a m) as [l|] eqn:Hl; [|done].
  intros [= <-]. by apply store_loaded_bytes.
Qed.

(** ** Steps *)

Section steps.
Context (env : nat → gmap Z Z → gmap Z Z) (fuel : nat).
Implicit Types (s : machine) (m : gmap Z Z).

(** What the next access finds. *)
Definition found s : gmap Z Z := env (clock s) (shared_mem s).
Definition after s m : machine := mk_machine m (S (clock s)) (axb s).

Lemma shared_load_done size a v s :
  load_word size a (found s) = Done v → shared_load env size a s = Done (v, after s (found s)).
Proof.
  intros Hv. unfold shared_load, interfere, bind, modify, get, lift. cbn.
  fold (found s). by rewrite Hv.
Qed.
Lemma shared_update_done size a f old m s :
  load_word size a (found s) = Done old → store_word size a (f old) (found s) = Done m →
  shared_update env size a f s = Done (old, after s m).
Proof.
  intros Hv Hm. unfold shared_update, interfere, bind, modify, get, lift. cbn.
  fold (found s). rewrite Hv, Hm. done.
Qed.
Lemma shared_store_done size a v old m s :
  load_word size a (found s) = Done old → store_word size a v (found s) = Done m →
  shared_store env size a v s = Done (tt, after s m).
Proof.
  intros Hv Hm. unfold shared_store. by erewrite bind_done by (by eapply shared_update_done).
Qed.

(** Without a descriptor the barrier does nothing. *)
Lemma no_barrier {A} mode (body : A → M machine A) a s :
  axb s = None → (0 < fuel)%nat →
  (∀ a' s', body a s = Done (a', s') → axb s' = None) →
  with_barrier env fuel mode body a s = body a s.
Proof.
  intros Hs Hf Hk. destruct fuel as [|n]; [lia|]. destruct s as [m c b]. cbn in Hs. subst b.
  unfold with_barrier. rewrite (bind_done _ _ _ tt (mk_machine m c None)) by done.
  cbn [barrier_loop]. rewrite (bind_done _ _ _ true (mk_machine m c None)) by done. cbn beta iota.
  destruct (body a _) as [[a' s']|] eqn:Hb; [|unfold bind; by rewrite Hb].
  rewrite (bind_done _ _ _ _ _ Hb). specialize (Hk _ _ eq_refl).
  rewrite (bind_done _ _ _ true s'); [done|]. unfold atomic_barrier_release, bind, get. by rewrite Hk.
Qed.

(** One access to the [size] bytes at [dest], which held [old], makes them
    [fst e] and gives the result [snd e]. *)
Definition linearized (size dest : Z) s (e : Z * out) (r : result (out * machine)) : Prop :=
  ∃ m, r = Done (snd e, after s m) ∧ load_word size dest m = Done (word size (fst e)) ∧
    ∀ x, x < dest ∨ dest + size <= x → m !! x = found s !! x.

Section one_step.
Context (size dest old : Z) (s : machine) (Hsize : 0 <= size).
Context (Hold : load_word size dest (found s) = Done old).
Context (Hnull : axb s = None) (Hfuel : (0 < fuel)%nat).

Lemma update_linearized f (g : Z → out) :
  linearized size dest s (f old, g old)
    (bind (shared_update env size dest f) (λ o, ret (g o)) s).
Proof using Hsize Hold.
  destruct (store_word_ok size dest Hsize _ _ (f old) Hold) as [m Hm]. exists m.
  rewrite (bind_done _ _ _ _ _ (shared_update_done _ _ _ _ _ _ Hold Hm)).
  split; [done|]. split; [by eapply load_store_word|].
  intros x Hx. by eapply store_word_outside.
Qed.
Lemma load_linearized (g : Z → out) :
  word size old = old →
  linearized size dest s (old, g old) (bind (shared_load env size dest) (λ o, ret (g o)) s).
Proof using Hold.
  intros Hw. exists (found s).
  rewrite (bind_done _ _ _ _ _ (shared_load_done _ _ _ _ Hold)).
  split; [done|]. cbn [fst]. by rewrite Hw.
Qed.
(** The barrier, the check of the size and the check of the pointer do not get
    in the way. *)
Lemma null_linearized {A} (proj : A → out) mode (body : A → M machine A) a e :
  linearized size dest s e (bind (body a) (λ x, ret (proj x)) s) →
  linearized size dest s e (bind (with_barrier env fuel mode body a) (λ x, ret (proj x)) s).
Proof using Hnull Hfuel.
  intros Hl. unfold bind at 1. rewrite no_barrier; [done|done|done|].
  intros a' s' Hb. destruct Hl as (m & Hl & _). rewrite (bind_done _ _ _ _ _ Hb) in Hl.
  by injection Hl as _ ->.
Qed.
End one_step.
End steps.
