(* ===== verification/AtomicBarrier.v ===== *)
(** The barrier of a sync descriptor between two processes: acquiring and
    releasing it, step by step, for readers and for writers, and for two processes
    that take turns. *)

From S2P Require Import Prelude Bytes LockfreeProg SysAtomic AtomicSpec.

(** A descriptor that synchronizes, between operations, with one fixed
    element: what the two init functions leave behind. *)
Definition sync_ready (b : mrapi_atomic_barrier_t) : Prop :=
  (axb_xchg b = true ∨ axb_dest b ≠ axb_src b) ∧ 0 < axb_elems b ∧
  pindex (axb_sync b) = None ∧ hold (axb_sync b) = false ∧ override (axb_sync b) = false ∧
  active (axb_sync b) = false ∧ 0 <= last_counter (axb_sync b) < 65536.
(** sys_atomic_barrier_init towards another process; sys_atomic_exchange_init. *)
Definition barrier_ready (b : mrapi_atomic_barrier_t) : Prop :=
  sync_ready b ∧ axb_xchg b = false.
Definition exchange_ready (b : mrapi_atomic_barrier_t) : Prop :=
  sync_ready b ∧ axb_xchg b = true.

(** The counter of the element the descriptor refers to. *)
Definition counter_at (b : mrapi_atomic_barrier_t) : Z := axb_buffer b + counter_offset.
Definition with_last (mode : mrapi_atomic_mode_t) (l : Z) (b : mrapi_atomic_barrier_t) :
    mrapi_atomic_barrier_t :=
  b <| axb_mode := mode |> <| axb_sync ::= λ y, y <| last_counter := l |> |>.

Lemma spin_true env_attempt F t s s' :
  env_attempt s = Done (true, s') → spin (S F) env_attempt t s = Done (true, s').
Proof. intros Ha. cbn [spin]. by rewrite (bind_done _ _ _ _ _ Ha). Qed.
Lemma spin_false env_attempt F t s s' :
  env_attempt s = Done (false, s') →
  spin (S F) env_attempt t s =
    if expired t then Done (false, s') else spin F env_attempt (count_down t) s'.
Proof. intros Ha. cbn [spin]. rewrite (bind_done _ _ _ _ _ Ha). cbn. by destruct (expired t). Qed.

Section barrier.
Context (env : nat → gmap Z Z → gmap Z Z) (fuel : nat).
Context (b : mrapi_atomic_barrier_t) (Hb : sync_ready b).

(** The state with the descriptor in [mode] and its last counter [l]. *)
Definition at_ (mode : mrapi_atomic_mode_t) (l : Z) (m : gmap Z Z) (c : nat) : machine :=
  mk_machine m c (Some (with_last mode l b)).

Lemma element_done mode l m c :
  elem_address env (with_last mode l b) (at_ mode l m c) = Done (axb_buffer b, at_ mode l m c).
Proof using Hb.
  destruct Hb as (_&He&Hp&_). unfold elem_address. cbn. rewrite Hp.
  unfold bind, ret, c_assert. rewrite (proj2 (Z.ltb_lt _ _) He). cbn. by rewrite Z.add_0_r.
Qed.
Lemma needed_when mode l : mode ≠ MRAPI_ATOMIC_NONE → barrier_needed (with_last mode l b) = true.
Proof using Hb.
  destruct Hb as (Hx&_&_&_&_&Ha&_). unfold barrier_needed. cbn. rewrite Ha.
  assert (axb_xchg b || negb (axb_dest b =? axb_src b) = true) as ->.
  { destruct Hx as [->|Hd]; [done|]. by rewrite (proj2 (Z.eqb_neq _ _) Hd), orb_true_r. }
  by destruct mode.
Qed.
Lemma set_active mode l m c :
  modify_sync (λ y, y <| active := hold y |>) (at_ mode l m c) = Done (tt, at_ mode l m c).
Proof using Hb.
  destruct Hb as (_&_&_&Hh&_&Ha&_). unfold at_, with_last. destruct b as [? ? ? ? ? ? ? [] ?].
  cbn in *. by subst.
Qed.
Lemma clear_override mode l m c :
  modify_sync (λ y, y <| override := false |>) (at_ mode l m c) = Done (tt, at_ mode l m c).
Proof using Hb.
  destruct Hb as (_&_&_&_&Ho&_). unfold at_, with_last. destruct b as [? ? ? ? ? ? ? [] ?].
  cbn in *. by subst.
Qed.

(** One iteration of the spinning. *)
Definition attempt_of (mode : mrapi_atomic_mode_t) : M machine bool :=
  if axb_xchg b then exchange_attempt env mode (axb_buffer b)
  else
    match mode with
    | MRAPI_ATOMIC_READ => read_attempt env (axb_buffer b)
    | _ => write_attempt env (axb_buffer b)
    end.
Lemma acquire_done mode l m c rc l' m' c' :
  mode ≠ MRAPI_ATOMIC_NONE →
  spin fuel (attempt_of mode) (axb_timeout b) (at_ mode l m c) = Done (rc, at_ mode l' m' c') →
  try_atomic_barrier_acquire env fuel (at_ mode l m c) = Done (rc, at_ mode l' m' c').
Proof using Hb.
  intros Hm Hs. unfold try_atomic_barrier_acquire. rewrite (bind_done get _ _ _ _ eq_refl).
  cbn [axb at_]. rewrite needed_when by done.
  rewrite (bind_done _ _ _ rc (at_ mode l' m' c')).
  - by rewrite (bind_done _ _ _ _ _ (set_active _ _ _ _)).
  - unfold acquire_element. rewrite (bind_done _ _ _ _ _ (element_done _ _ _ _)).
    revert Hs. unfold attempt_of. destruct Hb as (_&_&_&_&Ho&_). cbn -[spin at_].
    rewrite Ho. destruct (axb_xchg b); [done|]. by destruct mode.
Qed.

(** What the release does. *)
Definition release_of (mode : mrapi_atomic_mode_t) (l : Z) : M machine bool :=
  if axb_xchg b then flip_valid env (axb_buffer b);; ret true
  else
    match mode with
    | MRAPI_ATOMIC_READ =>
        let* counter := shared_load env 2 (counter_at b) in ret (l =? counter)
    | _ =>
        let* old := val_compare_and_swap env 2 (counter_at b) l (u16 (l + 1)) in ret (old =? u16 l)
    end.
Lemma release_done mode l m c rc m' c' :
  mode ≠ MRAPI_ATOMIC_NONE →
  release_of mode l (at_ mode l m c) = Done (rc, at_ mode l m' c') →
  atomic_barrier_release env (at_ mode l m c) = Done (rc, at_ mode l m' c').
Proof using Hb.
  intros Hm Hs. unfold atomic_barrier_release. rewrite (bind_done get _ _ _ _ eq_refl).
  cbn [axb at_]. rewrite needed_when by done.
  rewrite (bind_done _ _ _ rc (at_ mode l m' c')).
  - by rewrite (bind_done _ _ _ _ _ (clear_override _ _ _ _)).
  - unfold release_element. rewrite (bind_done _ _ _ _ _ (element_done _ _ _ _)).
    revert Hs. unfold release_of. cbn -[spin at_]. destruct (axb_xchg b); [done|]. by destruct mode.
Qed.
(** Setting the mode is the first step of an operation. *)
Lemma mode_done mode m c :
  atomic_barrier_mode mode (mk_machine m c (Some b))
  = Done (tt, at_ mode (last_counter (axb_sync b)) m c).
Proof using. clear Hb. unfold at_, with_last. by destruct b as [? ? ? ? ? ? ? [] ?]. Qed.

(** ** Single accesses *)

Lemma load_at mode l m c size a v :
  load_word size a (env c m) = Done v →
  shared_load env size a (at_ mode l m c) = Done (v, at_ mode l (env c m) (S c)).
Proof. apply (shared_load_done env size a v (at_ mode l m c)). Qed.
Lemma update_at mode l m c size a f old m' :
  load_word size a (env c m) = Done old → store_word size a (f old) (env c m) = Done m' →
  shared_update env size a f (at_ mode l m c) = Done (old, at_ mode l m' (S c)).
Proof. apply (shared_update_done env size a f old m' (at_ mode l m c)). Qed.
Lemma read_last_at mode l m c v :
  0 <= l < 65536 → load_word 2 (counter_at b) (env c m) = Done v →
  read_last_counter env (axb_buffer b) (at_ mode l m c) = Done (tt, at_ mode v (env c m) (S c)).
Proof.
  intros Hl Hv. unfold read_last_counter. rewrite (bind_done _ _ _ _ _ (load_at mode l m c _ _ _ Hv)).
  transitivity (Done (tt, at_ mode (l - u16 l + v) (env c m) (S c))); [done|].
  rewrite u16_small by done. by replace (l - l + v) with v by lia.
Qed.
Lemma read_attempt_at mode l m c v :
  0 <= l < 65536 → load_word 2 (counter_at b) (env c m) = Done v →
  read_attempt env (axb_buffer b) (at_ mode l m c) = Done (v mod 2 =? 0, at_ mode v (env c m) (S c)).
Proof.
  intros Hl Hv. unfold read_attempt. by rewrite (bind_done _ _ _ _ _ (read_last_at mode _ _ _ _ Hl Hv)).
Qed.
End barrier.

(** The two lemmas for barriers. *)
Section ready_barrier.
Context (env : nat → gmap Z Z → gmap Z Z) (fuel : nat).
Context (b : mrapi_atomic_barrier_t) (Hb : barrier_ready b).

Definition spin_of (mode : mrapi_atomic_mode_t) : M machine bool :=
  match mode with
  | MRAPI_ATOMIC_READ => read_attempt env (axb_buffer b)
  | _ => write_attempt env (axb_buffer b)
  end.
Lemma acquire_barrier mode l m c rc l' m' c' :
  mode ≠ MRAPI_ATOMIC_NONE →
  spin fuel (spin_of mode) (axb_timeout b) (at_ b mode l m c) = Done (rc, at_ b mode l' m' c') →
  try_atomic_barrier_acquire env fuel (at_ b mode l m c) = Done (rc, at_ b mode l' m' c').
Proof using Hb.
  destruct Hb as [Hs Hx]. intros Hm Hspin. apply acquire_done; [done|done|].
  unfold attempt_of. by rewrite Hx.
Qed.
Definition unspin_of (mode : mrapi_atomic_mode_t) (l : Z) : M machine bool :=
  match mode with
  | MRAPI_ATOMIC_READ =>
      let* counter := shared_load env 2 (counter_at b) in ret (l =? counter)
  | _ =>
      let* old := val_compare_and_swap env 2 (counter_at b) l (u16 (l + 1)) in ret (old =? u16 l)
  end.
Lemma release_barrier mode l m c rc m' c' :
  mode ≠ MRAPI_ATOMIC_NONE →
  unspin_of mode l (at_ b mode l m c) = Done (rc, at_ b mode l m' c') →
  atomic_barrier_release env (at_ b mode l m c) = Done (rc, at_ b mode l m' c').
Proof using Hb.
  destruct Hb as [Hs Hx]. intros Hm Hr. apply release_done; [done|done|].
  unfold release_of. by rewrite Hx.
Qed.
End ready_barrier.

(** ** Readers

    A reader changes nothing: its [n]-th access finds what others made of the
    memory, [seen n]. *)

Fixpoint seen (env : nat → gmap Z Z → gmap Z Z) (c : nat) (m : gmap Z Z) (n : nat) : gmap Z Z :=
  match n with
  | O => env c m
  | S n' => env (c + n)%nat (seen env c m n')
  end.

Section reader.
Context (env : nat → gmap Z Z → gmap Z Z) (fuel : nat).
Context (b : mrapi_atomic_barrier_t) (Hb : barrier_ready b) (Hforever : axb_timeout b = MCA_INFINITE).
Context (dest size : Z) (Hsize : integer_size size = true) (Hdest : dest ≠ 0).
Context (c0 : nat) (m0 : gmap Z Z) (counter data : nat → Z).
Context (Hcounter : ∀ n, load_word 2 (counter_at b) (seen env c0 m0 n) = Done (counter n)).
Context (Hdata : ∀ n, load_word size dest (seen env c0 m0 n) = Done (data n)).
Context (Hrange : ∀ n, 0 <= counter n < 65536).
(** The counter does not come back to a value, and from [quiet] on nobody
    writes. *)
Context (Hfresh : ∀ i j k, (i <= k <= j)%nat → counter i = counter j → counter k = counter i).
Context (quiet : nat) (Hquiet : ∀ n, (quiet <= n)%nat → counter n = counter quiet)
  (Heven : counter quiet mod 2 = 0).

(** After [n] accesses. *)
Definition mem_after (n : nat) : gmap Z Z := match n with O => m0 | S n' => seen env c0 m0 n' end.
Definition reader (l : Z) (n : nat) : machine :=
  at_ b MRAPI_ATOMIC_READ l (mem_after n) (c0 + n).

Lemma seen_step n : env (c0 + n) (mem_after n) = seen env c0 m0 n.
Proof using. destruct n; [by rewrite Nat.add_0_r|done]. Qed.
Lemma reader_load l n sz a v :
  load_word sz a (seen env c0 m0 n) = Done v →
  shared_load env sz a (reader l n) = Done (v, reader l (S n)).
Proof using.
  intros Hv. unfold reader. rewrite <- seen_step in Hv.
  rewrite (load_at env b _ _ _ _ _ _ v Hv), seen_step. cbn [mem_after]. by rewrite Nat.add_succ_r.
Qed.
Lemma reader_attempt l n :
  0 <= l < 65536 →
  read_attempt env (axb_buffer b) (reader l n) = Done (counter n mod 2 =? 0, reader (counter n) (S n)).
Proof using Hcounter.
  intros Hl. unfold reader. pose proof (Hcounter n) as Hv. rewrite <- seen_step in Hv.
  rewrite (read_attempt_at env b _ _ _ _ _ Hl Hv), seen_step. cbn [mem_after]. by rewrite Nat.add_succ_r.
Qed.
Lemma reader_spins F l n :
  0 <= l < 65536 → (0 < F)%nat → (quiet < n + F)%nat →
  ∃ j, (n <= j)%nat ∧ counter j mod 2 = 0 ∧
    spin F (read_attempt env (axb_buffer b)) MCA_INFINITE (reader l n)
      = Done (true, reader (counter j) (S j)).
Proof using Hcounter Hrange Hquiet Heven.
  revert l n. induction F as [|F IH]; intros l n Hl HF Hn; [lia|].
  pose proof (reader_attempt l n Hl) as Ha.
  destruct (counter n mod 2 =? 0) eqn:E.
  - exists n. split; [done|]. split; [lia|]. by apply spin_true.
  - destruct (decide (quiet <= n)%nat); [rewrite Hquiet in E; lia|].
    destruct (IH (counter n) (S n)) as (j & Hj & He & Hs); [done|lia|lia|].
    exists j. split; [lia|]. split; [done|]. by rewrite (spin_false _ _ _ _ _ Ha).
Qed.

Lemma reader_loops F l n :
  0 <= l < 65536 → (quiet < fuel)%nat → (0 < F)%nat → (quiet < n + F)%nat → ∀ o,
  ∃ k n', (n < k < n')%nat ∧ counter k mod 2 = 0 ∧
    barrier_loop env fuel F (λ _, switch_size size (
      let* v := shared_load env size dest in ret (true, Some v))) o (reader l n)
    = Done ((true, Some (data k)), reader (counter k) n').
Proof using All.
  revert l n. induction F as [|F IH]; intros l n Hl Hfuel HF Hn o; [lia|].
  destruct (reader_spins fuel l n) as (j & Hj & He & Hs); [done|lia|lia|].
  rewrite <- Hforever in Hs. cbn [barrier_loop].
  rewrite (bind_done _ _ _ true (reader (counter j) (S j))) by by apply (acquire_barrier env _ b Hb).
  rewrite (bind_done _ _ _ (true, Some (data (S j))) (reader (counter j) (S (S j)))).
  2: { unfold switch_size. rewrite Hsize. by rewrite (bind_done _ _ _ _ _ (reader_load _ _ _ _ _ (Hdata (S j)))). }
  rewrite (bind_done _ _ _ (counter j =? counter (S (S j))) (reader (counter j) (S (S (S j))))).
  2: { apply (release_barrier env b Hb); [done|]. cbn [unspin_of]. fold (reader (counter j) (S (S j))).
       by rewrite (bind_done _ _ _ _ _ (reader_load _ _ _ _ _ (Hcounter (S (S j))))). }
  destruct (counter j =? counter (S (S j))) eqn:E.
  - apply Z.eqb_eq in E. pose proof (Hfresh j (S (S j)) (S j) ltac:(lia) E) as Hk.
    exists (S j), (S (S (S j))). split; [lia|]. rewrite Hk. done.
  - destruct (decide (quiet <= j)%nat); [rewrite (Hquiet j), (Hquiet (S (S j))) in E; lia|].
    destruct (IH (counter j) (S (S (S j))) ltac:(done) Hfuel ltac:(lia) ltac:(lia)
      (true, Some (data (S j)))) as (k & n' & Hk & Hr).
    exists k, n'. split; [lia|done].
Qed.

Lemma reader_result :
  (quiet < fuel)%nat →
  ∃ k n, (k < n)%nat ∧ counter k mod 2 = 0 ∧
    sys_atomic_read env fuel dest size (mk_machine m0 c0 (Some b))
    = Done ((true, Some (data k)), reader (counter k) n).
Proof using All.
  intros Hf. set (l := last_counter (axb_sync b)).
  assert (0 <= l < 65536) as Hl by apply (proj1 Hb).
  destruct (reader_loops fuel l 0 Hl Hf ltac:(lia) ltac:(lia) nothing) as (k & n & Hk & He & Hr).
  exists k, n. split; [lia|]. split; [done|]. rewrite <- Hr.
  unfold sys_atomic_read, not_null. rewrite (proj2 (Z.eqb_neq dest 0) Hdest).
  unfold reader, at_, l. cbn [mem_after]. rewrite Nat.add_0_r. by destruct b as [? ? ? ? ? ? ? [] ?].
Qed.
End reader.

(** ** Writers

    A write through a barrier as a program of accesses, for its interleavings with
    other writers of the element. *)

Section program.
Context (counter dest size : Z).

Definition load_access (sz a : Z) : M (gmap Z Z) Z :=
  let* m := get in lift (load_word sz a m).
Definition update_access (sz a : Z) (f : Z → Z) : M (gmap Z Z) Z :=
  let* m := get in
  let* old := lift (load_word sz a m) in
  let* m' := lift (store_word sz a (f old) m) in
  modify (λ _, m');;
  ret old.
Definition swap_counter (compare exchange : Z) : M (gmap Z Z) Z :=
  update_access 2 counter (λ old, if old =? word 2 compare then exchange else old).

(** The spinning; [l] is the last counter. *)
Fixpoint own_prog (fuel : nat) (l : Z) : prog (gmap Z Z) Z :=
  match fuel with
  | O => Raise OutOfFuel
  | S fuel =>
      let! v := once (load_access 2 counter) in
      let l := l - u16 l + v in
      let k := u16 (l + 1) in
      if k mod 2 =? 1 then
        let! old := once (swap_counter l k) in
        if old =? u16 l then Return k else own_prog fuel l
      else own_prog fuel l
  end.
(** The loop of the operation: its result and the last counter. *)
Fixpoint write_prog (fuel spins : nat) (f : Z → Z) (g : Z → out) (l : Z) : prog (gmap Z Z) (out * Z) :=
  match fuel with
  | O => Raise OutOfFuel
  | S fuel =>
      let! l := own_prog spins l in
      let! x := once (update_access size dest f) in
      let! old := once (swap_counter l (u16 (l + 1))) in
      if old =? u16 l then Return (g x, l) else write_prog fuel spins f g l
  end.

(** A program whose [c]-th access is made after others have done [env c]. *)
Fixpoint against {A} (env : nat → gmap Z Z → gmap Z Z) (p : prog (gmap Z Z) A) (m : gmap Z Z) (c : nat) :
    result (A * (gmap Z Z * nat)) :=
  match p with
  | Return a => Done (a, (m, c))
  | Atomic access k =>
      match access (env c m) with Done (x, m') => against env (k x) m' (S c) | Fault f => Fault f end
  | Raise f => Fault f
  end.
Lemma against_then {A B} env (p : prog (gmap Z Z) A) (k : A → prog (gmap Z Z) B) m c :
  against env (then_do p k) m c =
  match against env p m c with Done (a, (m', c')) => against env (k a) m' c' | Fault f => Fault f end.
Proof.
  revert m c. induction p as [a|X access next IH|f]; intros m c; cbn; [done| |done].
  destruct (access (env c m)) as [[x m']|]; [apply IH|done].
Qed.
End program.

(** The operation makes exactly the accesses of the program. *)
Section as_program.
Context (env : nat → gmap Z Z → gmap Z Z) (fuel : nat).
Context (b : mrapi_atomic_barrier_t) (Hb : barrier_ready b) (Hforever : axb_timeout b = MCA_INFINITE).
Context (dest size : Z) (Hsize : integer_size size = true).
Local Abbreviation writer := (at_ b MRAPI_ATOMIC_WRITE).

Lemma shared_load_eq sz a l m c :
  shared_load env sz a (writer l m c) =
  match load_access sz a (env c m) with Done (v, m') => Done (v, writer l m' (S c)) | Fault f => Fault f end.
Proof using.
  unfold shared_load, load_access, interfere, bind, modify, get, lift. cbn.
  by destruct (load_word _ _ _).
Qed.
Lemma shared_update_eq sz a f l m c :
  shared_update env sz a f (writer l m c) =
  match update_access sz a f (env c m) with Done (v, m') => Done (v, writer l m' (S c)) | Fault e => Fault e end.
Proof using.
  unfold shared_update, update_access, interfere, bind, modify, get, lift, ret. cbn.
  destruct (load_word _ _ _) as [old|]; [|done]. cbn. by destruct (store_word _ _ _ _).
Qed.
Lemma spin_eq F l m c :
  spin F (write_attempt env (axb_buffer b)) MCA_INFINITE (writer l m c) =
  match against env (own_prog (counter_at b) F l) m c with
  | Done (l', (m', c')) => Done (true, writer l' m' c')
  | Fault f => Fault f
  end.
Proof using.
  revert l m c. induction F as [|F IH]; intros l m c; [done|].
  cbn [spin own_prog then_do once against]. unfold write_attempt at 1, read_last_counter.
  unfold bind at 1. unfold bind at 1. unfold bind at 1. fold (counter_at b). rewrite shared_load_eq.
  destruct (load_access 2 (counter_at b) (env c m)) as [[v m1]|]; [|done].
  change (modify_sync (λ y, y <| last_counter ::= λ l0, l0 - u16 l0 + v |>) (writer l m1 (S c)))
    with (Done (tt, writer (l - u16 l + v) m1 (S c))).
  cbv beta iota. set (l1 := l - u16 l + v).
  change (get_last_counter (writer l1 m1 (S c))) with (Done (l1, writer l1 m1 (S c))).
  unfold bind at 1. change (get_last_counter (writer l1 m1 (S c))) with (Done (l1, writer l1 m1 (S c))).
  cbv beta iota. destruct (u16 (l1 + 1) mod 2 =? 1).
  - unfold bind at 1. unfold val_compare_and_swap. rewrite shared_update_eq.
    cbn [then_do once against]. unfold swap_counter at 1.
    destruct (update_access _ _ _ _) as [[old m2]|]; [|done].
    destruct (old =? u16 l1); [done|]. cbv beta iota. cbn [ret]. by rewrite IH.
  - cbn [ret]. by rewrite IH.
Qed.
Lemma acquire_prog_eq l m c :
  try_atomic_barrier_acquire env fuel (writer l m c) =
  match against env (own_prog (counter_at b) fuel l) m c with
  | Done (l', (m', c')) => Done (true, writer l' m' c')
  | Fault f => Fault f
  end.
Proof using Hb Hforever.
  pose proof (spin_eq fuel l m c) as Hs. rewrite <- Hforever in Hs.
  destruct (against env (own_prog (counter_at b) fuel l) m c) as [[l' [m' c']]|f].
  - by apply (acquire_barrier env fuel b Hb).
  - unfold try_atomic_barrier_acquire. rewrite (bind_done get _ _ _ _ eq_refl). cbn [axb at_].
    rewrite needed_when by (apply Hb || done). unfold bind at 1, acquire_element.
    destruct Hb as [Hsync Hx]. rewrite (bind_done _ _ _ _ _ (element_done env b Hsync _ _ _ _)).
    destruct Hsync as (_&_&_&_&Ho&_). cbn -[spin at_]. rewrite Ho, Hx. by rewrite Hs.
Qed.
Lemma release_prog_eq l m c :
  atomic_barrier_release env (writer l m c) =
  match swap_counter (counter_at b) l (u16 (l + 1)) (env c m) with
  | Done (old, m') => Done (old =? u16 l, writer l m' (S c))
  | Fault f => Fault f
  end.
Proof using Hb.
  unfold swap_counter.
  destruct (update_access 2 (counter_at b) _ (env c m)) as [[old m']|f] eqn:Hu.
  - apply (release_barrier env b Hb); [done|]. cbn [unspin_of]. unfold bind, val_compare_and_swap.
    by rewrite shared_update_eq, Hu.
  - unfold atomic_barrier_release. rewrite (bind_done get _ _ _ _ eq_refl). cbn [axb at_].
    rewrite needed_when by (apply Hb || done). unfold bind at 1, release_element.
    destruct Hb as [Hsync Hx]. rewrite (bind_done _ _ _ _ _ (element_done env b Hsync _ _ _ _)).
    cbn -[at_ val_compare_and_swap]. rewrite Hx. unfold bind at 1, val_compare_and_swap.
    fold (counter_at b). by rewrite shared_update_eq, Hu.
Qed.

Lemma loop_eq (f : Z → Z) (g : Z → out) F a l m c :
  barrier_loop env fuel F (λ _ : out, switch_size size (
    let* x := shared_update env size dest f in ret (g x))) a (writer l m c) =
  match against env (write_prog (counter_at b) dest size F fuel f g l) m c with
  | Done ((r, l'), (m', c')) => Done (r, writer l' m' c')
  | Fault f => Fault f
  end.
Proof using Hb Hforever Hsize.
  revert a l m c. induction F as [|F IH]; intros a l m c; [done|].
  cbn [barrier_loop write_prog]. rewrite against_then. unfold bind at 1. rewrite acquire_prog_eq.
  destruct (against env (own_prog _ fuel l) m c) as [[l1 [m1 c1]]|]; [|done].
  cbn [then_do once against]. unfold bind at 1, switch_size at 1. rewrite Hsize.
  unfold bind at 1. rewrite shared_update_eq.
  destruct (update_access size dest f (env c1 m1)) as [[x m2]|]; [|done].
  cbn [ret]. unfold bind at 1. rewrite release_prog_eq.
  destruct (swap_counter _ _ _ _) as [[old m3]|]; [|done].
  destruct (old =? u16 l1); [done|]. apply IH.
Qed.
Lemma write_as_program (f : Z → Z) (g : Z → out) m c :
  with_barrier env fuel MRAPI_ATOMIC_WRITE (λ _ : out, switch_size size (
    let* x := shared_update env size dest f in ret (g x))) nothing (mk_machine m c (Some b)) =
  match against env (write_prog (counter_at b) dest size fuel fuel f g (last_counter (axb_sync b))) m c with
  | Done ((r, l), (m', c')) => Done (r, mk_machine m' c' (Some (with_last MRAPI_ATOMIC_WRITE l b)))
  | Fault e => Fault e
  end.
Proof using Hb Hforever Hsize.
  unfold with_barrier. rewrite (bind_done _ _ _ _ _ (mode_done b _ m c)). apply loop_eq.
Qed.
End as_program.

(** ** Writers at the same time

    Threads that write through a barrier: [turn] says who owns the element and
    whether it has written, [log] who has written, in the order of the writes. *)

Lemma store_word_bytes size a v m m' : store_word size a v m = Done m' → byte_mem m → byte_mem m'.
Proof.
  unfold store_word. generalize (Z.to_nat size) as k. intros k. revert a v m.
  induction k as [|k IH]; intros a v m; cbn [le_bytes store_bytes]; [by intros [= ->]|].
  destruct (m !! a); [|done]. intros Hs Hm. eapply IH; [exact Hs|]. apply map_Forall_insert_2; [|done].
  apply u8_range.
Qed.

Inductive turn := Open | Entered (i : nat) | Wrote (i : nat).
Definition has_turn (i : nat) (t : turn) : Prop :=
  match t with Open => False | Entered j | Wrote j => j = i end.
Definition turn_offset (t : turn) : Z := match t with Open => 0 | Entered _ => 1 | Wrote _ => -1 end.
Record element := mk_element { el_mem : gmap Z Z; el_turn : turn; el_log : list nat }.

Section writers.
Context (counter dest size : Z) (Hsize : 0 < size) (Hapart : apart size dest 2 counter).
Context (N : nat) (f : nat → Z → Z) (v0 old0 : Z) (Hv0 : v0 mod 2 = 0).

(** The word after the writes of [log]. *)
Definition written (log : list nat) : Z := fold_left (λ x i, word size (f i x)) log old0.
Definition counter_now (t : turn) (log : list nat) : Z :=
  u16 (v0 + 2 * Z.of_nat (length log) + turn_offset t).
(** How often the element has been entered. *)
Definition entries (w : element) : nat :=
  (length (el_log w) + match el_turn w with Entered _ => 1 | _ => 0 end)%nat.
Definition visitors (w : element) : list nat :=
  match el_turn w with Entered i => i :: el_log w | _ => el_log w end.
Record element_wf (w : element) : Prop := {
  ew_bytes : byte_mem (el_mem w);
  ew_counter : load_word 2 counter (el_mem w) = Done (counter_now (el_turn w) (el_log w));
  ew_data : load_word size dest (el_mem w) = Done (written (el_log w));
  ew_once : NoDup (visitors w);
  ew_known : Forall (λ i, i < N)%nat (visitors w);
  ew_wrote i : el_turn w = Wrote i → i ∈ el_log w;
}.

Inductive moves (i : nat) (w : element) : element → Prop :=
| stays : moves i w w
| enters m : el_turn w = Open → moves i w (mk_element m (Entered i) (el_log w))
| writes m : el_turn w = Entered i → moves i w (mk_element m (Wrote i) (el_log w ++ [i]))
| leaves_it m : el_turn w = Wrote i → moves i w (mk_element m Open (el_log w)).
Definition writer_step (i : nat) : relation element := λ w w', element_wf w' ∧ moves i w w'.
(** What the others do: nothing while it is the thread's turn; and whoever found
    the element open finds it as it was, or entered once more. *)
Record writer_rely (i : nat) (w w' : element) : Prop := {
  wr_wf : element_wf w → element_wf w';
  wr_turn : has_turn i (el_turn w) → w' = w;
  wr_other : ¬ has_turn i (el_turn w) → ¬ has_turn i (el_turn w');
  wr_log : el_log w `prefix_of` el_log w';
  wr_mine : i ∈ el_log w' → i ∈ el_log w;
  wr_entries : (entries w <= entries w')%nat;
  wr_open : el_turn w = Open → entries w' = entries w → w' = w;
}.
#[export] Instance writer_rely_preorder i : PreOrder (writer_rely i).
Proof.
  split; [by split|]. intros w1 w2 w3 H1 H2. split.
  - intros H. by apply (wr_wf _ _ _ H2), (wr_wf _ _ _ H1).
  - intros H. pose proof (wr_turn _ _ _ H1 H) as ->. by apply (wr_turn _ _ _ H2).
  - intros H. by apply (wr_other _ _ _ H2), (wr_other _ _ _ H1).
  - etrans; [apply (wr_log _ _ _ H1)|apply (wr_log _ _ _ H2)].
  - intros H. by apply (wr_mine _ _ _ H1), (wr_mine _ _ _ H2).
  - pose proof (wr_entries _ _ _ H1). pose proof (wr_entries _ _ _ H2). lia.
  - intros H He. pose proof (wr_entries _ _ _ H1). pose proof (wr_entries _ _ _ H2).
    pose proof (wr_open _ _ _ H1 H ltac:(lia)) as ->. apply (wr_open _ _ _ H2); [done|lia].
Qed.
Lemma writers_compatible i j w w' : i ≠ j → writer_step i w w' → writer_rely j w w'.
Proof.
  intros Hne [Hw Hm]. destruct Hm as [|m Ht|m Ht|m Ht]; [done|split..]; unfold entries; cbn; rewrite ?Ht, ?length_app;
    cbn; try done; try lia; try (intros; congruence).
  - by apply prefix_app_r.
  - rewrite elem_of_app, list_elem_of_singleton. intros [|]; congruence.
Qed.

(** *** Accesses *)

Lemma counter_now_range t log : 0 <= counter_now t log < 65536.
Proof. apply u16_range. Qed.
Lemma u16_parity z : u16 z mod 2 = z mod 2.
Proof. unfold u16. change (2 ^ 16) with 65536. Z.to_euclidean_division_equations. lia. Qed.
Lemma u16_plus z k : u16 (u16 z + k) = u16 (z + k).
Proof. unfold u16. by rewrite Zplus_mod_idemp_l. Qed.
Lemma counter_now_parity t log : (u16 (counter_now t log + 1) mod 2 =? 1) = match t with Open => true | _ => false end.
Proof.
  unfold counter_now. rewrite u16_plus, u16_parity.
  destruct t; cbn [turn_offset]; Z.to_euclidean_division_equations; lia.
Qed.
Lemma load_counter w :
  element_wf w → load_access 2 counter (el_mem w) = Done (counter_now (el_turn w) (el_log w), el_mem w).
Proof.
  intros Hw. unfold load_access, bind, get, lift. by rewrite (ew_counter _ Hw).
Qed.
Lemma update_done sz a h old m m' :
  load_word sz a m = Done old → store_word sz a (h old) m = Done m' → update_access sz a h m = Done (old, m').
Proof. intros Hl Hs. unfold update_access, bind, get, lift, modify, ret. by rewrite Hl, Hs. Qed.
(** The counter is only swapped by who expects its value. *)
Lemma swap_missed w k new :
  element_wf w → counter_now (el_turn w) (el_log w) ≠ k → 0 <= k < 65536 →
  swap_counter counter k new (el_mem w) = Done (counter_now (el_turn w) (el_log w), el_mem w).
Proof.
  intros Hw Hne Hk. unfold swap_counter. apply update_done; [apply (ew_counter _ Hw)|].
  rewrite word_u16, (u16_small k) by done. rewrite (proj2 (Z.eqb_neq _ _) Hne).
  apply store_loaded; [apply (ew_bytes _ Hw)|apply (ew_counter _ Hw)].
Qed.
Lemma swap_made w t' :
  element_wf w →
  ∃ m', swap_counter counter (counter_now (el_turn w) (el_log w)) (counter_now t' (el_log w)) (el_mem w)
      = Done (counter_now (el_turn w) (el_log w), m') ∧
    byte_mem m' ∧ load_word 2 counter m' = Done (counter_now t' (el_log w)) ∧
    load_word size dest m' = Done (written (el_log w)).
Proof.
  intros Hw. pose proof (ew_counter _ Hw) as Hc.
  destruct (store_word_ok 2 counter ltac:(lia) _ _ (counter_now t' (el_log w)) Hc) as [m' Hm'].
  exists m'. split; [|split; [|split]].
  - unfold swap_counter. apply update_done; [done|]. rewrite word_u16, u16_small by apply counter_now_range.
    by rewrite Z.eqb_refl.
  - eapply store_word_bytes; [exact Hm'|apply (ew_bytes _ Hw)].
  - rewrite (load_store_word 2 counter ltac:(lia) _ _ _ Hm'), word_u16.
    by rewrite u16_small by apply counter_now_range.
  - rewrite (load_word_apart size dest 2 counter _ _ _ ltac:(lia) ltac:(lia) Hapart Hm'). apply (ew_data _ Hw).
Qed.
Lemma data_written w i :
  element_wf w →
  ∃ m', update_access size dest (f i) (el_mem w) = Done (written (el_log w), m') ∧
    byte_mem m' ∧ load_word 2 counter m' = Done (counter_now (el_turn w) (el_log w)) ∧
    load_word size dest m' = Done (written (el_log w ++ [i])).
Proof.
  intros Hw. pose proof (ew_data _ Hw) as Hd.
  assert (apart 2 counter size dest) as Hap by (destruct Hapart; [by right|by left]).
  destruct (store_word_ok size dest ltac:(lia) _ _ (f i (written (el_log w))) Hd) as [m' Hm'].
  exists m'. split; [by apply update_done|]. split; [|split].
  - eapply store_word_bytes; [exact Hm'|apply (ew_bytes _ Hw)].
  - rewrite (load_word_apart 2 counter size dest _ _ _ ltac:(lia) ltac:(lia) Hap Hm'). apply (ew_counter _ Hw).
  - rewrite (load_store_word size dest ltac:(lia) _ _ _ Hm'). unfold written. by rewrite fold_left_app.
Qed.

(** *** Threads *)

Lemma el_turn_open w : el_turn w = Open ∨ el_turn w ≠ Open.
Proof. destruct (el_turn w); [by left|by right..]. Qed.
Lemma entries_bound w : element_wf w → (entries w <= N)%nat.
Proof.
  intros Hw. assert (entries w = length (visitors w)) as ->.
  { unfold entries, visitors. destruct (el_turn w); cbn; lia. }
  replace N with (length (seq 0 N)) by apply length_seq. apply submseteq_length, NoDup_submseteq; [apply (ew_once _ Hw)|].
  intros i Hi. apply elem_of_seq. pose proof (proj1 (Forall_forall _ _) (ew_known _ Hw) i Hi). cbn in *. lia.
Qed.
Definition writer_waits (i : nat) (w : element) : Prop := ∃ j, j ≠ i ∧ has_turn j (el_turn w).
Definition nothing_done (w w' : element) : Prop := w' = w.
Abbreviation writer_live i t n p Q w :=
  (live el_mem (writer_rely i) (writer_step i) True (writer_waits i) nothing_done (λ _, 0%nat) t n p Q w).

(** The element is the thread's, which has not written yet. *)
Definition owns (i : nat) (l : Z) (w : element) : Prop :=
  element_wf w ∧ el_turn w = Entered i ∧ l = counter_now (el_turn w) (el_log w).
Lemma not_written w i : element_wf w → el_turn w = Entered i → i ∉ el_log w.
Proof.
  intros Hw Ht. pose proof (ew_once _ Hw) as Hn. unfold visitors in Hn. rewrite Ht in Hn.
  by apply NoDup_cons in Hn as [? _].
Qed.

Section thread.
Context (i : nat) (Hi : (i < N)%nat).
Definition outside (w : element) : Prop := element_wf w ∧ ¬ has_turn i (el_turn w) ∧ i ∉ el_log w.
Lemma outside_rely w w' : outside w → writer_rely i w w' → outside w'.
Proof.
  intros (Hw & Ht & Hl) Hr. split; [by apply (wr_wf _ _ _ Hr)|]. split; [by apply (wr_other _ _ _ Hr)|].
  intros H. by apply Hl, (wr_mine _ _ _ Hr).
Qed.
Lemma enter_swap w :
  outside w → el_turn w = Open →
  ∃ m', swap_counter counter (counter_now Open (el_log w)) (u16 (counter_now Open (el_log w) + 1)) (el_mem w)
      = Done (counter_now Open (el_log w), m') ∧
    owns i (u16 (counter_now Open (el_log w) + 1)) (mk_element m' (Entered i) (el_log w)).
Proof using Hsize Hapart Hi.
  intros (Hw & _ & Hl) Ht.
  assert (u16 (counter_now Open (el_log w) + 1) = counter_now (Entered i) (el_log w)) as ->.
  { unfold counter_now. rewrite u16_plus. cbn [turn_offset]. f_equal. lia. }
  destruct (swap_made w (Entered i) Hw) as (m' & Hs & Hb & Hc & Hd). rewrite Ht in Hs.
  exists m'. split; [done|]. split; [|done]. split; cbn; try done.
  - pose proof (ew_once _ Hw) as Hn. unfold visitors in *. rewrite Ht in Hn. cbn. by constructor.
  - pose proof (ew_known _ Hw) as Hn. unfold visitors in *. rewrite Ht in Hn. cbn. by constructor.
Qed.
(** Spinning costs two accesses for each entry of another thread. *)
Lemma own_live F c n l w :
  outside w → 0 <= l < 65536 → (2 * (N - entries w) + 2 + c <= n)%nat →
  writer_live i F n (own_prog counter F l) (λ m l' w', (c <= m)%nat ∧ owns i l' w') w.
Proof.
  revert n l w. induction F as [|F IH]; intros n l w Hw Hl Hn; [done|].
  cbn [own_prog]. apply live_access. intros w1 H1.
  pose proof (outside_rely w w1 Hw H1) as Hw1. pose proof (wr_entries _ _ _ H1) as He1.
  pose proof (load_counter w1 (proj1 Hw1)) as Hload. pose proof (counter_now_parity (el_turn w1) (el_log w1)) as Hpar.
  set (v := counter_now (el_turn w1) (el_log w1)) in *. assert (0 <= v < 65536) as Hv by apply counter_now_range.
  destruct (el_turn_open w1) as [Ht|Ht].
  - exists v, w1, (pred n). split; [done|]. split; [split; [apply Hw1|apply stays]|].
    split; [intros _; left; lia|]. cbn zeta beta.
    replace (l - u16 l + v) with v by (rewrite u16_small by done; lia). rewrite Hpar, Ht.
    apply live_access. intros w2 H2. pose proof (outside_rely w1 w2 Hw1 H2) as Hw2.
    destruct (decide (counter_now (el_turn w2) (el_log w2) = v)) as [Hsame|Hdiff].
    + assert (el_turn w2 = Open) as Ht2.
      { pose proof (counter_now_parity (el_turn w2) (el_log w2)) as Hp2. rewrite Hsame, Hpar, Ht in Hp2.
        by destruct (el_turn w2). }
      destruct (enter_swap w2 Hw2 Ht2) as (m' & Hs & Ho). rewrite Ht2 in Hsame. rewrite Hsame in Hs, Ho.
      exists v, (mk_element m' (Entered i) (el_log w2)), c. split; [done|].
      split; [split; [apply Ho|by apply enters]|]. split; [intros _; left; lia|].
      rewrite (u16_small v), Z.eqb_refl by done. apply live_return. intros w3 H3.
      rewrite (wr_turn _ _ _ H3 eq_refl). by split.
    + exists (counter_now (el_turn w2) (el_log w2)), w2, (n - 2)%nat.
      split; [by apply swap_missed; [apply Hw2|..]|]. split; [split; [apply Hw2|apply stays]|].
      split; [intros _; left; lia|]. rewrite (u16_small v) by done. rewrite (proj2 (Z.eqb_neq _ _) Hdiff).
      assert (entries w1 < entries w2)%nat as He2.
      { pose proof (wr_entries _ _ _ H2). destruct (decide (entries w2 = entries w1)) as [He|]; [|lia].
        destruct Hdiff. by rewrite (wr_open _ _ _ H2 Ht He). }
      pose proof (entries_bound w2 (proj1 Hw2)).
      eapply live_le; [apply (IH (n - 2)%nat v w2); [done|done|lia]|cbn; lia|done].
  - exists v, w1, n. split; [done|]. split; [split; [apply Hw1|apply stays]|]. split.
    { intros _. right. split; [|by split]. destruct Hw1 as (_ & Hno & _). unfold writer_waits.
      destruct (el_turn w1) as [|j|j]; [done|exists j..]; (split; [intros ->; by apply Hno|done]). }
    cbn zeta beta. replace (l - u16 l + v) with v by (rewrite u16_small by done; lia). rewrite Hpar.
    replace (match el_turn w1 with Open => true | _ => false end) with false by by destruct (el_turn w1).
    apply IH; [done|done|lia].
Qed.

(** What a thread has when it returns: its write is in the log, its answer is that
    to the word it found, and it does not own the element. *)
Definition write_done (g : Z → out) (_ : nat) (a : out * Z) (w : element) : Prop :=
  ¬ has_turn i (el_turn w) ∧ ∃ before after, el_log w = before ++ i :: after ∧ fst a = g (written before).
Lemma write_live fuel n g l w :
  outside w → 0 <= l < 65536 → (2 * (N - entries w) + 4 <= n)%nat →
  writer_live i fuel n (write_prog counter dest size fuel fuel (f i) g l) (write_done g) w.
Proof.
  intros Hw Hl Hn. destruct fuel as [|F]; [done|]. cbn [write_prog]. apply live_then; [apply _|].
  eapply live_mono; [apply (own_live (S F) 2 n l w Hw Hl); lia|]. intros m l1 w1 (Hm & Hw1 & Ht1 & ->).
  apply live_access. intros w' H1. rewrite (wr_turn _ _ _ H1) by (by rewrite Ht1). clear w' H1.
  destruct (data_written w1 i Hw1) as (m2 & Hu & Hb2 & Hc2 & Hd2). rewrite Ht1 in Hc2.
  assert (counter_now (Entered i) (el_log w1) = counter_now (Wrote i) (el_log w1 ++ [i])) as Hsame.
  { unfold counter_now. rewrite length_app. cbn [length turn_offset]. f_equal. lia. }
  set (w2 := mk_element m2 (Wrote i) (el_log w1 ++ [i])).
  assert (element_wf w2) as Hw2.
  { pose proof (ew_once _ Hw1) as Ho. pose proof (ew_known _ Hw1) as Hk. unfold visitors in *. rewrite Ht1 in Ho, Hk.
    apply NoDup_cons in Ho as [Hno Hnd]. apply Forall_cons in Hk as [Hki Hk].
    split; cbn; try done; [by rewrite <- Hsame| | |].
    - apply NoDup_app. split; [done|]. split; [|apply NoDup_singleton].
      intros j Hj ->%list_elem_of_singleton. done.
    - apply Forall_app. by split; [|apply Forall_singleton].
    - intros j [= <-]. apply elem_of_app. right. by apply list_elem_of_singleton. }
  exists (written (el_log w1)), w2, (m - 1)%nat. split; [done|]. split; [split; [done|by apply writes]|].
  split; [intros _; left; lia|].
  apply live_access. intros w' H2. rewrite (wr_turn _ _ _ H2) by done. clear w' H2.
  destruct (swap_made w2 Open Hw2) as (m3 & Hs & Hb3 & Hc3 & Hd3).
  set (w3 := mk_element m3 Open (el_log w1 ++ [i])).
  assert (counter_now (el_turn w1) (el_log w1) = counter_now (el_turn w2) (el_log w2)) as Hk by (rewrite Ht1; exact Hsame).
  assert (u16 (counter_now (el_turn w2) (el_log w2) + 1) = counter_now Open (el_log w2)) as Hnext.
  { unfold counter_now. rewrite u16_plus. cbn [turn_offset w2 el_turn el_log]. f_equal. lia. }
  exists (counter_now (el_turn w2) (el_log w2)), w3, (m - 2)%nat. split; [rewrite Hk, Hnext; exact Hs|].
  assert (element_wf w3) as Hw3.
  { pose proof (ew_once _ Hw2) as Ho. pose proof (ew_known _ Hw2) as Hkn. by split. }
  split; [split; [done|by apply leaves_it]|]. split; [intros _; left; lia|].
  rewrite Hk, u16_small, Z.eqb_refl by apply counter_now_range. apply live_return. intros w4 H4.
  split; [apply (wr_other _ _ _ H4); by intros []|].
  destruct (wr_log _ _ _ H4) as [after Hafter]. exists (el_log w1), after. split; [|done].
  rewrite Hafter. cbn. by rewrite <- app_assoc.
Qed.
End thread.
(** *** Runs *)

Context (g : nat → Z → out) (ls : list Z) (HN : length ls = N) (Hls : Forall (λ l, 0 <= l < 65536) ls).
Context (m0 : gmap Z Z) (Hm0 : byte_mem m0) (Hc0 : load_word 2 counter m0 = Done v0).
Context (Hd0 : load_word size dest m0 = Done old0).

Definition writer_threads (fuel : nat) : list (prog (gmap Z Z) (out * Z)) :=
  imap (λ i l, write_prog counter dest size fuel fuel (f i) (g i) l) ls.
(** Rounds after which every thread has returned. *)
Definition writer_rounds : nat := S (N * (2 * N + 4)).
Definition untouched : element := mk_element m0 Open [].
Lemma untouched_wf : element_wf untouched.
Proof.
  split; cbn; try done; [|constructor..].
  rewrite Hc0. f_equal. unfold counter_now. cbn. rewrite !Z.add_0_r, u16_small; [done|].
  apply (load_word_range 2 counter m0); [lia|done|done].
Qed.
Abbreviation all_writers_live t ns ts w :=
  (all_live el_mem writer_rely writer_step (λ i, write_done i (g i)) True writer_waits nothing_done
    (λ _, 0%nat) t ns ts w).
Lemma writers_live fuel :
  all_writers_live fuel (replicate N (2 * N + 4)%nat) (writer_threads fuel) untouched.
Proof.
  unfold writer_threads. split; [by rewrite length_replicate, length_imap|].
  intros i n p [-> Hi]%lookup_replicate Hp. rewrite list_lookup_imap in Hp.
  destruct (ls !! i) as [l|] eqn:Hl; [|done]. injection Hp as <-.
  apply write_live; [done| |by apply (proj1 (Forall_lookup _ _) Hls i)|cbn; lia].
  split; [apply untouched_wf|]. split; [by intros []|apply not_elem_of_nil].
Qed.
(** A thread that need not wait: the one whose turn it is, or any. *)
Lemma writers_progress i t ns ts w :
  all_writers_live (S t) ns ts w → length ts = N →
  (∃ p, ts !! i = Some p ∧ ¬ has_returned p) → ∃ j p, ts !! j = Some p ∧ ¬ has_returned p ∧ ¬ writer_waits j w.
Proof.
  intros [Hlen Hts] HtsN (q & Hq & Hret).
  destruct (el_turn_open w) as [Ht|Ht].
  { exists i, q. split; [done|]. split; [done|]. intros (k & _ & Htk). by rewrite Ht in Htk. }
  assert (∃ j, (j < N)%nat ∧ has_turn j (el_turn w)) as (j & Hj & Htj).
  { destruct (lookup_lt_is_Some_2 ns i) as [n Hn]; [rewrite Hlen; by eapply lookup_lt_Some|].
    pose proof (Hts i n q Hn Hq) as Hl. destruct q as [a|X access k|e]; [by destruct Hret; exists a| |by destruct Hl].
    destruct (Hl w (reflexivity w)) as (x & w' & m & _ & [Hw Hm] & _).
    assert (i < N)%nat by (rewrite <- HtsN; by eapply lookup_lt_Some).
    destruct Hm as [|m' Hm|m' Hm|m' Hm]; [|done|exists i; by rewrite Hm..].
    pose proof (ew_known _ Hw) as Hk. unfold visitors in Hk.
    destruct (el_turn w) as [|j|j] eqn:Hj; [done| |]; exists j; (split; [|done]).
    - by apply Forall_cons in Hk as [? _].
    - apply (proj1 (Forall_forall _ _) Hk). by apply (ew_wrote _ Hw). }
  destruct (lookup_lt_is_Some_2 ts j) as [p Hp]; [by rewrite HtsN|]. exists j, p. split; [done|]. split.
  - intros [a ->]. destruct (lookup_lt_is_Some_2 ns j) as [n Hn]; [by rewrite Hlen, HtsN|].
    destruct (Hts j n _ Hn Hp w (reflexivity w)) as (k & _ & Hno & _). by apply Hno.
  - intros (k & Hk & Htk). destruct (el_turn w); cbn in *; [done|congruence..].
Qed.

(** Under every schedule the word is that of the writes so far, and every thread
    that has returned has written once and has its answer; given enough rounds
    all have. *)
Lemma writers_run fuel schedule :
  ∃ ts m t log, run schedule (writer_threads fuel) m0 = Done (ts, m) ∧
    load_word size dest m = Done (written log) ∧ load_word 2 counter m = Done (counter_now t log) ∧
    NoDup log ∧ Forall (λ i, i < N)%nat log ∧
    (∀ i a, ts !! i = Some (Return a) → ¬ has_turn i t ∧
       ∃ before after, log = before ++ i :: after ∧ fst a = g i (written before)) ∧
    ((length schedule < fuel)%nat → has_rounds writer_rounds N schedule →
       t = Open ∧ log ≡ₚ seq 0 N ∧ ∀ i, (i < N)%nat → ∃ a, ts !! i = Some (Return a)).
Proof.
  destruct (run_live el_mem writer_rely writer_step (λ i, write_done i (g i)) True writer_waits nothing_done
    (λ _, 0%nat) writers_compatible (λ i w w' H Hw, eq_rect w' (writer_waits i) Hw w H) schedule fuel _ _ _
    (writers_live fuel)) as (ts & w & ns & Hrun & [Hlen Hts] & _ & Hsteps).
  change (el_mem untouched) with m0 in Hrun.
  assert (element_wf w) as Hw.
  { assert (∀ w1 w2, rtc (λ w w', ∃ i, writer_step i w w') w1 w2 → element_wf w1 → element_wf w2) as Hwf.
    { intros w1 w2 H12. induction H12 as [|x y z Hxy _ IH]; [done|]. intros _. destruct Hxy as (i & Hxy).
      by apply IH, Hxy. }
    apply (Hwf _ _ Hsteps), untouched_wf. }
  assert (length ts = N) as HtsN.
  { rewrite (run_length _ _ _ _ _ Hrun). unfold writer_threads. by rewrite length_imap. }
  assert (∀ i a, ts !! i = Some (Return a) → write_done i (g i) 0 a w) as Hret.
  { intros i a Hi. destruct (lookup_lt_is_Some_2 ns i) as [n Hn]; [rewrite Hlen; by eapply lookup_lt_Some|].
    by destruct (Hts i n _ Hn Hi w (reflexivity w)) as (k & _ & H). }
  pose proof (ew_once _ Hw) as Honce. pose proof (ew_known _ Hw) as Hknown.
  exists ts, (el_mem w), (el_turn w), (el_log w). split; [done|]. split; [apply (ew_data _ Hw)|].
  split; [apply (ew_counter _ Hw)|]. unfold visitors in *.
  assert (NoDup (el_log w) ∧ Forall (λ i, i < N)%nat (el_log w)) as [Hnd Hall].
  { destruct (el_turn w); [done| |done]. apply NoDup_cons in Honce as [_ ?]. by apply Forall_cons in Hknown as [_ ?]. }
  split; [done|]. split; [done|]. split; [exact Hret|]. intros Hf Hr.
  assert (∀ i, (i < N)%nat → ∃ a, ts !! i = Some (Return a)) as Hdone.
  { intros i Hi.
    destruct (run_returns el_mem writer_rely writer_step (λ i, write_done i (g i)) True writer_waits nothing_done
      (λ _, 0%nat) writers_compatible (λ i w w' H Hw, eq_rect w' (writer_waits i) Hw w H) i N schedule _ _ _ _
      writer_rounds I (writers_live fuel)) as (ts2 & s2 & a & Hrun2 & Ha); try done.
    - unfold writer_threads. by rewrite length_imap.
    - unfold total, writer_rounds. rewrite Nat.add_0_r, purse_replicate. lia.
    - intros. by eapply writers_progress.
    - exists a. change (el_mem untouched) with m0 in Hrun2. congruence. }
  assert (el_turn w = Open) as Ht.
  { destruct (el_turn w) as [|j|j] eqn:Ht; [done| |].
    - apply Forall_cons in Hknown as [Hj _]. destruct (Hdone j Hj) as [a Ha].
      destruct (Hret j a Ha) as [Hno _]. rewrite Ht in Hno. by destruct Hno.
    - assert (j < N)%nat as Hj by by apply (proj1 (Forall_forall _ _) Hall), (ew_wrote _ Hw).
      destruct (Hdone j Hj) as [a Ha]. destruct (Hret j a Ha) as [Hno _]. rewrite Ht in Hno. by destruct Hno. }
  split; [done|]. split; [|done]. apply NoDup_Permutation; [done|apply NoDup_seq|].
  intros i. rewrite elem_of_seq. split.
  - intros Hi. pose proof (proj1 (Forall_forall _ _) Hall i Hi). cbn in *. lia.
  - intros [_ Hi]. destruct (Hdone i Hi) as [a Ha]. destruct (Hret i a Ha) as (_ & before & after & -> & _).
    set_solver.
Qed.
End writers.

(** ** Running out of time *)

(** Others leave the bytes from [a] to [a + size] alone. *)
Definition leaves (env : nat → gmap Z Z → gmap Z Z) (size a : Z) : Prop :=
  ∀ n m x, a <= x < a + size → env n m !! x = m !! x.
Lemma leaves_load env size a n m :
  0 <= size → leaves env size a → load_word size a (env n m) = load_word size a m.
Proof. intros Hs Hl. apply load_word_ext; [done|]. intros x Hx. by apply Hl. Qed.

(** How many attempts a finite time-out allows. *)
Definition attempts (timeout : Z) : nat := Z.to_nat (Z.max timeout 1).
Definition finite_timeout (timeout : Z) : Prop := 0 <= timeout < MCA_INFINITE.

(** An attempt that fails in all states [P] is made until time is up; [Q] is
    what it leaves behind. *)
Lemma spin_gives_up attempt (P Q : machine → Prop) F t s :
  (∀ s, P s → ∃ s', attempt s = Done (false, s') ∧ Q s') → (∀ s, Q s → P s) →
  P s → finite_timeout t → (attempts t <= F)%nat →
  ∃ s', spin F attempt t s = Done (false, s') ∧ Q s'.
Proof.
  intros Ha HQP. revert t s. induction F as [|F IH]; intros t s Hs Ht HF; [unfold attempts in HF; lia|].
  destruct (Ha s Hs) as (s' & Hs' & HP). rewrite (spin_false _ _ _ _ _ Hs').
  unfold finite_timeout in Ht. unfold expired, count_down.
  rewrite (proj2 (Z.eqb_neq MCA_INFINITE t)) by lia. cbn [negb andb].
  destruct ((0 =? t) || (t - 1 <=? 0)) eqn:E; [by exists s'|].
  apply orb_false_iff in E as [E1 E2]. apply IH; [by apply HQP|unfold finite_timeout; lia|].
  unfold attempts in *. lia.
Qed.
Lemma even_successor v : 0 <= v < 65536 → v mod 2 = 1 → u16 (v + 1) mod 2 = 0.
Proof.
  intros Hv Ho. unfold u16. change (2 ^ 16) with 65536. Z.to_euclidean_division_equations. lia.
Qed.

Section stuck.
Context (env : nat → gmap Z Z → gmap Z Z) (fuel : nat).
Context (b : mrapi_atomic_barrier_t) (Hb : barrier_ready b).
Context (Hfinite : finite_timeout (axb_timeout b)) (Hfuel : (attempts (axb_timeout b) <= fuel)%nat).
Context (dest size : Z) (Hsize : 0 <= size) (Hapart : apart size dest 2 (counter_at b)).
Context (Henv : leaves env 2 (counter_at b)) (Hdata : leaves env size dest).
Context (v old : Z) (Hodd : v mod 2 = 1) (Hv : 0 <= v < 65536).
Local Abbreviation writer := (at_ b MRAPI_ATOMIC_WRITE).

Lemma stuck_result {A} (body : A → M machine A) a m0 c0 :
  load_word 2 (counter_at b) m0 = Done v → load_word size dest m0 = Done old →
  ∃ m c, with_barrier env fuel MRAPI_ATOMIC_WRITE body a (mk_machine m0 c0 (Some b))
      = Done (a, writer v m c) ∧
    load_word size dest m = Done old ∧ load_word 2 (counter_at b) m = Done (u16 (v + 1)).
Proof using All.
  intros Hc Ho. set (l := last_counter (axb_sync b)). assert (0 <= l < 65536) as Hl by apply (proj1 Hb).
  set (Q s := ∃ m c, s = writer v m c ∧
    load_word 2 (counter_at b) m = Done v ∧ load_word size dest m = Done old).
  set (P s := ∃ k m c, s = writer k m c ∧ 0 <= k < 65536 ∧
    load_word 2 (counter_at b) m = Done v ∧ load_word size dest m = Done old).
  destruct (spin_gives_up (write_attempt env (axb_buffer b)) P Q fuel (axb_timeout b) (writer l m0 c0))
    as (s & Hs & m & c & -> & Hcm & Hom); try done.
  - intros s (k & m & c & -> & Hk & Hkv & Hko). exists (writer v (env c m) (S c)). split.
    + unfold write_attempt. rewrite (bind_done _ _ _ tt (writer v (env c m) (S c))).
      2: { apply read_last_at; [done|]. by rewrite leaves_load. }
      rewrite (bind_done _ _ _ v (writer v (env c m) (S c))) by done.
      by rewrite even_successor.
    + exists (env c m), (S c). by rewrite !leaves_load.
  - intros s (m & c & -> & Hm). by exists v, m, c.
  - by exists l, m0, c0.
  - rewrite <- (leaves_load env 2 (counter_at b) c m ltac:(lia) Henv) in Hcm.
    rewrite <- (leaves_load env size dest c m Hsize Hdata) in Hom.
    destruct (store_word_ok 2 (counter_at b) ltac:(lia) _ _ (u16 (v + 1)) Hcm) as [m1 Hm1].
    exists m1, (S c). split.
    + unfold with_barrier. rewrite (bind_done _ _ _ _ _ (mode_done b _ m0 c0)). fold l.
      destruct fuel as [|F]; [unfold attempts in Hfuel; lia|]. cbn [barrier_loop].
      rewrite (bind_done _ _ _ false (writer v m c)) by by apply (acquire_barrier env _ b Hb).
      rewrite (bind_done _ _ _ a (writer v m c)) by done.
      rewrite (bind_done _ _ _ true (writer v m1 (S c))); [done|].
      apply (release_barrier env b Hb); [done|]. cbn [unspin_of].
      rewrite (bind_done _ _ _ v (writer v m1 (S c))); [by rewrite (u16_small v), Z.eqb_refl|].
      apply update_at; [done|]. by rewrite word_u16, (u16_small v), Z.eqb_refl.
    + rewrite (load_word_apart size dest 2 (counter_at b) _ _ _ ltac:(lia) ltac:(lia) Hapart Hm1).
      split; [done|]. rewrite (load_store_word 2 (counter_at b) ltac:(lia) _ _ _ Hm1), word_u16.
      unfold u16. by rewrite Zmod_mod.
Qed.
End stuck.

(** ** Exchange descriptors: one writer and one reader take turns at an element
    by its flag [valid]. *)

(** The flag of the element the descriptor refers to. *)
Definition valid_at (b : mrapi_atomic_barrier_t) : Z := axb_buffer b + valid_offset.
Definition flipped (v : Z) : Z := if v =? 0 then MRAPI_TRUE else MRAPI_FALSE.

Section exchange.
Context (env : nat → gmap Z Z → gmap Z Z) (fuel : nat).
Context (b : mrapi_atomic_barrier_t) (Hb : exchange_ready b).
Context (dest size : Z) (Hsize : 0 <= size) (Hapart : apart size dest 1 (valid_at b)).
Context (Hflag : leaves env 1 (valid_at b)) (Hdata : leaves env size dest).

(** The flag and the word next to it. *)
Definition holds (v data : Z) (m : gmap Z Z) : Prop :=
  load_word 1 (valid_at b) m = Done v ∧ load_word size dest m = Done data.

Lemma holds_env v data n m : holds v data m → holds v data (env n m).
Proof using Hsize Hflag Hdata. intros []. split; by rewrite leaves_load. Qed.

Lemma attempt_at mode l v data m c :
  holds v data m →
  exchange_attempt env mode (axb_buffer b) (at_ b mode l m c)
  = Done (Z.lxor (mode_value mode) v =? 0, at_ b mode l (env (S c) (env c m)) (S (S c))).
Proof using Hsize Hflag Hdata.
  intros Hm. unfold exchange_attempt. pose proof (holds_env _ _ c _ Hm) as Hm1.
  rewrite (bind_done _ _ _ _ _ (load_at env b mode l m c _ _ _ (proj1 Hm1))).
  by rewrite (bind_done _ _ _ _ _ (load_at env b mode l _ (S c) _ _ _ (proj1 (holds_env _ _ (S c) _ Hm1)))).
Qed.

(** The release flips the flag. *)
Lemma release_at mode l v data m c :
  mode ≠ MRAPI_ATOMIC_NONE → 0 <= v < 256 → holds v data m →
  ∃ m', atomic_barrier_release env (at_ b mode l m c) = Done (true, at_ b mode l m' (S (S (S c)))) ∧
    holds (flipped v) data m'.
Proof using All.
  intros Hmode Hv Hm. pose proof (holds_env _ _ c _ Hm) as Hm1.
  pose proof (holds_env _ _ (S c) _ Hm1) as Hm2. pose proof (holds_env _ _ (S (S c)) _ Hm2) as Hm3.
  destruct (store_word_ok 1 (valid_at b) ltac:(lia) _ _ (flipped v) (proj1 Hm3)) as [m' Hm'].
  exists m'. split.
  - apply release_done; [apply Hb|done|]. unfold release_of. rewrite (proj2 Hb).
    rewrite (bind_done _ _ _ tt (at_ b mode l m' (S (S (S c))))); [done|]. unfold flip_valid.
    rewrite (bind_done _ _ _ _ _ (load_at env b mode l m c _ _ _ (proj1 Hm1))).
    rewrite (bind_done _ _ _ _ _ (load_at env b mode l _ (S c) _ _ _ (proj1 Hm2))).
    rewrite (bind_done _ _ _ v (at_ b mode l m' (S (S (S c))))); [done|].
    apply update_at; [apply Hm3|]. assert (word 1 v = v) as -> by by apply Z.mod_small.
    by rewrite Z.eqb_refl.
  - split.
    + rewrite (load_store_word 1 (valid_at b) ltac:(lia) _ _ _ Hm'). unfold flipped.
      by destruct (v =? 0).
    + rewrite (load_word_apart size dest 1 (valid_at b) _ _ _ ltac:(lia) ltac:(lia) Hapart Hm'). apply Hm3.
Qed.

(** When the flag agrees with the mode the operation runs, and the other side
    gets its turn. *)
Lemma exchange_passes {A} mode (body : A → M machine A) a a' v data data' m0 c0 :
  mode ≠ MRAPI_ATOMIC_NONE → v = mode_value mode → (0 < fuel)%nat → holds v data m0 →
  (∀ l m c, holds v data m → ∃ m' c', body a (at_ b mode l m c) = Done (a', at_ b mode l m' c') ∧
    holds v data' m') →
  ∃ m c, with_barrier env fuel mode body a (mk_machine m0 c0 (Some b))
      = Done (a', at_ b mode (last_counter (axb_sync b)) m c) ∧ holds (flipped v) data' m.
Proof using All.
  intros Hmode -> Hf Hm Hbody. set (l := last_counter (axb_sync b)).
  pose proof (attempt_at mode l _ _ _ c0 Hm) as Ha. rewrite Z.lxor_nilpotent in Ha.
  pose proof (holds_env _ _ (S c0) _ (holds_env _ _ c0 _ Hm)) as Hm1.
  destruct (Hbody l _ (S (S c0)) Hm1) as (m2 & c2 & Hrun & Hm2).
  destruct (release_at mode l (mode_value mode) _ m2 c2 Hmode ltac:(destruct mode; cbn; lia) Hm2) as (m3 & Hrel & Hm3).
  exists m3, (S (S (S c2))). split; [|done].
  unfold with_barrier. rewrite (bind_done _ _ _ _ _ (mode_done b _ m0 c0)). fold l.
  destruct fuel as [|F]; [lia|]. cbn [barrier_loop].
  rewrite (bind_done _ _ _ true (at_ b mode l (env (S c0) (env c0 m0)) (S (S c0)))).
  2: { apply acquire_done; [apply Hb|done|]. apply spin_true. unfold attempt_of. by rewrite (proj2 Hb). }
  rewrite (bind_done _ _ _ _ _ Hrun). by rewrite (bind_done _ _ _ _ _ Hrel).
Qed.

(** When it does not, and time runs out, the operation is skipped; the flag is
    flipped all the same. *)
Lemma exchange_refused {A} mode (body : A → M machine A) a v data m0 c0 :
  mode ≠ MRAPI_ATOMIC_NONE → v = 1 - mode_value mode →
  finite_timeout (axb_timeout b) → (attempts (axb_timeout b) <= fuel)%nat → holds v data m0 →
  ∃ m c, with_barrier env fuel mode body a (mk_machine m0 c0 (Some b))
      = Done (a, at_ b mode (last_counter (axb_sync b)) m c) ∧ holds (flipped v) data m.
Proof using All.
  intros Hmode -> Ht Hf Hm. set (l := last_counter (axb_sync b)).
  set (P s := ∃ m c, s = at_ b mode l m c ∧ holds (1 - mode_value mode) data m).
  destruct (spin_gives_up (exchange_attempt env mode (axb_buffer b)) P P fuel (axb_timeout b)
    (at_ b mode l m0 c0)) as (s & Hs & m1 & c1 & -> & Hm1); try done.
  - intros s (m & c & -> & Hmc). exists (at_ b mode l (env (S c) (env c m)) (S (S c))).
    rewrite (attempt_at mode l _ _ _ c Hmc). split; [by destruct mode|].
    exists (env (S c) (env c m)), (S (S c)). split; [done|]. by do 2 apply holds_env.
  - by exists m0, c0.
  - destruct (release_at mode l (1 - mode_value mode) _ m1 c1 Hmode ltac:(destruct mode; cbn; (lia || done)) Hm1) as (m2 & Hrel & Hm2).
    exists m2, (S (S (S c1))). split; [|done].
    unfold with_barrier. rewrite (bind_done _ _ _ _ _ (mode_done b _ m0 c0)). fold l.
    destruct fuel as [|F]; [unfold attempts in Hf; lia|]. cbn [barrier_loop].
    rewrite (bind_done _ _ _ false (at_ b mode l m1 c1)).
    2: { apply acquire_done; [apply Hb|done|]. unfold attempt_of. by rewrite (proj2 Hb). }
    rewrite (bind_done _ _ _ a (at_ b mode l m1 c1)) by done. by rewrite (bind_done _ _ _ _ _ Hrel).
Qed.
End exchange.
