(* ===== verification/AtomicTheorems.v ===== *)
(** The atomic operations are single steps; what the barrier of a sync
    descriptor gives readers and writers, and where it fails them. *)

From S2P Require Import Prelude Bytes LockfreeProg SysAtomic MrapiAtomic AtomicSpec AtomicBarrier.

(** ** Operations as functions of the old value *)

Inductive operation :=
| Read | Add (value : Z) | Inc | Dec | Or (value : Z) | And (value : Z) | Xor (value : Z)
| Cas (exchange compare : Z) | Lock | Release
| SetBit (bit : Z) | ClearBit (bit : Z) | ChangeBit (bit : Z).

(** The new value, the result and what the caller is told. *)
Definition effect (size old : Z) (op : operation) : Z * out :=
  match op with
  | Read => (old, (true, Some old))
  | Add v => (old + v, (true, Some old))
  | Inc => (old + 1, (true, Some (word size (old + 1))))
  | Dec => (old - 1, (true, Some (word size (old - 1))))
  | Or v => (Z.lor old v, (true, Some old))
  | And v => (Z.land old v, (true, Some old))
  | Xor v => (Z.lxor old v, (true, Some old))
  | Cas e c => if old =? c then (e, (true, Some old)) else (old, (false, Some old))
  | Lock => (1, (true, Some old))
  | Release => (0, (true, None))
  | SetBit b => (Z.setbit old b, (negb (Z.testbit old b), Some (Z.b2z (Z.testbit old b))))
  | ClearBit b => (Z.clearbit old b, (Z.testbit old b, Some (Z.b2z (Z.testbit old b))))
  | ChangeBit b => (Z.lxor old (2 ^ b), (true, Some (Z.b2z (Z.testbit old b))))
  end.

(** Integers of every width, bits of 32-bit words; operands fit the width. *)
Definition fits_width (size z : Z) : Prop := 0 <= z < 2 ^ (8 * size).
Definition operation_ok (size : Z) (op : operation) : Prop :=
  match op with
  | Add v | Or v | And v | Xor v => integer_size size = true ∧ fits_width size v
  | Cas e c => integer_size size = true ∧ fits_width size e ∧ fits_width size c
  | SetBit b | ClearBit b => size = 4 ∧ 0 <= b < 32
  | ChangeBit b => size = 4 ∧ 0 <= b < 4
  | _ => integer_size size = true
  end.

Definition run_operation (env : nat → gmap Z Z → gmap Z Z) (fuel : nat) (dest size : Z)
    (op : operation) : M machine out :=
  match op with
  | Read => sys_atomic_read env fuel dest size
  | Add v => sys_atomic_add env fuel dest v size
  | Inc => sys_atomic_inc env fuel dest size
  | Dec => sys_atomic_dec env fuel dest size
  | Or v => sys_atomic_or env fuel dest v size
  | And v => sys_atomic_and env fuel dest v size
  | Xor v => sys_atomic_xor env fuel dest v size
  | Cas e c => sys_atomic_cas env fuel dest e c size
  | Lock => sys_atomic_lock env fuel dest size
  | Release => sys_atomic_release env fuel dest size
  | SetBit b => sys_atomic_set env fuel dest b size
  | ClearBit b => sys_atomic_clear env fuel dest b size
  | ChangeBit b => sys_atomic_change env fuel dest b size
  end.

Lemma word_small size z : fits_width size z → word size z = z.
Proof. intros. by apply Z.mod_small. Qed.
Lemma integer_size_pos size : integer_size size = true → 0 < size.
Proof. unfold integer_size. intros H. repeat case_match; lia. Qed.

Section linearization.
Context (env : nat → gmap Z Z → gmap Z Z) (fuel : nat) (s : machine) (dest size old : Z).
Context (Hnull : axb s = None) (Hfuel : (0 < fuel)%nat) (Hdest : dest ≠ 0).
Context (Hold : load_word size dest (found env s) = Done old) (Hrange : fits_width size old).

Lemma not_null_done {A} (m : M machine A) : (not_null dest;; m) s = m s.
Proof using Hdest. unfold not_null. by rewrite (proj2 (Z.eqb_neq dest 0) Hdest). Qed.

Lemma plain_linearized mode (body : out → M machine out) a e :
  linearized env size dest s e (body a s) →
  linearized env size dest s e ((not_null dest;; with_barrier env fuel mode body a) s).
Proof using Hnull Hfuel Hdest.
  intros Hb. rewrite not_null_done, <- (bind_ret_r (with_barrier _ _ _ _ _)).
  apply (null_linearized env fuel size dest s Hnull Hfuel id). by rewrite bind_ret_r.
Qed.
Lemma fetch_and_linearized f :
  integer_size size = true →
  linearized env size dest s (f old, (true, Some old)) (fetch_and env fuel f dest size s).
Proof using All.
  intros Hs. pose proof (integer_size_pos _ Hs). apply plain_linearized. unfold switch_size. rewrite Hs.
  by apply (update_linearized env size dest old s ltac:(lia) Hold f (λ o, (true, Some o))).
Qed.
Lemma and_fetch_linearized f :
  integer_size size = true →
  linearized env size dest s (f old, (true, Some (word size (f old)))) (and_fetch env fuel f dest size s).
Proof using All.
  intros Hs. pose proof (integer_size_pos _ Hs). apply plain_linearized. unfold switch_size. rewrite Hs.
  by apply (update_linearized env size dest old s ltac:(lia) Hold f (λ o, (true, Some (word size (f o))))).
Qed.
Lemma bit_linearized f (result : bool → bool) bit :
  size = 4 → 0 <= bit < 32 →
  linearized env size dest s
    (f old bit, (result (Z.testbit old bit), Some (Z.b2z (Z.testbit old bit))))
    ((not_null dest;; on_bit env fuel (test_and_update_bit env f bit dest) result size) s).
Proof using All.
  intros Hs Hb. apply plain_linearized. unfold test_and_update_bit.
  pose proof Hold as H4. rewrite Hs in H4 |- *. cbn [Z.eqb Pos.eqb].
  rewrite Z.div_small, Z.mod_small by lia. rewrite Z.add_0_r.
  destruct (update_linearized env 4 dest old s ltac:(lia) H4 (λ o, f o bit)
    (λ o, (result (Z.testbit o bit), Some (Z.b2z (Z.testbit o bit))))) as (m & Hm & Hw).
  exists m. split; [|done]. revert Hm. unfold bind, ret. by destruct (shared_update _ _ _ _ s) as [[o s']|].
Qed.
(** The checks of [sys_atomic_set] and its companions. *)
Lemma bit_asserted (b : bool) (m : M machine out) e :
  b = true → linearized env size dest s e ((not_null dest;; m) s) →
  linearized env size dest s e ((not_null dest;; c_assert b;; m) s).
Proof using env Hdest. intros ->. by rewrite !not_null_done. Qed.
Lemma read_linearized :
  integer_size size = true →
  linearized env size dest s (old, (true, Some old)) (sys_atomic_read env fuel dest size s).
Proof using All.
  intros Hs. apply plain_linearized. unfold switch_size. rewrite Hs.
  apply (load_linearized env size dest old s Hold (λ o, (true, Some o))). by apply Z.mod_small.
Qed.
Lemma release_linearized :
  integer_size size = true →
  linearized env size dest s (0, (true, None)) (sys_atomic_release env fuel dest size s).
Proof using All.
  intros Hs. pose proof (integer_size_pos _ Hs). apply plain_linearized. unfold switch_size. rewrite Hs.
  destruct (update_linearized env size dest old s ltac:(lia) Hold (λ _, 0) (λ _, (true, None)))
    as (m & Hm & Hw).
  exists m. split; [|done]. revert Hm. unfold shared_store, bind, ret.
  by destruct (shared_update _ _ _ _ s) as [[o s']|].
Qed.
Lemma cas_linearized exchange compare :
  integer_size size = true → fits_width size exchange → fits_width size compare →
  linearized env size dest s
    (if old =? compare then (exchange, (true, Some old)) else (old, (false, Some old)))
    (sys_atomic_cas env fuel dest exchange compare size s).
Proof using All.
  intros Hs He Hc. pose proof (integer_size_pos _ Hs). unfold sys_atomic_cas, sys_atomic_cas_at.
  rewrite bind_assoc.
  rewrite not_null_done by done. apply null_linearized; [done|done|]. cbn. rewrite Hs.
  rewrite !word_small by done.
  set (f o := if o =? compare then exchange else o).
  set (g o := (if compare =? o then true else false, Some o) : out).
  replace (if old =? compare then _ else _) with (f old, g old).
  2: { unfold f, g. rewrite (Z.eqb_sym compare). by destruct (old =? compare). }
  destruct (update_linearized env size dest old s ltac:(lia) Hold f g) as (m & Hm & Hw).
  exists m. split; [|done]. revert Hm. unfold val_compare_and_swap. rewrite (word_small _ compare) by done.
  fold f. unfold bind, ret. by destruct (shared_update _ _ _ _ s) as [[o s']|].
Qed.
End linearization.

Lemma atomic_linear env fuel s dest size old op :
  axb s = None → (0 < fuel)%nat → dest ≠ 0 →
  load_word size dest (found env s) = Done old → fits_width size old →
  operation_ok size op →
  linearized env size dest s (effect size old op) (run_operation env fuel dest size op s).
Proof.
  intros Hnull Hfuel Hdest Hold Hrange.
  pose proof (fetch_and_linearized env fuel s dest size old Hnull Hfuel Hdest Hold Hrange) as Hfetch.
  pose proof (and_fetch_linearized env fuel s dest size old Hnull Hfuel Hdest Hold Hrange) as Hand.
  pose proof (λ f, bit_linearized env fuel s dest size old Hnull Hfuel Hdest Hold Hrange f) as Hbit.
  destruct op; cbn [operation_ok effect run_operation]; intros Hop;
    try match type of Hop with _ ∧ _ => destruct Hop as [Hs Hv] end.
  - by apply read_linearized.
  - unfold sys_atomic_add. rewrite word_small by done. by apply (Hfetch (λ o, o + _)).
  - by apply (Hand (λ o, o + 1)).
  - by apply (Hand (λ o, o - 1)).
  - unfold sys_atomic_or. rewrite word_small by done. by apply (Hfetch (λ o, Z.lor o _)).
  - unfold sys_atomic_and. rewrite word_small by done. by apply (Hfetch (λ o, Z.land o _)).
  - unfold sys_atomic_xor. rewrite word_small by done. by apply (Hfetch (λ o, Z.lxor o _)).
  - destruct Hv. by apply cas_linearized.
  - by apply (Hfetch (λ _, 1)).
  - by apply (release_linearized env fuel s dest size old).
  - apply (bit_asserted env s dest size Hdest); [lia|]. by apply (Hbit Z.setbit negb).
  - apply (bit_asserted env s dest size Hdest); [lia|]. by apply (Hbit Z.clearbit id).
  - apply (bit_asserted env s dest size Hdest); [lia|]. rewrite <- (Z.shiftl_1_l bit).
    apply (Hbit (λ o b, Z.lxor o (Z.shiftl 1 b)) (λ _, true)); [done|lia].
Qed.

(** C34: Every operation on integers and bits without a sync descriptor, but the
    exchange (which is two steps: [exchange_is_two_steps]) and the change of a bit
    beyond bit 3 (which fails an assertion), takes effect in one step, whatever other
    processes do before it: it applies its function to the word it finds, at the
    width of the word, leaves the rest of memory alone, makes no other access, and
    answers with the old value (or the new one) and its result. *)
Theorem atomic_operations_linearize env fuel s dest size old op :
  axb s = None → (0 < fuel)%nat → dest ≠ 0 →
  load_word size dest (found env s) = Done old → fits_width size old →
  operation_ok size op →
  linearized env size dest s (effect size old op) (run_operation env fuel dest size op s).
Proof. apply atomic_linear. Qed.
Lemma atomic_operations_linearize_witness :
  linearized (λ _ m, m) 2 100 (mk_machine {[100 := 255; 101 := 1]} 7 None) (513, (true, Some 511))
    (sys_atomic_add (λ _ m, m) 1 100 2 2 (mk_machine {[100 := 255; 101 := 1]} 7 None)).
Proof.
  apply (atomic_operations_linearize (λ _ m, m) 1 (mk_machine {[100 := 255; 101 := 1]} 7 None) 100 2 511 (Add 2));
    [done|lia|done|by vm_compute|by vm_compute|by vm_compute].
Defined.

(** ** The public functions *)

Definition run_public (env : nat → gmap Z Z → gmap Z Z) (fuel : nat) (initialized : bool)
    (dest size : Z) (op : operation) (status : Z) : M machine (option Z * Z) :=
  match op with
  | Read => mrapi_atomic_read env fuel initialized dest size status
  | Add v => mrapi_atomic_add env fuel initialized dest v size status
  | Inc => mrapi_atomic_inc env fuel initialized dest size status
  | Dec => mrapi_atomic_dec env fuel initialized dest size status
  | Or v => mrapi_atomic_or env fuel initialized dest v size status
  | And v => mrapi_atomic_and env fuel initialized dest v size status
  | Xor v => mrapi_atomic_xor env fuel initialized dest v size status
  | Cas e c => mrapi_atomic_cas env fuel initialized dest e c size status
  | Lock => mrapi_atomic_lock env fuel initialized dest size status
  | Release => mrapi_atomic_release env fuel initialized dest size status
  | SetBit b => mrapi_atomic_set env fuel initialized dest b size status
  | ClearBit b => mrapi_atomic_clear env fuel initialized dest b size status
  | ChangeBit b => mrapi_atomic_change env fuel initialized dest b size status
  end.
(** What the public functions do: intersection and exclusive union are unions. *)
Definition performed (op : operation) : operation :=
  match op with And v | Xor v => Or v | _ => op end.

Lemma run_public_eq env fuel initialized dest size op status :
  run_public env fuel initialized dest size op status =
  reported initialized (or_failed (run_operation env fuel dest size (performed op))) status.
Proof. by destruct op. Qed.

(** The public atomic functions answer MRAPI_ERR_NODE_NOTINIT and touch
    nothing before initialization; afterwards they perform their operation in
    one step and answer MRAPI_SUCCESS or, when a compare-and-swap misses or the
    bit already has the state, MRAPI_ERR_ATOM_OP_FAILED, whatever the status
    was before.  mrapi_atomic_and and mrapi_atomic_xor perform mrapi_atomic_or. *)
Theorem public_atomics_report env fuel (initialized : bool) s dest size old op status :
  axb s = None → (0 < fuel)%nat → dest ≠ 0 →
  load_word size dest (found env s) = Done old → fits_width size old →
  operation_ok size op →
  let e := effect size old (performed op) in
  if initialized then
    ∃ m, run_public env fuel initialized dest size op status s
      = Done ((snd (snd e), if fst (snd e) then MRAPI_SUCCESS else MRAPI_ERR_ATOM_OP_FAILED), after s m) ∧
    load_word size dest m = Done (word size (fst e)) ∧
    ∀ x, x < dest ∨ dest + size <= x → m !! x = found env s !! x
  else run_public env fuel initialized dest size op status s = Done ((None, MRAPI_ERR_NODE_NOTINIT), s).
Proof.
  intros Hnull Hfuel Hdest Hold Hrange Hop. cbv zeta. rewrite run_public_eq.
  destruct initialized; [|done].
  destruct (atomic_linear env fuel s dest size old (performed op)) as (m & Hm & Hw); try done.
  { by destruct op. }
  exists m. split; [|done]. unfold reported, or_failed. cbn [negb].
  rewrite bind_assoc. rewrite (bind_done _ _ _ _ _ Hm). cbn.
  by destruct (fst (snd (effect size old (performed op)))).
Qed.
Lemma public_atomics_report_witness :
  ∃ m, mrapi_atomic_and (λ _ m, m) 1 true 100 1 1 9 (mk_machine {[100 := 6]} 0 None)
    = Done ((Some 6, MRAPI_SUCCESS), mk_machine m 1 None) ∧
    load_word 1 100 m = Done 7 ∧ ∀ x, x < 100 ∨ 101 <= x → m !! x = ({[100 := 6]} : gmap Z Z) !! x.
Proof.
  destruct (public_atomics_report (λ _ m, m) 1 true (mk_machine {[100 := 6]} 0 None) 100 1 6 (And 1) 9)
    as (m & Hm & Hw & Hx); [done|lia|done|by vm_compute|by vm_compute|by vm_compute|].
  exists m. split; [exact Hm|]. split; [exact Hw|]. intros x Hout. apply Hx. lia.
Defined.

(** ** Barriers between processes *)

(** What a reader sees at its accesses: [counter n] and [data n].  Others bring
    the counter to an odd value while they write and never back to an earlier
    one, and from access [quiet] on nobody writes. *)
Record seqlock_history (env : nat → gmap Z Z → gmap Z Z) (s : machine)
    (b : mrapi_atomic_barrier_t) (dest size : Z) (counter data : nat → Z) (quiet : nat) : Prop := {
  h_counter n : load_word 2 (counter_at b) (seen env (clock s) (shared_mem s) n) = Done (counter n);
  h_data n : load_word size dest (seen env (clock s) (shared_mem s) n) = Done (data n);
  h_range n : 0 <= counter n < 65536;
  h_fresh i j k : (i <= k <= j)%nat → counter i = counter j → counter k = counter i;
  h_quiet n : (quiet <= n)%nat → counter n = counter quiet;
  h_even : counter quiet mod 2 = 0;
}.

(** A read through a barrier with an infinite time-out ends once the writers
    do, changes nothing in memory, and answers with the word as it was at one
    moment during the call when the counter was even, so that no write was in
    progress. *)
Theorem barrier_read_is_stable env fuel s b dest size counter data quiet :
  axb s = Some b → barrier_ready b → axb_timeout b = MCA_INFINITE →
  integer_size size = true → dest ≠ 0 →
  seqlock_history env s b dest size counter data quiet → (quiet < fuel)%nat →
  ∃ k n, (k < n)%nat ∧ counter k mod 2 = 0 ∧
    sys_atomic_read env fuel dest size s
    = Done ((true, Some (data k)),
        mk_machine (mem_after env (clock s) (shared_mem s) n) (clock s + n)
          (Some (with_last MRAPI_ATOMIC_READ (counter k) b))).
Proof.
  intros Hs Hb Ht Hsz Hd [] Hf. destruct s as [m c ?]. cbn in Hs |- *. subst.
  by eapply (reader_result env fuel b Hb Ht dest size Hsz Hd c m).
Qed.

(** A descriptor for the buffer at 64, and the memory around it. *)
Definition ex_axb (xchg : bool) (timeout : Z) : mrapi_atomic_barrier_t :=
  mk_barrier MRAPI_ATOMIC_NONE xchg timeout 1 2 1 16 (mk_sync None 0 false false false) 64.
Definition ex_mem (valid counter data : Z) : gmap Z Z :=
  <[64 := valid]> (<[72 := counter]> (<[73 := 0]> {[80 := data]})).
Lemma ex_mem_words valid counter data m :
  m = ex_mem valid counter data →
  load_word 1 64 m = Done valid ∧ load_word 2 72 m = Done counter ∧ load_word 1 80 m = Done data.
Proof.
  intros ->. assert (ex_mem valid counter data !! 64 = Some valid) as H64 by done.
  assert (ex_mem valid counter data !! 72 = Some counter) as H72 by done.
  assert (ex_mem valid counter data !! 73 = Some 0) as H73 by done.
  assert (ex_mem valid counter data !! 80 = Some data) as H80 by done.
  unfold load_word. change (Z.to_nat 1) with 1%nat. change (Z.to_nat 2) with 2%nat.
  cbn [load_bytes]. change (72 + 1) with 73. rewrite H64, H72, H73, H80. cbn [le_value].
  split_and!; f_equal; lia.
Qed.

(** A writer is at work during the first two accesses and has finished by the
    third. *)
Definition ex_writer (n : nat) (m : gmap Z Z) : gmap Z Z :=
  match n with
  | O => ex_mem 0 1 5
  | 1%nat => ex_mem 0 1 6
  | 2%nat => ex_mem 0 2 6
  | _ => m
  end.
Definition ex_counter (n : nat) : Z := match n with O | 1%nat => 1 | _ => 2 end.
Definition ex_data (n : nat) : Z := match n with O => 5 | _ => 6 end.
Lemma ex_seen n : seen ex_writer 0 (ex_mem 0 0 5) n = ex_mem 0 (ex_counter n) (ex_data n).
Proof. do 3 (destruct n as [|n]; [done|]). induction n as [|n IH]; [done|]. exact IH. Qed.
Lemma ex_history :
  seqlock_history ex_writer (mk_machine (ex_mem 0 0 5) 0 (Some (ex_axb false MCA_INFINITE)))
    (ex_axb false MCA_INFINITE) 80 1 ex_counter ex_data 2.
Proof.
  split.
  - intros n. by apply (ex_mem_words 0 (ex_counter n) (ex_data n)), ex_seen.
  - intros n. by apply (ex_mem_words 0 (ex_counter n) (ex_data n)), ex_seen.
  - intros n. unfold ex_counter. repeat case_match; lia.
  - intros i j k Hk. unfold ex_counter. repeat case_match; lia.
  - intros n Hn. unfold ex_counter. repeat case_match; lia.
  - done.
Qed.
Lemma barrier_read_is_stable_witness :
  ∃ k n, (k < n)%nat ∧ ex_counter k mod 2 = 0 ∧
    sys_atomic_read ex_writer 3 80 1 (mk_machine (ex_mem 0 0 5) 0 (Some (ex_axb false MCA_INFINITE)))
    = Done ((true, Some (ex_data k)),
        mk_machine (mem_after ex_writer 0 (ex_mem 0 0 5) n) (0 + n)
          (Some (with_last MRAPI_ATOMIC_READ (ex_counter k) (ex_axb false MCA_INFINITE)))).
Proof.
  apply (barrier_read_is_stable ex_writer 3 (mk_machine (ex_mem 0 0 5) 0 (Some (ex_axb false MCA_INFINITE)))
    (ex_axb false MCA_INFINITE) 80 1 ex_counter ex_data 2); try done; [|apply ex_history|lia].
  unfold barrier_ready, sync_ready. cbn. split_and!; (lia || done || by right).
Defined.

(** The operations that always write. *)
Definition rewrites (op : operation) : Prop :=
  match op with
  | Add _ | Inc | Dec | Or _ | And _ | Xor _ | Lock => True
  | _ => False
  end.
Lemma run_rewriting env fuel dest size op s :
  rewrites op → operation_ok size op → dest ≠ 0 →
  run_operation env fuel dest size op s =
  with_barrier env fuel MRAPI_ATOMIC_WRITE (λ _ : out, switch_size size (
    let* x := shared_update env size dest (λ old, fst (effect size old op)) in
    ret (snd (effect size x op)))) nothing s.
Proof.
  intros Hr Hop Hd. destruct op; try done; cbn [run_operation operation_ok] in *;
    unfold sys_atomic_add, sys_atomic_or, sys_atomic_and, sys_atomic_xor;
    try (rewrite word_small by apply Hop); apply (not_null_done s dest Hd).
Qed.
Lemma rewriting_size size op : rewrites op → operation_ok size op → integer_size size = true.
Proof. destruct op; cbn; naive_solver. Qed.

(** The operation on the barrier [b] as a program of accesses. *)
Definition writer (fuel : nat) (counter dest size : Z) (op : operation) (b : mrapi_atomic_barrier_t) :
    prog (gmap Z Z) (out * Z) :=
  write_prog counter dest size fuel fuel (λ old, fst (effect size old op)) (λ old, snd (effect size old op))
    (last_counter (axb_sync b)).
Definition op_of (ops : list operation) (i : nat) : operation := default Inc (ops !! i).
Definition writers (fuel : nat) (counter dest size : Z) (ops : list operation)
    (bs : list mrapi_atomic_barrier_t) : list (prog (gmap Z Z) (out * Z)) :=
  imap (λ i b, writer fuel counter dest size (op_of ops i) b) bs.
(** The word after the operations of [log], one after the other. *)
Definition word_after (size : Z) (ops : list operation) (old : Z) (log : list nat) : Z :=
  fold_left (λ x i, word size (fst (effect size x (op_of ops i)))) log old.
(** A descriptor of the element with this counter that waits for ever. *)
Definition patient (counter : Z) (b : mrapi_atomic_barrier_t) : Prop :=
  barrier_ready b ∧ axb_timeout b = MCA_INFINITE ∧ counter_at b = counter.

Lemma operation_as_writer env fuel counter dest size op b m c :
  patient counter b → rewrites op → operation_ok size op → dest ≠ 0 →
  run_operation env fuel dest size op (mk_machine m c (Some b)) =
  match against env (writer fuel counter dest size op b) m c with
  | Done ((r, l), (m', c')) => Done (r, mk_machine m' c' (Some (with_last MRAPI_ATOMIC_WRITE l b)))
  | Fault f => Fault f
  end.
Proof.
  intros (Hb & Ht & <-) Hr Hop Hd. rewrite run_rewriting by done.
  apply (write_as_program env fuel b Hb Ht dest size (rewriting_size _ _ Hr Hop)).
Qed.

(** C33: Any number of processes change the same word through barriers on the same
    element, with infinite time-outs, their accesses interleaved in any way.  Each
    operation, executed against whatever others do, is the program [writer]; and
    under every schedule of these programs nothing faults, every operation that has
    returned was applied once, in the order [log], and its answer is that to the
    word it found there; the word is always that of the operations applied so far,
    and the counter is even exactly when no process is between its entering the
    element and its leaving it.  With fuel above the length of the schedule all have
    returned after N * (2 N + 4) + 1 rounds in which each takes a step, and the
    counter is 2 N higher. *)
Theorem barrier_writes_linearize fuel counter dest size ops bs m v old schedule :
  length ops = length bs → Forall (patient counter) bs →
  Forall (λ op, rewrites op ∧ operation_ok size op) ops → dest ≠ 0 → apart size dest 2 counter →
  byte_mem m → load_word 2 counter m = Done v → v mod 2 = 0 → load_word size dest m = Done old →
  (∀ env i op b mem c, ops !! i = Some op → bs !! i = Some b → ∃ p,
     writers fuel counter dest size ops bs !! i = Some p ∧
     run_operation env fuel dest size op (mk_machine mem c (Some b)) =
     match against env p mem c with
     | Done ((r, l), (mem', c')) => Done (r, mk_machine mem' c' (Some (with_last MRAPI_ATOMIC_WRITE l b)))
     | Fault f => Fault f
     end) ∧
  ∃ ts m' t log, run schedule (writers fuel counter dest size ops bs) m = Done (ts, m') ∧
    load_word size dest m' = Done (word_after size ops old log) ∧
    load_word 2 counter m' = Done (u16 (v + 2 * Z.of_nat (length log) + turn_offset t)) ∧
    NoDup log ∧ Forall (λ i, i < length ops)%nat log ∧
    (∀ i r, ts !! i = Some (Return r) → ¬ has_turn i t ∧ ∃ before after, log = before ++ i :: after ∧
       fst r = snd (effect size (word_after size ops old before) (op_of ops i))) ∧
    ((length schedule < fuel)%nat → has_rounds (writer_rounds (length ops)) (length ops) schedule →
       t = Open ∧ log ≡ₚ seq 0 (length ops) ∧ ∀ i, (i < length ops)%nat → ∃ r, ts !! i = Some (Return r)).
Proof.
  intros Hlen Hbs Hops Hd Hap Hby Hv He Hold. split.
  - intros env i op b mem c Hop Hb. exists (writer fuel counter dest size op b). split.
    + unfold writers. rewrite list_lookup_imap, Hb. cbn. unfold op_of. by rewrite Hop.
    + destruct (proj1 (Forall_lookup _ _) Hops i op Hop).
      apply operation_as_writer; [by apply (proj1 (Forall_lookup _ _) Hbs i)|done..].
  - destruct (decide (ops = [])) as [->|Hne].
    { destruct bs; [|done]. exists [], m, Open, []. cbn.
      split_and!; [by induction schedule|done| |apply NoDup_nil_2|by apply Forall_nil|by intros ? ? ?|by intros; split_and!; [..|intros ? ?; lia]].
      rewrite Hv. cbn. rewrite !Z.add_0_r, u16_small; [done|].
      by apply (load_word_range 2 counter m). }
    assert (0 < size) as Hsz.
    { destruct ops as [|op ops]; [done|]. apply Forall_cons in Hops as [[Hr Hop] _].
      by eapply integer_size_pos, rewriting_size. }
    set (ls := (λ b, last_counter (axb_sync b)) <$> bs).
    assert (writers fuel counter dest size ops bs = writer_threads counter dest size
      (λ i x, fst (effect size x (op_of ops i))) (λ i x, snd (effect size x (op_of ops i))) ls fuel) as ->.
    { unfold writers, writer_threads, ls. by rewrite imap_fmap. }
    apply (writers_run counter dest size Hsz Hap (length ops) (λ i x, fst (effect size x (op_of ops i))) v old He
      (λ i x, snd (effect size x (op_of ops i))) ls);
      [by unfold ls; rewrite length_fmap| |done..].
    apply Forall_fmap. eapply Forall_impl; [exact Hbs|]. intros b ((Hb & _) & _). apply Hb.
Qed.

Lemma ex_ready t : barrier_ready (ex_axb false t).
Proof. unfold barrier_ready, sync_ready. cbn. split_and!; (lia || done || by right). Qed.
Lemma ex_apart xchg t : apart 1 80 2 (counter_at (ex_axb xchg t)).
Proof. by right. Qed.
Lemma ex_bytes valid counter data :
  0 <= valid < 256 → 0 <= counter < 256 → 0 <= data < 256 → byte_mem (ex_mem valid counter data).
Proof. intros. unfold ex_mem. repeat apply map_Forall_insert_2; done || by apply map_Forall_singleton. Qed.
(** One process adds 10 and another counts. *)
Lemma barrier_writes_linearize_witness :
  ∃ ts m' log, run (concat (replicate 17 (seq 0 2)))
      (writers 40 72 80 1 [Add 10; Inc] [ex_axb false MCA_INFINITE; ex_axb false MCA_INFINITE]) (ex_mem 0 4 7)
      = Done (ts, m') ∧ log ≡ₚ [0; 1]%nat ∧
    load_word 1 80 m' = Done (word_after 1 [Add 10; Inc] 7 log) ∧ load_word 2 72 m' = Done 8.
Proof.
  destruct (barrier_writes_linearize 40 72 80 1 [Add 10; Inc] [ex_axb false MCA_INFINITE; ex_axb false MCA_INFINITE]
    (ex_mem 0 4 7) 4 7 (concat (replicate 17 (seq 0 2)))) as (_ & ts & m' & t & log & Hrun & Hd & Hc & _ & _ & _ & Hall);
    [done|by repeat constructor; try apply ex_ready|by repeat constructor|done|exact (ex_apart false MCA_INFINITE)
    |by apply ex_bytes|done|done|done|].
  destruct Hall as (-> & Hlog & _); [vm_compute; lia|apply has_rounds_replicate|].
  exists ts, m', log. split; [exact Hrun|]. split; [exact Hlog|]. split; [exact Hd|].
  by rewrite Hc, Hlog.
Defined.

(** A writer whose finite time-out runs out while another holds the counter
    odd answers no and leaves the data alone, but still releases: it makes the
    counter even, and so ends the other's exclusive access. *)
Theorem timed_out_writer_breaks_lock env fuel s b dest size v old op :
  axb s = Some b → barrier_ready b → finite_timeout (axb_timeout b) →
  (attempts (axb_timeout b) <= fuel)%nat →
  rewrites op → operation_ok size op → dest ≠ 0 → apart size dest 2 (counter_at b) →
  leaves env 2 (counter_at b) → leaves env size dest →
  load_word 2 (counter_at b) (shared_mem s) = Done v → 0 <= v < 65536 → v mod 2 = 1 →
  load_word size dest (shared_mem s) = Done old →
  ∃ m n, run_operation env fuel dest size op s
      = Done ((false, None), mk_machine m n (Some (with_last MRAPI_ATOMIC_WRITE v b))) ∧
    load_word size dest m = Done old ∧
    load_word 2 (counter_at b) m = Done (u16 (v + 1)) ∧ u16 (v + 1) mod 2 = 0.
Proof.
  intros Hs Hb Ht Hf Hr Hop Hd Ha Hc He Hv Hrange Hodd Hold. rewrite run_rewriting by done.
  pose proof (integer_size_pos _ (rewriting_size _ _ Hr Hop)) as Hsz.
  destruct s as [m0 c ?]. cbn in Hs, Hv, Hold |- *. subst.
  destruct (stuck_result env fuel b Hb Ht Hf dest size ltac:(lia) Ha Hc He v old Hodd Hrange
    (λ _ : out, switch_size size (
      let* x := shared_update env size dest (λ old, fst (effect size old op)) in
      ret (snd (effect size x op)))) nothing m0 c Hv Hold) as (m & n & Hm & Hw & Hcm).
  exists m, n. rewrite even_successor by done. done.
Qed.
Lemma timed_out_writer_breaks_lock_witness :
  ∃ m n, sys_atomic_add (λ _ m, m) 3 80 1 1 (mk_machine (ex_mem 0 5 7) 0 (Some (ex_axb false 3)))
      = Done ((false, None), mk_machine m n (Some (with_last MRAPI_ATOMIC_WRITE 5 (ex_axb false 3)))) ∧
    load_word 1 80 m = Done 7 ∧ load_word 2 72 m = Done 6 ∧ 6 mod 2 = 0.
Proof.
  apply (timed_out_writer_breaks_lock (λ _ m, m) 3 (mk_machine (ex_mem 0 5 7) 0 (Some (ex_axb false 3)))
    (ex_axb false 3) 80 1 5 7 (Add 1));
    [done|apply ex_ready|by split|unfold attempts; cbn; lia|done|by vm_compute|done
    |apply ex_apart|done|done|done|lia|done|done].
Defined.

(** Two writers of the example: one holds the counter odd when the other's time
    runs out before its release; it finds its counter changed and adds again. *)
Definition ex_intruder (n : nat) (m : gmap Z Z) : gmap Z Z :=
  match n with
  | 3%nat =>
      match sys_atomic_add (λ _ m, m) 1 80 1 1 (mk_machine m 0 (Some (ex_axb false 1))) with
      | Done (_, s) => shared_mem s
      | Fault _ => m
      end
  | _ => m
  end.
Example broken_lock_adds_twice :
  ∃ s', sys_atomic_add ex_intruder 9 80 10 1
      (mk_machine (ex_mem 0 4 7) 0 (Some (ex_axb false MCA_INFINITE))) = Done ((true, Some 17), s') ∧
    load_word 1 80 (shared_mem s') = Done 27.
Proof. eexists. split; [by vm_compute|]. by vm_compute. Qed.

(** ** Exchanges *)

(** The bodies of the operations next to a flag. *)
Section next_to_flag.
Context (env : nat → gmap Z Z → gmap Z Z) (b : mrapi_atomic_barrier_t) (dest size : Z).
Context (Hsize : integer_size size = true) (Ha : apart size dest 1 (valid_at b)).
Context (Hflag : leaves env 1 (valid_at b)) (Hdata : leaves env size dest).

Lemma rewriting_body (f : Z → Z) (g : Z → out) mode v old l m c :
  holds b dest size v old m →
  ∃ m' c', switch_size size (let* x := shared_update env size dest f in ret (g x)) (at_ b mode l m c)
      = Done (g old, at_ b mode l m' c') ∧ holds b dest size v (word size (f old)) m'.
Proof using All.
  intros Hm. pose proof (integer_size_pos _ Hsize) as Hsz.
  apply (holds_env env b dest size ltac:(lia) Hflag Hdata _ _ c) in Hm as [Hv Hl].
  destruct (store_word_ok size dest ltac:(lia) _ _ (f old) Hl) as [m1 Hm1].
  exists m1, (S c). unfold switch_size. rewrite Hsize. split.
  - by rewrite (bind_done _ _ _ _ _ (update_at env b _ _ _ _ _ _ f _ _ Hl Hm1)).
  - split; [|by eapply load_store_word; [lia|]]. rewrite <- Hv.
    eapply (load_word_apart 1 (valid_at b) size dest); [lia|lia| |exact Hm1].
    destruct Ha; [by right|by left].
Qed.
Lemma reading_body mode v data l m c :
  holds b dest size v data m →
  ∃ m' c', switch_size size (let* x := shared_load env size dest in ret (true, Some x)) (at_ b mode l m c)
      = Done ((true, Some data), at_ b mode l m' c') ∧ holds b dest size v data m'.
Proof using All.
  intros Hm. pose proof (integer_size_pos _ Hsize) as Hsz.
  pose proof (holds_env env b dest size ltac:(lia) Hflag Hdata _ _ c _ Hm) as Hl.
  exists (env c m), (S c). unfold switch_size. rewrite Hsize. split; [|done].
  by rewrite (bind_done _ _ _ _ _ (load_at env b _ _ _ _ _ _ _ (proj2 Hl))).
Qed.
End next_to_flag.

(** Through exchange descriptors a value reaches the reader: when the flag
    of the element is clear a write goes through, at any finite or infinite
    time-out, and sets it; a read of any other process then answers with the
    value written and clears the flag for the next write. *)
Theorem exchange_roundtrip envw envr fuel bw br dest size old op m0 c0 :
  exchange_ready bw → exchange_ready br → valid_at br = valid_at bw →
  rewrites op → operation_ok size op → dest ≠ 0 → apart size dest 1 (valid_at bw) →
  leaves envw 1 (valid_at bw) → leaves envw size dest →
  leaves envr 1 (valid_at bw) → leaves envr size dest → (0 < fuel)%nat →
  load_word 1 (valid_at bw) m0 = Done 0 → load_word size dest m0 = Done old →
  ∃ m n bw', run_operation envw fuel dest size op (mk_machine m0 c0 (Some bw))
      = Done (snd (effect size old op), mk_machine m n (Some bw')) ∧
    load_word 1 (valid_at bw) m = Done 1 ∧
    ∀ c, ∃ m' n' br', sys_atomic_read envr fuel dest size (mk_machine m c (Some br))
        = Done ((true, Some (word size (fst (effect size old op)))), mk_machine m' n' (Some br')) ∧
      load_word 1 (valid_at bw) m' = Done 0.
Proof.
  intros Hw Hr Hsame Hrw Hop Hd Ha Hw1 Hw2 Hr1 Hr2 Hf Hv Hold. rewrite run_rewriting by done.
  pose proof (rewriting_size _ _ Hrw Hop) as Hi. pose proof (integer_size_pos _ Hi) as Hsz.
  set (new := word size (fst (effect size old op))).
  destruct (exchange_passes envw fuel bw Hw dest size ltac:(lia) Ha Hw1 Hw2 MRAPI_ATOMIC_WRITE
    (λ _ : out, switch_size size (
      let* x := shared_update envw size dest (λ old, fst (effect size old op)) in
      ret (snd (effect size x op)))) nothing (snd (effect size old op)) 0 old new m0 c0)
    as (m & n & Hrun & Hm1 & Hm2); [done|done|done|by split| |].
  { intros l m c. by apply (rewriting_body envw bw dest size Hi Ha Hw1 Hw2
      (λ old, fst (effect size old op)) (λ x, snd (effect size x op))). }
  exists m, n. eexists. split; [exact Hrun|]. split; [done|]. intros c. rewrite <- Hsame in *.
  destruct (exchange_passes envr fuel br Hr dest size ltac:(lia) Ha Hr1 Hr2 MRAPI_ATOMIC_READ
    (λ _ : out, switch_size size (let* v := shared_load envr size dest in ret (true, Some v)))
    nothing (true, Some new) 1 new new m c)
    as (m' & n' & Hread & Hv' & _); [done|done|done|by split| |].
  { intros l m1 c1. by apply reading_body. }
  exists m', n'. eexists. split; [|done]. unfold sys_atomic_read.
  rewrite (not_null_done _ dest Hd). exact Hread.
Qed.

(** A write through an exchange descriptor whose finite time-out runs out
    because the last value has not been read answers no and leaves the data
    alone, but clears the flag: the unread value is marked as taken. *)
Theorem timed_out_exchange_drops_value env fuel b dest size old op m0 c0 :
  exchange_ready b → finite_timeout (axb_timeout b) → (attempts (axb_timeout b) <= fuel)%nat →
  rewrites op → operation_ok size op → dest ≠ 0 → apart size dest 1 (valid_at b) →
  leaves env 1 (valid_at b) → leaves env size dest →
  load_word 1 (valid_at b) m0 = Done 1 → load_word size dest m0 = Done old →
  ∃ m n b', run_operation env fuel dest size op (mk_machine m0 c0 (Some b))
      = Done ((false, None), mk_machine m n (Some b')) ∧
    load_word 1 (valid_at b) m = Done 0 ∧ load_word size dest m = Done old.
Proof.
  intros Hb Ht Hf Hrw Hop Hd Ha H1 H2 Hv Hold. rewrite run_rewriting by done.
  pose proof (integer_size_pos _ (rewriting_size _ _ Hrw Hop)) as Hsz.
  destruct (exchange_refused env fuel b Hb dest size ltac:(lia) Ha H1 H2 MRAPI_ATOMIC_WRITE
    (λ _ : out, switch_size size (
      let* x := shared_update env size dest (λ old, fst (effect size old op)) in
      ret (snd (effect size x op)))) nothing 1 old m0 c0) as (m & n & Hrun & Hm); try done.
  exists m, n. eexists. split; [exact Hrun|]. exact Hm.
Qed.
Lemma ex_exchange_ready t : exchange_ready (ex_axb true t).
Proof. unfold exchange_ready, sync_ready. cbn. split_and!; (lia || done || by left). Qed.
Lemma ex_flag_apart t : apart 1 80 1 (valid_at (ex_axb true t)).
Proof. by right. Qed.
Lemma exchange_roundtrip_witness :
  ∃ m n bw', sys_atomic_or (λ _ m, m) 1 80 8 1 (mk_machine (ex_mem 0 0 7) 0 (Some (ex_axb true 5)))
      = Done ((true, Some 7), mk_machine m n (Some bw')) ∧
    load_word 1 (valid_at (ex_axb true 5)) m = Done 1 ∧
    ∀ c, ∃ m' n' br', sys_atomic_read (λ _ m, m) 1 80 1 (mk_machine m c (Some (ex_axb true 6)))
        = Done ((true, Some 15), mk_machine m' n' (Some br')) ∧
      load_word 1 (valid_at (ex_axb true 5)) m' = Done 0.
Proof.
  apply (exchange_roundtrip (λ _ m, m) (λ _ m, m) 1 (ex_axb true 5) (ex_axb true 6) 80 1 7 (Or 8) (ex_mem 0 0 7) 0);
    (done || apply ex_exchange_ready || apply ex_flag_apart || lia).
Defined.
Lemma timed_out_exchange_drops_value_witness :
  ∃ m n b', sys_atomic_inc (λ _ m, m) 5 80 1 (mk_machine (ex_mem 1 0 7) 0 (Some (ex_axb true 5)))
      = Done ((false, None), mk_machine m n (Some b')) ∧
    load_word 1 (valid_at (ex_axb true 5)) m = Done 0 ∧ load_word 1 80 m = Done 7.
Proof.
  apply (timed_out_exchange_drops_value (λ _ m, m) 5 (ex_axb true 5) 80 1 7 Inc (ex_mem 1 0 7) 0);
    (done || apply ex_exchange_ready || apply ex_flag_apart || (unfold attempts; cbn; lia)).
Defined.

(** ** Unconditional exchange *)

(** Mrapi_atomic_xchg makes two accesses: it reads [v1], then compares and
    swaps against it.  It always reports success and answers with the value
    [v2] the second access finds; the memory is exchanged only if nobody
    changed it in between, and stays [v2] otherwise. *)
Theorem exchange_is_two_steps env fuel s dest exchange size v1 v2 status :
  axb s = None → (0 < fuel)%nat → dest ≠ 0 → integer_size size = true →
  fits_width size exchange → fits_width size v1 → fits_width size v2 →
  load_word size dest (found env s) = Done v1 →
  load_word size dest (found env (after s (found env s))) = Done v2 →
  ∃ m, mrapi_atomic_xchg env fuel true dest exchange size status s
      = Done ((Some v2, MRAPI_SUCCESS), after (after s (found env s)) m) ∧
    load_word size dest m = Done (if v2 =? v1 then exchange else v2).
Proof.
  intros Hs Hf Hd Hi He H1 H2 Hl1 Hl2. pose proof (integer_size_pos _ Hi) as Hsz.
  set (new := if v2 =? v1 then exchange else v2).
  destruct (store_word_ok size dest ltac:(lia) _ _ new Hl2) as [m Hm].
  exists m. split.
  - unfold mrapi_atomic_xchg, reported, mrapi_impl_atomic_xchg. cbn [negb].
    rewrite (bind_done _ _ _ ((true, Some v2), status) (after (after s (found env s)) m)); [done|].
    rewrite (bind_done _ _ _ v2 (after (after s (found env s)) m)); [done|].
    unfold sys_atomic_xchg. rewrite Hi, (bind_done _ _ _ _ _ (shared_load_done env _ _ _ _ Hl1)).
    assert (sys_atomic_cas_at env fuel true dest exchange v1 size (after s (found env s))
      = Done ((v1 =? v2, Some v2, v2), after (after s (found env s)) m)) as Hcas;
      [|by rewrite (bind_done _ _ _ _ _ Hcas)].
    unfold sys_atomic_cas_at. rewrite (not_null_done _ dest Hd).
    assert (val_compare_and_swap env size dest v1 (word size exchange) (after s (found env s))
      = Done (v2, after (after s (found env s)) m)) as Hv.
    { unfold val_compare_and_swap. rewrite !word_small by done. by apply shared_update_done. }
    rewrite no_barrier; [|done|done|]; cbn beta iota delta [nothing]; rewrite Hi.
    + rewrite (bind_done _ _ _ _ _ Hv), (word_small size v1) by done. by destruct (v1 =? v2).
    + intros a' s'. rewrite (bind_done _ _ _ _ _ Hv). by intros [= _ <-].
  - rewrite (load_store_word size dest ltac:(lia) _ _ _ Hm). rewrite word_small; [done|].
    unfold new. by destruct (v2 =? v1).
Qed.
Lemma exchange_is_two_steps_witness :
  let env n (m : gmap Z Z) := if Nat.eqb n 1 then <[100 := 8]> m else m in
  let s := mk_machine {[100 := 7]} 0 None in
  ∃ m, mrapi_atomic_xchg env 1 true 100 9 1 5 s
      = Done ((Some 8, MRAPI_SUCCESS), after (after s (found env s)) m) ∧
    load_word 1 100 m = Done 8.
Proof.
  cbv zeta. apply (exchange_is_two_steps _ 1 (mk_machine {[100 := 7]} 0 None) 100 9 1 7 8 5);
    done || lia || by vm_compute.
Defined.
