(* ===== verification/MrapiTypes.v ===== *)
(** Data types of the MRAPI layer: the status codes and configuration limits
    of [mrapi.h] and [mrapi_impl_spec_inc.h], and the shared database of
    [mrapi_impl_spec_data.h] as records.  Field names carry the struct's
    initials because C gives the same name to fields of several structs. *)

From S2P Require Import Prelude.

(** ** Status codes ([mrapi_status_flags]) *)

Inductive mrapi_status :=
| MRAPI_SUCCESS
| MRAPI_TIMEOUT
| MRAPI_INCOMPLETE
| MRAPI_ERR_ATTR_NUM
| MRAPI_ERR_ATTR_READONLY
| MRAPI_ERR_ATTR_SIZE
| MRAPI_ERR_DOMAIN_INVALID
| MRAPI_ERR_DOMAIN_NOTSHARED
| MRAPI_ERR_MEM_LIMIT
| MRAPI_ERR_MUTEX_DELETED
| MRAPI_ERR_MUTEX_EXISTS
| MRAPI_ERR_MUTEX_ID_INVALID
| MRAPI_ERR_MUTEX_INVALID
| MRAPI_ERR_MUTEX_KEY
| MRAPI_ERR_MUTEX_LIMIT
| MRAPI_ERR_MUTEX_LOCKED
| MRAPI_ERR_MUTEX_LOCKORDER
| MRAPI_ERR_MUTEX_NOTLOCKED
| MRAPI_ERR_MUTEX_NOTVALID
| MRAPI_ERR_NODE_INITFAILED
| MRAPI_ERR_NODE_FINALFAILED
| MRAPI_ERR_NODE_INITIALIZED
| MRAPI_ERR_NODE_INVALID
| MRAPI_ERR_NODE_NOTINIT
| MRAPI_ERR_NOT_SUPPORTED
| MRAPI_ERR_PARAMETER
| MRAPI_ERR_REQUEST_CANCELED
| MRAPI_ERR_REQUEST_INVALID
| MRAPI_ERR_REQUEST_LIMIT
| MRAPI_ERR_RMEM_ID_INVALID
| MRAPI_ERR_RMEM_ATTACH
| MRAPI_ERR_RMEM_ATTACHED
| MRAPI_ERR_RMEM_ATYPE
| MRAPI_ERR_RMEM_ATYPE_NOTVALID
| MRAPI_ERR_RMEM_BLOCKED
| MRAPI_ERR_RMEM_BUFF_OVERRUN
| MRAPI_ERR_RMEM_CONFLICT
| MRAPI_ERR_RMEM_EXISTS
| MRAPI_ERR_RMEM_INVALID
| MRAPI_ERR_RMEM_NOTATTACHED
| MRAPI_ERR_RMEM_NOTOWNER
| MRAPI_ERR_RMEM_STRIDE
| MRAPI_ERR_RMEM_TYPENOTVALID
| MRAPI_ERR_RSRC_COUNTER_INUSE
| MRAPI_ERR_RSRC_INVALID
| MRAPI_ERR_RSRC_INVALID_CALLBACK
| MRAPI_ERR_RSRC_INVALID_EVENT
| MRAPI_ERR_RSRC_INVALID_SUBSYSTEM
| MRAPI_ERR_RSRC_INVALID_TREE
| MRAPI_ERR_RSRC_NOTDYNAMIC
| MRAPI_ERR_RSRC_NOTOWNER
| MRAPI_ERR_RSRC_NOTSTARTED
| MRAPI_ERR_RSRC_STARTED
| MRAPI_ERR_RWL_DELETED
| MRAPI_ERR_RWL_EXISTS
| MRAPI_ERR_RWL_ID_INVALID
| MRAPI_ERR_RWL_INVALID
| MRAPI_ERR_RWL_LIMIT
| MRAPI_ERR_RWL_LOCKED
| MRAPI_ERR_RWL_NOTLOCKED
| MRAPI_ERR_SEM_DELETED
| MRAPI_ERR_SEM_EXISTS
| MRAPI_ERR_SEM_ID_INVALID
| MRAPI_ERR_SEM_INVALID
| MRAPI_ERR_SEM_LIMIT
| MRAPI_ERR_SEM_LOCKED
| MRAPI_ERR_SEM_LOCKLIMIT
| MRAPI_ERR_SEM_NOTLOCKED
| MRAPI_ERR_SHM_ATTACHED
| MRAPI_ERR_SHM_ATTCH
| MRAPI_ERR_SHM_EXISTS
| MRAPI_ERR_SHM_ID_INVALID
| MRAPI_ERR_SHM_INVALID
| MRAPI_ERR_SHM_NODES_INCOMPAT
| MRAPI_ERR_SHM_NODE_NOTSHARED
| MRAPI_ERR_SHM_NOTATTACHED.

(** The enumerator's value in C: its position in the declaration. *)
Definition mrapi_status_code (st : mrapi_status) : Z :=
  match st with
  | MRAPI_SUCCESS => 0
  | MRAPI_TIMEOUT => 1
  | MRAPI_INCOMPLETE => 2
  | MRAPI_ERR_ATTR_NUM => 3
  | MRAPI_ERR_ATTR_READONLY => 4
  | MRAPI_ERR_ATTR_SIZE => 5
  | MRAPI_ERR_DOMAIN_INVALID => 6
  | MRAPI_ERR_DOMAIN_NOTSHARED => 7
  | MRAPI_ERR_MEM_LIMIT => 8
  | MRAPI_ERR_MUTEX_DELETED => 9
  | MRAPI_ERR_MUTEX_EXISTS => 10
  | MRAPI_ERR_MUTEX_ID_INVALID => 11
  | MRAPI_ERR_MUTEX_INVALID => 12
  | MRAPI_ERR_MUTEX_KEY => 13
  | MRAPI_ERR_MUTEX_LIMIT => 14
  | MRAPI_ERR_MUTEX_LOCKED => 15
  | MRAPI_ERR_MUTEX_LOCKORDER => 16
  | MRAPI_ERR_MUTEX_NOTLOCKED => 17
  | MRAPI_ERR_MUTEX_NOTVALID => 18
  | MRAPI_ERR_NODE_INITFAILED => 19
  | MRAPI_ERR_NODE_FINALFAILED => 20
  | MRAPI_ERR_NODE_INITIALIZED => 21
  | MRAPI_ERR_NODE_INVALID => 22
  | MRAPI_ERR_NODE_NOTINIT => 23
  | MRAPI_ERR_NOT_SUPPORTED => 24
  | MRAPI_ERR_PARAMETER => 25
  | MRAPI_ERR_REQUEST_CANCELED => 26
  | MRAPI_ERR_REQUEST_INVALID => 27
  | MRAPI_ERR_REQUEST_LIMIT => 28
  | MRAPI_ERR_RMEM_ID_INVALID => 29
  | MRAPI_ERR_RMEM_ATTACH => 30
  | MRAPI_ERR_RMEM_ATTACHED => 31
  | MRAPI_ERR_RMEM_ATYPE => 32
  | MRAPI_ERR_RMEM_ATYPE_NOTVALID => 33
  | MRAPI_ERR_RMEM_BLOCKED => 34
  | MRAPI_ERR_RMEM_BUFF_OVERRUN => 35
  | MRAPI_ERR_RMEM_CONFLICT => 36
  | MRAPI_ERR_RMEM_EXISTS => 37
  | MRAPI_ERR_RMEM_INVALID => 38
  | MRAPI_ERR_RMEM_NOTATTACHED => 39
  | MRAPI_ERR_RMEM_NOTOWNER => 40
  | MRAPI_ERR_RMEM_STRIDE => 41
  | MRAPI_ERR_RMEM_TYPENOTVALID => 42
  | MRAPI_ERR_RSRC_COUNTER_INUSE => 43
  | MRAPI_ERR_RSRC_INVALID => 44
  | MRAPI_ERR_RSRC_INVALID_CALLBACK => 45
  | MRAPI_ERR_RSRC_INVALID_EVENT => 46
  | MRAPI_ERR_RSRC_INVALID_SUBSYSTEM => 47
  | MRAPI_ERR_RSRC_INVALID_TREE => 48
  | MRAPI_ERR_RSRC_NOTDYNAMIC => 49
  | MRAPI_ERR_RSRC_NOTOWNER => 50
  | MRAPI_ERR_RSRC_NOTSTARTED => 51
  | MRAPI_ERR_RSRC_STARTED => 52
  | MRAPI_ERR_RWL_DELETED => 53
  | MRAPI_ERR_RWL_EXISTS => 54
  | MRAPI_ERR_RWL_ID_INVALID => 55
  | MRAPI_ERR_RWL_INVALID => 56
  | MRAPI_ERR_RWL_LIMIT => 57
  | MRAPI_ERR_RWL_LOCKED => 58
  | MRAPI_ERR_RWL_NOTLOCKED => 59
  | MRAPI_ERR_SEM_DELETED => 60
  | MRAPI_ERR_SEM_EXISTS => 61
  | MRAPI_ERR_SEM_ID_INVALID => 62
  | MRAPI_ERR_SEM_INVALID => 63
  | MRAPI_ERR_SEM_LIMIT => 64
  | MRAPI_ERR_SEM_LOCKED => 65
  | MRAPI_ERR_SEM_LOCKLIMIT => 66
  | MRAPI_ERR_SEM_NOTLOCKED => 67
  | MRAPI_ERR_SHM_ATTACHED => 68
  | MRAPI_ERR_SHM_ATTCH => 69
  | MRAPI_ERR_SHM_EXISTS => 70
  | MRAPI_ERR_SHM_ID_INVALID => 71
  | MRAPI_ERR_SHM_INVALID => 72
  | MRAPI_ERR_SHM_NODES_INCOMPAT => 73
  | MRAPI_ERR_SHM_NODE_NOTSHARED => 74
  | MRAPI_ERR_SHM_NOTATTACHED => 75
  end.

#[export] Instance mrapi_status_eq_dec : EqDecision mrapi_status.
Proof.
  refine (λ x y, cast_if (decide (mrapi_status_code x = mrapi_status_code y))).
  - abstract (destruct x, y; (reflexivity || discriminate)).
  - abstract (intros ->; done).
Defined.

(** ** Configuration limits *)

Definition MRAPI_MAX_SEMS : nat := 128.
Definition MRAPI_MAX_SHMEMS : nat := 10.
Definition MRAPI_MAX_RMEMS : nat := 10.
Definition MRAPI_MAX_REQUESTS : nat := 1024.
Definition MRAPI_MAX_SHARED_LOCKS : nat := 32.
Definition MRAPI_MAX_NODES : nat := 16.
Definition MRAPI_MAX_DOMAINS : nat := 2.
Definition MRAPI_MAX_STATUS_SIZE : Z := 32.
Definition MRAPI_SEM_ID_ANY : Z := 0xffffffff.
Definition MRAPI_TIMEOUT_INFINITE : Z := 0xffffffff.
Definition MRAPI_NODE_INVALID : Z := 0xffffffff.
Definition MRAPI_DOMAIN_INVALID : Z := 0xffffffff.
Definition MRAPI_TRUE : Z := 1.
Definition MRAPI_FALSE : Z := 0.

#[global] Opaque MRAPI_MAX_SEMS MRAPI_MAX_REQUESTS MRAPI_MAX_SHARED_LOCKS.

(** Attribute numbers (the enum [attributes] of [mrapi.h]). *)
Definition MRAPI_MUTEX_RECURSIVE : Z := 0.
Definition MRAPI_ERROR_EXT : Z := 1.
Definition MRAPI_DOMAIN_SHARED : Z := 2.
Definition MRAPI_SHMEM_RESOURCE : Z := 3.
Definition MRAPI_SHMEM_ADDRESS : Z := 4.
Definition MRAPI_SHMEM_SIZE : Z := 5.

(** ** Enumerations of the implementation *)

Inductive lock_type := RWL | SEM | MUTEX.
Inductive mrapi_rwl_mode_t := MRAPI_RWL_READER | MRAPI_RWL_WRITER.
Inductive mrapi_rmem_atype_t := MRAPI_RMEM_DMA | MRAPI_RMEM_SWCACHE | MRAPI_RMEM_DUMMY.

#[export] Instance lock_type_eq_dec : EqDecision lock_type.
Proof. solve_decision. Defined.
#[export] Instance rmem_atype_eq_dec : EqDecision mrapi_rmem_atype_t.
Proof. solve_decision. Defined.

(** ** The database

    Fields the code only ever sets to [MRAPI_TRUE] / [MRAPI_FALSE] (or 0 / 1)
    itself are [bool]; attribute flags, which are copied byte by byte from
    user memory, are [Z] and compared with [MRAPI_TRUE] as the code does. *)

Record mrapi_impl_attributes_t := mk_attributes {
  ext_error_checking : Z;
  shared_across_domains : Z;
  recursive : Z;
  mem_addr : list Z;   (* the bytes of a pointer *)
  mem_size : list Z;   (* the bytes of a uint32_t *)
  resource : list Z }. (* the bytes of a mrapi_resource_t *)
#[export] Instance eta_attributes : Settable mrapi_impl_attributes_t := λ r,
  mk_attributes (ext_error_checking r) (shared_across_domains r) (recursive r)
    (mem_addr r) (mem_size r) (resource r).

Record mrapi_lock_t := mk_lock {
  lk_valid : bool;
  lk_locked : bool;
  lk_holder_nindex : Z; (* uint8 *)
  lk_holder_dindex : Z; (* uint8 *)
  lk_key : Z }.         (* uint32 *)
#[export] Instance eta_lock : Settable mrapi_lock_t := λ r,
  mk_lock (lk_valid r) (lk_locked r) (lk_holder_nindex r) (lk_holder_dindex r)
    (lk_key r).

(** Mutexes, semaphores and reader-writer locks share this structure. *)
Record mrapi_sem_t := mk_sem {
  s_handle : Z;
  s_num_locks : Z;
  s_locks : list mrapi_lock_t;
  s_key : Z;
  s_id : Z;
  s_shared_lock_limit : Z;
  s_type : lock_type;
  s_attributes : mrapi_impl_attributes_t;
  s_valid : bool;
  s_deleted : bool;
  s_refs : Z }.         (* uint8 *)
#[export] Instance eta_sem : Settable mrapi_sem_t := λ r,
  mk_sem (s_handle r) (s_num_locks r) (s_locks r) (s_key r) (s_id r)
    (s_shared_lock_limit r) (s_type r) (s_attributes r) (s_valid r)
    (s_deleted r) (s_refs r).

Record mrapi_shmem_t := mk_shmem {
  sh_valid : bool;
  sh_key : Z;
  sh_id : Z;
  sh_addr : Z;
  sh_attributes : mrapi_impl_attributes_t;
  sh_refs : Z }.
#[export] Instance eta_shmem : Settable mrapi_shmem_t := λ r,
  mk_shmem (sh_valid r) (sh_key r) (sh_id r) (sh_addr r) (sh_attributes r)
    (sh_refs r).

Record mrapi_rmem_t := mk_rmem {
  rm_valid : bool;
  rm_access_type : mrapi_rmem_atype_t;
  rm_key : Z;
  rm_addr : Z;
  rm_size : Z;
  rm_attributes : mrapi_impl_attributes_t;
  rm_refs : Z;
  rm_nodes : list bool }.
#[export] Instance eta_rmem : Settable mrapi_rmem_t := λ r,
  mk_rmem (rm_valid r) (rm_access_type r) (rm_key r) (rm_addr r) (rm_size r)
    (rm_attributes r) (rm_refs r) (rm_nodes r).

Record mrapi_node_data := mk_node {
  n_valid : bool;
  n_pid : Z;
  n_tid : Z;
  n_node_num : Z;
  n_sems : list bool;     (* the sems this node is referencing *)
  n_shmems : list bool }. (* the shmems this node is referencing *)
#[export] Instance eta_node : Settable mrapi_node_data := λ r,
  mk_node (n_valid r) (n_pid r) (n_tid r) (n_node_num r) (n_sems r)
    (n_shmems r).

Record mrapi_domain_data := mk_domain {
  d_valid : bool;
  d_num_nodes : Z; (* uint8 *)
  d_domain_id : Z;
  d_nodes : list mrapi_node_data }.
#[export] Instance eta_domain : Settable mrapi_domain_data := λ r,
  mk_domain (d_valid r) (d_num_nodes r) (d_domain_id r) (d_nodes r).

Record mrapi_request_data := mk_request {
  rq_valid : bool;
  rq_completed : bool;
  rq_cancelled : bool;
  rq_node_num : Z;
  rq_domain_id : Z;
  rq_status : mrapi_status }.
#[export] Instance eta_request : Settable mrapi_request_data := λ r,
  mk_request (rq_valid r) (rq_completed r) (rq_cancelled r) (rq_node_num r)
    (rq_domain_id r) (rq_status r).

Record mrapi_database := mk_db {
  num_shmems : Z; (* uint8 *)
  num_sems : Z;   (* uint8 *)
  num_rmems : Z;  (* uint8 *)
  shmems : list mrapi_shmem_t;
  sems : list mrapi_sem_t;
  rmems : list mrapi_rmem_t;
  domains : list mrapi_domain_data;
  requests : list mrapi_request_data;
  rollover_index : Z }.
#[export] Instance eta_db : Settable mrapi_database := λ r,
  mk_db (num_shmems r) (num_sems r) (num_rmems r) (shmems r) (sems r)
    (rmems r) (domains r) (requests r) (rollover_index r).

(** ** Zeroed memory ([memset] 0, and a fresh shared memory segment) *)

Definition sizeof_pointer : nat := 8.
Definition sizeof_uint32 : nat := 4.
Definition sizeof_boolean : nat := 1.
Definition sizeof_resource : nat := 64.

Definition zero_attributes : mrapi_impl_attributes_t :=
  mk_attributes 0 0 0 (replicate sizeof_pointer 0) (replicate sizeof_uint32 0)
    (replicate sizeof_resource 0).
Definition zero_lock : mrapi_lock_t := mk_lock false false 0 0 0.
Definition zero_sem : mrapi_sem_t :=
  mk_sem 0 0 (replicate MRAPI_MAX_SHARED_LOCKS zero_lock) 0 0 0 RWL
    zero_attributes false false 0.
Definition zero_shmem : mrapi_shmem_t := mk_shmem false 0 0 0 zero_attributes 0.
Definition zero_rmem : mrapi_rmem_t :=
  mk_rmem false MRAPI_RMEM_DMA 0 0 0 zero_attributes 0
    (replicate MRAPI_MAX_NODES false).
Definition zero_node : mrapi_node_data :=
  mk_node false 0 0 0 (replicate MRAPI_MAX_SEMS false)
    (replicate MRAPI_MAX_SHMEMS false).
Definition zero_domain : mrapi_domain_data :=
  mk_domain false 0 0 (replicate MRAPI_MAX_NODES zero_node).
Definition zero_request : mrapi_request_data :=
  mk_request false false false 0 0 MRAPI_SUCCESS.
Definition zero_db : mrapi_database :=
  mk_db 0 0 0 (replicate MRAPI_MAX_SHMEMS zero_shmem)
    (replicate MRAPI_MAX_SEMS zero_sem) (replicate MRAPI_MAX_RMEMS zero_rmem)
    (replicate MRAPI_MAX_DOMAINS zero_domain)
    (replicate MRAPI_MAX_REQUESTS zero_request) 0.

(** ** The calling thread

    What [mrapi_impl_whoami] reads: whether this process is attached to the
    database, and the thread-local identity that [mrapi_impl_initialize]
    caches ([mrapi_pid] is -1 before).  [c_sem_addr i] is the address at
    which this process sees [mrapi_db->sems[i]], truncated to an [int]. *)
Record caller := mk_caller {
  c_attached : bool;
  c_pid : Z;
  c_tid : Z;
  c_nindex : nat;
  c_dindex : nat;
  c_node_id : Z;
  c_domain_id : Z;
  c_sem_addr : nat → Z }.
#[export] Instance eta_caller : Settable caller := λ r,
  mk_caller (c_attached r) (c_pid r) (c_tid r) (c_nindex r) (c_dindex r)
    (c_node_id r) (c_domain_id r) (c_sem_addr r).

(** ** Writing to the database *)

Definition upd_sem (i : nat) (f : mrapi_sem_t → mrapi_sem_t)
    (db : mrapi_database) : mrapi_database :=
  db <| sems ::= alter f i |>.
Definition upd_node (d n : nat) (f : mrapi_node_data → mrapi_node_data)
    (db : mrapi_database) : mrapi_database :=
  db <| domains ::= alter (λ dm, dm <| d_nodes ::= alter f n |>) d |>.

(** [mrapi_db->sems[i]] and [mrapi_db->domains[d].nodes[n]] as lvalues: an
    index outside the array is a fault. *)
Definition get_sem (i : nat) : M mrapi_database mrapi_sem_t := arr_get sems i.
Definition modify_sem (i : nat) (f : mrapi_sem_t → mrapi_sem_t) :
    M mrapi_database unit :=
  get_sem i;; modify (upd_sem i f).
Definition get_node (d n : nat) : M mrapi_database mrapi_node_data :=
  let* dm := arr_get domains d in from_option_oob (d_nodes dm !! n).
Definition modify_node (d n : nat) (f : mrapi_node_data → mrapi_node_data) :
    M mrapi_database unit :=
  get_node d n;; modify (upd_node d n f).

(** [mrapi_db->domains[d].nodes[n].sems[s] = b;] *)
Definition log_sem_user (d n s : nat) (b : bool) : M mrapi_database unit :=
  let* nd := get_node d n in
  from_option_oob (n_sems nd !! s);;
  modify_node d n (λ x, x <| n_sems ::= <[s := b]> |>).

(** ** The limits as numerals, for [lia] *)

Lemma max_sems : MRAPI_MAX_SEMS = 128%nat.
Proof. reflexivity. Qed.
Lemma max_shared_locks : Z.of_nat MRAPI_MAX_SHARED_LOCKS = 32.
Proof. reflexivity. Qed.
Lemma max_requests : Z.of_nat MRAPI_MAX_REQUESTS = 1024.
Proof. reflexivity. Qed.
