(* ===== verification/MrapiDisplay.v ===== *)
(** Status display: [mrapi_impl_display_status] of
    [mrapi_impl_spec_body1.c], with the destination buffer of [size] bytes
    modelled, so that a [strcpy] past its end is visible. *)

From S2P Require Import Prelude MrapiTypes.
#[local] Open Scope string_scope.

(** The string of the [switch]; a status without a [case] takes the
    [default] branch. *)
Definition mrapi_status_name (st : mrapi_status) : string :=
  match st with
  | MRAPI_SUCCESS => "MRAPI_SUCCESS"
  | MRAPI_TIMEOUT => "MRAPI_TIMEOUT"
  | MRAPI_INCOMPLETE => "MRAPI_INCOMPLETE"
  | MRAPI_ERR_ATTR_NUM => "MRAPI_ERR_ATTR_NUM"
  | MRAPI_ERR_ATTR_READONLY => "MRAPI_ERR_ATTR_READONLY"
  | MRAPI_ERR_ATTR_SIZE => "MRAPI_ERR_ATTR_SIZE"
  | MRAPI_ERR_DOMAIN_INVALID => "MRAPI_ERR_DOMAIN_INVALID"
  | MRAPI_ERR_DOMAIN_NOTSHARED => "MRAPI_ERR_DOMAIN_NOTSHARED"
  | MRAPI_ERR_MEM_LIMIT => "MRAPI_ERR_MEM_LIMIT"
  | MRAPI_ERR_MUTEX_DELETED => "MRAPI_ERR_MUTEX_DELETED"
  | MRAPI_ERR_MUTEX_EXISTS => "MRAPI_ERR_MUTEX_EXISTS"
  | MRAPI_ERR_MUTEX_ID_INVALID => "MRAPI_ERR_MUTEX_ID_INVALID"
  | MRAPI_ERR_MUTEX_INVALID => "MRAPI_ERR_MUTEX_INVALID"
  | MRAPI_ERR_MUTEX_KEY => "MRAPI_ERR_MUTEX_KEY"
  | MRAPI_ERR_MUTEX_LIMIT => "MRAPI_ERR_MUTEX_LIMIT"
  | MRAPI_ERR_MUTEX_LOCKED => "MRAPI_ERR_MUTEX_LOCKED"
  | MRAPI_ERR_MUTEX_LOCKORDER => "MRAPI_ERR_MUTEX_LOCKORDER"
  | MRAPI_ERR_MUTEX_NOTLOCKED => "MRAPI_ERR_MUTEX_NOTLOCKED"
  | MRAPI_ERR_MUTEX_NOTVALID => "MRAPI_ERR_MUTEX_NOTVALID"
  | MRAPI_ERR_NODE_FINALFAILED => "MRAPI_ERR_NODE_FINALFAILED"
  | MRAPI_ERR_NODE_INITIALIZED => "MRAPI_ERR_NODE_INITIALIZED"
  | MRAPI_ERR_NODE_INVALID => "MRAPI_ERR_NODE_INVALID"
  | MRAPI_ERR_NODE_NOTINIT => "MRAPI_ERR_NODE_NOTINIT"
  | MRAPI_ERR_NOT_SUPPORTED => "MRAPI_ERR_NOT_SUPPORTED"
  | MRAPI_ERR_PARAMETER => "MRAPI_ERR_PARAMETER"
  | MRAPI_ERR_REQUEST_CANCELED => "MRAPI_ERR_REQUEST_CANCELED"
  | MRAPI_ERR_REQUEST_INVALID => "MRAPI_ERR_REQUEST_INVALID"
  | MRAPI_ERR_REQUEST_LIMIT => "MRAPI_ERR_REQUEST_LIMIT"
  | MRAPI_ERR_RMEM_ID_INVALID => "MRAPI_ERR_RMEMID_INVALID"
  | MRAPI_ERR_RMEM_ATTACH => "MRAPI_ERR_RMEM_ATTACH"
  | MRAPI_ERR_RMEM_ATTACHED => "MRAPI_ERR_RMEM_ATTACHED"
  | MRAPI_ERR_RMEM_ATYPE => "MRAPI_ERR_RMEM_ATYPE"
  | MRAPI_ERR_RMEM_ATYPE_NOTVALID => "MRAPI_ERR_RMEM_ATYPE_NOTVALID"
  | MRAPI_ERR_RMEM_BLOCKED => "MRAPI_ERR_RMEM_BLOCKED"
  | MRAPI_ERR_RMEM_BUFF_OVERRUN => "MRAPI_ERR_RMEM_BUFF_OVERRUN"
  | MRAPI_ERR_RMEM_CONFLICT => "MRAPI_ERR_RMEM_CONFLICT"
  | MRAPI_ERR_RMEM_EXISTS => "MRAPI_ERR_RMEM_EXISTS"
  | MRAPI_ERR_RMEM_INVALID => "MRAPI_ERR_RMEM_INVALID"
  | MRAPI_ERR_RMEM_NOTATTACHED => "MRAPI_ERR_RMEM_NOTATTACHED"
  | MRAPI_ERR_RMEM_NOTOWNER => "MRAPI_ERR_RMEM_NOTOWNER"
  | MRAPI_ERR_RMEM_STRIDE => "MRAPI_ERR_RMEM_STRIDE"
  | MRAPI_ERR_RMEM_TYPENOTVALID => "MRAPI_ERR_RMEM_TYPENOTVALID"
  | MRAPI_ERR_RSRC_COUNTER_INUSE => "MRAPI_ERR_RSRC_COUNTER_INUSE"
  | MRAPI_ERR_RSRC_INVALID => "MRAPI_ERR_RSRC_INVALID"
  | MRAPI_ERR_RSRC_INVALID_CALLBACK => "MRAPI_ERR_RSRC_INVALID_CALLBACK"
  | MRAPI_ERR_RSRC_INVALID_EVENT => "MRAPI_ERR_RSRC_INVALID_EVENT"
  | MRAPI_ERR_RSRC_INVALID_SUBSYSTEM => "MRAPI_ERR_RSRC_INVALID_SUBSYSTEM"
  | MRAPI_ERR_RSRC_INVALID_TREE => "MRAPI_ERR_RSRC_INVALID_TREE"
  | MRAPI_ERR_RSRC_NOTDYNAMIC => "MRAPI_ERR_RSRC_NOTDYNAMIC"
  | MRAPI_ERR_RSRC_NOTOWNER => "MRAPI_ERR_RSRC_NOTOWNER"
  | MRAPI_ERR_RSRC_NOTSTARTED => "MRAPI_ERR_RSRC_NOTSTARTED"
  | MRAPI_ERR_RSRC_STARTED => "MRAPI_ERR_RSRC_STARTED"
  | MRAPI_ERR_RWL_DELETED => "MRAPI_ERR_RWL_DELETED"
  | MRAPI_ERR_RWL_EXISTS => "MRAPI_ERR_RWL_EXISTS"
  | MRAPI_ERR_RWL_ID_INVALID => "MRAPI_ERR_RWL_ID_INVALID"
  | MRAPI_ERR_RWL_INVALID => "MRAPI_ERR_RWL_INVALID"
  | MRAPI_ERR_RWL_LIMIT => "MRAPI_ERR_RWL_LIMIT"
  | MRAPI_ERR_RWL_LOCKED => "MRAPI_ERR_RWL_LOCKED"
  | MRAPI_ERR_RWL_NOTLOCKED => "MRAPI_ERR_RWL_NOTLOCKED"
  | MRAPI_ERR_SEM_DELETED => "MRAPI_ERR_SEM_DELETED"
  | MRAPI_ERR_SEM_EXISTS => "MRAPI_ERR_SEM_EXISTS"
  | MRAPI_ERR_SEM_ID_INVALID => "MRAPI_ERR_SEM_ID_INVALID"
  | MRAPI_ERR_SEM_INVALID => "MRAPI_ERR_SEM_INVALID"
  | MRAPI_ERR_SEM_LIMIT => "MRAPI_ERR_SEM_LIMIT"
  | MRAPI_ERR_SEM_LOCKED => "MRAPI_ERR_SEM_LOCKED"
  | MRAPI_ERR_SEM_LOCKLIMIT => "MRAPI_ERR_SEM_LOCKLIMIT"
  | MRAPI_ERR_SEM_NOTLOCKED => "MRAPI_ERR_SEM_NOTLOCKED"
  | MRAPI_ERR_SHM_ATTACHED => "MRAPI_ERR_SHMEM_ATTACHED"
  | MRAPI_ERR_SHM_ATTCH => "MRAPI_ERR_SHMEM_ATTCH"
  | MRAPI_ERR_SHM_EXISTS => "MRAPI_ERR_SHMEM_EXISTS"
  | MRAPI_ERR_SHM_ID_INVALID => "MRAPI_ERR_SHMEM_ID_INVALID"
  | MRAPI_ERR_SHM_INVALID => "MRAPI_ERR_SHM_INVALID"
  | MRAPI_ERR_SHM_NODES_INCOMPAT => "MRAPI_ERR_SHM_NODES_INCOMPAT"
  | MRAPI_ERR_SHM_NODE_NOTSHARED => "MRAPI_ERR_SHM_NODE_NOTSHARED"
  | MRAPI_ERR_SHM_NOTATTACHED => "MRAPI_ERR_SHM_NOTATTACHED"
  | _ => "UNKNOWN ERROR"
  end.

(** ** The destination buffer *)

#[local] Close Scope string_scope.

Definition nul : Ascii.ascii := Ascii.zero.

(** [strcpy(dst, s)]: the characters and a terminating NUL. *)
Definition strcpy (dst : list Ascii.ascii) (s : string) : result (list Ascii.ascii) :=
  let cs := String.list_ascii_of_string s in
  if (length dst <? length cs + 1)%nat then Fault OutOfBounds
  else Done (cs ++ [nul] ++ drop (length cs + 1) dst).

(** The string a reader of the buffer sees. *)
Fixpoint c_string (buf : list Ascii.ascii) : list Ascii.ascii :=
  match buf with
  | [] => []
  | a :: buf => if bool_decide (a = nul) then [] else a :: c_string buf
  end.

(** [None]: [status_message] is [NULL].  Returns the buffer after the call. *)
Definition mrapi_impl_display_status (status : mrapi_status)
    (status_message : option (list Ascii.ascii)) (size : Z) :
    result (option (list Ascii.ascii)) :=
  match status_message with
  | None => Done None
  | Some buf =>
      if size <? MRAPI_MAX_STATUS_SIZE then Done (Some buf)
      else if Z.of_nat (length buf) <? size then Fault OutOfBounds
      else
        let buf := replicate (Z.to_nat size) nul ++ drop (Z.to_nat size) buf in
        match strcpy buf (mrapi_status_name status) with
        | Done buf => Done (Some buf)
        | Fault f => Fault f
        end
  end.

Definition mrapi_display_status (status : mrapi_status)
    (status_message : option (list Ascii.ascii)) (size : Z) :
    result (option (list Ascii.ascii)) :=
  mrapi_impl_display_status status status_message size.

(** ** What the display functions guarantee *)

Lemma c_string_app cs rest : Forall (λ a, a ≠ nul) cs → c_string (cs ++ nul :: rest) = cs.
Proof.
  induction 1 as [|a cs Ha Hcs IH]; cbn; [done|].
  by rewrite bool_decide_eq_false_2, IH.
Qed.
Definition name_ok (st : mrapi_status) : bool :=
  forallb (λ a, bool_decide (a ≠ nul)) (String.list_ascii_of_string (mrapi_status_name st)) &&
  (length (String.list_ascii_of_string (mrapi_status_name st)) <=? 32)%nat &&
  (bool_decide (st = MRAPI_ERR_RSRC_INVALID_SUBSYSTEM) ||
   (length (String.list_ascii_of_string (mrapi_status_name st)) <? 32)%nat).
Lemma all_names_ok st : name_ok st = true.
Proof. by destruct st. Qed.

Lemma name_facts st :
  let cs := String.list_ascii_of_string (mrapi_status_name st) in
  Forall (λ a, a ≠ nul) cs ∧ (length cs <= 32)%nat ∧
  (st ≠ MRAPI_ERR_RSRC_INVALID_SUBSYSTEM → (length cs < 32)%nat).
Proof.
  pose proof (all_names_ok st) as H. unfold name_ok in H.
  rewrite !andb_true_iff, orb_true_iff, Nat.leb_le, Nat.ltb_lt, bool_decide_eq_true in H.
  destruct H as [[Hn Hl] Hs]. split; [|split; [done|by destruct Hs]].
  apply Forall_forall. intros a Ha. apply list_elem_of_In in Ha.
  rewrite forallb_forall in Hn. by apply Hn, bool_decide_eq_true in Ha.
Qed.

(** Displaying a status.  Into a buffer of [size >= 32] bytes, as the
    function demands, [mrapi_display_status] writes a NUL-terminated string
    that is the status's name and stays inside the buffer, with one
    exception: the 32 characters of MRAPI_ERR_RSRC_INVALID_SUBSYSTEM and
    their NUL do not fit a buffer of exactly 32 bytes. *)
Theorem display_status_fits st buf size :
  Z.of_nat (length buf) = size → 32 <= size →
  match mrapi_display_status st (Some buf) size with
  | Done (Some buf') =>
      c_string buf' = String.list_ascii_of_string (mrapi_status_name st) ∧
      length buf' = length buf
  | Done None => False
  | Fault f => f = OutOfBounds ∧ st = MRAPI_ERR_RSRC_INVALID_SUBSYSTEM ∧ size = 32
  end.
Proof.
  intros Hb Hs. unfold mrapi_display_status, mrapi_impl_display_status, MRAPI_MAX_STATUS_SIZE.
  destruct (Z.ltb_spec size 32); [lia|]. destruct (Z.ltb_spec (Z.of_nat (length buf)) size); [lia|].
  destruct (name_facts st) as (Hn & Hl & Hl'). unfold strcpy.
  set (cs := String.list_ascii_of_string _) in *.
  rewrite length_app, length_replicate, length_drop.
  destruct (Nat.ltb_spec (Z.to_nat size + (length buf - Z.to_nat size)) (length cs + 1)).
  - split; [done|]. destruct (decide (st = MRAPI_ERR_RSRC_INVALID_SUBSYSTEM)); [split; [done|lia]|].
    specialize (Hl' n). lia.
  - split; [by apply c_string_app|].
    rewrite !length_app, length_drop, length_app, length_replicate, length_drop. cbn. lia.
Qed.
Lemma display_status_fits_witness :
  match mrapi_display_status MRAPI_ERR_MUTEX_LOCKED (Some (replicate 32 nul)) 32 with
  | Done (Some buf') =>
      c_string buf' = String.list_ascii_of_string (mrapi_status_name MRAPI_ERR_MUTEX_LOCKED) ∧
      length buf' = length (replicate 32 nul)
  | Done None => False
  | Fault f => f = OutOfBounds ∧ MRAPI_ERR_MUTEX_LOCKED = MRAPI_ERR_RSRC_INVALID_SUBSYSTEM ∧ 32 = 32
  end.
Proof.
  apply (display_status_fits MRAPI_ERR_MUTEX_LOCKED (replicate 32 nul) 32); [reflexivity|lia].
Defined.

Example display_overflows_minimal_buffer :
  mrapi_display_status MRAPI_ERR_RSRC_INVALID_SUBSYSTEM (Some (replicate 32 nul)) 32
  = Fault OutOfBounds.
Proof. vm_compute. reflexivity. Qed.
Example display_initfailed_unknown :
  mrapi_status_name MRAPI_ERR_NODE_INITFAILED = "UNKNOWN ERROR"%string.
Proof. reflexivity. Qed.
