(* ===== verification/MrapiHandles.v ===== *)
(** Handles, the caller's identity and the asynchronous requests: the shared
    helpers of [mrapi_impl_spec_body1.c].

    [mrapi_impl_encode_hndl] / [mrapi_impl_decode_hndl] turn a database index
    into a 32-bit handle and back; the [valid_*_hndl] functions are the checks
    the API layer makes before it calls an operation; [mrapi_impl_whoami]
    identifies the caller; the request functions keep the array of
    outstanding non-blocking operations. *)

From S2P Require Import Prelude MrapiTypes.

(** ** Handles *)

Definition mrapi_impl_encode_hndl (type_index : Z) : Z :=
  let valid := 0x80000000 in Z.lor valid (u16 type_index).

(** Returns the index and whether the valid bit is set. *)
Definition mrapi_impl_decode_hndl (handle : Z) : nat * bool :=
  let valid := 0x80000000 in
  let type_index := Z.land handle 0x000000ff in
  (Z.to_nat type_index, Z.land handle valid =? valid).

(** ** Identity of the caller *)

(** [(node_id, n_index, domain_id, d_index)], or [None] for [MRAPI_FALSE]. *)
Definition mrapi_impl_whoami (c : caller) : option (Z * nat * Z * nat) :=
  if negb (c_attached c) then None
  else if c_pid c =? -1 then None
  else Some (c_node_id c, c_nindex c, c_domain_id c, c_dindex c).

(** [mrapi_assert(mrapi_impl_whoami(...))], as most operations call it:
    the node index and the domain index. *)
Definition assert_whoami {S} (c : caller) : M S (nat * nat) :=
  match mrapi_impl_whoami c with
  | Some (_, n, _, d) => ret (n, d)
  | None => raise AssertFailed
  end.

Definition mrapi_impl_initialized (c : caller) : bool :=
  match mrapi_impl_whoami c with Some _ => true | None => false end.

Definition mrapi_impl_get_node_num (c : caller) : option Z :=
  match mrapi_impl_whoami c with
  | Some (node, _, _, _) => Some node
  | None => None
  end.

Definition mrapi_impl_get_domain_num (c : caller) : option Z :=
  match mrapi_impl_whoami c with
  | Some (_, _, domain, _) => Some domain
  | None => None
  end.

Definition mrapi_impl_node_id_get (c : caller) : Z * mrapi_status :=
  if negb (mrapi_impl_initialized c) then
    (MRAPI_NODE_INVALID, MRAPI_ERR_NODE_NOTINIT)
  else match mrapi_impl_get_node_num c with
       | Some node => (node, MRAPI_SUCCESS)
       | None => (MRAPI_NODE_INVALID, MRAPI_ERR_NODE_NOTINIT)
       end.

(** ** Parameter checks that always succeed in this implementation *)

Definition mrapi_impl_mutex_validID (mutex : Z) : bool := true.
Definition mrapi_impl_sem_validID (sem : Z) : bool := true.
Definition mrapi_impl_rwl_validID (rwl : Z) : bool := true.
Definition mrapi_impl_shmem_validID (shmem : Z) : bool := true.
Definition mrapi_impl_rmem_validID (rmem : Z) : bool := true.
Definition mrapi_impl_valid_node_num (node_num : Z) : bool := true.
Definition mrapi_impl_valid_domain_num (domain_num : Z) : bool := true.

(** ** Handles of locks, shared and remote memory *)

Definition deleted_status (t : lock_type) : mrapi_status :=
  match t with
  | MUTEX => MRAPI_ERR_MUTEX_DELETED
  | SEM => MRAPI_ERR_SEM_DELETED
  | RWL => MRAPI_ERR_RWL_DELETED
  end.

Definition mrapi_impl_valid_lock_hndl (sem : Z) (status : mrapi_status) :
    M mrapi_database (bool * mrapi_status) :=
  let '(s, valid) := mrapi_impl_decode_hndl sem in
  if negb valid || (MRAPI_MAX_SEMS <=? s)%nat then ret (false, status)
  else
    let* sm := get_sem s in
    if s_valid sm then ret (true, status)
    else
      (* is it a deleted sem that had extended error checking set? *)
      let* db := get in
      let* d := lift (c_scan (λ x, s_deleted x && (s_handle x =? sem))
                        (sems db) MRAPI_MAX_SEMS 0) in
      if (d <? MRAPI_MAX_SEMS)%nat then
        let* x := get_sem d in ret (false, deleted_status (s_type x))
      else ret (false, status).

Definition mrapi_impl_valid_mutex_hndl (mutex : Z) :
    M mrapi_database (bool * mrapi_status) :=
  let* (ok, status) := mrapi_impl_valid_lock_hndl mutex MRAPI_ERR_MUTEX_INVALID in
  if (ok : bool) then ret (true, MRAPI_SUCCESS) else ret (false, status).

Definition mrapi_impl_valid_rwl_hndl (rwl : Z) :
    M mrapi_database (bool * mrapi_status) :=
  let* (ok, status) := mrapi_impl_valid_lock_hndl rwl MRAPI_ERR_RWL_INVALID in
  if (ok : bool) then ret (true, MRAPI_SUCCESS) else ret (false, status).

Definition mrapi_impl_valid_sem_hndl (sem : Z) :
    M mrapi_database (bool * mrapi_status) :=
  let* (ok, status) := mrapi_impl_valid_lock_hndl sem MRAPI_ERR_SEM_INVALID in
  if (ok : bool) then ret (true, MRAPI_SUCCESS) else ret (false, status).

Definition mrapi_impl_valid_shmem_hndl (shmem : Z) : M mrapi_database bool :=
  let '(s, valid) := mrapi_impl_decode_hndl shmem in
  if negb valid || (MRAPI_MAX_SHMEMS <=? s)%nat then ret false
  else let* x := arr_get shmems s in ret (sh_valid x).

Definition mrapi_impl_valid_rmem_hndl (rmem : Z) : M mrapi_database bool :=
  let '(r, valid) := mrapi_impl_decode_hndl rmem in
  if valid && (r <? MRAPI_MAX_RMEMS)%nat then
    let* x := arr_get rmems r in ret (rm_valid x)
  else ret false.

(** ** Asynchronous requests *)

Definition upd_request (i : nat) (f : mrapi_request_data → mrapi_request_data)
    (db : mrapi_database) : mrapi_database :=
  db <| requests ::= alter f i |>.
Definition modify_request (i : nat) (f : mrapi_request_data → mrapi_request_data) :
    M mrapi_database unit :=
  arr_get requests i;; modify (upd_request i f).

(** The index into the requests array; running out of entries is an
    assertion failure. *)
Definition mrapi_impl_setup_request (c : caller) : M mrapi_database nat :=
  let* i :=
    match mrapi_impl_whoami c with
    | Some (node, _, domain, _) =>
        let* db := get in
        let* i := lift (c_scan (λ x, negb (rq_valid x)) (requests db)
                          MRAPI_MAX_REQUESTS 0) in
        if (i <? MRAPI_MAX_REQUESTS)%nat then
          modify_request i (λ x, x <| rq_valid := true |>
            <| rq_domain_id := domain |> <| rq_node_num := node |>
            <| rq_cancelled := false |>);;
          ret i
        else ret i
    | None => ret 0%nat
    end in
  c_assert (i <? MRAPI_MAX_REQUESTS)%nat;;
  ret i.

(** [mrapi_impl_test]: [true] and the request's status, and the entry is
    recycled; anything but a valid completed request fails the assertion. *)
Definition mrapi_impl_test (request : Z) : M mrapi_database (bool * mrapi_status) :=
  let '(r, valid) := mrapi_impl_decode_hndl request in
  if valid && (r <? MRAPI_MAX_REQUESTS)%nat then
    let* x := arr_get requests r in
    if rq_valid x && rq_completed x then
      modify_request r (λ _, zero_request);;
      ret (true, rq_status x)
    else raise AssertFailed
  else raise AssertFailed.

Definition mrapi_impl_canceled_request (request : Z) : M mrapi_database bool :=
  let '(r, valid) := mrapi_impl_decode_hndl request in
  if valid && (r <? MRAPI_MAX_REQUESTS)%nat then
    let* x := arr_get requests r in ret (rq_valid x && rq_cancelled x)
  else ret false.

Definition mrapi_impl_valid_request_hndl (request : Z) : M mrapi_database bool :=
  let '(r, valid) := mrapi_impl_decode_hndl request in
  if valid && (r <? MRAPI_MAX_REQUESTS)%nat then
    let* x := arr_get requests r in ret (rq_valid x)
  else ret false.

(** ** Handles: lemmas *)

Lemma decode_encode i :
  0 <= i → mrapi_impl_decode_hndl (mrapi_impl_encode_hndl i) = (Z.to_nat (i mod 256), true).
Proof.
  intros Hi. unfold mrapi_impl_decode_hndl, mrapi_impl_encode_hndl. f_equal.
  - f_equal. rewrite Z.land_lor_distr_l. change (Z.land 0x80000000 0xff) with 0.
    rewrite Z.lor_0_l. change 0xff with (Z.ones 8). rewrite Z.land_ones by lia.
    unfold u16. change (2 ^ 16) with (256 * 256). change (2 ^ 8) with 256.
    rewrite Z.rem_mul_r by lia. rewrite Z.mul_comm, Z_mod_plus_full.
    apply Z.mod_mod. lia.
  - apply Z.eqb_eq, Z.bits_inj'. intros k Hk.
    rewrite Z.land_spec, Z.lor_spec. by destruct (Z.testbit 0x80000000 k), (Z.testbit _ k).
Qed.
Lemma decode_encode_small i :
  (i < 256)%nat → mrapi_impl_decode_hndl (mrapi_impl_encode_hndl (Z.of_nat i)) = (i, true).
Proof.
  intros Hi. rewrite decode_encode, Z.mod_small, Nat2Z.id by lia. done.
Qed.
Lemma decode_sem s :
  (s < MRAPI_MAX_SEMS)%nat →
  mrapi_impl_decode_hndl (mrapi_impl_encode_hndl (Z.of_nat s)) = (s, true).
Proof. rewrite max_sems. intros. apply decode_encode_small. lia. Qed.
Lemma decode_bound h i b : mrapi_impl_decode_hndl h = (i, b) → (i < 256)%nat.
Proof.
  unfold mrapi_impl_decode_hndl. intros [= <- _]. change 0xff with (Z.ones 8).
  rewrite Z.land_ones by lia. pose proof (Z.mod_pos_bound h (2 ^ 8)). lia.
Qed.
Lemma encode_inj i j :
  0 <= i < 65536 → 0 <= j < 65536 →
  mrapi_impl_encode_hndl i = mrapi_impl_encode_hndl j → i = j.
Proof.
  intros Hi Hj. unfold mrapi_impl_encode_hndl. rewrite !u16_small by lia. intros He.
  assert (∀ k, 0 <= k < 65536 → Z.land (Z.lor 0x80000000 k) (Z.ones 16) = k) as Hk.
  { intros k Hk. rewrite Z.land_lor_distr_l. change (Z.land 0x80000000 (Z.ones 16)) with 0.
    rewrite Z.lor_0_l, Z.land_ones by lia. apply Z.mod_small. lia. }
  rewrite <- (Hk i), <- (Hk j), He by lia. done.
Qed.
