(* ===== verification/MrapiNodes.v ===== *)
(** The life of a node: [mrapi_impl_spec_initialize.c],
    [mrapi_impl_spec_finalize.c] and [mrapi_initialize.c].

    A node is an entry of [mrapi_db->domains[d].nodes]; initialization finds
    or claims an entry and caches the identity in thread-local storage (the
    [caller] record), finalization gives the entry back and drops the
    references the node held.  The operating system services the code calls
    (process identity, shared memory segments) are the record [os]. *)

From S2P Require Import Prelude MrapiTypes MrapiHandles.

Record os := mk_os {
  os_pid : Z;
  os_tid : Z;
  os_db_attach_ok : bool;         (* the database segment could be attached *)
  os_db_sem_ok : bool;            (* the global semaphore could be taken *)
  os_db_shmemid : Z;
  os_shmem_create : Z → Z → Z;    (* key, size: the id, or -1 *)
  os_shmem_attach : Z → Z;        (* id: the address, or 0 *)
  os_shmem_detach : Z → bool;
  os_shmem_delete : Z → bool }.

(** ** Finalize *)

(** The result of the [sys_shmem_*] calls is or-ed into a [rc] that starts as
    [MRAPI_TRUE], so the function returns [true]. *)
Definition mrapi_impl_finalize_node_locked (o : os) (d n : nat) :
    M mrapi_database bool :=
  (* mark the node as finalized *)
  modify_node d n (λ x, x <| n_valid := false |>);;
  (* decrement the shmem reference count if necessary *)
  c_for MRAPI_MAX_SHMEMS 0 (λ shmem,
    let* x := arr_get shmems shmem in
    if sh_valid x then
      let* nd := get_node d n in
      let* user := from_option_oob (n_shmems nd !! shmem) in
      (if (user : bool) then
         modify (λ db, db <| shmems ::=
           alter (λ x, x <| sh_refs ::= λ r, u8 (r - 1) |>) shmem |>)
       else ret tt)
      (* if the reference count is 0 the segment is detached and deleted;
         the database entry is not changed by that *)
    else ret tt);;
  (* decrement the sem reference count if necessary *)
  c_for MRAPI_MAX_SEMS 0 (λ sem,
    let* x := get_sem sem in
    if s_valid x then
      let* nd := get_node d n in
      let* user := from_option_oob (n_sems nd !! sem) in
      (if (user : bool) then
         log_sem_user d n sem false;;
         modify_sem sem (λ x, x <| s_refs ::= λ r, u8 (r - 1) |>)
       else ret tt);;
      let* x := get_sem sem in
      if s_refs x =? 0 then modify_sem sem (λ x, x <| s_valid := false |>)
      else ret tt
    else ret tt);;
  ret true.

(** The number of valid nodes that satisfy a test. *)
Definition count_nodes (p : mrapi_node_data → bool) (db : mrapi_database) : Z :=
  countb (λ x, n_valid x && p x) (mjoin (d_nodes <$> domains db)).

(** Returns [last_man_standing] and the process's view after the call:
    detached when no node of this process is left. *)
Definition mrapi_impl_free_resources (o : os) (c : caller) (panic : bool) :
    M mrapi_database (bool * caller) :=
  if negb (c_attached c) then ret (true, c)
  else
    (* finalize this node *)
    match mrapi_impl_whoami c with
    | Some (_, n, _, d) => mrapi_impl_finalize_node_locked o d n;; ret tt
    | None => ret tt
    end;;
    (* if we are in panic mode, then forcefully finalize all other nodes that
       belong to this process *)
    (if panic then
       c_for MRAPI_MAX_DOMAINS 0 (λ d, c_for MRAPI_MAX_NODES 0 (λ n,
         let* nd := get_node d n in
         if n_valid nd && (n_pid nd =? os_pid o) then
           mrapi_impl_finalize_node_locked o d n;; ret tt
         else ret tt))
     else ret tt);;
    let* db := get in
    let last_man_standing := count_nodes (λ _, true) db =? 0 in
    let last_man_standing_for_this_process :=
      count_nodes (λ x, n_pid x =? os_pid o) db =? 0 in
    c_assert (negb panic || last_man_standing_for_this_process);;
    (* the last node frees the shared memory: the next node to attach finds a
       zero-filled segment *)
    (if last_man_standing && os_shmem_delete o (os_db_shmemid o)
     then modify (λ _, zero_db) else ret tt);;
    ret (last_man_standing,
         if last_man_standing_for_this_process
         then c <| c_attached := false |> else c).

Definition mrapi_impl_finalize (o : os) (c : caller) :
    M mrapi_database (bool * caller) :=
  let* (_, c) := mrapi_impl_free_resources o c false in ret (true, c).

(** ** Initialize *)

(** The domain's index and the node's index, or the reason there is none:
    [Some status] when [*status] is assigned. *)
Definition find_node_slot (domain_id node_id : Z) (db : mrapi_database) :
    result (option (nat * nat) * option mrapi_status) :=
  (* first see if this domain already exists *)
  match c_scan (λ x, d_domain_id x =? domain_id) (domains db) MRAPI_MAX_DOMAINS 0 with
  | Fault f => Fault f
  | Done d1 =>
      match
        (if (d1 =? MRAPI_MAX_DOMAINS)%nat
         then (* it didn't exist so find the first available entry *)
           c_scan (λ x, negb (d_valid x)) (domains db) MRAPI_MAX_DOMAINS 0
         else Done d1)
      with
      | Fault f => Fault f
      | Done d =>
          match domains db !! d with
          | None => (* You have hit MRAPI_MAX_DOMAINS *) Done (None, None)
          | Some dm =>
              match c_scan (λ x, n_valid x && (n_node_num x =? node_id))
                      (d_nodes dm) MRAPI_MAX_NODES 0 with
              | Fault f => Fault f
              | Done n1 =>
                  if negb (n1 =? MRAPI_MAX_NODES)%nat
                  then (* this node already exists for this domain *)
                    Done (None, Some MRAPI_ERR_NODE_INITFAILED)
                  else
                    match c_scan (λ x, negb (n_valid x)) (d_nodes dm)
                            MRAPI_MAX_NODES 0 with
                    | Fault f => Fault f
                    | Done n =>
                        if (n =? MRAPI_MAX_NODES)%nat
                        then (* You have hit MRAPI_MAX_NODES *) Done (None, None)
                        else Done (Some (d, n), None)
                    end
              end
          end
      end
  end.

(** Returns [(rc, the caller's new identity, *status)]. *)
Definition mrapi_impl_initialize (o : os) (c : caller) (domain_id node_id : Z)
    (status : mrapi_status) : M mrapi_database (bool * caller * mrapi_status) :=
  let c := c <| c_attached := c_attached c || os_db_attach_ok o |> in
  if negb (c_attached c && os_db_sem_ok o) then ret (false, c, status)
  else
    let* db := get in
    let* (slot, status') := lift (find_node_slot domain_id node_id db) in
    let status := default status status' in
    match slot with
    | None => ret (false, c, status)
    | Some (d, n) =>
        let* nd := get_node d n in
        c_assert (negb (n_valid nd));;
        modify (λ db, db <| domains ::= alter (λ x, x
          <| d_domain_id := domain_id |> <| d_valid := true |>
          <| d_num_nodes ::= λ k, u8 (k + 1) |>) d |>);;
        modify_node d n (λ x, x <| n_valid := true |> <| n_node_num := node_id |>);;
        modify (λ db, db <| rollover_index := 0 |>);;
        let c := c <| c_pid := os_pid o |> <| c_tid := os_tid o |>
                   <| c_nindex := n |> <| c_dindex := d |>
                   <| c_domain_id := domain_id |> <| c_node_id := node_id |> in
        modify_node d n (λ x, x <| n_pid := os_pid o |> <| n_tid := os_tid o |>);;
        ret (true, c, status)
    end.

(** ** The public functions *)

(** [info_null]: the [mrapi_info] pointer is [NULL]. *)
Definition mrapi_initialize (o : os) (c : caller) (domain_id node_id : Z)
    (info_null : bool) : M mrapi_database (caller * mrapi_status) :=
  if info_null then ret (c, MRAPI_ERR_PARAMETER)
  else if negb (mrapi_impl_valid_node_num node_id) then ret (c, MRAPI_ERR_NODE_INVALID)
  else if negb (mrapi_impl_valid_domain_num domain_id) then
    ret (c, MRAPI_ERR_DOMAIN_INVALID)
  else if mrapi_impl_initialized c then ret (c, MRAPI_ERR_NODE_INITIALIZED)
  else
    let* (ok, c, status) :=
      mrapi_impl_initialize o c domain_id node_id MRAPI_ERR_NODE_INITFAILED in
    ret (c, if (ok : bool) then MRAPI_SUCCESS else status).

Definition mrapi_finalize (o : os) (c : caller) :
    M mrapi_database (caller * mrapi_status) :=
  if negb (mrapi_impl_initialized c) then ret (c, MRAPI_ERR_NODE_NOTINIT)
  else
    let* (ok, c) := mrapi_impl_finalize o c in
    ret (c, if (ok : bool) then MRAPI_SUCCESS else MRAPI_ERR_NODE_FINALFAILED).

Definition mrapi_domain_id_get (c : caller) : Z * mrapi_status :=
  match mrapi_impl_get_domain_num c with
  | Some domain => (domain, MRAPI_SUCCESS)
  | None => (MRAPI_DOMAIN_INVALID, MRAPI_ERR_NODE_NOTINIT)
  end.

Definition mrapi_node_id_get (c : caller) : Z * mrapi_status :=
  mrapi_impl_node_id_get c.
