(* ===== verification/MrapiLocks.v ===== *)
(** Locks: [mrapi_impl_spec_sem.c].

    Mutexes, semaphores and reader-writer locks are entries of
    [mrapi_db->sems]; an entry has [shared_lock_limit] slots, each free or
    locked by a node.  Every function body below runs between
    [mrapi_impl_access_database_pre] and [..._post], so it is one atomic step
    on the database; the blocking [mrapi_impl_sem_lock] releases the database
    at each [mrapi_impl_yield_locked], where [yield k] stands for whatever
    the other nodes do to the database at the [k]-th yield. *)

From S2P Require Import Prelude MrapiTypes MrapiHandles.

(** ** Status codes chosen by lock type *)

Definition exists_status (t : lock_type) : mrapi_status :=
  match t with
  | RWL => MRAPI_ERR_RWL_EXISTS
  | SEM => MRAPI_ERR_SEM_EXISTS
  | MUTEX => MRAPI_ERR_MUTEX_EXISTS
  end.
Definition locked_status (t : lock_type) : mrapi_status :=
  match t with
  | RWL => MRAPI_ERR_RWL_LOCKED
  | SEM => MRAPI_ERR_SEM_LOCKED
  | MUTEX => MRAPI_ERR_MUTEX_LOCKED
  end.
Definition invalid_status (t : lock_type) : mrapi_status :=
  match t with
  | RWL => MRAPI_ERR_RWL_INVALID
  | SEM => MRAPI_ERR_SEM_INVALID
  | MUTEX => MRAPI_ERR_MUTEX_INVALID
  end.
Definition notlocked_status (t : lock_type) : mrapi_status :=
  match t with
  | RWL => MRAPI_ERR_RWL_NOTLOCKED
  | SEM => MRAPI_ERR_SEM_NOTLOCKED
  | MUTEX => MRAPI_ERR_MUTEX_NOTLOCKED
  end.

(** ** Slots *)

(** The slot is locked by the node with these indices. *)
Definition is_mine (n d : nat) (lk : mrapi_lock_t) : bool :=
  lk_valid lk && lk_locked lk && (lk_holder_nindex lk =? Z.of_nat n)
  && (lk_holder_dindex lk =? Z.of_nat d).
Definition is_free (lk : mrapi_lock_t) : bool := lk_valid lk && negb (lk_locked lk).

(** ** Get *)

Definition mrapi_impl_sem_get (c : caller) (key : Z) : M mrapi_database (bool * Z) :=
  let* (n, d) := assert_whoami c in
  let* db := get in
  (* now look for the semkey *)
  let* s := lift (c_scan (λ x, s_key x =? key) (sems db) MRAPI_MAX_SEMS 0) in
  let* rc :=
    if (s <? MRAPI_MAX_SEMS)%nat then
      let* nd := get_node d n in
      let* logged := from_option_oob (n_sems nd !! s) in
      if (logged : bool) then ret true
      else
        log_sem_user d n s true;;
        modify_sem s (λ x, x <| s_refs ::= λ r, u8 (r + 1) |>);;
        ret true
    else ret false in
  ret (rc, mrapi_impl_encode_hndl (Z.of_nat s)).

(** ** Create *)

(** [for (l = 0; l < shared_lock_limit; l++) locks[l].valid = MRAPI_TRUE;] *)
Fixpoint set_locks_valid (k l : nat) (ls : list mrapi_lock_t) :
    result (list mrapi_lock_t) :=
  match k with
  | O => Done ls
  | S k' =>
      match ls !! l with
      | None => Fault OutOfBounds
      | Some x => set_locks_valid k' (S l) (<[l := x <| lk_valid := true |>]> ls)
      end
  end.
#[global] Arguments set_locks_valid : simpl never.

(** Returns [(rc, *sem, *mrapi_status)]. *)
Definition mrapi_impl_create_lock_locked (c : caller) (sem : Z) (key : Z)
    (shared_lock_limit : Z) (t : lock_type) (mrapi_status : mrapi_status) :
    M mrapi_database (bool * Z * MrapiTypes.mrapi_status) :=
  let* (n, d) := assert_whoami c in
  let* db := get in
  let any := MRAPI_SEM_ID_ANY =? u32 key in
  (* make sure the semaphore doesn't already exist *)
  let* s := if any then ret MRAPI_MAX_SEMS
            else lift (c_scan (λ x, s_valid x && (s_key x =? key)) (sems db)
                         MRAPI_MAX_SEMS 0) in
  if negb (s =? MRAPI_MAX_SEMS)%nat then ret (false, sem, exists_status t)
  else
    let* s := lift (c_scan (λ x, negb (s_valid x) && negb (s_deleted x))
                      (sems db) MRAPI_MAX_SEMS 0) in
    if (s <? MRAPI_MAX_SEMS)%nat then
      modify_sem s (λ _, zero_sem);;
      let key := if any then c_sem_addr c s else key in
      modify_sem s (λ x, x <| s_key := key |>);;
      log_sem_user d n s true;;
      modify_sem s (λ x, x <| s_refs ::= λ r, u8 (r + 1) |> <| s_valid := true |>
        <| s_shared_lock_limit := i32 shared_lock_limit |> <| s_type := t |>);;
      modify (λ db, db <| num_sems ::= λ k, u8 (k + 1) |>);;
      let* x := get_sem s in
      let* ls := lift (set_locks_valid (Z.to_nat (u32 shared_lock_limit)) 0
                         (s_locks x)) in
      let sem := mrapi_impl_encode_hndl (Z.of_nat s) in
      modify_sem s (λ x, x <| s_locks := ls |> <| s_handle := sem |>);;
      ret (true, sem, mrapi_status)
    else ret (false, sem, mrapi_status).

Definition mrapi_impl_sem_create (c : caller) (sem : Z) (key : Z)
    (attributes : option mrapi_impl_attributes_t) (shared_lock_limit : Z) :
    M mrapi_database (bool * Z * mrapi_status) :=
  let* (ok, hndl, status) :=
    mrapi_impl_create_lock_locked c sem key shared_lock_limit SEM
      MRAPI_ERR_SEM_LIMIT in
  if (ok : bool) then
    let '(s, valid) := mrapi_impl_decode_hndl hndl in
    c_assert valid;;
    modify_sem s (λ x, x <| s_type := SEM |>);;
    match attributes with
    | Some a =>
        modify_sem s (λ x, x <| s_attributes ::= λ at_,
          at_ <| ext_error_checking := ext_error_checking a |>
              <| shared_across_domains := shared_across_domains a |> |>)
    | None =>
        modify_sem s (λ x, x <| s_attributes ::= λ at_,
          at_ <| ext_error_checking := MRAPI_FALSE |>
              <| shared_across_domains := MRAPI_TRUE |> |>)
    end;;
    ret (true, hndl, status)
  else ret (false, hndl, status).

(** ** Attributes *)

Definition mrapi_impl_sem_init_attributes (a : mrapi_impl_attributes_t) :
    mrapi_impl_attributes_t :=
  a <| ext_error_checking := MRAPI_FALSE |> <| shared_across_domains := MRAPI_TRUE |>.

(** [memcpy] of one byte out of the user's buffer. *)
Definition memcpy_byte {S} (attribute : list Z) : M S Z :=
  from_option_oob (attribute !! 0%nat).

(** The attribute structure is user memory: it is passed in and returned. *)
Definition mrapi_impl_sem_set_attribute {S} (a : mrapi_impl_attributes_t)
    (attribute_num : Z) (attribute : list Z) (attr_size : Z) :
    M S (mrapi_impl_attributes_t * mrapi_status) :=
  if attribute_num =? MRAPI_ERROR_EXT then
    if negb (attr_size =? Z.of_nat sizeof_boolean) then ret (a, MRAPI_ERR_ATTR_SIZE)
    else let* b := memcpy_byte attribute in
         ret (a <| ext_error_checking := b |>, MRAPI_SUCCESS)
  else if attribute_num =? MRAPI_DOMAIN_SHARED then
    if negb (attr_size =? Z.of_nat sizeof_boolean) then ret (a, MRAPI_ERR_ATTR_SIZE)
    else let* b := memcpy_byte attribute in
         ret (a <| shared_across_domains := b |>, MRAPI_SUCCESS)
  else ret (a, MRAPI_ERR_ATTR_NUM).

(** Returns the bytes written to the user's buffer ([[]]: none). *)
Definition mrapi_impl_sem_get_attribute (sem : Z) (attribute_num : Z)
    (attr_size : Z) : M mrapi_database (list Z * mrapi_status) :=
  let '(m, valid) := mrapi_impl_decode_hndl sem in
  c_assert valid;;
  if attribute_num =? MRAPI_ERROR_EXT then
    if negb (attr_size =? Z.of_nat sizeof_boolean) then ret ([], MRAPI_ERR_ATTR_SIZE)
    else let* x := get_sem m in
         ret ([ext_error_checking (s_attributes x)], MRAPI_SUCCESS)
  else if attribute_num =? MRAPI_DOMAIN_SHARED then
    if negb (attr_size =? Z.of_nat sizeof_boolean) then ret ([], MRAPI_ERR_ATTR_SIZE)
    else let* x := get_sem m in
         ret ([shared_across_domains (s_attributes x)], MRAPI_SUCCESS)
  else ret ([], MRAPI_ERR_ATTR_NUM).

(** ** Delete *)

(** The number of the first [k] slots from [l] on that are the caller's. *)
Fixpoint count_my_locks (n d : nat) (k l : nat) (ls : list mrapi_lock_t)
    (my_locks : Z) : result Z :=
  match k with
  | O => Done my_locks
  | S k' =>
      match ls !! l with
      | None => Fault OutOfBounds
      | Some x =>
          count_my_locks n d k' (S l) ls
            (if is_mine n d x then u32 (my_locks + 1) else my_locks)
      end
  end.
#[global] Arguments count_my_locks : simpl never.

Definition mrapi_impl_sem_delete (c : caller) (sem : Z) : M mrapi_database bool :=
  let '(s, valid) := mrapi_impl_decode_hndl sem in
  if negb valid then ret false
  else
    let* (n, d) := assert_whoami c in
    let* x := get_sem s in
    (* check that this node has an exclusive lock on this semaphore *)
    let* my_locks := lift (count_my_locks n d
      (Z.to_nat (u32 (s_shared_lock_limit x))) 0 (s_locks x) 0) in
    let rc := my_locks =? u32 (s_shared_lock_limit x) in
    (if rc && s_valid x then
       modify_sem s (λ x, x <| s_valid := false |>);;
       if ext_error_checking (s_attributes x) =? MRAPI_TRUE then
         modify_sem s (λ x, x <| s_deleted := true |>)
       else ret tt
     else ret tt);;
    ret rc.

(** ** Lock *)

(** The loop over the slots: take free ones until [num_locks] are taken.
    Returns the entry, [num_added] and whether the loop left by [break]. *)
Fixpoint acquire_loop (n d : nat) (num_locks : Z) (k l : nat) (sm : mrapi_sem_t)
    (num_added : Z) : result (mrapi_sem_t * Z * bool) :=
  match k with
  | O => Done (sm, num_added, false)
  | S k' =>
      match s_locks sm !! l with
      | None => Fault OutOfBounds
      | Some lk =>
          let '(sm, num_added) :=
            if is_free lk then
              (sm <| s_locks ::= <[l := lk <| lk_locked := true |>
                 <| lk_holder_nindex := u8 (Z.of_nat n) |>
                 <| lk_holder_dindex := u8 (Z.of_nat d) |>]> |>
                  <| s_num_locks ::= Z.add 1 |>, num_added + 1)
            else (sm, num_added) in
          if num_added =? num_locks then Done (sm, num_added, true)
          else acquire_loop n d num_locks k' (S l) sm num_added
      end
  end.
#[global] Arguments acquire_loop : simpl never.

(** Returns [(num_added, *status)]. *)
Definition mrapi_impl_acquire_lock_locked (c : caller) (sem : Z) (num_locks : Z)
    (status : mrapi_status) : M mrapi_database (Z * mrapi_status) :=
  let* (n, d) := assert_whoami c in
  let '(s, valid) := mrapi_impl_decode_hndl sem in
  if negb valid then ret (0, status)
  else
    let* x := get_sem s in
    if 0 <=? s_shared_lock_limit x - s_num_locks x - num_locks then
      let* (x', num_added, broke) := lift (acquire_loop n d num_locks
        (Z.to_nat (u32 (s_shared_lock_limit x))) 0 x 0) in
      modify_sem s (λ _, x');;
      ret (num_added, if (broke : bool) then MRAPI_SUCCESS else status)
    else ret (0, locked_status (s_type x)).

(** The [while (1)] of [mrapi_impl_sem_lock], from its [k]-th yield on. *)
Fixpoint sem_lock_loop (yield : nat → mrapi_database → mrapi_database)
    (fuel k : nat) (c : caller) (sem num_locks timeout time : Z)
    (status : mrapi_status) : M mrapi_database (bool * mrapi_status) :=
  match fuel with
  | O => raise OutOfFuel
  | S fuel' =>
      let time := u32 (time + 1) in
      let* (num_added, status) :=
        mrapi_impl_acquire_lock_locked c sem num_locks status in
      if num_added =? num_locks then ret (true, MRAPI_SUCCESS)
      else
        modify (yield k);;
        if negb (timeout =? MRAPI_TIMEOUT_INFINITE) && (timeout <=? time) then
          (* don't overwrite ELOCKED status if this is a trylock *)
          ret (false, if timeout =? 1 then status else MRAPI_TIMEOUT)
        else sem_lock_loop yield fuel' (S k) c sem num_locks timeout time status
  end.
#[global] Arguments sem_lock_loop : simpl never.

Definition mrapi_impl_sem_lock (yield : nat → mrapi_database → mrapi_database)
    (fuel : nat) (c : caller) (sem num_locks timeout : Z) (status : mrapi_status) :
    M mrapi_database (bool * mrapi_status) :=
  let '(s, valid) := mrapi_impl_decode_hndl sem in
  if negb valid then ret (false, status)
  else sem_lock_loop yield fuel 0 c sem num_locks timeout 0 status.

(** ** Unlock *)

(** Clears the caller's slots until [r] (a [uint16_t]) counts down to 0;
    returns the slots and [num_removed]. *)
Fixpoint release_loop (n d : nat) (k l : nat) (ls : list mrapi_lock_t) (r : Z)
    (num_removed : Z) : result (list mrapi_lock_t * Z) :=
  match k with
  | O => Done (ls, num_removed)
  | S k' =>
      match ls !! l with
      | None => Fault OutOfBounds
      | Some lk =>
          if is_mine n d lk then
            let ls := <[l := lk <| lk_locked := false |>]> ls in
            let num_removed := u32 (num_removed + 1) in
            let r := u16 (r - 1) in
            if r <=? 0 then Done (ls, num_removed)
            else release_loop n d k' (S l) ls r num_removed
          else release_loop n d k' (S l) ls r num_removed
      end
  end.
#[global] Arguments release_loop : simpl never.

Definition mrapi_impl_release_lock (c : caller) (sem : Z) (num_locks : Z)
    (status : mrapi_status) : M mrapi_database (bool * mrapi_status) :=
  let '(s, valid) := mrapi_impl_decode_hndl sem in
  if negb valid then ret (false, status)
  else
    let* (n, d) := assert_whoami c in
    let* x := get_sem s in
    if negb (s_valid x) then ret (false, invalid_status (s_type x))
    else
      (* check that this node has num_locks to unlock *)
      let* my_locks := lift (count_my_locks n d
        (Z.to_nat (s_shared_lock_limit x)) 0 (s_locks x) 0) in
      if my_locks <? u32 num_locks then ret (false, notlocked_status (s_type x))
      else
        modify_sem s (λ x, x <| s_num_locks ::= λ k, k - num_locks |>);;
        let* (ls, num_removed) := lift (release_loop n d
          (Z.to_nat (s_shared_lock_limit x)) 0 (s_locks x) (u16 num_locks) 0) in
        modify_sem s (λ x, x <| s_locks := ls |>);;
        c_assert (num_removed =? u32 num_locks);;
        ret (true, status).

Definition mrapi_impl_sem_unlock (c : caller) (sem num_locks : Z)
    (status : mrapi_status) : M mrapi_database (bool * mrapi_status) :=
  mrapi_impl_release_lock c sem num_locks status.
