(* ===== verification/MrapiMutexRwl.v ===== *)
(** Mutexes and reader-writer locks on top of the lock entries:
    [mrapi_impl_spec_mutex.c] and [mrapi_impl_spec_rwl.c].

    A mutex is an entry with one slot whose [lk_key] counts the recursive
    locks; a reader-writer lock is an entry with [reader_lock_limit] slots of
    which a reader takes one and a writer takes all.  An operation made of two
    critical sections releases the database between them: [gap] is what the
    other nodes do there, [yield] what they do while a lock call waits. *)

From S2P Require Import Prelude MrapiTypes MrapiHandles MrapiLocks.

(** ** Mutex *)

Definition mrapi_impl_mutex_create (c : caller) (mutex mutex_id : Z)
    (attributes : option mrapi_impl_attributes_t) :
    M mrapi_database (bool * Z * mrapi_status) :=
  let* (ok, hndl, status) :=
    mrapi_impl_create_lock_locked c mutex mutex_id 1 MUTEX
      MRAPI_ERR_MUTEX_LIMIT in
  if (ok : bool) then
    let '(m, valid) := mrapi_impl_decode_hndl hndl in
    c_assert valid;;
    modify_sem m (λ x, x <| s_type := MUTEX |>);;
    match attributes with
    | Some a =>
        modify_sem m (λ x, x <| s_attributes ::= λ at_,
          at_ <| recursive := recursive a |>
              <| ext_error_checking := ext_error_checking a |>
              <| shared_across_domains := shared_across_domains a |> |>)
    | None =>
        modify_sem m (λ x, x <| s_attributes ::= λ at_,
          at_ <| recursive := MRAPI_FALSE |>
              <| ext_error_checking := MRAPI_FALSE |>
              <| shared_across_domains := MRAPI_TRUE |> |>)
    end;;
    ret (true, hndl, status)
  else ret (false, hndl, status).

Definition mrapi_impl_mutex_init_attributes (a : mrapi_impl_attributes_t) :
    mrapi_impl_attributes_t :=
  a <| recursive := MRAPI_FALSE |> <| ext_error_checking := MRAPI_FALSE |>
    <| shared_across_domains := MRAPI_TRUE |>.

Definition mrapi_impl_mutex_set_attribute {S} (a : mrapi_impl_attributes_t)
    (attribute_num : Z) (attribute : list Z) (attr_size : Z) :
    M S (mrapi_impl_attributes_t * mrapi_status) :=
  if attribute_num =? MRAPI_MUTEX_RECURSIVE then
    if negb (attr_size =? Z.of_nat sizeof_boolean) then ret (a, MRAPI_ERR_ATTR_SIZE)
    else let* b := memcpy_byte attribute in
         ret (a <| recursive := b |>, MRAPI_SUCCESS)
  else if attribute_num =? MRAPI_ERROR_EXT then
    if negb (attr_size =? Z.of_nat sizeof_boolean) then ret (a, MRAPI_ERR_ATTR_SIZE)
    else let* b := memcpy_byte attribute in
         ret (a <| ext_error_checking := b |>, MRAPI_SUCCESS)
  else if attribute_num =? MRAPI_DOMAIN_SHARED then
    if negb (attr_size =? Z.of_nat sizeof_boolean) then ret (a, MRAPI_ERR_ATTR_SIZE)
    else let* b := memcpy_byte attribute in
         ret (a <| shared_across_domains := b |>, MRAPI_SUCCESS)
  else ret (a, MRAPI_ERR_ATTR_NUM).

Definition mrapi_impl_mutex_get_attribute (mutex : Z) (attribute_num : Z)
    (attr_size : Z) : M mrapi_database (list Z * mrapi_status) :=
  let '(m, valid) := mrapi_impl_decode_hndl mutex in
  c_assert valid;;
  if attribute_num =? MRAPI_MUTEX_RECURSIVE then
    if negb (attr_size =? Z.of_nat sizeof_boolean) then ret ([], MRAPI_ERR_ATTR_SIZE)
    else let* x := get_sem m in
         ret ([recursive (s_attributes x)], MRAPI_SUCCESS)
  else if attribute_num =? MRAPI_ERROR_EXT then
    if negb (attr_size =? Z.of_nat sizeof_boolean) then ret ([], MRAPI_ERR_ATTR_SIZE)
    else let* x := get_sem m in
         ret ([ext_error_checking (s_attributes x)], MRAPI_SUCCESS)
  else if attribute_num =? MRAPI_DOMAIN_SHARED then
    if negb (attr_size =? Z.of_nat sizeof_boolean) then ret ([], MRAPI_ERR_ATTR_SIZE)
    else let* x := get_sem m in
         ret ([shared_across_domains (s_attributes x)], MRAPI_SUCCESS)
  else ret ([], MRAPI_ERR_ATTR_NUM).

Definition mrapi_impl_mutex_get (c : caller) (key : Z) : M mrapi_database (bool * Z) :=
  mrapi_impl_sem_get c key.

Definition mrapi_impl_mutex_delete (c : caller) (mutex : Z) : M mrapi_database bool :=
  mrapi_impl_sem_delete c mutex.

(** Slot 0 is held by the caller.  [mrapi_impl_mutex_lock] does not look at
    the slot's valid flag. *)
Definition holds_slot0 (n d : nat) (lk : mrapi_lock_t) : bool :=
  (lk_holder_nindex lk =? Z.of_nat n) && (lk_holder_dindex lk =? Z.of_nat d).

Definition set_lock_key (m : nat) (key : Z) : M mrapi_database unit :=
  modify_sem m (λ x, x <| s_locks ::= alter (λ lk, lk <| lk_key := key |>) 0%nat |>).

(** Returns [(rc, *lock_key, *mrapi_status)]. *)
Definition mrapi_impl_mutex_lock (gap : mrapi_database → mrapi_database)
    (yield : nat → mrapi_database → mrapi_database) (fuel : nat) (c : caller)
    (mutex lock_key timeout : Z) (status : mrapi_status) :
    M mrapi_database (bool * Z * mrapi_status) :=
  let* (n, d) := assert_whoami c in
  let '(m, valid) := mrapi_impl_decode_hndl mutex in
  c_assert valid;;
  let* x := get_sem m in
  let* lk := from_option_oob (s_locks x !! 0%nat) in
  if lk_locked lk && holds_slot0 n d lk then
    if recursive (s_attributes x) =? MRAPI_TRUE then
      let key := u32 (lk_key lk + 1) in
      set_lock_key m key;;
      modify gap;;
      ret (true, i32 key, status)
    else
      (* attempting to lock a non-recursive mutex when you already have the
         lock: the status is left as it was *)
      ret (false, lock_key, status)
  else
    modify gap;;
    let* (rc, status) := mrapi_impl_sem_lock yield fuel c mutex 1 timeout status in
    ret (rc, (if (rc : bool) then 0 else lock_key), status).

Definition mrapi_impl_mutex_unlock (gap : mrapi_database → mrapi_database)
    (c : caller) (mutex lock_key : Z) (status : mrapi_status) :
    M mrapi_database (bool * mrapi_status) :=
  let* (n, d) := assert_whoami c in
  let '(m, valid) := mrapi_impl_decode_hndl mutex in
  c_assert valid;;
  let* x := get_sem m in
  let* lk := from_option_oob (s_locks x !! 0%nat) in
  let rc := holds_slot0 n d lk && (u32 lock_key =? lk_key lk)
            && negb (lock_key =? 0) in
  (if rc then set_lock_key m (u32 (lk_key lk - 1)) else ret tt);;
  (* a mrapi_boolean_t, i.e. an unsigned char, is assigned the key *)
  let recursively_locked :=
    negb (u8 (if rc then u32 (lk_key lk - 1) else lk_key lk) =? 0) in
  modify gap;;
  let* (rc, status) :=
    if negb rc && negb recursively_locked
    then mrapi_impl_release_lock c mutex 1 status else ret (rc, status) in
  ret (rc, if negb rc && recursively_locked then MRAPI_ERR_MUTEX_LOCKORDER
           else status).

(** ** Reader-writer lock *)

Definition mrapi_impl_rwl_create (c : caller) (rwl rwl_id : Z)
    (attributes : option mrapi_impl_attributes_t) (reader_lock_limit : Z) :
    M mrapi_database (bool * Z * mrapi_status) :=
  let* (ok, hndl, status) :=
    mrapi_impl_create_lock_locked c rwl rwl_id reader_lock_limit RWL
      MRAPI_ERR_RWL_LIMIT in
  if (ok : bool) then
    let '(r, valid) := mrapi_impl_decode_hndl hndl in
    c_assert valid;;
    modify_sem r (λ x, x <| s_type := RWL |>);;
    match attributes with
    | Some a =>
        modify_sem r (λ x, x <| s_attributes ::= λ at_,
          at_ <| ext_error_checking := ext_error_checking a |>
              <| shared_across_domains := shared_across_domains a |> |>)
    | None =>
        modify_sem r (λ x, x <| s_attributes ::= λ at_,
          at_ <| ext_error_checking := MRAPI_FALSE |>
              <| shared_across_domains := MRAPI_TRUE |> |>)
    end;;
    ret (true, hndl, status)
  else ret (false, hndl, status).

Definition mrapi_impl_rwl_init_attributes (a : mrapi_impl_attributes_t) :
    mrapi_impl_attributes_t :=
  a <| ext_error_checking := MRAPI_FALSE |> <| shared_across_domains := MRAPI_TRUE |>.

Definition mrapi_impl_rwl_set_attribute {S} (a : mrapi_impl_attributes_t)
    (attribute_num : Z) (attribute : list Z) (attr_size : Z) :
    M S (mrapi_impl_attributes_t * mrapi_status) :=
  if attribute_num =? MRAPI_ERROR_EXT then
    if negb (attr_size =? Z.of_nat sizeof_boolean) then ret (a, MRAPI_ERR_ATTR_SIZE)
    else let* b := memcpy_byte attribute in
         ret (a <| ext_error_checking := b |>, MRAPI_SUCCESS)
  else if attribute_num =? MRAPI_DOMAIN_SHARED then
    if negb (attr_size =? Z.of_nat sizeof_boolean) then ret (a, MRAPI_ERR_ATTR_SIZE)
    else let* b := memcpy_byte attribute in
         ret (a <| shared_across_domains := b |>, MRAPI_SUCCESS)
  else ret (a, MRAPI_ERR_ATTR_NUM).

Definition mrapi_impl_rwl_get_attribute (rwl : Z) (attribute_num : Z)
    (attr_size : Z) : M mrapi_database (list Z * mrapi_status) :=
  let '(r, valid) := mrapi_impl_decode_hndl rwl in
  c_assert valid;;
  if attribute_num =? MRAPI_ERROR_EXT then
    if negb (attr_size =? Z.of_nat sizeof_boolean) then ret ([], MRAPI_ERR_ATTR_SIZE)
    else let* x := get_sem r in
         ret ([ext_error_checking (s_attributes x)], MRAPI_SUCCESS)
  else if attribute_num =? MRAPI_DOMAIN_SHARED then
    if negb (attr_size =? Z.of_nat sizeof_boolean) then ret ([], MRAPI_ERR_ATTR_SIZE)
    else let* x := get_sem r in
         ret ([shared_across_domains (s_attributes x)], MRAPI_SUCCESS)
  else ret ([], MRAPI_ERR_ATTR_NUM).

Definition mrapi_impl_rwl_get (c : caller) (key : Z) : M mrapi_database (bool * Z) :=
  mrapi_impl_sem_get c key.

Definition mrapi_impl_rwl_delete (c : caller) (rwl : Z) : M mrapi_database bool :=
  mrapi_impl_sem_delete c rwl.

Definition mrapi_impl_rwl_lock (gap : mrapi_database → mrapi_database)
    (yield : nat → mrapi_database → mrapi_database) (fuel : nat) (c : caller)
    (rwl : Z) (mode : mrapi_rwl_mode_t) (timeout : Z) (status : mrapi_status) :
    M mrapi_database (bool * mrapi_status) :=
  let '(s, valid) := mrapi_impl_decode_hndl rwl in
  if negb valid then ret (false, status)
  else
    match mode with
    | MRAPI_RWL_READER =>
        (* a reader (shared) lock is being requested... *)
        mrapi_impl_sem_lock yield fuel c rwl 1 timeout status
    | MRAPI_RWL_WRITER =>
        (* a writer (exclusive) lock: request all the locks *)
        let* x := get_sem s in
        modify gap;;
        mrapi_impl_sem_lock yield fuel c rwl (s_shared_lock_limit x) timeout status
    end.

Definition mrapi_impl_rwl_unlock (gap : mrapi_database → mrapi_database)
    (c : caller) (rwl : Z) (mode : mrapi_rwl_mode_t) (status : mrapi_status) :
    M mrapi_database (bool * mrapi_status) :=
  let '(s, valid) := mrapi_impl_decode_hndl rwl in
  if negb valid then ret (false, status)
  else
    match mode with
    | MRAPI_RWL_READER => mrapi_impl_sem_unlock c rwl 1 status
    | MRAPI_RWL_WRITER =>
        let* x := get_sem s in
        modify gap;;
        mrapi_impl_sem_unlock c rwl (s_shared_lock_limit x) status
    end.
