(* ===== verification/MrapiLockApi.v ===== *)
(** The public lock functions: [mrapi_sem.c], [mrapi_mutex.c], [mrapi_rwl.c].

    Each checks that the node is initialized, checks the handle, calls the
    implementation and chooses the status.  A pointer parameter that may be
    [NULL] is an [option]; [*status] is returned, and [None] as a returned
    handle is a C local that was never assigned. *)

From S2P Require Import Prelude MrapiTypes MrapiHandles MrapiLocks MrapiMutexRwl.

(** ** Semaphores *)

Definition mrapi_sem_create (c : caller) (sem_id : Z)
    (attributes : option mrapi_impl_attributes_t) (shared_lock_limit : Z) :
    M mrapi_database (Z * mrapi_status) :=
  if negb (mrapi_impl_initialized c) then ret (0, MRAPI_ERR_NODE_NOTINIT)
  else if negb (mrapi_impl_sem_validID sem_id) then ret (0, MRAPI_ERR_SEM_ID_INVALID)
  else if (shared_lock_limit =? 0)
          || (Z.of_nat MRAPI_MAX_SHARED_LOCKS <? shared_lock_limit)
  then ret (0, MRAPI_ERR_SEM_LOCKLIMIT)
  else
    let* (ok, sem_hndl, status) :=
      mrapi_impl_sem_create c 0 sem_id attributes shared_lock_limit in
    ret (sem_hndl, if (ok : bool) then MRAPI_SUCCESS else status).

Definition mrapi_sem_init_attributes (attributes : option mrapi_impl_attributes_t) :
    option mrapi_impl_attributes_t * mrapi_status :=
  match attributes with
  | None => (None, MRAPI_ERR_PARAMETER)
  | Some a => (Some (mrapi_impl_sem_init_attributes a), MRAPI_SUCCESS)
  end.

Definition mrapi_sem_set_attribute {S} (attributes : option mrapi_impl_attributes_t)
    (attribute_num : Z) (attribute : list Z) (attr_size : Z) :
    M S (option mrapi_impl_attributes_t * mrapi_status) :=
  match attributes with
  | None => ret (None, MRAPI_ERR_PARAMETER)
  | Some a =>
      let* (a, status) :=
        mrapi_impl_sem_set_attribute a attribute_num attribute attr_size in
      ret (Some a, status)
  end.

(** [attribute_null]: the user passed a [NULL] buffer. *)
Definition mrapi_sem_get_attribute (c : caller) (sem attribute_num : Z)
    (attribute_null : bool) (attribute_size : Z) :
    M mrapi_database (list Z * mrapi_status) :=
  if negb (mrapi_impl_initialized c) then ret ([], MRAPI_ERR_NODE_NOTINIT)
  else if attribute_null then ret ([], MRAPI_ERR_PARAMETER)
  else
    let* (ok, status) := mrapi_impl_valid_sem_hndl sem in
    if (ok : bool) then mrapi_impl_sem_get_attribute sem attribute_num attribute_size
    else ret ([], status).

Definition mrapi_sem_get (c : caller) (sem_id : Z) :
    M mrapi_database (option Z * mrapi_status) :=
  if negb (mrapi_impl_initialized c) then ret (None, MRAPI_ERR_NODE_NOTINIT)
  else
    let* (ok, sem) := mrapi_impl_sem_get c sem_id in
    ret (Some sem, if (ok : bool) then MRAPI_SUCCESS else MRAPI_ERR_SEM_ID_INVALID).

(** The [void] functions return only [*status]. *)
Definition mrapi_sem_delete (c : caller) (sem : Z) :
    M mrapi_database mrapi_status :=
  if negb (mrapi_impl_initialized c) then ret MRAPI_ERR_NODE_NOTINIT
  else
    let* (ok, status) := mrapi_impl_valid_sem_hndl sem in
    if (ok : bool) then
      let* deleted := mrapi_impl_sem_delete c sem in
      ret (if (deleted : bool) then MRAPI_SUCCESS else MRAPI_ERR_SEM_LOCKED)
    else ret status.

Definition mrapi_sem_lock (yield : nat → mrapi_database → mrapi_database)
    (fuel : nat) (c : caller) (sem timeout : Z) : M mrapi_database mrapi_status :=
  if negb (mrapi_impl_initialized c) then ret MRAPI_ERR_NODE_NOTINIT
  else
    let* (ok, status) := mrapi_impl_valid_sem_hndl sem in
    if (ok : bool) then
      let* (_, status) := mrapi_impl_sem_lock yield fuel c sem 1 timeout status in
      ret status
    else ret status.

Definition mrapi_sem_trylock (yield : nat → mrapi_database → mrapi_database)
    (fuel : nat) (c : caller) (sem : Z) : M mrapi_database (bool * mrapi_status) :=
  if negb (mrapi_impl_initialized c) then ret (false, MRAPI_ERR_NODE_NOTINIT)
  else
    let* (ok, status) := mrapi_impl_valid_sem_hndl sem in
    if (ok : bool) then mrapi_impl_sem_lock yield fuel c sem 1 1 status
    else ret (false, status).

Definition mrapi_sem_unlock (c : caller) (sem : Z) : M mrapi_database mrapi_status :=
  if negb (mrapi_impl_initialized c) then ret MRAPI_ERR_NODE_NOTINIT
  else
    let* (ok, status) := mrapi_impl_valid_sem_hndl sem in
    if (ok : bool) then
      let* (_, status) := mrapi_impl_sem_unlock c sem 1 status in ret status
    else ret status.

(** ** Mutexes *)

Definition mrapi_mutex_create (c : caller) (mutex_id : Z)
    (attributes : option mrapi_impl_attributes_t) :
    M mrapi_database (Z * mrapi_status) :=
  if negb (mrapi_impl_initialized c) then ret (0, MRAPI_ERR_NODE_NOTINIT)
  else if negb (mrapi_impl_mutex_validID mutex_id) then
    ret (0, MRAPI_ERR_MUTEX_ID_INVALID)
  else
    let* (ok, mutex_hndl, _) := mrapi_impl_mutex_create c 0 mutex_id attributes in
    if (ok : bool) then ret (mutex_hndl, MRAPI_SUCCESS)
    else (* assume the mutex already exists *) ret (0, MRAPI_ERR_MUTEX_EXISTS).

Definition mrapi_mutex_init_attributes (attributes : option mrapi_impl_attributes_t) :
    option mrapi_impl_attributes_t * mrapi_status :=
  match attributes with
  | None => (None, MRAPI_ERR_PARAMETER)
  | Some a => (Some (mrapi_impl_mutex_init_attributes a), MRAPI_SUCCESS)
  end.

Definition mrapi_mutex_set_attribute {S}
    (attributes : option mrapi_impl_attributes_t)
    (attribute_num : Z) (attribute : list Z) (attr_size : Z) :
    M S (option mrapi_impl_attributes_t * mrapi_status) :=
  match attributes with
  | None => ret (None, MRAPI_ERR_PARAMETER)
  | Some a =>
      let* (a, status) :=
        mrapi_impl_mutex_set_attribute a attribute_num attribute attr_size in
      ret (Some a, status)
  end.

Definition mrapi_mutex_get_attribute (c : caller) (mutex attribute_num : Z)
    (attribute_null : bool) (attribute_size : Z) :
    M mrapi_database (list Z * mrapi_status) :=
  if negb (mrapi_impl_initialized c) then ret ([], MRAPI_ERR_NODE_NOTINIT)
  else if attribute_null then ret ([], MRAPI_ERR_PARAMETER)
  else
    let* (ok, status) := mrapi_impl_valid_mutex_hndl mutex in
    if (ok : bool) then
      mrapi_impl_mutex_get_attribute mutex attribute_num attribute_size
    else ret ([], status).

Definition mrapi_mutex_get (c : caller) (mutex_id : Z) :
    M mrapi_database (option Z * mrapi_status) :=
  if negb (mrapi_impl_initialized c) then ret (None, MRAPI_ERR_NODE_NOTINIT)
  else
    let* (ok, mutex) := mrapi_impl_mutex_get c mutex_id in
    ret (Some mutex,
         if (ok : bool) then MRAPI_SUCCESS else MRAPI_ERR_MUTEX_ID_INVALID).

Definition mrapi_mutex_delete (c : caller) (mutex : Z) :
    M mrapi_database mrapi_status :=
  if negb (mrapi_impl_initialized c) then ret MRAPI_ERR_NODE_NOTINIT
  else
    let* (ok, status) := mrapi_impl_valid_mutex_hndl mutex in
    if (ok : bool) then
      let* deleted := mrapi_impl_mutex_delete c mutex in
      ret (if (deleted : bool) then MRAPI_SUCCESS else MRAPI_ERR_MUTEX_LOCKED)
    else ret status.

(** Returns [( *lock_key, *status)]. *)
Definition mrapi_mutex_lock (gap : mrapi_database → mrapi_database)
    (yield : nat → mrapi_database → mrapi_database) (fuel : nat) (c : caller)
    (mutex lock_key timeout : Z) : M mrapi_database (Z * mrapi_status) :=
  if negb (mrapi_impl_initialized c) then ret (lock_key, MRAPI_ERR_NODE_NOTINIT)
  else
    let* (ok, status) := mrapi_impl_valid_mutex_hndl mutex in
    if (ok : bool) then
      let* (_, lock_key, status) :=
        mrapi_impl_mutex_lock gap yield fuel c mutex lock_key timeout status in
      ret (lock_key, status)
    else ret (lock_key, status).

(** Returns [(rc, *lock_key, *status)]. *)
Definition mrapi_mutex_trylock (gap : mrapi_database → mrapi_database)
    (yield : nat → mrapi_database → mrapi_database) (fuel : nat) (c : caller)
    (mutex lock_key : Z) : M mrapi_database (bool * Z * mrapi_status) :=
  if negb (mrapi_impl_initialized c) then
    ret (false, lock_key, MRAPI_ERR_NODE_NOTINIT)
  else
    let* (ok, status) := mrapi_impl_valid_mutex_hndl mutex in
    if (ok : bool) then
      mrapi_impl_mutex_lock gap yield fuel c mutex lock_key 1 status
    else ret (false, lock_key, status).

Definition mrapi_mutex_unlock (gap : mrapi_database → mrapi_database) (c : caller)
    (mutex lock_key : Z) : M mrapi_database mrapi_status :=
  if negb (mrapi_impl_initialized c) then ret MRAPI_ERR_NODE_NOTINIT
  else
    let* (ok, status) := mrapi_impl_valid_mutex_hndl mutex in
    if (ok : bool) then
      let* (_, status) := mrapi_impl_mutex_unlock gap c mutex lock_key status in
      ret status
    else ret status.

(** ** Reader-writer locks *)

Definition mrapi_rwl_create (c : caller) (rwl_id : Z)
    (attributes : option mrapi_impl_attributes_t) (reader_lock_limit : Z) :
    M mrapi_database (Z * mrapi_status) :=
  if negb (mrapi_impl_initialized c) then ret (0, MRAPI_ERR_NODE_NOTINIT)
  else if negb (mrapi_impl_rwl_validID rwl_id) then ret (0, MRAPI_ERR_RWL_ID_INVALID)
  else
    let* (ok, rwl_hndl, status) :=
      mrapi_impl_rwl_create c 0 rwl_id attributes reader_lock_limit in
    ret (rwl_hndl, if (ok : bool) then MRAPI_SUCCESS else status).

Definition mrapi_rwl_init_attributes (attributes : option mrapi_impl_attributes_t) :
    option mrapi_impl_attributes_t * mrapi_status :=
  match attributes with
  | None => (None, MRAPI_ERR_PARAMETER)
  | Some a => (Some (mrapi_impl_rwl_init_attributes a), MRAPI_SUCCESS)
  end.

Definition mrapi_rwl_set_attribute {S} (attributes : option mrapi_impl_attributes_t)
    (attribute_num : Z) (attribute : list Z) (attr_size : Z) :
    M S (option mrapi_impl_attributes_t * mrapi_status) :=
  match attributes with
  | None => ret (None, MRAPI_ERR_PARAMETER)
  | Some a =>
      let* (a, status) :=
        mrapi_impl_rwl_set_attribute a attribute_num attribute attr_size in
      ret (Some a, status)
  end.

Definition mrapi_rwl_get_attribute (c : caller) (rwl attribute_num : Z)
    (attribute_null : bool) (attribute_size : Z) :
    M mrapi_database (list Z * mrapi_status) :=
  if negb (mrapi_impl_initialized c) then ret ([], MRAPI_ERR_NODE_NOTINIT)
  else if attribute_null then ret ([], MRAPI_ERR_PARAMETER)
  else
    let* (ok, status) := mrapi_impl_valid_rwl_hndl rwl in
    if (ok : bool) then mrapi_impl_rwl_get_attribute rwl attribute_num attribute_size
    else ret ([], status).

Definition mrapi_rwl_get (c : caller) (rwl_id : Z) :
    M mrapi_database (option Z * mrapi_status) :=
  if negb (mrapi_impl_initialized c) then ret (None, MRAPI_ERR_NODE_NOTINIT)
  else
    let* (ok, rwl) := mrapi_impl_rwl_get c rwl_id in
    ret (Some rwl, if (ok : bool) then MRAPI_SUCCESS else MRAPI_ERR_RWL_ID_INVALID).

Definition mrapi_rwl_delete (c : caller) (rwl : Z) : M mrapi_database mrapi_status :=
  if negb (mrapi_impl_initialized c) then ret MRAPI_ERR_NODE_NOTINIT
  else
    let* (ok, status) := mrapi_impl_valid_rwl_hndl rwl in
    if (ok : bool) then
      let* deleted := mrapi_impl_rwl_delete c rwl in
      ret (if (deleted : bool) then MRAPI_SUCCESS else MRAPI_ERR_RWL_LOCKED)
    else ret status.

Definition mrapi_rwl_lock (gap : mrapi_database → mrapi_database)
    (yield : nat → mrapi_database → mrapi_database) (fuel : nat) (c : caller)
    (rwl : Z) (mode : mrapi_rwl_mode_t) (timeout : Z) :
    M mrapi_database mrapi_status :=
  if negb (mrapi_impl_initialized c) then ret MRAPI_ERR_NODE_NOTINIT
  else
    let* (ok, status) := mrapi_impl_valid_rwl_hndl rwl in
    if (ok : bool) then
      let* (_, status) :=
        mrapi_impl_rwl_lock gap yield fuel c rwl mode timeout status in
      ret status
    else ret status.

Definition mrapi_rwl_trylock (gap : mrapi_database → mrapi_database)
    (yield : nat → mrapi_database → mrapi_database) (fuel : nat) (c : caller)
    (rwl : Z) (mode : mrapi_rwl_mode_t) : M mrapi_database (bool * mrapi_status) :=
  if negb (mrapi_impl_initialized c) then ret (false, MRAPI_ERR_NODE_NOTINIT)
  else
    let* (ok, status) := mrapi_impl_valid_rwl_hndl rwl in
    if (ok : bool) then mrapi_impl_rwl_lock gap yield fuel c rwl mode 1 status
    else ret (false, status).

Definition mrapi_rwl_unlock (gap : mrapi_database → mrapi_database) (c : caller)
    (rwl : Z) (mode : mrapi_rwl_mode_t) : M mrapi_database mrapi_status :=
  if negb (mrapi_impl_initialized c) then ret MRAPI_ERR_NODE_NOTINIT
  else
    let* (ok, status) := mrapi_impl_valid_rwl_hndl rwl in
    if (ok : bool) then
      let* (_, status) := mrapi_impl_rwl_unlock gap c rwl mode status in ret status
    else ret status.
