(* ===== verification/MrapiShmem.v ===== *)
(** Shared memory segments: [mrapi_impl_spec_shmem.c] and [mrapi_shmem.c].

    The database records the segments and who is attached; the segments
    themselves are the operating system's, reached through the [os] record
    of [MrapiNodes].  All operations take the same lock, so each is atomic. *)

From S2P Require Import Prelude MrapiTypes MrapiHandles MrapiLocks MrapiNodes.

Definition upd_shmem (i : nat) (f : mrapi_shmem_t → mrapi_shmem_t)
    (db : mrapi_database) : mrapi_database := db <| shmems ::= alter f i |>.
Definition modify_shmem (i : nat) (f : mrapi_shmem_t → mrapi_shmem_t) :
    M mrapi_database unit :=
  arr_get shmems i;; modify (upd_shmem i f).

(** [mrapi_db->domains[d].nodes[n].shmems[s] = b;] *)
Definition log_shmem_user (d n s : nat) (b : bool) : M mrapi_database unit :=
  let* nd := get_node d n in
  from_option_oob (n_shmems nd !! s);;
  modify_node d n (λ x, x <| n_shmems ::= <[s := b]> |>).

(** ** Implementation *)

Definition mrapi_impl_shmem_attached (c : caller) (shmem : Z) :
    M mrapi_database bool :=
  let* (n, d) := assert_whoami c in
  let '(s, valid) := mrapi_impl_decode_hndl shmem in
  if valid then
    let* x := arr_get shmems s in
    if sh_valid x then
      let* nd := get_node d n in from_option_oob (n_shmems nd !! s)
    else ret false
  else ret false.

(** [key] is unsigned here and the stored key is signed: C compares them as
    unsigned integers. *)
Definition has_shmem_key (key : Z) (x : mrapi_shmem_t) : bool :=
  sh_valid x && (u32 (sh_key x) =? u32 key).

Definition mrapi_impl_shmem_exists (shmemkey : Z) : M mrapi_database bool :=
  let* db := get in
  let* s := lift (c_scan (has_shmem_key shmemkey) (shmems db) MRAPI_MAX_SHMEMS 0) in
  ret (s <? MRAPI_MAX_SHMEMS)%nat.

Definition mrapi_impl_shmem_get (key : Z) : M mrapi_database (bool * Z) :=
  let* db := get in
  let* s := lift (c_scan (has_shmem_key key) (shmems db) MRAPI_MAX_SHMEMS 0) in
  ret ((s <? MRAPI_MAX_SHMEMS)%nat, mrapi_impl_encode_hndl (Z.of_nat s)).

Definition mrapi_impl_shmem_create (o : os) (c : caller) (key size : Z)
    (attributes : option mrapi_impl_attributes_t) :
    M mrapi_database (Z * mrapi_status) :=
  assert_whoami c;;
  let* db := get in
  let fail st := ret (mrapi_impl_encode_hndl (Z.of_nat MRAPI_MAX_SHMEMS), st) in
  (* make sure we have room in the database *)
  if num_shmems db =? Z.of_nat MRAPI_MAX_SHMEMS then fail MRAPI_ERR_MEM_LIMIT
  else
    (* make sure the shared memory doesn't already exist *)
    let* s := lift (c_scan (has_shmem_key key) (shmems db) MRAPI_MAX_SHMEMS 0) in
    if (s <? MRAPI_MAX_SHMEMS)%nat then fail MRAPI_ERR_SHM_EXISTS
    else
      let id := os_shmem_create o key size in
      if id =? -1 then fail MRAPI_ERR_MEM_LIMIT
      else
        (* update our database *)
        let* s := lift (c_scan (λ x, negb (sh_valid x)) (shmems db)
                          MRAPI_MAX_SHMEMS 0) in
        (if (s <? MRAPI_MAX_SHMEMS)%nat then
           modify_shmem s (λ _, zero_shmem);;
           modify_shmem s (λ x, x <| sh_key := i32 key |> <| sh_id := id |>
             <| sh_valid := true |> <| sh_addr := 0 |>);;
           match attributes with
           | Some a =>
               modify_shmem s (λ x, x <| sh_attributes ::= λ at_,
                 at_ <| ext_error_checking := ext_error_checking a |>
                     <| shared_across_domains := shared_across_domains a |> |>)
           | None =>
               modify_shmem s (λ x, x <| sh_attributes ::= λ at_,
                 at_ <| ext_error_checking := MRAPI_FALSE |>
                     <| shared_across_domains := MRAPI_TRUE |> |>)
           end;;
           modify (λ db, db <| num_shmems ::= λ k, u8 (k + 1) |>)
         else ret tt);;
        ret (mrapi_impl_encode_hndl (Z.of_nat s), MRAPI_SUCCESS).

Definition mrapi_impl_shmem_init_attributes (a : mrapi_impl_attributes_t) :
    mrapi_impl_attributes_t :=
  a <| ext_error_checking := MRAPI_FALSE |> <| shared_across_domains := MRAPI_TRUE |>.

(** [memcpy] of [k] bytes out of the user's buffer. *)
Definition memcpy_bytes {S} (k : nat) (attribute : list Z) : M S (list Z) :=
  if (k <=? length attribute)%nat then ret (take k attribute) else raise OutOfBounds.

Definition mrapi_impl_shmem_set_attribute {S} (a : mrapi_impl_attributes_t)
    (attribute_num : Z) (attribute : list Z) (attr_size : Z) :
    M S (mrapi_impl_attributes_t * mrapi_status) :=
  if attribute_num =? MRAPI_ERROR_EXT then
    if negb (attr_size =? Z.of_nat sizeof_boolean) then ret (a, MRAPI_ERR_ATTR_SIZE)
    else let* b := memcpy_byte attribute in
         ret (a <| ext_error_checking := b |>, MRAPI_SUCCESS)
  else if attribute_num =? MRAPI_DOMAIN_SHARED then
    if negb (attr_size =? Z.of_nat sizeof_boolean) then ret (a, MRAPI_ERR_ATTR_SIZE)
    else let* b := memcpy_byte attribute in
         ret (a <| shared_across_domains := b |>, MRAPI_SUCCESS)
  else if attribute_num =? MRAPI_SHMEM_RESOURCE then
    if negb (attr_size =? Z.of_nat sizeof_resource) then ret (a, MRAPI_ERR_ATTR_SIZE)
    else let* b := memcpy_bytes sizeof_resource attribute in
         ret (a <| resource := b |>, MRAPI_SUCCESS)
  else if attribute_num =? MRAPI_SHMEM_ADDRESS then
    if negb (attr_size =? Z.of_nat sizeof_pointer) then ret (a, MRAPI_ERR_ATTR_SIZE)
    else let* b := memcpy_bytes sizeof_pointer attribute in
         ret (a <| mem_addr := b |>, MRAPI_SUCCESS)
  else if attribute_num =? MRAPI_SHMEM_SIZE then
    if negb (attr_size =? Z.of_nat sizeof_uint32) then ret (a, MRAPI_ERR_ATTR_SIZE)
    else let* b := memcpy_bytes sizeof_uint32 attribute in
         ret (a <| mem_size := b |>, MRAPI_SUCCESS)
  else ret (a, MRAPI_ERR_ATTR_NUM).

Definition mrapi_impl_shmem_get_attribute (shmem : Z) (attribute_num : Z)
    (attr_size : Z) : M mrapi_database (list Z * mrapi_status) :=
  let '(s, valid) := mrapi_impl_decode_hndl shmem in
  c_assert valid;;
  if attribute_num =? MRAPI_ERROR_EXT then
    if negb (attr_size =? Z.of_nat sizeof_boolean) then ret ([], MRAPI_ERR_ATTR_SIZE)
    else let* x := arr_get shmems s in
         ret ([ext_error_checking (sh_attributes x)], MRAPI_SUCCESS)
  else if attribute_num =? MRAPI_DOMAIN_SHARED then
    if negb (attr_size =? Z.of_nat sizeof_boolean) then ret ([], MRAPI_ERR_ATTR_SIZE)
    else let* x := arr_get shmems s in
         ret ([shared_across_domains (sh_attributes x)], MRAPI_SUCCESS)
  else if attribute_num =? MRAPI_SHMEM_RESOURCE then
    if negb (attr_size =? Z.of_nat sizeof_resource) then ret ([], MRAPI_ERR_ATTR_SIZE)
    else let* x := arr_get shmems s in
         ret (resource (sh_attributes x), MRAPI_SUCCESS)
  else if attribute_num =? MRAPI_SHMEM_ADDRESS then
    if negb (attr_size =? Z.of_nat sizeof_pointer) then ret ([], MRAPI_ERR_ATTR_SIZE)
    else let* x := arr_get shmems s in
         ret (mem_addr (sh_attributes x), MRAPI_SUCCESS)
  else if attribute_num =? MRAPI_SHMEM_SIZE then
    if negb (attr_size =? Z.of_nat sizeof_uint32) then ret ([], MRAPI_ERR_ATTR_SIZE)
    else let* x := arr_get shmems s in
         ret (mem_size (sh_attributes x), MRAPI_SUCCESS)
  else ret ([], MRAPI_ERR_ATTR_NUM).

(** Returns the address ([0]: [NULL]). *)
Definition mrapi_impl_shmem_attach (o : os) (c : caller) (shmem : Z) :
    M mrapi_database Z :=
  let* (n, d) := assert_whoami c in
  let '(s, valid) := mrapi_impl_decode_hndl shmem in
  c_assert valid;;
  (* fill in the addr *)
  modify_shmem s (λ x, x <| sh_addr := os_shmem_attach o (sh_id x) |>);;
  let* nd := get_node d n in
  let* logged := from_option_oob (n_shmems nd !! s) in
  (if (logged : bool) then ret tt
   else
     log_shmem_user d n s true;;
     modify_shmem s (λ x, x <| sh_refs ::= λ r, u8 (r + 1) |>));;
  let* x := arr_get shmems s in
  ret (sh_addr x).

Definition mrapi_impl_shmem_delete (o : os) (shmem : Z) : M mrapi_database bool :=
  let '(s, valid) := mrapi_impl_decode_hndl shmem in
  c_assert valid;;
  let* x := arr_get shmems s in
  if os_shmem_delete o (sh_id x) then
    modify_shmem s (λ x, x <| sh_valid := false |>);;
    modify (λ db, db <| num_shmems ::= λ k, u8 (k - 1) |>);;
    ret true
  else ret false.

(** Another valid node of this process exists. *)
Definition other_node_of_process (pid : Z) (d n : nat) (db : mrapi_database) : bool :=
  existsb (λ i, match domains db !! i with
                | Some dm => existsb (λ j,
                    negb ((d =? i)%nat && (n =? j)%nat) &&
                    match d_nodes dm !! j with
                    | Some x => n_valid x && (n_pid x =? pid)
                    | None => false
                    end) (seq 0 MRAPI_MAX_NODES)
                | None => false
                end) (seq 0 MRAPI_MAX_DOMAINS).

Definition mrapi_impl_shmem_detach (o : os) (c : caller) (shmem : Z) :
    M mrapi_database bool :=
  let* (n, d) := assert_whoami c in
  let '(s, valid) := mrapi_impl_decode_hndl shmem in
  c_assert valid;;
  log_shmem_user d n s false;; (* remove this node as a user *)
  modify_shmem s (λ x, x <| sh_refs ::= λ r, u8 (r - 1) |>);;
  let* db := get in
  if negb (other_node_of_process (os_pid o) d n db) then
    let* x := arr_get shmems s in ret (os_shmem_detach o (sh_addr x))
  else ret true.

(** ** The public functions *)

Definition mrapi_shmem_create (o : os) (c : caller) (shmem_id size : Z)
    (attributes : option mrapi_impl_attributes_t) :
    M mrapi_database (Z * mrapi_status) :=
  if negb (mrapi_impl_initialized c) then ret (0, MRAPI_ERR_NODE_NOTINIT)
  else if negb (mrapi_impl_shmem_validID shmem_id) then
    ret (0, MRAPI_ERR_SHM_ID_INVALID)
  else
    let* exists_ := mrapi_impl_shmem_exists shmem_id in
    if (exists_ : bool) then ret (0, MRAPI_ERR_SHM_EXISTS)
    else mrapi_impl_shmem_create o c shmem_id size attributes.

(** [*status] is left as it was on success. *)
Definition mrapi_shmem_init_attributes (attributes : option mrapi_impl_attributes_t)
    (status : mrapi_status) : option mrapi_impl_attributes_t * mrapi_status :=
  match attributes with
  | None => (None, MRAPI_ERR_PARAMETER)
  | Some a => (Some (mrapi_impl_shmem_init_attributes a), status)
  end.

Definition mrapi_shmem_set_attribute {S} (c : caller)
    (attributes : option mrapi_impl_attributes_t)
    (attribute_num : Z) (attribute : list Z) (attr_size : Z) :
    M S (option mrapi_impl_attributes_t * mrapi_status) :=
  if negb (mrapi_impl_initialized c) then ret (attributes, MRAPI_ERR_NODE_NOTINIT)
  else
    match attributes with
    | None => ret (None, MRAPI_ERR_PARAMETER)
    | Some a =>
        let* (a, status) :=
          mrapi_impl_shmem_set_attribute a attribute_num attribute attr_size in
        ret (Some a, status)
    end.

Definition mrapi_shmem_get_attribute (shmem attribute_num : Z)
    (attribute_null : bool) (attribute_size : Z) :
    M mrapi_database (list Z * mrapi_status) :=
  if attribute_null then ret ([], MRAPI_ERR_PARAMETER)
  else
    let* ok := mrapi_impl_valid_shmem_hndl shmem in
    if negb ok then ret ([], MRAPI_ERR_SHM_INVALID)
    else mrapi_impl_shmem_get_attribute shmem attribute_num attribute_size.

Definition mrapi_shmem_get (c : caller) (shmem_id : Z) :
    M mrapi_database (Z * mrapi_status) :=
  if negb (mrapi_impl_initialized c) then ret (0, MRAPI_ERR_NODE_NOTINIT)
  else
    let* exists_ := mrapi_impl_shmem_exists shmem_id in
    if negb exists_ then ret (0, MRAPI_ERR_SHM_ID_INVALID)
    else
      let* (ok, shmem) := mrapi_impl_shmem_get shmem_id in
      ret (shmem, if (ok : bool) then MRAPI_SUCCESS else MRAPI_ERR_NODE_NOTINIT).

Definition mrapi_shmem_attach (o : os) (c : caller) (shmem : Z) :
    M mrapi_database (Z * mrapi_status) :=
  if negb (mrapi_impl_initialized c) then ret (0, MRAPI_ERR_NODE_NOTINIT)
  else
    let* ok := mrapi_impl_valid_shmem_hndl shmem in
    if negb ok then ret (0, MRAPI_ERR_SHM_INVALID)
    else
      let* attached := mrapi_impl_shmem_attached c shmem in
      if (attached : bool) then ret (0, MRAPI_ERR_SHM_ATTACHED)
      else
        let* addr := mrapi_impl_shmem_attach o c shmem in
        ret (addr, if negb (addr =? 0) then MRAPI_SUCCESS else MRAPI_ERR_SHM_INVALID).

Definition mrapi_shmem_detach (o : os) (c : caller) (shmem : Z) :
    M mrapi_database mrapi_status :=
  if negb (mrapi_impl_initialized c) then ret MRAPI_ERR_NODE_NOTINIT
  else
    let* ok := mrapi_impl_valid_shmem_hndl shmem in
    if negb ok then ret MRAPI_ERR_SHM_INVALID
    else
      let* attached := mrapi_impl_shmem_attached c shmem in
      if negb attached then ret MRAPI_ERR_SHM_NOTATTACHED
      else
        let* detached := mrapi_impl_shmem_detach o c shmem in
        ret (if (detached : bool) then MRAPI_SUCCESS else MRAPI_ERR_SHM_INVALID).

(** [*status] is left as it was when the segment cannot be deleted. *)
Definition mrapi_shmem_delete (o : os) (c : caller) (shmem : Z)
    (status : mrapi_status) : M mrapi_database mrapi_status :=
  if negb (mrapi_impl_initialized c) then ret MRAPI_ERR_NODE_NOTINIT
  else
    let* ok := mrapi_impl_valid_shmem_hndl shmem in
    if negb ok then ret MRAPI_ERR_SHM_INVALID
    else
      let* deleted := mrapi_impl_shmem_delete o shmem in
      ret (if (deleted : bool) then MRAPI_SUCCESS else status).
