(* ===== verification/McapiGlue.v ===== *)
(** * MCAPI on top of MRAPI (transport_sm_mrapi_body.c)

    MCAPI keeps its database in a segment of MRAPI shared memory and guards it
    with one MRAPI reader-writer lock with room for a single reader.  The
    functions below run on the MRAPI database; [mcapi_trans_access_database_pre]
    and [_post] (transport_sm.c) are the brackets of every critical section of
    the transport. *)

From S2P Require Import Prelude MrapiTypes MrapiHandles MrapiNodes MrapiLocks MrapiMutexRwl MrapiLockApi MrapiShmem.

(** MRAPI_SUCCESS == status *)
Definition succeeded (status : mrapi_status) : bool := bool_decide (status = MRAPI_SUCCESS).

(** ** The lock *)

Definition transport_sm_create_rwl (c : caller) (key num_readers : Z) :
    M mrapi_database (bool * option Z) :=
  let* (s, status) := mrapi_rwl_create c key None num_readers in
  let* (s, status) :=
    if bool_decide (status = MRAPI_ERR_RWL_EXISTS) then
      let* (s, status) := mrapi_rwl_get c key in ret (default 0 s, status)
    else ret (s, status) in
  ret (if succeeded status then (true, Some s) else (false, None)).

Definition rwl_mode (write : bool) : mrapi_rwl_mode_t :=
  if write then MRAPI_RWL_WRITER else MRAPI_RWL_READER.

Definition transport_sm_lock_rwl (gap : mrapi_database → mrapi_database)
    (yield : nat → mrapi_database → mrapi_database) (fuel : nat) (c : caller)
    (handle : Z) (write : bool) : M mrapi_database bool :=
  let* status := mrapi_rwl_lock gap yield fuel c handle (rwl_mode write) MRAPI_TIMEOUT_INFINITE in
  ret (succeeded status).
Definition transport_sm_unlock_rwl (gap : mrapi_database → mrapi_database) (c : caller)
    (handle : Z) (write : bool) : M mrapi_database bool :=
  let* status := mrapi_rwl_unlock gap c handle (rwl_mode write) in
  ret (succeeded status).

(** [locked], a variable of the thread, counts the brackets it is in. *)
Definition mcapi_trans_access_database_pre (gap : mrapi_database → mrapi_database)
    (yield : nat → mrapi_database → mrapi_database) (fuel : nat) (c : caller)
    (handle : Z) (exclusive : bool) (locked : Z) : M mrapi_database (bool * Z) :=
  c_assert (locked =? 0);;
  let* ok := transport_sm_lock_rwl gap yield fuel c handle exclusive in
  ret (if ok then (true, locked + 1) else (false, locked)).
Definition mcapi_trans_access_database_post (gap : mrapi_database → mrapi_database)
    (c : caller) (handle : Z) (exclusive : bool) (locked : Z) : M mrapi_database (bool * Z) :=
  c_assert (locked =? 1);;
  let* ok := transport_sm_unlock_rwl gap c handle exclusive in
  ret (if ok then (true, locked - 1) else (false, locked)).

(** ** The shared memory

    Results: whether it worked, the address, and the handle for [shm] when it
    is replaced. *)

Definition transport_sm_get_shared_mem (o : os) (c : caller) (shmkey : Z) :
    M mrapi_database (bool * option Z * option Z) :=
  let* (shm_local, status) := mrapi_shmem_get c shmkey in
  if succeeded status then
    let* (addr, status) := mrapi_shmem_attach o c shm_local in
    ret (succeeded status, Some addr, Some shm_local)
  else ret (false, None, None).
Definition transport_sm_create_shared_mem (o : os) (c : caller) (shmkey size : Z) :
    M mrapi_database (bool * option Z * option Z) :=
  let* (shm_local, status) := mrapi_shmem_create o c shmkey size None in
  if succeeded status then
    let* (addr, status) := mrapi_shmem_attach o c shm_local in
    ret (succeeded status, Some addr, Some shm_local)
  else ret (false, None, None).

(** ** Start and end

    [key]: what sys_file_key answers. *)
Definition transport_sm_initialize (o : os) (c : caller) (domain_id node_id key : Z) :
    M mrapi_database (bool * option Z * caller) :=
  let* (c, status) := mrapi_initialize o c domain_id node_id false in
  if succeeded status || bool_decide (status = MRAPI_ERR_NODE_INITIALIZED) then
    let* (ok, handle) := transport_sm_create_rwl c key 1 in
    ret ((ok : bool), handle, c)
  else ret (false, None, c).

Definition transport_sm_finalize (gap : mrapi_database → mrapi_database)
    (yield : nat → mrapi_database → mrapi_database) (fuel : nat) (o : os) (c : caller)
    (shm : Z) (last_man_standing finalize_mrapi : bool) (handle : Z) :
    M mrapi_database (bool * caller) :=
  let* status := mrapi_shmem_detach o c shm in
  let rc := succeeded status in
  let* rc :=
    if last_man_standing then
      let* status := mrapi_shmem_delete o c shm status in
      let rc := rc && succeeded status in
      let* status := mrapi_rwl_lock gap yield fuel c handle MRAPI_RWL_WRITER MRAPI_TIMEOUT_INFINITE in
      if succeeded status then
        let* status := mrapi_rwl_delete c handle in ret (rc && succeeded status)
      else ret false
    else ret rc in
  if finalize_mrapi then
    let* (c, status) := mrapi_finalize o c in ret (rc && succeeded status, c)
  else ret (rc, c).
