(* ===== verification/MrapiRmem.v ===== *)
(** Remote memory: [mrapi_impl_spec_rmem.c], [mrapi_rmem.c], and the request
    functions of [mrapi_vtime.c] that complete its non-blocking operations.

    A remote memory entry gives a user buffer a name; reads and writes copy
    strided blocks between it and a local buffer.  The bytes of the calling
    process are a finite map from addresses; touching an address outside it
    is a fault. *)

From S2P Require Import Prelude MrapiTypes MrapiHandles MrapiLocks.

Definition upd_rmem (i : nat) (f : mrapi_rmem_t → mrapi_rmem_t)
    (db : mrapi_database) : mrapi_database := db <| rmems ::= alter f i |>.
Definition modify_rmem (i : nat) (f : mrapi_rmem_t → mrapi_rmem_t) :
    M mrapi_database unit :=
  arr_get rmems i;; modify (upd_rmem i f).

(** ** The entries *)

Definition mrapi_impl_valid_rmem_id (rmem_id : Z) : bool := true.

Definition mrapi_impl_valid_atype (access_type : mrapi_rmem_atype_t) : bool :=
  bool_decide (access_type = MRAPI_RMEM_DUMMY).

Definition mrapi_impl_rmem_attached (c : caller) (rmem : Z) : M mrapi_database bool :=
  let* (n, d) := assert_whoami c in
  let '(r, valid) := mrapi_impl_decode_hndl rmem in
  if valid then
    let* x := arr_get rmems r in
    if rm_valid x then from_option_oob (rm_nodes x !! n) else ret false
  else ret false.

Definition mrapi_impl_rmem_exists (rmem_id : Z) : M mrapi_database bool :=
  let* db := get in
  let* r := lift (c_scan (λ x, rm_valid x && (rm_key x =? rmem_id)) (rmems db)
                    MRAPI_MAX_RMEMS 0) in
  ret (r <? MRAPI_MAX_RMEMS)%nat.

Definition mrapi_impl_rmem_create (c : caller) (rmem_id mem : Z)
    (access_type : mrapi_rmem_atype_t)
    (attributes : option mrapi_impl_attributes_t) (size : Z) :
    M mrapi_database (Z * mrapi_status) :=
  assert_whoami c;;
  let* db := get in
  let fail st := ret (mrapi_impl_encode_hndl (Z.of_nat MRAPI_MAX_RMEMS), st) in
  (* make sure we have room in the database *)
  if num_rmems db =? Z.of_nat MRAPI_MAX_RMEMS then fail MRAPI_ERR_MEM_LIMIT
  else
    (* make sure the remote memory doesn't already exist *)
    let* r := lift (c_scan (λ x, rm_valid x && (rm_key x =? rmem_id)) (rmems db)
                      MRAPI_MAX_RMEMS 0) in
    if (r <? MRAPI_MAX_RMEMS)%nat then fail MRAPI_ERR_RMEM_EXISTS
    else
      (* update our database *)
      let* r := lift (c_scan (λ x, negb (rm_valid x)) (rmems db)
                        MRAPI_MAX_RMEMS 0) in
      (if (r <? MRAPI_MAX_RMEMS)%nat then
         modify_rmem r (λ x, x <| rm_key := rmem_id |> <| rm_valid := true |>
           <| rm_addr := mem |> <| rm_size := size |>
           <| rm_access_type := access_type |>);;
         match attributes with
         | Some a =>
             modify_rmem r (λ x, x <| rm_attributes ::= λ at_,
               at_ <| ext_error_checking := ext_error_checking a |>
                   <| shared_across_domains := shared_across_domains a |> |>)
         | None =>
             modify_rmem r (λ x, x <| rm_attributes ::= λ at_,
               at_ <| ext_error_checking := MRAPI_FALSE |>
                   <| shared_across_domains := MRAPI_TRUE |> |>)
         end;;
         modify (λ db, db <| num_rmems ::= λ k, u8 (k + 1) |>)
       else ret tt);;
      ret (mrapi_impl_encode_hndl (Z.of_nat r), MRAPI_SUCCESS).

Definition mrapi_impl_rmem_init_attributes (a : mrapi_impl_attributes_t) :
    mrapi_impl_attributes_t :=
  a <| ext_error_checking := MRAPI_FALSE |> <| shared_across_domains := MRAPI_TRUE |>.

Definition mrapi_impl_rmem_set_attribute {S} (a : mrapi_impl_attributes_t)
    (attribute_num : Z) (attribute : list Z) (attr_size : Z) :
    M S (mrapi_impl_attributes_t * mrapi_status) :=
  if attribute_num =? MRAPI_ERROR_EXT then
    if negb (attr_size =? Z.of_nat sizeof_boolean) then ret (a, MRAPI_ERR_ATTR_SIZE)
    else let* b := memcpy_byte attribute in
         ret (a <| ext_error_checking := b |>, MRAPI_SUCCESS)
  else if attribute_num =? MRAPI_DOMAIN_SHARED then
    if negb (attr_size =? Z.of_nat sizeof_boolean) then ret (a, MRAPI_ERR_ATTR_SIZE)
    else let* b := memcpy_byte attribute in
         ret (a <| shared_across_domains := b |>, MRAPI_SUCCESS)
  else ret (a, MRAPI_ERR_ATTR_NUM).

Definition mrapi_impl_rmem_get_attribute (rmem : Z) (attribute_num : Z)
    (attr_size : Z) : M mrapi_database (list Z * mrapi_status) :=
  let '(r, valid) := mrapi_impl_decode_hndl rmem in
  c_assert valid;;
  if attribute_num =? MRAPI_ERROR_EXT then
    if negb (attr_size =? Z.of_nat sizeof_boolean) then ret ([], MRAPI_ERR_ATTR_SIZE)
    else let* x := arr_get rmems r in
         ret ([ext_error_checking (rm_attributes x)], MRAPI_SUCCESS)
  else if attribute_num =? MRAPI_DOMAIN_SHARED then
    if negb (attr_size =? Z.of_nat sizeof_boolean) then ret ([], MRAPI_ERR_ATTR_SIZE)
    else let* x := arr_get rmems r in
         ret ([shared_across_domains (rm_attributes x)], MRAPI_SUCCESS)
  else ret ([], MRAPI_ERR_ATTR_NUM).

(** The [rmem_id] is unsigned here, the stored key is signed. *)
Definition mrapi_impl_rmem_get (rmem_id : Z) : M mrapi_database (bool * Z) :=
  let* db := get in
  let* r := lift (c_scan (λ x, u32 (rm_key x) =? u32 rmem_id) (rmems db)
                    MRAPI_MAX_RMEMS 0) in
  ret ((r <? MRAPI_MAX_RMEMS)%nat, mrapi_impl_encode_hndl (Z.of_nat r)).

(** [mrapi_db->rmems[r].nodes[n] = b;] *)
Definition log_rmem_user (r n : nat) (b : bool) : M mrapi_database unit :=
  let* x := arr_get rmems r in
  from_option_oob (rm_nodes x !! n);;
  modify_rmem r (λ x, x <| rm_nodes ::= <[n := b]> |>).

Definition mrapi_impl_rmem_attach (c : caller) (rmem : Z) : M mrapi_database bool :=
  let* (n, d) := assert_whoami c in
  let '(r, valid) := mrapi_impl_decode_hndl rmem in
  c_assert valid;;
  let* x := arr_get rmems r in
  let* logged := from_option_oob (rm_nodes x !! n) in
  (if (logged : bool) then ret tt
   else
     log_rmem_user r n true;;
     modify_rmem r (λ x, x <| rm_refs ::= λ k, u8 (k + 1) |>));;
  ret true.

Definition mrapi_impl_rmem_detach (c : caller) (rmem : Z) : M mrapi_database bool :=
  let* (n, d) := assert_whoami c in
  let '(r, valid) := mrapi_impl_decode_hndl rmem in
  c_assert valid;;
  log_rmem_user r n false;; (* remove this node as a user *)
  modify_rmem r (λ x, x <| rm_refs ::= λ k, u8 (k - 1) |>);;
  ret true.

Definition mrapi_impl_rmem_delete (rmem : Z) : M mrapi_database bool :=
  let '(r, valid) := mrapi_impl_decode_hndl rmem in
  c_assert valid;;
  modify_rmem r (λ x, x <| rm_valid := false |>);;
  ret true.

(** ** Strided copies *)

(** [memcpy (dst, src, k)], byte by byte. *)
Fixpoint copy_bytes (k : nat) (dst src : Z) (m : gmap Z Z) : result (gmap Z Z) :=
  match k with
  | O => Done m
  | S k' =>
      match m !! src, m !! dst with
      | Some b, Some _ => copy_bytes k' (dst + 1) (src + 1) (<[dst := b]> m)
      | _, _ => Fault OutOfBounds
      end
  end.

(** [for (i = 0; i < num_strides; i++)] with a 16-bit [i]: copy a block and
    advance both pointers. *)
Fixpoint strided_copy (fuel : nat) (i num_strides : Z) (bytes : nat)
    (dst src dst_stride src_stride : Z) (m : gmap Z Z) : result (gmap Z Z) :=
  if i <? num_strides then
    match fuel with
    | O => Fault OutOfFuel
    | S fuel' =>
        match copy_bytes bytes dst src m with
        | Fault f => Fault f
        | Done m =>
            strided_copy fuel' (u16 (i + 1)) num_strides bytes
              (dst + dst_stride) (src + src_stride) dst_stride src_stride m
        end
    end
  else Done m.

(** A database and the memory of the calling process. *)
Definition rstate : Type := mrapi_database * gmap Z Z.
Definition on_db {A} (m : M mrapi_database A) : M rstate A := λ s,
  match m s.1 with
  | Done (a, db) => Done (a, (db, s.2))
  | Fault f => Fault f
  end.
Definition on_mem (f : gmap Z Z → result (gmap Z Z)) : M rstate unit := λ s,
  match f s.2 with
  | Done m => Done (tt, (s.1, m))
  | Fault f => Fault f
  end.

(** Enough iterations for every 16-bit counter. *)
Definition max_strides : nat := Z.to_nat 65536.

(** The pointer comparison is done on unbounded addresses; the product of the
    two 32-bit parameters wraps. *)
Definition mrapi_impl_rmem_read (fuel : nat) (rmem rmem_offset local_buf
    local_offset bytes_per_access num_strides rmem_stride local_stride : Z) :
    M rstate bool :=
  let '(r, valid) := mrapi_impl_decode_hndl rmem in
  c_assert valid;;
  let* x := on_db (arr_get rmems r) in
  let last_remote_access :=
    rm_addr x + rmem_offset + u32 (rmem_stride * num_strides) in
  let upper_bound := rm_addr x + rm_size x - 1 in
  if negb (rm_valid x) then ret false
  else if upper_bound <? last_remote_access then (* buffer overrun *) ret false
  else
    on_mem (strided_copy fuel 0 num_strides (Z.to_nat bytes_per_access)
      (local_buf + local_offset) (rm_addr x + rmem_offset)
      local_stride rmem_stride);;
    ret true.

Definition mrapi_impl_rmem_write (fuel : nat) (rmem rmem_offset local_buf
    local_offset bytes_per_access num_strides rmem_stride local_stride : Z) :
    M rstate bool :=
  let '(r, valid) := mrapi_impl_decode_hndl rmem in
  c_assert valid;;
  let* x := on_db (arr_get rmems r) in
  let last_remote_access :=
    rm_addr x + rmem_offset + u32 (rmem_stride * num_strides) + bytes_per_access in
  let upper_bound := rm_addr x + rm_size x in
  if negb (rm_valid x) then ret false
  else if upper_bound <? last_remote_access then (* buffer overrun *) ret false
  else
    on_mem (strided_copy fuel 0 num_strides (Z.to_nat bytes_per_access)
      (rm_addr x + rmem_offset) (local_buf + local_offset)
      rmem_stride local_stride);;
    ret true.

(** The non-blocking versions complete at once; returns
    [(rc, *request, *status)].  [setup_request] fails its assertion rather
    than return an index past the end, so the limit branch is kept only to
    mirror the code. *)
Definition mrapi_impl_rmem_read_i (fuel : nat) (c : caller) (rmem rmem_offset
    local_buf local_offset bytes_per_access num_strides rmem_stride
    local_stride : Z) (status : mrapi_status) :
    M rstate (bool * Z * mrapi_status) :=
  let* r := on_db (mrapi_impl_setup_request c) in
  if (r <? MRAPI_MAX_REQUESTS)%nat then
    let* rc := mrapi_impl_rmem_read fuel rmem rmem_offset local_buf local_offset
                 bytes_per_access num_strides rmem_stride local_stride in
    on_db (modify_request r (λ x, x <| rq_completed := true |>
             <| rq_status := status |>));;
    ret (rc, mrapi_impl_encode_hndl (Z.of_nat r), MRAPI_SUCCESS)
  else ret (false, 0xffffffff, MRAPI_ERR_REQUEST_LIMIT).

Definition mrapi_impl_rmem_write_i (fuel : nat) (c : caller) (rmem rmem_offset
    local_buf local_offset bytes_per_access num_strides rmem_stride
    local_stride : Z) (status : mrapi_status) :
    M rstate (bool * Z * mrapi_status) :=
  let* r := on_db (mrapi_impl_setup_request c) in
  if (r <? MRAPI_MAX_REQUESTS)%nat then
    let* rc := mrapi_impl_rmem_write fuel rmem rmem_offset local_buf local_offset
                 bytes_per_access num_strides rmem_stride local_stride in
    on_db (modify_request r (λ x, x <| rq_completed := true |>
             <| rq_status := status |>));;
    ret (rc, mrapi_impl_encode_hndl (Z.of_nat r), MRAPI_SUCCESS)
  else ret (false, 0xffffffff, MRAPI_ERR_REQUEST_LIMIT).

(** ** The public functions *)

Definition mrapi_rmem_create (c : caller) (rmem_id mem : Z)
    (access_type : mrapi_rmem_atype_t)
    (attributes : option mrapi_impl_attributes_t) (size : Z) :
    M mrapi_database (Z * mrapi_status) :=
  if negb (mrapi_impl_initialized c) then ret (0, MRAPI_ERR_NODE_NOTINIT)
  else if negb (mrapi_impl_rmem_validID rmem_id) then
    ret (0, MRAPI_ERR_RMEM_ID_INVALID)
  else
    let* exists_ := mrapi_impl_rmem_exists rmem_id in
    if (exists_ : bool) then ret (0, MRAPI_ERR_RMEM_EXISTS)
    else if negb (mrapi_impl_valid_atype access_type) then
      ret (0, MRAPI_ERR_RMEM_TYPENOTVALID)
    else mrapi_impl_rmem_create c rmem_id mem access_type attributes size.

Definition mrapi_rmem_init_attributes (attributes : option mrapi_impl_attributes_t)
    (status : mrapi_status) : option mrapi_impl_attributes_t * mrapi_status :=
  match attributes with
  | None => (None, MRAPI_ERR_PARAMETER)
  | Some a => (Some (mrapi_impl_rmem_init_attributes a), status)
  end.

Definition mrapi_rmem_set_attribute {S} (attributes : option mrapi_impl_attributes_t)
    (attribute_num : Z) (attribute : list Z) (attr_size : Z) :
    M S (option mrapi_impl_attributes_t * mrapi_status) :=
  match attributes with
  | None => ret (None, MRAPI_ERR_PARAMETER)
  | Some a =>
      let* (a, status) :=
        mrapi_impl_rmem_set_attribute a attribute_num attribute attr_size in
      ret (Some a, status)
  end.

Definition mrapi_rmem_get_attribute (c : caller) (rmem attribute_num : Z)
    (attribute_null : bool) (attribute_size : Z) :
    M mrapi_database (list Z * mrapi_status) :=
  if negb (mrapi_impl_initialized c) then ret ([], MRAPI_ERR_NODE_NOTINIT)
  else if attribute_null then ret ([], MRAPI_ERR_PARAMETER)
  else
    let* ok := mrapi_impl_valid_rmem_hndl rmem in
    if negb ok then ret ([], MRAPI_ERR_RMEM_INVALID)
    else mrapi_impl_rmem_get_attribute rmem attribute_num attribute_size.

Definition mrapi_rmem_get (c : caller) (rmem_id : Z)
    (access_type : mrapi_rmem_atype_t) : M mrapi_database (Z * mrapi_status) :=
  if negb (mrapi_impl_initialized c) then ret (0, MRAPI_ERR_NODE_NOTINIT)
  else if negb (mrapi_impl_valid_atype access_type) then
    ret (0, MRAPI_ERR_RMEM_TYPENOTVALID)
  else
    let* (ok, rmem) := mrapi_impl_rmem_get rmem_id in
    ret (rmem, if (ok : bool) then MRAPI_SUCCESS else MRAPI_ERR_RMEM_ID_INVALID).

Definition mrapi_rmem_attach (c : caller) (rmem : Z)
    (access_type : mrapi_rmem_atype_t) : M mrapi_database mrapi_status :=
  if negb (mrapi_impl_initialized c) then ret MRAPI_ERR_NODE_NOTINIT
  else
    let* ok := mrapi_impl_valid_rmem_hndl rmem in
    if negb ok then ret MRAPI_ERR_RMEM_INVALID
    else
      let* attached := mrapi_impl_rmem_attach c rmem in
      ret (if (attached : bool) then MRAPI_SUCCESS else MRAPI_ERR_RMEM_TYPENOTVALID).

Definition mrapi_rmem_detach (c : caller) (rmem : Z) : M mrapi_database mrapi_status :=
  if negb (mrapi_impl_initialized c) then ret MRAPI_ERR_NODE_NOTINIT
  else
    let* ok := mrapi_impl_valid_rmem_hndl rmem in
    if negb ok then ret MRAPI_ERR_RMEM_INVALID
    else
      let* detached := mrapi_impl_rmem_detach c rmem in
      ret (if (detached : bool) then MRAPI_SUCCESS else MRAPI_ERR_RMEM_INVALID).

(** [*status] is left as it was if the implementation returns [MRAPI_FALSE]. *)
Definition mrapi_rmem_delete (c : caller) (rmem : Z) (status : mrapi_status) :
    M mrapi_database mrapi_status :=
  if negb (mrapi_impl_initialized c) then ret MRAPI_ERR_NODE_NOTINIT
  else
    let* ok := mrapi_impl_valid_rmem_hndl rmem in
    if negb ok then ret MRAPI_ERR_RMEM_INVALID
    else
      let* deleted := mrapi_impl_rmem_delete rmem in
      ret (if (deleted : bool) then MRAPI_SUCCESS else status).

(** The checks shared by the four transfer functions: the status that ends
    the call, if any. *)
Definition rmem_transfer_check (c : caller) (rmem bytes_per_access rmem_stride
    local_stride : Z) : M mrapi_database (option mrapi_status) :=
  if negb (mrapi_impl_initialized c) then ret (Some MRAPI_ERR_NODE_NOTINIT)
  else
    let* ok := mrapi_impl_valid_rmem_hndl rmem in
    if negb ok then ret (Some MRAPI_ERR_RMEM_INVALID)
    else if (rmem_stride <? bytes_per_access) || (local_stride <? bytes_per_access)
    then ret (Some MRAPI_ERR_RMEM_STRIDE)
    else
      let* attached := mrapi_impl_rmem_attached c rmem in
      ret (if (attached : bool) then None else Some MRAPI_ERR_RMEM_NOTATTACHED).

(** The implementation's result is ignored: [*status] stays [MRAPI_SUCCESS]. *)
Definition mrapi_rmem_read (fuel : nat) (c : caller) (rmem rmem_offset local_buf
    local_offset bytes_per_access num_strides rmem_stride local_stride : Z) :
    M rstate mrapi_status :=
  let* e := on_db (rmem_transfer_check c rmem bytes_per_access rmem_stride
                     local_stride) in
  match e with
  | Some status => ret status
  | None =>
      mrapi_impl_rmem_read fuel rmem rmem_offset local_buf local_offset
        bytes_per_access num_strides rmem_stride local_stride;;
      ret MRAPI_SUCCESS
  end.

Definition mrapi_rmem_write (fuel : nat) (c : caller) (rmem rmem_offset local_buf
    local_offset bytes_per_access num_strides rmem_stride local_stride : Z) :
    M rstate mrapi_status :=
  let* e := on_db (rmem_transfer_check c rmem bytes_per_access rmem_stride
                     local_stride) in
  match e with
  | Some status => ret status
  | None =>
      mrapi_impl_rmem_write fuel rmem rmem_offset local_buf local_offset
        bytes_per_access num_strides rmem_stride local_stride;;
      ret MRAPI_SUCCESS
  end.

(** Returns [( *mrapi_request, *status)]; the request is not assigned when a
    check fails. *)
Definition mrapi_rmem_read_i (fuel : nat) (c : caller) (rmem rmem_offset local_buf
    local_offset bytes_per_access num_strides rmem_stride local_stride
    request : Z) : M rstate (Z * mrapi_status) :=
  let* e := on_db (rmem_transfer_check c rmem bytes_per_access rmem_stride
                     local_stride) in
  match e with
  | Some status => ret (request, status)
  | None =>
      let* (_, request, status) := mrapi_impl_rmem_read_i fuel c rmem rmem_offset
        local_buf local_offset bytes_per_access num_strides rmem_stride
        local_stride MRAPI_SUCCESS in
      ret (request, status)
  end.

Definition mrapi_rmem_write_i (fuel : nat) (c : caller) (rmem rmem_offset local_buf
    local_offset bytes_per_access num_strides rmem_stride local_stride
    request : Z) : M rstate (Z * mrapi_status) :=
  let* e := on_db (rmem_transfer_check c rmem bytes_per_access rmem_stride
                     local_stride) in
  match e with
  | Some status => ret (request, status)
  | None =>
      let* (_, request, status) := mrapi_impl_rmem_write_i fuel c rmem rmem_offset
        local_buf local_offset bytes_per_access num_strides rmem_stride
        local_stride MRAPI_SUCCESS in
      ret (request, status)
  end.

Definition mrapi_rmem_flush (c : caller) (rmem : Z) : M mrapi_database mrapi_status :=
  if negb (mrapi_impl_initialized c) then ret MRAPI_ERR_NODE_NOTINIT
  else
    let* attached := mrapi_impl_rmem_attached c rmem in
    ret (if negb attached then MRAPI_ERR_RMEM_NOTATTACHED else MRAPI_ERR_NOT_SUPPORTED).

Definition mrapi_rmem_sync (c : caller) (rmem : Z) : M mrapi_database mrapi_status :=
  if negb (mrapi_impl_initialized c) then ret MRAPI_ERR_NODE_NOTINIT
  else
    let* attached := mrapi_impl_rmem_attached c rmem in
    ret (if negb attached then MRAPI_ERR_RMEM_NOTATTACHED else MRAPI_ERR_NOT_SUPPORTED).

(** ** Completing requests *)

Definition MRAPI_RETURN_VALUE_INVALID : Z := 0xffffffff.

Definition mrapi_test (c : caller) (request : Z) :
    M mrapi_database (bool * mrapi_status) :=
  if negb (mrapi_impl_initialized c) then ret (false, MRAPI_ERR_NODE_NOTINIT)
  else
    let* ok := mrapi_impl_valid_request_hndl request in
    if negb ok then ret (false, MRAPI_ERR_REQUEST_INVALID)
    else mrapi_impl_test request.

(** [while (i < timeout)], with what the other nodes do between two calls. *)
Fixpoint wait_loop (between : nat → mrapi_database → mrapi_database) (fuel i : nat)
    (request timeout : Z) : M mrapi_database (bool * mrapi_status) :=
  if Z.of_nat i <? timeout then
    match fuel with
    | O => raise OutOfFuel
    | S fuel' =>
        let* ok := mrapi_impl_valid_request_hndl request in
        if negb ok then ret (false, MRAPI_ERR_REQUEST_INVALID)
        else
          let* canceled := mrapi_impl_canceled_request request in
          if (canceled : bool) then ret (false, MRAPI_ERR_REQUEST_CANCELED)
          else
            let* (done_, _) := mrapi_impl_test request in
            if (done_ : bool) then ret (true, MRAPI_SUCCESS)
            else modify (between i);; wait_loop between fuel' (S i) request timeout
    end
  else ret (false, MRAPI_TIMEOUT).

Definition mrapi_wait (between : nat → mrapi_database → mrapi_database) (fuel : nat)
    (c : caller) (request timeout : Z) : M mrapi_database (bool * mrapi_status) :=
  if negb (mrapi_impl_initialized c) then ret (false, MRAPI_ERR_NODE_NOTINIT)
  else wait_loop between fuel 0 request timeout.

(** One pass of the [for] loop of mrapi_wait_any: the index of the first request
    that has completed, and the status as the pass leaves it. *)
Fixpoint wait_any_round (requests : list Z) (i : Z) (status : mrapi_status) :
    M mrapi_database (option Z * mrapi_status) :=
  match requests with
  | [] => ret (None, status)
  | request :: requests =>
      let* ok := mrapi_impl_valid_request_hndl request in
      if negb ok then wait_any_round requests (i + 1) MRAPI_ERR_REQUEST_INVALID
      else
        let* canceled := mrapi_impl_canceled_request request in
        if (canceled : bool) then wait_any_round requests (i + 1) MRAPI_ERR_REQUEST_CANCELED
        else
          let* (done_, status) := mrapi_impl_test request in
          if (done_ : bool) then ret (Some i, status)
          else wait_any_round requests (i + 1) status
  end.
(** The [do] loop: its condition compares the timeout with the counter of the pass
    that has just ended, and not with the number of passes. *)
Fixpoint wait_any_loop (between : nat → mrapi_database → mrapi_database) (fuel round : nat)
    (requests : list Z) (timeout : Z) (status : mrapi_status) :
    M mrapi_database (Z * mrapi_status) :=
  match fuel with
  | O => raise OutOfFuel
  | S fuel =>
      let* (found, status) := wait_any_round requests 0 status in
      match found with
      | Some i => ret (i, status)
      | None =>
          let i := u32 (Z.of_nat (length requests) + 1) in
          if i <? timeout then
            modify (between round);;
            wait_any_loop between fuel (S round) requests timeout status
          else ret (MRAPI_RETURN_VALUE_INVALID, status)
      end
  end.
Definition mrapi_wait_any (between : nat → mrapi_database → mrapi_database) (fuel : nat)
    (c : caller) (requests : list Z) (timeout : Z) : M mrapi_database (Z * mrapi_status) :=
  if negb (mrapi_impl_initialized c) then ret (MRAPI_RETURN_VALUE_INVALID, MRAPI_ERR_NODE_NOTINIT)
  else wait_any_loop between fuel 0 requests timeout MRAPI_TIMEOUT.

Definition mrapi_cancel (c : caller) : mrapi_status :=
  if negb (mrapi_impl_initialized c) then MRAPI_ERR_NODE_NOTINIT else MRAPI_SUCCESS.
