(* ===== verification/MrapiResources.v ===== *)
(** The resource tree and its callbacks: [mrapi_impl_spec_resources.c],
    [mrapi_resources.c], [resource_tree.h].

    The system's resources are a tree in static memory; a node asks for the
    resources of one kind and gets a tree of copies on the heap, whose dynamic
    attributes it can start, read, reset and stop.  The memory of the process is
    a finite map from addresses to cells, where a cell is what one variable or
    one malloc holds; reading an address at another type, or one that holds
    nothing, is a fault.  A critical section of the database is one function. *)

From S2P Require Import Prelude MrapiTypes MrapiHandles.

(** ** Data *)

Inductive mrapi_resource_type := CPU | CACHE | MEM | CORE_COMPLEX | CROSSBAR | SYSTEM.
Inductive mrapi_attribute_static := MRAPI_ATTR_STATIC | MRAPI_ATTR_DYNAMIC.
Inductive rsrc_type_t := RSRC_UINT16_T | RSRC_UINT32_T.
#[export] Instance mrapi_resource_type_dec : EqDecision mrapi_resource_type.
Proof. solve_decision. Defined.
#[export] Instance mrapi_attribute_static_dec : EqDecision mrapi_attribute_static.
Proof. solve_decision. Defined.

(** The filters by their numbers: the user may pass any. *)
Definition MRAPI_RSRC_MEM : Z := 0.
Definition MRAPI_RSRC_CPU : Z := 1.
Definition MRAPI_RSRC_CACHE : Z := 2.
Definition MRAPI_RSRC_DMA : Z := 3.
Definition MRAPI_RSRC_CROSSBAR : Z := 4.
Definition MRAPI_EVENT_POWER_MANAGEMENT : Z := 0.
Definition MRAPI_EVENT_CROSSBAR_BUFFER_UNDER_20PERCENT : Z := 1.
Definition MRAPI_EVENT_CROSSBAR_BUFFER_OVER_80PERCENT : Z := 2.
Definition MRAPI_MAX_CALLBACKS : nat := 10.

Record mrapi_resource_t := mk_resource {
  rs_name : Z;
  rs_resource_type : mrapi_resource_type;
  rs_number_of_children : Z;
  rs_children : Z;
  rs_number_of_attributes : Z;
  rs_attribute_types : Z;
  rs_attribute_values : Z;
  rs_attribute_static : Z;
  rs_attribute_started : Z }.

Inductive cell :=
| Chars (s : string)
| Resource (r : mrapi_resource_t)
| Pointers (l : list Z)
| Uint16 (v : Z)
| Uint32 (v : Z)
| RsrcType (t : rsrc_type_t)
| StaticFlag (t : mrapi_attribute_static)
| Boolean (b : Z).
Abbreviation memory_of_cells := (gmap Z cell).

Record mrapi_callback_t := mk_callback {
  callback_func : Z;
  callback_event : Z;
  callback_frequency : Z;
  callback_count : Z;
  callback_node_id : Z }.
#[export] Instance eta_callback : Settable mrapi_callback_t := λ r,
  mk_callback (callback_func r) (callback_event r) (callback_frequency r)
    (callback_count r) (callback_node_id r).
Definition zero_callback : mrapi_callback_t := mk_callback 0 0 0 0 0.

(** The memory, the last four fields of [mrapi_database], and whether an alarm
    is set. *)
Record resources := mk_resources {
  cells : memory_of_cells;
  rollover_callbacks_ptr : list Z;
  rollover_index : Z;
  callbacks_array : list mrapi_callback_t;
  callback_index : Z;
  alarm_set : bool }.
#[export] Instance eta_resources : Settable resources := λ r,
  mk_resources (cells r) (rollover_callbacks_ptr r) (rollover_index r)
    (callbacks_array r) (callback_index r) (alarm_set r).

(** ** Memory *)

Definition load {A} (select : cell → option A) (a : Z) : M resources A :=
  let* w := get in from_option_oob (cells w !! a ≫= select).
Definition store (a : Z) (c : cell) : M resources unit :=
  let* w := get in
  from_option_oob (cells w !! a);;
  modify (λ w, w <| cells ::= <[a := c]> |>).
Definition as_chars c := match c with Chars s => Some s | _ => None end.
Definition as_resource c := match c with Resource r => Some r | _ => None end.
Definition as_pointers c := match c with Pointers l => Some l | _ => None end.
Definition as_uint16 c := match c with Uint16 v => Some v | _ => None end.
Definition as_uint32 c := match c with Uint32 v => Some v | _ => None end.
Definition as_rsrc_type c := match c with RsrcType t => Some t | _ => None end.
Definition as_static c := match c with StaticFlag t => Some t | _ => None end.
Definition as_boolean c := match c with Boolean b => Some b | _ => None end.

(** [p[i]] *)
Definition load_pointer (p i : Z) : M resources Z :=
  let* l := load as_pointers p in from_option_oob (l !! Z.to_nat i).
(** [p[i] = v] *)
Definition store_pointer (p i v : Z) : M resources unit :=
  let* l := load as_pointers p in
  from_option_oob (l !! Z.to_nat i);;
  store p (Pointers (<[Z.to_nat i := v]> l)).

(** [for (i = 0; i < n; i++)] with a counter of 16 bits.  [n] iterations end the
    loop, or no number of them does. *)
Fixpoint for_u16 {A} (fuel : nat) (i n : Z) (body : Z → A → M resources A) (acc : A) :
    M resources A :=
  if i <? n then
    match fuel with
    | O => raise OutOfFuel
    | S fuel' => let* acc := body i acc in for_u16 fuel' (u16 (i + 1)) n body acc
    end
  else ret acc.
Definition for_to {A} (n : Z) (body : Z → A → M resources A) (acc : A) : M resources A :=
  for_u16 (Z.to_nat n) 0 n body acc.

(** ** The static tree (resource_tree.h)

    Every variable has an address, counted in the order of declaration; the
    string constants come last. *)
Definition chip_memory : memory_of_cells := list_to_map [
   (1, Uint16 1024); (2, Uint32 0xfffff000); (3, Pointers [1; 2]);
   (4, RsrcType RSRC_UINT16_T); (5, RsrcType RSRC_UINT32_T); (6, Pointers [4; 5]);
   (7, StaticFlag MRAPI_ATTR_STATIC); (8, StaticFlag MRAPI_ATTR_STATIC); (9, Pointers [7; 8]);
   (10, Boolean MRAPI_FALSE); (11, Boolean MRAPI_FALSE); (12, Pointers [10; 11]);
   (13, Uint16 1024); (14, Uint32 0); (15, Pointers [13; 14]); (16, RsrcType RSRC_UINT16_T);
   (17, RsrcType RSRC_UINT32_T); (18, Pointers [16; 17]); (19, StaticFlag MRAPI_ATTR_STATIC);
   (20, StaticFlag MRAPI_ATTR_DYNAMIC); (21, Pointers [19; 20]); (22, Boolean MRAPI_FALSE);
   (23, Boolean MRAPI_FALSE); (24, Pointers [22; 23]); (25, Uint32 200000001);
   (26, Uint16 32); (27, Uint16 128); (28, Pointers [25; 26; 27]);
   (29, RsrcType RSRC_UINT32_T); (30, RsrcType RSRC_UINT16_T); (31, RsrcType RSRC_UINT16_T);
   (32, Pointers [29; 30; 31]); (33, StaticFlag MRAPI_ATTR_STATIC);
   (34, StaticFlag MRAPI_ATTR_STATIC); (35, StaticFlag MRAPI_ATTR_STATIC);
   (36, Pointers [33; 34; 35]); (37, Boolean MRAPI_FALSE); (38, Boolean MRAPI_FALSE);
   (39, Boolean MRAPI_FALSE); (40, Pointers [37; 38; 39]); (41, Uint32 400000002);
   (42, Uint16 64); (43, Uint16 256); (44, Pointers [41; 42; 43]);
   (45, RsrcType RSRC_UINT32_T); (46, RsrcType RSRC_UINT16_T); (47, RsrcType RSRC_UINT16_T);
   (48, Pointers [45; 46; 47]); (49, StaticFlag MRAPI_ATTR_STATIC);
   (50, StaticFlag MRAPI_ATTR_STATIC); (51, StaticFlag MRAPI_ATTR_STATIC);
   (52, Pointers [49; 50; 51]); (53, Boolean MRAPI_FALSE); (54, Boolean MRAPI_FALSE);
   (55, Boolean MRAPI_FALSE); (56, Pointers [53; 54; 55]); (57, Uint16 8);
   (58, Pointers [57]); (59, RsrcType RSRC_UINT16_T); (60, Pointers [59]);
   (61, StaticFlag MRAPI_ATTR_STATIC); (62, Pointers [61]); (63, Boolean MRAPI_FALSE);
   (64, Pointers [63]); (65, Resource (mk_resource 200 CPU 0 0 3 32 28 36 40));
   (66, Resource (mk_resource 201 CPU 0 0 3 32 44 52 56)); (67, Pointers [65; 66]);
   (68, Resource (mk_resource 202 CORE_COMPLEX 2 67 0 0 0 0 0));
   (69, Resource (mk_resource 203 CROSSBAR 0 0 1 60 58 62 64));
   (70, Resource (mk_resource 204 CACHE 0 0 2 18 15 21 24));
   (71, Resource (mk_resource 205 MEM 0 0 2 6 3 9 12)); (72, Pointers [68; 69; 70; 71]);
   (73, Resource (mk_resource 206 SYSTEM 4 72 0 0 0 0 0)); (200, Chars "Core 0");
   (201, Chars "Core 1"); (202, Chars "Core complex"); (203, Chars "Crossbar");
   (204, Chars "L3 Cache"); (205, Chars "DDR"); (206, Chars "Chip")].
(** &chip *)
Definition chip : Z := 73.

(** ** Counting *)

(** [fuel]: the depth of the recursion. *)
Fixpoint mrapi_impl_get_number_of_nodes (fuel : nat) (rsrc_type : mrapi_resource_type)
    (tree : Z) : M resources Z :=
  match fuel with
  | O => raise OutOfFuel
  | S fuel' =>
      let* t := load as_resource tree in
      let number_of_children := u16 (rs_number_of_children t) in
      if number_of_children =? 0 then
        ret (if bool_decide (rsrc_type = rs_resource_type t) then 1 else 0)
      else
        for_to number_of_children (λ i number_of_nodes,
          let* child := load_pointer (rs_children t) i in
          let* n := mrapi_impl_get_number_of_nodes fuel' rsrc_type child in
          ret (u16 (number_of_nodes + n))) 0
  end.

(** ** Copying

    [malloc_at h]: the address that malloc chooses in the memory [h]; [junk]:
    what the memory it returns holds. *)
Section malloc.
Context (malloc_at : memory_of_cells → Z) (junk : Z).

Definition malloc (c : cell) : M resources Z :=
  let* w := get in
  let a := malloc_at (cells w) in
  modify (λ w, w <| cells ::= <[a := c]> |>);; ret a.
(** An array of [n] pointers, not yet written. *)
Definition malloc_pointers (n : Z) : M resources Z :=
  malloc (Pointers (replicate (Z.to_nat n) junk)).
Definition junk_resource : mrapi_resource_t :=
  mk_resource junk SYSTEM junk junk junk junk junk junk junk.

(** The body of the loop over the attributes. *)
Definition copy_attribute (src_tree new_child : mrapi_resource_t) (i : Z) :
    M resources unit :=
  let* p := load_pointer (rs_attribute_types src_tree) i in
  let* the_type := load as_rsrc_type p in
  let* src := load_pointer (rs_attribute_values src_tree) i in
  let* dest :=
    match the_type with
    | RSRC_UINT16_T => let* v := load as_uint16 src in malloc (Uint16 v)
    | RSRC_UINT32_T => let* v := load as_uint32 src in malloc (Uint32 v)
    end in
  store_pointer (rs_attribute_values new_child) i dest;;
  (* copy the types *)
  let* new_type := malloc (RsrcType the_type) in
  store_pointer (rs_attribute_types new_child) i new_type;;
  (* copy the statics *)
  let* p := load_pointer (rs_attribute_static src_tree) i in
  let* the_static := load as_static p in
  let* new_static := malloc (StaticFlag the_static) in
  store_pointer (rs_attribute_static new_child) i new_static;;
  (* copy the starts *)
  let* p := load_pointer (rs_attribute_started src_tree) i in
  let* the_start := load as_boolean p in
  let* new_start := malloc (Boolean the_start) in
  store_pointer (rs_attribute_started new_child) i new_start.

(** A copy of the node, leaving out the children. *)
Definition copy_node (src_tree : mrapi_resource_t) : M resources Z :=
  let* new_child := malloc (Resource junk_resource) in
  let* name := load as_chars (rs_name src_tree) in
  let* new_name := malloc (Chars name) in
  let number_of_attrs := rs_number_of_attributes src_tree in
  let* values := malloc_pointers number_of_attrs in
  let* types := malloc_pointers number_of_attrs in
  let* statics := malloc_pointers number_of_attrs in
  let* started := malloc_pointers number_of_attrs in
  let child := mk_resource new_name (rs_resource_type src_tree) 0 0 number_of_attrs
                 types values statics started in
  store new_child (Resource child);;
  for_to number_of_attrs (λ i _, copy_attribute src_tree child i) tt;;
  ret new_child.

Fixpoint mrapi_impl_create_rsrc_tree (fuel : nat) (rsrc_type : mrapi_resource_type)
    (src_tree start_index_child filtered_tree : Z) : M resources Z :=
  match fuel with
  | O => raise OutOfFuel
  | S fuel' =>
      let* t := load as_resource src_tree in
      let* index_child :=
        if bool_decide (rsrc_type = rs_resource_type t) then
          let* new_child := copy_node t in
          (* add this to the filter tree *)
          let* f := load as_resource filtered_tree in
          store_pointer (rs_children f) start_index_child new_child;;
          ret (u16 (start_index_child + 1))
        else ret start_index_child in
      (* check the children *)
      if rs_number_of_children t =? 0 then ret index_child
      else
        for_to (rs_number_of_children t) (λ i index_child,
          let* the_child := load_pointer (rs_children t) i in
          mrapi_impl_create_rsrc_tree fuel' rsrc_type the_child index_child filtered_tree)
          index_child
  end.

(** [None] is a filter that is no enumerator, [Some None] one without a
    resource type. *)
Definition filter_type (subsystem_filter : Z) : option (option mrapi_resource_type) :=
  if subsystem_filter =? MRAPI_RSRC_MEM then Some (Some MEM)
  else if subsystem_filter =? MRAPI_RSRC_CPU then Some (Some CPU)
  else if subsystem_filter =? MRAPI_RSRC_CACHE then Some (Some CACHE)
  else if subsystem_filter =? MRAPI_RSRC_CROSSBAR then Some (Some CROSSBAR)
  else if subsystem_filter =? MRAPI_RSRC_DMA then Some None
  else None.

Definition mrapi_impl_resources_get (fuel : nat) (resource_root subsystem_filter : Z) :
    M resources (Z * mrapi_status) :=
  match filter_type subsystem_filter with
  | None => ret (0, MRAPI_ERR_RSRC_INVALID_SUBSYSTEM)
  | Some None => ret (0, MRAPI_SUCCESS)
  | Some (Some rsrc_type) =>
      let* number_of_nodes := mrapi_impl_get_number_of_nodes fuel rsrc_type resource_root in
      if number_of_nodes =? 0 then ret (0, MRAPI_SUCCESS)
      else
        let* filtered_tree := malloc (Resource junk_resource) in
        let* name := malloc (Chars "filtered tree") in
        let* children := malloc_pointers number_of_nodes in
        store filtered_tree (Resource (mk_resource name SYSTEM number_of_nodes children
                                         0 0 0 junk junk));;
        mrapi_impl_create_rsrc_tree fuel rsrc_type resource_root 0 filtered_tree;;
        ret (filtered_tree, MRAPI_SUCCESS)
  end.

Definition mrapi_resources_get (fuel : nat) (c : caller) (resource_root subsystem_filter : Z) :
    M resources (Z * mrapi_status) :=
  if negb (mrapi_impl_initialized c) then ret (0, MRAPI_ERR_NODE_NOTINIT)
  else mrapi_impl_resources_get fuel resource_root subsystem_filter.
End malloc.

(** ** Freeing *)

Definition free (a : Z) : M resources unit :=
  if a =? 0 then ret tt
  else
    let* w := get in
    from_option_oob (cells w !! a);;
    modify (λ w, w <| cells ::= delete a |>).

Definition mrapi_impl_resource_tree_free (root : Z) : M resources (bool * mrapi_status) :=
  if root =? 0 then ret (false, MRAPI_ERR_RSRC_INVALID_TREE)
  else
    let* r := load as_resource root in
    for_to (u16 (rs_number_of_children r)) (λ i _,
      let* the_child := load_pointer (rs_children r) i in
      let* x := load as_resource the_child in
      free (rs_name x);;
      free the_child) tt;;
    free (rs_children r);;
    free (rs_name r);;
    for_to (u16 (rs_number_of_attributes r)) (λ i _,
      let* value := load_pointer (rs_attribute_values r) i in
      free value) tt;;
    free (rs_attribute_values r);;
    free root;;
    ret (true, MRAPI_SUCCESS).

Definition mrapi_resource_tree_free (c : caller) (root : Z) : M resources mrapi_status :=
  if negb (mrapi_impl_initialized c) then ret MRAPI_ERR_NODE_NOTINIT
  else let* (_, status) := mrapi_impl_resource_tree_free root in ret status.

(** ** Attributes *)

Definition mrapi_impl_valid_attribute_number (resource : Z) (attribute_number : Z) :
    M resources bool :=
  let* r := load as_resource resource in
  ret (negb (rs_number_of_attributes r <=? attribute_number)).

Definition mrapi_impl_is_static (resource attribute_number : Z) : M resources bool :=
  let* r := load as_resource resource in
  let* p := load_pointer (rs_attribute_static r) attribute_number in
  let* attr_static := load as_static p in
  ret (bool_decide (attr_static = MRAPI_ATTR_STATIC)).

(** The address of the value and its type. *)
Definition attribute_value (resource attribute_number : Z) : M resources (Z * rsrc_type_t) :=
  let* r := load as_resource resource in
  let* p := load_pointer (rs_attribute_types r) attribute_number in
  let* the_type := load as_rsrc_type p in
  let* v := load_pointer (rs_attribute_values r) attribute_number in
  ret (v, the_type).

Definition mrapi_impl_resource_get_attribute (resource attribute_number : Z) :
    M resources (Z * mrapi_status) :=
  let* (v, the_type) := attribute_value resource attribute_number in
  let* val :=
    match the_type with
    | RSRC_UINT16_T => load as_uint16 v
    | RSRC_UINT32_T => load as_uint32 v
    end in
  ret (val, MRAPI_SUCCESS).

Definition mrapi_impl_increment_cache_hits (resource increment : Z) : M resources unit :=
  let* r := load as_resource resource in
  let* v := load_pointer (rs_attribute_values r) 1 in
  let* n := load as_uint32 v in
  store v (Uint32 (u32 (n + increment))).

Definition mrapi_impl_dynamic_attribute_reset (resource attribute_number : Z) :
    M resources (bool * mrapi_status) :=
  let* (v, the_type) := attribute_value resource attribute_number in
  match the_type with
  | RSRC_UINT16_T => load as_uint16 v;; store v (Uint16 0)
  | RSRC_UINT32_T => load as_uint32 v;; store v (Uint32 0)
  end;;
  ret (true, MRAPI_SUCCESS).

(** [*(resource->attribute_started[attribute_number]) = started] *)
Definition set_started (resource attribute_number started : Z) : M resources unit :=
  let* r := load as_resource resource in
  let* p := load_pointer (rs_attribute_started r) attribute_number in
  load as_boolean p;;
  store p (Boolean started).
(** [strcmp(resource->name, "L3 Cache") == 0] *)
Definition is_l3_cache (resource : Z) : M resources bool :=
  let* r := load as_resource resource in
  let* name := load as_chars (rs_name r) in
  ret (bool_decide (name = "L3 Cache"%string)).

Definition mrapi_impl_dynamic_attribute_start (resource attribute_number rollover_callback : Z) :
    M resources (bool * mrapi_status) :=
  let* l3 := is_l3_cache resource in
  (if (l3 : bool) && (attribute_number =? 1) then
     set_started resource attribute_number MRAPI_TRUE;;
     let* w := get in
     from_option_oob (rollover_callbacks_ptr w !! Z.to_nat (rollover_index w));;
     modify (λ w, w <| rollover_callbacks_ptr ::= <[Z.to_nat (rollover_index w) := rollover_callback]> |>
                    <| rollover_index ::= λ i, u16 (i + 1) |>)
   else ret tt);;
  ret (true, MRAPI_SUCCESS).

Definition mrapi_impl_dynamic_attribute_stop (resource attribute_number : Z) :
    M resources (bool * mrapi_status) :=
  let* l3 := is_l3_cache resource in
  (if (l3 : bool) && (attribute_number =? 1) then
     set_started resource attribute_number MRAPI_FALSE
   else ret tt);;
  ret (true, MRAPI_SUCCESS).

(** The value is undefined unless the status is [MRAPI_SUCCESS]; attr_size is
    not used. *)
Definition mrapi_resource_get_attribute (c : caller) (resource attribute_number : Z) :
    M resources (option Z * mrapi_status) :=
  if negb (mrapi_impl_initialized c) then ret (None, MRAPI_ERR_NODE_NOTINIT)
  else
    let* valid := mrapi_impl_valid_attribute_number resource attribute_number in
    if negb valid then ret (None, MRAPI_ERR_ATTR_NUM)
    else
      (* check if this attribute is dynamic and if it has been started *)
      let* r := load as_resource resource in
      let* p := load_pointer (rs_attribute_started r) attribute_number in
      let* has_started := load as_boolean p in
      let* is_static := mrapi_impl_is_static resource attribute_number in
      if negb is_static && (has_started =? MRAPI_FALSE) then
        ret (None, MRAPI_ERR_RSRC_NOTSTARTED)
      else
        let* (val, status) := mrapi_impl_resource_get_attribute resource attribute_number in
        ret (Some val, status).

(** The checks that the three functions on dynamic attributes share. *)
Definition dynamic_attribute (c : caller) (resource attribute_number : Z)
    (impl : M resources (bool * mrapi_status)) : M resources mrapi_status :=
  if negb (mrapi_impl_initialized c) then ret MRAPI_ERR_NODE_NOTINIT
  else
    let* valid := mrapi_impl_valid_attribute_number resource attribute_number in
    if negb valid then ret MRAPI_ERR_ATTR_NUM
    else
      let* is_static := mrapi_impl_is_static resource attribute_number in
      if (is_static : bool) then ret MRAPI_ERR_RSRC_NOTDYNAMIC
      else
        let* (get_success, status) := impl in
        c_assert get_success;; ret status.
Definition mrapi_dynamic_attribute_start (c : caller)
    (resource attribute_number rollover_callback : Z) : M resources mrapi_status :=
  dynamic_attribute c resource attribute_number
    (mrapi_impl_dynamic_attribute_start resource attribute_number rollover_callback).
Definition mrapi_dynamic_attribute_reset (c : caller) (resource attribute_number : Z) :
    M resources mrapi_status :=
  dynamic_attribute c resource attribute_number
    (mrapi_impl_dynamic_attribute_reset resource attribute_number).
Definition mrapi_dynamic_attribute_stop (c : caller) (resource attribute_number : Z) :
    M resources mrapi_status :=
  dynamic_attribute c resource attribute_number
    (mrapi_impl_dynamic_attribute_stop resource attribute_number).

(** ** Callbacks *)

Definition modify_callback (i : nat) (f : mrapi_callback_t → mrapi_callback_t) :
    M resources unit :=
  arr_get callbacks_array i;;
  modify (λ w, w <| callbacks_array ::= alter f i |>).
(** alarm(1), with the handler set. *)
Definition set_alarm : M resources unit := modify (λ w, w <| alarm_set := true |>).

Definition mrapi_impl_resource_register_callback (c : caller)
    (event frequency callback_function : Z) : M resources (bool * mrapi_status) :=
  if event =? 0 then ret (false, MRAPI_ERR_RSRC_INVALID_EVENT)
  else
    match mrapi_impl_whoami c with
    | None => ret (false, MRAPI_ERR_NODE_NOTINIT)
    | Some (node_id, _, _, _) =>
        let* index := gets callback_index in
        modify_callback (Z.to_nat index) (λ _,
          mk_callback callback_function event frequency 0 node_id);;
        modify (λ w, w <| callback_index := u16 (index + 1) |>);;
        set_alarm;;
        ret (true, MRAPI_SUCCESS)
    end.
Definition mrapi_resource_register_callback (c : caller)
    (event frequency callback_function : Z) : M resources mrapi_status :=
  if negb (mrapi_impl_initialized c) then ret MRAPI_ERR_NODE_NOTINIT
  else
    let* (_, status) := mrapi_impl_resource_register_callback c event frequency
                          callback_function in
    ret status.

(** [gap k]: what others do to the database after its [k]-th release.  The
    result is the call that is made, the function and its argument. *)
Definition mrapi_impl_cause_event (gap : nat → resources → resources) (c : caller) :
    M resources (option (Z * Z)) :=
  match mrapi_impl_whoami c with
  | None => ret None
  | Some (node_id, _, _, _) =>
      let* w := get in
      let max_index := Z.to_nat (callback_index w) in
      (* find a callback with the same node id *)
      let* index := lift (c_scan (λ x, callback_node_id x =? node_id) (callbacks_array w)
                            max_index 0) in
      modify (gap 0%nat);;
      if (index <? max_index)%nat then
        modify_callback index (λ x, x <| callback_count ::= λ n, u32 (n + 1) |>);;
        modify (gap 1%nat);;
        let* x := arr_get callbacks_array index in
        let* called :=
          if callback_frequency x <=? callback_count x then
            (* the frequency count has been met, so invoke the callback *)
            modify_callback index (λ x, x <| callback_count := 0 |>);;
            let* x := arr_get callbacks_array index in
            modify (gap 2%nat);;
            let* y := arr_get callbacks_array index in
            ret (Some (callback_func y, callback_event x))
          else ret None in
        set_alarm;; ret called
      else set_alarm;; ret None
  end.

(** The alarm that was set is the one that arrives. *)
Definition mrapi_impl_alarm_catcher (gap : nat → resources → resources) (c : caller) :
    M resources (option (Z * Z)) :=
  modify (λ w, w <| alarm_set := false |>);; mrapi_impl_cause_event gap c.

(** The function that is called; calling NULL is a fault. *)
Definition mrapi_impl_trigger_rollover (index : Z) : M resources Z :=
  let* f := arr_get rollover_callbacks_ptr (Z.to_nat index) in
  if f =? 0 then raise OutOfBounds else ret f.
