(* ===== verification/LockSlots.v ===== *)
(** The slots of a lock entry: what the four loops of
    [mrapi_impl_spec_sem.c] compute, stated with reference functions on
    lists, and the multiset of holders that the slots stand for. *)

From S2P Require Import Prelude MrapiTypes MrapiHandles MrapiLocks.

(** ** Reference functions *)

Abbreviation holder := (Z * Z)%type.

(** A slot after the node with these indices took it. *)
Definition locked_by (n d : nat) (lk : mrapi_lock_t) : mrapi_lock_t :=
  lk <| lk_locked := true |> <| lk_holder_nindex := u8 (Z.of_nat n) |>
     <| lk_holder_dindex := u8 (Z.of_nat d) |>.
Definition unlocked (lk : mrapi_lock_t) : mrapi_lock_t := lk <| lk_locked := false |>.

(** [update_first p f k ls] applies [f] to the first [k] elements of [ls]
    that satisfy [p]. *)
Fixpoint update_first {A} (p : A → bool) (f : A → A) (k : nat) (ls : list A) : list A :=
  match k, ls with
  | O, _ | _, [] => ls
  | S k', x :: ls' =>
      if p x then f x :: update_first p f k' ls' else x :: update_first p f k ls'
  end.

Definition grab (n d k : nat) : list mrapi_lock_t → list mrapi_lock_t :=
  update_first is_free (locked_by n d) k.
Definition give_back (n d k : nat) : list mrapi_lock_t → list mrapi_lock_t :=
  update_first (is_mine n d) unlocked k.

Definition holder_of (lk : mrapi_lock_t) : holder :=
  (lk_holder_nindex lk, lk_holder_dindex lk).
Definition holders_of (ls : list mrapi_lock_t) : gmultiset holder :=
  list_to_set_disj (holder_of <$> filter (λ lk, lk_locked lk = true) ls).

(** ** Updating the first matches *)

Section update_first.
Context {A : Type} (p : A → bool) (f : A → A).

Lemma update_first_length k ls : length (update_first p f k ls) = length ls.
Proof.
  revert k; induction ls as [|x ls IH]; intros [|k]; simpl; try done.
  destruct (p x); simpl; by rewrite IH.
Qed.
Lemma update_first_Forall (P : A → Prop) k ls :
  (∀ x, P x → P (f x)) → Forall P ls → Forall P (update_first p f k ls).
Proof.
  intros Hf. revert k; induction ls as [|x ls IH]; intros [|k] H; simpl; try done.
  inversion H; subst. destruct (p x); auto.
Qed.
(** When [f] moves an element from [q] to not-[q] or back by [c]. *)
Lemma update_first_countb (q : A → bool) (c : Z) k ls :
  (∀ x, p x = true → Z.b2z (q (f x)) = Z.b2z (q x) + c) →
  Z.of_nat k <= countb p ls →
  countb q (update_first p f k ls) = countb q ls + c * Z.of_nat k.
Proof.
  intros Hq. revert k; induction ls as [|x ls IH]; intros [|k] Hk; simpl;
    try (rewrite ?countb_nil in *; lia).
  rewrite countb_cons in Hk. destruct (p x) eqn:E; simpl in Hk;
    rewrite !countb_cons, IH by lia; [rewrite Hq by done|]; lia.
Qed.
End update_first.

(** ** The loops *)

(** *** One iteration of each loop *)

Lemma set_locks_valid_S k l ls :
  set_locks_valid (S k) l ls
  = match ls !! l with
    | None => Fault OutOfBounds
    | Some x => set_locks_valid k (S l) (<[l := x <| lk_valid := true |>]> ls)
    end.
Proof. done. Qed.
Lemma count_my_locks_S n d k l ls acc :
  count_my_locks n d (S k) l ls acc
  = match ls !! l with
    | None => Fault OutOfBounds
    | Some x => count_my_locks n d k (S l) ls
                  (if is_mine n d x then u32 (acc + 1) else acc)
    end.
Proof. done. Qed.
Lemma acquire_loop_S n d num k l sm added :
  acquire_loop n d num (S k) l sm added
  = match s_locks sm !! l with
    | None => Fault OutOfBounds
    | Some lk =>
        if is_free lk then
          let sm := sm <| s_locks ::= <[l := locked_by n d lk]> |>
                       <| s_num_locks ::= Z.add 1 |> in
          if added + 1 =? num then Done (sm, added + 1, true)
          else acquire_loop n d num k (S l) sm (added + 1)
        else if added =? num then Done (sm, added, true)
        else acquire_loop n d num k (S l) sm added
    end.
Proof.
  unfold acquire_loop at 1; fold acquire_loop.
  destruct (s_locks sm !! l) as [lk|]; [|done]. by destruct (is_free lk).
Qed.
Lemma release_loop_S n d k l ls r removed :
  release_loop n d (S k) l ls r removed
  = match ls !! l with
    | None => Fault OutOfBounds
    | Some lk =>
        if is_mine n d lk then
          if u16 (r - 1) <=? 0 then Done (<[l := unlocked lk]> ls, u32 (removed + 1))
          else release_loop n d k (S l) (<[l := unlocked lk]> ls) (u16 (r - 1))
                 (u32 (removed + 1))
        else release_loop n d k (S l) ls r removed
    end.
Proof. done. Qed.

(** *** The whole loops, over the slots [ls] between [pre] and [post] *)

Lemma lookup_mid {A} (pre ls post : list A) x :
  (pre ++ (x :: ls) ++ post) !! length pre = Some x.
Proof. by apply (list_lookup_middle pre (ls ++ post)). Qed.
Lemma insert_mid {A} (pre ls post : list A) x y :
  <[length pre := y]> (pre ++ (x :: ls) ++ post) = (pre ++ [y]) ++ ls ++ post.
Proof. rewrite insert_app_r_alt, Nat.sub_diag by lia. by rewrite <- app_assoc. Qed.
Lemma skip_mid {A} (pre ls post : list A) x :
  pre ++ (x :: ls) ++ post = (pre ++ [x]) ++ ls ++ post.
Proof. by rewrite <- app_assoc. Qed.
Lemma length_snoc {A} (pre : list A) x : S (length pre) = length (pre ++ [x]).
Proof. by rewrite length_app, Nat.add_1_r. Qed.

Lemma set_locks_valid_spec pre ls post :
  set_locks_valid (length ls) (length pre) (pre ++ ls ++ post)
  = Done (pre ++ ((λ x, x <| lk_valid := true |>) <$> ls) ++ post).
Proof.
  revert pre; induction ls as [|x ls IH]; intros pre; [done|].
  cbn [length]. rewrite set_locks_valid_S, lookup_mid, insert_mid.
  rewrite (length_snoc pre (x <| lk_valid := true |>)), IH. by rewrite <- app_assoc.
Qed.

Lemma set_locks_valid_oob k l ls :
  (length ls < l + k)%nat → (l <= length ls)%nat →
  set_locks_valid k l ls = Fault OutOfBounds.
Proof.
  revert l ls; induction k as [|k IH]; intros l ls Hk Hl; [lia|].
  rewrite set_locks_valid_S.
  destruct (ls !! l) eqn:E; [|done]. apply lookup_lt_Some in E.
  apply IH; rewrite ?length_insert; lia.
Qed.

Lemma count_my_locks_spec n d pre ls post acc :
  0 <= acc → acc + Z.of_nat (length ls) < 2 ^ 32 →
  count_my_locks n d (length ls) (length pre) (pre ++ ls ++ post) acc
  = Done (acc + countb (is_mine n d) ls).
Proof.
  revert pre acc; induction ls as [|x ls IH]; intros pre acc H0 H1.
  { by rewrite countb_nil, Z.add_0_r. }
  cbn [length] in *. rewrite count_my_locks_S, lookup_mid, countb_cons.
  rewrite (length_snoc pre x), skip_mid. destruct (is_mine n d x); cbn [Z.b2z].
  - rewrite u32_small, IH by lia. f_equal; lia.
  - by rewrite IH by lia.
Qed.

Lemma set_slots_eq f g ls k sm :
  f (s_locks sm) = ls → g (s_num_locks sm) = k →
  sm <| s_locks ::= f |> <| s_num_locks ::= g |>
  = sm <| s_locks := ls |> <| s_num_locks := k |>.
Proof. by intros <- <-. Qed.

Lemma overwrite_slots f ls k k' sm :
  1 + s_num_locks sm + k = s_num_locks sm + k' →
  let sm' := sm <| s_locks ::= f |> <| s_num_locks ::= Z.add 1 |> in
  sm' <| s_locks := ls |> <| s_num_locks := s_num_locks sm' + k |>
  = sm <| s_locks := ls |> <| s_num_locks := s_num_locks sm + k' |>.
Proof. intros <-. done. Qed.

Lemma done_triple {A B C} (a a' : A) (b b' : B) (c c' : C) :
  a = a' → b = b' → c = c' → Done (a, b, c) = Done (a', b', c').
Proof. by intros -> -> ->. Qed.

Lemma acquire_loop_spec n d num pre ls post sm added :
  s_locks sm = pre ++ ls ++ post → 0 <= added < num →
  acquire_loop n d num (length ls) (length pre) sm added
  = Done (sm <| s_locks := pre ++ grab n d (Z.to_nat (num - added)) ls ++ post |>
             <| s_num_locks := s_num_locks sm + Z.min (num - added) (countb is_free ls) |>,
          added + Z.min (num - added) (countb is_free ls),
          (num - added <=? countb is_free ls)).
Proof.
  revert pre sm added; induction ls as [|x ls IH]; intros pre sm added Hls Hadded.
  { unfold grab. replace (update_first _ _ _ []) with (@nil mrapi_lock_t)
      by (by destruct (Z.to_nat _)).
    rewrite countb_nil, Z.min_r, !Z.add_0_r by lia.
    destruct (Z.leb_spec (num - added) 0); [lia|].
    destruct sm; simpl in *. by rewrite Hls. }
  cbn [length]. rewrite acquire_loop_S, Hls, lookup_mid, countb_cons.
  destruct (Z.to_nat (num - added)) as [|w] eqn:Ew; [lia|].
  pose proof (countb_nonneg is_free ls) as Hpos.
  unfold grab. cbn [update_first]. fold (grab n d w) (grab n d (S w)).
  destruct (is_free x) eqn:Ex; cbn [Z.b2z].
  - destruct (Z.eqb_spec (added + 1) num) as [He|He].
    + assert (w = 0%nat) as -> by lia. rewrite Z.min_l by lia.
      unfold grab. replace (update_first _ _ 0 ls) with ls by (by destruct ls).
      apply done_triple; [|lia|by apply eq_sym, Z.leb_le; lia].
      apply set_slots_eq; [|lia]. by rewrite Hls, insert_mid, <- app_assoc.
    + rewrite (length_snoc pre (locked_by n d x)), IH; [|cbn|lia].
      2:{ rewrite Hls. apply insert_mid. }
      replace (Z.to_nat (num - (added + 1))) with w by lia.
      rewrite <- app_assoc. apply done_triple; [|lia|].
      * apply overwrite_slots. lia.
      * apply Bool.eq_iff_eq_true. rewrite !Z.leb_le. lia.
  - destruct (Z.eqb_spec added num); [lia|].
    rewrite (length_snoc pre x), IH by (by rewrite ?Hls, ?skip_mid || lia).
    by rewrite Ew, <- app_assoc.
Qed.

Lemma release_loop_spec n d pre ls post w removed :
  1 <= w < 2 ^ 16 → w <= countb (is_mine n d) ls →
  0 <= removed → removed + w < 2 ^ 32 →
  release_loop n d (length ls) (length pre) (pre ++ ls ++ post) w removed
  = Done (pre ++ give_back n d (Z.to_nat w) ls ++ post, removed + w).
Proof.
  revert pre w removed; induction ls as [|x ls IH]; intros pre w removed Hw Hc H0 H1.
  { rewrite countb_nil in Hc; lia. }
  rewrite countb_cons in Hc. cbn [length]. rewrite release_loop_S, lookup_mid.
  destruct (Z.to_nat w) as [|w'] eqn:Ew; [lia|].
  unfold give_back. cbn [update_first]. fold (give_back n d w') (give_back n d (S w')).
  destruct (is_mine n d x) eqn:Ex; cbn [Z.b2z] in Hc.
  - rewrite insert_mid, (u16_small (w - 1)), (u32_small (removed + 1)) by lia.
    destruct (Z.leb_spec (w - 1) 0).
    + assert (w' = 0%nat) as -> by lia. rewrite <- app_assoc. unfold give_back.
      replace (update_first _ _ 0 ls) with ls by (by destruct ls).
      do 2 f_equal; lia.
    + rewrite (length_snoc pre (unlocked x)), IH by lia.
      replace (Z.to_nat (w - 1)) with w' by lia.
      rewrite <- app_assoc. do 2 f_equal; lia.
  - by rewrite (length_snoc pre x), skip_mid, IH, Ew, <- app_assoc by lia.
Qed.

(** ** Holders *)

(** The identity under which the node with these indices holds a slot. *)
Definition me (n d : nat) : holder := (Z.of_nat n, Z.of_nat d).

Lemma holders_of_nil : holders_of [] = ∅.
Proof. done. Qed.
Lemma holders_of_cons lk ls :
  holders_of (lk :: ls)
  = (if lk_locked lk then {[+ holder_of lk +]} else ∅) ⊎ holders_of ls.
Proof.
  unfold holders_of. rewrite filter_cons.
  destruct (lk_locked lk) eqn:E; case_decide; try congruence; simpl; multiset_solver.
Qed.

Lemma size_holders ls : Z.of_nat (size (holders_of ls)) = countb lk_locked ls.
Proof.
  induction ls as [|lk ls IH]; [done|]. rewrite holders_of_cons, countb_cons.
  rewrite gmultiset_size_disj_union. destruct (lk_locked lk); cbn [Z.b2z].
  - rewrite gmultiset_size_singleton. lia.
  - rewrite gmultiset_size_empty. lia.
Qed.

Lemma is_mine_holder n d lk :
  lk_valid lk = true → lk_locked lk = true →
  is_mine n d lk = bool_decide (holder_of lk = me n d).
Proof.
  intros Hv Hl. unfold is_mine, holder_of, me. rewrite Hv, Hl. simpl.
  destruct (Z.eqb_spec (lk_holder_nindex lk) (Z.of_nat n)),
    (Z.eqb_spec (lk_holder_dindex lk) (Z.of_nat d));
    simpl; case_bool_decide; simplify_eq; congruence.
Qed.
Lemma is_mine_inv n d lk :
  is_mine n d lk = true →
  lk_valid lk = true ∧ lk_locked lk = true ∧ holder_of lk = me n d.
Proof.
  unfold is_mine, holder_of, me. intros H.
  rewrite !andb_true_iff, !Z.eqb_eq in H. destruct H as [[[? ?] ->] ->]. done.
Qed.

Lemma multiplicity_holders n d ls :
  Forall (λ lk, lk_valid lk = true) ls →
  Z.of_nat (multiplicity (me n d) (holders_of ls)) = countb (is_mine n d) ls.
Proof.
  induction 1 as [|lk ls Hv Hls IH]; [done|].
  rewrite holders_of_cons, countb_cons, multiplicity_disj_union.
  destruct (lk_locked lk) eqn:El.
  - rewrite is_mine_holder by done. case_bool_decide as Hm; cbn [Z.b2z].
    + rewrite Hm, multiplicity_singleton_eq. lia.
    + rewrite multiplicity_singleton_ne by done. lia.
  - replace (is_mine n d lk) with false
      by (unfold is_mine; by rewrite El, andb_false_r).
    rewrite multiplicity_empty. cbn [Z.b2z]. lia.
Qed.

Lemma holder_of_locked_by n d lk :
  Z.of_nat n < 256 → Z.of_nat d < 256 → holder_of (locked_by n d lk) = me n d.
Proof. intros. unfold locked_by, holder_of, me. cbn. by rewrite !u8_small by lia. Qed.

Lemma holders_of_grab n d k ls :
  Z.of_nat n < 256 → Z.of_nat d < 256 → Z.of_nat k <= countb is_free ls →
  holders_of (grab n d k ls) = holders_of ls ⊎ k *: {[+ me n d +]}.
Proof.
  intros Hn Hd. revert k; induction ls as [|lk ls IH]; intros [|k] Hk;
    try (rewrite countb_nil in Hk; lia); [multiset_solver|cbn; multiset_solver|].
  rewrite countb_cons in Hk. unfold grab. cbn [update_first].
  fold (grab n d k) (grab n d (S k)).
  destruct (is_free lk) eqn:E; cbn [Z.b2z] in Hk; rewrite !holders_of_cons, IH by lia.
  - unfold is_free in E. apply andb_true_iff in E as [_ ->%negb_true_iff].
    rewrite holder_of_locked_by, gmultiset_scalar_mul_S_r by done.
    cbn [lk_locked locked_by]. multiset_solver.
  - multiset_solver.
Qed.

Lemma holders_of_give_back n d k ls :
  Z.of_nat k <= countb (is_mine n d) ls →
  holders_of ls = holders_of (give_back n d k ls) ⊎ k *: {[+ me n d +]}.
Proof.
  revert k; induction ls as [|lk ls IH]; intros [|k] Hk;
    try (rewrite countb_nil in Hk; lia); [multiset_solver|cbn; multiset_solver|].
  rewrite countb_cons in Hk. unfold give_back. cbn [update_first].
  fold (give_back n d k) (give_back n d (S k)).
  destruct (is_mine n d lk) eqn:E; cbn [Z.b2z] in Hk; rewrite !holders_of_cons.
  - rewrite (IH k) at 1 by lia. apply is_mine_inv in E as (_ & -> & ->).
    rewrite gmultiset_scalar_mul_S_r. cbn [lk_locked unlocked]. multiset_solver.
  - rewrite (IH (S k)) at 1 by lia. multiset_solver.
Qed.
