(* ===== verification/LockSpec.v ===== *)
(** The abstract specification of a counting lock, as an interface.

    A counting lock has a limit and a multiset of holders.  A caller acquires
    [k] units at once or none; it releases [k] units it holds or none.  The
    class [CountingLock] states that for an implementation given by monadic
    operations on a concrete state; the theorems below use nothing else.  They
    are instantiated with the lock entries of the MRAPI database in
    [LockEntry]. *)

From S2P Require Import Prelude.

(** ** The interface *)

Class CountingLock (St C H : Type) `{Countable H} := {
  cl_wf : St → Prop;                 (* the implementation's invariant *)
  cl_caller : C → Prop;              (* callers that may use the lock *)
  cl_id : C → H;                     (* the identity a caller holds units under *)
  cl_limit : St → Z;
  cl_holders : St → gmultiset H;
  cl_acquire : C → Z → M St bool;
  cl_release : C → Z → M St bool;
  cl_bounded s : cl_wf s → Z.of_nat (size (cl_holders s)) <= cl_limit s;
  cl_acquire_law c k s :
    cl_wf s → cl_caller c → 1 <= k →
    wp (cl_acquire c k) (λ ok s',
      cl_wf s' ∧ cl_limit s' = cl_limit s ∧
      if bool_decide (Z.of_nat (size (cl_holders s)) + k <= cl_limit s)
      then ok = true ∧
           cl_holders s' = cl_holders s ⊎ Z.to_nat k *: {[+ cl_id c +]}
      else ok = false ∧ s' = s) s;
  cl_release_law c k s :
    cl_wf s → cl_caller c → 1 <= k < 2 ^ 16 →
    wp (cl_release c k) (λ ok s',
      cl_wf s' ∧ cl_limit s' = cl_limit s ∧
      if bool_decide (k <= Z.of_nat (multiplicity (cl_id c) (cl_holders s)))
      then ok = true ∧
           cl_holders s = cl_holders s' ⊎ Z.to_nat k *: {[+ cl_id c +]}
      else ok = false ∧ s' = s) s }.

(** ** Histories *)

Section histories.
Context {St C H : Type} `{!EqDecision H, !Countable H} {L : CountingLock St C H}.
Implicit Types (s : St) (c : C).

(** A caller that acquires or releases [k] units. *)
Inductive cl_op := Acquire (c : C) (k : Z) | Release (c : C) (k : Z).

Definition cl_op_ok (o : cl_op) : Prop :=
  match o with
  | Acquire c k => cl_caller c ∧ 1 <= k
  | Release c k => cl_caller c ∧ 1 <= k < 2 ^ 16
  end.
Definition cl_run_op (o : cl_op) : M St bool :=
  match o with Acquire c k => cl_acquire c k | Release c k => cl_release c k end.

(** The operations one after the other, with their results. *)
Fixpoint cl_run (os : list cl_op) : M St (list bool) :=
  match os with
  | [] => ret []
  | o :: os => let* b := cl_run_op o in let* bs := cl_run os in ret (b :: bs)
  end.

(** What caller [h] gained over a history: successful acquisitions minus
    successful releases. *)
Fixpoint cl_balance (h : H) (os : list cl_op) (bs : list bool) : Z :=
  match os, bs with
  | Acquire c k :: os, b :: bs =>
      (if b && bool_decide (cl_id c = h) then k else 0) + cl_balance h os bs
  | Release c k :: os, b :: bs =>
      (if b && bool_decide (cl_id c = h) then - k else 0) + cl_balance h os bs
  | _, _ => 0
  end.

Definition cl_excl (h : H) s : Prop :=
  0 < cl_limit s ∧ Z.of_nat (multiplicity h (cl_holders s)) = cl_limit s.

Lemma multiplicity_me (h h' : H) (k : Z) :
  0 <= k →
  Z.of_nat (multiplicity h (Z.to_nat k *: {[+ h' +]} : gmultiset H))
  = if bool_decide (h' = h) then k else 0.
Proof.
  intros Hk. rewrite multiplicity_scalar_mul. case_bool_decide as Hh.
  - rewrite Hh, multiplicity_singleton_eq. lia.
  - rewrite multiplicity_singleton_ne by congruence. lia.
Qed.

Lemma cl_op_step o s :
  cl_wf s → cl_op_ok o →
  wp (cl_run_op o) (λ b s',
    cl_wf s' ∧ cl_limit s' = cl_limit s ∧
    ∀ h, Z.of_nat (multiplicity h (cl_holders s'))
         = Z.of_nat (multiplicity h (cl_holders s)) + cl_balance h [o] [b]) s.
Proof.
  intros Hwf Hok. destruct o as [c k|c k]; destruct Hok as [Hc Hk];
    (eapply wp_mono; [by (apply cl_acquire_law || apply cl_release_law)|]);
    intros b s' (Hwf' & Hlim & Hb); split_and!; [done|done| |done|done|]; intros h;
    case_bool_decide; destruct Hb as [-> Hs]; cbn [cl_balance andb];
    [|subst; lia| |subst; lia].
  - rewrite Hs, multiplicity_disj_union, Nat2Z.inj_add, multiplicity_me by lia. lia.
  - rewrite Hs, multiplicity_disj_union, Nat2Z.inj_add, multiplicity_me by lia.
    case_bool_decide; lia.
Qed.

Lemma cl_run_spec os s :
  cl_wf s → Forall cl_op_ok os →
  wp (cl_run os) (λ bs s',
    cl_wf s' ∧ cl_limit s' = cl_limit s ∧
    ∀ h, Z.of_nat (multiplicity h (cl_holders s'))
         = Z.of_nat (multiplicity h (cl_holders s)) + cl_balance h os bs) s.
Proof.
  revert s. induction os as [|o os IH]; intros s Hwf Hos.
  { apply wp_ret. split_and!; [done|done|]. intros h. cbn. lia. }
  inversion Hos; subst. apply wp_bind.
  eapply wp_mono; [by apply cl_op_step|]. intros b s1 (Hwf1 & Hl1 & Hm1).
  apply wp_bind. eapply wp_mono; [by apply IH|]. intros bs s2 (Hwf2 & Hl2 & Hm2).
  apply wp_ret. split_and!; [done|congruence|]. intros h.
  rewrite Hm2, Hm1. destruct o; cbn [cl_balance]; lia.
Qed.

(** A caller with all the units is the only holder. *)
Lemma cl_excl_only h h' s :
  cl_wf s → cl_excl h s → h' ≠ h → multiplicity h' (cl_holders s) = 0%nat.
Proof.
  intros Hwf [_ Hx] Hne. pose proof (cl_bounded s Hwf) as Hb.
  set (X := cl_holders s) in *. set (k := multiplicity h X) in *.
  set (k' := multiplicity h' X).
  assert (k *: {[+ h +]} ⊎ k' *: {[+ h' +]} ⊆ X) as Hsub.
  { intros y. rewrite multiplicity_disj_union, !multiplicity_scalar_mul,
      !multiplicity_singleton. repeat case_decide; subst; subst k k'; lia || congruence. }
  apply gmultiset_subseteq_size in Hsub.
  rewrite gmultiset_size_disj_union, !gmultiset_size_scalar_mul,
    !gmultiset_size_singleton in Hsub. lia.
Qed.

(** While one caller has all the units nobody else gets one. *)
Lemma cl_excl_blocks h c k s :
  cl_wf s → cl_excl h s → cl_caller c → 1 <= k →
  wp (cl_acquire c k) (λ ok s', ok = false ∧ s' = s) s.
Proof.
  intros Hwf [Hpos Hx] Hc Hk. eapply wp_mono; [by apply cl_acquire_law|].
  intros b s' (_ & _ & Hb). case_bool_decide as Hsz; [|done]. exfalso.
  assert (multiplicity h (cl_holders s) ≤ size (cl_holders s))%nat; [|lia].
  set (X := cl_holders s). assert (multiplicity h X *: {[+ h +]} ⊆ X) as Hsub.
  { intros y. rewrite multiplicity_scalar_mul, multiplicity_singleton.
    case_decide; subst; lia. }
  apply gmultiset_subseteq_size in Hsub.
  rewrite gmultiset_size_scalar_mul, gmultiset_size_singleton in Hsub. lia.
Qed.
End histories.
