(* ===== verification/LockEntry.v ===== *)
(** Lock entries as counting locks.

    [sem_wf] is the invariant of an entry of [mrapi_db->sems]; each operation
    of [mrapi_impl_spec_sem.c] on a well-formed entry equals a closed form,
    and the entries implement the interface [CountingLock]. *)

From S2P Require Import Prelude MrapiTypes MrapiHandles MrapiLocks LockSlots LockSpec.

(** ** The invariant *)

(** The slots in use: [locks[0 .. shared_lock_limit - 1]]. *)
Definition slots (x : mrapi_sem_t) : list mrapi_lock_t :=
  take (Z.to_nat (s_shared_lock_limit x)) (s_locks x).

Record sem_wf (x : mrapi_sem_t) : Prop := {
  wf_length : length (s_locks x) = MRAPI_MAX_SHARED_LOCKS;
  wf_limit : 0 <= s_shared_lock_limit x <= Z.of_nat MRAPI_MAX_SHARED_LOCKS;
  wf_slots : Forall (λ lk, lk_valid lk = true) (slots x);
  wf_count : s_num_locks x = countb lk_locked (slots x);
  wf_pos : s_valid x = true → 1 <= s_shared_lock_limit x;
  wf_mutex : s_valid x = true → s_type x = MUTEX → s_shared_lock_limit x = 1 }.

Definition holders (x : mrapi_sem_t) : gmultiset holder := holders_of (slots x).

(** How many slots the node with these indices holds. *)
Definition my_count (n d : nat) (x : mrapi_sem_t) : Z := countb (is_mine n d) (slots x).

(** A caller that [mrapi_impl_initialize] has set up. *)
Definition caller_wf (c : caller) : Prop :=
  c_attached c = true ∧ c_pid c ≠ -1 ∧
  (c_nindex c < MRAPI_MAX_NODES)%nat ∧ (c_dindex c < MRAPI_MAX_DOMAINS)%nat.
#[export] Instance caller_wf_dec c : Decision (caller_wf c).
Proof. unfold caller_wf. apply _. Defined.

(** The closed forms of lock, unlock and delete. *)
Definition acquired (n d : nat) (k : Z) (x : mrapi_sem_t) : mrapi_sem_t :=
  x <| s_locks := grab n d (Z.to_nat k) (slots x)
                  ++ drop (Z.to_nat (s_shared_lock_limit x)) (s_locks x) |>
    <| s_num_locks := s_num_locks x + k |>.
Definition released (n d : nat) (k : Z) (x : mrapi_sem_t) : mrapi_sem_t :=
  x <| s_locks := give_back n d (Z.to_nat k) (slots x)
                  ++ drop (Z.to_nat (s_shared_lock_limit x)) (s_locks x) |>
    <| s_num_locks := s_num_locks x - k |>.
Definition deleted (x : mrapi_sem_t) : mrapi_sem_t :=
  x <| s_valid := false |>
    <| s_deleted := if ext_error_checking (s_attributes x) =? MRAPI_TRUE
                    then true else s_deleted x |>.

(** ** The database array *)

Lemma lookup_upd_sem i j f db :
  sems (upd_sem i f db) !! j = if decide (i = j) then f <$> sems db !! j else sems db !! j.
Proof. unfold upd_sem. cbn. rewrite list_lookup_alter. by case_decide; subst. Qed.
Lemma lookup_upd_sem_eq i f db x :
  sems db !! i = Some x → sems (upd_sem i f db) !! i = Some (f x).
Proof. intros Hx. rewrite lookup_upd_sem, Hx. by case_decide. Qed.
Lemma upd_sem_twice i f g db : upd_sem i f (upd_sem i g db) = upd_sem i (λ x, f (g x)) db.
Proof.
  unfold upd_sem, set_field. cbv beta. cbn [sems]. by rewrite list_alter_alter_eq.
Qed.
Lemma upd_sem_ext i f g db :
  (∀ x, sems db !! i = Some x → f x = g x) → upd_sem i f db = upd_sem i g db.
Proof. intros Hfg. unfold upd_sem, set_field. by rewrite (list_alter_ext f g _ (sems db)). Qed.
Lemma upd_sem_at i f y db x :
  sems db !! i = Some x → f x = y → upd_sem i f db = upd_sem i (λ _, y) db.
Proof. intros Hx <-. apply upd_sem_ext. intros z Hz. rewrite Hx in Hz. by simplify_eq. Qed.
Lemma upd_sem_same i x db : sems db !! i = Some x → upd_sem i (λ _, x) db = db.
Proof.
  intros Hx. rewrite (upd_sem_ext i (λ _, x) (λ y, y)) by (intros y Hy; congruence).
  unfold upd_sem, set_field. rewrite list_alter_id by done. by destruct db.
Qed.
Lemma modify_sem_done i f db x :
  sems db !! i = Some x → modify_sem i f db = Done (tt, upd_sem i f db).
Proof. intros Hx. unfold modify_sem, get_sem, arr_get, bind, get. by rewrite Hx. Qed.
Lemma get_sem_done i db x : sems db !! i = Some x → get_sem i db = Done (x, db).
Proof. intros Hx. unfold get_sem, arr_get, bind, get. by rewrite Hx. Qed.
Lemma assert_whoami_done {S} c (s : S) :
  caller_wf c → assert_whoami c s = Done ((c_nindex c, c_dindex c), s).
Proof.
  intros (Ha & Hp & _). unfold assert_whoami, mrapi_impl_whoami. rewrite Ha.
  by destruct (Z.eqb_spec (c_pid c) (-1)).
Qed.

(** ** Facts about well-formed entries *)

Section entry.
Context (x : mrapi_sem_t) (Hwf : sem_wf x).
Local Abbreviation limit := (s_shared_lock_limit x).

Lemma slots_length : Z.of_nat (length (slots x)) = limit.
Proof.
  unfold slots. rewrite length_take, wf_length by done.
  destruct (wf_limit x Hwf). lia.
Qed.
Lemma slots_drop : s_locks x = [] ++ slots x ++ drop (Z.to_nat limit) (s_locks x).
Proof. unfold slots. by rewrite app_nil_l, take_drop. Qed.
Lemma limit_small : 0 <= limit < 2 ^ 16.
Proof. destruct (wf_limit x Hwf) as [? Hl]. rewrite max_shared_locks in Hl. lia. Qed.
Lemma free_slots : countb is_free (slots x) = limit - s_num_locks x.
Proof.
  rewrite wf_count, <- slots_length by done. pose proof (wf_slots x Hwf) as Hv.
  induction (slots x) as [|lk ls IH]; [done|]. inversion Hv; subst.
  rewrite !countb_cons, IH by done. unfold is_free. cbn [length].
  rewrite H1. destruct (lk_locked lk); cbn [andb negb Z.b2z]; lia.
Qed.
Lemma num_locks_range : 0 <= s_num_locks x <= limit.
Proof.
  rewrite wf_count, <- slots_length by done. split; [done|]. apply countb_le_length.
Qed.
Lemma size_holders_num : Z.of_nat (size (holders x)) = s_num_locks x.
Proof. unfold holders. by rewrite size_holders, wf_count. Qed.
Lemma multiplicity_my_count n d :
  Z.of_nat (multiplicity (me n d) (holders x)) = my_count n d x.
Proof. apply multiplicity_holders, wf_slots, Hwf. Qed.
Lemma my_count_range n d : 0 <= my_count n d x <= s_num_locks x.
Proof.
  unfold my_count. split; [done|]. rewrite wf_count by done. apply countb_mono.
  by intros lk _ (_ & -> & _)%is_mine_inv.
Qed.

(** Replacing the slots of an entry. *)
Lemma slots_replaced ls k :
  length ls = length (slots x) →
  slots (x <| s_locks := ls ++ drop (Z.to_nat limit) (s_locks x) |>
           <| s_num_locks := k |>) = ls.
Proof.
  intros Hl. unfold slots at 1. cbn. apply take_app_length'.
  rewrite Hl. pose proof slots_length. lia.
Qed.
Lemma sem_wf_replaced ls k :
  length ls = length (slots x) → Forall (λ lk, lk_valid lk = true) ls →
  k = countb lk_locked ls →
  sem_wf (x <| s_locks := ls ++ drop (Z.to_nat limit) (s_locks x) |>
            <| s_num_locks := k |>).
Proof.
  intros Hl Hv Hk. split; rewrite ?slots_replaced by done; cbn; try done.
  - rewrite length_app, Hl, <- length_app, <- (app_nil_l (slots x ++ _)), <- slots_drop.
    by apply wf_length.
  - by apply wf_limit.
  - by apply wf_pos.
  - by apply wf_mutex.
Qed.

Context (n d : nat) (k : Z).

Lemma locked_by_count lk :
  is_free lk = true → Z.b2z (lk_locked (locked_by n d lk)) = Z.b2z (lk_locked lk) + 1.
Proof. by intros [_ ->%negb_true_iff]%andb_true_iff. Qed.
Lemma unlocked_count lk :
  is_mine n d lk = true → Z.b2z (lk_locked (unlocked lk)) = Z.b2z (lk_locked lk) + -1.
Proof. by intros (_ & -> & _)%is_mine_inv. Qed.

Lemma sem_wf_acquired : 0 <= k <= limit - s_num_locks x → sem_wf (acquired n d k x).
Proof.
  intros Hk. apply sem_wf_replaced; [apply update_first_length| |].
  - apply update_first_Forall; [done|]. by apply wf_slots.
  - unfold grab. rewrite (update_first_countb _ _ lk_locked 1);
      [|apply locked_by_count|rewrite free_slots; lia].
    rewrite wf_count by done. lia.
Qed.
Lemma holders_acquired :
  Z.of_nat n < 256 → Z.of_nat d < 256 → 0 <= k <= limit - s_num_locks x →
  holders (acquired n d k x) = holders x ⊎ Z.to_nat k *: {[+ me n d +]}.
Proof.
  intros Hn Hd Hk. unfold holders at 1, acquired.
  rewrite slots_replaced by apply update_first_length.
  apply holders_of_grab; [done|done|]. rewrite free_slots. lia.
Qed.
Lemma sem_wf_released : 0 <= k <= my_count n d x → sem_wf (released n d k x).
Proof.
  intros Hk. unfold my_count in Hk.
  apply sem_wf_replaced; [apply update_first_length| |].
  - apply update_first_Forall; [done|]. by apply wf_slots.
  - unfold give_back. rewrite (update_first_countb _ _ lk_locked (-1));
      [|apply unlocked_count|lia].
    rewrite wf_count by done. lia.
Qed.
Lemma holders_released :
  0 <= k <= my_count n d x →
  holders x = holders (released n d k x) ⊎ Z.to_nat k *: {[+ me n d +]}.
Proof.
  intros Hk. unfold my_count in Hk. unfold holders at 2, released.
  rewrite slots_replaced by apply update_first_length.
  apply holders_of_give_back. lia.
Qed.

(** *** The loops on a well-formed entry *)

Lemma acquire_loop_wf :
  1 <= k <= limit - s_num_locks x →
  acquire_loop n d k (Z.to_nat (u32 limit)) 0 x 0 = Done (acquired n d k x, k, true).
Proof.
  intros Hk. pose proof limit_small. pose proof slots_length.
  rewrite u32_small by lia. replace (Z.to_nat limit) with (length (slots x)) at 1 by lia.
  pose proof (acquire_loop_spec n d k [] (slots x) _ x 0 slots_drop ltac:(lia)) as Ha.
  change (length []) with 0%nat in Ha. rewrite Ha.
  rewrite free_slots, Z.sub_0_r, Z.min_l, app_nil_l by lia.
  apply done_triple; [done|done|]. apply Z.leb_le. lia.
Qed.
Lemma count_my_locks_wf :
  count_my_locks n d (Z.to_nat limit) 0 (s_locks x) 0 = Done (my_count n d x).
Proof.
  pose proof limit_small. pose proof slots_length.
  replace (Z.to_nat limit) with (length (slots x)) at 1 by lia.
  rewrite slots_drop at 1. apply (count_my_locks_spec n d [] (slots x)); lia.
Qed.
Lemma release_loop_wf :
  1 <= k <= my_count n d x →
  release_loop n d (Z.to_nat limit) 0 (s_locks x) (u16 k) 0
  = Done (s_locks (released n d k x), k).
Proof.
  intros Hk. pose proof limit_small. pose proof slots_length.
  pose proof (my_count_range n d). pose proof num_locks_range.
  rewrite u16_small by lia.
  replace (Z.to_nat limit) with (length (slots x)) at 1 by lia.
  rewrite slots_drop at 1.
  apply (release_loop_spec n d [] (slots x)); done || unfold my_count in *; lia.
Qed.
End entry.

(** ** The operations in closed form *)

Section operations.
Context (c : caller) (sem : Z) (s : nat) (x : mrapi_sem_t) (db : mrapi_database).
Context (Hc : caller_wf c) (Hsem : mrapi_impl_decode_hndl sem = (s, true)).
Context (Hx : sems db !! s = Some x) (Hwf : sem_wf x).
Local Abbreviation n := (c_nindex c).
Local Abbreviation d := (c_dindex c).

Lemma acquire_eq k status :
  1 <= k →
  mrapi_impl_acquire_lock_locked c sem k status db
  = Done (if s_num_locks x + k <=? s_shared_lock_limit x
          then ((k, MRAPI_SUCCESS), upd_sem s (λ _, acquired n d k x) db)
          else ((0, locked_status (s_type x)), db)).
Proof.
  intros Hk. unfold mrapi_impl_acquire_lock_locked.
  rewrite (bind_done _ _ _ _ _ (assert_whoami_done c db Hc)), Hsem. cbn [negb].
  rewrite (bind_done _ _ _ _ _ (get_sem_done s db x Hx)).
  destruct (Z.leb_spec (s_num_locks x + k) (s_shared_lock_limit x)).
  - destruct (Z.leb_spec 0 (s_shared_lock_limit x - s_num_locks x - k)); [|lia].
    unfold lift, bind. rewrite acquire_loop_wf by (done || lia).
    by rewrite (modify_sem_done s _ db x Hx).
  - by destruct (Z.leb_spec 0 (s_shared_lock_limit x - s_num_locks x - k)); [lia|].
Qed.

Lemma release_eq k status :
  1 <= k < 2 ^ 16 →
  mrapi_impl_release_lock c sem k status db
  = Done (if negb (s_valid x) then ((false, invalid_status (s_type x)), db)
          else if k <=? my_count n d x
          then ((true, status), upd_sem s (λ _, released n d k x) db)
          else ((false, notlocked_status (s_type x)), db)).
Proof.
  intros Hk. unfold mrapi_impl_release_lock. rewrite Hsem. cbn [negb].
  rewrite (bind_done _ _ _ _ _ (assert_whoami_done c db Hc)).
  rewrite (bind_done _ _ _ _ _ (get_sem_done s db x Hx)).
  destruct (s_valid x); cbn [negb]; [|done].
  unfold lift at 1, bind at 1. rewrite count_my_locks_wf by done. rewrite u32_small by lia.
  destruct (Z.leb_spec k (my_count n d x)) as [Hle|Hgt].
  - destruct (Z.ltb_spec (my_count n d x) k); [lia|].
    rewrite (bind_done _ _ _ _ _ (modify_sem_done s _ db x Hx)).
    unfold lift, bind. rewrite release_loop_wf by (done || lia).
    erewrite modify_sem_done by (by apply lookup_upd_sem_eq).
    rewrite upd_sem_twice, Z.eqb_refl.
    by rewrite (upd_sem_at s _ (released n d k x) db x).
  - by destruct (Z.ltb_spec (my_count n d x) k); [|lia].
Qed.

Lemma delete_eq :
  mrapi_impl_sem_delete c sem db
  = Done (my_count n d x =? s_shared_lock_limit x,
          if (my_count n d x =? s_shared_lock_limit x) && s_valid x
          then upd_sem s deleted db else db).
Proof.
  pose proof (limit_small x Hwf).
  unfold mrapi_impl_sem_delete. rewrite Hsem. cbn [negb].
  rewrite (bind_done _ _ _ _ _ (assert_whoami_done c db Hc)).
  rewrite (bind_done _ _ _ _ _ (get_sem_done s db x Hx)).
  unfold lift at 1, bind at 1. rewrite u32_small, count_my_locks_wf by (done || lia).
  destruct ((my_count n d x =? s_shared_lock_limit x) && s_valid x); [|done].
  erewrite bind_done; [reflexivity|].
  rewrite (bind_done _ _ _ _ _ (modify_sem_done s _ db x Hx)).
  rewrite (upd_sem_at s deleted (deleted x) db x) by done. unfold deleted.
  destruct (ext_error_checking (s_attributes x) =? MRAPI_TRUE).
  - erewrite modify_sem_done by (by apply lookup_upd_sem_eq).
    rewrite upd_sem_twice. do 2 f_equal. by apply (upd_sem_at _ _ _ _ x).
  - unfold ret. do 2 f_equal. apply (upd_sem_at _ _ _ _ x); [done|]. by destruct x.
Qed.

(** Every other holder of the entry is untouched. *)
Lemma caller_small : Z.of_nat n < 256 ∧ Z.of_nat d < 256.
Proof. destruct Hc as (_ & _ & Hn & Hd). unfold MRAPI_MAX_NODES, MRAPI_MAX_DOMAINS in *. lia. Qed.
End operations.

(** ** Creating, deleting and writing other fields *)

Lemma sem_wf_deleted x : sem_wf x → sem_wf (deleted x).
Proof. intros Hx. split; cbn; try done; apply Hx. Qed.
Lemma holders_deleted x : holders (deleted x) = holders x.
Proof. done. Qed.

(** Fields that the invariant does not read. *)
Lemma sem_wf_refs x f : sem_wf x → sem_wf (x <| s_refs ::= f |>).
Proof. intros Hx. split; apply Hx. Qed.
Lemma sem_wf_attributes x f : sem_wf x → sem_wf (x <| s_attributes ::= f |>).
Proof. intros Hx. split; apply Hx. Qed.
Lemma sem_wf_invalid x : sem_wf x → sem_wf (x <| s_valid := false |>).
Proof. intros Hx. split; cbn; try done; apply Hx. Qed.
Lemma sem_wf_zero : sem_wf zero_sem.
Proof. by split. Qed.

(** The entry that [mrapi_impl_create_lock_locked] leaves in slot [s]. *)
Definition created (key limit : Z) (t : lock_type) (s : nat) : mrapi_sem_t :=
  mk_sem (mrapi_impl_encode_hndl (Z.of_nat s)) 0
    (replicate (Z.to_nat limit) (mk_lock true false 0 0 0)
     ++ replicate (MRAPI_MAX_SHARED_LOCKS - Z.to_nat limit) zero_lock)
    key 0 limit t zero_attributes true false 1.

Section created.
Context (key limit : Z) (t : lock_type) (s : nat) (Hlimit : 1 <= limit <= 32).

Lemma slots_created :
  slots (created key limit t s) = replicate (Z.to_nat limit) (mk_lock true false 0 0 0).
Proof. apply take_app_length'. by rewrite length_replicate. Qed.
Lemma sem_wf_created : (t = MUTEX → limit = 1) → sem_wf (created key limit t s).
Proof.
  intros Ht. pose proof max_shared_locks.
  split; rewrite ?slots_created; cbn [s_locks s_shared_lock_limit s_num_locks created];
    try done; try lia.
  - rewrite length_app, !length_replicate. lia.
  - by apply Forall_replicate.
  - symmetry. apply countb_zero. by intros x [-> _]%elem_of_replicate.
Qed.
Lemma holders_created : holders (created key limit t s) = ∅.
Proof.
  unfold holders. rewrite slots_created. by induction (Z.to_nat limit).
Qed.
Lemma set_locks_valid_zero :
  set_locks_valid (Z.to_nat (u32 limit)) 0 (replicate MRAPI_MAX_SHARED_LOCKS zero_lock)
  = Done (s_locks (created key limit t s)).
Proof.
  pose proof max_shared_locks. rewrite u32_small by lia.
  replace MRAPI_MAX_SHARED_LOCKS
    with (Z.to_nat limit + (MRAPI_MAX_SHARED_LOCKS - Z.to_nat limit))%nat at 1 by lia.
  rewrite replicate_add.
  pose proof (set_locks_valid_spec [] (replicate (Z.to_nat limit) zero_lock)
    (replicate (MRAPI_MAX_SHARED_LOCKS - Z.to_nat limit) zero_lock)) as He.
  rewrite length_replicate in He. cbn [app length] in He. rewrite He.
  unfold created. cbn [s_locks]. do 2 f_equal. by rewrite fmap_replicate.
Qed.
End created.

(** ** The recursion key of slot 0 *)

Definition with_key (key : Z) (x : mrapi_sem_t) : mrapi_sem_t :=
  x <| s_locks ::= alter (λ lk, lk <| lk_key := key |>) 0%nat |>.

Lemma alter_head {A} (f : A → A) y l : alter f 0%nat (y :: l) = f y :: l.
Proof. done. Qed.
Lemma slots_with_key key x :
  slots (with_key key x) = alter (λ lk, lk <| lk_key := key |>) 0%nat (slots x).
Proof.
  unfold slots, with_key. cbn.
  by destruct (s_locks x), (Z.to_nat (s_shared_lock_limit x)).
Qed.
Lemma holders_with_key key x : holders (with_key key x) = holders x.
Proof.
  unfold holders. rewrite slots_with_key.
  destruct (slots x) as [|lk ls]; [done|]. by rewrite alter_head, !holders_of_cons.
Qed.
Lemma sem_wf_with_key key x : sem_wf x → sem_wf (with_key key x).
Proof.
  intros Hx. split; try rewrite slots_with_key; try apply Hx.
  - cbn. rewrite length_alter. by apply wf_length.
  - pose proof (wf_slots x Hx) as Hs. destruct Hs; [constructor|]. by constructor.
  - change (s_num_locks (with_key key x)) with (s_num_locks x).
    rewrite (wf_count x Hx). destruct (slots x) as [|lk ls]; [done|].
    by rewrite alter_head, !countb_cons.
Qed.
#[export] Hint Resolve sem_wf_with_key : core.
