(* ===== verification/DbInvariant.v ===== *)
(** The invariant of the whole database, and what every read and write of it
    keeps.  [db_keeps F m P] is [keeps] at that invariant. *)

From S2P Require Import Prelude MrapiTypes MrapiHandles MrapiLocks LockSlots LockSpec LockEntry.

Record node_wf (x : mrapi_node_data) : Prop := {
  wf_n_sems : length (n_sems x) = MRAPI_MAX_SEMS;
  wf_n_shmems : length (n_shmems x) = MRAPI_MAX_SHMEMS }.

Record domain_wf (x : mrapi_domain_data) : Prop := {
  wf_d_length : length (d_nodes x) = MRAPI_MAX_NODES;
  wf_d_nodes : Forall node_wf (d_nodes x) }.

(** Every live node has an identity of its own: used domain entries come
    first and have distinct ids, and the live nodes of a domain have distinct
    node numbers. *)
Record idents_ok (ds : list mrapi_domain_data) : Prop := {
  id_unused i dm : ds !! i = Some dm → d_valid dm = false →
    d_domain_id dm = 0 ∧ ∀ n x, d_nodes dm !! n = Some x → n_valid x = false;
  id_prefix i j dm dm' : (i < j)%nat → ds !! i = Some dm → ds !! j = Some dm' →
    d_valid dm' = true → d_valid dm = true;
  id_domains i j dm dm' : ds !! i = Some dm → ds !! j = Some dm' →
    d_valid dm = true → d_valid dm' = true → d_domain_id dm = d_domain_id dm' → i = j;
  id_nodes i dm n m x y : ds !! i = Some dm → d_nodes dm !! n = Some x →
    d_nodes dm !! m = Some y → n_valid x = true → n_valid y = true →
    n_node_num x = n_node_num y → n = m }.

Record db_wf (db : mrapi_database) : Prop := {
  wf_sems_length : length (sems db) = MRAPI_MAX_SEMS;
  wf_sems : Forall sem_wf (sems db);
  wf_shmems_length : length (shmems db) = MRAPI_MAX_SHMEMS;
  wf_rmems_length : length (rmems db) = MRAPI_MAX_RMEMS;
  wf_rmems : Forall (λ x, length (rm_nodes x) = MRAPI_MAX_NODES) (rmems db);
  wf_domains_length : length (domains db) = MRAPI_MAX_DOMAINS;
  wf_domains : Forall domain_wf (domains db);
  wf_idents : idents_ok (domains db);
  wf_requests_length : length (requests db) = MRAPI_MAX_REQUESTS }.

Lemma node_wf_zero : node_wf zero_node.
Proof. split; apply length_replicate. Qed.
Lemma domain_wf_zero : domain_wf zero_domain.
Proof. split; [apply length_replicate|]. apply Forall_replicate, node_wf_zero. Qed.
Lemma idents_ok_zero : idents_ok (replicate MRAPI_MAX_DOMAINS zero_domain).
Proof.
  assert (∀ i dm, replicate MRAPI_MAX_DOMAINS zero_domain !! i = Some dm → dm = zero_domain)
    as Hz by (intros i dm [-> _]%lookup_replicate; done).
  split.
  - intros i dm ->%Hz _. split; [done|]. intros n x [-> _]%lookup_replicate. done.
  - by intros i j dm dm' _ ->%Hz ->%Hz.
  - by intros i j dm dm' ->%Hz ->%Hz.
  - by intros i dm n m x y ->%Hz [-> _]%lookup_replicate.
Qed.
Lemma db_wf_zero : db_wf zero_db.
Proof.
  split; try apply length_replicate.
  - apply Forall_replicate, sem_wf_zero.
  - apply Forall_replicate, length_replicate.
  - apply Forall_replicate, domain_wf_zero.
  - apply idents_ok_zero.
Qed.

(** ** Reads *)

Lemma Forall_alter {A} (P : A → Prop) f i (l : list A) :
  Forall P l → (∀ x, l !! i = Some x → P x → P (f x)) → Forall P (alter f i l).
Proof.
  intros Hl Hf. rewrite Forall_lookup in *. intros j x. rewrite list_lookup_alter.
  case_decide; subst; [|by apply Hl].
  intros (y & Hy & ->)%fmap_Some. eauto.
Qed.

Section reads.
Context (db : mrapi_database) (Hdb : db_wf db).

Lemma sem_at s : (s < MRAPI_MAX_SEMS)%nat → ∃ x, sems db !! s = Some x ∧ sem_wf x.
Proof.
  intros Hs. destruct (lookup_lt_is_Some_2 (sems db) s) as [x Hx].
  { by rewrite wf_sems_length. }
  exists x. split; [done|]. by eapply Forall_lookup_1; [apply wf_sems|].
Qed.
Lemma sem_lookup_wf s x : sems db !! s = Some x → (s < MRAPI_MAX_SEMS)%nat ∧ sem_wf x.
Proof.
  intros Hx. split; [|by eapply Forall_lookup_1; [apply wf_sems|]].
  rewrite <- (wf_sems_length db Hdb). by eapply lookup_lt_Some.
Qed.
Lemma node_at d n :
  (d < MRAPI_MAX_DOMAINS)%nat → (n < MRAPI_MAX_NODES)%nat →
  ∃ dm x, domains db !! d = Some dm ∧ d_nodes dm !! n = Some x ∧ node_wf x.
Proof.
  intros Hd Hn. destruct (lookup_lt_is_Some_2 (domains db) d) as [dm Hdm].
  { by rewrite wf_domains_length. }
  pose proof (Forall_lookup_1 _ _ _ _ (wf_domains db Hdb) Hdm) as Hw.
  destruct (lookup_lt_is_Some_2 (d_nodes dm) n) as [x Hx].
  { by rewrite wf_d_length. }
  exists dm, x. split; [done|]. split; [done|].
  by eapply Forall_lookup_1; [apply wf_d_nodes|].
Qed.
End reads.

(** ** Writes *)

Lemma db_wf_upd_sem i f db :
  db_wf db → (∀ x, sems db !! i = Some x → sem_wf x → sem_wf (f x)) → db_wf (upd_sem i f db).
Proof.
  intros Hdb Hf. split; cbn; rewrite ?length_alter; try apply Hdb.
  by apply Forall_alter; [apply Hdb|].
Qed.
(** A write that may end a node but does not start or rename one. *)
Definition node_shrinks (x y : mrapi_node_data) : Prop :=
  n_valid y = true → n_valid x = true ∧ n_node_num x = n_node_num y.
Definition node_write (f : mrapi_node_data → mrapi_node_data) : Prop :=
  ∀ x, node_wf x → node_wf (f x) ∧ node_shrinks x (f x).

Lemma nodes_alter_shrinks f n j (l : list mrapi_node_data) y :
  Forall node_wf l → node_write f → alter f n l !! j = Some y →
  ∃ x, l !! j = Some x ∧ node_shrinks x y.
Proof.
  intros Hl Hf. rewrite list_lookup_alter. case_decide; subst.
  - intros (x & Hx & ->)%fmap_Some. exists x. split; [done|].
    by apply Hf, (Forall_lookup_1 _ _ _ _ Hl Hx).
  - intros Hy. by exists y.
Qed.

(** A write to one domain entry that keeps its id and shrinks its nodes. *)
Lemma idents_ok_alter f d ds :
  idents_ok ds →
  (∀ dm, ds !! d = Some dm →
    d_valid (f dm) = d_valid dm ∧ d_domain_id (f dm) = d_domain_id dm ∧
    ∀ n y, d_nodes (f dm) !! n = Some y → ∃ x, d_nodes dm !! n = Some x ∧ node_shrinks x y) →
  idents_ok (alter f d ds).
Proof.
  intros Hds Hf.
  assert (∀ i dm', alter f d ds !! i = Some dm' → ∃ dm, ds !! i = Some dm ∧
    d_valid dm' = d_valid dm ∧ d_domain_id dm' = d_domain_id dm ∧
    ∀ n y, d_nodes dm' !! n = Some y → ∃ x, d_nodes dm !! n = Some x ∧ node_shrinks x y) as Hb.
  { intros i dm'. rewrite list_lookup_alter. case_decide; subst.
    - intros (dm & Hdm & ->)%fmap_Some. exists dm. split; [done|]. by apply Hf.
    - intros Hdm. exists dm'. split_and!; try done. intros n y Hy. by exists y. }
  split.
  - intros i dm' (dm & Hdm & -> & -> & Hn)%Hb Hv.
    destruct (id_unused _ Hds i dm Hdm Hv) as [? Hu]. split; [done|].
    intros n y (x & Hx & Hs)%Hn. apply not_true_iff_false. intros [Hv' _]%Hs.
    specialize (Hu n x Hx). congruence.
  - intros i j dm dm' Hij (? & Hi & -> & _)%Hb (? & Hj & -> & _)%Hb.
    by apply (id_prefix _ Hds i j).
  - intros i j dm dm' (? & Hi & -> & -> & _)%Hb (? & Hj & -> & -> & _)%Hb.
    by apply (id_domains _ Hds i j).
  - intros i dm n m y y' (dm0 & Hi & _ & _ & Hn)%Hb (x & Hx & Hs)%Hn (x' & Hx' & Hs')%Hn
      [Hv <-]%Hs [Hv' <-]%Hs'.
    by apply (id_nodes _ Hds i dm0 n m x x').
Qed.

Lemma db_wf_upd_node d n f db : db_wf db → node_write f → db_wf (upd_node d n f db).
Proof.
  intros Hdb Hf. split; cbn; rewrite ?length_alter; try apply Hdb.
  - apply Forall_alter; [apply Hdb|]. intros dm _ Hdm.
    split; cbn; rewrite ?length_alter; [apply Hdm|].
    apply Forall_alter; [apply Hdm|]. intros x _ Hx. by apply Hf.
  - apply idents_ok_alter; [apply Hdb|]. intros dm Hdm. split_and!; [done|done|].
    intros j y Hy. apply (nodes_alter_shrinks f n); [|done|exact Hy].
    by apply wf_d_nodes, (Forall_lookup_1 _ _ _ _ (wf_domains db Hdb) Hdm).
Qed.
Lemma node_write_sems s b : node_write (λ x, x <| n_sems ::= <[s := b]> |>).
Proof.
  intros x Hx. split; [|by intros ?]. split; cbn; rewrite ?length_insert; apply Hx.
Qed.
Lemma node_write_shmems s b : node_write (λ x, x <| n_shmems ::= <[s := b]> |>).
Proof.
  intros x Hx. split; [|by intros ?]. split; cbn; rewrite ?length_insert; apply Hx.
Qed.
Lemma node_write_end : node_write (λ x, x <| n_valid := false |>).
Proof. intros x Hx. split; [split; apply Hx|]. by intros ?. Qed.
Lemma db_wf_num_sems f db : db_wf db → db_wf (db <| num_sems ::= f |>).
Proof. intros Hdb. split; apply Hdb. Qed.

Create HintDb db.
#[export] Hint Resolve sem_wf_refs sem_wf_attributes sem_wf_invalid sem_wf_deleted
  sem_wf_zero node_write_sems node_write_shmems node_write_end db_wf_num_sems : db.

(** ** The monadic accessors *)

Abbreviation db_keeps F := (keeps F db_wf).

Section accessors.
Context (F : Prop).

Lemma keeps_get_sem s : (s < MRAPI_MAX_SEMS)%nat → db_keeps F (get_sem s) sem_wf.
Proof.
  intros Hs. apply keeps_arr_get.
  - intros db Hdb. destruct (sem_at db Hdb s Hs) as (x & -> & _). eauto.
  - intros db x Hdb Hx. by eapply sem_lookup_wf.
Qed.
Lemma keeps_modify_sem s f :
  (s < MRAPI_MAX_SEMS)%nat → (∀ x, sem_wf x → sem_wf (f x)) →
  db_keeps F (modify_sem s f) (λ _, True).
Proof.
  intros Hs Hf. eapply keeps_bind; [by apply keeps_get_sem|]. intros _ _.
  apply keeps_modify; [done|]. intros db Hdb. apply db_wf_upd_sem; eauto.
Qed.
Lemma keeps_get_node d n :
  (d < MRAPI_MAX_DOMAINS)%nat → (n < MRAPI_MAX_NODES)%nat →
  db_keeps F (get_node d n) node_wf.
Proof.
  intros Hd Hn db Hdb. destruct (node_at db Hdb d n Hd Hn) as (dm & x & Hdm & Hx & Hw).
  unfold runs, get_node, arr_get, bind, get. rewrite Hdm. cbn. by rewrite Hx.
Qed.
Lemma keeps_modify_node d n f :
  (d < MRAPI_MAX_DOMAINS)%nat → (n < MRAPI_MAX_NODES)%nat →
  node_write f → db_keeps F (modify_node d n f) (λ _, True).
Proof.
  intros Hd Hn Hf. eapply keeps_bind; [by apply keeps_get_node|]. intros _ _.
  apply keeps_modify; [done|]. intros db Hdb. by apply db_wf_upd_node.
Qed.
Lemma keeps_n_sems s x :
  node_wf x → (s < MRAPI_MAX_SEMS)%nat →
  db_keeps F (from_option_oob (n_sems x !! s)) (λ _, True).
Proof.
  intros Hx Hs. apply keeps_oob; [|done]. apply lookup_lt_is_Some. by rewrite wf_n_sems.
Qed.
Lemma keeps_log_sem_user d n s b :
  (d < MRAPI_MAX_DOMAINS)%nat → (n < MRAPI_MAX_NODES)%nat → (s < MRAPI_MAX_SEMS)%nat →
  db_keeps F (log_sem_user d n s b) (λ _, True).
Proof.
  intros Hd Hn Hs. eapply keeps_bind; [by apply keeps_get_node|]. intros x Hx.
  eapply keeps_bind; [by apply keeps_n_sems|]. intros _ _.
  apply keeps_modify_node; eauto with db.
Qed.
Lemma keeps_assert_whoami c :
  caller_wf c →
  db_keeps F (assert_whoami c) (λ nd, nd = (c_nindex c, c_dindex c) ∧
    (c_dindex c < MRAPI_MAX_DOMAINS)%nat ∧ (c_nindex c < MRAPI_MAX_NODES)%nat).
Proof.
  intros Hc db Hdb. unfold runs. rewrite assert_whoami_done by done.
  destruct Hc as (_ & _ & ? & ?). done.
Qed.
Lemma keeps_scan {A} (p : A → bool) (l : mrapi_database → list A) k db :
  length (l db) = k → db_keeps F (lift (c_scan p (l db) k 0)) (λ i, (i <= k)%nat).
Proof.
  intros Hl. destruct (c_scan_spec p (l db) k 0) as (j & Hj & Hle & _); [lia|].
  eapply keeps_lift; [done|]. lia.
Qed.
End accessors.
