(* ===== verification/LockCreate.v ===== *)
(** Creating and looking up locks: [mrapi_impl_create_lock_locked] in closed
    form, the three [*_create] functions and [mrapi_impl_sem_get]. *)

From S2P Require Import Prelude MrapiTypes MrapiHandles MrapiLocks MrapiMutexRwl LockSlots LockSpec LockEntry DbInvariant.

(** ** Closed form *)

(** The database after slot [s] became the entry [y], used by the caller. *)
Definition add_lock (c : caller) (s : nat) (y : mrapi_sem_t) (db : mrapi_database) :
    mrapi_database :=
  upd_sem s (λ _, y)
    (upd_node (c_dindex c) (c_nindex c) (λ x, x <| n_sems ::= <[s := true]> |>)
      (db <| num_sems ::= λ k, u8 (k + 1) |>)).

Definition key_taken (key : Z) (db : mrapi_database) : Prop :=
  ∃ s x, sems db !! s = Some x ∧ s_valid x = true ∧ s_key x = key.
Definition first_free (s : nat) (db : mrapi_database) : Prop :=
  (∃ x, sems db !! s = Some x ∧ s_valid x = false ∧ s_deleted x = false) ∧
  ∀ j y, (j < s)%nat → sems db !! j = Some y → s_valid y = true ∨ s_deleted y = true.
Definition no_free (db : mrapi_database) : Prop :=
  ∀ j y, sems db !! j = Some y → s_valid y = true ∨ s_deleted y = true.

(** The key that is stored: the caller's, or for [MRAPI_SEM_ID_ANY] the
    address of the entry. *)
Definition any_key (key : Z) : bool := MRAPI_SEM_ID_ANY =? u32 key.
Definition stored_key (c : caller) (key : Z) (s : nat) : Z :=
  if any_key key then c_sem_addr c s else key.

Inductive create_outcome (c : caller) (sem key limit : Z) (t : lock_type)
    (st : mrapi_status) (db : mrapi_database) :
    bool * Z * mrapi_status → mrapi_database → Prop :=
| create_exists :
    any_key key = false → key_taken key db →
    create_outcome c sem key limit t st db (false, sem, exists_status t) db
| create_full :
    (any_key key = true ∨ ¬ key_taken key db) → no_free db →
    create_outcome c sem key limit t st db (false, sem, st) db
| create_done s :
    (any_key key = true ∨ ¬ key_taken key db) → first_free s db →
    (s < MRAPI_MAX_SEMS)%nat →
    create_outcome c sem key limit t st db
      (true, mrapi_impl_encode_hndl (Z.of_nat s), st)
      (add_lock c s (created (stored_key c key s) limit t s) db).

(** ** Reading back what was written *)

Lemma log_sem_user_done c s b db :
  db_wf db → caller_wf c → (s < MRAPI_MAX_SEMS)%nat →
  log_sem_user (c_dindex c) (c_nindex c) s b db
  = Done (tt, upd_node (c_dindex c) (c_nindex c) (λ x, x <| n_sems ::= <[s := b]> |>) db).
Proof.
  intros Hdb (_ & _ & Hn & Hd) Hs.
  destruct (node_at db Hdb _ _ Hd Hn) as (dm & x & Hdm & Hx & Hw).
  assert (get_node (c_dindex c) (c_nindex c) db = Done (x, db)) as Hg.
  { unfold get_node, arr_get, bind, get. rewrite Hdm. cbn. by rewrite Hx. }
  unfold log_sem_user. rewrite (bind_done _ _ _ _ _ Hg).
  destruct (lookup_lt_is_Some_2 (n_sems x) s) as [b' Hb]; [by rewrite wf_n_sems|].
  rewrite Hb. unfold modify_node. by rewrite bind_done with (a := b') (s' := db),
    (bind_done _ _ _ _ _ Hg).
Qed.

(** The writes to the new entry, folded into one. *)
Lemma upd_sem_at_twice s f y z db x :
  sems db !! s = Some x → f y = z →
  upd_sem s f (upd_sem s (λ _, y) db) = upd_sem s (λ _, z) db.
Proof. intros Hx <-. rewrite upd_sem_twice. by apply (upd_sem_at s _ _ db x). Qed.
Lemma modify_sem_at s f y z db x :
  sems db !! s = Some x → f y = z →
  modify_sem s f (upd_sem s (λ _, y) db) = Done (tt, upd_sem s (λ _, z) db).
Proof.
  intros Hx Hz. erewrite modify_sem_done by (by apply lookup_upd_sem_eq).
  by erewrite upd_sem_at_twice.
Qed.
Lemma upd_sem_node i f d n g db :
  upd_node d n g (upd_sem i f db) = upd_sem i f (upd_node d n g db).
Proof. done. Qed.
Lemma upd_sem_num i f g db :
  (upd_sem i f db) <| num_sems ::= g |> = upd_sem i f (db <| num_sems ::= g |>).
Proof. done. Qed.

(** The part of [mrapi_impl_create_lock_locked] that fills in entry [s]. *)
Lemma create_fill c key limit t st s db x :
  db_wf db → caller_wf c → sems db !! s = Some x → 1 <= limit <= 32 →
  ( modify_sem s (λ _, zero_sem);;
    modify_sem s (λ x, x <| s_key := key |>);;
    log_sem_user (c_dindex c) (c_nindex c) s true;;
    modify_sem s (λ x, x <| s_refs ::= λ r, u8 (r + 1) |> <| s_valid := true |>
      <| s_shared_lock_limit := i32 limit |> <| s_type := t |>);;
    modify (λ db, db <| num_sems ::= λ k, u8 (k + 1) |>);;
    let* x := get_sem s in
    let* ls := lift (set_locks_valid (Z.to_nat (u32 limit)) 0 (s_locks x)) in
    modify_sem s (λ x, x <| s_locks := ls |>
      <| s_handle := mrapi_impl_encode_hndl (Z.of_nat s) |>);;
    ret (true, mrapi_impl_encode_hndl (Z.of_nat s), st) ) db
  = Done ((true, mrapi_impl_encode_hndl (Z.of_nat s), st : mrapi_status),
          add_lock c s (created key limit t s) db).
Proof.
  intros Hdb Hc Hx Hlimit. destruct (sem_lookup_wf db Hdb s x Hx) as [Hs _].
  rewrite (bind_done _ _ _ _ _ (modify_sem_done s _ db x Hx)).
  erewrite bind_done; [|by eapply modify_sem_at]. cbv beta.
  erewrite bind_done; [|apply log_sem_user_done; [|done..]].
  2:{ apply db_wf_upd_sem; [done|]. intros ? _ _. by split. }
  rewrite upd_sem_node. set (db1 := upd_node _ _ _ db).
  assert (sems db1 !! s = Some x) as Hx1 by done.
  erewrite bind_done; [|by eapply modify_sem_at]. cbv beta.
  erewrite bind_done; [|reflexivity]. rewrite upd_sem_num.
  set (db2 := db1 <| num_sems ::= _ |>).
  assert (sems db2 !! s = Some x) as Hx2 by done.
  erewrite bind_done; [|eapply get_sem_done; by eapply lookup_upd_sem_eq]. cbv beta.
  unfold lift, bind at 1.
  lazymatch goal with |- context [set_locks_valid _ _ (s_locks ?y)] =>
    change (s_locks y) with (replicate MRAPI_MAX_SHARED_LOCKS zero_lock) end.
  rewrite (set_locks_valid_zero key limit t s) by done.
  erewrite bind_done; [|by eapply modify_sem_at]. unfold ret. do 2 f_equal.
  unfold add_lock. subst db1 db2. do 2 f_equal.
  unfold created. cbn. rewrite i32_small by lia. done.
Qed.

(** [valid && key == key] over the array decides [key_taken]. *)
Lemma scan_key key db :
  db_wf db →
  ∃ s, c_scan (λ x, s_valid x && (s_key x =? key)) (sems db) MRAPI_MAX_SEMS 0 = Done s ∧
    ((s < MRAPI_MAX_SEMS)%nat ∧ key_taken key db ∨ s = MRAPI_MAX_SEMS ∧ ¬ key_taken key db).
Proof.
  intros Hdb. destruct (c_scan_all (λ x, s_valid x && (s_key x =? key)) (sems db)
    MRAPI_MAX_SEMS (wf_sems_length db Hdb)) as [(j & x & Hj & Hlt & Hx & Hp & _)|[Hj Hno]];
    rewrite Hj; eexists; (split; [done|]).
  - left. split; [done|]. apply andb_true_iff in Hp as [? ?%Z.eqb_eq]. by exists j, x.
  - right. split; [done|]. intros (s & x & Hx & Hv & Hk).
    specialize (Hno s x Hx). rewrite Hv, Hk, Z.eqb_refl in Hno. done.
Qed.
Lemma scan_free db :
  db_wf db →
  ∃ s, c_scan (λ x, negb (s_valid x) && negb (s_deleted x)) (sems db) MRAPI_MAX_SEMS 0
       = Done s ∧
    ((s < MRAPI_MAX_SEMS)%nat ∧ first_free s db ∨ s = MRAPI_MAX_SEMS ∧ no_free db).
Proof.
  intros Hdb. set (p := λ x : mrapi_sem_t, negb (s_valid x) && negb (s_deleted x)).
  assert (∀ x, p x = false → s_valid x = true ∨ s_deleted x = true) as Hp0.
  { intros x. unfold p. destruct (s_valid x), (s_deleted x); auto. }
  destruct (c_scan_all p (sems db) MRAPI_MAX_SEMS (wf_sems_length db Hdb))
    as [(j & x & Hj & Hlt & Hx & Hp & Hb)|[Hj Hno]]; rewrite Hj; eexists; (split; [done|]).
  - left. split; [done|]. split; [|eauto].
    apply andb_true_iff in Hp as [?%negb_true_iff ?%negb_true_iff]. eauto.
  - right. split; [done|]. intros k y Hy. eauto.
Qed.

Lemma create_lock_spec c sem key limit t st db :
  db_wf db → caller_wf c → 1 <= limit <= 32 →
  ∃ r db', mrapi_impl_create_lock_locked c sem key limit t st db = Done (r, db') ∧
    create_outcome c sem key limit t st db r db'.
Proof.
  intros Hdb Hc Hlimit. unfold mrapi_impl_create_lock_locked.
  rewrite (bind_done _ _ _ _ _ (assert_whoami_done c db Hc)).
  erewrite bind_done by reflexivity. fold (any_key key).
  destruct (scan_key key db Hdb) as (s1 & Hs1 & Hkey).
  destruct (scan_free db Hdb) as (s2 & Hs2 & Hfree).
  erewrite (bind_done _ _ db (if any_key key then MRAPI_MAX_SEMS else s1) db).
  2:{ destruct (any_key key); [done|]. unfold lift. by rewrite Hs1. }
  destruct (Nat.eqb_spec (if any_key key then MRAPI_MAX_SEMS else s1) MRAPI_MAX_SEMS)
    as [Hany|Hany]; cbn [negb].
  - assert (any_key key = true ∨ ¬ key_taken key db) as Hnew.
    { destruct (any_key key); [auto|]. right. intros Ht.
      destruct Hkey as [[? _]|[_ ?]]; [lia|done]. }
    unfold lift at 1, bind at 1. rewrite Hs2.
    destruct Hfree as [[Hlt Hff]|[-> Hnf]].
    + destruct (Nat.ltb_spec s2 MRAPI_MAX_SEMS); [|lia].
      destruct Hff as [(x & Hx & Hrest) Hb].
      eexists _, _. split; [by eapply create_fill|].
      apply create_done; [done| |done]. split; [by exists x|done].
    + destruct (Nat.ltb_spec MRAPI_MAX_SEMS MRAPI_MAX_SEMS); [lia|].
      eexists _, _. split; [done|]. by apply create_full.
  - destruct (any_key key) eqn:Ea; [done|]. destruct Hkey as [[_ Ht]|[? _]]; [|done].
    eexists _, _. split; [done|]. by apply create_exists.
Qed.

(** ** The three create functions *)

(** The attributes a created lock gets: the user's, or the defaults. *)
Definition lock_attributes (t : lock_type) (attrs : option mrapi_impl_attributes_t) :
    mrapi_impl_attributes_t :=
  match attrs with
  | Some a =>
      zero_attributes <| recursive := match t with MUTEX => recursive a | _ => 0 end |>
        <| ext_error_checking := ext_error_checking a |>
        <| shared_across_domains := shared_across_domains a |>
  | None => zero_attributes <| shared_across_domains := MRAPI_TRUE |>
  end.
Definition new_lock (c : caller) (key limit : Z) (t : lock_type)
    (attrs : option mrapi_impl_attributes_t) (s : nat) : mrapi_sem_t :=
  created (stored_key c key s) limit t s
    <| s_attributes := lock_attributes t attrs |>.

Inductive lock_create_outcome (c : caller) (sem key limit : Z) (t : lock_type)
    (attrs : option mrapi_impl_attributes_t) (st : mrapi_status) (db : mrapi_database) :
    bool * Z * mrapi_status → mrapi_database → Prop :=
| lock_exists :
    any_key key = false → key_taken key db →
    lock_create_outcome c sem key limit t attrs st db (false, sem, exists_status t) db
| lock_full :
    (any_key key = true ∨ ¬ key_taken key db) → no_free db →
    lock_create_outcome c sem key limit t attrs st db (false, sem, st) db
| lock_created s :
    (any_key key = true ∨ ¬ key_taken key db) → first_free s db →
    (s < MRAPI_MAX_SEMS)%nat →
    lock_create_outcome c sem key limit t attrs st db
      (true, mrapi_impl_encode_hndl (Z.of_nat s), st)
      (add_lock c s (new_lock c key limit t attrs s) db).

Lemma sem_wf_new_lock c key limit t attrs s :
  1 <= limit <= 32 → (t = MUTEX → limit = 1) → sem_wf (new_lock c key limit t attrs s).
Proof.
  intros Hl Ht.
  apply (sem_wf_attributes _ (λ _, lock_attributes t attrs)). by apply sem_wf_created.
Qed.
Lemma db_wf_add_lock c s y db : db_wf db → sem_wf y → db_wf (add_lock c s y db).
Proof.
  intros Hdb Hy. apply db_wf_upd_sem; [|done]. apply db_wf_upd_node; eauto with db.
Qed.

(** The code after [mrapi_impl_create_lock_locked], shared by the three. *)
Lemma create_attributes_spec c sem key limit t st db attrs
    (fill : nat → Z → mrapi_status → M mrapi_database (bool * Z * mrapi_status)) :
  db_wf db → caller_wf c → 1 <= limit <= 32 →
  (∀ s h st z x, sems z !! s = Some x →
     fill s h st (upd_sem s (λ _, created (stored_key c key s) limit t s) z)
     = Done ((true, h, st), upd_sem s (λ _, new_lock c key limit t attrs s) z)) →
  ∃ r db', (let* (ok, hndl, status) := mrapi_impl_create_lock_locked c sem key limit t st in
            if (ok : bool) then
              let '(s, valid) := mrapi_impl_decode_hndl hndl in
              c_assert valid;; fill s hndl status
            else ret (false, hndl, status)) db = Done (r, db') ∧
    lock_create_outcome c sem key limit t attrs st db r db'.
Proof.
  intros Hdb Hc Hlimit Hfill.
  destruct (create_lock_spec c sem key limit t st db Hdb Hc Hlimit) as (r & db' & Hr & Ho).
  rewrite (bind_done _ _ _ _ _ Hr). destruct Ho as [Ha Ht|Hn Hf|s Hn Hf Hs].
  - eexists _, _. split; [done|]. by apply lock_exists.
  - eexists _, _. split; [done|]. by apply lock_full.
  - rewrite decode_sem by done. pose proof Hf as [(x & Hx & _) _].
    eexists _, _. split; [|by apply lock_created].
    erewrite bind_done by reflexivity. by eapply Hfill.
Qed.

Ltac solve_create attrs :=
  eapply (create_attributes_spec _ _ _ _ _ _ _ attrs (λ s h st, _)); try done;
  intros s h st z x Hx;
  rewrite (bind_done _ _ _ _ _ (modify_sem_at s _ _ _ z x Hx eq_refl));
  destruct attrs as [a|];
  (erewrite bind_done; [|by eapply modify_sem_at]; done).

Lemma sem_create_spec c sem key attrs limit db :
  db_wf db → caller_wf c → 1 <= limit <= 32 →
  ∃ r db', mrapi_impl_sem_create c sem key attrs limit db = Done (r, db') ∧
    lock_create_outcome c sem key limit SEM attrs MRAPI_ERR_SEM_LIMIT db r db'.
Proof. intros. solve_create attrs. Qed.
Lemma mutex_create_spec c mutex key attrs db :
  db_wf db → caller_wf c →
  ∃ r db', mrapi_impl_mutex_create c mutex key attrs db = Done (r, db') ∧
    lock_create_outcome c mutex key 1 MUTEX attrs MRAPI_ERR_MUTEX_LIMIT db r db'.
Proof. intros. solve_create attrs. Qed.
Lemma rwl_create_spec c rwl key attrs limit db :
  db_wf db → caller_wf c → 1 <= limit <= 32 →
  ∃ r db', mrapi_impl_rwl_create c rwl key attrs limit db = Done (r, db') ∧
    lock_create_outcome c rwl key limit RWL attrs MRAPI_ERR_RWL_LIMIT db r db'.
Proof. intros. solve_create attrs. Qed.

Lemma lock_create_outcome_wf c sem key limit t attrs st db r db' :
  db_wf db → 1 <= limit <= 32 → (t = MUTEX → limit = 1) →
  lock_create_outcome c sem key limit t attrs st db r db' → db_wf db'.
Proof.
  intros Hdb Hl Ht Ho. destruct Ho; [done|done|].
  apply db_wf_add_lock; [done|]. by apply sem_wf_new_lock.
Qed.
