(* ===== verification/LockSafety.v ===== *)
(** Every lock operation keeps the invariant of the database and never fails
    an assertion or leaves an array, whatever the other nodes do while the
    operation has released the database; an entry of the database implements the
    abstract counting lock; and the blocking lock attempt by attempt. *)

From S2P Require Import Prelude MrapiTypes MrapiHandles MrapiLocks MrapiMutexRwl MrapiLockApi LockSlots LockSpec LockEntry DbInvariant LockCreate.

(** What the other nodes do keeps the invariant. *)
Definition gap_wf (gap : mrapi_database → mrapi_database) : Prop :=
  ∀ db, db_wf db → db_wf (gap db).
Definition yield_wf (yield : nat → mrapi_database → mrapi_database) : Prop :=
  ∀ k, gap_wf (yield k).

(** A handle whose index is in the array. *)
Definition sem_hndl (sem : Z) (s : nat) : Prop :=
  mrapi_impl_decode_hndl sem = (s, true) ∧ (s < MRAPI_MAX_SEMS)%nat.
(** ... and names a valid entry. *)
Definition live_lock (sem : Z) (db : mrapi_database) : Prop :=
  ∃ s x, mrapi_impl_decode_hndl sem = (s, true) ∧ sems db !! s = Some x ∧ s_valid x = true.

Lemma live_lock_hndl sem db : db_wf db → live_lock sem db → ∃ s, sem_hndl sem s.
Proof.
  intros Hdb (s & x & Hs & Hx & _). exists s. split; [done|]. by eapply sem_lookup_wf.
Qed.

(** ** The handle checks *)

Lemma valid_lock_hndl_spec sem st db :
  db_wf db →
  ∃ ok st', mrapi_impl_valid_lock_hndl sem st db = Done ((ok, st'), db) ∧
    (if ok then live_lock sem db else ¬ live_lock sem db).
Proof.
  intros Hdb. unfold mrapi_impl_valid_lock_hndl.
  destruct (mrapi_impl_decode_hndl sem) as [s v] eqn:Hsem.
  destruct v; cbn [negb orb].
  2:{ eexists _, _. split; [done|]. intros (s' & x & Hs' & _). congruence. }
  destruct (Nat.leb_spec MRAPI_MAX_SEMS s) as [Hle|Hlt].
  { eexists _, _. split; [done|]. intros (s' & x & Hs' & Hx & _).
    assert (s' = s) as -> by congruence. apply sem_lookup_wf in Hx as [? _]; [lia|done]. }
  destruct (sem_at db Hdb s Hlt) as (x & Hx & _).
  rewrite (bind_done _ _ _ _ _ (get_sem_done s db x Hx)).
  destruct (s_valid x) eqn:Hv.
  { eexists _, _. split; [done|]. by exists s, x. }
  assert (¬ live_lock sem db) as Hno.
  { intros (s' & x' & Hs' & Hx' & Hv').
    assert (s' = s) as -> by congruence. congruence. }
  erewrite bind_done by reflexivity.
  destruct (c_scan_all (λ x, s_deleted x && (s_handle x =? sem)) (sems db) MRAPI_MAX_SEMS
    (wf_sems_length db Hdb)) as [(j & y & Hj & Hjlt & Hy & _)|[Hj _]];
    unfold lift, bind at 1; rewrite Hj.
  - destruct (Nat.ltb_spec j MRAPI_MAX_SEMS); [|lia].
    rewrite (bind_done _ _ _ _ _ (get_sem_done j db y Hy)). eauto.
  - destruct (Nat.ltb_spec MRAPI_MAX_SEMS MRAPI_MAX_SEMS); [lia|]. eauto.
Qed.

Ltac solve_valid_hndl f :=
  let ok := fresh "ok" in let st := fresh "st" in let He := fresh "He" in
  let Hok := fresh "Hok" in
  intros Hdb; unfold f;
  edestruct valid_lock_hndl_spec as (ok & st & He & Hok); [done|];
  rewrite (bind_done _ _ _ _ _ He); destruct ok; eauto.

Lemma valid_sem_hndl_spec sem db :
  db_wf db →
  ∃ ok st, mrapi_impl_valid_sem_hndl sem db = Done ((ok, st), db) ∧
    (if ok then live_lock sem db else ¬ live_lock sem db).
Proof. solve_valid_hndl mrapi_impl_valid_sem_hndl. Qed.
Lemma valid_mutex_hndl_spec sem db :
  db_wf db →
  ∃ ok st, mrapi_impl_valid_mutex_hndl sem db = Done ((ok, st), db) ∧
    (if ok then live_lock sem db else ¬ live_lock sem db).
Proof. solve_valid_hndl mrapi_impl_valid_mutex_hndl. Qed.
Lemma valid_rwl_hndl_spec sem db :
  db_wf db →
  ∃ ok st, mrapi_impl_valid_rwl_hndl sem db = Done ((ok, st), db) ∧
    (if ok then live_lock sem db else ¬ live_lock sem db).
Proof. solve_valid_hndl mrapi_impl_valid_rwl_hndl. Qed.

(** ** The implementation layer *)

Section impl.
Context (F : Prop) (c : caller) (Hc : caller_wf c).

Lemma keeps_sem_get key : db_keeps F (mrapi_impl_sem_get c key) (λ _, True).
Proof.
  eapply keeps_bind; [by apply keeps_assert_whoami|]. intros _ (-> & Hd & Hn).
  intros db Hdb. eapply runs_step; [done|]. cbv beta.
  eapply runs_bind; [by apply keeps_scan; [apply wf_sems_length|]|]. intros s Hs.
  eapply (keeps_bind _ _ (λ _, True)); [|intros; by apply keeps_ret].
  destruct (Nat.ltb_spec s MRAPI_MAX_SEMS); [|by apply keeps_ret].
  eapply keeps_bind; [by apply keeps_get_node|]. intros x Hx.
  eapply keeps_bind; [by apply keeps_n_sems|]. intros [] _; [by apply keeps_ret|].
  eapply keeps_bind; [by apply keeps_log_sem_user|]. intros _ _.
  eapply keeps_bind; [apply keeps_modify_sem; auto with db|]. intros _ _.
  by apply keeps_ret.
Qed.

Context (sem : Z) (s : nat) (Hsem : sem_hndl sem s).

Lemma keeps_acquire k st :
  1 <= k → db_keeps F (mrapi_impl_acquire_lock_locked c sem k st) (λ _, True).
Proof.
  intros Hk db Hdb. destruct Hsem as [Hs Hlt].
  destruct (sem_at db Hdb s Hlt) as (x & Hx & Hw).
  unfold runs. rewrite (acquire_eq c sem s x db) by done.
  destruct (Z.leb_spec (s_num_locks x + k) (s_shared_lock_limit x)); [|done].
  split; [done|]. apply db_wf_upd_sem; [done|]. intros _ _ _.
  pose proof (num_locks_range x Hw). apply sem_wf_acquired; [done|lia].
Qed.
Lemma keeps_release k st :
  1 <= k < 2 ^ 16 → db_keeps F (mrapi_impl_release_lock c sem k st) (λ _, True).
Proof.
  intros Hk db Hdb. destruct Hsem as [Hs Hlt].
  destruct (sem_at db Hdb s Hlt) as (x & Hx & Hw).
  unfold runs. rewrite (release_eq c sem s x db) by done.
  destruct (s_valid x); cbn [negb]; [|done].
  destruct (Z.leb_spec k (my_count (c_nindex c) (c_dindex c) x)); [|done].
  split; [done|]. apply db_wf_upd_sem; [done|]. intros _ _ _.
  apply sem_wf_released; [done|lia].
Qed.
Lemma keeps_delete : db_keeps F (mrapi_impl_sem_delete c sem) (λ _, True).
Proof.
  intros db Hdb. destruct Hsem as [Hs Hlt].
  destruct (sem_at db Hdb s Hlt) as (x & Hx & Hw).
  unfold runs. rewrite (delete_eq c sem s x db) by done. case_match; [|done].
  split; [done|]. apply db_wf_upd_sem; [done|]. eauto with db.
Qed.

End impl.

Section blocking.
Context (c : caller) (Hc : caller_wf c) (sem : Z) (s : nat) (Hsem : sem_hndl sem s).

Lemma keeps_sem_lock_loop yield fuel k num_locks timeout time st :
  yield_wf yield → 1 <= num_locks →
  db_keeps True (sem_lock_loop yield fuel k c sem num_locks timeout time st) (λ _, True).
Proof.
  intros Hy Hnum. revert k time st. induction fuel as [|fuel IH]; intros k time st; [done|].
  eapply keeps_bind; [by eapply keeps_acquire|].
  intros [added st'] _. destruct (added =? num_locks); [by apply keeps_ret|].
  eapply (keeps_bind _ _ (λ _, True)); [apply keeps_modify; [done|apply Hy]|]. intros _ _.
  case_match; [by apply keeps_ret|]. apply IH.
Qed.
Lemma keeps_sem_lock yield fuel num_locks timeout st :
  yield_wf yield → 1 <= num_locks →
  db_keeps True (mrapi_impl_sem_lock yield fuel c sem num_locks timeout st) (λ _, True).
Proof.
  intros Hy Hnum. unfold mrapi_impl_sem_lock. destruct Hsem as [-> _]. cbn [negb].
  by apply keeps_sem_lock_loop.
Qed.
End blocking.

(** ** Mutexes and reader-writer locks *)

Section mutex_rwl.
Context (c : caller) (Hc : caller_wf c).

Lemma keeps_gap gap : gap_wf gap → db_keeps True (modify gap) (λ _, True).
Proof. intros Hg. by apply keeps_modify. Qed.
Lemma keeps_slot0 F x : sem_wf x → db_keeps F (from_option_oob (s_locks x !! 0%nat)) (λ _, True).
Proof.
  intros Hx. apply keeps_oob; [|done]. apply lookup_lt_is_Some.
  rewrite wf_length by done. pose proof max_shared_locks. lia.
Qed.
Lemma keeps_set_lock_key F s key :
  (s < MRAPI_MAX_SEMS)%nat → db_keeps F (set_lock_key s key) (λ _, True).
Proof. intros Hs. apply keeps_modify_sem; [done|]. intros x Hx. by apply (sem_wf_with_key key). Qed.

Lemma keeps_mutex_lock gap yield fuel mutex s lock_key timeout st :
  gap_wf gap → yield_wf yield → sem_hndl mutex s →
  db_keeps True (mrapi_impl_mutex_lock gap yield fuel c mutex lock_key timeout st) (λ _, True).
Proof.
  intros Hg Hy Hm. unfold mrapi_impl_mutex_lock.
  eapply keeps_bind; [by apply keeps_assert_whoami|]. intros _ (-> & Hd & Hn).
  pose proof Hm as [-> Hs].
  eapply (keeps_bind _ _ (λ _, True)); [by apply keeps_assert|]. intros _ _.
  eapply keeps_bind; [by apply keeps_get_sem|]. intros x Hx.
  eapply keeps_bind; [by apply keeps_slot0|]. intros lk _.
  case_match; [case_match|].
  - eapply keeps_bind; [by apply keeps_set_lock_key|]. intros _ _.
    eapply keeps_bind; [by apply keeps_gap|]. intros _ _. by apply keeps_ret.
  - by apply keeps_ret.
  - eapply keeps_bind; [by apply keeps_gap|]. intros _ _.
    eapply keeps_bind; [by eapply keeps_sem_lock|]. intros [rc st'] _. by apply keeps_ret.
Qed.

Lemma keeps_mutex_unlock gap mutex s lock_key st :
  gap_wf gap → sem_hndl mutex s →
  db_keeps True (mrapi_impl_mutex_unlock gap c mutex lock_key st) (λ _, True).
Proof.
  intros Hg Hm. unfold mrapi_impl_mutex_unlock.
  eapply keeps_bind; [by apply keeps_assert_whoami|]. intros _ (-> & Hd & Hn).
  pose proof Hm as [-> Hs].
  eapply (keeps_bind _ _ (λ _, True)); [by apply keeps_assert|]. intros _ _.
  eapply keeps_bind; [by apply keeps_get_sem|]. intros x Hx.
  eapply keeps_bind; [by apply keeps_slot0|]. intros lk _.
  eapply (keeps_bind _ _ (λ _, True)).
  { case_match; [by apply keeps_set_lock_key|by apply keeps_ret]. }
  intros _ _. eapply keeps_bind; [by apply keeps_gap|]. intros _ _.
  eapply (keeps_bind _ _ (λ _, True)); [|intros [rc st'] _; by apply keeps_ret].
  case_match; [by eapply keeps_release; [..|lia]|by apply keeps_ret].
Qed.

(** The writer's request is the limit of a valid entry. *)
Lemma runs_rwl_lock gap yield fuel rwl mode timeout st db :
  gap_wf gap → yield_wf yield → live_lock rwl db → db_wf db →
  runs True db_wf (mrapi_impl_rwl_lock gap yield fuel c rwl mode timeout st) (λ _, True) db.
Proof.
  intros Hg Hy Hlive Hdb. destruct (live_lock_hndl _ _ Hdb Hlive) as [s Hs].
  destruct Hlive as (s' & x & Hs' & Hx & Hv). unfold mrapi_impl_rwl_lock.
  pose proof Hs as [He Hlt]. rewrite He. cbn [negb].
  assert (s' = s) as -> by congruence.
  destruct (sem_lookup_wf db Hdb s x Hx) as [_ Hw].
  destruct mode; [by apply (keeps_sem_lock c Hc rwl s)|].
  eapply runs_step; [by apply get_sem_done|]. cbv beta.
  eapply runs_bind; [by apply keeps_gap|]. intros _ _.
  eapply keeps_sem_lock; [done..|]. by apply wf_pos.
Qed.
Lemma runs_rwl_unlock gap rwl mode st db :
  gap_wf gap → live_lock rwl db → db_wf db →
  runs True db_wf (mrapi_impl_rwl_unlock gap c rwl mode st) (λ _, True) db.
Proof.
  intros Hg Hlive Hdb. destruct (live_lock_hndl _ _ Hdb Hlive) as [s Hs].
  destruct Hlive as (s' & x & Hs' & Hx & Hv). unfold mrapi_impl_rwl_unlock.
  pose proof Hs as [He Hlt]. rewrite He. cbn [negb].
  assert (s' = s) as -> by congruence.
  destruct (sem_lookup_wf db Hdb s x Hx) as [_ Hw].
  destruct mode; [by apply (keeps_release True c Hc rwl s)|].
  eapply runs_step; [by apply get_sem_done|]. cbv beta.
  eapply runs_bind; [by apply keeps_gap|]. intros _ _.
  pose proof (limit_small x Hw). pose proof (wf_pos x Hw Hv).
  by eapply keeps_release; [done..|lia].
Qed.
End mutex_rwl.

(** ** A valid entry of [mrapi_db->sems] implements the interface
    [CountingLock], with [mrapi_impl_acquire_lock_locked] as its acquire and
    [mrapi_impl_release_lock] as its release. *)

Section instance.
Context (s : nat).

Definition entry_wf (db : mrapi_database) : Prop :=
  db_wf db ∧ ∃ x, sems db !! s = Some x ∧ s_valid x = true.
Definition entry_limit (db : mrapi_database) : Z :=
  from_option s_shared_lock_limit 0 (sems db !! s).
Definition entry_holders (db : mrapi_database) : gmultiset holder :=
  from_option holders ∅ (sems db !! s).
Definition entry_id (c : caller) : holder := me (c_nindex c) (c_dindex c).
Definition entry_handle : Z := mrapi_impl_encode_hndl (Z.of_nat s).
Definition entry_acquire (c : caller) (k : Z) : M mrapi_database bool :=
  let* (added, _) := mrapi_impl_acquire_lock_locked c entry_handle k MRAPI_SUCCESS in
  ret (added =? k).
Definition entry_release (c : caller) (k : Z) : M mrapi_database bool :=
  let* (ok, _) := mrapi_impl_release_lock c entry_handle k MRAPI_SUCCESS in ret ok.

Lemma entry_at db :
  entry_wf db →
  ∃ x, sems db !! s = Some x ∧ s_valid x = true ∧ sem_wf x ∧
    mrapi_impl_decode_hndl entry_handle = (s, true) ∧
    entry_limit db = s_shared_lock_limit x ∧ entry_holders db = holders x.
Proof.
  intros [Hdb (x & Hx & Hv)]. destruct (sem_lookup_wf db Hdb s x Hx) as [Hs Hw].
  exists x. split_and!; try done; [by apply decode_sem| |];
    unfold entry_limit, entry_holders; by rewrite Hx.
Qed.
Lemma entry_upd db y :
  entry_wf db → sem_wf y → s_valid y = true →
  entry_wf (upd_sem s (λ _, y) db) ∧
  entry_limit (upd_sem s (λ _, y) db) = s_shared_lock_limit y ∧
  entry_holders (upd_sem s (λ _, y) db) = holders y.
Proof.
  intros [Hdb (x & Hx & Hv)] Hy Hvy.
  pose proof (lookup_upd_sem_eq s (λ _, y) db x Hx) as Hl.
  unfold entry_limit, entry_holders. rewrite Hl. split; [|done].
  split; [by apply db_wf_upd_sem|]. by exists y.
Qed.

#[global] Program Instance entry_lock : CountingLock mrapi_database caller holder := {
  cl_wf := entry_wf;
  cl_caller := caller_wf;
  cl_id := entry_id;
  cl_limit := entry_limit;
  cl_holders := entry_holders;
  cl_acquire := entry_acquire;
  cl_release := entry_release }.
Next Obligation.
  intros db Hdb. destruct (entry_at db Hdb) as (x & Hx & Hv & Hw & Hd & -> & ->).
  rewrite size_holders_num by done. by apply num_locks_range.
Qed.
Next Obligation.
  intros c k db Hdb Hc Hk. destruct (entry_at db Hdb) as (x & Hx & Hv & Hw & Hd & -> & ->).
  rewrite size_holders_num by done. pose proof (num_locks_range x Hw).
  unfold entry_acquire. apply wp_bind. unfold wp at 1.
  rewrite (acquire_eq c entry_handle s x db) by done.
  destruct (Z.leb_spec (s_num_locks x + k) (s_shared_lock_limit x)).
  - apply wp_ret. rewrite bool_decide_eq_true_2, Z.eqb_refl by done.
    destruct (caller_small c Hc).
    destruct (entry_upd db (acquired (c_nindex c) (c_dindex c) k x)) as (? & -> & ->);
      [done|apply sem_wf_acquired; [done|lia]|done|].
    split_and!; [done|done|done|]. apply holders_acquired; [done..|lia].
  - apply wp_ret. rewrite bool_decide_eq_false_2 by lia.
    destruct (Z.eqb_spec 0 k); [lia|]. split_and!; try done.
    unfold entry_limit. by rewrite Hx.
Qed.
Next Obligation.
  intros c k db Hdb Hc Hk. destruct (entry_at db Hdb) as (x & Hx & Hv & Hw & Hd & -> & ->).
  unfold entry_id. rewrite multiplicity_my_count by done.
  unfold entry_release. apply wp_bind. unfold wp at 1.
  rewrite (release_eq c entry_handle s x db), Hv by done. cbn [negb].
  destruct (Z.leb_spec k (my_count (c_nindex c) (c_dindex c) x)).
  - apply wp_ret. rewrite bool_decide_eq_true_2 by done.
    destruct (entry_upd db (released (c_nindex c) (c_dindex c) k x)) as (? & -> & ->);
      [done|apply sem_wf_released; [done|lia]|done|].
    split_and!; [done|done|done|]. apply holders_released; [done|lia].
  - apply wp_ret. rewrite bool_decide_eq_false_2 by lia. split_and!; try done.
    unfold entry_limit. by rewrite Hx.
Qed.
End instance.

(** Two holders of one entry, from the interface: at most [limit] units are
    out. *)
Lemma entry_two_holders x n d n' d' :
  sem_wf x → me n d ≠ me n' d' →
  my_count n d x + my_count n' d' x <= s_shared_lock_limit x.
Proof.
  intros Hw Hne. pose proof (num_locks_range x Hw).
  rewrite <- !multiplicity_my_count by done.
  rewrite <- (size_holders_num x Hw) in *. set (X := holders x) in *.
  assert (multiplicity (me n d) X *: {[+ me n d +]}
          ⊎ multiplicity (me n' d') X *: {[+ me n' d' +]} ⊆ X) as Hsub.
  { intros y. rewrite multiplicity_disj_union, !multiplicity_scalar_mul,
      !multiplicity_singleton. repeat case_decide; subst; lia || congruence. }
  apply gmultiset_subseteq_size in Hsub.
  rewrite gmultiset_size_disj_union, !gmultiset_size_scalar_mul,
    !gmultiset_size_singleton in Hsub. lia.
Qed.

(** ** The blocking lock attempt by attempt: [interfered yield db k] is the
    database that the [k]-th attempt of [mrapi_impl_sem_lock] finds when the
    earlier ones failed. *)

Fixpoint interfered (yield : nat → mrapi_database → mrapi_database)
    (db : mrapi_database) (k : nat) : mrapi_database :=
  match k with
  | O => db
  | S k => yield k (interfered yield db k)
  end.

(** [num] units of entry [s] are free. *)
Definition fits (s : nat) (num : Z) (db : mrapi_database) : bool :=
  match sems db !! s with
  | Some x => s_num_locks x + num <=? s_shared_lock_limit x
  | None => false
  end.
Definition entry_type (s : nat) (db : mrapi_database) : lock_type :=
  from_option s_type RWL (sems db !! s).
Definition take_units (c : caller) (s : nat) (num : Z) (db : mrapi_database) :
    mrapi_database :=
  upd_sem s (acquired (c_nindex c) (c_dindex c) num) db.

(** How many attempts a finite timeout allows. *)
Definition max_attempts (timeout : Z) : nat := Z.to_nat (Z.max timeout 1).

Lemma interfered_wf yield db k :
  yield_wf yield → db_wf db → db_wf (interfered yield db k).
Proof. intros Hy Hdb. induction k as [|k IH]; [done|]. by apply Hy. Qed.

Section blocking.
Context (yield : nat → mrapi_database → mrapi_database) (Hy : yield_wf yield).
Context (c : caller) (Hc : caller_wf c) (sem : Z) (s : nat) (Hsem : sem_hndl sem s).
Context (num : Z) (Hnum : 1 <= num) (timeout : Z) (db0 : mrapi_database) (Hdb : db_wf db0).
Local Abbreviation at_ k := (interfered yield db0 k).

Lemma attempt_eq k st :
  mrapi_impl_acquire_lock_locked c sem num st (at_ k)
  = Done (if fits s num (at_ k) then ((num, MRAPI_SUCCESS), take_units c s num (at_ k))
          else ((0, locked_status (entry_type s (at_ k))), at_ k)).
Proof.
  pose proof (interfered_wf yield db0 k Hy Hdb) as Hk. destruct Hsem as [Hd Hs].
  destruct (sem_at _ Hk s Hs) as (x & Hx & Hw).
  rewrite (acquire_eq c sem s x _ Hc Hd Hx Hw num st Hnum).
  unfold fits, entry_type, take_units. rewrite Hx. case_match; [|done].
  by rewrite (upd_sem_at s (acquired _ _ _) _ _ x Hx eq_refl).
Qed.

Lemma attempt_fits k st :
  fits s num (at_ k) = true →
  mrapi_impl_acquire_lock_locked c sem num st (at_ k)
  = Done ((num, MRAPI_SUCCESS), take_units c s num (at_ k)).
Proof. intros Hf. by rewrite attempt_eq, Hf. Qed.
Lemma attempt_fails k st :
  fits s num (at_ k) = false →
  mrapi_impl_acquire_lock_locked c sem num st (at_ k)
  = Done ((0, locked_status (entry_type s (at_ k))), at_ k).
Proof. intros Hf. by rewrite attempt_eq, Hf. Qed.

Lemma loop_take fuel k time st :
  fits s num (at_ k) = true →
  sem_lock_loop yield (S fuel) k c sem num timeout time st (at_ k)
  = Done ((true, MRAPI_SUCCESS), take_units c s num (at_ k)).
Proof.
  intros Hf. unfold sem_lock_loop; fold sem_lock_loop.
  rewrite (bind_done _ _ _ _ _ (attempt_fits k st Hf)). cbn beta iota.
  by rewrite Z.eqb_refl.
Qed.
Lemma loop_wait fuel k time st :
  fits s num (at_ k) = false →
  sem_lock_loop yield (S fuel) k c sem num timeout time st (at_ k)
  = let st := locked_status (entry_type s (at_ k)) in
    if negb (timeout =? MRAPI_TIMEOUT_INFINITE) && (timeout <=? u32 (time + 1))
    then Done ((false, if timeout =? 1 then st else MRAPI_TIMEOUT), at_ (S k))
    else sem_lock_loop yield fuel (S k) c sem num timeout (u32 (time + 1)) st (at_ (S k)).
Proof.
  intros Hf. cbv zeta.
  change (sem_lock_loop yield (S fuel) k c sem num timeout time st (at_ k))
    with ((let* (num_added, status) := mrapi_impl_acquire_lock_locked c sem num st in
           if num_added =? num then ret (true, MRAPI_SUCCESS)
           else
             modify (yield k);;
             if negb (timeout =? MRAPI_TIMEOUT_INFINITE) && (timeout <=? u32 (time + 1))
             then ret (false, if timeout =? 1 then status else MRAPI_TIMEOUT)
             else sem_lock_loop yield fuel (S k) c sem num timeout (u32 (time + 1)) status)
            (at_ k)).
  rewrite (bind_done _ _ _ _ _ (attempt_fails k st Hf)). cbn beta iota.
  destruct (Z.eqb_spec 0 num); [lia|].
  erewrite bind_done by reflexivity. by case_match.
Qed.

(** Attempt [j + m] is the first that can succeed. *)
Lemma loop_acquires m fuel j time st :
  (m < fuel)%nat →
  (timeout = MRAPI_TIMEOUT_INFINITE ∨
   time = Z.of_nat j ∧ Z.of_nat (j + m) < Z.max timeout 1 ∧ timeout < 2 ^ 32) →
  (∀ i, (j <= i < j + m)%nat → fits s num (at_ i) = false) →
  fits s num (at_ (j + m)) = true →
  sem_lock_loop yield fuel j c sem num timeout time st (at_ j)
  = Done ((true, MRAPI_SUCCESS), take_units c s num (at_ (j + m))).
Proof.
  revert fuel j time st. induction m as [|m IH]; intros [|fuel] j time st Hfuel Htime Hno Hyes;
    try lia.
  - rewrite Nat.add_0_r in *. by apply loop_take.
  - rewrite loop_wait by (apply Hno; lia). cbv zeta.
    assert (negb (timeout =? MRAPI_TIMEOUT_INFINITE) && (timeout <=? u32 (time + 1))
            = false) as ->.
    { destruct Htime as [->|(-> & Hlt & Hsmall)]; [by rewrite Z.eqb_refl|].
      rewrite u32_small by lia. destruct (Z.leb_spec timeout (Z.of_nat j + 1)); [lia|].
      by rewrite andb_false_r. }
    rewrite <- Nat.add_succ_comm in Hyes |- *. apply IH; [lia| | |done].
    + destruct Htime as [?|(-> & Hlt & Hsmall)]; [by left|right].
      rewrite u32_small by lia. lia.
    + intros i Hi. apply Hno. lia.
Qed.

(** None of the attempts that the timeout allows can succeed. *)
Lemma loop_times_out m fuel j st :
  0 <= timeout < MRAPI_TIMEOUT_INFINITE → (0 < m)%nat → (m <= fuel)%nat →
  (j + m)%nat = max_attempts timeout →
  (∀ i, (j <= i < j + m)%nat → fits s num (at_ i) = false) →
  sem_lock_loop yield fuel j c sem num timeout (Z.of_nat j) st (at_ j)
  = Done ((false, if timeout =? 1 then locked_status (entry_type s (at_ j))
                  else MRAPI_TIMEOUT), at_ (j + m)).
Proof.
  unfold MRAPI_TIMEOUT_INFINITE, max_attempts.
  revert fuel j st. induction m as [|m IH]; intros [|fuel] j st Ht Hm Hfuel Hj Hno; try lia.
  rewrite loop_wait by (apply Hno; lia). cbv zeta. unfold MRAPI_TIMEOUT_INFINITE.
  destruct (Z.eqb_spec timeout 0xffffffff); [lia|]. cbn [negb andb].
  rewrite u32_small by lia. destruct (Z.leb_spec timeout (Z.of_nat j + 1)).
  - by replace (j + S m)%nat with (S j) by lia.
  - replace (Z.of_nat j + 1) with (Z.of_nat (S j)) by lia.
    rewrite <- Nat.add_succ_comm in *. rewrite (IH fuel (S j)); [|lia..|].
    + by destruct (Z.eqb_spec timeout 1); [lia|].
    + intros i Hi. apply Hno. lia.
Qed.
End blocking.

(** The first index where a test holds, if any below the bound. *)
Lemma first_true (p : nat → bool) k :
  (∃ m, (m < k)%nat ∧ p m = true ∧ ∀ i, (i < m)%nat → p i = false) ∨
  ∀ i, (i < k)%nat → p i = false.
Proof.
  induction k as [|k [IH|IH]]; [right; lia|left|].
  - destruct IH as (m & Hm & Hp & Hb). exists m. split; [lia|done].
  - destruct (p k) eqn:Hp; [left; exists k; auto|right].
    intros i Hi. destruct (decide (i = k)) as [->|]; [done|]. apply IH. lia.
Qed.
