(* ===== verification/NodeSafety.v ===== *)
(** Initialization and finalization keep the invariant of the database. *)

From S2P Require Import Prelude MrapiTypes MrapiHandles MrapiLocks MrapiNodes LockSlots LockSpec LockEntry DbInvariant.

(** A thread that has not initialized, or whose identity is in range. *)
Definition caller_ok (c : caller) : Prop :=
  mrapi_impl_initialized c = true → caller_wf c.

Lemma caller_wf_initialized c : caller_wf c → mrapi_impl_initialized c = true.
Proof.
  intros (Ha & Hp & _). unfold mrapi_impl_initialized, mrapi_impl_whoami. rewrite Ha.
  by destruct (Z.eqb_spec (c_pid c) (-1)).
Qed.
Lemma whoami_wf c x :
  caller_ok c → mrapi_impl_whoami c = Some x →
  x = (c_node_id c, c_nindex c, c_domain_id c, c_dindex c) ∧ caller_wf c.
Proof.
  intros Hok Hw. assert (caller_wf c) as Hc.
  { apply Hok. unfold mrapi_impl_initialized. by rewrite Hw. }
  split; [|done]. destruct Hc as (Ha & Hp & _). unfold mrapi_impl_whoami in Hw.
  rewrite Ha in Hw. destruct (Z.eqb_spec (c_pid c) (-1)); [done|]. cbn in Hw. by simplify_eq.
Qed.

(** ** Finalize *)

Lemma db_wf_shmems db f i : db_wf db → db_wf (db <| shmems ::= alter f i |>).
Proof. intros Hdb. split; cbn; rewrite ?length_alter; apply Hdb. Qed.
#[export] Hint Resolve db_wf_shmems : db.

(** The body of the loop over the locks. *)
Definition release_refs (d n sem : nat) : M mrapi_database unit :=
  let* x := get_sem sem in
  if s_valid x then
    let* nd := get_node d n in
    let* user := from_option_oob (n_sems nd !! sem) in
    (if (user : bool) then
       log_sem_user d n sem false;;
       modify_sem sem (λ x, x <| s_refs ::= λ r, u8 (r - 1) |>)
     else ret tt);;
    let* x := get_sem sem in
    if s_refs x =? 0 then modify_sem sem (λ x, x <| s_valid := false |>)
    else ret tt
  else ret tt.

Section finalize.
Context (F : Prop).

Lemma keeps_get_shmem s :
  (s < MRAPI_MAX_SHMEMS)%nat → db_keeps F (arr_get shmems s) (λ _, True).
Proof.
  intros Hs. apply keeps_arr_get; [|done]. intros db Hdb.
  apply lookup_lt_is_Some. by rewrite wf_shmems_length.
Qed.
Lemma keeps_n_shmems s x :
  node_wf x → (s < MRAPI_MAX_SHMEMS)%nat →
  db_keeps F (from_option_oob (n_shmems x !! s)) (λ _, True).
Proof.
  intros Hx Hs. apply keeps_oob; [|done]. apply lookup_lt_is_Some. by rewrite wf_n_shmems.
Qed.

(** One iteration of the loop over the locks. *)
Lemma keeps_release_refs d n sem :
  (d < MRAPI_MAX_DOMAINS)%nat → (n < MRAPI_MAX_NODES)%nat → (sem < MRAPI_MAX_SEMS)%nat →
  db_keeps F (release_refs d n sem) (λ _, True).
Proof.
  intros Hd Hn Hs. eapply keeps_bind; [by apply keeps_get_sem|]. intros x Hx.
  case_match; [|by apply keeps_ret].
  eapply keeps_bind; [by apply keeps_get_node|]. intros nd Hnd.
  eapply keeps_bind; [by apply keeps_n_sems|]. intros user _.
  eapply (keeps_bind _ _ (λ _, True)).
  { destruct user; [|by apply keeps_ret].
    eapply keeps_bind; [by apply keeps_log_sem_user|]. intros _ _.
    apply keeps_modify_sem; auto with db. }
  intros _ _. eapply keeps_bind; [by apply keeps_get_sem|]. intros y Hy.
  case_match; [|by apply keeps_ret]. apply keeps_modify_sem; auto with db.
Qed.

Lemma keeps_finalize_node o d n :
  (d < MRAPI_MAX_DOMAINS)%nat → (n < MRAPI_MAX_NODES)%nat →
  db_keeps F (mrapi_impl_finalize_node_locked o d n) (λ _, True).
Proof.
  intros Hd Hn. unfold mrapi_impl_finalize_node_locked.
  eapply keeps_bind; [apply keeps_modify_node; eauto with db|]. intros _ _.
  eapply keeps_bind; [apply (keeps_for F db_wf _ _ _ (λ _, True)); [done|]|intros _ _].
  { intros j Hj. eapply keeps_bind; [apply keeps_get_shmem; lia|]. intros x _.
    case_match; [|by apply keeps_ret].
    eapply keeps_bind; [by apply keeps_get_node|]. intros nd Hnd.
    eapply keeps_bind; [apply keeps_n_shmems; [done|lia]|]. intros [] _.
    - apply keeps_modify; eauto with db.
    - by apply keeps_ret. }
  eapply keeps_bind; [apply (keeps_for F db_wf _ _ _ (λ _, True)); [done|]|].
  { intros j Hj. apply keeps_release_refs; [done|done|lia]. }
  intros _ _. by apply keeps_ret.
Qed.

Lemma keeps_finalize o c :
  caller_ok c → db_keeps F (mrapi_impl_finalize o c) (λ _, True).
Proof.
  intros Hok. unfold mrapi_impl_finalize, mrapi_impl_free_resources.
  eapply (keeps_bind _ _ (λ _, True)); [|intros [? ?] _; by apply keeps_ret].
  case_match; [by apply keeps_ret|].
  eapply (keeps_bind _ _ (λ _, True)).
  { destruct (mrapi_impl_whoami c) as [[[[? ?] ?] ?]|] eqn:Hw; [|by apply keeps_ret].
    apply whoami_wf in Hw as [? (_ & _ & ? & ?)]; [|done]. simplify_eq.
    eapply keeps_bind; [by apply keeps_finalize_node|]. intros _ _. by apply keeps_ret. }
  intros _ _. eapply (keeps_bind _ _ (λ _, True)); [by apply keeps_ret|]. intros _ _.
  eapply (keeps_bind _ _ (λ _, True)); [by apply keeps_get|]. intros db _.
  eapply (keeps_bind _ _ (λ _, True)); [by apply keeps_assert|]. intros _ _.
  eapply (keeps_bind _ _ (λ _, True)); [|intros _ _; by apply keeps_ret].
  case_match; [|by apply keeps_ret].
  apply keeps_modify; [done|]. intros _ _. apply db_wf_zero.
Qed.
End finalize.

(** ** Initialize *)

(** The domain entry that [find_node_slot] picks: the first with the id, or,
    when there is none, the first unused one. *)
Definition domain_choice (domain_id : Z) (d : nat) (dm : mrapi_domain_data)
    (db : mrapi_database) : Prop :=
  (d_domain_id dm = domain_id ∧
   ∀ j dm', (j < d)%nat → domains db !! j = Some dm' → d_domain_id dm' ≠ domain_id) ∨
  (d_valid dm = false ∧
   (∀ j dm', domains db !! j = Some dm' → d_domain_id dm' ≠ domain_id) ∧
   ∀ j dm', (j < d)%nat → domains db !! j = Some dm' → d_valid dm' = true).

Definition slot_found (domain_id node_id : Z) (d n : nat) (db : mrapi_database) : Prop :=
  (d < MRAPI_MAX_DOMAINS)%nat ∧ (n < MRAPI_MAX_NODES)%nat ∧
  ∃ dm x, domains db !! d = Some dm ∧ d_nodes dm !! n = Some x ∧ n_valid x = false ∧
    domain_choice domain_id d dm db ∧
    ∀ j y, d_nodes dm !! j = Some y → n_valid y = true → n_node_num y ≠ node_id.

Lemma find_domain_spec domain_id db :
  db_wf db →
  ∃ d1 d, c_scan (λ x, d_domain_id x =? domain_id) (domains db) MRAPI_MAX_DOMAINS 0
    = Done d1 ∧
    (if (d1 =? MRAPI_MAX_DOMAINS)%nat
     then c_scan (λ x, negb (d_valid x)) (domains db) MRAPI_MAX_DOMAINS 0 else Done d1)
    = Done d ∧
    ∀ dm, domains db !! d = Some dm → domain_choice domain_id d dm db.
Proof.
  intros Hdb. pose proof (wf_domains_length db Hdb) as Hdl.
  destruct (c_scan_all (λ x, d_domain_id x =? domain_id) _ _ Hdl)
    as [(j & x & Hj & Hlt & Hx & Hp & Hb)|[Hj Hno]].
  - exists j, j. split; [done|]. destruct (Nat.eqb_spec j MRAPI_MAX_DOMAINS); [lia|].
    split; [done|]. intros dm Hdm. left. simplify_eq. split; [by apply Z.eqb_eq|].
    intros m dm' Hm Hdm'. apply Z.eqb_neq. eauto.
  - exists MRAPI_MAX_DOMAINS. rewrite Nat.eqb_refl.
    destruct (c_scan_all (λ x, negb (d_valid x)) _ _ Hdl)
      as [(k & x & Hk & Hlt & Hx & Hp & Hb)|[Hk Hv]]; eexists; (split; [done|]);
      (split; [done|]); intros dm Hdm.
    + right. simplify_eq. split; [by apply negb_true_iff|]. split.
      * intros m dm' Hm. apply Z.eqb_neq. eauto.
      * intros m dm' Hm Hdm'. apply negb_false_iff. eauto.
    + apply lookup_lt_Some in Hdm. lia.
Qed.

Lemma find_node_slot_spec domain_id node_id db :
  db_wf db →
  ∃ slot st, find_node_slot domain_id node_id db = Done (slot, st) ∧
    match slot with
    | None => st = None ∨ st = Some MRAPI_ERR_NODE_INITFAILED
    | Some (d, n) => st = None ∧ slot_found domain_id node_id d n db
    end.
Proof.
  intros Hdb. unfold find_node_slot.
  destruct (find_domain_spec domain_id db Hdb) as (d1 & d & -> & -> & Hdom).
  destruct (domains db !! d) as [dm|] eqn:Hdm; [|exists None, None; auto].
  pose proof (Forall_lookup_1 _ _ _ _ (wf_domains db Hdb) Hdm) as Hw.
  pose proof (wf_d_length dm Hw) as Hnl.
  destruct (c_scan_all (λ x, n_valid x && (n_node_num x =? node_id)) _ _ Hnl)
    as [(j & x & Hj & Hlt & _)|[Hj Hno]]; rewrite Hj.
  { destruct (Nat.eqb_spec j MRAPI_MAX_NODES); [lia|].
    exists None, (Some MRAPI_ERR_NODE_INITFAILED); auto. }
  rewrite Nat.eqb_refl. cbn [negb].
  destruct (c_scan_all (λ x, negb (n_valid x)) _ _ Hnl)
    as [(k & x & Hk & Hlt & Hx & Hp & _)|[Hk _]]; rewrite Hk.
  2:{ rewrite Nat.eqb_refl. exists None, None; auto. }
  destruct (Nat.eqb_spec k MRAPI_MAX_NODES); [lia|].
  eexists _, _. split; [done|]. cbn beta iota. split; [done|].
  split; [|split; [done|]].
  { pose proof (wf_domains_length db Hdb). apply lookup_lt_Some in Hdm. lia. }
  exists dm, x. split_and!; [done|done|by apply negb_true_iff|by apply Hdom|].
  intros m y Hy Hv. specialize (Hno m y Hy). rewrite Hv in Hno. by apply Z.eqb_neq.
Qed.

(** The database and the caller after node [n] of domain [d] was claimed. *)
Definition claimed (o : os) (domain_id node_id : Z) (d n : nat) (db : mrapi_database) :
    mrapi_database :=
  upd_node d n (λ x, x <| n_valid := true |> <| n_node_num := node_id |>
                       <| n_pid := os_pid o |> <| n_tid := os_tid o |>)
    (db <| domains ::= alter (λ x, x <| d_domain_id := domain_id |>
             <| d_valid := true |> <| d_num_nodes ::= λ k, u8 (k + 1) |>) d |>
        <| rollover_index := 0 |>).
Definition attach (o : os) (c : caller) : caller :=
  c <| c_attached := c_attached c || os_db_attach_ok o |>.
Definition identified (o : os) (c : caller) (domain_id node_id : Z) (d n : nat) : caller :=
  attach o c <| c_pid := os_pid o |> <| c_tid := os_tid o |>
    <| c_nindex := n |> <| c_dindex := d |>
    <| c_domain_id := domain_id |> <| c_node_id := node_id |>.

Lemma upd_node_twice d n f g db :
  upd_node d n f (upd_node d n g db) = upd_node d n (λ x, f (g x)) db.
Proof.
  unfold upd_node, set_field. cbv beta. cbn [domains]. rewrite list_alter_alter_eq.
  f_equal. apply list_alter_ext; [|done]. intros dm _. unfold compose.
  cbn [d_nodes]. by rewrite list_alter_alter_eq.
Qed.
Lemma get_node_done d n db dm x :
  domains db !! d = Some dm → d_nodes dm !! n = Some x → get_node d n db = Done (x, db).
Proof. intros Hd Hn. unfold get_node, arr_get, bind, get. rewrite Hd. cbn. by rewrite Hn. Qed.
Lemma modify_node_done d n f db dm x :
  domains db !! d = Some dm → d_nodes dm !! n = Some x →
  modify_node d n f db = Done (tt, upd_node d n f db).
Proof.
  intros Hd Hn. unfold modify_node. by rewrite (bind_done _ _ _ _ _ (get_node_done _ _ _ _ _ Hd Hn)).
Qed.
Lemma lookup_upd_node d n f db dm x :
  domains db !! d = Some dm → d_nodes dm !! n = Some x →
  ∃ dm', domains (upd_node d n f db) !! d = Some dm' ∧ d_nodes dm' !! n = Some (f x).
Proof.
  intros Hd Hn. eexists. cbn. rewrite list_lookup_alter_eq, Hd. split; [done|].
  cbn. by rewrite list_lookup_alter_eq, Hn.
Qed.

Lemma initialize_spec o c domain_id node_id st db :
  db_wf db →
  ∃ ok c' st' db', mrapi_impl_initialize o c domain_id node_id st db = Done ((ok, c', st'), db') ∧
    if (ok : bool) then
      c_attached c || os_db_attach_ok o = true ∧ st' = st ∧
      ∃ d n, slot_found domain_id node_id d n db ∧
        c' = identified o c domain_id node_id d n ∧
        db' = claimed o domain_id node_id d n db
    else db' = db ∧ c' = attach o c ∧ (st' = st ∨ st' = MRAPI_ERR_NODE_INITFAILED).
Proof.
  intros Hdb. unfold mrapi_impl_initialize. fold (attach o c).
  destruct (c_attached (attach o c) && os_db_sem_ok o) eqn:Hatt; cbn [negb].
  2:{ exists false, (attach o c), st, db; auto. }
  apply andb_true_iff in Hatt as [Hatt _].
  erewrite bind_done by reflexivity.
  destruct (find_node_slot_spec domain_id node_id db Hdb) as (slot & st' & Hf & Hslot).
  unfold lift, bind at 1. rewrite Hf.
  destruct slot as [[d n]|].
  2:{ eexists _, _, _, _. split; [done|]. cbn. split_and!; [done..|].
      by destruct Hslot as [-> | ->]; [left|right]. }
  destruct Hslot as (-> & Hfound). pose proof Hfound as (Hd & Hn & dm & x & Hdm & Hx & Hv & _).
  rewrite (bind_done _ _ _ _ _ (get_node_done d n db dm x Hdm Hx)), Hv.
  erewrite bind_done by reflexivity. erewrite bind_done by reflexivity.
  set (f := λ x : mrapi_domain_data, _). set (db1 := db <| domains ::= alter f d |>).
  assert (domains db1 !! d = Some (f dm)) as Hdm1.
  { subst db1. cbn. by rewrite list_lookup_alter_eq, Hdm. }
  erewrite bind_done; [|by apply (modify_node_done d n _ db1 (f dm) x)].
  erewrite bind_done by reflexivity.
  set (g := λ x : mrapi_node_data, x <| n_valid := true |> <| n_node_num := node_id |>).
  destruct (lookup_upd_node d n g db1 (f dm) x Hdm1 Hx) as (dm' & Hdm' & Hx').
  erewrite bind_done; [|by eapply (modify_node_done d n)].
  eexists _, _, _, _. split; [done|]. cbn beta iota. split; [done|]. split; [done|].
  exists d, n. split; [done|]. split; [done|].
  change (upd_node d n g db1 <| rollover_index := 0 |>)
    with (upd_node d n g (db1 <| rollover_index := 0 |>)).
  by rewrite upd_node_twice.
Qed.


(** *** Claiming a slot keeps identities distinct *)

Definition claim_node (o : os) (node_id : Z) (x : mrapi_node_data) : mrapi_node_data :=
  x <| n_valid := true |> <| n_node_num := node_id |>
    <| n_pid := os_pid o |> <| n_tid := os_tid o |>.
Definition claim_domain (o : os) (domain_id node_id : Z) (n : nat) (x : mrapi_domain_data) :
    mrapi_domain_data :=
  x <| d_domain_id := domain_id |> <| d_valid := true |>
    <| d_num_nodes ::= λ k, u8 (k + 1) |> <| d_nodes ::= alter (claim_node o node_id) n |>.

Lemma domains_claimed o domain_id node_id d n db :
  domains (claimed o domain_id node_id d n db)
  = alter (claim_domain o domain_id node_id n) d (domains db).
Proof. unfold claimed, upd_node. cbn. by rewrite list_alter_alter_eq. Qed.

Section claim.
Context (o : os) (domain_id node_id : Z) (d n : nat) (db : mrapi_database).
Context (Hdb : db_wf db) (dm0 : mrapi_domain_data) (x0 : mrapi_node_data).
Context (Hdm0 : domains db !! d = Some dm0) (Hx0 : d_nodes dm0 !! n = Some x0).
Context (Hchoice : domain_choice domain_id d dm0 db).
Context (Hnew : ∀ j y, d_nodes dm0 !! j = Some y → n_valid y = true → n_node_num y ≠ node_id).
Local Abbreviation ds' := (alter (claim_domain o domain_id node_id n) d (domains db)).
Local Abbreviation Hids := (wf_idents db Hdb).

Lemma claim_lookup i dm :
  ds' !! i = Some dm →
  i = d ∧ dm = claim_domain o domain_id node_id n dm0 ∨
  i ≠ d ∧ domains db !! i = Some dm.
Proof.
  rewrite list_lookup_alter. case_decide; subst; [|by right].
  rewrite Hdm0. intros [= <-]. by left.
Qed.
Lemma claim_node_lookup j y :
  d_nodes (claim_domain o domain_id node_id n dm0) !! j = Some y →
  j = n ∧ y = claim_node o node_id x0 ∨ j ≠ n ∧ d_nodes dm0 !! j = Some y.
Proof.
  cbn. rewrite list_lookup_alter. case_decide; subst; [|by right].
  rewrite Hx0. intros [= <-]. by left.
Qed.

(** No other used entry has the id. *)
Lemma claim_id_fresh i dm :
  i ≠ d → domains db !! i = Some dm → d_valid dm = true → d_domain_id dm ≠ domain_id.
Proof.
  intros Hi Hdm Hv Hid. destruct Hchoice as [[Hd Hfirst]|(_ & Hno & _)]; [|by eapply Hno].
  destruct (decide (i < d)%nat); [by eapply Hfirst|].
  assert (d_valid dm0 = true) as Hv0 by (eapply (id_prefix _ Hids d i); [lia|done..]).
  apply Hi. eapply (id_domains _ Hids i d); try done. congruence.
Qed.
Lemma claim_before i dm :
  (i < d)%nat → domains db !! i = Some dm → d_valid dm = true.
Proof.
  intros Hi Hdm. destruct Hchoice as [[Hd Hfirst]|(_ & _ & Hb)]; [|by eapply Hb].
  destruct (d_valid dm) eqn:Hv; [done|]. exfalso.
  destruct (d_valid dm0) eqn:Hv0.
  { rewrite (id_prefix _ Hids i d dm dm0) in Hv; done. }
  destruct (id_unused _ Hids i dm Hdm Hv) as [H0 _].
  destruct (id_unused _ Hids d dm0 Hdm0 Hv0) as [H1 _].
  apply (Hfirst i dm Hi Hdm). congruence.
Qed.

Lemma claim_nodes_distinct j m y y' :
  d_nodes (claim_domain o domain_id node_id n dm0) !! j = Some y →
  d_nodes (claim_domain o domain_id node_id n dm0) !! m = Some y' →
  n_valid y = true → n_valid y' = true → n_node_num y = n_node_num y' → j = m.
Proof.
  intros [[-> ->]|[Hj Hy]]%claim_node_lookup [[-> ->]|[Hm Hy']]%claim_node_lookup Hv Hv' He;
    [done|cbn in He..|].
  - by destruct (Hnew m y' Hy' Hv').
  - by destruct (Hnew j y Hy Hv).
  - by eapply (id_nodes _ Hids d dm0 j m y y').
Qed.

Lemma idents_ok_claimed : idents_ok ds'.
Proof.
  split.
  - intros i dm [[-> ->]|[Hi Hdm]]%claim_lookup; [done|]. by apply (id_unused _ Hids i).
  - intros i j dm dm' Hij [[-> ->]|[Hi Hdm]]%claim_lookup [[-> ->]|[Hj Hdm']]%claim_lookup;
      [done|done|intros _; by eapply claim_before|]. by apply (id_prefix _ Hids i j).
  - intros i j dm dm' [[-> ->]|[Hi Hdm]]%claim_lookup [[-> ->]|[Hj Hdm']]%claim_lookup
      Hv Hv' He; [done|..].
    + by destruct (claim_id_fresh j dm' Hj Hdm' Hv').
    + by destruct (claim_id_fresh i dm Hi Hdm Hv).
    + by eapply (id_domains _ Hids i j).
  - intros i dm j m y y' [[-> ->]|[Hi Hdm]]%claim_lookup; [apply claim_nodes_distinct|].
    by apply (id_nodes _ Hids i dm).
Qed.
End claim.

Lemma db_wf_claimed o domain_id node_id d n db :
  db_wf db → slot_found domain_id node_id d n db →
  db_wf (claimed o domain_id node_id d n db).
Proof.
  intros Hdb (Hd & Hn & dm & x & Hdm & Hx & Hv & Hchoice & Hnew).
  split; rewrite ?domains_claimed, ?length_alter; try apply Hdb.
  - apply Forall_alter; [apply Hdb|]. intros y _ Hy.
    split; cbn; rewrite ?length_alter; [apply Hy|].
    apply Forall_alter; [apply Hy|]. intros z _ Hz. split; apply Hz.
  - by eapply idents_ok_claimed.
Qed.

Section initialize.
Context (F : Prop) (o : os).

Lemma keeps_initialize c domain_id node_id st :
  db_keeps F (mrapi_impl_initialize o c domain_id node_id st) (λ _, True).
Proof.
  intros db Hdb.
  destruct (initialize_spec o c domain_id node_id st db Hdb) as (ok & c' & st' & db' & He & Ho).
  unfold runs. rewrite He. split; [done|]. destruct ok; [|by destruct Ho as [-> _]].
  destruct Ho as (_ & _ & d & n & Hf & _ & ->). by apply db_wf_claimed.
Qed.

Lemma keeps_mrapi_initialize c domain_id node_id info_null :
  db_keeps F (mrapi_initialize o c domain_id node_id info_null) (λ _, True).
Proof.
  unfold mrapi_initialize, mrapi_impl_valid_node_num, mrapi_impl_valid_domain_num.
  cbn [negb]. repeat (case_match; [by apply keeps_ret|]).
  eapply keeps_bind; [apply keeps_initialize|]. intros [[ok c'] st] _. by apply keeps_ret.
Qed.
Lemma keeps_mrapi_finalize c :
  caller_ok c → db_keeps F (mrapi_finalize o c) (λ _, True).
Proof.
  intros Hc. unfold mrapi_finalize. case_match; [by apply keeps_ret|].
  eapply keeps_bind; [by apply keeps_finalize|]. intros [ok c'] _. by apply keeps_ret.
Qed.
End initialize.

(** What claiming a slot does to the live nodes. *)
Lemma claimed_lookup o domain_id node_id d n db dm :
  domains db !! d = Some dm →
  domains (claimed o domain_id node_id d n db) !! d
  = Some (claim_domain o domain_id node_id n dm).
Proof. intros Hd. by rewrite domains_claimed, list_lookup_alter_eq, Hd. Qed.
Lemma claimed_other o domain_id node_id d n db i :
  i ≠ d → domains (claimed o domain_id node_id d n db) !! i = domains db !! i.
Proof. intros Hi. by rewrite domains_claimed, list_lookup_alter_ne. Qed.
