(* ===== verification/LockSystem.v ===== *)
(** The locks as a concurrent system.

    Any number of threads call the public functions of [mrapi_initialize.c],
    [mrapi_sem.c], [mrapi_mutex.c] and [mrapi_rwl.c] on one database; while a
    call has released the database, the others run.  [reachable] is the set
    of databases such a system can produce. *)

From S2P Require Import Prelude MrapiTypes MrapiHandles MrapiLocks MrapiMutexRwl MrapiLockApi MrapiNodes LockSlots LockSpec LockEntry DbInvariant LockCreate LockSafety NodeSafety.

(** ** Calls *)

Inductive call :=
| Initialize (domain_id node_id : Z) (info_null : bool)
| Finalize
| SemCreate (id : Z) (attrs : option mrapi_impl_attributes_t) (limit : Z)
| SemGet (id : Z)
| SemDelete (sem : Z)
| SemLock (sem timeout : Z)
| SemTrylock (sem : Z)
| SemUnlock (sem : Z)
| MutexCreate (id : Z) (attrs : option mrapi_impl_attributes_t)
| MutexGet (id : Z)
| MutexDelete (mutex : Z)
| MutexLock (mutex lock_key timeout : Z)
| MutexTrylock (mutex lock_key : Z)
| MutexUnlock (mutex lock_key : Z)
| RwlCreate (id : Z) (attrs : option mrapi_impl_attributes_t) (limit : Z)
| RwlGet (id : Z)
| RwlDelete (rwl : Z)
| RwlLock (rwl : Z) (mode : mrapi_rwl_mode_t) (timeout : Z)
| RwlTrylock (rwl : Z) (mode : mrapi_rwl_mode_t)
| RwlUnlock (rwl : Z) (mode : mrapi_rwl_mode_t).

(** What a call meets: the operating system, the other threads, and how many
    iterations its loops may take. *)
Record env := mk_env {
  e_os : os;
  e_gap : mrapi_database → mrapi_database;
  e_yield : nat → mrapi_database → mrapi_database;
  e_fuel : nat }.

Definition ignore {A} (m : M mrapi_database A) : M mrapi_database unit := m;; ret tt.

Definition run_call (e : env) (c : caller) (k : call) : M mrapi_database unit :=
  match k with
  | Initialize d n null => ignore (mrapi_initialize (e_os e) c d n null)
  | Finalize => ignore (mrapi_finalize (e_os e) c)
  | SemCreate id a l => ignore (mrapi_sem_create c id a l)
  | SemGet id => ignore (mrapi_sem_get c id)
  | SemDelete h => ignore (mrapi_sem_delete c h)
  | SemLock h t => ignore (mrapi_sem_lock (e_yield e) (e_fuel e) c h t)
  | SemTrylock h => ignore (mrapi_sem_trylock (e_yield e) (e_fuel e) c h)
  | SemUnlock h => ignore (mrapi_sem_unlock c h)
  | MutexCreate id a => ignore (mrapi_mutex_create c id a)
  | MutexGet id => ignore (mrapi_mutex_get c id)
  | MutexDelete h => ignore (mrapi_mutex_delete c h)
  | MutexLock h k t => ignore (mrapi_mutex_lock (e_gap e) (e_yield e) (e_fuel e) c h k t)
  | MutexTrylock h k => ignore (mrapi_mutex_trylock (e_gap e) (e_yield e) (e_fuel e) c h k)
  | MutexUnlock h k => ignore (mrapi_mutex_unlock (e_gap e) c h k)
  | RwlCreate id a l => ignore (mrapi_rwl_create c id a l)
  | RwlGet id => ignore (mrapi_rwl_get c id)
  | RwlDelete h => ignore (mrapi_rwl_delete c h)
  | RwlLock h m t => ignore (mrapi_rwl_lock (e_gap e) (e_yield e) (e_fuel e) c h m t)
  | RwlTrylock h m => ignore (mrapi_rwl_trylock (e_gap e) (e_yield e) (e_fuel e) c h m)
  | RwlUnlock h m => ignore (mrapi_rwl_unlock (e_gap e) c h m)
  end.

(** [mrapi_rwl_create] does not check the number of readers the way
    [mrapi_sem_create] does, so a caller has to. *)
Definition call_ok (k : call) : Prop :=
  match k with
  | SemCreate _ _ l => 0 <= l
  | RwlCreate _ _ l => 1 <= l <= Z.of_nat MRAPI_MAX_SHARED_LOCKS
  | _ => True
  end.

(** ** Steps *)

Inductive sys_step : mrapi_database → mrapi_database → Prop :=
| sys_call e c k db db' :
    caller_ok c → call_ok k →
    (∀ db, sys_steps db (e_gap e db)) → (∀ i db, sys_steps db (e_yield e i db)) →
    run_call e c k db = Done (tt, db') →
    sys_step db db'
with sys_steps : mrapi_database → mrapi_database → Prop :=
| sys_refl db : sys_steps db db
| sys_cons db1 db2 db3 : sys_step db1 db2 → sys_steps db2 db3 → sys_steps db1 db3.

Scheme sys_step_mut := Minimality for sys_step Sort Prop
  with sys_steps_mut := Minimality for sys_steps Sort Prop.

Definition reachable (db : mrapi_database) : Prop := sys_steps zero_db db.

(** ** Every call keeps the invariant *)

Lemma keeps_ignore {A} F (m : M mrapi_database A) :
  db_keeps F m (λ _, True) → db_keeps F (ignore m) (λ _, True).
Proof. intros Hm. eapply keeps_bind; [done|]. intros _ _. by apply keeps_ret. Qed.

(** Each public function first checks that the node is initialized. *)
Lemma keeps_initialized {A} F c (a : A) (m : M mrapi_database A) P :
  caller_ok c → P a → (caller_wf c → db_keeps F m P) →
  db_keeps F (if negb (mrapi_impl_initialized c) then ret a else m) P.
Proof.
  intros Hc Ha Hm. destruct (mrapi_impl_initialized c) eqn:Hi; cbn [negb];
    [by apply Hm, Hc|by apply keeps_ret].
Qed.

(** ... and then the handle. *)
Section checked.
Context {A : Type} (F : Prop) (check : Z → M mrapi_database (bool * mrapi_status)).
Context (Hcheck : ∀ h db, db_wf db → ∃ ok st, check h db = Done ((ok, st), db) ∧
           if ok then live_lock h db else ¬ live_lock h db).

Lemma keeps_checked h (m n : mrapi_status → M mrapi_database A) :
  (∀ st db, db_wf db → live_lock h db → runs F db_wf (m st) (λ _, True) db) →
  (∀ st, db_keeps F (n st) (λ _, True)) →
  db_keeps F (let* (ok, st) := check h in if (ok : bool) then m st else n st) (λ _, True).
Proof.
  intros Hm Hn db Hdb. destruct (Hcheck h db Hdb) as (ok & st & He & Hok).
  eapply runs_step; [done|]. cbn beta iota. destruct ok; [by apply Hm|by apply Hn].
Qed.
End checked.

Definition env_wf (e : env) : Prop := gap_wf (e_gap e) ∧ yield_wf (e_yield e).

Ltac keeps_done :=
  intros ? _; repeat match goal with p : _ * _ |- _ => destruct p end;
  repeat case_match; by apply keeps_ret.
(** [*_create]: in closed form. *)
Ltac keeps_created H :=
  let db := fresh "db" in let Hdb := fresh "Hdb" in
  intros db Hdb;
  let r := fresh "r" in let db' := fresh "db'" in let He := fresh "He" in
  let Ho := fresh "Ho" in
  destruct (H db) as (r & db' & He & Ho); [done || lia..|];
  eapply runs_done; [exact He|done|];
  eapply lock_create_outcome_wf; [exact Hdb| | |exact Ho]; done || lia.

Section calls.
Context (e : env) (He : env_wf e) (c : caller) (Hc : caller_ok c).

Lemma keeps_sem_create id a l : 0 <= l → db_keeps True (mrapi_sem_create c id a l) (λ _, True).
Proof.
  intros Hl. apply keeps_initialized; [done..|]. intros Hw. cbn [mrapi_impl_sem_validID negb].
  rewrite max_shared_locks.
  destruct (Z.eqb_spec l 0); cbn [orb]; [by apply keeps_ret|].
  destruct (Z.ltb_spec 32 l); [by apply keeps_ret|].
  eapply (keeps_bind _ _ (λ _, True)); [|keeps_done].
  keeps_created (sem_create_spec c 0 id a l).
Qed.
Lemma keeps_mutex_create id a : db_keeps True (mrapi_mutex_create c id a) (λ _, True).
Proof.
  apply keeps_initialized; [done..|]. intros Hw. cbn [mrapi_impl_mutex_validID negb].
  eapply (keeps_bind _ _ (λ _, True)); [|keeps_done].
  keeps_created (mutex_create_spec c 0 id a).
Qed.
Lemma keeps_rwl_create id a l :
  1 <= l <= 32 → db_keeps True (mrapi_rwl_create c id a l) (λ _, True).
Proof.
  intros Hl. apply keeps_initialized; [done..|]. intros Hw. cbn [mrapi_impl_rwl_validID negb].
  eapply (keeps_bind _ _ (λ _, True)); [|keeps_done].
  keeps_created (rwl_create_spec c 0 id a l).
Qed.

Lemma keeps_get_call (get_ : caller → Z → M mrapi_database (option Z * mrapi_status)) id err :
  get_ = (λ c id, if negb (mrapi_impl_initialized c) then ret (None, MRAPI_ERR_NODE_NOTINIT)
          else let* (ok, h) := mrapi_impl_sem_get c id in
               ret (Some h, if (ok : bool) then MRAPI_SUCCESS else err)) →
  db_keeps True (get_ c id) (λ _, True).
Proof.
  intros ->. apply keeps_initialized; [done..|]. intros Hw.
  eapply keeps_bind; [by apply keeps_sem_get|]. keeps_done.
Qed.

Lemma keeps_delete_call (check : Z → M mrapi_database (bool * mrapi_status)) h err :
  (∀ h db, db_wf db → ∃ ok st, check h db = Done ((ok, st), db) ∧
     if ok then live_lock h db else ¬ live_lock h db) →
  db_keeps True
    (if negb (mrapi_impl_initialized c) then ret MRAPI_ERR_NODE_NOTINIT
     else let* (ok, status) := check h in
          if (ok : bool) then
            let* deleted := mrapi_impl_sem_delete c h in
            ret (if (deleted : bool) then MRAPI_SUCCESS else err)
          else ret status) (λ _, True).
Proof.
  intros Hcheck. apply keeps_initialized; [done..|]. intros Hw.
  apply keeps_checked; [done| |intros; by apply keeps_ret].
  intros st db Hdb Hlive. destruct (live_lock_hndl _ _ Hdb Hlive) as [s Hs].
  eapply runs_bind; [by eapply keeps_delete|]. keeps_done.
Qed.

Lemma keeps_rwl_lock_call h m t :
  db_keeps True (mrapi_rwl_lock (e_gap e) (e_yield e) (e_fuel e) c h m t) (λ _, True).
Proof.
  destruct He. apply keeps_initialized; [done..|]. intros Hw.
  apply keeps_checked; [apply valid_rwl_hndl_spec| |intros; by apply keeps_ret].
  intros st db Hdb Hlive. eapply runs_bind; [by apply runs_rwl_lock|]. keeps_done.
Qed.
Lemma keeps_rwl_trylock_call h m :
  db_keeps True (mrapi_rwl_trylock (e_gap e) (e_yield e) (e_fuel e) c h m) (λ _, True).
Proof.
  destruct He. apply keeps_initialized; [done..|]. intros Hw.
  apply keeps_checked; [apply valid_rwl_hndl_spec| |intros; by apply keeps_ret].
  intros st db Hdb Hlive. by apply runs_rwl_lock.
Qed.
Lemma keeps_rwl_unlock_call h m :
  db_keeps True (mrapi_rwl_unlock (e_gap e) c h m) (λ _, True).
Proof.
  destruct He. apply keeps_initialized; [done..|]. intros Hw.
  apply keeps_checked; [apply valid_rwl_hndl_spec| |intros; by apply keeps_ret].
  intros st db Hdb Hlive. eapply runs_bind; [by apply runs_rwl_unlock|]. keeps_done.
Qed.

Lemma keeps_mutex_lock_call h k t :
  db_keeps True (mrapi_mutex_lock (e_gap e) (e_yield e) (e_fuel e) c h k t) (λ _, True).
Proof.
  destruct He. apply keeps_initialized; [done..|]. intros Hw.
  apply keeps_checked; [apply valid_mutex_hndl_spec| |intros; by apply keeps_ret].
  intros st db Hdb Hlive. destruct (live_lock_hndl _ _ Hdb Hlive) as [s Hs].
  eapply runs_bind; [by eapply keeps_mutex_lock|]. keeps_done.
Qed.
Lemma keeps_mutex_trylock_call h k :
  db_keeps True (mrapi_mutex_trylock (e_gap e) (e_yield e) (e_fuel e) c h k) (λ _, True).
Proof.
  destruct He. apply keeps_initialized; [done..|]. intros Hw.
  apply keeps_checked; [apply valid_mutex_hndl_spec| |intros; by apply keeps_ret].
  intros st db Hdb Hlive. destruct (live_lock_hndl _ _ Hdb Hlive) as [s Hs].
  by eapply keeps_mutex_lock.
Qed.
Lemma keeps_mutex_unlock_call h k :
  db_keeps True (mrapi_mutex_unlock (e_gap e) c h k) (λ _, True).
Proof.
  destruct He. apply keeps_initialized; [done..|]. intros Hw.
  apply keeps_checked; [apply valid_mutex_hndl_spec| |intros; by apply keeps_ret].
  intros st db Hdb Hlive. destruct (live_lock_hndl _ _ Hdb Hlive) as [s Hs].
  eapply runs_bind; [by eapply keeps_mutex_unlock|]. keeps_done.
Qed.

Lemma keeps_sem_lock_call h t :
  db_keeps True (mrapi_sem_lock (e_yield e) (e_fuel e) c h t) (λ _, True).
Proof.
  destruct He. apply keeps_initialized; [done..|]. intros Hw.
  apply keeps_checked; [apply valid_sem_hndl_spec| |intros; by apply keeps_ret].
  intros st db Hdb Hlive. destruct (live_lock_hndl _ _ Hdb Hlive) as [s Hs].
  eapply runs_bind; [by eapply keeps_sem_lock|]. keeps_done.
Qed.
Lemma keeps_sem_trylock_call h :
  db_keeps True (mrapi_sem_trylock (e_yield e) (e_fuel e) c h) (λ _, True).
Proof.
  destruct He. apply keeps_initialized; [done..|]. intros Hw.
  apply keeps_checked; [apply valid_sem_hndl_spec| |intros; by apply keeps_ret].
  intros st db Hdb Hlive. destruct (live_lock_hndl _ _ Hdb Hlive) as [s Hs].
  by eapply keeps_sem_lock.
Qed.
Lemma keeps_sem_unlock_call h : db_keeps True (mrapi_sem_unlock c h) (λ _, True).
Proof.
  apply keeps_initialized; [done..|]. intros Hw.
  apply keeps_checked; [apply valid_sem_hndl_spec| |intros; by apply keeps_ret].
  intros st db Hdb Hlive. destruct (live_lock_hndl _ _ Hdb Hlive) as [s Hs].
  eapply runs_bind; [eapply keeps_release; [done|done|lia|done]|]. keeps_done.
Qed.

Lemma keeps_call k : call_ok k → db_keeps True (run_call e c k) (λ _, True).
Proof.
  intros Hk. destruct k; cbn [run_call call_ok] in *; apply keeps_ignore.
  - apply keeps_mrapi_initialize.
  - by apply keeps_mrapi_finalize.
  - by apply keeps_sem_create.
  - by eapply (keeps_get_call mrapi_sem_get).
  - apply keeps_delete_call, valid_sem_hndl_spec.
  - apply keeps_sem_lock_call.
  - apply keeps_sem_trylock_call.
  - apply keeps_sem_unlock_call.
  - apply keeps_mutex_create.
  - by eapply (keeps_get_call mrapi_mutex_get).
  - apply keeps_delete_call, valid_mutex_hndl_spec.
  - apply keeps_mutex_lock_call.
  - apply keeps_mutex_trylock_call.
  - apply keeps_mutex_unlock_call.
  - rewrite max_shared_locks in Hk. by apply keeps_rwl_create.
  - by eapply (keeps_get_call mrapi_rwl_get).
  - apply keeps_delete_call, valid_rwl_hndl_spec.
  - apply keeps_rwl_lock_call.
  - apply keeps_rwl_trylock_call.
  - apply keeps_rwl_unlock_call.
Qed.
End calls.

Lemma sys_steps_wf db db' : sys_steps db db' → db_wf db → db_wf db'.
Proof.
  apply (sys_steps_mut (λ db db', db_wf db → db_wf db') (λ db db', db_wf db → db_wf db')).
  - intros e c k d d' Hc Hk _ Hg _ Hy Hr Hd.
    assert (env_wf e) as He by (split; [exact Hg|exact Hy]).
    pose proof (keeps_call e He c Hc k Hk d Hd) as Hrun.
    unfold runs in Hrun. rewrite Hr in Hrun. tauto.
  - done.
  - auto.
Qed.
Lemma reachable_wf db : reachable db → db_wf db.
Proof. intros Hr. by eapply sys_steps_wf, db_wf_zero. Qed.

(** ** What a node holds stays

    The calls of the other nodes, but for mrapi_finalize, leave the units that a
    node holds of a valid lock alone. *)

Section stays.
Context (n d : nat).

(** Every valid lock of which node [(n, d)] holds units is still there, with the
    same type, limit and units. *)
Definition kept (db db' : mrapi_database) : Prop :=
  ∀ s x, sems db !! s = Some x → s_valid x = true → 0 < my_count n d x →
  ∃ y, sems db' !! s = Some y ∧ s_valid y = true ∧ s_type y = s_type x ∧
    s_shared_lock_limit y = s_shared_lock_limit x ∧ my_count n d y = my_count n d x.
#[export] Instance kept_preorder : PreOrder kept.
Proof.
  split; [intros db s x Hx Hv Hn; by exists x|].
  intros d1 d2 d3 H1 H2 s x Hx Hv Hn. destruct (H1 s x Hx Hv Hn) as (y & Hy & Hvy & Ht & Hl & Hc).
  destruct (H2 s y Hy Hvy ltac:(lia)) as (z & Hz & Hvz & Ht' & Hl' & Hc'). exists z. split_and!; congruence.
Qed.
Lemma kept_sems db db' : sems db' = sems db → kept db db'.
Proof. intros Hs s x Hx Hv Hn. exists x. by rewrite Hs. Qed.
Lemma kept_upd_sem i f db :
  (∀ x, sems db !! i = Some x → s_valid x = true → 0 < my_count n d x →
    s_valid (f x) = true ∧ s_type (f x) = s_type x ∧
    s_shared_lock_limit (f x) = s_shared_lock_limit x ∧ my_count n d (f x) = my_count n d x) →
  kept db (upd_sem i f db).
Proof.
  intros Hf s x Hx Hv Hn. destruct (decide (i = s)) as [->|Hne].
  - exists (f x). rewrite (lookup_upd_sem_eq s f db x Hx). by destruct (Hf x Hx Hv Hn) as (? & ? & ? & ?).
  - exists x. rewrite lookup_upd_sem. by rewrite decide_False.
Qed.

(** Without the invariant. *)
Definition frames_units {A} (m : M mrapi_database A) : Prop := ∀ db a db', m db = Done (a, db') → kept db db'.
Definition reads {A} (m : M mrapi_database A) : Prop := ∀ db a db', m db = Done (a, db') → db' = db.
Lemma frames_bind {A B} (m : M mrapi_database A) (k : A → M mrapi_database B) :
  frames_units m → (∀ a, frames_units (k a)) → frames_units (bind m k).
Proof.
  intros Hm Hk db b db' (a & db1 & Ha & Hb)%bind_inv. etrans; [by eapply Hm|by eapply Hk].
Qed.
Lemma frames_reads {A} (m : M mrapi_database A) : reads m → frames_units m.
Proof. intros Hm db a db' Ha. by rewrite (Hm _ _ _ Ha). Qed.
Lemma reads_ret {A} (a : A) : reads (ret a).
Proof. by intros ? ? ? [= _ ->]. Qed.
Lemma reads_lift {A} (r : result A) : reads (lift r).
Proof. intros db a db'. destruct r; [by intros [= _ ->]|done]. Qed.
Lemma reads_oob {A} (o : option A) : reads (from_option_oob o).
Proof. intros db a db'. destruct o; [by intros [= _ ->]|done]. Qed.
Lemma reads_assert b : reads (c_assert b).
Proof. intros db a db'. destruct b; [by intros [= _ ->]|done]. Qed.
Lemma reads_bind {A B} (m : M mrapi_database A) (k : A → M mrapi_database B) :
  reads m → (∀ a, reads (k a)) → reads (bind m k).
Proof. intros Hm Hk db b db' (a & db1 & Ha & Hb)%bind_inv. rewrite <- (Hm _ _ _ Ha). by eapply Hk. Qed.
Lemma reads_get : reads get.
Proof. by intros ? ? ? [= _ ->]. Qed.
Lemma reads_arr_get {A} (l : mrapi_database → list A) i : reads (arr_get l i).
Proof. apply reads_bind; [apply reads_get|]. intros db. apply reads_oob. Qed.
Lemma reads_get_node i j : reads (get_node i j).
Proof. apply reads_bind; [apply reads_arr_get|]. intros dm. apply reads_oob. Qed.
Lemma frames_log_user i j s b : frames_units (log_sem_user i j s b).
Proof.
  apply frames_bind; [apply frames_reads, reads_get_node|]. intros nd.
  apply frames_bind; [apply frames_reads, reads_oob|]. intros _.
  apply frames_bind; [apply frames_reads, reads_get_node|]. intros _ db [] db' [= <-]. by apply kept_sems.
Qed.

(** Programs that run on well-formed databases and leave the units alone. *)
Definition leaves_units {A} (m : M mrapi_database A) : Prop :=
  ∀ db a db', db_wf db → m db = Done (a, db') → db_wf db' ∧ kept db db'.

Lemma leaves_bind {A B} (m : M mrapi_database A) (k : A → M mrapi_database B) :
  leaves_units m → (∀ a, leaves_units (k a)) → leaves_units (bind m k).
Proof.
  intros Hm Hk db b db' Hdb (a & db1 & Ha & Hb)%bind_inv. destruct (Hm _ _ _ Hdb Ha) as [H1 K1].
  destruct (Hk a _ _ _ H1 Hb) as [H2 K2]. split; [done|by etrans].
Qed.
Lemma leaves_reads {A} (m : M mrapi_database A) : reads m → leaves_units m.
Proof. intros Hm db a db' Hdb Ha. by rewrite (Hm _ _ _ Ha). Qed.
Lemma leaves_ret {A} (a : A) : leaves_units (ret a).
Proof. apply leaves_reads, reads_ret. Qed.
Lemma leaves_check (check : M mrapi_database (bool * mrapi_status)) h :
  (∀ db, db_wf db → ∃ ok st, check db = Done ((ok, st), db) ∧ if ok then live_lock h db else ¬ live_lock h db) →
  leaves_units check.
Proof.
  intros Hc db a db' Hdb Ha. destruct (Hc db Hdb) as (ok & st & He & _). rewrite He in Ha. by simplify_eq.
Qed.
Lemma leaves_modify f : (∀ db, db_wf db → db_wf (f db) ∧ kept db (f db)) → leaves_units (modify f).
Proof. intros Hf db [] db' Hdb [= <-]. by apply Hf. Qed.
(** The invariant of the database comes from [db_keeps]. *)
Lemma leaves_keeps {A} (m : M mrapi_database A) P :
  db_keeps True m P → (∀ db a db', db_wf db → m db = Done (a, db') → kept db db') → leaves_units m.
Proof.
  intros Hk Hm db a db' Hdb Ha. split; [|by eapply Hm].
  specialize (Hk db Hdb). unfold runs in Hk. rewrite Ha in Hk. apply Hk.
Qed.

(** The calls of another node. *)
Context (c : caller) (Hc : caller_wf c) (Hother : me (c_nindex c) (c_dindex c) ≠ me n d).

Lemma my_count_acquired k x :
  sem_wf x → 0 <= k <= s_shared_lock_limit x - s_num_locks x →
  my_count n d (acquired (c_nindex c) (c_dindex c) k x) = my_count n d x.
Proof using Hc Hother.
  intros Hw Hk. rewrite <- !multiplicity_my_count by (try apply sem_wf_acquired; done).
  destruct (caller_small c Hc). rewrite holders_acquired by done.
  rewrite multiplicity_disj_union, multiplicity_scalar_mul, multiplicity_singleton_ne by done. lia.
Qed.
Lemma my_count_released k x :
  sem_wf x → 0 <= k <= my_count (c_nindex c) (c_dindex c) x →
  my_count n d (released (c_nindex c) (c_dindex c) k x) = my_count n d x.
Proof using Hother.
  intros Hw Hk. rewrite <- !multiplicity_my_count by (try apply sem_wf_released; done).
  rewrite (holders_released x Hw (c_nindex c) (c_dindex c) k Hk).
  rewrite multiplicity_disj_union, multiplicity_scalar_mul, multiplicity_singleton_ne by done. lia.
Qed.

Section handle.
Context (sem : Z) (s : nat) (Hsem : sem_hndl sem s).

Lemma leaves_acquire k st : 1 <= k → leaves_units (mrapi_impl_acquire_lock_locked c sem k st).
Proof.
  intros Hk. eapply leaves_keeps; [by eapply keeps_acquire|]. intros db a db' Hdb.
  destruct Hsem as [Hd Hs]. destruct (sem_at db Hdb s Hs) as (x & Hx & Hw).
  rewrite (acquire_eq c sem s x db Hc Hd Hx Hw k st Hk).
  destruct (Z.leb_spec (s_num_locks x + k) (s_shared_lock_limit x)) as [Hle|_]; intros [= _ <-]; [|done].
  apply kept_upd_sem. intros x' Hx' Hv Hn. assert (x' = x) as -> by congruence. pose proof (num_locks_range x Hw).
  split_and!; [done..|apply my_count_acquired; [done|lia]].
Qed.
Lemma leaves_release k st : 1 <= k < 2 ^ 16 → leaves_units (mrapi_impl_release_lock c sem k st).
Proof.
  intros Hk. eapply leaves_keeps; [by eapply keeps_release|]. intros db a db' Hdb.
  destruct Hsem as [Hd Hs]. destruct (sem_at db Hdb s Hs) as (x & Hx & Hw).
  rewrite (release_eq c sem s x db Hc Hd Hx Hw k st Hk). destruct (s_valid x); cbn [negb]; [|by intros [= _ <-]].
  destruct (Z.leb_spec k (my_count (c_nindex c) (c_dindex c) x)); intros [= _ <-]; [|done].
  apply kept_upd_sem. intros x' Hx' Hv Hn. assert (x' = x) as -> by congruence.
  split_and!; [done..|apply my_count_released; [done|lia]].
Qed.
(** Deleting needs every unit. *)
Lemma leaves_delete : leaves_units (mrapi_impl_sem_delete c sem).
Proof.
  eapply leaves_keeps; [by eapply keeps_delete|]. intros db a db' Hdb.
  destruct Hsem as [Hd Hs]. destruct (sem_at db Hdb s Hs) as (x & Hx & Hw).
  rewrite (delete_eq c sem s x db Hc Hd Hx Hw). intros [= _ <-].
  destruct (Z.eqb_spec (my_count (c_nindex c) (c_dindex c) x) (s_shared_lock_limit x)) as [Hall|]; [|done].
  destruct (s_valid x); [|done]. apply kept_upd_sem. intros x' Hx' Hv Hn. assert (x' = x) as -> by congruence.
  pose proof (entry_two_holders x _ _ _ _ Hw Hother). lia.
Qed.
Lemma leaves_set_lock_key key : leaves_units (set_lock_key s key).
Proof.
  destruct Hsem as [_ Hs]. eapply leaves_keeps; [by apply keeps_set_lock_key|]. intros db a db' Hdb.
  destruct (sem_at db Hdb s Hs) as (x & Hx & Hw). unfold set_lock_key.
  rewrite (modify_sem_done s _ db x Hx). intros [= _ <-]. apply kept_upd_sem.
  intros x' Hx' Hv Hn. assert (x' = x) as -> by congruence. split_and!; [done..|].
  rewrite <- !multiplicity_my_count by (try apply (sem_wf_with_key key); done).
  by rewrite <- (holders_with_key key x).
Qed.
End handle.

(** Others between the critical sections. *)
Definition gap_leaves (gap : mrapi_database → mrapi_database) : Prop :=
  ∀ db, db_wf db → db_wf (gap db) ∧ kept db (gap db).
Definition yield_leaves (yield : nat → mrapi_database → mrapi_database) : Prop := ∀ k, gap_leaves (yield k).
Lemma gap_leaves_wf gap : gap_leaves gap → gap_wf gap.
Proof. intros Hg db Hdb. by apply Hg. Qed.
Lemma yield_leaves_wf yield : yield_leaves yield → yield_wf yield.
Proof. intros Hy k. apply gap_leaves_wf, Hy. Qed.

Lemma leaves_sem_lock yield fuel sem s num timeout st :
  yield_leaves yield → sem_hndl sem s → 1 <= num →
  leaves_units (mrapi_impl_sem_lock yield fuel c sem num timeout st).
Proof.
  intros Hy Hsem Hnum. unfold mrapi_impl_sem_lock. destruct Hsem as [Hd Hs]. rewrite Hd. cbn [negb].
  generalize 0%nat, 0 as time. intros k time. revert k time st.
  induction fuel as [|fuel IH]; intros k time st; [by intros db a db' _|].
  apply leaves_bind; [by eapply leaves_acquire|]. intros [added st'].
  destruct (added =? num); [apply leaves_ret|]. apply leaves_bind; [by apply leaves_modify, Hy|]. intros _.
  case_match; [apply leaves_ret|apply IH].
Qed.
Lemma whoami_reads : reads (assert_whoami c).
Proof. intros db a db'. rewrite assert_whoami_done by done. by intros [= _ ->]. Qed.
Lemma leaves_whoami : leaves_units (assert_whoami c).
Proof.
  apply leaves_reads, whoami_reads.
Qed.
Lemma leaves_mutex_lock gap yield fuel mutex s lock_key timeout st :
  gap_leaves gap → yield_leaves yield → sem_hndl mutex s →
  leaves_units (mrapi_impl_mutex_lock gap yield fuel c mutex lock_key timeout st).
Proof.
  intros Hg Hy Hm. unfold mrapi_impl_mutex_lock.
  apply leaves_bind; [apply leaves_whoami|]. intros [n' d']. pose proof Hm as [-> Hs].
  apply leaves_bind; [apply leaves_reads, reads_assert|]. intros _. apply leaves_bind; [apply leaves_reads, reads_arr_get|]. intros x.
  apply leaves_bind; [apply leaves_reads, reads_oob|]. intros lk. case_match; [case_match|].
  - apply leaves_bind; [by eapply leaves_set_lock_key|]. intros _.
    apply leaves_bind; [by apply leaves_modify|]. intros _. apply leaves_ret.
  - apply leaves_ret.
  - apply leaves_bind; [by apply leaves_modify|]. intros _.
    apply leaves_bind; [by eapply leaves_sem_lock|]. intros [rc st']. apply leaves_ret.
Qed.
Lemma leaves_mutex_unlock gap mutex s lock_key st :
  gap_leaves gap → sem_hndl mutex s → leaves_units (mrapi_impl_mutex_unlock gap c mutex lock_key st).
Proof.
  intros Hg Hm. unfold mrapi_impl_mutex_unlock.
  apply leaves_bind; [apply leaves_whoami|]. intros [n' d']. pose proof Hm as [-> Hs].
  apply leaves_bind; [apply leaves_reads, reads_assert|]. intros _. apply leaves_bind; [apply leaves_reads, reads_arr_get|]. intros x.
  apply leaves_bind; [apply leaves_reads, reads_oob|]. intros lk.
  apply leaves_bind; [case_match; [by eapply leaves_set_lock_key|apply leaves_ret]|]. intros _.
  apply leaves_bind; [by apply leaves_modify|]. intros _.
  apply leaves_bind; [|intros [rc st']; apply leaves_ret].
  case_match; [eapply leaves_release; [done|lia]|apply leaves_ret].
Qed.
Lemma leaves_sem_get key : leaves_units (mrapi_impl_sem_get c key).
Proof.
  eapply leaves_keeps; [by apply keeps_sem_get|]. intros db a db' _. revert db a db'. unfold mrapi_impl_sem_get.
  apply frames_bind; [apply frames_reads, whoami_reads|]. intros [n' d'].
  apply frames_bind; [apply frames_reads, reads_get|]. intros db0.
  apply frames_bind; [apply frames_reads, reads_lift|]. intros s.
  apply frames_bind; [|intros rc; apply frames_reads, reads_ret].
  case_match; [|apply frames_reads, reads_ret].
  apply frames_bind; [apply frames_reads, reads_get_node|]. intros nd.
  apply frames_bind; [apply frames_reads, reads_oob|]. intros [].
  { apply frames_reads, reads_ret. }
  apply frames_bind; [apply frames_log_user|]. intros _.
  apply frames_bind; [|intros _; apply frames_reads, reads_ret].
  apply frames_bind; [apply frames_reads, reads_arr_get|]. intros _ db [] db' [= <-].
  by apply kept_upd_sem.
Qed.

Lemma leaves_created (m : M mrapi_database (bool * Z * mrapi_status)) sem key limit t attrs st :
  (∀ db, db_wf db → ∃ r db', m db = Done (r, db') ∧ lock_create_outcome c sem key limit t attrs st db r db') →
  1 <= limit <= 32 → (t = MUTEX → limit = 1) → leaves_units m.
Proof.
  intros Hm Hl Ht db r db' Hdb Hr. destruct (Hm db Hdb) as (r1 & db1 & He & Ho). rewrite Hr in He. simplify_eq.
  split; [by eapply lock_create_outcome_wf|]. destruct Ho as [| |s _ ((x & Hx & Hv & _) & _) _]; [done..|].
  unfold add_lock. etrans; [by apply (kept_sems _ (upd_node (c_dindex c) (c_nindex c) (λ x, x <| n_sems ::= <[s := true]> |>)
    (db <| num_sems ::= λ k, u8 (k + 1) |>)))|].
  apply kept_upd_sem. intros x' Hx'. cbn in Hx'. congruence.
Qed.
End stays.

(** Every call of another node but mrapi_finalize. *)
Section others.
Context (n d : nat) (e : env) (Hg : gap_leaves n d (e_gap e)) (Hy : yield_leaves n d (e_yield e)).
Context (c : caller) (Hc : caller_ok c).
Context (Hother : mrapi_impl_initialized c = true → me (c_nindex c) (c_dindex c) ≠ me n d).
Local Abbreviation leaves := (leaves_units n d).

Lemma leaves_ignore {A} (m : M mrapi_database A) : leaves m → leaves (ignore m).
Proof. intros Hm. apply leaves_bind; [done|]. intros _. apply leaves_ret. Qed.
Lemma leaves_initialized {A} (a : A) (m : M mrapi_database A) :
  (caller_wf c → me (c_nindex c) (c_dindex c) ≠ me n d → leaves m) →
  leaves (if negb (mrapi_impl_initialized c) then ret a else m).
Proof.
  intros Hm. destruct (mrapi_impl_initialized c) eqn:Hi; cbn [negb]; [|apply leaves_ret].
  apply Hm; [by apply Hc|by apply Hother].
Qed.
(** The handle that was checked is that of a valid lock. *)
Section handles.
Context {A : Type} (check : Z → M mrapi_database (bool * mrapi_status)) (h : Z).
Context (m k : mrapi_status → M mrapi_database A) (Hk : ∀ st, leaves (k st)).
Context (Hcheck : ∀ h db, db_wf db → ∃ ok st, check h db = Done ((ok, st), db) ∧
           if ok then live_lock h db else ¬ live_lock h db).
Local Abbreviation checked := (let* (ok, st) := check h in if (ok : bool) then m st else k st).

Lemma leaves_live :
  (∀ st s db a db', sem_hndl h s → live_lock h db → db_wf db → m st db = Done (a, db') →
     db_wf db' ∧ kept n d db db') → leaves checked.
Proof.
  intros Hm db a db' Hdb Ha. destruct (Hcheck h db Hdb) as (ok & st & He & Hok).
  rewrite (bind_done _ _ _ _ _ He) in Ha. cbv beta iota in Ha. destruct ok; [|by eapply Hk].
  destruct (live_lock_hndl h db Hdb Hok) as [s Hs]. by eapply Hm.
Qed.
Lemma leaves_checked : (∀ st s, sem_hndl h s → leaves (m st)) → leaves checked.
Proof. intros Hm. apply leaves_live. intros st s db a db' Hs _ Hdb. by eapply Hm. Qed.
End handles.
Lemma leaves_writer {A} s (m : Z → M mrapi_database A) h db a db' :
  sem_hndl h s → db_wf db → live_lock h db →
  (∀ num, 1 <= num < 2 ^ 16 → leaves (m num)) →
  (let* x := get_sem s in modify (e_gap e);; m (s_shared_lock_limit x)) db = Done (a, db') →
  db_wf db' ∧ kept n d db db'.
Proof.
  intros [Hh Hs] Hdb (s' & x & Hs' & Hx & Hv) Hm Ha. assert (s' = s) as -> by congruence.
  rewrite (bind_done _ _ _ _ _ (get_sem_done s db x Hx)) in Ha.
  destruct (sem_lookup_wf db Hdb s x Hx) as [_ Hw]. pose proof (wf_pos x Hw Hv). pose proof (limit_small x Hw).
  apply bind_inv in Ha as ([] & db1 & [= <-] & Ha). destruct (Hg db Hdb) as [H1 K1].
  destruct (Hm (s_shared_lock_limit x) ltac:(lia) _ _ _ H1 Ha) as [H2 K2]. split; [done|by etrans].
Qed.

Lemma leaves_delete_call (check : Z → M mrapi_database (bool * mrapi_status)) h (f : bool → mrapi_status) :
  (∀ h db, db_wf db → ∃ ok st, check h db = Done ((ok, st), db) ∧
     if ok then live_lock h db else ¬ live_lock h db) →
  leaves (if negb (mrapi_impl_initialized c) then ret MRAPI_ERR_NODE_NOTINIT
          else let* (ok, status) := check h in
               if (ok : bool) then let* deleted := mrapi_impl_sem_delete c h in ret (f deleted)
               else ret status).
Proof.
  intros Hcheck. apply leaves_initialized. intros Hw Hne.
  apply (leaves_checked check h _ (λ st, ret st)); [intros; apply leaves_ret|done|]. intros st s Hs.
  apply leaves_bind; [by eapply leaves_delete|]. intros ok. apply leaves_ret.
Qed.
Lemma leaves_rwl_lock st s db a db' h mode timeout :
  caller_wf c → me (c_nindex c) (c_dindex c) ≠ me n d → sem_hndl h s → live_lock h db → db_wf db →
  mrapi_impl_rwl_lock (e_gap e) (e_yield e) (e_fuel e) c h mode timeout st db = Done (a, db') →
  db_wf db' ∧ kept n d db db'.
Proof.
  intros Hw Hne Hs Hlive Hdb. unfold mrapi_impl_rwl_lock. pose proof Hs as [-> _]. cbn [negb].
  destruct mode; [by apply (leaves_sem_lock n d c Hw Hne _ _ h s)|]. intros Ha.
  eapply (leaves_writer s (λ num, mrapi_impl_sem_lock (e_yield e) (e_fuel e) c h num timeout st)); try done.
  intros num Hnum. apply (leaves_sem_lock n d c Hw Hne _ _ h s); [done|done|lia].
Qed.
Lemma leaves_rwl_unlock st s db a db' h mode :
  caller_wf c → me (c_nindex c) (c_dindex c) ≠ me n d → sem_hndl h s → live_lock h db → db_wf db →
  mrapi_impl_rwl_unlock (e_gap e) c h mode st db = Done (a, db') → db_wf db' ∧ kept n d db db'.
Proof.
  intros Hw Hne Hs Hlive Hdb. unfold mrapi_impl_rwl_unlock. pose proof Hs as [-> _]. cbn [negb].
  destruct mode; [by apply (leaves_release n d c Hw Hne h s)|]. intros Ha.
  eapply (leaves_writer s (λ num, mrapi_impl_sem_unlock c h num st)); try done.
  intros num Hnum. by apply (leaves_release n d c Hw Hne h s).
Qed.

Ltac leaves_result := let r := fresh in intros r; repeat match goal with p : _ * _ |- _ => destruct p end; repeat case_match; apply leaves_ret.
Ltac leaves_call_of spec :=
  apply leaves_initialized; intros Hw Hne;
  eapply leaves_checked; [intros; apply leaves_ret|apply spec|]; intros st s Hs.
Lemma leaves_call k : call_ok k → k ≠ Finalize → leaves (run_call e c k).
Proof.
  intros Hk Hnf. destruct k; cbn [run_call call_ok] in *; try done; apply leaves_ignore.
  - unfold mrapi_initialize, mrapi_impl_valid_node_num, mrapi_impl_valid_domain_num. cbn [negb].
    repeat (case_match; [apply leaves_ret|]). apply leaves_bind; [|leaves_result].
    eapply leaves_keeps; [apply keeps_initialize|]. intros db r db' Hdb Hr.
    destruct (initialize_spec (e_os e) c domain_id node_id MRAPI_ERR_NODE_INITFAILED db Hdb)
      as (ok & c' & st' & db1 & He & Ho). rewrite Hr in He. simplify_eq.
    destruct ok; [|by destruct Ho as [-> _]]. destruct Ho as (_ & _ & d1 & n1 & _ & _ & ->).
    by apply kept_sems.
  - apply leaves_initialized. intros Hw Hne. cbn [mrapi_impl_sem_validID negb].
    pose proof max_shared_locks as Hmax.
    destruct (Z.eqb_spec limit 0); [apply leaves_ret|]. destruct (Z.ltb_spec (Z.of_nat MRAPI_MAX_SHARED_LOCKS) limit);
      [apply leaves_ret|]. cbn [orb]. apply leaves_bind; [|leaves_result].
    eapply (leaves_created n d c); [intros db Hdb; apply (sem_create_spec c 0 id attrs limit db Hdb Hw)|..]; done || lia.
  - apply leaves_initialized. intros Hw Hne. apply leaves_bind; [by apply leaves_sem_get|leaves_result].
  - apply (leaves_delete_call mrapi_impl_valid_sem_hndl sem (λ ok, if ok then _ else _)), valid_sem_hndl_spec.
  - leaves_call_of valid_sem_hndl_spec. apply leaves_bind; [by eapply leaves_sem_lock|leaves_result].
  - leaves_call_of valid_sem_hndl_spec. by eapply leaves_sem_lock.
  - leaves_call_of valid_sem_hndl_spec. apply leaves_bind; [by eapply leaves_release|leaves_result].
  - apply leaves_initialized. intros Hw Hne. apply leaves_bind; [|leaves_result].
    eapply (leaves_created n d c); [intros db Hdb; apply (mutex_create_spec c 0 id attrs db Hdb Hw)|..]; done || lia.
  - apply leaves_initialized. intros Hw Hne. apply leaves_bind; [by apply leaves_sem_get|leaves_result].
  - apply (leaves_delete_call mrapi_impl_valid_mutex_hndl mutex (λ ok, if ok then _ else _)), valid_mutex_hndl_spec.
  - leaves_call_of valid_mutex_hndl_spec. apply leaves_bind; [by eapply leaves_mutex_lock|leaves_result].
  - leaves_call_of valid_mutex_hndl_spec. by eapply leaves_mutex_lock.
  - leaves_call_of valid_mutex_hndl_spec. apply leaves_bind; [by eapply leaves_mutex_unlock|leaves_result].
  - apply leaves_initialized. intros Hw Hne. apply leaves_bind; [|leaves_result]. rewrite max_shared_locks in Hk.
    eapply (leaves_created n d c); [intros db Hdb; apply (rwl_create_spec c 0 id attrs limit db Hdb Hw)|..]; done || lia.
  - apply leaves_initialized. intros Hw Hne. apply leaves_bind; [by apply leaves_sem_get|leaves_result].
  - apply (leaves_delete_call mrapi_impl_valid_rwl_hndl rwl (λ ok, if ok then _ else _)), valid_rwl_hndl_spec.
  - apply leaves_initialized. intros Hw Hne.
    eapply leaves_live; [intros; apply leaves_ret|apply valid_rwl_hndl_spec|]. intros st s db a db' Hs Hlive Hdb Ha.
    apply bind_inv in Ha as ([rc st'] & db1 & Ha & [= _ <-]). by eapply leaves_rwl_lock.
  - apply leaves_initialized. intros Hw Hne.
    eapply leaves_live; [intros; apply leaves_ret|apply valid_rwl_hndl_spec|]. intros st s db a db' Hs Hlive Hdb Ha.
    by eapply leaves_rwl_lock.
  - apply leaves_initialized. intros Hw Hne.
    eapply leaves_live; [intros; apply leaves_ret|apply valid_rwl_hndl_spec|]. intros st s db a db' Hs Hlive Hdb Ha.
    apply bind_inv in Ha as ([rc st'] & db1 & Ha & [= _ <-]). by eapply leaves_rwl_unlock.
Qed.
End others.

(** *** Histories of the other nodes *)

Definition other_node (n d : nat) (c : caller) : Prop :=
  caller_ok c ∧ (mrapi_impl_initialized c = true → me (c_nindex c) (c_dindex c) ≠ me n d).

Inductive other_step (n d : nat) : mrapi_database → mrapi_database → Prop :=
| other_call e c k db db' :
    other_node n d c → call_ok k → k ≠ Finalize →
    (∀ db, other_steps n d db (e_gap e db)) → (∀ i db, other_steps n d db (e_yield e i db)) →
    run_call e c k db = Done (tt, db') →
    other_step n d db db'
with other_steps (n d : nat) : mrapi_database → mrapi_database → Prop :=
| other_refl db : other_steps n d db db
| other_cons db1 db2 db3 : other_step n d db1 db2 → other_steps n d db2 db3 → other_steps n d db1 db3.

Scheme other_step_mut := Minimality for other_step Sort Prop
  with other_steps_mut := Minimality for other_steps Sort Prop.

Lemma other_steps_kept n d db db' : other_steps n d db db' → db_wf db → db_wf db' ∧ kept n d db db'.
Proof.
  apply (other_steps_mut n d (λ db db', db_wf db → db_wf db' ∧ kept n d db db')
    (λ db db', db_wf db → db_wf db' ∧ kept n d db db')).
  - intros e c k d1 d2 [Hc Ho] Hk Hf _ Hg _ Hy Hr Hd. by eapply (leaves_call n d e).
  - done.
  - intros d1 d2 d3 _ H12 _ H23 Hd. destruct (H12 Hd) as [H2 K2]. destruct (H23 H2). split; [done|by etrans].
Qed.

(** *** A mutex that another node holds cannot be locked *)

Section excluded.
Context (n d s : nat) (c : caller) (Hc : caller_wf c) (Hother : me (c_nindex c) (c_dindex c) ≠ me n d).

(** Node [(n, d)] holds mutex [s]. *)
Definition held (db : mrapi_database) : Prop :=
  db_wf db ∧ ∃ x, sems db !! s = Some x ∧ s_valid x = true ∧ s_type x = MUTEX ∧ my_count n d x = 1.
Lemma held_kept db db' : held db → db_wf db' → kept n d db db' → held db'.
Proof.
  intros (Hdb & x & Hx & Hv & Ht & Hn) Hdb' Hk. destruct (Hk s x Hx Hv ltac:(lia)) as (y & Hy & Hvy & Hty & _ & Hny).
  split; [done|]. exists y. split_and!; congruence.
Qed.
Lemma held_entry db x : held db → sems db !! s = Some x →
  sem_wf x ∧ s_valid x = true ∧ s_type x = MUTEX ∧ s_shared_lock_limit x = 1 ∧ s_num_locks x = 1 ∧ my_count n d x = 1.
Proof.
  intros (Hdb & y & Hy & Hv & Ht & Hn) Hx. assert (y = x) as -> by congruence.
  destruct (sem_lookup_wf db Hdb s x Hx) as [_ Hw]. pose proof (wf_mutex x Hw Hv Ht).
  pose proof (num_locks_range x Hw). pose proof (my_count_range x Hw n d). split_and!; done || lia.
Qed.
(** The one slot is the holder's. *)
Lemma held_slot db x lk : held db → sems db !! s = Some x → s_locks x !! 0%nat = Some lk →
  holds_slot0 (c_nindex c) (c_dindex c) lk = false.
Proof.
  intros Hh Hx Hlk. destruct (held_entry db x Hh Hx) as (Hw & _ & _ & Hl & _ & Hn).
  unfold my_count, slots in Hn. rewrite Hl in Hn. destruct (s_locks x) as [|lk0 l]; [done|]. injection Hlk as ->.
  change (countb (is_mine n d) [lk] = 1) in Hn. rewrite countb_cons, countb_nil in Hn.
  destruct (is_mine n d lk) eqn:Hm; [|done]. apply is_mine_inv in Hm as (_ & _ & Hh1).
  unfold holds_slot0. apply not_true_iff_false. intros [H1%Z.eqb_eq H2%Z.eqb_eq]%andb_true_iff.
  apply Hother. rewrite <- Hh1. unfold holder_of, me. congruence.
Qed.

Context (gap : mrapi_database → mrapi_database) (yield : nat → mrapi_database → mrapi_database).
Context (Hg : gap_leaves n d gap) (Hy : yield_leaves n d yield).
Lemma held_gap db f : gap_leaves n d f → held db → held (f db).
Proof. intros Hf Hh. destruct (Hf db (proj1 Hh)). by apply (held_kept db). Qed.

Lemma held_sem_lock fuel mutex timeout st db rc st' db' :
  mrapi_impl_decode_hndl mutex = (s, true) → held db →
  mrapi_impl_sem_lock yield fuel c mutex 1 timeout st db = Done ((rc, st'), db') →
  rc = false ∧ st' ≠ MRAPI_SUCCESS ∧ held db'.
Proof using Hc Hy.
  intros Hm. unfold mrapi_impl_sem_lock. rewrite Hm. cbn [negb]. generalize 0%nat, 0 as time. intros k time.
  revert k time st db. induction fuel as [|fuel IH]; intros k time st db Hh Hrun; [done|].
  pose proof Hh as (Hdb & x & Hx & _). destruct (held_entry db x Hh Hx) as (Hw & Hv & Ht & Hl & Hk & _).
  unfold sem_lock_loop in Hrun; fold sem_lock_loop in Hrun.
  pose proof (acquire_eq c mutex s x db Hc Hm Hx Hw 1 st ltac:(lia)) as Ha. rewrite Hk, Hl in Ha.
  rewrite (bind_done _ _ _ _ _ Ha) in Hrun. cbv beta iota in Hrun.
  change (0 =? 1) with false in Hrun. cbv iota in Hrun.
  apply bind_inv in Hrun as ([] & db1 & [= <-] & Hrun). pose proof (held_gap db (yield k) (Hy k) Hh) as H1.
  destruct (negb (timeout =? MRAPI_TIMEOUT_INFINITE) && (timeout <=? u32 (time + 1))); [|by eapply IH].
  injection Hrun as <- <- <-. split; [done|]. split; [|done]. rewrite Ht. by destruct (timeout =? 1).
Qed.
Lemma held_mutex_lock fuel mutex key timeout st db rc key' st' db' :
  mrapi_impl_decode_hndl mutex = (s, true) → held db →
  mrapi_impl_mutex_lock gap yield fuel c mutex key timeout st db = Done ((rc, key', st'), db') →
  rc = false ∧ key' = key ∧ st' ≠ MRAPI_SUCCESS ∧ held db'.
Proof using Hc Hother Hg Hy.
  intros Hm Hh Hrun. unfold mrapi_impl_mutex_lock in Hrun.
  rewrite (bind_done _ _ _ _ _ (assert_whoami_done c db Hc)), Hm in Hrun.
  pose proof Hh as (Hdb & x & Hx & _).
  rewrite assert_true, (bind_done _ _ _ _ _ (get_sem_done s db x Hx)) in Hrun.
  apply bind_inv in Hrun as (lk & db1 & Hlk & Hrun).
  assert (db1 = db ∧ s_locks x !! 0%nat = Some lk) as [-> Hlk'].
  { destruct (s_locks x !! 0%nat); [by injection Hlk as -> ->|done]. }
  rewrite (held_slot db x lk Hh Hx Hlk'), andb_false_r in Hrun.
  apply bind_inv in Hrun as ([] & db1 & [= <-] & Hrun).
  apply bind_inv in Hrun as ([rc1 st1] & db2 & H1 & [= <- <- <- <-]).
  destruct (held_sem_lock _ _ _ _ _ _ _ _ Hm (held_gap db gap Hg Hh) H1) as (-> & Hst & H2). by split_and!.
Qed.
End excluded.

(** The public functions. *)
Lemma mutex_attempt_fails n d s c gap yield fuel mutex key db :
  caller_ok c → (mrapi_impl_initialized c = true → me (c_nindex c) (c_dindex c) ≠ me n d) →
  gap_leaves n d gap → yield_leaves n d yield → mrapi_impl_decode_hndl mutex = (s, true) → held n d s db →
  (∀ timeout key' st db', mrapi_mutex_lock gap yield fuel c mutex key timeout db = Done ((key', st), db') →
     st ≠ MRAPI_SUCCESS) ∧
  (∀ rc key' st db', mrapi_mutex_trylock gap yield fuel c mutex key db = Done ((rc, key', st), db') → rc = false).
Proof.
  intros Hc Ho Hg Hy Hm Hh. unfold mrapi_mutex_lock, mrapi_mutex_trylock.
  destruct (mrapi_impl_initialized c) eqn:Hi; cbn [negb];
    [|split; [by intros ? ? ? ? [= _ <- _]|by intros ? ? ? ? [= <- _ _ _]]].
  destruct (valid_mutex_hndl_spec mutex db (proj1 Hh)) as (ok & st1 & He & Hok).
  assert (live_lock mutex db) as Hlive by (destruct Hh as (_ & x & Hx & Hv & _); by exists s, x).
  destruct ok; [|done]. split.
  - intros timeout key' st db' Hr. rewrite (bind_done _ _ _ _ _ He) in Hr. cbv beta iota in Hr.
    apply bind_inv in Hr as ([[rc k1] st2] & db2 & H1 & [= _ <- _]).
    by eapply (held_mutex_lock n d s c (Hc Hi) (Ho eq_refl) gap yield Hg Hy).
  - intros rc key' st db' Hr. rewrite (bind_done _ _ _ _ _ He) in Hr. cbv beta iota in Hr.
    by eapply (held_mutex_lock n d s c (Hc Hi) (Ho eq_refl) gap yield Hg Hy).
Qed.
