(* ===== verification/LockTheorems.v ===== *)
(** What the lock functions guarantee: all-or-nothing acquisition, exact
    release, mutual exclusion in every reachable state, termination and
    progress of the blocking lock, and the recursion keys of mutexes. *)

From S2P Require Import Prelude MrapiTypes MrapiHandles MrapiNodes MrapiLocks MrapiMutexRwl MrapiLockApi LockSlots LockSpec LockEntry DbInvariant LockCreate LockSafety NodeSafety LockSystem.

(** ** A concrete system for the witnesses *)

Definition ex_os : os :=
  mk_os 100 7 true true 1 (λ _ _, 5) (λ _, 4096) (λ _, true) (λ _, true).
Definition ex_caller (n : nat) : caller :=
  mk_caller true 100 7 n 0 (Z.of_nat n) 0 (λ s, 1000 + Z.of_nat s).
Definition ex_env : env := mk_env ex_os id (λ _, id) 3.

Definition after {A} (m : M mrapi_database A) (db : mrapi_database) : mrapi_database :=
  match m db with Done (_, db') => db' | Fault _ => db end.
Definition ex_run (c : caller) (k : call) : mrapi_database → mrapi_database :=
  after (run_call ex_env c k).

(** Node 0 creates a mutex, a semaphore with three units and a
    reader-writer lock for two readers; node 1 takes the mutex, two units of
    the semaphore and the write lock. *)
Definition h_mutex : Z := 0x80000000.
Definition h_sem : Z := 0x80000001.
Definition h_rwl : Z := 0x80000002.
Definition ex_calls : list (caller * call) :=
  [(ex_caller 0, MutexCreate 10 (Some (zero_attributes <| recursive := 1 |>)));
   (ex_caller 0, SemCreate 11 None 3);
   (ex_caller 0, RwlCreate 12 None 2);
   (ex_caller 1, MutexLock h_mutex 0 5);
   (ex_caller 1, SemLock h_sem 5);
   (ex_caller 1, SemTrylock h_sem);
   (ex_caller 1, RwlLock h_rwl MRAPI_RWL_WRITER 5)].
Definition ex_runs (l : list (caller * call)) (db : mrapi_database) : mrapi_database :=
  fold_left (λ db ck, ex_run ck.1 ck.2 db) l db.
Definition ex_db : mrapi_database := ex_runs ex_calls zero_db.
Definition ex_entry (s : nat) : mrapi_sem_t := default zero_sem (sems ex_db !! s).

Lemma ex_caller_wf n : (n < 16)%nat → caller_wf (ex_caller n).
Proof. intros Hn. by split_and!; cbn; [| |unfold MRAPI_MAX_NODES|unfold MRAPI_MAX_DOMAINS; lia]. Qed.

Lemma ex_run_steps c k db db' :
  caller_ok c → call_ok k → is_Some (match run_call ex_env c k db with
                                       Done x => Some x | Fault _ => None end) →
  sys_steps db' db → sys_steps db' (ex_run c k db).
Proof.
  intros Hc Hk Hr Hs. unfold ex_run, after.
  destruct (run_call ex_env c k db) as [[[] d]|] eqn:He; [|by destruct Hr].
  clear Hr. induction Hs as [db1|db1 db2 db3 Hstep _ IH].
  - eapply sys_cons; [|apply sys_refl].
    eapply (sys_call ex_env); [done|done|intros; apply sys_refl..|done].
  - eapply sys_cons; eauto.
Qed.

Lemma ex_db_reachable : reachable ex_db.
Proof.
  unfold ex_db, ex_runs, ex_calls, reachable. cbn [fold_left fst snd].
  repeat (apply ex_run_steps;
    [intros _; apply ex_caller_wf; lia|cbn; rewrite ?max_shared_locks; lia || done
    |vm_compute; by eexists|]).
  apply sys_refl.
Qed.

(** ** Safety and mutual exclusion of the whole system *)

(** C1: in every reachable database, every public lock, initialize or
    finalize call of any thread whose parameters are in range ([call_ok]: a
    reader-writer lock is created for 1 to 32 readers, a semaphore with a limit of
    at least 0), interleaved with any such calls of the other
    threads, never fails an assertion and never leaves an array: it either
    finishes in a well-formed reachable database or is still waiting when its
    fuel is used up.  (mrapi_rwl_create accepts more than 32 readers, and then
    writes outside the slots: [rwl_create_overruns].) *)
Theorem lock_calls_are_safe e c k db :
  reachable db → caller_ok c → call_ok k →
  (∀ db, sys_steps db (e_gap e db)) → (∀ i db, sys_steps db (e_yield e i db)) →
  match run_call e c k db with
  | Done (_, db') => reachable db' ∧ db_wf db'
  | Fault f => f = OutOfFuel
  end.
Proof.
  intros Hr Hc Hk Hg Hy. assert (env_wf e) as He.
  { split; [intros d|intros i d]; intros Hd; by eapply sys_steps_wf. }
  pose proof (keeps_call e He c Hc k Hk db (reachable_wf db Hr)) as Hrun. unfold runs in Hrun.
  destruct (run_call e c k db) as [[[] db']|f] eqn:Hd; [|tauto].
  split; [|tauto]. assert (sys_step db db') as Hs by (by eapply sys_call).
  clear Hrun Hd. unfold reachable in *. revert Hs.
  induction Hr as [d|d1 d2 d3 Hd _ IH]; intros Hs.
  - eapply sys_cons; [done|apply sys_refl].
  - eapply sys_cons; [done|]. by apply IH.
Qed.

Lemma lock_calls_are_safe_witness :
  match run_call ex_env (ex_caller 0) (SemUnlock h_sem) ex_db with
  | Done (_, db') => reachable db' ∧ db_wf db'
  | Fault f => f = OutOfFuel
  end.
Proof.
  apply (lock_calls_are_safe ex_env (ex_caller 0) (SemUnlock h_sem) ex_db).
  - exact ex_db_reachable.
  - intros _. apply ex_caller_wf. lia.
  - exact Logic.I.
  - intros db. apply sys_refl.
  - intros i db. apply sys_refl.
Defined.

(** A reader-writer lock for 33 readers. *)
Example rwl_create_overruns : mrapi_rwl_create (ex_caller 0) 99 None 33 ex_db = Fault OutOfBounds.
Proof. vm_compute. reflexivity. Qed.

(** C2: mutual exclusion.  While a node holds a valid mutex, no history of calls
    of the other nodes (of any function but mrapi_finalize, with any interference
    among them) takes it away or lets another node in: the node still holds it, it
    is its only holder, and a lock call of another node, whatever its time-out,
    never reports success (a try-lock answers MRAPI_FALSE). *)
Theorem mutex_mutual_exclusion db db' s x n d :
  reachable db → sems db !! s = Some x → s_valid x = true → s_type x = MUTEX → 0 < my_count n d x →
  other_steps n d db db' →
  (∃ y, sems db' !! s = Some y ∧ s_valid y = true ∧ s_type y = MUTEX ∧ my_count n d y = 1 ∧
     ∀ n' d', 0 < my_count n' d' y → n' = n ∧ d' = d) ∧
  ∀ gap yield fuel c mutex key,
    other_node n d c → (∀ db, other_steps n d db (gap db)) → (∀ i db, other_steps n d db (yield i db)) →
    mrapi_impl_decode_hndl mutex = (s, true) →
    (∀ timeout key' st db'',
       mrapi_mutex_lock gap yield fuel c mutex key timeout db' = Done ((key', st), db'') → st ≠ MRAPI_SUCCESS) ∧
    (∀ rc key' st db'',
       mrapi_mutex_trylock gap yield fuel c mutex key db' = Done ((rc, key', st), db'') → rc = false).
Proof.
  intros Hr Hx Hv Ht Hn Hs. pose proof (reachable_wf db Hr) as Hdb.
  destruct (sem_lookup_wf db Hdb s x Hx) as [_ Hw]. pose proof (wf_mutex x Hw Hv Ht).
  pose proof (num_locks_range x Hw). pose proof (my_count_range x Hw n d).
  assert (held n d s db) as Hh by (split; [done|]; exists x; split_and!; done || lia).
  destruct (other_steps_kept n d db db' Hs Hdb) as [Hdb' Hk]. pose proof (held_kept _ _ _ _ _ Hh Hdb' Hk) as Hh'.
  split.
  - destruct Hh' as (_ & y & Hy & Hvy & Hty & Hny). exists y. split_and!; try done. intros n' d' Hn'.
    destruct (sem_lookup_wf db' Hdb' s y Hy) as [_ Hwy]. pose proof (wf_mutex y Hwy Hvy Hty).
    destruct (decide (me n d = me n' d')) as [He|Hne]; [unfold me in He; simplify_eq; lia|].
    pose proof (entry_two_holders y n d n' d' Hwy Hne). lia.
  - intros gap yield fuel c mutex key [Hc Hother] Hg Hy Hm.
    destruct (mutex_attempt_fails n d s c gap yield fuel mutex key db' Hc Hother
      (λ db1 H1, other_steps_kept n d _ _ (Hg db1) H1) (λ i db1 H1, other_steps_kept n d _ _ (Hy i db1) H1) Hm Hh').
    done.
Qed.

(** Node 1 holds the mutex; node 2 tries to lock it in vain, and then node 0. *)
Definition ex_tried : mrapi_database := ex_run (ex_caller 2) (MutexLock h_mutex 0 3) ex_db.
Lemma ex_run_done c k db :
  (match run_call ex_env c k db with Done _ => true | Fault _ => false end) = true →
  run_call ex_env c k db = Done (tt, ex_run c k db).
Proof. unfold ex_run, after. by destruct (run_call ex_env c k db) as [[[] ?]|]. Qed.
Lemma mutex_mutual_exclusion_witness :
  (∃ y, sems ex_tried !! 0%nat = Some y ∧ my_count 1 0 y = 1) ∧
  ∀ key st db, mrapi_mutex_lock id (λ _, id) 3 (ex_caller 0) h_mutex 0 2 ex_tried = Done ((key, st), db) →
    st ≠ MRAPI_SUCCESS.
Proof.
  destruct (mutex_mutual_exclusion ex_db ex_tried 0 (ex_entry 0) 1 0) as [(y & Hy & _ & _ & Hn & _) Hl].
  - exact ex_db_reachable.
  - vm_compute. reflexivity.
  - vm_compute. reflexivity.
  - vm_compute. reflexivity.
  - vm_compute. reflexivity.
  - eapply other_cons; [|apply other_refl].
    apply (other_call 1 0 ex_env (ex_caller 2) (MutexLock h_mutex 0 3)).
    + split; [intros _; apply ex_caller_wf; lia|]. intros _. vm_compute. discriminate.
    + exact Logic.I.
    + discriminate.
    + intros db. apply other_refl.
    + intros i db. apply other_refl.
    + apply ex_run_done. vm_compute. reflexivity.
  - split; [exists y; exact (conj Hy Hn)|].
    apply (Hl id (λ _, id) 3%nat (ex_caller 0) h_mutex 0); [|intros; apply other_refl..|vm_compute; reflexivity].
    split; [intros _; apply ex_caller_wf; lia|]. intros _. vm_compute. discriminate.
Defined.

(** C3: readers and writers.  In every reachable database, if a node holds
    all the units of a valid entry (a writer of a reader-writer lock), no
    other node holds any, and an attempt of another node to take [k] of them,
    as a reader or as a writer, changes nothing and takes none. *)
Theorem writer_excludes_all db s x n d c k st :
  reachable db → sems db !! s = Some x → s_valid x = true →
  my_count n d x = s_shared_lock_limit x →
  caller_wf c → me (c_nindex c) (c_dindex c) ≠ me n d → 1 <= k →
  my_count (c_nindex c) (c_dindex c) x = 0 ∧
  mrapi_impl_acquire_lock_locked c (mrapi_impl_encode_hndl (Z.of_nat s)) k st db
  = Done ((0, locked_status (s_type x)), db).
Proof.
  intros Hr Hx Hv Hall Hc Hne Hk.
  destruct (sem_lookup_wf db (reachable_wf db Hr) s x Hx) as [Hs Hw].
  pose proof (entry_two_holders x _ _ _ _ Hw Hne) as H2.
  pose proof (my_count_range x Hw n d). pose proof (num_locks_range x Hw).
  pose proof (my_count_range x Hw (c_nindex c) (c_dindex c)).
  split; [lia|]. rewrite (acquire_eq c _ s x db) by (done || by apply decode_sem).
  by destruct (Z.leb_spec (s_num_locks x + k) (s_shared_lock_limit x)); [lia|].
Qed.

Lemma writer_excludes_all_witness :
  my_count 0 0 (ex_entry 2) = 0 ∧
  mrapi_impl_acquire_lock_locked (ex_caller 0) (mrapi_impl_encode_hndl (Z.of_nat 2)) 1
    MRAPI_SUCCESS ex_db
  = Done ((0, locked_status (s_type (ex_entry 2))), ex_db).
Proof.
  apply (writer_excludes_all ex_db 2 (ex_entry 2) 1 0 (ex_caller 0) 1 MRAPI_SUCCESS).
  - exact ex_db_reachable.
  - vm_compute. reflexivity.
  - vm_compute. reflexivity.
  - vm_compute. reflexivity.
  - apply ex_caller_wf. lia.
  - vm_compute. discriminate.
  - lia.
Defined.

(** ** Acquire, release and delete *)

(** C4: acquiring is all or nothing.  On a valid handle,
    [mrapi_impl_acquire_lock_locked] takes exactly [k] units for the caller
    when that many are free, and otherwise takes none, leaves the database
    unchanged and reports that the lock is held; nobody else's units and no
    other entry change. *)
Theorem acquire_all_or_nothing c sem s x k st db :
  caller_wf c → db_wf db → mrapi_impl_decode_hndl sem = (s, true) →
  sems db !! s = Some x → 1 <= k →
  wp (mrapi_impl_acquire_lock_locked c sem k st) (λ r db',
    if bool_decide (Z.of_nat (size (holders x)) + k <= s_shared_lock_limit x)
    then r = (k, MRAPI_SUCCESS) ∧
         ∃ y, db' = upd_sem s (λ _, y) db ∧ sem_wf y ∧
           holders y = holders x ⊎ Z.to_nat k *: {[+ me (c_nindex c) (c_dindex c) +]}
    else r = (0, locked_status (s_type x)) ∧ db' = db) db.
Proof.
  intros Hc Hdb Hs Hx Hk. destruct (sem_lookup_wf db Hdb s x Hx) as [_ Hw].
  pose proof (num_locks_range x Hw). unfold wp. rewrite (acquire_eq c sem s x db) by done.
  rewrite size_holders_num by done. destruct (caller_small c Hc).
  destruct (Z.leb_spec (s_num_locks x + k) (s_shared_lock_limit x)).
  - rewrite bool_decide_eq_true_2 by done. split; [done|]. eexists. split; [done|].
    split; [apply sem_wf_acquired|apply holders_acquired]; done || lia.
  - by rewrite bool_decide_eq_false_2 by lia.
Qed.

Lemma acquire_all_or_nothing_witness :
  wp (mrapi_impl_acquire_lock_locked (ex_caller 0) h_sem 1 MRAPI_SUCCESS) (λ r db',
    if bool_decide (Z.of_nat (size (holders (ex_entry 1))) + 1
                    <= s_shared_lock_limit (ex_entry 1))
    then r = (1, MRAPI_SUCCESS) ∧
         ∃ y, db' = upd_sem 1 (λ _, y) ex_db ∧ sem_wf y ∧
           holders y = holders (ex_entry 1) ⊎ Z.to_nat 1 *: {[+ me 0 0 +]}
    else r = (0, locked_status (s_type (ex_entry 1))) ∧ db' = ex_db) ex_db.
Proof.
  apply (acquire_all_or_nothing (ex_caller 0) h_sem 1 (ex_entry 1) 1 MRAPI_SUCCESS ex_db).
  - apply ex_caller_wf. lia.
  - apply reachable_wf, ex_db_reachable.
  - vm_compute. reflexivity.
  - vm_compute. reflexivity.
  - lia.
Defined.

(** C5: releasing is exact.  [mrapi_impl_release_lock] gives back exactly [k]
    of the caller's units when the caller holds that many; otherwise, and on
    an invalid entry, it leaves the database unchanged and says why. *)
Theorem release_exact c sem s x k st db :
  caller_wf c → db_wf db → mrapi_impl_decode_hndl sem = (s, true) →
  sems db !! s = Some x → 1 <= k < 2 ^ 16 →
  wp (mrapi_impl_release_lock c sem k st) (λ r db',
    if negb (s_valid x) then r = (false, invalid_status (s_type x)) ∧ db' = db
    else if bool_decide
      (k <= Z.of_nat (multiplicity (me (c_nindex c) (c_dindex c)) (holders x)))
    then r = (true, st) ∧
         ∃ y, db' = upd_sem s (λ _, y) db ∧ sem_wf y ∧
           holders x = holders y ⊎ Z.to_nat k *: {[+ me (c_nindex c) (c_dindex c) +]}
    else r = (false, notlocked_status (s_type x)) ∧ db' = db) db.
Proof.
  intros Hc Hdb Hs Hx Hk. destruct (sem_lookup_wf db Hdb s x Hx) as [_ Hw].
  unfold wp. rewrite (release_eq c sem s x db) by done.
  destruct (s_valid x); cbn [negb]; [|done]. rewrite multiplicity_my_count by done.
  destruct (Z.leb_spec k (my_count (c_nindex c) (c_dindex c) x)).
  - rewrite bool_decide_eq_true_2 by done. split; [done|]. eexists. split; [done|].
    split; [apply sem_wf_released|apply holders_released]; done || lia.
  - by rewrite bool_decide_eq_false_2 by lia.
Qed.

Lemma release_exact_witness :
  wp (mrapi_impl_release_lock (ex_caller 1) h_sem 2 MRAPI_SUCCESS) (λ r db',
    if negb (s_valid (ex_entry 1))
    then r = (false, invalid_status (s_type (ex_entry 1))) ∧ db' = ex_db
    else if bool_decide (2 <= Z.of_nat (multiplicity (me 1 0) (holders (ex_entry 1))))
    then r = (true, MRAPI_SUCCESS) ∧
         ∃ y, db' = upd_sem 1 (λ _, y) ex_db ∧ sem_wf y ∧
           holders (ex_entry 1) = holders y ⊎ Z.to_nat 2 *: {[+ me 1 0 +]}
    else r = (false, notlocked_status (s_type (ex_entry 1))) ∧ db' = ex_db) ex_db.
Proof.
  apply (release_exact (ex_caller 1) h_sem 1 (ex_entry 1) 2 MRAPI_SUCCESS ex_db).
  - apply ex_caller_wf. lia.
  - apply reachable_wf, ex_db_reachable.
  - vm_compute. reflexivity.
  - vm_compute. reflexivity.
  - lia.
Defined.

(** Deleting needs the whole lock.  [mrapi_impl_sem_delete] succeeds
    exactly when the caller holds every unit; then a valid entry becomes
    invalid (and stays reserved as deleted under extended error checking),
    and otherwise the database is unchanged. *)
Theorem delete_iff_exclusive c sem s x db :
  caller_wf c → db_wf db → mrapi_impl_decode_hndl sem = (s, true) →
  sems db !! s = Some x →
  let all := my_count (c_nindex c) (c_dindex c) x =? s_shared_lock_limit x in
  wp (mrapi_impl_sem_delete c sem) (λ ok db',
    ok = all ∧
    if all && s_valid x
    then ∃ y, db' = upd_sem s (λ _, y) db ∧ s_valid y = false ∧ s_locks y = s_locks x ∧
         (s_deleted y = true ↔
          ext_error_checking (s_attributes x) = MRAPI_TRUE ∨ s_deleted x = true)
    else db' = db) db.
Proof.
  intros Hc Hdb Hs Hx all. destruct (sem_lookup_wf db Hdb s x Hx) as [_ Hw].
  unfold wp. rewrite (delete_eq c sem s x db) by done. fold all. split; [done|].
  destruct (all && s_valid x); [|done]. exists (deleted x).
  split; [by apply (upd_sem_at s deleted _ db x)|]. split_and!; [done..|].
  cbn. destruct (Z.eqb_spec (ext_error_checking (s_attributes x)) MRAPI_TRUE); tauto.
Qed.

Lemma delete_iff_exclusive_witness :
  let all := my_count 1 0 (ex_entry 2) =? s_shared_lock_limit (ex_entry 2) in
  wp (mrapi_impl_sem_delete (ex_caller 1) h_rwl) (λ ok db',
    ok = all ∧
    if all && s_valid (ex_entry 2)
    then ∃ y, db' = upd_sem 2 (λ _, y) ex_db ∧ s_valid y = false ∧
         s_locks y = s_locks (ex_entry 2) ∧
         (s_deleted y = true ↔
          ext_error_checking (s_attributes (ex_entry 2)) = MRAPI_TRUE ∨
          s_deleted (ex_entry 2) = true)
    else db' = ex_db) ex_db.
Proof.
  apply (delete_iff_exclusive (ex_caller 1) h_rwl 2 (ex_entry 2) ex_db).
  - apply ex_caller_wf. lia.
  - apply reachable_wf, ex_db_reachable.
  - vm_compute. reflexivity.
  - vm_compute. reflexivity.
Defined.

(** C6: refinement of the counting lock.  Any history of acquire and release
    calls by any nodes on a valid entry runs to the end; the entry keeps its
    limit, never has more units out than the limit, and every node ends with
    the units it had, plus its successful acquisitions, minus its successful
    releases. *)
Theorem lock_histories_conserve s os db :
  entry_wf s db → Forall (@cl_op_ok _ _ _ _ _ (entry_lock s)) os →
  wp (cl_run (L := entry_lock s) os) (λ bs db',
    entry_wf s db' ∧ entry_limit s db' = entry_limit s db ∧
    Z.of_nat (size (entry_holders s db')) <= entry_limit s db ∧
    ∀ h, Z.of_nat (multiplicity h (entry_holders s db'))
         = Z.of_nat (multiplicity h (entry_holders s db))
           + cl_balance (L := entry_lock s) h os bs) db.
Proof.
  intros Hdb Hos. eapply wp_mono; [by apply (cl_run_spec (L := entry_lock s))|].
  intros bs db' (Hdb' & Hl & Hm). split_and!; [done|done| |done].
  change (entry_limit s db' = entry_limit s db) in Hl. rewrite <- Hl.
  exact (cl_bounded (CountingLock := entry_lock s) db' Hdb').
Qed.

Definition ex_history : list (@cl_op caller) :=
  [Release (ex_caller 1) 1; Acquire (ex_caller 2) 2; Acquire (ex_caller 3) 1].
Lemma lock_histories_conserve_witness :
  wp (cl_run (L := entry_lock 1) ex_history) (λ bs db',
    entry_wf 1 db' ∧ entry_limit 1 db' = entry_limit 1 ex_db ∧
    Z.of_nat (size (entry_holders 1 db')) <= entry_limit 1 ex_db ∧
    ∀ h, Z.of_nat (multiplicity h (entry_holders 1 db'))
         = Z.of_nat (multiplicity h (entry_holders 1 ex_db))
           + cl_balance (L := entry_lock 1) h ex_history bs) ex_db.
Proof.
  apply (lock_histories_conserve 1 ex_history ex_db).
  - split; [apply reachable_wf, ex_db_reachable|].
    exists (ex_entry 1). split; vm_compute; reflexivity.
  - repeat constructor; try apply ex_caller_wf; lia.
Defined.

(** ** The blocking lock *)

(** Progress.  If the other nodes leave enough free units for the first
    time before attempt [k], and the timeout allows that many attempts (or is
    infinite), [mrapi_impl_sem_lock] returns success there, having taken the
    units, and nothing else of the database changed since. *)
Theorem sem_lock_acquires yield fuel c sem s num timeout st db k :
  yield_wf yield → caller_wf c → sem_hndl sem s → db_wf db → 1 <= num →
  (timeout = MRAPI_TIMEOUT_INFINITE ∨ (k < max_attempts timeout)%nat ∧ timeout < 2 ^ 32) →
  (k < fuel)%nat →
  (∀ i, (i < k)%nat → fits s num (interfered yield db i) = false) →
  fits s num (interfered yield db k) = true →
  mrapi_impl_sem_lock yield fuel c sem num timeout st db
  = Done ((true, MRAPI_SUCCESS), take_units c s num (interfered yield db k)).
Proof.
  intros Hy Hc Hs Hdb Hnum Ht Hk Hno Hyes. unfold mrapi_impl_sem_lock.
  rewrite (proj1 Hs). cbn [negb].
  apply (loop_acquires yield Hy c Hc sem s Hs num Hnum timeout db Hdb k fuel 0 0 st);
    [done| | |done].
  - unfold max_attempts in Ht. destruct Ht as [->|[Ht ?]]; [by left|right]. lia.
  - intros i Hi. apply Hno. lia.
Qed.

(** The holder of the mutex releases it at the second yield. *)
Definition ex_release : nat → mrapi_database → mrapi_database := λ k,
  if (k =? 1)%nat then ex_run (ex_caller 1) (MutexUnlock h_mutex 0) else id.
Lemma ex_env_wf : env_wf ex_env.
Proof. split; [intros d Hd; exact Hd|intros k d Hd; exact Hd]. Qed.
Lemma ex_release_wf : yield_wf ex_release.
Proof.
  intros k db Hdb. unfold ex_release. destruct (k =? 1)%nat; [|done].
  pose proof (keeps_call ex_env ex_env_wf (ex_caller 1)
    (λ _, ex_caller_wf 1 ltac:(lia)) (MutexUnlock h_mutex 0) Logic.I db Hdb) as Hr.
  unfold runs in Hr. unfold ex_run, after.
  destruct (run_call ex_env (ex_caller 1) (MutexUnlock h_mutex 0) db) as [[u d]|];
    [apply Hr|done].
Qed.
Lemma sem_lock_acquires_witness :
  mrapi_impl_sem_lock ex_release 3 (ex_caller 2) h_mutex 1 4 MRAPI_SUCCESS ex_db
  = Done ((true, MRAPI_SUCCESS), take_units (ex_caller 2) 0 1 (interfered ex_release ex_db 2)).
Proof.
  apply (sem_lock_acquires ex_release 3 (ex_caller 2) h_mutex 0 1 4 MRAPI_SUCCESS ex_db 2).
  - exact ex_release_wf.
  - apply ex_caller_wf. lia.
  - split; [vm_compute; reflexivity|rewrite max_sems; lia].
  - apply reachable_wf, ex_db_reachable.
  - lia.
  - right. split; [vm_compute; lia|lia].
  - lia.
  - intros [|[|i]] Hi; [vm_compute; reflexivity..|lia].
  - vm_compute. reflexivity.
Defined.

(** Timeouts.  With a finite timeout the lock makes at most
    [max timeout 1] attempts: when none of them finds enough free units it
    returns failure after the last, with the lock-type's "locked" status for
    a try-lock (timeout 1) and [MRAPI_TIMEOUT] otherwise, and it has not
    changed the database itself. *)
Theorem sem_lock_times_out yield fuel c sem s num timeout st db :
  yield_wf yield → caller_wf c → sem_hndl sem s → db_wf db → 1 <= num →
  0 <= timeout < MRAPI_TIMEOUT_INFINITE → (max_attempts timeout <= fuel)%nat →
  (∀ i, (i < max_attempts timeout)%nat → fits s num (interfered yield db i) = false) →
  mrapi_impl_sem_lock yield fuel c sem num timeout st db
  = Done ((false, if timeout =? 1 then locked_status (entry_type s db) else MRAPI_TIMEOUT),
          interfered yield db (max_attempts timeout)).
Proof.
  intros Hy Hc Hs Hdb Hnum Ht Hfuel Hno. unfold mrapi_impl_sem_lock.
  rewrite (proj1 Hs). cbn [negb].
  apply (loop_times_out yield Hy c Hc sem s Hs num Hnum timeout db Hdb
    (max_attempts timeout) fuel 0 st Ht); [unfold max_attempts; lia|done|done|].
  intros i Hi. apply Hno. lia.
Qed.

Lemma sem_lock_times_out_witness :
  mrapi_impl_sem_lock (λ _, id) 1 (ex_caller 2) h_mutex 1 1 MRAPI_SUCCESS ex_db
  = Done ((false, if 1 =? 1 then locked_status (entry_type 0 ex_db) else MRAPI_TIMEOUT),
          interfered (λ _, id) ex_db (max_attempts 1)).
Proof.
  apply (sem_lock_times_out (λ _, id) 1 (ex_caller 2) h_mutex 0 1 1 MRAPI_SUCCESS ex_db).
  - by intros k db Hdb.
  - apply ex_caller_wf. lia.
  - split; [vm_compute; reflexivity|rewrite max_sems; lia].
  - apply reachable_wf, ex_db_reachable.
  - lia.
  - unfold MRAPI_TIMEOUT_INFINITE. lia.
  - vm_compute. lia.
  - intros [|i] Hi; [vm_compute; reflexivity|vm_compute in Hi; lia].
Defined.

(** C36: termination.  With any finite timeout and any interference that
    keeps the database well formed, [max timeout 1] iterations are enough for
    the lock to return, and success is reported exactly when it returns
    [MRAPI_TRUE]. *)
Theorem sem_lock_terminates yield fuel c sem s num timeout st db :
  yield_wf yield → caller_wf c → sem_hndl sem s → db_wf db → 1 <= num →
  0 <= timeout < MRAPI_TIMEOUT_INFINITE → (max_attempts timeout <= fuel)%nat →
  wp (mrapi_impl_sem_lock yield fuel c sem num timeout st)
    (λ r _, r.1 = true ↔ r.2 = MRAPI_SUCCESS) db.
Proof.
  intros Hy Hc Hs Hdb Hnum Ht Hfuel. unfold mrapi_impl_sem_lock.
  rewrite (proj1 Hs). cbn [negb].
  destruct (first_true (λ i, fits s num (interfered yield db i)) (max_attempts timeout))
    as [(k & Hk & Hyes & Hno)|Hno].
  - eapply wp_intro; [apply (loop_acquires yield Hy c Hc sem s Hs num Hnum timeout db Hdb
      k fuel 0 0 st); [lia| |intros; apply Hno; lia|done]|done].
    right. unfold max_attempts, MRAPI_TIMEOUT_INFINITE in *. lia.
  - eapply wp_intro; [apply (loop_times_out yield Hy c Hc sem s Hs num Hnum timeout db Hdb
      (max_attempts timeout) fuel 0 st Ht); [unfold max_attempts; lia|done|done|]|].
    + intros i Hi. apply Hno. lia.
    + split; [done|]. cbn. case_match; [by destruct (entry_type s db)|done].
Qed.

Lemma sem_lock_terminates_witness :
  wp (mrapi_impl_sem_lock ex_release 9 (ex_caller 2) h_mutex 1 9 MRAPI_SUCCESS)
    (λ r _, r.1 = true ↔ r.2 = MRAPI_SUCCESS) ex_db.
Proof.
  apply (sem_lock_terminates ex_release 9 (ex_caller 2) h_mutex 0 1 9 MRAPI_SUCCESS ex_db).
  - exact ex_release_wf.
  - apply ex_caller_wf. lia.
  - split; [vm_compute; reflexivity|rewrite max_sems; lia].
  - apply reachable_wf, ex_db_reachable.
  - lia.
  - unfold MRAPI_TIMEOUT_INFINITE. lia.
  - vm_compute. lia.
Defined.
