(* ===== verification/MutexTheorems.v ===== *)
(** Recursive mutexes: the keys that [mrapi_mutex_lock] hands out and
    [mrapi_mutex_unlock] takes back. *)

From S2P Require Import Prelude MrapiTypes MrapiHandles MrapiNodes MrapiLocks MrapiMutexRwl MrapiLockApi LockSlots LockSpec LockEntry DbInvariant LockCreate LockSafety NodeSafety LockSystem LockTheorems.

(** The caller holds the mutex [x], whose slot 0 is [lk]. *)
Record holds_mutex (c : caller) (x : mrapi_sem_t) (lk : mrapi_lock_t) : Prop := {
  hm_slot : s_locks x !! 0%nat = Some lk;
  hm_locked : lk_locked lk = true;
  hm_mine : holds_slot0 (c_nindex c) (c_dindex c) lk = true;
  hm_key : 0 <= lk_key lk < 2 ^ 32 }.

Lemma with_key_twice k k' x : with_key k (with_key k' x) = with_key k x.
Proof. unfold with_key. destruct x as [? ? [|lk ls]]; cbn; by destruct lk || done. Qed.
Lemma with_key_same x lk : s_locks x !! 0%nat = Some lk → with_key (lk_key lk) x = x.
Proof.
  unfold with_key. destruct x as [? ? [|lk' ls]]; cbn; [done|]. intros [= ->]. by destruct lk.
Qed.
Lemma holds_mutex_with_key c x lk k :
  holds_mutex c x lk → 0 <= k < 2 ^ 32 → holds_mutex c (with_key k x) (lk <| lk_key := k |>).
Proof.
  intros [Hs Hl Hm _] Hk. split; try done. cbn. by rewrite list_lookup_alter_eq, Hs.
Qed.

Section held.
Context (c : caller) (Hc : caller_wf c) (mutex : Z) (s : nat).
Context (Hmutex : mrapi_impl_decode_hndl mutex = (s, true)).
Context (db : mrapi_database) (x : mrapi_sem_t) (lk : mrapi_lock_t).
Context (Hx : sems db !! s = Some x) (Hlk : holds_mutex c x lk).

Lemma set_lock_key_done k : set_lock_key s k db = Done (tt, upd_sem s (with_key k) db).
Proof. by apply (modify_sem_done s _ db x). Qed.

(** Locking a mutex that the caller already holds. *)
Lemma relock_eq gap yield fuel key timeout st :
  mrapi_impl_mutex_lock gap yield fuel c mutex key timeout st db
  = if recursive (s_attributes x) =? MRAPI_TRUE
    then Done ((true, i32 (u32 (lk_key lk + 1)), st),
               gap (upd_sem s (with_key (u32 (lk_key lk + 1))) db))
    else Done ((false, key, st), db).
Proof.
  destruct Hlk as [Hs Hl Hm Hk]. unfold mrapi_impl_mutex_lock.
  rewrite (bind_done _ _ _ _ _ (assert_whoami_done c db Hc)), Hmutex.
  erewrite bind_done by reflexivity.
  rewrite (bind_done _ _ _ _ _ (get_sem_done s db x Hx)), Hs.
  erewrite bind_done by reflexivity. rewrite Hl, Hm. cbn [andb].
  case_match; [|done]. by rewrite (bind_done _ _ _ _ _ (set_lock_key_done _)).
Qed.

(** Unlocking with the key of the innermost recursive lock. *)
Lemma unlock_inner_eq gap st :
  lk_key lk ≠ 0 →
  mrapi_impl_mutex_unlock gap c mutex (lk_key lk) st db
  = Done ((true, st), gap (upd_sem s (with_key (lk_key lk - 1)) db)).
Proof.
  intros Hne. destruct Hlk as [Hs Hl Hm Hk]. unfold mrapi_impl_mutex_unlock.
  rewrite (bind_done _ _ _ _ _ (assert_whoami_done c db Hc)), Hmutex.
  erewrite bind_done by reflexivity.
  rewrite (bind_done _ _ _ _ _ (get_sem_done s db x Hx)), Hs.
  erewrite bind_done by reflexivity.
  rewrite Hm, (u32_small (lk_key lk)), Z.eqb_refl by done.
  destruct (Z.eqb_spec (lk_key lk) 0); [done|]. cbn [andb negb].
  rewrite (bind_done _ _ _ _ _ (set_lock_key_done _)), (u32_small (lk_key lk - 1)) by lia.
  done.
Qed.

(** Unlocking with any other key. *)
Lemma unlock_other_eq gap key st :
  u32 key ≠ lk_key lk ∨ key = 0 →
  mrapi_impl_mutex_unlock gap c mutex key st db
  = if u8 (lk_key lk) =? 0 then mrapi_impl_release_lock c mutex 1 st (gap db)
    else Done ((false, MRAPI_ERR_MUTEX_LOCKORDER), gap db).
Proof.
  intros Hkey. destruct Hlk as [Hs Hl Hm Hk]. unfold mrapi_impl_mutex_unlock.
  rewrite (bind_done _ _ _ _ _ (assert_whoami_done c db Hc)), Hmutex.
  erewrite bind_done by reflexivity.
  rewrite (bind_done _ _ _ _ _ (get_sem_done s db x Hx)), Hs.
  erewrite bind_done by reflexivity. rewrite Hm.
  assert ((u32 key =? lk_key lk) && negb (key =? 0) = false) as Hf.
  { destruct Hkey as [Hne| ->]; [|by rewrite andb_false_r].
    by destruct (Z.eqb_spec (u32 key) (lk_key lk)). }
  rewrite <- andb_assoc, Hf. cbn [andb negb]. erewrite bind_done by reflexivity.
  erewrite bind_done by reflexivity.
  destruct (u8 (lk_key lk) =? 0); cbn [negb andb]; [|done].
  unfold bind. destruct (mrapi_impl_release_lock c mutex 1 st (gap db)) as [[[rc st'] d]|];
    [|done]. unfold ret. by rewrite andb_false_r.
Qed.
End held.

(** ** Examples for the witnesses: node 1 locks its mutex again. *)

Definition ex_lk0 : mrapi_lock_t := default zero_lock (s_locks (ex_entry 0) !! 0%nat).
Lemma ex_holds : holds_mutex (ex_caller 1) (ex_entry 0) ex_lk0.
Proof. split; [vm_compute; reflexivity..|vm_compute; by split]. Qed.

(** The mutex after node 1 locked it [k] more times. *)
Definition ex_nested (k : Z) : mrapi_database := upd_sem 0 (with_key k) ex_db.
Definition ex_nested_entry (k : Z) : mrapi_sem_t := with_key k (ex_entry 0).

(** Recursive locks nest.  When the caller holds a recursive mutex,
    [mrapi_mutex_lock] succeeds at once with the next key, and unlocking with
    that key restores the database as it was. *)
Theorem mutex_relock_roundtrip c mutex s db x lk yield fuel key timeout st st' :
  caller_wf c → mrapi_impl_decode_hndl mutex = (s, true) → sems db !! s = Some x →
  holds_mutex c x lk → recursive (s_attributes x) = MRAPI_TRUE → lk_key lk + 1 < 2 ^ 31 →
  (let* (rc, key', _) := mrapi_impl_mutex_lock id yield fuel c mutex key timeout st in
   let* (rc', st'') := mrapi_impl_mutex_unlock id c mutex key' st' in
   ret (rc, key', rc', st'')) db
  = Done ((true, lk_key lk + 1, true, st'), db).
Proof.
  intros Hc Hm Hx Hlk Hr Hk. pose proof (hm_key c x lk Hlk) as Hk0.
  erewrite bind_done; [|by erewrite (relock_eq c Hc mutex s Hm db x lk Hx Hlk), Hr].
  rewrite (u32_small (lk_key lk + 1)), i32_small by lia. cbn beta iota. unfold id at 2.
  set (db1 := upd_sem s (with_key (lk_key lk + 1)) db).
  pose proof (lookup_upd_sem_eq s (with_key (lk_key lk + 1)) db x Hx) as Hx1.
  pose proof (holds_mutex_with_key c x lk (lk_key lk + 1) Hlk ltac:(lia)) as Hlk1.
  pose proof (unlock_inner_eq c Hc mutex s Hm db1 _ _ Hx1 Hlk1 id st' ltac:(cbn; lia)) as He.
  cbn [lk_key set_field] in He. change (lk_key (lk <| lk_key := lk_key lk + 1 |>))
    with (lk_key lk + 1) in He.
  erewrite bind_done by exact He. unfold ret, id, db1. do 2 f_equal.
  rewrite upd_sem_twice. replace (lk_key lk + 1 - 1) with (lk_key lk) by lia.
  rewrite (upd_sem_at s _ x db x Hx).
  - by apply upd_sem_same.
  - rewrite with_key_twice. apply with_key_same, Hlk.
Qed.

Lemma mutex_relock_roundtrip_witness :
  (let* (rc, key', _) := mrapi_impl_mutex_lock id (λ _, id) 1 (ex_caller 1) h_mutex 9 5 MRAPI_SUCCESS in
   let* (rc', st'') := mrapi_impl_mutex_unlock id (ex_caller 1) h_mutex key' MRAPI_SUCCESS in
   ret (rc, key', rc', st'')) ex_db
  = Done ((true, lk_key ex_lk0 + 1, true, MRAPI_SUCCESS), ex_db).
Proof.
  apply (mutex_relock_roundtrip (ex_caller 1) h_mutex 0 ex_db (ex_entry 0) ex_lk0).
  - apply ex_caller_wf. lia.
  - vm_compute. reflexivity.
  - vm_compute. reflexivity.
  - exact ex_holds.
  - vm_compute. reflexivity.
  - vm_compute. reflexivity.
Defined.

(** Lock order.  While recursive locks are outstanding, unlocking with
    any other key than the innermost one fails with
    [MRAPI_ERR_MUTEX_LOCKORDER] and changes nothing, as long as the number of
    recursive locks is not a multiple of 256. *)
Theorem mutex_unlock_lock_order c mutex s db x lk gap key st :
  caller_wf c → mrapi_impl_decode_hndl mutex = (s, true) → sems db !! s = Some x →
  holds_mutex c x lk → u8 (lk_key lk) ≠ 0 → (u32 key ≠ lk_key lk ∨ key = 0) →
  mrapi_impl_mutex_unlock gap c mutex key st db
  = Done ((false, MRAPI_ERR_MUTEX_LOCKORDER), gap db).
Proof.
  intros Hc Hm Hx Hlk H8 Hkey.
  rewrite (unlock_other_eq c Hc mutex s Hm db x lk Hx Hlk) by done.
  by destruct (Z.eqb_spec (u8 (lk_key lk)) 0).
Qed.

Lemma mutex_unlock_lock_order_witness :
  mrapi_impl_mutex_unlock id (ex_caller 1) h_mutex 1 MRAPI_SUCCESS (ex_nested 2)
  = Done ((false, MRAPI_ERR_MUTEX_LOCKORDER), ex_nested 2).
Proof.
  apply (mutex_unlock_lock_order (ex_caller 1) h_mutex 0 (ex_nested 2) (ex_nested_entry 2)
    (ex_lk0 <| lk_key := 2 |>) id 1 MRAPI_SUCCESS).
  - apply ex_caller_wf. lia.
  - vm_compute. reflexivity.
  - vm_compute. reflexivity.
  - apply holds_mutex_with_key; [exact ex_holds|lia].
  - vm_compute. discriminate.
  - left. vm_compute. discriminate.
Defined.

(** The lock-order check looks at the low eight bits of the key only:
    after a multiple of 256 recursive locks, unlocking with a wrong key
    releases the mutex altogether and reports success. *)
Theorem mutex_unlock_key_wraps c mutex s db x lk key :
  caller_wf c → db_wf db → mrapi_impl_decode_hndl mutex = (s, true) →
  sems db !! s = Some x → s_valid x = true → s_type x = MUTEX →
  holds_mutex c x lk → u8 (lk_key lk) = 0 → (u32 key ≠ lk_key lk ∨ key = 0) →
  wp (mrapi_impl_mutex_unlock id c mutex key MRAPI_SUCCESS) (λ r db',
    r = (true, MRAPI_SUCCESS) ∧
    ∃ y, sems db' !! s = Some y ∧ holders x = {[+ me (c_nindex c) (c_dindex c) +]} ∧
      holders y = ∅) db.
Proof.
  intros Hc Hdb Hm Hx Hv Ht Hlk H8 Hkey. destruct (sem_lookup_wf db Hdb s x Hx) as [_ Hw].
  pose proof (wf_mutex x Hw Hv Ht) as Hl. pose proof (num_locks_range x Hw) as Hn.
  assert (my_count (c_nindex c) (c_dindex c) x = 1) as Hmine.
  { pose proof (my_count_range x Hw (c_nindex c) (c_dindex c)).
    pose proof (wf_slots x Hw) as Hs. destruct Hlk as [Hslot Hlock Hh _].
    unfold my_count, slots in *. rewrite Hl in *.
    destruct (s_locks x) as [|lk' ls]; [done|]. injection Hslot as ->.
    change (take (Z.to_nat 1) (lk :: ls)) with [lk] in *. inversion Hs as [|? ? Hvl]; subst.
    rewrite countb_cons. unfold is_mine, holds_slot0 in *. rewrite Hvl, Hlock. cbn [andb].
    by rewrite Hh. }
  unfold wp. rewrite (unlock_other_eq c Hc mutex s Hm db x lk Hx Hlk) by done.
  rewrite H8. cbn [Z.eqb]. unfold id.
  rewrite (release_eq c mutex s x db), Hv, Hmine by (done || lia). cbn [negb Z.leb Z.compare].
  split; [done|]. eexists. split; [by eapply lookup_upd_sem_eq|].
  pose proof (holders_released x Hw (c_nindex c) (c_dindex c) 1 ltac:(lia)) as Hh.
  pose proof (size_holders_num x Hw) as Hsz.
  pose proof (my_count_range x Hw (c_nindex c) (c_dindex c)).
  change (Z.to_nat 1) with 1%nat in Hh. rewrite gmultiset_scalar_mul_1 in Hh.
  assert (holders (released (c_nindex c) (c_dindex c) 1 x) = ∅) as He.
  { apply gmultiset_size_empty_iff. rewrite Hh, gmultiset_size_disj_union,
      gmultiset_size_singleton in Hsz. lia. }
  split; [|done]. rewrite Hh, He. multiset_solver.
Qed.

Lemma mutex_unlock_key_wraps_witness :
  wp (mrapi_impl_mutex_unlock id (ex_caller 1) h_mutex 7 MRAPI_SUCCESS) (λ r db',
    r = (true, MRAPI_SUCCESS) ∧
    ∃ y, sems db' !! 0%nat = Some y ∧ holders (ex_nested_entry 256) = {[+ me 1 0 +]} ∧
      holders y = ∅) (ex_nested 256).
Proof.
  apply (mutex_unlock_key_wraps (ex_caller 1) h_mutex 0 (ex_nested 256) (ex_nested_entry 256)
    (ex_lk0 <| lk_key := 256 |>) 7).
  - apply ex_caller_wf. lia.
  - apply db_wf_upd_sem; [apply reachable_wf, ex_db_reachable|]. auto.
  - vm_compute. reflexivity.
  - vm_compute. reflexivity.
  - vm_compute. reflexivity.
  - vm_compute. reflexivity.
  - apply holds_mutex_with_key; [exact ex_holds|lia].
  - vm_compute. reflexivity.
  - left. vm_compute. discriminate.
Defined.

(** Locking a non-recursive mutex that the caller already holds does not
    lock it again and does not wait, but [mrapi_mutex_lock] reports
    [MRAPI_SUCCESS]; the database is unchanged. *)
Theorem mutex_relock_nonrecursive c mutex s db x lk gap yield fuel key timeout :
  caller_wf c → db_wf db → mrapi_impl_decode_hndl mutex = (s, true) →
  sems db !! s = Some x → s_valid x = true → holds_mutex c x lk →
  recursive (s_attributes x) ≠ MRAPI_TRUE →
  mrapi_mutex_lock gap yield fuel c mutex key timeout db = Done ((key, MRAPI_SUCCESS), db).
Proof.
  intros Hc Hdb Hm Hx Hv Hlk Hr. unfold mrapi_mutex_lock.
  rewrite caller_wf_initialized by done. cbn [negb].
  assert (mrapi_impl_valid_mutex_hndl mutex db = Done ((true, MRAPI_SUCCESS), db)) as Hval.
  { unfold mrapi_impl_valid_mutex_hndl, mrapi_impl_valid_lock_hndl. rewrite Hm. cbn [negb orb].
    destruct (sem_lookup_wf db Hdb s x Hx) as [Hs _].
    destruct (Nat.leb_spec MRAPI_MAX_SEMS s); [lia|]. unfold bind at 1 2.
    by rewrite (get_sem_done s db x Hx), Hv. }
  rewrite (bind_done _ _ _ _ _ Hval). cbn beta iota.
  erewrite bind_done; [|by rewrite (relock_eq c Hc mutex s Hm db x lk Hx Hlk),
    (proj2 (Z.eqb_neq _ _) Hr)]. done.
Qed.

(** The example mutex without the recursive attribute. *)
Definition ex_plain : mrapi_sem_t → mrapi_sem_t := λ x,
  x <| s_attributes ::= λ a, a <| recursive := MRAPI_FALSE |> |>.
Lemma mutex_relock_nonrecursive_witness :
  mrapi_mutex_lock id (λ _, id) 1 (ex_caller 1) h_mutex 9 5 (upd_sem 0 ex_plain ex_db)
  = Done ((9, MRAPI_SUCCESS), upd_sem 0 ex_plain ex_db).
Proof.
  apply (mutex_relock_nonrecursive (ex_caller 1) h_mutex 0 (upd_sem 0 ex_plain ex_db)
    (ex_plain (ex_entry 0)) ex_lk0 id (λ _, id) 1 9 5).
  - apply ex_caller_wf. lia.
  - apply db_wf_upd_sem; [apply reachable_wf, ex_db_reachable|].
    intros x _. apply sem_wf_attributes.
  - vm_compute. reflexivity.
  - vm_compute. reflexivity.
  - vm_compute. reflexivity.
  - destruct ex_holds. by split.
  - vm_compute. discriminate.
Defined.
