(* ===== verification/CreateTheorems.v ===== *)
(** Creating and looking up locks: every branch of [mrapi_sem_create], and
    what [mrapi_sem_get] finds. *)

From S2P Require Import Prelude MrapiTypes MrapiHandles MrapiNodes MrapiLocks MrapiMutexRwl MrapiLockApi LockSlots LockSpec LockEntry DbInvariant LockCreate LockSafety NodeSafety LockSystem LockTheorems.

(** Two valid entries have different keys. *)
Definition keys_unique (db : mrapi_database) : Prop :=
  ∀ i j x y, sems db !! i = Some x → sems db !! j = Some y →
    s_valid x = true → s_valid y = true → s_key x = s_key y → i = j.

Lemma sems_add_lock c s y db x :
  sems db !! s = Some x → sems (add_lock c s y db) = <[s := y]> (sems db).
Proof.
  intros Hx. apply list_eq. intros i. unfold add_lock. rewrite lookup_upd_sem.
  cbn. rewrite list_lookup_insert. case_decide; subst.
  - rewrite Hx, decide_True; [done|]. split; [done|]. by eapply lookup_lt_Some.
  - by rewrite decide_False by tauto.
Qed.

Lemma keys_unique_insert s y db x :
  sems db !! s = Some x → (∀ z, z ∈ sems db → s_valid z = true → s_key z ≠ s_key y) →
  keys_unique db →
  ∀ db', sems db' = <[s := y]> (sems db) → keys_unique db'.
Proof.
  intros Hx Hnew Hu db' Hs i j a b. rewrite Hs, !list_lookup_insert.
  repeat case_decide; intros; simplify_eq; try lia; try (by eapply Hu; eauto).
  - exfalso. destruct (Hnew b); [by eapply list_elem_of_lookup_2|done|congruence].
  - exfalso. destruct (Hnew a); [by eapply list_elem_of_lookup_2|done|congruence].
Qed.

Lemma live_lock_add c s y db x :
  (s < MRAPI_MAX_SEMS)%nat → sems db !! s = Some x → s_valid y = true →
  live_lock (mrapi_impl_encode_hndl (Z.of_nat s)) (add_lock c s y db).
Proof.
  intros Hs Hx Hv. exists s, y. split; [by apply decode_sem|]. split; [|done].
  by eapply (lookup_upd_sem_eq s (λ _, y)).
Qed.

(** Every branch of [mrapi_sem_create].  A limit of 0 or above 32 and an
    existing key are refused, as is a full table, without touching the
    database; otherwise the first free entry becomes a valid semaphore with
    the requested key and limit, no holder and one reference, the returned
    handle names it, no other entry changes, and keys stay unique. *)
Theorem sem_create_branches c id attrs limit db :
  caller_wf c → db_wf db → 0 <= limit →
  wp (mrapi_sem_create c id attrs limit) (λ r db',
    let '(h, st) := r in
    if (limit =? 0) || (32 <? limit) then (h, st) = (0, MRAPI_ERR_SEM_LOCKLIMIT) ∧ db' = db
    else
      (any_key id = false ∧ key_taken id db ∧ st = MRAPI_ERR_SEM_EXISTS ∧ db' = db) ∨
      (any_key id = true ∨ ¬ key_taken id db) ∧
      (no_free db ∧ st = MRAPI_ERR_SEM_LIMIT ∧ db' = db ∨
       ∃ s y, first_free s db ∧ h = mrapi_impl_encode_hndl (Z.of_nat s) ∧
         st = MRAPI_SUCCESS ∧ live_lock h db' ∧ sems db' = <[s := y]> (sems db) ∧
         s_key y = stored_key c id s ∧ s_shared_lock_limit y = limit ∧ s_type y = SEM ∧
         s_refs y = 1 ∧ holders y = ∅ ∧ db_wf db' ∧
         (any_key id = false → keys_unique db → keys_unique db'))) db.
Proof.
  intros Hc Hdb Hl. unfold mrapi_sem_create.
  rewrite caller_wf_initialized by done. cbn [negb mrapi_impl_sem_validID].
  rewrite max_shared_locks. case_match eqn:Hlim; [by apply wp_ret|].
  apply orb_false_iff in Hlim as [?%Z.eqb_neq ?%Z.ltb_ge].
  apply wp_bind. destruct (sem_create_spec c 0 id attrs limit db) as (r & db' & Hr & Ho);
    [done|done|lia|]. eapply wp_intro; [done|].
  assert (db_wf db') as Hdb' by (by eapply lock_create_outcome_wf; [..|done]; [|lia|]).
  destruct Ho as [Ha Ht|Hn Hf|s Hn Hf Hs]; cbn beta iota; apply wp_ret.
  - left. done.
  - right. split; [done|]. by left.
  - right. split; [done|]. right. pose proof Hf as [(x & Hx & _) _].
    exists s, (new_lock c id limit SEM attrs s).
    split_and!; try done; [by eapply live_lock_add|by eapply sems_add_lock| |].
    + by apply (holders_created (stored_key c id s) limit SEM s).
    + intros Ha Hu. eapply keys_unique_insert; [done| |done|by eapply sems_add_lock].
      intros z [i Hz]%list_elem_of_lookup Hv Hk. destruct Hn as [|Hn]; [congruence|].
      apply Hn. exists i, z. split_and!; [done..|]. rewrite Hk. cbn.
      unfold stored_key. by rewrite Ha.
Qed.

Lemma sem_create_branches_witness :
  wp (mrapi_sem_create (ex_caller 3) 44 None 5) (λ r db',
    let '(h, st) := r in
    if (5 =? 0) || (32 <? 5) then (h, st) = (0, MRAPI_ERR_SEM_LOCKLIMIT) ∧ db' = ex_db
    else
      (any_key 44 = false ∧ key_taken 44 ex_db ∧ st = MRAPI_ERR_SEM_EXISTS ∧ db' = ex_db) ∨
      (any_key 44 = true ∨ ¬ key_taken 44 ex_db) ∧
      (no_free ex_db ∧ st = MRAPI_ERR_SEM_LIMIT ∧ db' = ex_db ∨
       ∃ s y, first_free s ex_db ∧ h = mrapi_impl_encode_hndl (Z.of_nat s) ∧
         st = MRAPI_SUCCESS ∧ live_lock h db' ∧ sems db' = <[s := y]> (sems ex_db) ∧
         s_key y = stored_key (ex_caller 3) 44 s ∧ s_shared_lock_limit y = 5 ∧ s_type y = SEM ∧
         s_refs y = 1 ∧ holders y = ∅ ∧ db_wf db' ∧
         (any_key 44 = false → keys_unique ex_db → keys_unique db'))) ex_db.
Proof.
  apply (sem_create_branches (ex_caller 3) 44 None 5 ex_db).
  - apply ex_caller_wf. lia.
  - apply reachable_wf, ex_db_reachable.
  - lia.
Defined.

(** ** Lookup *)

Lemma sem_get_hit c key db s x :
  db_wf db → caller_wf c → sems db !! s = Some x → s_key x = key →
  (∀ j y, (j < s)%nat → sems db !! j = Some y → s_key y ≠ key) →
  ∃ logged db', mrapi_impl_sem_get c key db
      = Done ((true, mrapi_impl_encode_hndl (Z.of_nat s)), db') ∧
    (∃ dm nd, domains db !! c_dindex c = Some dm ∧ d_nodes dm !! c_nindex c = Some nd ∧
       n_sems nd !! s = Some logged) ∧
    db' = if (logged : bool) then db
          else upd_sem s (λ x, x <| s_refs ::= λ r, u8 (r + 1) |>)
                 (upd_node (c_dindex c) (c_nindex c) (λ y, y <| n_sems ::= <[s := true]> |>) db).
Proof.
  intros Hdb Hc Hx Hk Hbefore. destruct (sem_lookup_wf db Hdb s x Hx) as [Hs _].
  pose proof Hc as (_ & _ & Hn & Hd).
  destruct (node_at db Hdb _ _ Hd Hn) as (dm & nd & Hdm & Hnd & Hw).
  destruct (lookup_lt_is_Some_2 (n_sems nd) s) as [logged Hlog]; [by rewrite wf_n_sems|].
  exists logged. eexists. split; [|split; [by exists dm, nd|done]].
  unfold mrapi_impl_sem_get. rewrite (bind_done _ _ _ _ _ (assert_whoami_done c db Hc)).
  erewrite bind_done by reflexivity.
  assert (c_scan (λ x, s_key x =? key) (sems db) MRAPI_MAX_SEMS 0 = Done s) as Hscan.
  { destruct (c_scan_all (λ x, s_key x =? key) _ _ (wf_sems_length db Hdb))
      as [(j & y & -> & _ & Hy & Hp & Hb)|[_ Hno]].
    - f_equal. destruct (lt_eq_lt_dec j s) as [[Hlt|]|Hlt]; [|done|].
      + apply Z.eqb_eq in Hp. by destruct (Hbefore j y Hlt Hy).
      + specialize (Hb s x Hlt Hx). by apply Z.eqb_neq in Hb.
    - specialize (Hno s x Hx). by apply Z.eqb_neq in Hno. }
  unfold lift, bind at 1. rewrite Hscan.
  destruct (Nat.ltb_spec s MRAPI_MAX_SEMS); [|lia].
  assert (∀ m : M mrapi_database bool, ∀ d', m db = Done (true, d') →
    (let* rc := m in ret (rc, mrapi_impl_encode_hndl (Z.of_nat s))) db
    = Done ((true, mrapi_impl_encode_hndl (Z.of_nat s)), d')) as Hret.
  { intros m d' Hm. by rewrite (bind_done _ _ _ _ _ Hm). }
  apply Hret. rewrite (bind_done _ _ _ _ _ (get_node_done _ _ _ _ _ Hdm Hnd)), Hlog.
  erewrite bind_done by reflexivity. destruct logged; [done|].
  rewrite (bind_done _ _ _ _ _ (log_sem_user_done c s true db Hdb Hc Hs)).
  erewrite bind_done; [|by eapply modify_sem_done]. done.
Qed.

(** [mrapi_sem_get] returns the first entry with the key whether or not
    it is valid: a lookup that hits a deleted entry reports [MRAPI_SUCCESS]
    with a handle that every other function rejects. *)
Theorem sem_get_ignores_validity c key db s x :
  caller_wf c → db_wf db → sems db !! s = Some x → s_key x = key →
  (∀ j y, (j < s)%nat → sems db !! j = Some y → s_key y ≠ key) →
  wp (mrapi_sem_get c key) (λ r db',
    r = (Some (mrapi_impl_encode_hndl (Z.of_nat s)), MRAPI_SUCCESS) ∧
    wp (mrapi_impl_valid_sem_hndl (mrapi_impl_encode_hndl (Z.of_nat s)))
       (λ r' _, r'.1 = s_valid x) db') db.
Proof.
  intros Hc Hdb Hx Hk Hb. destruct (sem_lookup_wf db Hdb s x Hx) as [Hs _].
  unfold mrapi_sem_get. rewrite caller_wf_initialized by done. cbn [negb].
  pose proof (keeps_sem_get False c Hc key db Hdb) as Hkeep. unfold runs in Hkeep.
  destruct (sem_get_hit c key db s x Hdb Hc Hx Hk Hb) as (logged & db' & He & _ & Hdb').
  rewrite He in Hkeep. destruct Hkeep as [_ Hwf'].
  apply wp_bind. eapply wp_intro; [done|]. cbn beta iota. apply wp_ret. split; [done|].
  assert (∃ y, sems db' !! s = Some y ∧ s_valid y = s_valid x) as (y & Hy & <-).
  { subst db'. destruct logged; [by exists x|]. eexists.
    split; [by eapply lookup_upd_sem_eq|done]. }
  destruct (valid_sem_hndl_spec (mrapi_impl_encode_hndl (Z.of_nat s)) db' Hwf')
    as (ok & st & Hv & Hok).
  eapply wp_intro; [done|]. cbn. destruct ok.
  - destruct Hok as (s' & z & Hs' & Hz & Hzv). rewrite decode_sem in Hs' by done.
    simplify_eq. done.
  - symmetry. apply not_true_iff_false. intros Hyv. apply Hok.
    exists s, y. split; [by apply decode_sem|done].
Qed.

(** An empty database already has a hit for key 0. *)
Lemma sem_get_ignores_validity_witness :
  wp (mrapi_sem_get (ex_caller 0) 0) (λ r db',
    r = (Some (mrapi_impl_encode_hndl (Z.of_nat 0)), MRAPI_SUCCESS) ∧
    wp (mrapi_impl_valid_sem_hndl (mrapi_impl_encode_hndl (Z.of_nat 0)))
       (λ r' _, r'.1 = s_valid zero_sem) db') zero_db.
Proof.
  apply (sem_get_ignores_validity (ex_caller 0) 0 zero_db 0 zero_sem).
  - apply ex_caller_wf. lia.
  - apply db_wf_zero.
  - vm_compute. reflexivity.
  - reflexivity.
  - intros j y Hj. lia.
Defined.
