(* ===== verification/McapiGlueTheorems.v ===== *)
(** MCAPI's lock, end to end: whatever mode a section of MCAPI asks for, at
    most one node is in a section of the MCAPI database, and all the nodes that
    use one key share one lock. *)

From S2P Require Import Prelude MrapiTypes MrapiHandles MrapiNodes MrapiLocks MrapiMutexRwl MrapiLockApi MrapiShmem McapiGlue LockSlots LockSpec LockEntry DbInvariant LockCreate LockSafety NodeSafety LockSystem LockTheorems CreateTheorems.

(** Entry [s] has room for one holder, and what [P] says of the holders. *)
Definition one_unit (s : nat) (P : gmultiset holder → Prop) (db : mrapi_database) : Prop :=
  ∃ x, sems db !! s = Some x ∧ s_valid x = true ∧ s_shared_lock_limit x = 1 ∧ P (holders x).
Definition section_of (s : nat) (c : caller) : mrapi_database → Prop :=
  one_unit s (λ h, h = {[+ me (c_nindex c) (c_dindex c) +]}).
Definition occupied (s : nat) : mrapi_database → Prop := one_unit s (λ h, h ≠ ∅).
Definition vacant (s : nat) : mrapi_database → Prop := one_unit s (λ h, h = ∅).

(** The database at the first attempt: a writer looks the limit up in a critical
    section of its own. *)
Definition first_attempt (gap : mrapi_database → mrapi_database) (exclusive : bool)
    (db : mrapi_database) : mrapi_database := if exclusive then gap db else db.

Lemma one_unit_live handle s P db :
  mrapi_impl_decode_hndl handle = (s, true) → one_unit s P db → live_lock handle db.
Proof. intros Hd (x & Hx & Hv & _). by exists s, x. Qed.
Lemma vacant_fits s db : db_wf db → vacant s db → fits s 1 db = true.
Proof.
  intros Hdb (x & Hx & Hv & Hl & Hh). destruct (sem_lookup_wf db Hdb s x Hx) as [_ Hw].
  unfold fits. rewrite Hx, Hl, <- (size_holders_num x Hw), Hh, gmultiset_size_empty. done.
Qed.
Lemma occupied_fits s db : db_wf db → occupied s db → fits s 1 db = false.
Proof.
  intros Hdb (x & Hx & Hv & Hl & Hh). destruct (sem_lookup_wf db Hdb s x Hx) as [_ Hw].
  unfold fits. rewrite Hx, Hl, <- (size_holders_num x Hw). apply Z.leb_gt.
  destruct (decide (size (holders x) = 0%nat)) as [He|]; [|lia].
  by apply gmultiset_size_empty_inv in He.
Qed.
Lemma take_section c s db :
  caller_wf c → db_wf db → vacant s db → section_of s c (take_units c s 1 db).
Proof.
  intros Hc Hdb (x & Hx & Hv & Hl & Hh). destruct (sem_lookup_wf db Hdb s x Hx) as [_ Hw].
  eexists. split; [by eapply lookup_upd_sem_eq|]. split_and!; [done..|].
  destruct (caller_small c Hc). pose proof (size_holders_num x Hw) as Hn.
  rewrite Hh, gmultiset_size_empty in Hn.
  rewrite (holders_acquired x Hw) by (done || lia). rewrite Hh. change (Z.to_nat 1) with 1%nat.
  rewrite gmultiset_scalar_mul_1. multiset_solver.
Qed.

Section bracket.
Context (gap : mrapi_database → mrapi_database) (yield : nat → mrapi_database → mrapi_database).
Context (Hg : gap_wf gap) (Hy : yield_wf yield) (c : caller) (Hc : caller_wf c).
Context (handle : Z) (s : nat) (Hhandle : mrapi_impl_decode_hndl handle = (s, true)).

Lemma rwl_hndl_done P db :
  db_wf db → one_unit s P db →
  mrapi_impl_valid_rwl_hndl handle db = Done ((true, MRAPI_SUCCESS), db).
Proof.
  intros Hdb (x & Hx & Hv & _). destruct (sem_lookup_wf db Hdb s x Hx) as [Hs _].
  unfold mrapi_impl_valid_rwl_hndl, mrapi_impl_valid_lock_hndl. rewrite Hhandle.
  destruct (Nat.leb_spec MRAPI_MAX_SEMS s); [lia|]. cbn [negb orb].
  erewrite bind_done; [|by rewrite (bind_done _ _ _ _ _ (get_sem_done s db x Hx)), Hv]. done.
Qed.

(** A reader asks for one unit, a writer for all of them: the same here. *)
Lemma lock_eq fuel exclusive P db :
  db_wf db → one_unit s P db →
  transport_sm_lock_rwl gap yield fuel c handle exclusive db
  = (let* (_, status) :=
       mrapi_impl_sem_lock yield fuel c handle 1 MRAPI_TIMEOUT_INFINITE MRAPI_SUCCESS in
     ret (succeeded status)) (first_attempt gap exclusive db).
Proof.
  intros Hdb Hone. pose proof Hone as (x & Hx & Hv & Hl & _).
  unfold transport_sm_lock_rwl, mrapi_rwl_lock. rewrite caller_wf_initialized by done. cbn [negb].
  rewrite bind_assoc, (bind_done _ _ _ _ _ (rwl_hndl_done P db Hdb Hone)). cbn beta iota.
  unfold mrapi_impl_rwl_lock. rewrite Hhandle. cbn [negb]. rewrite bind_assoc.
  unfold first_attempt. destruct exclusive; cbn [rwl_mode].
  - rewrite bind_assoc, (bind_done _ _ _ _ _ (get_sem_done s db x Hx)), Hl. cbv beta.
    rewrite bind_assoc. erewrite bind_done by reflexivity. apply bind_ext. by intros [].
  - apply bind_ext. by intros [].
Qed.
Lemma unlock_eq exclusive P db :
  db_wf db → one_unit s P db →
  transport_sm_unlock_rwl gap c handle exclusive db
  = (let* (_, status) := mrapi_impl_release_lock c handle 1 MRAPI_SUCCESS in
     ret (succeeded status)) (first_attempt gap exclusive db).
Proof.
  intros Hdb Hone. pose proof Hone as (x & Hx & Hv & Hl & _).
  unfold transport_sm_unlock_rwl, mrapi_rwl_unlock. rewrite caller_wf_initialized by done. cbn [negb].
  rewrite bind_assoc, (bind_done _ _ _ _ _ (rwl_hndl_done P db Hdb Hone)). cbn beta iota.
  unfold mrapi_impl_rwl_unlock, mrapi_impl_sem_unlock. rewrite Hhandle. cbn [negb]. rewrite bind_assoc.
  unfold first_attempt. destruct exclusive; cbn [rwl_mode].
  - rewrite bind_assoc, (bind_done _ _ _ _ _ (get_sem_done s db x Hx)), Hl. cbv beta.
    rewrite bind_assoc. erewrite bind_done by reflexivity. apply bind_ext. by intros [].
  - apply bind_ext. by intros [].
Qed.

(** Without a vacant attempt the lock never returns. *)
Lemma loop_never db0 (Hdb : db_wf db0) fuel k time st :
  sem_hndl handle s → (∀ i, (k <= i < k + fuel)%nat → occupied s (interfered yield db0 i)) →
  sem_lock_loop yield fuel k c handle 1 MRAPI_TIMEOUT_INFINITE time st (interfered yield db0 k)
  = Fault OutOfFuel.
Proof.
  intros Hs. revert k time st. induction fuel as [|fuel IH]; intros k time st Hno; [done|].
  rewrite (loop_wait yield Hy c Hc handle s Hs 1 ltac:(lia) MRAPI_TIMEOUT_INFINITE db0 Hdb).
  - cbv zeta. rewrite Z.eqb_refl. cbn [negb andb]. apply IH. intros i Hi. apply Hno. lia.
  - apply occupied_fits; [by apply interfered_wf|]. apply Hno. lia.
Qed.
End bracket.

Lemma one_unit_cases s db : one_unit s (λ _, True) db → occupied s db ∨ vacant s db.
Proof.
  intros (x & Hx & Hv & Hl & _). destruct (decide (holders x = ∅)); [right|left]; by exists x.
Qed.

(** ** The properties *)

(** C7: Mutual exclusion of MCAPI's sections, for readers and writers alike.
    While the lock exists, [mcapi_trans_access_database_pre] enters the section
    at the first attempt that finds the lock free, as its only holder; if every
    attempt finds it taken it does not return, whatever the fuel. *)
Theorem mcapi_sections_exclude gap yield fuel c handle s exclusive db :
  gap_wf gap → yield_wf yield → caller_wf c →
  mrapi_impl_decode_hndl handle = (s, true) → db_wf db → one_unit s (λ _, True) db →
  (∀ i, one_unit s (λ _, True) (interfered yield (first_attempt gap exclusive db) i)) →
  let at_ := interfered yield (first_attempt gap exclusive db) in
  match mcapi_trans_access_database_pre gap yield fuel c handle exclusive 0 db with
  | Done ((ok, locked), db') =>
      ok = true ∧ locked = 1 ∧ section_of s c db' ∧
      ∃ k, (k < fuel)%nat ∧ (∀ i, (i < k)%nat → occupied s (at_ i)) ∧ vacant s (at_ k) ∧
        db' = take_units c s 1 (at_ k)
  | Fault f => f = OutOfFuel ∧ ∀ i, (i < fuel)%nat → occupied s (at_ i)
  end.
Proof.
  intros Hg Hy Hc Hd Hdb Hone Hkeep. cbv zeta.
  pose proof (lock_eq gap yield c Hc handle s Hd fuel exclusive _ db Hdb Hone) as He.
  assert (db_wf (first_attempt gap exclusive db)) as Hdb1 by (destruct exclusive; [by apply Hg|done]).
  assert (sem_hndl handle s) as Hs.
  { destruct Hone as (x & Hx & _). split; [done|]. exact (proj1 (sem_lookup_wf db Hdb s x Hx)). }
  set (at_ := interfered yield (first_attempt gap exclusive db)) in *.
  assert (∀ i, db_wf (at_ i)) as Hat by (intros i; by apply interfered_wf).
  unfold mcapi_trans_access_database_pre. erewrite bind_done by reflexivity.
  unfold bind at 1. rewrite He.
  destruct (first_true (λ i, fits s 1 (at_ i)) fuel) as [(k & Hk & Hyes & Hno)|Hno].
  - assert (∀ i, (i < k)%nat → occupied s (at_ i)) as Hocc.
    { intros i Hi. destruct (one_unit_cases s (at_ i) (Hkeep i)) as [|Hv]; [done|].
      specialize (Hno i Hi). cbv beta in Hno. by rewrite (vacant_fits s _ (Hat i) Hv) in Hno. }
    assert (vacant s (at_ k)) as Hv.
    { destruct (one_unit_cases s (at_ k) (Hkeep k)) as [Ho|]; [|done].
      cbv beta in Hyes. by rewrite (occupied_fits s _ (Hat k) Ho) in Hyes. }
    erewrite bind_done.
    2: { apply (sem_lock_acquires yield fuel c handle s 1 MRAPI_TIMEOUT_INFINITE MRAPI_SUCCESS _ k);
         [done..|lia|by left|done|done|done]. }
    cbn. split_and!; [done|done|by apply take_section|]. by exists k.
  - assert (∀ i, (i < fuel)%nat → occupied s (at_ i)) as Hocc.
    { intros i Hi. destruct (one_unit_cases s (at_ i) (Hkeep i)) as [|Hv]; [done|].
      specialize (Hno i Hi). cbv beta in Hno. by rewrite (vacant_fits s _ (Hat i) Hv) in Hno. }
    unfold mrapi_impl_sem_lock. rewrite Hd. cbn [negb]. unfold bind at 1.
    rewrite (loop_never yield Hy c Hc handle s (first_attempt gap exclusive db) Hdb1 fuel 0);
      [done|done|]. intros i Hi. apply Hocc. lia.
Qed.

(** MCAPI's lock: node 0 creates it, node 1 is in a section, and leaves it while
    another node waits for the second time. *)
Definition h_mcapi : Z := 0x80000003.
Definition mcapi_db : mrapi_database :=
  ex_runs [(ex_caller 0, RwlCreate 99 None 1);
           (ex_caller 1, RwlLock h_mcapi MRAPI_RWL_WRITER 5)] ex_db.
Definition leave_section (k : nat) : mrapi_database → mrapi_database :=
  if (k =? 1)%nat then ex_run (ex_caller 1) (RwlUnlock h_mcapi MRAPI_RWL_WRITER) else id.

Lemma mcapi_db_wf : db_wf mcapi_db.
Proof.
  apply reachable_wf. unfold mcapi_db, ex_runs, reachable. cbn [fold_left fst snd].
  do 2 (apply ex_run_steps;
    [intros _; apply ex_caller_wf; lia|cbn; rewrite ?max_shared_locks; lia || done
    |vm_compute; by eexists|]).
  exact ex_db_reachable.
Qed.
Lemma leave_section_wf : yield_wf leave_section.
Proof.
  intros k db Hdb. unfold leave_section. destruct (k =? 1)%nat; [|done].
  pose proof (keeps_call ex_env ex_env_wf (ex_caller 1) (λ _, ex_caller_wf 1 ltac:(lia))
    (RwlUnlock h_mcapi MRAPI_RWL_WRITER) Logic.I db Hdb) as Hr.
  unfold runs in Hr. unfold ex_run, after.
  destruct (run_call ex_env (ex_caller 1) (RwlUnlock h_mcapi MRAPI_RWL_WRITER) db)
    as [[u d]|]; [apply Hr|done].
Qed.
Lemma one_unit_true s db x :
  sems db !! s = Some x → s_valid x = true → s_shared_lock_limit x = 1 → one_unit s (λ _, True) db.
Proof. intros. by exists x. Qed.
Lemma leave_section_settles i : (2 <= i)%nat → interfered leave_section mcapi_db i = interfered leave_section mcapi_db 2.
Proof.
  induction 1 as [|i Hi IH]; [done|]. cbn [interfered]. unfold leave_section at 1.
  destruct (Nat.eqb_spec i 1); [lia|]. exact IH.
Qed.
Lemma leave_section_keeps i : one_unit 3 (λ _, True) (interfered leave_section mcapi_db i).
Proof.
  destruct (decide (2 <= i)%nat) as [Hi|Hi]; [rewrite (leave_section_settles i Hi)|].
  - eapply one_unit_true; [vm_compute; reflexivity|reflexivity|reflexivity].
  - destruct i as [|[|i]]; [..|lia]; (eapply one_unit_true; [vm_compute; reflexivity|reflexivity|reflexivity]).
Qed.

Lemma mcapi_sections_exclude_witness :
  let at_ := interfered leave_section mcapi_db in
  match mcapi_trans_access_database_pre id leave_section 5 (ex_caller 2) h_mcapi true 0 mcapi_db with
  | Done ((ok, locked), db') =>
      ok = true ∧ locked = 1 ∧ section_of 3 (ex_caller 2) db' ∧
      ∃ k, (k < 5)%nat ∧ (∀ i, (i < k)%nat → occupied 3 (at_ i)) ∧ vacant 3 (at_ k) ∧
        db' = take_units (ex_caller 2) 3 1 (at_ k)
  | Fault f => f = OutOfFuel ∧ ∀ i, (i < 5)%nat → occupied 3 (at_ i)
  end.
Proof.
  apply (mcapi_sections_exclude id leave_section 5 (ex_caller 2) h_mcapi 3 true mcapi_db).
  - by intros db Hdb.
  - exact leave_section_wf.
  - apply ex_caller_wf. lia.
  - vm_compute. reflexivity.
  - exact mcapi_db_wf.
  - exact (leave_section_keeps 0).
  - exact leave_section_keeps.
Defined.

(** Leaving a section.  The node in the section leaves it and the lock is
    free again; any other node is refused and nothing changes. *)
Theorem mcapi_section_ends gap c c' handle s exclusive db :
  gap_wf gap → caller_wf c → caller_wf c' → mrapi_impl_decode_hndl handle = (s, true) → db_wf db →
  one_unit s (λ _, True) db → section_of s c' (first_attempt gap exclusive db) →
  wp (mcapi_trans_access_database_post gap c handle exclusive 1) (λ r db',
    if bool_decide (entry_id c = entry_id c') then
      r = (true, 0) ∧ vacant s db' ∧ db_wf db' ∧
      ∀ j, j ≠ s → sems db' !! j = sems (first_attempt gap exclusive db) !! j
    else r = (false, 1) ∧ db' = first_attempt gap exclusive db) db.
Proof.
  intros Hg Hc Hc' Hd Hdb Hone Hin.
  assert (db_wf (first_attempt gap exclusive db)) as Hdb1 by (destruct exclusive; [by apply Hg|done]).
  destruct Hin as (x & Hx & Hv & Hl & Hh). destruct (sem_lookup_wf _ Hdb1 s x Hx) as [_ Hw].
  pose proof (multiplicity_my_count x Hw (c_nindex c) (c_dindex c)) as Hm.
  destruct (caller_small c Hc). destruct (caller_small c' Hc').
  unfold wp, mcapi_trans_access_database_post. erewrite bind_done by reflexivity.
  unfold bind at 1. rewrite (unlock_eq gap c Hc handle s Hd exclusive _ db Hdb Hone).
  unfold bind at 1. rewrite (release_eq c handle s x _ Hc Hd Hx Hw 1 _ ltac:(lia)), Hv. cbn [negb].
  rewrite Hh in Hm. unfold entry_id. case_bool_decide as He1.
  - rewrite He1, multiplicity_singleton, decide_True in Hm by done. rewrite <- Hm. cbn.
    split; [done|]. assert (0 <= 1 <= my_count (c_nindex c) (c_dindex c) x) as Hle by lia.
    pose proof (holders_released x Hw (c_nindex c) (c_dindex c) 1 Hle) as Hr.
    split_and!.
    + eexists. split; [by eapply lookup_upd_sem_eq|]. split_and!; [done..|].
      rewrite Hh, <- He1 in Hr. change (Z.to_nat 1) with 1%nat in Hr.
      rewrite gmultiset_scalar_mul_1 in Hr. multiset_solver.
    + apply db_wf_upd_sem; [done|]. intros y _ _. by apply sem_wf_released.
    + intros j Hj. rewrite lookup_upd_sem. by rewrite decide_False.
  - rewrite multiplicity_singleton, decide_False in Hm by congruence. rewrite <- Hm. cbn. by destruct (s_type x).
Qed.
Lemma mcapi_section_ends_witness :
  wp (mcapi_trans_access_database_post id (ex_caller 1) h_mcapi false 1) (λ r db',
    if bool_decide (entry_id (ex_caller 1) = entry_id (ex_caller 1)) then
      r = (true, 0) ∧ vacant 3 db' ∧ db_wf db' ∧ ∀ j, j ≠ 3%nat → sems db' !! j = sems mcapi_db !! j
    else r = (false, 1) ∧ db' = mcapi_db) mcapi_db.
Proof.
  apply (mcapi_section_ends id (ex_caller 1) (ex_caller 1) h_mcapi 3 false mcapi_db).
  - by intros db Hdb.
  - apply ex_caller_wf. lia.
  - apply ex_caller_wf. lia.
  - vm_compute. reflexivity.
  - exact mcapi_db_wf.
  - exact (leave_section_keeps 0).
  - eexists. split; [vm_compute; reflexivity|]. split_and!; [reflexivity..|].
    apply (bool_decide_unpack _). vm_compute. reflexivity.
Defined.

(** ** One lock for all *)

(** The entry that a key leads to: the first with the key, if it is valid. *)
Definition key_entry (key : Z) (s : nat) (P : mrapi_sem_t → Prop) (db : mrapi_database) : Prop :=
  (∃ x, sems db !! s = Some x ∧ s_valid x = true ∧ s_key x = key ∧ P x) ∧
  ∀ j y, (j < s)%nat → sems db !! j = Some y → s_key y ≠ key.

(** Both branches of the creation. *)
Lemma create_rwl_new c key db :
  caller_wf c → db_wf db → any_key key = false → ¬ no_free db → ¬ key_taken key db →
  ∃ s, (s < MRAPI_MAX_SEMS)%nat ∧ first_free s db ∧
    transport_sm_create_rwl c key 1 db
    = Done ((true, Some (mrapi_impl_encode_hndl (Z.of_nat s))),
            add_lock c s (new_lock c key 1 RWL None s) db).
Proof.
  intros Hc Hdb Ha Hfree Hnew. unfold transport_sm_create_rwl, mrapi_rwl_create.
  rewrite caller_wf_initialized by done. cbn [negb mrapi_impl_rwl_validID].
  destruct (rwl_create_spec c 0 key None 1 db Hdb Hc ltac:(lia)) as (r & db' & Hr & Ho).
  destruct Ho as [_ Ht|_ Hn|s _ Hff Hs]; [done|done|].
  exists s. split_and!; [done|done|]. by rewrite bind_assoc, (bind_done _ _ _ _ _ Hr).
Qed.
Lemma create_rwl_exists c key s x db :
  caller_wf c → db_wf db → any_key key = false → key_entry key s (λ y, y = x) db →
  ∃ db', transport_sm_create_rwl c key 1 db
      = Done ((true, Some (mrapi_impl_encode_hndl (Z.of_nat s))), db') ∧
    (sems db' = sems db ∨ sems db' = alter (λ x, x <| s_refs ::= λ r, u8 (r + 1) |>) s (sems db)).
Proof.
  intros Hc Hdb Ha [(y & Hx & Hv & Hk & ->) Hb]. unfold transport_sm_create_rwl, mrapi_rwl_create.
  rewrite caller_wf_initialized by done. cbn [negb mrapi_impl_rwl_validID].
  destruct (rwl_create_spec c 0 key None 1 db Hdb Hc ltac:(lia)) as (r & db' & Hr & Ho).
  destruct Ho as [_ _|[|Hn] _|s' [|Hn] _ _]; try congruence; try (destruct Hn; by exists s, x).
  destruct (sem_get_hit c key db s x Hdb Hc Hx Hk Hb) as (logged & db' & He & _ & Hdb').
  exists db'. rewrite bind_assoc, (bind_done _ _ _ _ _ Hr). cbn beta iota.
  erewrite bind_done by reflexivity. cbn beta iota. rewrite bool_decide_eq_true_2 by done.
  unfold mrapi_rwl_get, mrapi_impl_rwl_get. rewrite caller_wf_initialized by done. cbn [negb].
  rewrite !bind_assoc, (bind_done _ _ _ _ _ He).
  split; [done|]. subst db'. destruct logged; [by left|by right].
Qed.

(** All the nodes share one lock.  The first node that asks for the lock of
    a key creates it, free and with one unit; from then on, as long as the entry
    is there, any node that asks for it gets the same handle, and the entry
    keeps its limit and its holders. *)
Theorem nodes_share_one_lock c key db :
  caller_wf c → db_wf db → any_key key = false → ¬ no_free db →
  (∀ j y, sems db !! j = Some y → s_key y ≠ key) →
  ∃ s db', transport_sm_create_rwl c key 1 db
      = Done ((true, Some (mrapi_impl_encode_hndl (Z.of_nat s))), db') ∧
    db_wf db' ∧ vacant s db' ∧ key_entry key s (λ _, True) db' ∧
    ∀ c2 x db2, caller_wf c2 → db_wf db2 → key_entry key s (λ y, y = x) db2 →
      ∃ db3, transport_sm_create_rwl c2 key 1 db2
          = Done ((true, Some (mrapi_impl_encode_hndl (Z.of_nat s))), db3) ∧
        key_entry key s (λ y, s_shared_lock_limit y = s_shared_lock_limit x ∧
                              holders y = holders x) db3.
Proof.
  intros Hc Hdb Ha Hfree Hnew.
  destruct (create_rwl_new c key db Hc Hdb Ha Hfree) as (s & Hs & Hff & He).
  { intros (j & y & Hy & _ & Hk). by destruct (Hnew j y Hy). }
  pose proof Hff as [(x0 & Hx0 & _) _]. set (y := new_lock c key 1 RWL None s) in *.
  assert (sems (add_lock c s y db) !! s = Some y) as Hy.
  { rewrite (sems_add_lock c s y db x0 Hx0). apply list_lookup_insert_eq. by eapply lookup_lt_Some. }
  assert (s_key y = key) as Hk by (cbn; unfold stored_key; by rewrite Ha).
  eexists s, _. split; [exact He|]. split_and!.
  - apply db_wf_add_lock; [done|]. apply sem_wf_new_lock; [lia|done].
  - exists y. split_and!; [done..|]. by apply (holders_created (stored_key c key s) 1 RWL s).
  - split; [by exists y|]. intros j z Hj Hz.
    rewrite (sems_add_lock c s y db x0 Hx0), list_lookup_insert_ne in Hz by lia. by eapply Hnew.
  - intros c2 x db2 Hc2 Hdb2 Hkey.
    destruct (create_rwl_exists c2 key s x db2 Hc2 Hdb2 Ha Hkey) as (db3 & He3 & Hsems).
    exists db3. split; [done|]. destruct Hkey as [(x' & Hx & Hv & Hkx & ->) Hb].
    destruct Hsems as [Hsems|Hsems]; (split; [|intros j z Hj; rewrite Hsems]).
    + exists x. by rewrite Hsems.
    + by apply Hb.
    + eexists. rewrite Hsems, list_lookup_alter_eq, Hx. done.
    + rewrite list_lookup_alter_ne by lia. by apply Hb.
Qed.
Lemma nodes_share_one_lock_witness :
  ∃ s db', transport_sm_create_rwl (ex_caller 0) 99 1 zero_db
      = Done ((true, Some (mrapi_impl_encode_hndl (Z.of_nat s))), db') ∧
    db_wf db' ∧ vacant s db' ∧ key_entry 99 s (λ _, True) db' ∧
    ∀ c2 x db2, caller_wf c2 → db_wf db2 → key_entry 99 s (λ y, y = x) db2 →
      ∃ db3, transport_sm_create_rwl c2 99 1 db2
          = Done ((true, Some (mrapi_impl_encode_hndl (Z.of_nat s))), db3) ∧
        key_entry 99 s (λ y, s_shared_lock_limit y = s_shared_lock_limit x ∧
                             holders y = holders x) db3.
Proof.
  apply (nodes_share_one_lock (ex_caller 0) 99 zero_db).
  - apply ex_caller_wf. lia.
  - apply db_wf_zero.
  - vm_compute. reflexivity.
  - intros Hn. by destruct (Hn 0%nat zero_sem eq_refl).
  - intros j y Hy%list_elem_of_lookup_2. cbn in Hy.
    apply elem_of_replicate in Hy as [-> _]. done.
Defined.
