(* ===== verification/NodeTheorems.v ===== *)
(** The life of a node: identities are never shared, initialization claims a
    free entry, and finalization gives back every reference. *)

From S2P Require Import Prelude MrapiTypes MrapiHandles MrapiNodes MrapiLocks MrapiMutexRwl MrapiLockApi LockSlots LockSpec LockEntry DbInvariant LockCreate LockSafety NodeSafety LockSystem LockTheorems.

(** Node [n] of domain entry [d] is live, under this identity. *)
Definition live_node (db : mrapi_database) (d n : nat) (domain_id node_id : Z) : Prop :=
  ∃ dm x, domains db !! d = Some dm ∧ d_nodes dm !! n = Some x ∧ n_valid x = true ∧
    d_domain_id dm = domain_id ∧ n_node_num x = node_id.

Lemma live_node_unique db d n d' n' dom num :
  db_wf db → live_node db d n dom num → live_node db d' n' dom num → d = d' ∧ n = n'.
Proof.
  intros Hdb (dm & x & Hdm & Hx & Hv & Hd & Hn) (dm' & x' & Hdm' & Hx' & Hv' & Hd' & Hn').
  pose proof (wf_idents db Hdb) as Hids.
  assert (∀ i e j y, domains db !! i = Some e → d_nodes e !! j = Some y → n_valid y = true →
    d_valid e = true) as Hused.
  { intros i e j y He Hy Hvy. destruct (d_valid e) eqn:Hve; [done|].
    destruct (id_unused _ Hids i e He Hve) as [_ Hu]. specialize (Hu j y Hy). congruence. }
  assert (d = d') as <- by (eapply (id_domains _ Hids); eauto; congruence).
  split; [done|]. simplify_eq. eapply (id_nodes _ Hids); eauto.
Qed.

(** C37: no shared identities.  In every reachable database two live node
    entries with the same domain id and node number are the same entry. *)
Theorem live_nodes_have_unique_ids db d n d' n' domain_id node_id :
  reachable db → live_node db d n domain_id node_id →
  live_node db d' n' domain_id node_id → d = d' ∧ n = n'.
Proof. intros Hr. apply live_node_unique. by apply reachable_wf. Qed.

(** Two threads initialize as nodes 5 and 6 of domain 9. *)
Definition ex_new : caller := mk_caller false (-1) 0 0 0 0 0 (λ _, 0).
Definition ex_nodes_calls : list (caller * call) :=
  [(ex_new, Initialize 9 5 false); (ex_new, Initialize 9 6 false)].
Definition ex_nodes_db : mrapi_database := ex_runs ex_nodes_calls zero_db.
Lemma ex_nodes_reachable : reachable ex_nodes_db.
Proof.
  unfold ex_nodes_db, ex_runs, ex_nodes_calls, reachable. cbn [fold_left fst snd].
  repeat (apply ex_run_steps; [by intros ?|done|vm_compute; by eexists|]).
  apply sys_refl.
Qed.

Lemma live_nodes_have_unique_ids_witness : (0 = 0 ∧ 1 = 1)%nat.
Proof.
  apply (live_nodes_have_unique_ids ex_nodes_db 0 1 0 1 9 6).
  - exact ex_nodes_reachable.
  - eexists _, _. split; [vm_compute; reflexivity|]. repeat split; vm_compute; reflexivity.
  - eexists _, _. split; [vm_compute; reflexivity|]. repeat split; vm_compute; reflexivity.
Defined.

Section slot.
Context (o : os) (domain_id node_id : Z) (d n : nat) (db : mrapi_database).
Context (Hdb : db_wf db) (Hf : slot_found domain_id node_id d n db).

Lemma slot_found_fresh d' n' : ¬ live_node db d' n' domain_id node_id.
Proof.
  destruct Hf as (_ & _ & dm & x & Hdm & Hx & Hv & Hchoice & Hnew).
  intros (dm' & x' & Hdm' & Hx' & Hv' & Hd' & Hn').
  destruct (decide (d' = d)) as [->|Hne]; [simplify_eq; by eapply Hnew|].
  eapply (claim_id_fresh domain_id d db Hdb dm Hdm Hchoice d' dm'); try done.
  destruct (d_valid dm') eqn:Hve; [done|].
  destruct (id_unused _ (wf_idents db Hdb) d' dm' Hdm' Hve) as [_ Hu].
  specialize (Hu n' x' Hx'). congruence.
Qed.
Lemma slot_found_live :
  live_node (claimed o domain_id node_id d n db) d n domain_id node_id.
Proof.
  destruct Hf as (_ & _ & dm & x & Hdm & Hx & _).
  eexists _, _. split; [by apply claimed_lookup|]. cbn.
  split; [by rewrite list_lookup_alter_eq, Hx|done].
Qed.
Lemma slot_found_keeps d' n' dom num :
  live_node db d' n' dom num → live_node (claimed o domain_id node_id d n db) d' n' dom num.
Proof.
  destruct Hf as (_ & _ & dm & x & Hdm & Hx & Hv & Hchoice & _).
  intros (dm' & x' & Hdm' & Hx' & Hv' & Hd' & Hn').
  destruct (decide (d' = d)) as [->|Hne].
  2:{ exists dm', x'. by rewrite claimed_other by done. }
  assert (dm' = dm) as -> by congruence.
  eexists _, _. split; [by apply claimed_lookup|]. cbn.
  assert (n' ≠ n) as Hne by congruence.
  split; [by rewrite list_lookup_alter_ne|]. split_and!; try done.
  destruct Hchoice as [[? _]|(Hve & _)]; [congruence|].
  destruct (id_unused _ (wf_idents db Hdb) d dm Hdm Hve) as [_ Hu].
  specialize (Hu n' x' Hx'). congruence.
Qed.
End slot.

(** [mrapi_initialize] on every branch.  It refuses a [NULL] info
    pointer and an initialized thread; on failure the database is unchanged;
    on success the thread was not a node, no live node had the identity, a
    free entry has become the live node with exactly that identity, the
    thread's cached indices name it, and every other live node is still
    live. *)
Theorem initialize_branches o c domain_id node_id info_null db :
  db_wf db → os_pid o ≠ -1 →
  wp (mrapi_initialize o c domain_id node_id info_null) (λ r db',
    let '(c', st) := r in
    (info_null = true ∧ st = MRAPI_ERR_PARAMETER ∧ db' = db ∧ c' = c) ∨
    (mrapi_impl_initialized c = true ∧ st = MRAPI_ERR_NODE_INITIALIZED ∧ db' = db ∧ c' = c) ∨
    mrapi_impl_initialized c = false ∧
    (st ≠ MRAPI_SUCCESS ∧ db' = db ∨
     st = MRAPI_SUCCESS ∧ db_wf db' ∧ caller_wf c' ∧
     (∀ d n, ¬ live_node db d n domain_id node_id) ∧
     live_node db' (c_dindex c') (c_nindex c') domain_id node_id ∧
     mrapi_impl_whoami c'
     = Some (node_id, c_nindex c', domain_id, c_dindex c') ∧
     ∀ d n dom num, live_node db d n dom num → live_node db' d n dom num)) db.
Proof.
  intros Hdb Hpid. unfold mrapi_initialize, mrapi_impl_valid_node_num, mrapi_impl_valid_domain_num.
  cbn [negb]. destruct info_null; [by apply wp_ret; left|].
  destruct (mrapi_impl_initialized c) eqn:Hi; [by apply wp_ret; right; left|].
  apply wp_bind.
  destruct (initialize_spec o c domain_id node_id MRAPI_ERR_NODE_INITFAILED db Hdb)
    as (ok & c' & st' & db' & He & Ho).
  eapply wp_intro; [done|]. cbn beta iota. apply wp_ret. right. right. split; [done|].
  destruct ok; [right|left; by destruct Ho as (-> & _ & [-> | ->])].
  destruct Ho as (Hatt & _ & d & n & Hf & -> & ->).
  split; [done|]. split; [by apply db_wf_claimed|].
  pose proof Hf as (Hd & Hn & _).
  split; [|split; [by eapply slot_found_fresh|split; [by apply slot_found_live|split]]].
  - split_and!; done.
  - unfold mrapi_impl_whoami, identified, attach. cbn. rewrite Hatt. cbn.
    by destruct (Z.eqb_spec (os_pid o) (-1)).
  - intros d' n' dom num. by apply slot_found_keeps.
Qed.

Lemma initialize_branches_witness :
  wp (mrapi_initialize ex_os ex_new 9 7 false) (λ r db',
    let '(c', st) := r in
    (false = true ∧ st = MRAPI_ERR_PARAMETER ∧ db' = ex_nodes_db ∧ c' = ex_new) ∨
    (mrapi_impl_initialized ex_new = true ∧ st = MRAPI_ERR_NODE_INITIALIZED ∧
     db' = ex_nodes_db ∧ c' = ex_new) ∨
    mrapi_impl_initialized ex_new = false ∧
    (st ≠ MRAPI_SUCCESS ∧ db' = ex_nodes_db ∨
     st = MRAPI_SUCCESS ∧ db_wf db' ∧ caller_wf c' ∧
     (∀ d n, ¬ live_node ex_nodes_db d n 9 7) ∧
     live_node db' (c_dindex c') (c_nindex c') 9 7 ∧
     mrapi_impl_whoami c' = Some (7, c_nindex c', 9, c_dindex c') ∧
     ∀ d n dom num, live_node ex_nodes_db d n dom num → live_node db' d n dom num))
    ex_nodes_db.
Proof.
  apply (initialize_branches ex_os ex_new 9 7 false ex_nodes_db).
  - apply reachable_wf, ex_nodes_reachable.
  - vm_compute. discriminate.
Defined.

(** ** Finalize *)

(** A lock entry after a finalizing node gave up its reference. *)
Definition drop_ref (user : bool) (x : mrapi_sem_t) : mrapi_sem_t :=
  if s_valid x then
    let r := if user then u8 (s_refs x - 1) else s_refs x in
    x <| s_refs := r |> <| s_valid := negb (r =? 0) |>
  else x.

(** The state of the loop over the locks before entry [j]. *)
Definition finalizing (d n : nat) (nd : mrapi_node_data) (l : list mrapi_sem_t) (j : nat)
    (db : mrapi_database) : Prop :=
  db_wf db ∧
  (∀ i x, l !! i = Some x →
     sems db !! i = Some (if (i <? j)%nat
                          then drop_ref (default false (n_sems nd !! i)) x else x)) ∧
  ∃ dm nd', domains db !! d = Some dm ∧ d_nodes dm !! n = Some nd' ∧ n_valid nd' = false ∧
    ∀ i, (j <= i)%nat → n_sems nd' !! i = n_sems nd !! i.

Lemma finalizing_step d n nd l j db db' y :
  finalizing d n nd l j db → db_wf db' →
  l !! j = Some y →
  (∀ i, i ≠ j → sems db' !! i = sems db !! i) →
  sems db' !! j = Some (drop_ref (default false (n_sems nd !! j)) y) →
  (∃ dm nd', domains db' !! d = Some dm ∧ d_nodes dm !! n = Some nd' ∧ n_valid nd' = false ∧
    ∀ i, (S j <= i)%nat → n_sems nd' !! i = n_sems nd !! i) →
  finalizing d n nd l (S j) db'.
Proof.
  intros (_ & Hl & _) Hwf Hy Hother Hj Hnode. split; [done|]. split; [|done].
  intros i x Hx. destruct (decide (i = j)) as [->|Hne].
  - destruct (Nat.ltb_spec j (S j)); [|lia]. by simplify_eq.
  - rewrite (Hother i Hne), (Hl i x Hx). f_equal.
    by destruct (Nat.ltb_spec i j), (Nat.ltb_spec i (S j)); try lia.
Qed.

Lemma log_sem_user_at d n s b db dm nd u :
  domains db !! d = Some dm → d_nodes dm !! n = Some nd → n_sems nd !! s = Some u →
  log_sem_user d n s b db
  = Done (tt, upd_node d n (λ x, x <| n_sems ::= <[s := b]> |>) db).
Proof.
  intros Hd Hn Hu. unfold log_sem_user.
  rewrite (bind_done _ _ _ _ _ (get_node_done _ _ _ _ _ Hd Hn)), Hu.
  erewrite bind_done by reflexivity. by eapply modify_node_done.
Qed.

(** The last lines: invalidate the entry if the count is 0. *)
Lemma drop_if_unused j x db z :
  sems db !! j = Some z → s_valid x = true →
  (let* x := get_sem j in
   if s_refs x =? 0 then modify_sem j (λ x, x <| s_valid := false |>) else ret tt)
    (upd_sem j (λ _, x) db)
  = Done (tt, upd_sem j (λ _, x <| s_valid := negb (s_refs x =? 0) |>) db).
Proof.
  intros Hz Hv. rewrite (bind_done _ _ _ _ _ (get_sem_done j _ x
    (lookup_upd_sem_eq j (λ _, x) db z Hz))).
  destruct (s_refs x =? 0) eqn:He; cbn [negb].
  - by eapply modify_sem_at.
  - unfold ret. do 2 f_equal. unfold upd_sem, set_field. f_equal.
    apply list_alter_ext; [|done]. intros ? _. destruct x; cbn in *. by subst.
Qed.

Lemma release_refs_valid d n j db x dm nd' b :
  sems db !! j = Some x → s_valid x = true →
  domains db !! d = Some dm → d_nodes dm !! n = Some nd' → n_sems nd' !! j = Some b →
  release_refs d n j db
  = Done (tt, upd_sem j (λ _, drop_ref b x)
                (if b then upd_node d n (λ x, x <| n_sems ::= <[j := false]> |>) db else db)).
Proof.
  intros Hx Hv Hd Hn Hb. unfold release_refs.
  rewrite (bind_done _ _ _ _ _ (get_sem_done j db x Hx)), Hv.
  rewrite (bind_done _ _ _ _ _ (get_node_done _ _ _ _ _ Hd Hn)), Hb.
  erewrite bind_done by reflexivity. unfold drop_ref. rewrite Hv. destruct b.
  - set (db1 := upd_node _ _ _ db).
    assert (sems db1 !! j = Some x) as Hx1 by done.
    erewrite bind_done.
    2:{ rewrite (bind_done _ _ _ _ _ (log_sem_user_at d n j false db dm nd' true Hd Hn Hb)).
        by eapply modify_sem_done. }
    rewrite (upd_sem_at j _ (x <| s_refs := u8 (s_refs x - 1) |>) db1 x Hx1)
      by reflexivity.
    by erewrite drop_if_unused.
  - erewrite bind_done by reflexivity. rewrite <- (upd_sem_same j x db Hx) at 1.
    by erewrite drop_if_unused by done.
Qed.

Lemma finalizing_body d n nd l j db :
  (d < MRAPI_MAX_DOMAINS)%nat → (n < MRAPI_MAX_NODES)%nat → (j < length l)%nat →
  finalizing d n nd l j db →
  wp (release_refs d n j) (λ _, finalizing d n nd l (S j)) db.
Proof.
  intros Hd Hn Hj Hfin. pose proof Hfin as (Hdb & Hl & dm & nd' & Hdm & Hnd & Hnv & Hs).
  destruct (lookup_lt_is_Some_2 l j Hj) as [x Hx].
  pose proof (Hl j x Hx) as Hxj. destruct (Nat.ltb_spec j j); [lia|].
  assert (Hwf' : ∀ db', release_refs d n j db = Done (tt, db') → db_wf db').
  { intros db' He. pose proof (keeps_release_refs False d n j Hd Hn
      (proj1 (sem_lookup_wf db Hdb j x Hxj)) db Hdb) as Hk.
    unfold runs in Hk. rewrite He in Hk. tauto. }
  destruct (s_valid x) eqn:Hv.
  - pose proof (Forall_lookup_1 _ _ _ _ (wf_domains db Hdb) Hdm) as Hdw.
    pose proof (Forall_lookup_1 _ _ _ _ (wf_d_nodes dm Hdw) Hnd) as Hnw.
    destruct (lookup_lt_is_Some_2 (n_sems nd') j) as [b Hb].
    { rewrite wf_n_sems by done. by eapply sem_lookup_wf. }
    pose proof (release_refs_valid d n j db x dm nd' b Hxj Hv Hdm Hnd Hb) as He.
    eapply wp_intro; [done|]. eapply finalizing_step; [done|by apply Hwf'|done| | |].
    + intros i Hi. rewrite lookup_upd_sem, decide_False by congruence. by destruct b.
    + erewrite lookup_upd_sem_eq by (by destruct b).
      rewrite <- (Hs j) by lia. by rewrite Hb.
    + destruct b.
      * destruct (lookup_upd_node d n (λ x, x <| n_sems ::= <[j := false]> |>) db dm nd' Hdm Hnd)
          as (dm' & Hdm' & Hnd').
        exists dm'. eexists. split; [done|]. split; [done|]. split; [done|].
        intros i Hi. cbn. rewrite list_lookup_insert_ne by lia. apply Hs. lia.
      * exists dm, nd'. split_and!; [done..|]. intros i Hi. apply Hs. lia.
  - assert (release_refs d n j db = Done (tt, db)) as He.
    { unfold release_refs. by rewrite (bind_done _ _ _ _ _ (get_sem_done j db x Hxj)), Hv. }
    eapply wp_intro; [done|]. eapply finalizing_step; [done|done|done|done| |].
    + rewrite Hxj. unfold drop_ref. by rewrite Hv.
    + exists dm, nd'. split_and!; [done..|]. intros i Hi. apply Hs. lia.
Qed.

(** Finalizing gives back every reference.
    [mrapi_impl_finalize_node_locked] never faults; afterwards the node is not
    live, each valid lock it was using has one reference less, exactly the
    valid locks left without a reference become invalid, and the other
    entries are unchanged. *)
Theorem finalize_drops_references o db d n dm nd :
  db_wf db → domains db !! d = Some dm → d_nodes dm !! n = Some nd →
  wp (mrapi_impl_finalize_node_locked o d n) (λ ok db',
    ok = true ∧ db_wf db' ∧
    (∃ dm' nd', domains db' !! d = Some dm' ∧ d_nodes dm' !! n = Some nd' ∧
       n_valid nd' = false) ∧
    ∀ s x, sems db !! s = Some x →
      sems db' !! s = Some (drop_ref (default false (n_sems nd !! s)) x)) db.
Proof.
  intros Hdb Hd Hn. pose proof (wf_domains_length db Hdb) as Hdl.
  pose proof (lookup_lt_Some _ _ _ Hd) as Hdlt. rewrite Hdl in Hdlt.
  pose proof (Forall_lookup_1 _ _ _ _ (wf_domains db Hdb) Hd) as Hdw.
  pose proof (lookup_lt_Some _ _ _ Hn) as Hnlt. rewrite (wf_d_length dm Hdw) in Hnlt.
  unfold mrapi_impl_finalize_node_locked. apply wp_bind.
  eapply wp_intro; [by eapply modify_node_done|]. cbn beta.
  set (db1 := upd_node _ _ _ db).
  assert (db_wf db1) as Hdb1 by (by apply db_wf_upd_node, node_write_end).
  destruct (lookup_upd_node d n (λ x, x <| n_valid := false |>) db dm nd Hd Hn)
    as (dm1 & Hdm1 & Hnd1).
  apply wp_bind.
  apply (wp_for (λ _ db', db_wf db' ∧ sems db' = sems db1 ∧ domains db' = domains db1)).
  { done. }
  { intros j db' Hj (Hwf & Hs & Hdo).
    destruct (lookup_lt_is_Some_2 (shmems db') j) as [z Hz].
    { rewrite wf_shmems_length by done. lia. }
    apply wp_bind. eapply wp_arr_get; [done|].
    destruct (sh_valid z); [|by apply wp_ret].
    assert (domains db' !! d = Some dm1) as Hdm1' by (rewrite Hdo; exact Hdm1).
    apply wp_bind. eapply wp_intro; [by eapply get_node_done|].
    cbn beta. apply wp_bind.
    destruct (lookup_lt_is_Some_2 (n_shmems nd) j) as [u Hu].
    { pose proof (Forall_lookup_1 _ _ _ _ (wf_d_nodes dm Hdw) Hn).
      rewrite wf_n_shmems by done. lia. }
    eapply wp_oob; [done|]. destruct u; [|by apply wp_ret].
    apply wp_modify. split; [by apply db_wf_shmems|done]. }
  intros db2 (Hdb2 & Hs2 & Hd2). apply wp_bind.
  assert (Hlen : length (sems db) = MRAPI_MAX_SEMS) by (by apply wf_sems_length).
  apply (wp_for (finalizing d n nd (sems db))).
  - split; [done|]. split; [by intros i x Hx; rewrite Hs2|].
    rewrite Hd2. eauto 10.
  - intros j db' Hj Hfin. apply finalizing_body; [done|done|lia|done].
  - intros db' (Hwf & Hs & dm' & nd' & Hdm' & Hnd' & Hv & _). apply wp_ret.
    split; [done|]. split; [done|]. split; [eauto|].
    intros s x Hx. rewrite (Hs s x Hx). pose proof (lookup_lt_Some _ _ _ Hx).
    destruct (Nat.ltb_spec s (0 + MRAPI_MAX_SEMS)); [done|lia].
Qed.

(** Node 1 of the lock example is domain entry 0, node entry 1. *)
Definition ex_dm : mrapi_domain_data := default zero_domain (domains ex_db !! 0%nat).
Definition ex_nd : mrapi_node_data := default zero_node (d_nodes ex_dm !! 0%nat).
Lemma finalize_drops_references_witness :
  wp (mrapi_impl_finalize_node_locked ex_os 0 0) (λ ok db',
    ok = true ∧ db_wf db' ∧
    (∃ dm' nd', domains db' !! 0%nat = Some dm' ∧ d_nodes dm' !! 0%nat = Some nd' ∧
       n_valid nd' = false) ∧
    ∀ s x, sems ex_db !! s = Some x →
      sems db' !! s = Some (drop_ref (default false (n_sems ex_nd !! s)) x)) ex_db.
Proof.
  apply (finalize_drops_references ex_os ex_db 0 0 ex_dm ex_nd).
  - apply reachable_wf, ex_db_reachable.
  - vm_compute. reflexivity.
  - vm_compute. reflexivity.
Defined.

(** ** What the reference counts miss *)

(** Node 0 creates a semaphore that node 1 looks up; node 0 deletes it and
    creates it again, and node 1 looks it up again.  Deleting did not clear
    node 1's flag, so the second lookup is not counted: one reference for two
    users, and when node 0 finalizes, the semaphore that node 1 still uses
    becomes invalid. *)
Definition ex_recreate : list (caller * call) :=
  [(ex_caller 0, SemCreate 11 None 1); (ex_caller 1, SemGet 11);
   (ex_caller 0, SemLock 0x80000000 5); (ex_caller 0, SemDelete 0x80000000);
   (ex_caller 0, SemCreate 11 None 1); (ex_caller 1, SemGet 11)].
Example recreated_lock_is_undercounted :
  let db := ex_runs ex_recreate zero_db in
  (s_refs <$> sems db !! 0%nat) = Some 1 ∧
  (s_valid <$> sems (after (mrapi_impl_finalize_node_locked ex_os 0 0) db) !! 0%nat)
  = Some false.
Proof. vm_compute. done. Qed.

(** With another node of the process alive, a thread that finalized and
    initializes again is told that it is already initialized. *)
Example finalize_then_initialize :
  match (let* (c0, _) := mrapi_initialize ex_os ex_new 9 5 false in
         mrapi_initialize ex_os ex_new 9 6 false;;
         let* (c0, st1) := mrapi_finalize ex_os c0 in
         let* (_, st2) := mrapi_initialize ex_os c0 9 5 false in ret (st1, st2)) zero_db
  with
  | Done (sts, _) => sts = (MRAPI_SUCCESS, MRAPI_ERR_NODE_INITIALIZED)
  | Fault _ => False
  end.
Proof. vm_compute. done. Qed.
