(* ===== verification/HandleTheorems.v ===== *)
(** Handles and asynchronous requests: which indices survive being encoded
    and decoded, the life of a request entry, and waiting for one of several. *)

From S2P Require Import Prelude MrapiTypes MrapiHandles MrapiLocks MrapiRmem LockSlots LockSpec LockEntry DbInvariant.

(** Handles.  A 16-bit index survives encoding and decoding exactly when
    it is below 256: [mrapi_impl_decode_hndl] keeps eight bits of the sixteen
    that [mrapi_impl_encode_hndl] stores. *)
Theorem handle_roundtrip i :
  0 <= i < 65536 →
  mrapi_impl_decode_hndl (mrapi_impl_encode_hndl i) = (Z.to_nat i, true) ↔ i < 256.
Proof.
  intros Hi. rewrite decode_encode by lia. pose proof (Z.mod_pos_bound i 256 ltac:(lia)).
  split.
  - intros [= He]. assert (i mod 256 = i) by lia. lia.
  - intros Hlt. by rewrite Z.mod_small by lia.
Qed.
Lemma handle_roundtrip_witness :
  mrapi_impl_decode_hndl (mrapi_impl_encode_hndl 127) = (Z.to_nat 127, true) ↔ 127 < 256.
Proof. apply (handle_roundtrip 127). lia. Defined.

(** ** Requests *)

Lemma request_at i db x :
  requests db !! i = Some x → arr_get requests i db = Done (x, db).
Proof. intros Hx. unfold arr_get, bind, get. by rewrite Hx. Qed.
Lemma modify_request_done i f db x :
  requests db !! i = Some x → modify_request i f db = Done (tt, upd_request i f db).
Proof. intros Hx. unfold modify_request. by rewrite (bind_done _ _ _ _ _ (request_at i db x Hx)). Qed.
Lemma lookup_upd_request i f db x :
  requests db !! i = Some x → requests (upd_request i f db) !! i = Some (f x).
Proof. intros Hx. cbn. by rewrite list_lookup_alter_eq, Hx. Qed.
Lemma upd_request_twice i f g db :
  upd_request i f (upd_request i g db) = upd_request i (λ x, f (g x)) db.
Proof. unfold upd_request, set_field. cbv beta. cbn [requests]. by rewrite list_alter_alter_eq. Qed.

(** The first unused entry. *)
Definition first_request (i : nat) (db : mrapi_database) : Prop :=
  (∃ x, requests db !! i = Some x ∧ rq_valid x = false) ∧
  ∀ j y, (j < i)%nat → requests db !! j = Some y → rq_valid y = true.

Definition set_up (c : caller) (x : mrapi_request_data) : mrapi_request_data :=
  x <| rq_valid := true |> <| rq_domain_id := c_domain_id c |>
    <| rq_node_num := c_node_id c |> <| rq_cancelled := false |>.

Lemma setup_request_spec c db :
  db_wf db → caller_wf c →
  (∃ i, first_request i db ∧ (i < MRAPI_MAX_REQUESTS)%nat ∧
     mrapi_impl_setup_request c db = Done (i, upd_request i (set_up c) db)) ∨
  (∀ j y, requests db !! j = Some y → rq_valid y = true) ∧
  mrapi_impl_setup_request c db = Fault AssertFailed.
Proof.
  intros Hdb (Ha & Hp & _). unfold mrapi_impl_setup_request, mrapi_impl_whoami. rewrite Ha.
  destruct (Z.eqb_spec (c_pid c) (-1)); [done|]. cbn [negb].
  destruct (c_scan_all (λ x, negb (rq_valid x)) _ _ (wf_requests_length db Hdb))
    as [(i & x & Hi & Hlt & Hx & Hv & Hb)|[Hi Hno]].
  - left. exists i. split; [|split; [done|]].
    { split; [exists x; split; [done|by apply negb_true_iff]|].
      intros j y Hj Hy. apply negb_false_iff. eauto. }
    erewrite bind_done.
    2:{ erewrite bind_done by reflexivity. unfold lift, bind at 1. rewrite Hi.
        destruct (Nat.ltb_spec i MRAPI_MAX_REQUESTS); [|lia].
        by rewrite (bind_done _ _ _ _ _ (modify_request_done i _ db x Hx)). }
    destruct (Nat.ltb_spec i MRAPI_MAX_REQUESTS); [|lia]. done.
  - right. split; [intros j y Hy; apply negb_false_iff; eauto|].
    erewrite bind_done.
    2:{ erewrite bind_done by reflexivity. unfold lift, bind at 1. rewrite Hi.
        destruct (Nat.ltb_spec MRAPI_MAX_REQUESTS MRAPI_MAX_REQUESTS); [lia|]. done. }
    destruct (Nat.ltb_spec MRAPI_MAX_REQUESTS MRAPI_MAX_REQUESTS); [lia|]. done.
Qed.

Definition complete (st : mrapi_status) (x : mrapi_request_data) : mrapi_request_data :=
  x <| rq_completed := true |> <| rq_status := st |>.

Lemma test_done h i db x :
  mrapi_impl_decode_hndl h = (i, true) → (i < MRAPI_MAX_REQUESTS)%nat →
  requests db !! i = Some x → rq_valid x = true → rq_completed x = true →
  mrapi_impl_test h db = Done ((true, rq_status x), upd_request i (λ _, zero_request) db).
Proof.
  intros Hh Hi Hx Hv Hc. unfold mrapi_impl_test. rewrite Hh.
  destruct (Nat.ltb_spec i MRAPI_MAX_REQUESTS); [|lia]. cbn [andb].
  rewrite (bind_done _ _ _ _ _ (request_at i db x Hx)), Hv, Hc. cbn [andb].
  by rewrite (bind_done _ _ _ _ _ (modify_request_done i _ db x Hx)).
Qed.

(** The life of a request.  Setting one up takes the first unused entry;
    if its index is below 256, testing its handle after it completed returns
    its status and leaves the request table as if the request had never
    been: the entry is unused again and no other entry changed. *)
Theorem request_lifecycle c db i st :
  db_wf db → caller_wf c → first_request i db → (i < 256)%nat →
  wp (let* i := mrapi_impl_setup_request c in
      modify_request i (complete st);;
      let h := mrapi_impl_encode_hndl (Z.of_nat i) in
      let* (done_, st') := mrapi_impl_test h in ret (i, done_, st'))
    (λ r db', r = (i, true, st) ∧ db' = upd_request i (λ _, zero_request) db) db.
Proof.
  intros Hdb Hc Hfirst Hi. pose proof Hfirst as [(x & Hx & Hv) Hb].
  destruct (setup_request_spec c db Hdb Hc) as [(k & Hk & Hlt & He)|[Hno _]].
  2:{ specialize (Hno i x Hx). congruence. }
  assert (k = i) as ->.
  { destruct Hk as [(y & Hy & Hvy) Hbk]. destruct (lt_eq_lt_dec k i) as [[Hki|]|Hik]; [|done|].
    - specialize (Hb k y Hki Hy). congruence.
    - specialize (Hbk i x Hik Hx). congruence. }
  apply wp_bind. eapply wp_intro; [done|]. cbn beta.
  apply wp_bind. eapply wp_intro.
  { eapply modify_request_done. by apply lookup_upd_request. }
  cbn beta zeta. rewrite upd_request_twice. apply wp_bind. eapply wp_intro.
  { eapply test_done; [by apply decode_encode_small|done|by apply lookup_upd_request|done|done]. }
  cbn beta iota. apply wp_ret. rewrite upd_request_twice. done.
Qed.

Definition ex_c : caller := mk_caller true 100 7 0 0 0 0 (λ s, Z.of_nat s).
Lemma ex_c_wf : caller_wf ex_c.
Proof. split_and!; cbn; [done|done|unfold MRAPI_MAX_NODES; lia|unfold MRAPI_MAX_DOMAINS; lia]. Qed.
Lemma request_lifecycle_witness :
  wp (let* i := mrapi_impl_setup_request ex_c in
      modify_request i (complete MRAPI_SUCCESS);;
      let h := mrapi_impl_encode_hndl (Z.of_nat i) in
      let* (done_, st') := mrapi_impl_test h in ret (i, done_, st'))
    (λ r db', r = (0%nat, true, MRAPI_SUCCESS) ∧
       db' = upd_request 0 (λ _, zero_request) zero_db) zero_db.
Proof.
  apply (request_lifecycle ex_c zero_db 0 MRAPI_SUCCESS).
  - apply db_wf_zero.
  - apply ex_c_wf.
  - split; [exists zero_request; split; vm_compute; reflexivity|]. intros j y Hj. lia.
  - lia.
Defined.

(** Requests beyond 255.  Testing the handle of request [i >= 256] tests
    request [i mod 256] instead: it reports that request's status and
    recycles that entry, and entry [i] stays occupied. *)
Theorem request_handle_hits_another i db x y :
  (256 <= i < MRAPI_MAX_REQUESTS)%nat → requests db !! i = Some y →
  requests db !! (i mod 256)%nat = Some x → rq_valid x = true → rq_completed x = true →
  wp (mrapi_impl_test (mrapi_impl_encode_hndl (Z.of_nat i))) (λ r db',
    r = (true, rq_status x) ∧ requests db' !! (i mod 256)%nat = Some zero_request ∧
    requests db' !! i = Some y) db.
Proof.
  intros Hi Hy Hx Hv Hc. pose proof (Nat.mod_upper_bound i 256 ltac:(lia)).
  assert ((i mod 256)%nat < MRAPI_MAX_REQUESTS)%nat by lia.
  eapply wp_intro; [eapply (test_done _ (i mod 256)%nat); try done|].
  - rewrite decode_encode by lia. f_equal.
    rewrite <- (Nat2Z.id (i mod 256)), Nat2Z.inj_mod. done.
  - split; [done|]. split; [by apply (lookup_upd_request _ (λ _, zero_request) _ x)|].
    cbn. rewrite list_lookup_alter_ne; [done|lia].
Qed.

Definition ex_busy : mrapi_request_data :=
  mk_request true true false 3 4 MRAPI_SUCCESS.
Definition ex_requests : mrapi_database :=
  zero_db <| requests := replicate MRAPI_MAX_REQUESTS ex_busy |>.
Lemma request_handle_hits_another_witness :
  wp (mrapi_impl_test (mrapi_impl_encode_hndl (Z.of_nat 300))) (λ r db',
    r = (true, rq_status ex_busy) ∧ requests db' !! (300 mod 256)%nat = Some zero_request ∧
    requests db' !! 300%nat = Some ex_busy) ex_requests.
Proof.
  apply (request_handle_hits_another 300 ex_requests ex_busy ex_busy).
  - split; [lia|]. apply Nat.ltb_lt. vm_compute. reflexivity.
  - vm_compute. reflexivity.
  - vm_compute. reflexivity.
  - reflexivity.
  - reflexivity.
Defined.

(** ** Waiting for any of several MRAPI requests: the one pass that decides, and the
    calls that never return. *)

(** What a handle stands for. *)
Inductive request_state := Invalid | Canceled | Completed (entry : nat) (status : mrapi_status) | Pending.
Definition state_of (db : mrapi_database) (h : Z) : request_state :=
  let '(r, valid) := mrapi_impl_decode_hndl h in
  if valid && (r <? MRAPI_MAX_REQUESTS)%nat then
    match requests db !! r with
    | Some x =>
        if negb (rq_valid x) then Invalid
        else if rq_cancelled x then Canceled
        else if rq_completed x then Completed r (rq_status x) else Pending
    | None => Invalid
    end
  else Invalid.

(** What a pass over requests in these states decides, from index [i] on. *)
Inductive decision := Found (i : Z) (entry : nat) (status : mrapi_status) | Asserts
  | Nothing (status : mrapi_status).
Fixpoint decides (l : list request_state) (i : Z) (status : mrapi_status) : decision :=
  match l with
  | [] => Nothing status
  | Invalid :: l => decides l (i + 1) MRAPI_ERR_REQUEST_INVALID
  | Canceled :: l => decides l (i + 1) MRAPI_ERR_REQUEST_CANCELED
  | Completed r st :: _ => Found i r st
  | Pending :: _ => Asserts
  end.
Definition recycled (r : nat) (db : mrapi_database) : mrapi_database := upd_request r (λ _, zero_request) db.
Definition pass_result (d : decision) (db : mrapi_database) :
    result ((option Z * mrapi_status) * mrapi_database) :=
  match d with
  | Found i r st => Done ((Some i, st), recycled r db)
  | Asserts => Fault AssertFailed
  | Nothing st => Done ((None, st), db)
  end.

Lemma round_decides hs i st db :
  length (requests db) = MRAPI_MAX_REQUESTS →
  wait_any_round hs i st db = pass_result (decides (map (state_of db) hs) i st) db.
Proof.
  intros Hlen. revert i st. induction hs as [|h hs IH]; intros i st; [done|].
  cbn [wait_any_round map decides]. unfold state_of at 1.
  unfold mrapi_impl_valid_request_hndl, mrapi_impl_canceled_request, mrapi_impl_test.
  destruct (mrapi_impl_decode_hndl h) as [r valid].
  destruct (valid && (r <? MRAPI_MAX_REQUESTS)%nat) eqn:Hr; [|apply IH].
  apply andb_prop in Hr as [_ Hr%Nat.ltb_lt].
  destruct (lookup_lt_is_Some_2 (requests db) r) as [x Hx]; [lia|]. rewrite Hx.
  rewrite !bind_assoc, (bind_done _ _ _ _ _ (request_at r db x Hx)).
  erewrite bind_done by reflexivity. destruct (rq_valid x) eqn:Hv; cbn [negb]; [|apply IH].
  rewrite bind_assoc, (bind_done _ _ _ _ _ (request_at r db x Hx)).
  erewrite bind_done by reflexivity. rewrite Hv. destruct (rq_cancelled x); cbn [andb]; [apply IH|].
  rewrite bind_assoc, (bind_done _ _ _ _ _ (request_at r db x Hx)), Hv. cbn [andb].
  destruct (rq_completed x); [|done].
  rewrite bind_assoc, (bind_done _ _ _ _ _ (modify_request_done r _ db x Hx)). by erewrite bind_done by reflexivity.
Qed.

(** The requests stay as they are while the call runs. *)
Definition keeps_requests (between : nat → mrapi_database → mrapi_database) : Prop :=
  ∀ k db, requests (between k db) = requests db.
Lemma state_of_requests db db' h : requests db' = requests db → state_of db' h = state_of db h.
Proof. intros H. unfold state_of. by rewrite H. Qed.

Lemma wait_any_spins between fuel round hs timeout st st' db :
  length (requests db) = MRAPI_MAX_REQUESTS → keeps_requests between →
  (∀ st, ∃ st', decides (map (state_of db) hs) 0 st = Nothing st') →
  u32 (Z.of_nat (length hs) + 1) < timeout → st' = st →
  wait_any_loop between fuel round hs timeout st db = Fault OutOfFuel.
Proof.
  intros Hlen Hb Hno Ht _. clear st'. revert round st db Hlen Hno.
  induction fuel as [|fuel IH]; intros round st db Hlen Hno; [done|]. cbn [wait_any_loop].
  destruct (Hno st) as [st' Hd]. pose proof (round_decides hs 0 st db Hlen) as Hr. rewrite Hd in Hr. cbn [pass_result] in Hr.
  rewrite (bind_done _ _ _ _ _ Hr). cbn beta iota.
  destruct (Z.ltb_spec (u32 (Z.of_nat (length hs) + 1)) timeout); [|lia].
  erewrite bind_done by reflexivity. apply IH; [by rewrite Hb|].
  erewrite map_ext; [exact Hno|]. intros h. by apply state_of_requests.
Qed.
Lemma nothing_any l i st st' st2 :
  decides l i st = Nothing st' → ∃ st2', decides l i st2 = Nothing st2'.
Proof.
  revert i st st2. induction l as [|[] l IH]; intros i st st2; cbn; try discriminate; [by eexists|apply IH|apply IH].
Qed.

(** C31: mrapi_wait_any decides in one pass over the requests, in the order of the
    list.  The first that has completed is reported with its index and its own
    status, and its entry is recycled; those before it may only be invalid or
    canceled, since testing a pending request fails an assertion.  When every one is
    invalid or canceled the pass ends with the status of the last; the timeout is
    then compared with number + 1, the counter of that pass: the call returns -1
    when it is not above it (with MRAPI_TIMEOUT only for an empty list), and
    otherwise repeats the pass for ever, whatever the fuel.  All this as long as the
    other nodes leave the requests as they are ([keeps_requests]). *)
Theorem wait_any_decides_once between fuel c hs timeout db :
  mrapi_impl_initialized c = true → length (requests db) = MRAPI_MAX_REQUESTS → keeps_requests between →
  mrapi_wait_any between (S fuel) c hs timeout db
  = match decides (map (state_of db) hs) 0 MRAPI_TIMEOUT with
    | Found i r st => Done ((i, st), recycled r db)
    | Asserts => Fault AssertFailed
    | Nothing st =>
        if u32 (Z.of_nat (length hs) + 1) <? timeout then Fault OutOfFuel
        else Done ((MRAPI_RETURN_VALUE_INVALID, st), db)
    end.
Proof.
  intros Hc Hlen Hb. unfold mrapi_wait_any. rewrite Hc. cbn [negb].
  pose proof (round_decides hs 0 MRAPI_TIMEOUT db Hlen) as Hr.
  destruct (decides (map (state_of db) hs) 0 MRAPI_TIMEOUT) as [i r st| |st] eqn:Hd; cbn [pass_result] in Hr.
  - cbn [wait_any_loop]. by rewrite (bind_done _ _ _ _ _ Hr).
  - cbn [wait_any_loop]. unfold bind. by rewrite Hr.
  - destruct (Z.ltb_spec (u32 (Z.of_nat (length hs) + 1)) timeout) as [Ht|Ht].
    + eapply wait_any_spins; [done..| |done|reflexivity]. intros st2. by eapply nothing_any.
    + cbn [wait_any_loop]. rewrite (bind_done _ _ _ _ _ Hr). cbn beta iota.
      by destruct (Z.ltb_spec (u32 (Z.of_nat (length hs) + 1)) timeout); [lia|].
Qed.
(** Request 0 has completed with an error, request 1 is pending, the rest unused. *)
Definition ex_waiting : mrapi_database :=
  upd_request 0 (λ _, mk_request true true false 0 0 MRAPI_ERR_RMEM_CONFLICT)
    (upd_request 1 (λ _, mk_request true false false 0 0 MRAPI_SUCCESS) zero_db).
Lemma wait_any_decides_once_witness :
  mrapi_wait_any (λ _ db, db) 1 ex_c (map mrapi_impl_encode_hndl [7; 0; 1]) 10 ex_waiting
    = Done ((1, MRAPI_ERR_RMEM_CONFLICT), recycled 0 ex_waiting) ∧
  ∀ fuel, mrapi_wait_any (λ _ db, db) (S fuel) ex_c (map mrapi_impl_encode_hndl [7]) 3 ex_waiting
    = Fault OutOfFuel.
Proof.
  split; [|intros fuel]; erewrite wait_any_decides_once by (vm_compute; done); vm_compute; reflexivity.
Defined.

(** A pending request fails the assertion of mrapi_impl_test. *)
Lemma wait_any_asserts_on_pending :
  mrapi_wait_any (λ _ db, db) 1 ex_c (map mrapi_impl_encode_hndl [1]) 10 ex_waiting = Fault AssertFailed.
Proof. vm_compute. reflexivity. Qed.
