(* ===== verification/RmemTheorems.v ===== *)
(** Remote memory: what the strided copies move, where they write, and when
    they end. *)

From S2P Require Import Prelude MrapiTypes MrapiHandles MrapiLocks MrapiRmem LockSlots LockSpec LockEntry DbInvariant HandleTheorems.

(** ** Regions of memory *)

(** Address [a] is byte [j] of block [i] of [n] blocks of [bytes] bytes that
    start every [stride] bytes from [base]. *)
Definition in_blocks (base stride bytes n a : Z) : Prop :=
  ∃ i j, 0 <= i < n ∧ 0 <= j < bytes ∧ a = base + i * stride + j.
Definition mapped (m : gmap Z Z) (P : Z → Prop) : Prop := ∀ a, P a → is_Some (m !! a).

Lemma in_blocks_next base stride bytes n a :
  in_blocks (base + stride) stride bytes n a → in_blocks base stride bytes (n + 1) a.
Proof. intros (i & j & Hi & Hj & ->). exists (i + 1), j. split; [lia|]. split; [done|lia]. Qed.
Lemma in_blocks_first base stride bytes n j :
  0 <= j < bytes → 0 < n → in_blocks base stride bytes n (base + j).
Proof. intros Hj Hn. exists 0, j. split; [lia|]. split; [done|lia]. Qed.

(** ** One block *)

Lemma copy_bytes_spec k dst src m :
  mapped m (λ a, src <= a < src + Z.of_nat k) →
  mapped m (λ a, dst <= a < dst + Z.of_nat k) →
  (∀ a, src <= a < src + Z.of_nat k → ¬ (dst <= a < dst + Z.of_nat k)) →
  ∃ m', copy_bytes k dst src m = Done m' ∧ dom m' = dom m ∧
    (∀ a, ¬ (dst <= a < dst + Z.of_nat k) → m' !! a = m !! a) ∧
    ∀ j, 0 <= j < Z.of_nat k → m' !! (dst + j) = m !! (src + j).
Proof.
  revert dst src m. induction k as [|k IH]; intros dst src m Hs Hd Hdisj.
  { exists m. split; [done|]. split; [done|]. split; [done|]. intros; lia. }
  assert (is_Some (m !! src)) as [b Hb] by (apply Hs; lia).
  assert (is_Some (m !! dst)) as [b' Hb'] by (apply Hd; lia).
  assert (Hdom : dom (<[dst := b]> m) = dom m).
  { apply dom_insert_lookup_L. by exists b'. }
  destruct (IH (dst + 1) (src + 1) (<[dst := b]> m)) as (m' & Hm' & Hdm & Hout & Hin).
  - intros a Ha. apply elem_of_dom. rewrite Hdom. apply elem_of_dom. apply Hs. cbn in *. lia.
  - intros a Ha. apply elem_of_dom. rewrite Hdom. apply elem_of_dom. apply Hd. cbn in *. lia.
  - intros a Ha. specialize (Hdisj a). lia.
  - exists m'. cbn [copy_bytes]. rewrite Hb, Hb'. split; [done|].
    split; [congruence|]. split.
    + intros a Ha. rewrite Hout by lia. apply lookup_insert_ne. lia.
    + intros j Hj. destruct (decide (j = 0)) as [->|Hne].
      * rewrite Z.add_0_r, Hout by lia. rewrite lookup_insert_eq, Z.add_0_r. done.
      * replace (dst + j) with (dst + 1 + (j - 1)) by lia. rewrite Hin by lia.
        rewrite lookup_insert_ne.
        { f_equal. lia. }
        intros He. apply (Hdisj (src + 1 + (j - 1))); lia.
Qed.

(** ** All blocks *)

(** The copy of [n] blocks is well formed: every byte is mapped, the target
    blocks do not overlap each other, and no source byte is a target. *)
Record copy_ok (dst src ds ss bytes n : Z) (m : gmap Z Z) : Prop := {
  co_src : mapped m (in_blocks src ss bytes n);
  co_dst : mapped m (in_blocks dst ds bytes n);
  co_stride : 0 <= bytes <= ds;
  co_disjoint a : in_blocks src ss bytes n a → ¬ in_blocks dst ds bytes n a }.

Definition copied (dst src ds ss bytes n : Z) (m m' : gmap Z Z) : Prop :=
  dom m' = dom m ∧
  (∀ a, ¬ in_blocks dst ds bytes n a → m' !! a = m !! a) ∧
  ∀ i j, 0 <= i < n → 0 <= j < bytes → m' !! (dst + i * ds + j) = m !! (src + i * ss + j).

Lemma first_block dst src ds ss bytes n m :
  copy_ok dst src ds ss bytes (n + 1) m → 0 <= n →
  ∃ m', copy_bytes (Z.to_nat bytes) dst src m = Done m' ∧
    copied dst src ds ss bytes 1 m m' ∧ copy_ok (dst + ds) (src + ss) ds ss bytes n m'.
Proof.
  intros [Hs Hd Hst Hdisj] Hn.
  destruct (copy_bytes_spec (Z.to_nat bytes) dst src m) as (m' & Hm' & Hdom & Hout & Hin).
  - intros a Ha. cbn in Ha. apply Hs. replace a with (src + (a - src)) by lia.
    apply in_blocks_first; lia.
  - intros a Ha. cbn in Ha. apply Hd. replace a with (dst + (a - dst)) by lia.
    apply in_blocks_first; lia.
  - intros a Ha Ha'. apply (Hdisj a).
    + replace a with (src + (a - src)) by lia. apply in_blocks_first; lia.
    + replace a with (dst + (a - dst)) by lia. apply in_blocks_first; lia.
  - exists m'. split; [done|]. split.
    { split; [done|]. split.
      - intros a Ha. apply Hout. intros Hr. apply Ha. exists 0, (a - dst).
        split; [lia|]. split; lia.
      - intros i j Hi Hj. replace i with 0 by lia. rewrite !Z.mul_0_l, !Z.add_0_r.
        apply Hin. lia. }
    split; [| |done|].
    + intros a Ha. apply elem_of_dom. rewrite Hdom. apply elem_of_dom.
      by apply Hs, in_blocks_next.
    + intros a Ha. apply elem_of_dom. rewrite Hdom. apply elem_of_dom.
      by apply Hd, in_blocks_next.
    + intros a Ha Ha'. by apply (Hdisj a); apply in_blocks_next.
Qed.

Lemma strided_copy_spec k fuel i bytes dst src ds ss m :
  copy_ok dst src ds ss bytes (Z.of_nat k) m →
  0 <= i → i + Z.of_nat k < 65536 → (k <= fuel)%nat →
  ∃ m', strided_copy fuel i (i + Z.of_nat k) (Z.to_nat bytes) dst src ds ss m = Done m' ∧
    copied dst src ds ss bytes (Z.of_nat k) m m'.
Proof.
  revert fuel i dst src m. induction k as [|k IH]; intros fuel i dst src m Hok Hi Hk Hfuel.
  { exists m. split.
    - rewrite Z.add_0_r. destruct fuel; cbn [strided_copy]; by rewrite Z.ltb_irrefl.
    - split; [done|]. split; [done|]. intros; lia. }
  destruct fuel as [|fuel]; [lia|].
  rewrite Nat2Z.inj_succ, <- Z.add_1_r in *.
  destruct (first_block _ _ _ _ _ _ _ Hok ltac:(lia)) as (m1 & Hm1 & (Hd1 & Hout1 & Hin1) & Hok1).
  destruct (IH fuel (i + 1) (dst + ds) (src + ss) m1 Hok1) as (m' & Hm' & Hd' & Hout' & Hin');
    [lia..|].
  exists m'. cbn [strided_copy]. destruct (Z.ltb_spec i (i + (Z.of_nat k + 1))); [|lia].
  rewrite Hm1, u16_small by lia.
  replace (i + (Z.of_nat k + 1)) with (i + 1 + Z.of_nat k) by lia.
  split; [done|]. split; [congruence|].
  assert (Hfirst : ∀ a, in_blocks dst ds bytes 1 a → ¬ in_blocks (dst + ds) ds bytes (Z.of_nat k) a).
  { intros a (i1 & j1 & Hi1 & Hj1 & ->) (i2 & j2 & Hi2 & Hj2 & He).
    pose proof (co_stride _ _ _ _ _ _ _ Hok). replace i1 with 0 in He by lia. nia. }
  split.
  - intros a Ha. rewrite Hout', Hout1; [done| |].
    + intros (i1 & j1 & ? & ? & ->). apply Ha. exists i1, j1. split; [lia|done].
    + intros Hr. by apply Ha, in_blocks_next.
  - intros i' j Hi' Hj. destruct (decide (i' = 0)) as [->|Hne].
    + rewrite Hout'; [apply Hin1; lia|]. apply Hfirst. exists 0, j. split; [lia|done].
    + replace (dst + i' * ds + j) with (dst + ds + (i' - 1) * ds + j) by lia.
      rewrite Hin' by lia. replace (src + ss + (i' - 1) * ss + j) with (src + i' * ss + j) by lia.
      apply Hout1. intros Hb. destruct Hb as (i1 & j1 & Hi1 & Hj1 & He).
      apply (co_disjoint _ _ _ _ _ _ _ Hok (src + i' * ss + j)).
      * exists i', j. done.
      * exists 0, j1. split; [lia|]. split; [done|].
        replace i1 with 0 in He by lia. lia.
Qed.

(** ** The transfer functions *)

Section transfer.
Context (rmem : Z) (r : nat) (db : mrapi_database) (x : mrapi_rmem_t).
Context (Hr : mrapi_impl_decode_hndl rmem = (r, true)).
Context (Hx : rmems db !! r = Some x) (Hv : rm_valid x = true).
Context (fuel : nat) (off buf boff bytes n rs ls : Z) (m : gmap Z Z).
Context (Hn : 0 <= n < 65536) (Hfuel : (Z.to_nat n <= fuel)%nat).

Lemma on_rmem {A} (k : mrapi_rmem_t → M rstate A) :
  (let* x := on_db (arr_get rmems r) in k x) (db, m) = k x (db, m).
Proof. unfold on_db, bind at 1, arr_get, bind, get. cbn. by rewrite Hx. Qed.
Lemma on_mem_done {A} f m' (k : M rstate A) :
  f m = Done m' → (on_mem f;; k) (db, m) = k (db, m').
Proof. intros Hf. unfold on_mem, bind. cbn. by rewrite Hf. Qed.

Lemma rmem_write_done :
  rm_addr x + off + u32 (rs * n) + bytes <= rm_addr x + rm_size x →
  copy_ok (rm_addr x + off) (buf + boff) rs ls bytes n m →
  ∃ m', mrapi_impl_rmem_write fuel rmem off buf boff bytes n rs ls (db, m)
    = Done (true, (db, m')) ∧ copied (rm_addr x + off) (buf + boff) rs ls bytes n m m'.
Proof.
  intros Hb Hok. rewrite <- (Z2Nat.id n) in Hok by lia.
  destruct (strided_copy_spec (Z.to_nat n) fuel 0 bytes _ _ _ _ m Hok) as (m' & Hm' & Hc);
    [lia..|].
  exists m'. split; [|by rewrite Z2Nat.id in Hc by lia].
  unfold mrapi_impl_rmem_write. rewrite Hr. erewrite bind_done by reflexivity.
  rewrite on_rmem, Hv. cbn [negb].
  destruct (Z.ltb_spec (rm_addr x + rm_size x) (rm_addr x + off + u32 (rs * n) + bytes)); [lia|].
  rewrite Z.add_0_l, Z2Nat.id in Hm' by lia. by erewrite on_mem_done.
Qed.

Lemma rmem_read_done :
  rm_addr x + off + u32 (rs * n) <= rm_addr x + rm_size x - 1 →
  copy_ok (buf + boff) (rm_addr x + off) ls rs bytes n m →
  ∃ m', mrapi_impl_rmem_read fuel rmem off buf boff bytes n rs ls (db, m)
    = Done (true, (db, m')) ∧ copied (buf + boff) (rm_addr x + off) ls rs bytes n m m'.
Proof.
  intros Hb Hok. rewrite <- (Z2Nat.id n) in Hok by lia.
  destruct (strided_copy_spec (Z.to_nat n) fuel 0 bytes _ _ _ _ m Hok) as (m' & Hm' & Hc);
    [lia..|].
  exists m'. split; [|by rewrite Z2Nat.id in Hc by lia].
  unfold mrapi_impl_rmem_read. rewrite Hr. erewrite bind_done by reflexivity.
  rewrite on_rmem, Hv. cbn [negb].
  destruct (Z.ltb_spec (rm_addr x + rm_size x - 1) (rm_addr x + off + u32 (rs * n))); [lia|].
  rewrite Z.add_0_l, Z2Nat.id in Hm' by lia. by erewrite on_mem_done.
Qed.
End transfer.

(** ** Frame and termination without assumptions on the memory *)

Lemma copy_bytes_frame k dst src m m' a :
  copy_bytes k dst src m = Done m' → ¬ (dst <= a < dst + Z.of_nat k) → m' !! a = m !! a.
Proof.
  revert dst src m. induction k as [|k IH]; intros dst src m; cbn [copy_bytes]; [congruence|].
  destruct (m !! src), (m !! dst); try done. intros Hm Ha.
  rewrite (IH _ _ _ Hm) by lia. apply lookup_insert_ne. lia.
Qed.
Lemma copy_bytes_fault k dst src m f : copy_bytes k dst src m = Fault f → f = OutOfBounds.
Proof.
  revert dst src m. induction k as [|k IH]; intros dst src m; cbn [copy_bytes]; [done|].
  destruct (m !! src), (m !! dst); try congruence. apply IH.
Qed.

Lemma strided_copy_frame k fuel i bytes dst src ds ss m :
  0 <= i → i + Z.of_nat k < 65536 → (k <= fuel)%nat → 0 <= bytes →
  match strided_copy fuel i (i + Z.of_nat k) (Z.to_nat bytes) dst src ds ss m with
  | Done m' => ∀ a, ¬ in_blocks dst ds bytes (Z.of_nat k) a → m' !! a = m !! a
  | Fault f => f = OutOfBounds
  end.
Proof.
  intros Hi Hk Hfuel Hbytes. revert fuel i dst src m Hi Hk Hfuel.
  induction k as [|k IH]; intros fuel i dst src m Hi Hk Hfuel.
  { rewrite Z.add_0_r. destruct fuel; cbn [strided_copy]; by rewrite Z.ltb_irrefl. }
  destruct fuel as [|fuel]; [lia|].
  rewrite Nat2Z.inj_succ, <- Z.add_1_r in *. cbn [strided_copy].
  destruct (Z.ltb_spec i (i + (Z.of_nat k + 1))); [|lia].
  destruct (copy_bytes (Z.to_nat bytes) dst src m) as [m1|f] eqn:Hm1;
    [|by eapply copy_bytes_fault].
  rewrite u16_small by lia.
  specialize (IH fuel (i + 1) (dst + ds) (src + ss) m1 ltac:(lia) ltac:(lia) ltac:(lia)).
  replace (i + (Z.of_nat k + 1)) with (i + 1 + Z.of_nat k) by lia.
  destruct (strided_copy _ _ _ _ _ _ _ _ _) as [m'|]; [|done].
  intros a Ha. rewrite IH, (copy_bytes_frame _ _ _ _ _ a Hm1); [done| |].
  - intros Hb. apply Ha. exists 0, (a - dst). split; [lia|]. split; lia.
  - intros Hb. by apply Ha, in_blocks_next.
Qed.

Lemma strided_copy_diverges fuel i n bytes dst src ds ss m m' :
  0 <= i < 65536 → 65536 <= n → strided_copy fuel i n bytes dst src ds ss m ≠ Done m'.
Proof.
  revert i dst src m. induction fuel as [|fuel IH]; intros i dst src m Hi Hn;
    cbn [strided_copy]; (destruct (Z.ltb_spec i n); [|lia]); [done|].
  destruct (copy_bytes bytes dst src m); [|done]. apply IH; [apply u16_range|done].
Qed.

Lemma copy_ok_dom dst src ds ss bytes n m m' :
  dom m' = dom m → copy_ok dst src ds ss bytes n m → copy_ok dst src ds ss bytes n m'.
Proof.
  intros Hd [Hs Ht Hst Hdis]. split; [| |done|done];
    intros a Ha; apply elem_of_dom; rewrite Hd; apply elem_of_dom; auto.
Qed.

(** ** Properties *)

(** C38: remote memory keeps what was written.  Writing [n] strided blocks of
    a local buffer to remote memory and reading them back into a second
    buffer makes block [i] of the second equal to block [i] of the first,
    whatever the three strides, when the regions are mapped, do not overlap
    and both bound checks pass. *)
Theorem rmem_write_read_roundtrip rmem r db x fuel off a aoff b boff bytes n rs las lbs m :
  mrapi_impl_decode_hndl rmem = (r, true) → rmems db !! r = Some x → rm_valid x = true →
  0 <= n < 65536 → (Z.to_nat n <= fuel)%nat →
  rm_addr x + off + u32 (rs * n) + Z.max bytes 1 <= rm_addr x + rm_size x →
  copy_ok (rm_addr x + off) (a + aoff) rs las bytes n m →
  copy_ok (b + boff) (rm_addr x + off) lbs rs bytes n m →
  wp (let* w := mrapi_impl_rmem_write fuel rmem off a aoff bytes n rs las in
      let* rd := mrapi_impl_rmem_read fuel rmem off b boff bytes n rs lbs in
      ret (w, rd))
    (λ res s, res = (true, true) ∧ s.1 = db ∧
       ∀ i j, 0 <= i < n → 0 <= j < bytes →
         s.2 !! (b + boff + i * lbs + j) = m !! (a + aoff + i * las + j)) (db, m).
Proof.
  intros Hr Hx Hv Hn Hf Hb Hw Hrd.
  destruct (rmem_write_done rmem r db x Hr Hx Hv fuel off a aoff bytes n rs las m Hn Hf)
    as (m1 & H1 & Hd1 & _ & Hin1); [lia|done|].
  destruct (rmem_read_done rmem r db x Hr Hx Hv fuel off b boff bytes n rs lbs m1 Hn Hf)
    as (m2 & H2 & _ & _ & Hin2); [lia|by eapply copy_ok_dom|].
  apply wp_bind. eapply wp_intro; [done|]. cbn beta. apply wp_bind.
  eapply wp_intro; [done|]. apply wp_ret. split_and!; [done|done|].
  intros i j Hi Hj. cbn [snd]. by rewrite Hin2, Hin1 by done.
Qed.

(** Remote memory of 16 bytes at 1000, a local buffer at 2000 and one at
    3000. *)
Definition ex_rmem : mrapi_rmem_t :=
  mk_rmem true MRAPI_RMEM_DUMMY 21 1000 16 zero_attributes 1
    (true :: replicate 15 false).
Definition ex_rdb : mrapi_database :=
  zero_db <| rmems := ex_rmem :: replicate 9 zero_rmem |>.
Definition ex_mem : gmap Z Z :=
  list_to_map ((λ k, (1000 + Z.of_nat k, 0)) <$> seq 0 16)
  ∪ list_to_map ((λ k, (2000 + Z.of_nat k, Z.of_nat k + 1)) <$> seq 0 8)
  ∪ list_to_map ((λ k, (3000 + Z.of_nat k, 0)) <$> seq 0 8).

Definition blocks (base stride bytes n : Z) : list Z :=
  i ← seqZ 0 n; (λ j, base + i * stride + j) <$> seqZ 0 bytes.
Lemma elem_of_blocks base stride bytes n a :
  in_blocks base stride bytes n a ↔ a ∈ blocks base stride bytes n.
Proof.
  unfold in_blocks, blocks. rewrite list_elem_of_bind. split.
  - intros (i & j & Hi & Hj & ->). exists i. split; [|rewrite elem_of_seqZ; lia].
    apply list_elem_of_fmap. exists j. split; [done|]. rewrite elem_of_seqZ. lia.
  - intros (i & (j & -> & Hj%elem_of_seqZ)%list_elem_of_fmap & Hi%elem_of_seqZ).
    exists i, j. split_and!; lia.
Qed.
Definition copy_ok_b (dst src ds ss bytes n : Z) (m : gmap Z Z) : bool :=
  forallb (λ a, bool_decide (is_Some (m !! a))) (blocks src ss bytes n) &&
  forallb (λ a, bool_decide (is_Some (m !! a))) (blocks dst ds bytes n) &&
  (0 <=? bytes) && (bytes <=? ds) &&
  forallb (λ a, negb (bool_decide (a ∈ blocks dst ds bytes n))) (blocks src ss bytes n).
Lemma copy_ok_dec dst src ds ss bytes n m :
  copy_ok_b dst src ds ss bytes n m = true → copy_ok dst src ds ss bytes n m.
Proof.
  unfold copy_ok_b. rewrite !andb_true_iff, !forallb_forall, !Z.leb_le.
  intros [[[[Hs Hd] H0] Hst] Hdis]. split; [| |lia|].
  - intros a Ha%elem_of_blocks%list_elem_of_In. by apply Hs, bool_decide_eq_true in Ha.
  - intros a Ha%elem_of_blocks%list_elem_of_In. by apply Hd, bool_decide_eq_true in Ha.
  - intros a Ha%elem_of_blocks%list_elem_of_In. apply Hdis, negb_true_iff in Ha.
    rewrite elem_of_blocks. by apply bool_decide_eq_false in Ha.
Qed.

Lemma rmem_write_read_roundtrip_witness :
  wp (let* w := mrapi_impl_rmem_write 9 0x80000000 1 2000 0 2 3 4 2 in
      let* rd := mrapi_impl_rmem_read 9 0x80000000 1 3000 0 2 3 4 2 in ret (w, rd))
    (λ res s, res = (true, true) ∧ s.1 = ex_rdb ∧
       ∀ i j, 0 <= i < 3 → 0 <= j < 2 →
         s.2 !! (3000 + 0 + i * 2 + j) = ex_mem !! (2000 + 0 + i * 2 + j)) (ex_rdb, ex_mem).
Proof.
  apply (rmem_write_read_roundtrip 0x80000000 0 ex_rdb ex_rmem 9 1 2000 0 3000 0 2 3 4 2 2 ex_mem).
  - vm_compute. reflexivity.
  - vm_compute. reflexivity.
  - reflexivity.
  - lia.
  - vm_compute. lia.
  - vm_compute. discriminate.
  - apply copy_ok_dec. vm_compute. reflexivity.
  - apply copy_ok_dec. vm_compute. reflexivity.
Defined.

Lemma strided_copy_fault fuel i n bytes dst src ds ss m f :
  strided_copy fuel i n bytes dst src ds ss m = Fault f → f = OutOfBounds ∨ f = OutOfFuel.
Proof.
  revert i dst src m. induction fuel as [|fuel IH]; intros i dst src m; cbn [strided_copy];
    (destruct (i <? n); [|done]); [intros [= <-]; by right|].
  destruct (copy_bytes bytes dst src m) as [m1|f1] eqn:Hm; [apply IH|].
  intros [= ->]. left. by eapply copy_bytes_fault.
Qed.

(** C39: a write that returns stays inside the remote buffer.  When
    [rmem_stride * num_strides] does not overflow 32 bits, whatever the length of
    the blocks: no byte outside the remote buffer changes, and none at all when the
    bound check refuses the transfer.  With fewer than 65536 strides the write ends
    after at most [num_strides] iterations, and the only fault is an address that is
    not mapped; with more, which the 16-bit counter of the loop cannot reach, a write
    is refused or never returns. *)
Theorem rmem_write_stays_inside rmem r db x fuel off buf boff bytes n rs ls m :
  mrapi_impl_decode_hndl rmem = (r, true) → rmems db !! r = Some x →
  0 <= n → (n < 65536 → (Z.to_nat n <= fuel)%nat) → 0 <= bytes → 0 <= rs → rs * n < 2 ^ 32 → 0 <= off →
  match mrapi_impl_rmem_write fuel rmem off buf boff bytes n rs ls (db, m) with
  | Done (ok, (db', m')) =>
      db' = db ∧ (if ok then n < 65536 else m' = m) ∧
      ∀ a, ¬ (rm_addr x <= a < rm_addr x + rm_size x) → m' !! a = m !! a
  | Fault f => f = OutOfBounds ∨ (f = OutOfFuel ∧ 65536 <= n)
  end.
Proof.
  intros Hr Hx Hn Hf Hb Hrs Hwrap Hoff. unfold mrapi_impl_rmem_write. rewrite Hr.
  erewrite bind_done by reflexivity. rewrite (on_rmem r db x Hx m).
  destruct (rm_valid x); cbn [negb]; [|done].
  rewrite u32_small by nia.
  destruct (Z.ltb_spec (rm_addr x + rm_size x) (rm_addr x + off + rs * n + bytes)); [done|].
  unfold on_mem, bind. cbn [snd fst]. destruct (Z.lt_ge_cases n 65536) as [Hless|Hmore].
  - pose proof (strided_copy_frame (Z.to_nat n) fuel 0 bytes (rm_addr x + off) (buf + boff)
      rs ls m ltac:(lia) ltac:(lia) (Hf Hless) ltac:(lia)) as Hc.
    rewrite Z.add_0_l, Z2Nat.id in Hc by lia.
    destruct (strided_copy _ _ _ _ _ _ _ _ _) as [m'|]; [|by left]. cbn.
    split_and!; [done..|]. intros a Ha. apply Hc. intros (i & j & Hi & Hj & ->).
    apply Ha. nia.
  - destruct (strided_copy _ _ _ _ _ _ _ _ _) as [m'|f] eqn:Hc.
    + by apply strided_copy_diverges in Hc; [|lia..].
    + apply strided_copy_fault in Hc as [-> | ->]; [by left|by right].
Qed.
(** Two overlapping blocks of five bytes, at the last offset that is accepted. *)
Lemma rmem_write_stays_inside_witness :
  (match mrapi_impl_rmem_write 2 0x80000000 7 2000 0 5 2 2 3 (ex_rdb, ex_mem) with
   | Done (ok, (db', m')) =>
       db' = ex_rdb ∧ (if ok then 2 < 65536 else m' = ex_mem) ∧
       ∀ a, ¬ (rm_addr ex_rmem <= a < rm_addr ex_rmem + rm_size ex_rmem) → m' !! a = ex_mem !! a
   | Fault f => f = OutOfBounds ∨ (f = OutOfFuel ∧ 65536 <= 2)
   end) ∧
  match mrapi_impl_rmem_write 2 0x80000000 7 2000 0 5 2 2 3 (ex_rdb, ex_mem) with
  | Done (ok, _) => ok = true
  | Fault _ => False
  end.
Proof.
  split; [|vm_compute; reflexivity].
  apply (rmem_write_stays_inside 0x80000000 0 ex_rdb ex_rmem 2 7 2000 0 5 2 2 3 ex_mem);
    [vm_compute; reflexivity|vm_compute; reflexivity|lia..].
Defined.

(** More than 65535 strides never end.  The loop counter has 16 bits, so
    for [num_strides >= 65536] no number of iterations lets a transfer that
    passed the bound check return. *)
Theorem rmem_copy_never_returns rmem db fuel off buf boff bytes n rs ls m :
  65536 <= n →
  match mrapi_impl_rmem_write fuel rmem off buf boff bytes n rs ls (db, m),
        mrapi_impl_rmem_read fuel rmem off buf boff bytes n rs ls (db, m) with
  | Done (true, _), _ | _, Done (true, _) => False
  | _, _ => True
  end.
Proof.
  intros Hn.
  assert (∀ dst src ds ss, ∃ f,
    on_mem (strided_copy fuel 0 n (Z.to_nat bytes) dst src ds ss) (db, m) = Fault f) as Hd.
  { intros dst src ds ss. unfold on_mem. cbn [snd].
    destruct (strided_copy fuel 0 n (Z.to_nat bytes) dst src ds ss m) eqn:He; [|by eexists].
    apply strided_copy_diverges in He; [done|lia|done]. }
  unfold mrapi_impl_rmem_write, mrapi_impl_rmem_read.
  destruct (mrapi_impl_decode_hndl rmem) as [r []]; [|done].
  rewrite !assert_true.
  destruct (rmems db !! r) as [x|] eqn:Hx.
  2:{ unfold on_db, bind, arr_get, bind, get. cbn. by rewrite Hx. }
  rewrite !(on_rmem r db x Hx m). destruct (rm_valid x); cbn [negb]; [|exact Logic.I].
  destruct (Hd (rm_addr x + off) (buf + boff) rs ls) as [f Hf].
  destruct (Hd (buf + boff) (rm_addr x + off) ls rs) as [g Hg].
  destruct (rm_addr x + rm_size x <? _), (rm_addr x + rm_size x - 1 <? _);
    unfold bind; rewrite ?Hf, ?Hg; exact Logic.I.
Qed.
Lemma rmem_copy_never_returns_witness :
  match mrapi_impl_rmem_write 70 0x80000000 0 2000 0 0 70000 0 0 (ex_rdb, ex_mem),
        mrapi_impl_rmem_read 70 0x80000000 0 2000 0 0 70000 0 0 (ex_rdb, ex_mem) with
  | Done (true, _), _ | _, Done (true, _) => False
  | _, _ => True
  end.
Proof. apply (rmem_copy_never_returns 0x80000000 ex_rdb 70 0 2000 0 0 70000 0 0 ex_mem). lia. Defined.

(** ** What the bound check misses *)

(** The product of the two 32-bit parameters wraps: with a stride of 2^31,
    two strides look like none, and the second block lands 2^31 bytes past
    the 16-byte buffer. *)
Definition ex_far : Z := 1000 + 2 ^ 31.
Example rmem_write_check_wraps :
  match mrapi_impl_rmem_write 2 0x80000000 0 2000 0 1 2 (2 ^ 31) 1
          (ex_rdb, <[ex_far := 0]> ex_mem) with
  | Done (ok, (_, m')) => ok = true ∧ m' !! ex_far = Some 2
  | Fault _ => False
  end.
Proof. vm_compute. done. Qed.

(** Reading exactly the whole buffer in one access is refused. *)
Example rmem_read_whole_buffer_refused :
  mrapi_impl_rmem_read 1 0x80000000 0 3000 0 8 1 16 8 (ex_rdb, ex_mem)
  = Done (false, (ex_rdb, ex_mem)).
Proof. vm_compute. reflexivity. Qed.
