(* ===== verification/ResourceSpec.v ===== *)
(** What the resource tree means: a tree of named nodes with attributes, laid
    out in memory, and the copies that a filter selects from it. *)

From S2P Require Import Prelude MrapiTypes MrapiHandles MrapiResources.

(** ** Trees *)

Record attr := mk_attr {
  a_type : rsrc_type_t;
  a_value : Z;
  a_static : mrapi_attribute_static;
  a_started : Z }.
Inductive rtree := Node {
  t_name : string;
  t_type : mrapi_resource_type;
  t_attrs : list attr;
  t_children : list rtree }.

Section rtree_ind.
Context (P : rtree → Prop).
Context (HP : ∀ name ty attrs ts, Forall P ts → P (Node name ty attrs ts)).
Fixpoint rtree_forall (t : rtree) : P t :=
  match t with
  | Node name ty attrs ts =>
      HP name ty attrs ts
        ((fix all ts : Forall P ts :=
            match ts with
            | [] => @List.Forall_nil _ P
            | t :: ts => @List.Forall_cons _ P t ts (rtree_forall t) (all ts)
            end) ts)
  end.
End rtree_ind.

Fixpoint depth (t : rtree) : nat := S (foldr (λ t, Nat.max (depth t)) 0%nat (t_children t)).
(** The nodes in the order of the search. *)
Fixpoint preorder (t : rtree) : list rtree := t :: concat (map preorder (t_children t)).
Definition is_leaf (t : rtree) : Prop := t_children t = [].
Definition of_type (ty : mrapi_resource_type) (t : rtree) : Prop := t_type t = ty.
#[export] Instance is_leaf_dec t : Decision (is_leaf t).
Proof. unfold is_leaf. destruct (t_children t); [by left|by right]. Defined.
#[export] Instance of_type_dec ty t : Decision (of_type ty t).
Proof. unfold of_type. apply _. Defined.
(** A node without its children, as the filtered tree holds it. *)
Definition strip (t : rtree) : rtree := Node (t_name t) (t_type t) (t_attrs t) [].

(** The nodes that are copied, and those that are counted. *)
Definition selected (ty : mrapi_resource_type) (t : rtree) : list rtree :=
  filter (of_type ty) (preorder t).
Definition counted (ty : mrapi_resource_type) (t : rtree) : list rtree :=
  filter is_leaf (selected ty t).

(** ** Memory layout *)

Definition value_cell (t : rsrc_type_t) (v : Z) : cell :=
  match t with RSRC_UINT16_T => Uint16 v | RSRC_UINT32_T => Uint32 v end.
Definition ptr_at (h : memory_of_cells) (p : Z) (i : nat) (q : Z) : Prop :=
  ∃ l, h !! p = Some (Pointers l) ∧ l !! i = Some q.
Record attr_at (h : memory_of_cells) (r : mrapi_resource_t) (i : nat) (a : attr) : Prop := {
  at_type : ∃ q, ptr_at h (rs_attribute_types r) i q ∧ h !! q = Some (RsrcType (a_type a));
  at_value : ∃ q, ptr_at h (rs_attribute_values r) i q ∧
                  h !! q = Some (value_cell (a_type a) (a_value a));
  at_static : ∃ q, ptr_at h (rs_attribute_static r) i q ∧ h !! q = Some (StaticFlag (a_static a));
  at_started : ∃ q, ptr_at h (rs_attribute_started r) i q ∧ h !! q = Some (Boolean (a_started a)) }.
(** The node itself, without its children. *)
Record node_at (h : memory_of_cells) (p : Z) (r : mrapi_resource_t) (t : rtree) : Prop := {
  nd_resource : h !! p = Some (Resource r);
  nd_name : h !! rs_name r = Some (Chars (t_name t));
  nd_type : rs_resource_type r = t_type t;
  nd_attributes : rs_number_of_attributes r = Z.of_nat (length (t_attrs t));
  nd_small : Z.of_nat (length (t_attrs t)) < 65536;
  nd_attrs : ∀ i a, t_attrs t !! i = Some a → attr_at h r i a }.
Inductive tree_at (h : memory_of_cells) : Z → rtree → Prop :=
| tree_at_node p r t :
    node_at h p r t →
    rs_number_of_children r = Z.of_nat (length (t_children t)) →
    Z.of_nat (length (t_children t)) < 65536 →
    (∀ i c, t_children t !! i = Some c → ∃ q, ptr_at h (rs_children r) i q ∧ tree_at h q c) →
    tree_at h p t.

Lemma ptr_at_mono h h' p i q : h ⊆ h' → ptr_at h p i q → ptr_at h' p i q.
Proof. intros Hs (l & Hp & Hi). exists l. split; [by eapply lookup_weaken|done]. Qed.
Lemma attr_at_mono h h' r i a : h ⊆ h' → attr_at h r i a → attr_at h' r i a.
Proof.
  intros Hs [(q1 & Hp1 & H1) (q2 & Hp2 & H2) (q3 & Hp3 & H3) (q4 & Hp4 & H4)].
  split; eexists; (split; [by eapply ptr_at_mono|by eapply lookup_weaken]).
Qed.
Lemma node_at_mono h h' p r t : h ⊆ h' → node_at h p r t → node_at h' p r t.
Proof.
  intros Hs [? ? ? ? ? Ha]. split; try done; try by eapply lookup_weaken.
  intros i a Hi. eapply attr_at_mono; [done|]. by apply Ha.
Qed.
Lemma tree_at_mono h h' t : h ⊆ h' → ∀ p, tree_at h p t → tree_at h' p t.
Proof.
  intros Hs. induction t as [name ty attrs ts IH] using rtree_forall. intros p Hp.
  inversion Hp as [? r ? Hn Hk Hl Hc]; subst.
  econstructor; [by eapply node_at_mono|done|done|]. intros i c Hi.
  destruct (Hc i c Hi) as (q & Hq & Ht). exists q. split; [by eapply ptr_at_mono|].
  rewrite Forall_lookup in IH. by eapply IH.
Qed.

(** Both counts in terms of the children. *)
Lemma preorder_node name ty attrs ts :
  preorder (Node name ty attrs ts) = Node name ty attrs ts :: concat (map preorder ts).
Proof. done. Qed.
Lemma selected_node ty t :
  selected ty t = (if decide (of_type ty t) then [t] else []) ++ concat (map (selected ty) (t_children t)).
Proof.
  destruct t as [name ty' attrs ts]. unfold selected at 1. rewrite preorder_node, filter_cons.
  cbn [t_children]. assert (filter (of_type ty) (concat (map preorder ts)) = concat (map (selected ty) ts)) as ->.
  { induction ts as [|t ts IH]; [done|]. cbn. by rewrite filter_app, IH. }
  by case_decide.
Qed.
Lemma counted_node ty t :
  counted ty t = (if decide (of_type ty t ∧ is_leaf t) then [t] else [])
                 ++ concat (map (counted ty) (t_children t)).
Proof.
  unfold counted at 1. rewrite selected_node, filter_app. f_equal.
  - destruct (decide (of_type ty t)); [rewrite filter_cons, filter_nil|rewrite filter_nil];
      repeat case_decide; done || tauto.
  - induction (t_children t) as [|c ts IH]; [done|]. cbn. by rewrite filter_app, IH.
Qed.
Lemma depth_child t c i : t_children t !! i = Some c → (depth c < depth t)%nat.
Proof.
  intros Hi%list_elem_of_lookup_2. destruct t as [name ty attrs ts]. cbn in *.
  enough (depth c <= foldr (λ t, Nat.max (depth t)) 0 ts)%nat by lia.
  induction Hi as [|? ? ? ? IH]; cbn; lia.
Qed.

(** ** Reading a tree back from memory *)

Section read.
Context (h : memory_of_cells).
Definition read {A} (select : cell → option A) (a : Z) : option A := h !! a ≫= select.
Definition read_pointer (p : Z) (i : nat) : option Z := read as_pointers p ≫= (.!! i).
Definition read_value (t : rsrc_type_t) (a : Z) : option Z :=
  match t with RSRC_UINT16_T => read as_uint16 a | RSRC_UINT32_T => read as_uint32 a end.
Definition read_attr (r : mrapi_resource_t) (i : nat) : option attr :=
  t ← read_pointer (rs_attribute_types r) i ≫= read as_rsrc_type;
  v ← read_pointer (rs_attribute_values r) i ≫= read_value t;
  s ← read_pointer (rs_attribute_static r) i ≫= read as_static;
  b ← read_pointer (rs_attribute_started r) i ≫= read as_boolean;
  Some (mk_attr t v s b).
Fixpoint read_tree (fuel : nat) (p : Z) : option rtree :=
  match fuel with
  | O => None
  | S fuel =>
      r ← read as_resource p;
      name ← read as_chars (rs_name r);
      attrs ← mapM (read_attr r) (seq 0 (Z.to_nat (rs_number_of_attributes r)));
      ts ← mapM (λ i, read_pointer (rs_children r) i ≫= read_tree fuel)
             (seq 0 (Z.to_nat (rs_number_of_children r)));
      guard (0 <= rs_number_of_attributes r < 65536 ∧ 0 <= rs_number_of_children r < 65536);;
      Some (Node name (rs_resource_type r) attrs ts)
  end%stdpp.

Lemma read_some {A} (select : cell → option A) a x :
  read select a = Some x → ∃ c, h !! a = Some c ∧ select c = Some x.
Proof. intros (c & Hc & Hx)%bind_Some. by exists c. Qed.
Lemma read_pointer_some p i q : read_pointer p i = Some q → ptr_at h p i q.
Proof.
  intros (l & (c & Hc & Hl)%read_some & Hi)%bind_Some. destruct c; try done. cbn in Hl. simplify_eq.
  by exists l.
Qed.
Lemma read_attr_some r i a : read_attr r i = Some a → attr_at h r i a.
Proof.
  unfold read_attr. intros Ha.
  repeat match goal with
  | H : mbind _ _ = Some _ |- _ => apply bind_Some in H as (? & ? & ?)
  end. simplify_eq.
  repeat match goal with
  | H : read_pointer _ _ = Some _ |- _ => apply read_pointer_some in H
  | H : read_value ?t _ = Some _ |- _ => destruct t; cbn in H
  | H : read _ _ = Some _ |- _ => apply read_some in H as (c & ? & ?); destruct c; try done; cbn in *; simplify_eq
  end; split; eauto.
Qed.
Lemma mapM_seq {A} (f : nat → option A) n l :
  mapM f (seq 0 n) = Some l → length l = n ∧ ∀ i x, l !! i = Some x → f i = Some x.
Proof.
  intros Hl%mapM_Some_1. split; [by rewrite <- (Forall2_length _ _ _ Hl), length_seq|].
  intros i x Hx. destruct (Forall2_lookup_r _ _ _ _ _ Hl Hx) as (k & [-> _]%lookup_seq & Hf). done.
Qed.
Lemma read_tree_sound fuel p t : read_tree fuel p = Some t → tree_at h p t.
Proof.
  revert p t. induction fuel as [|fuel IH]; intros p t Ht; [done|]. cbn [read_tree] in Ht.
  apply bind_Some in Ht as (r & (c & Hr & Hc)%read_some & Ht). destruct c; try done. cbn in Hc. simplify_eq.
  apply bind_Some in Ht as (name & (c & Hn & Hc)%read_some & Ht). destruct c; try done. cbn in Hc. simplify_eq.
  apply bind_Some in Ht as (attrs & [Hla Ha]%mapM_seq & Ht).
  apply bind_Some in Ht as (ts & [Hlt Hts]%mapM_seq & Ht).
  case_guard as Hg; [|done]. cbn in Ht. simplify_eq.
  econstructor; [split; cbn; try done; try lia| |cbn; lia|].
  - intros i a Hi. by apply read_attr_some, Ha.
  - cbn. lia.
  - intros i c Hi. specialize (Hts i c Hi). apply bind_Some in Hts as (q & Hq%read_pointer_some & Hc).
    exists q. split; [done|]. by apply IH.
Qed.
End read.

(** The tree of the header. *)
Definition chip_tree : rtree :=
  let static t v := mk_attr t v MRAPI_ATTR_STATIC MRAPI_FALSE in
  let core name id l1 l2 :=
    Node name CPU [static RSRC_UINT32_T id; static RSRC_UINT16_T l1; static RSRC_UINT16_T l2] [] in
  Node "Chip" SYSTEM []
    [Node "Core complex" CORE_COMPLEX []
       [core "Core 0" 200000001 32 128; core "Core 1" 400000002 64 256];
     Node "Crossbar" CROSSBAR [static RSRC_UINT16_T 8] [];
     Node "L3 Cache" CACHE [static RSRC_UINT16_T 1024;
                            mk_attr RSRC_UINT32_T 0 MRAPI_ATTR_DYNAMIC MRAPI_FALSE] [];
     Node "DDR" MEM [static RSRC_UINT16_T 1024; static RSRC_UINT32_T 0xfffff000] []].
Lemma chip_tree_at : tree_at chip_memory chip chip_tree.
Proof. apply (read_tree_sound chip_memory 3). by vm_compute. Qed.
