(* ===== verification/ResourceCopy.v ===== *)
(** Counting and copying of resource nodes: the search reads the tree, and every
    copy lives in blocks of its own. *)

From S2P Require Import Prelude MrapiTypes MrapiHandles MrapiResources ResourceSpec.

(** ** Reading *)

Lemma load_done {A} (select : cell → option A) a c x w :
  cells w !! a = Some c → select c = Some x → load select a w = Done (x, w).
Proof. intros Hc Hx. unfold load. erewrite bind_done by reflexivity. by rewrite Hc; cbn; rewrite Hx. Qed.
Lemma load_pointer_done p i q w :
  ptr_at (cells w) p i q → load_pointer p (Z.of_nat i) w = Done (q, w).
Proof.
  intros (l & Hp & Hi). unfold load_pointer.
  rewrite (bind_done _ _ _ _ _ (load_done as_pointers p _ l w Hp eq_refl)), Nat2Z.id. by rewrite Hi.
Qed.

(** A loop with an invariant. *)
Lemma for_u16_spec {A} (n : Z) (body : Z → A → M resources A) (I : nat → A → resources → Prop) :
  n < 65536 →
  (∀ i acc w, Z.of_nat i < n → I i acc w → wp (body (Z.of_nat i) acc) (I (S i)) w) →
  ∀ fuel i acc w, Z.of_nat i <= n → n <= Z.of_nat (fuel + i) → I i acc w →
    wp (for_u16 fuel (Z.of_nat i) n body acc) (I (Z.to_nat n)) w.
Proof.
  intros Hn Hbody. induction fuel as [|fuel IH]; intros i acc w Hi Hf HI; cbn [for_u16];
    destruct (Z.ltb_spec (Z.of_nat i) n); try lia;
    try (replace (Z.to_nat n) with i by lia; by apply wp_ret).
  apply wp_bind. eapply wp_mono; [by apply Hbody|]. intros acc' w' HI'.
  rewrite u16_small by lia. replace (Z.of_nat i + 1) with (Z.of_nat (S i)) by lia.
  apply IH; [lia|lia|done].
Qed.
Lemma for_to_spec {A} (n : Z) (body : Z → A → M resources A) (I : nat → A → resources → Prop) acc w :
  0 <= n < 65536 → I 0%nat acc w →
  (∀ i acc w, Z.of_nat i < n → I i acc w → wp (body (Z.of_nat i) acc) (I (S i)) w) →
  wp (for_to n body acc) (I (Z.to_nat n)) w.
Proof.
  intros Hn H0 Hbody. unfold for_to. apply (for_u16_spec n body I ltac:(lia) Hbody _ 0); [lia|lia|done].
Qed.

(** ** Counting *)

Lemma take_S_concat {A B} (f : A → list B) l i x :
  l !! i = Some x → concat (map f (take (S i) l)) = concat (map f (take i l)) ++ f x.
Proof. intros Hi. by rewrite (take_S_r l i x Hi), map_app, concat_app; cbn; rewrite app_nil_r. Qed.

Lemma count_exact ty t : ∀ fuel p w,
  tree_at (cells w) p t → (depth t <= fuel)%nat →
  wp (mrapi_impl_get_number_of_nodes fuel ty p)
    (λ n w', n = u16 (Z.of_nat (length (counted ty t))) ∧ w' = w) w.
Proof.
  induction t as [name ty' attrs ts IH] using rtree_forall. intros [|fuel] p w Ht Hd; [cbn in Hd; lia|].
  pose proof (depth_child (Node name ty' attrs ts)) as Hdc.
  inversion Ht as [? r ? Hn Hk Hl Hc]; subst. cbn [t_children] in *.
  cbn [mrapi_impl_get_number_of_nodes].
  apply wp_bind. eapply wp_intro; [eapply load_done; [apply (nd_resource _ _ _ _ Hn)|done]|].
  rewrite Hk, u16_small by lia. rewrite counted_node. cbn [t_children].
  destruct (Z.eqb_spec (Z.of_nat (length ts)) 0) as [He|He].
  - destruct ts; [|cbn in He; lia]. apply wp_ret. split; [|done].
    rewrite (nd_type _ _ _ _ Hn). cbn [map concat]. rewrite app_nil_r.
    destruct (decide (ty' = ty)) as [->|Hne].
    + by rewrite bool_decide_eq_true_2, decide_True by done.
    + rewrite bool_decide_eq_false_2 by (cbn; congruence). by rewrite decide_False by (intros [? _]; done).
  - rewrite decide_False by (intros [_ Hleaf]; unfold is_leaf in Hleaf; cbn in Hleaf; by rewrite Hleaf in He).
    rewrite app_nil_l.
    eapply wp_mono; [apply (for_to_spec _ _ (λ i acc w', acc = u16 (Z.of_nat (length
      (concat (map (counted ty) (take i ts))))) ∧ w' = w)); [lia|done|]|].
    + intros i acc w' Hi [-> ->]. destruct (lookup_lt_is_Some_2 ts i) as [c Hci]; [lia|].
      destruct (Hc i c Hci) as (q & Hq & Htc).
      apply wp_bind. eapply wp_intro; [by apply load_pointer_done|].
      apply wp_bind. rewrite Forall_lookup in IH.
      specialize (Hdc c i Hci).
      eapply wp_mono; [apply (IH i c Hci fuel q w Htc); lia|]. intros n w' [-> ->].
      apply wp_ret. split; [|done]. rewrite (take_S_concat _ _ _ _ Hci), length_app.
      unfold u16. rewrite <- Zplus_mod. f_equal. lia.
    + intros n w' [-> ->]. rewrite firstn_all2 by lia. done.
Qed.

(** ** Writing to memory of one's own

    The memory is what the caller found ([base]) and what has been allocated
    since ([own]). *)

(** malloc answers with an address that holds nothing. *)
Definition allocator (malloc_at : memory_of_cells → Z) : Prop :=
  ∀ h, malloc_at h ≠ 0 ∧ h !! malloc_at h = None.

Definition with_own (w0 : resources) (base own : memory_of_cells) : resources :=
  w0 <| cells := own ∪ base |>.

Section owned.
Context (malloc_at : memory_of_cells → Z) (junk : Z) (Hmalloc : allocator malloc_at).
Context (w0 : resources) (base : memory_of_cells).
Local Abbreviation W := (with_own w0 base).

Lemma wp_malloc c own (Q : Z → resources → Prop) :
  own ##ₘ base →
  (∀ q, q ≠ 0 → own !! q = None → base !! q = None → <[q := c]> own ##ₘ base →
     Q q (W (<[q := c]> own))) →
  wp (malloc malloc_at c) Q (W own).
Proof.
  intros Hd HQ. destruct (Hmalloc (own ∪ base)) as [H0 Hq].
  apply lookup_union_None in Hq as [Ho Hb].
  unfold malloc. apply wp_bind, wp_get. apply wp_bind, wp_modify, wp_ret.
  unfold with_own, set_field. cbn. rewrite insert_union_l.
  apply HQ; [done..|]. by apply map_disjoint_insert_l_2.
Qed.
Lemma wp_store_cell a c c' own (Q : unit → resources → Prop) :
  own !! a = Some c' → Q tt (W (<[a := c]> own)) → wp (store a c) Q (W own).
Proof.
  intros Ha HQ. unfold store. apply wp_bind, wp_get. apply wp_bind.
  eapply wp_oob; [by apply lookup_union_Some_l|]. apply wp_modify.
  unfold with_own, set_field. cbn. by rewrite insert_union_l.
Qed.
Lemma wp_load_cell {A} (select : cell → option A) a c x own (Q : A → resources → Prop) :
  own ##ₘ base → (own !! a = Some c ∨ base !! a = Some c) → select c = Some x →
  Q x (W own) → wp (load select a) Q (W own).
Proof.
  intros Hd Ha Hx HQ. eapply wp_intro; [|done]. eapply load_done; [|done]. cbn.
  destruct Ha; [by apply lookup_union_Some_l|by apply lookup_union_Some_r].
Qed.
Lemma wp_load_pointer p i q own (Q : Z → resources → Prop) :
  own ##ₘ base → ptr_at base p i q → Q q (W own) → wp (load_pointer p (Z.of_nat i)) Q (W own).
Proof.
  intros Hd Hp HQ. eapply wp_intro; [|done]. apply load_pointer_done.
  eapply ptr_at_mono; [|done]. by apply map_union_subseteq_r.
Qed.
Lemma wp_store_pointer p i v l own (Q : unit → resources → Prop) :
  own ##ₘ base → own !! p = Some (Pointers l) → (i < length l)%nat →
  Q tt (W (<[p := Pointers (<[i := v]> l)]> own)) →
  wp (store_pointer p (Z.of_nat i) v) Q (W own).
Proof.
  intros Hd Hp Hi HQ. destruct (lookup_lt_is_Some_2 l i Hi) as [x Hx].
  unfold store_pointer. apply wp_bind. eapply wp_load_cell; [done|by left|done|]. rewrite Nat2Z.id.
  apply wp_bind. eapply wp_oob; [done|]. by eapply wp_store_cell.
Qed.
End owned.

(** ** Filling an array of pointers

    One entry: a new cell, and a pointer to it. *)

Definition put (X : Z) (i : nat) (c : cell) (own own' : memory_of_cells) : Prop :=
  ∃ q l, own !! X = Some (Pointers l) ∧ (i < length l)%nat ∧ own !! q = None ∧
    own' = <[X := Pointers (<[i := q]> l)]> (<[q := c]> own).
Definition array_of (n : nat) (own : memory_of_cells) (X : Z) : Prop :=
  ∃ l, own !! X = Some (Pointers l) ∧ length l = n.

Section put.
Context (X : Z) (i : nat) (c : cell) (own own' : memory_of_cells) (Hput : put X i c own own').

Lemma put_cell a c' : own !! a = Some c' → as_pointers c' = None → own' !! a = Some c'.
Proof.
  destruct Hput as (q & l & HX & Hi & Hq & ->). intros Ha Hc.
  rewrite !lookup_insert_ne; [done|by intros ->; simplify_eq|]. intros <-. by simplify_eq.
Qed.
Lemma put_ptr p j r : ptr_at own p j r → p ≠ X ∨ j ≠ i → ptr_at own' p j r.
Proof.
  destruct Hput as (q & l & HX & Hi & Hq & ->). intros (l' & Hp & Hj) Hne.
  destruct (decide (p = X)) as [->|].
  - destruct Hne as [|Hne]; [done|]. simplify_eq. eexists. split; [by rewrite lookup_insert_eq|].
    by rewrite list_lookup_insert_ne.
  - exists l'. split; [|done]. rewrite !lookup_insert_ne; [done|by intros ->; simplify_eq|done].
Qed.
Lemma put_new : as_pointers c = None → ∃ q, ptr_at own' X i q ∧ own' !! q = Some c.
Proof.
  destruct Hput as (q & l & HX & Hi & Hq & ->). intros Hc. exists q. split.
  - eexists. split; [by rewrite lookup_insert_eq|]. by apply list_lookup_insert_eq.
  - rewrite lookup_insert_ne by (by intros ->; simplify_eq). by rewrite lookup_insert_eq.
Qed.
Lemma put_array n Y : array_of n own Y → array_of n own' Y.
Proof.
  destruct Hput as (q & l & HX & Hi & Hq & ->). intros (l' & HY & Hl).
  destruct (decide (Y = X)) as [->|].
  - simplify_eq. eexists. split; [by rewrite lookup_insert_eq|]. apply length_insert.
  - exists l'. split; [|done]. rewrite !lookup_insert_ne; [done|by intros ->; simplify_eq|done].
Qed.
Lemma put_size : size own' = S (size own).
Proof.
  destruct Hput as (q & l & HX & Hi & Hq & ->). rewrite map_size_insert_Some, map_size_insert_None; [done|done|].
  eexists. rewrite lookup_insert_ne; [done|by intros ->; simplify_eq].
Qed.
End put.

Lemma wp_bind_assoc {S A B C} (m : M S A) (k : A → M S B) (k' : B → M S C) Q s :
  wp (bind (bind m k) k') Q s ↔ wp (bind m (λ a, bind (k a) k')) Q s.
Proof. unfold wp. by rewrite bind_assoc. Qed.
(** A last statement followed by nothing. *)
Lemma wp_last {S A} (m : M S A) (k : A → M S unit) Q s :
  wp (bind m k) Q s ↔ wp (bind m (λ a, bind (k a) (λ _, ret tt))) Q s.
Proof.
  unfold wp, bind. destruct (m s) as [[a s1]|]; [|done]. by destruct (k a s1) as [[[] s2]|].
Qed.

(** A lookup in memory that was just allocated. *)
Ltac read_off := rewrite ?lookup_insert_ne by done; by rewrite lookup_insert_eq.

Section copy.
Context (malloc_at : memory_of_cells → Z) (junk : Z) (Hmalloc : allocator malloc_at).
Context (w0 : resources) (base : memory_of_cells).
Local Abbreviation W := (with_own w0 base).

Lemma wp_put {A} c X i n (k : Z → M resources A) own (Q : A → resources → Prop) :
  own ##ₘ base → array_of n own X → (i < n)%nat →
  (∀ q own', put X i c own own' → own' ##ₘ base → wp (k q) Q (W own')) →
  wp (let* q := malloc malloc_at c in store_pointer X (Z.of_nat i) q;; k q) Q (W own).
Proof.
  intros Hd (l & HX & Hl) Hi HQ. apply wp_bind. apply wp_malloc; [done..|].
  intros q H0 Hq Hb Hd'. apply wp_bind.
  assert (q ≠ X) as Hne by (by intros ->; simplify_eq).
  eapply wp_store_pointer; [done|by rewrite lookup_insert_ne|lia|].
  apply HQ; [exists q, l; split_and!; [done|lia|done..]|].
  apply map_disjoint_insert_l_2; [|done]. eapply map_disjoint_Some_l; [exact Hd|exact HX].
Qed.

(** The four arrays of a copy with [n] attributes, and the copies made so far. *)
Record arrays (n : nat) (child : mrapi_resource_t) (own : memory_of_cells) : Prop := {
  ar_values : array_of n own (rs_attribute_values child);
  ar_types : array_of n own (rs_attribute_types child);
  ar_static : array_of n own (rs_attribute_static child);
  ar_started : array_of n own (rs_attribute_started child);
  ar_distinct : NoDup [rs_attribute_values child; rs_attribute_types child;
                       rs_attribute_static child; rs_attribute_started child] }.
Definition copied_attr (child : mrapi_resource_t) (i : nat) (a : attr)
    (own own' : memory_of_cells) : Prop :=
  ∃ o1 o2 o3, put (rs_attribute_values child) i (value_cell (a_type a) (a_value a)) own o1 ∧
    put (rs_attribute_types child) i (RsrcType (a_type a)) o1 o2 ∧
    put (rs_attribute_static child) i (StaticFlag (a_static a)) o2 o3 ∧
    put (rs_attribute_started child) i (Boolean (a_started a)) o3 own'.

Lemma copy_attribute_spec src child n i a own :
  own ##ₘ base → arrays n child own → (i < n)%nat → attr_at base src i a →
  wp (copy_attribute malloc_at src child (Z.of_nat i))
    (λ _ w, ∃ own', w = W own' ∧ own' ##ₘ base ∧ copied_attr child i a own own') (W own).
Proof.
  intros Hd [Hv Ht Hs Hb Hnd] Hi [(q1 & Hp1 & H1) (q2 & Hp2 & H2) (q3 & Hp3 & H3) (q4 & Hp4 & H4)].
  unfold copy_attribute. apply wp_bind. eapply wp_load_pointer; [done..|].
  apply wp_bind. eapply wp_load_cell; [done|by right|done|].
  apply wp_bind. eapply wp_load_pointer; [done..|].
  assert (∀ (k : Z → M resources unit) Q,
      wp (let* dest := malloc malloc_at (value_cell (a_type a) (a_value a)) in k dest) Q (W own) →
      wp (let* dest := match a_type a with
          | RSRC_UINT16_T => let* v := load as_uint16 q2 in malloc malloc_at (Uint16 v)
          | RSRC_UINT32_T => let* v := load as_uint32 q2 in malloc malloc_at (Uint32 v)
          end in k dest) Q (W own)) as Hdest.
  { intros k Q HQ. destruct (a_type a); rewrite wp_bind_assoc; apply wp_bind;
      (eapply wp_load_cell; [done|by right|done|exact HQ]). }
  apply Hdest. clear Hdest.
  eapply wp_put; [done|done|done|]. intros d o1 Ho1 Hd1.
  eapply wp_put; [done|by eapply put_array|done|]. intros t o2 Ho2 Hd2.
  apply wp_bind. eapply wp_load_pointer; [done..|]. apply wp_bind. eapply wp_load_cell; [done|by right|done|].
  eapply wp_put; [done|by do 2 (eapply put_array; [done|])|done|]. intros u o3 Ho3 Hd3.
  apply wp_bind. eapply wp_load_pointer; [done..|]. apply wp_bind. eapply wp_load_cell; [done|by right|done|].
  rewrite wp_last. eapply wp_put; [done|by do 3 (eapply put_array; [done|])|done|]. intros b o4 Ho4 Hd4.
  apply wp_ret. exists o4. split_and!; [done|done|]. by exists o1, o2, o3.
Qed.

(** What one attribute adds. *)
Lemma put_attr_at X k c own own' child j b :
  put X k c own own' →
  (k ≠ j ∨ X ∉ [rs_attribute_types child; rs_attribute_values child;
                rs_attribute_static child; rs_attribute_started child]) →
  attr_at own child j b → attr_at own' child j b.
Proof.
  intros Hp Hne [(q1 & Hp1 & H1) (q2 & Hp2 & H2) (q3 & Hp3 & H3) (q4 & Hp4 & H4)].
  assert (as_pointers (value_cell (a_type b) (a_value b)) = None) as Hv by (by destruct (a_type b)).
  split; eexists; (split; [eapply put_ptr; [done|done|]|by eapply put_cell]);
    (destruct Hne as [|Hne]; [right; congruence|left; intros He; apply Hne; rewrite <- He; set_solver]).
Qed.
Lemma copied_attr_spec child n i a own own' :
  arrays n child own → copied_attr child i a own own' →
  arrays n child own' ∧ attr_at own' child i a ∧
  (∀ j b, j ≠ i → attr_at own child j b → attr_at own' child j b) ∧
  (∀ p c, own !! p = Some c → as_pointers c = None → own' !! p = Some c) ∧
  size own' = (4 + size own)%nat.
Proof.
  intros [Hv Ht Hs Hb Hnd] (o1 & o2 & o3 & H1 & H2 & H3 & H4).
  assert (as_pointers (value_cell (a_type a) (a_value a)) = None) as Hc by (by destruct (a_type a)).
  destruct (put_new _ _ _ _ _ H1 Hc) as (q1 & Hp1 & Hq1).
  destruct (put_new _ _ _ _ _ H2 eq_refl) as (q2 & Hp2 & Hq2).
  destruct (put_new _ _ _ _ _ H3 eq_refl) as (q3 & Hp3 & Hq3).
  destruct (put_new _ _ _ _ _ H4 eq_refl) as (q4 & Hp4 & Hq4).
  rewrite !NoDup_cons, !elem_of_cons in Hnd.
  split_and!.
  - split; [..|rewrite !NoDup_cons, !elem_of_cons; tauto];
      by do 4 (eapply put_array; [done|]).
  - split; eexists; (split;
      [repeat (first [exact Hp1|exact Hp2|exact Hp3|exact Hp4|eapply put_ptr; [done| |left; intros He; rewrite He in *; tauto]])
      |repeat (first [exact Hq1|exact Hq2|exact Hq3|exact Hq4|eapply put_cell; [done| |done]])]).
  - intros j b Hj Hat. do 4 (eapply put_attr_at; [done|by left|]). done.
  - intros p c Hp Hcp. do 4 (eapply put_cell; [done| |done]). done.
  - rewrite (put_size _ _ _ _ _ H4), (put_size _ _ _ _ _ H3), (put_size _ _ _ _ _ H2), (put_size _ _ _ _ _ H1). done.
Qed.

(** After [k] attributes. *)
Record half_copied (p : Z) (child : mrapi_resource_t) (t : rtree) (k : nat)
    (own : memory_of_cells) : Prop := {
  hc_arrays : arrays (length (t_attrs t)) child own;
  hc_resource : own !! p = Some (Resource child);
  hc_name : own !! rs_name child = Some (Chars (t_name t));
  hc_attrs : ∀ j a, (j < k)%nat → t_attrs t !! j = Some a → attr_at own child j a;
  hc_size : size own = (6 + 4 * k)%nat }.

Lemma copy_attributes_spec src t p p0 child own :
  node_at base p0 src t → own ##ₘ base → half_copied p child t 0 own →
  wp (for_to (rs_number_of_attributes src) (λ i _, copy_attribute malloc_at src child i) tt)
    (λ _ w, ∃ own', w = W own' ∧ own' ##ₘ base ∧ half_copied p child t (length (t_attrs t)) own')
    (W own).
Proof.
  intros Hn Hd H0. rewrite (nd_attributes _ _ _ _ Hn).
  pose proof (nd_small _ _ _ _ Hn).
  eapply wp_mono; [apply (for_to_spec _ _ (λ k _ w,
    ∃ own', w = W own' ∧ own' ##ₘ base ∧ half_copied p child t k own')); [lia|by exists own|]
    |intros ? w; by rewrite Nat2Z.id].
  intros k _ w Hk (own1 & -> & Hd1 & [Har Hr Hnm Hat Hsz]).
  destruct (lookup_lt_is_Some_2 (t_attrs t) k) as [a Ha]; [lia|].
  eapply wp_mono; [eapply (copy_attribute_spec src child _ k a own1 Hd1 Har); [lia|]|].
  { by eapply nd_attrs. }
  intros _ w (own2 & -> & Hd2 & Hc). exists own2. split_and!; [done|done|].
  destruct (copied_attr_spec child _ k a own1 own2 Har Hc) as (Har2 & Hnew & Hold & Hcell & Hsz2).
  split; [done|by apply Hcell|by apply Hcell| |lia].
  intros j b Hj Hb. destruct (decide (j = k)) as [->|]; [by simplify_eq|].
  apply Hold; [done|]. apply Hat; [lia|done].
Qed.

Lemma array_of_replicate (own : memory_of_cells) X n :
  own !! X = Some (Pointers (replicate n junk)) → array_of n own X.
Proof. intros HX. exists (replicate n junk). by rewrite length_replicate. Qed.

Lemma copy_node_spec src t p0 :
  node_at base p0 src t →
  wp (copy_node malloc_at junk src) (λ p w, ∃ own r, w = W own ∧ own ##ₘ base ∧
    node_at own p r (strip t) ∧ rs_number_of_children r = 0 ∧ p ≠ 0 ∧ rs_name r ≠ 0 ∧
    size own = (6 + 4 * length (t_attrs t))%nat) (W ∅).
Proof.
  intros Hn. pose proof (nd_attributes _ _ _ _ Hn) as Hlen. unfold copy_node.
  assert (Z.to_nat (rs_number_of_attributes src) = length (t_attrs t)) as Hl by lia.
  apply wp_bind. apply wp_malloc; [done|apply map_disjoint_empty_l|]. intros p Hp0 _ Hpb Hd1.
  apply wp_bind. eapply wp_load_cell; [done|right; apply (nd_name _ _ _ _ Hn)|done|].
  apply wp_bind. apply wp_malloc; [done..|]. intros nm Hnm0 Hnm _ Hd2.
  unfold malloc_pointers.
  apply wp_bind. apply wp_malloc; [done..|]. intros vs _ Hvs _ Hd3.
  apply wp_bind. apply wp_malloc; [done..|]. intros ts _ Hts _ Hd4.
  apply wp_bind. apply wp_malloc; [done..|]. intros ss _ Hss _ Hd5.
  apply wp_bind. apply wp_malloc; [done..|]. intros bs _ Hbs _ Hd6.
  repeat match goal with
  | H : <[_ := _]> _ !! _ = None |- _ => apply lookup_insert_None in H as [H ?]
  end.
  rewrite Hl in *.
  apply wp_bind. eapply wp_store_cell.
  { rewrite !lookup_insert_ne by done. by rewrite lookup_insert_eq. }
  set (child := mk_resource nm (rs_resource_type src) 0 0 (rs_number_of_attributes src) ts vs ss bs).
  apply wp_bind.
  match goal with |- wp _ _ (W ?o) => set (own := o) end.
  assert (half_copied p child t 0 own) as Hhalf.
  { subst own child. split.
    - split; try (apply array_of_replicate; cbn; read_off).
      cbn. rewrite !NoDup_cons, !elem_of_cons, !elem_of_nil. split_and!; try apply NoDup_nil_2;
        intros Hin; repeat match type of Hin with _ ∨ _ => destruct Hin as [Hin|Hin] end; congruence.
    - read_off.
    - cbn. read_off.
    - intros j a Hj. exfalso. by apply Nat.nlt_0_r in Hj.
    - rewrite map_size_insert_Some by (eexists; read_off).
      rewrite !map_size_insert_None by (rewrite ?lookup_insert_ne by done; done). by rewrite map_size_empty. }
  assert (own ##ₘ base) as Hd by (subst own; apply map_disjoint_insert_l_2; done).
  eapply wp_mono; [by apply (copy_attributes_spec src t p p0 child own)|].
  intros _ w (own' & -> & Hd' & [Har Hr Hnm' Hat Hsz]). apply wp_ret.
  exists own', child. split_and!; [done|done| |done|done|done|done].
  split; [done|done|apply (nd_type _ _ _ _ Hn)|done|apply (nd_small _ _ _ _ Hn)|].
  intros j a Ha. cbn in Ha. apply Hat; [by eapply lookup_lt_Some|done].
Qed.
End copy.
