(* ===== verification/ResourceTree.v ===== *)
(** The filtered tree while it is built: the copies so far, each in blocks of
    its own, and the array that points to them; and its release. *)

From S2P Require Import Prelude MrapiTypes MrapiHandles MrapiResources ResourceSpec ResourceCopy.

(** The blocks of a copy: the node and its name, four arrays, and four cells for
    each attribute. *)
Definition copy_blocks (t : rtree) : nat := 6 + 4 * length (t_attrs t).
Definition blocks (ts : list rtree) : nat := sum_list (copy_blocks <$> ts).
Lemma blocks_app ts ts' : blocks (ts ++ ts') = (blocks ts + blocks ts')%nat.
Proof. unfold blocks. by rewrite fmap_app, sum_list_with_app. Qed.

(** [root]: the filtered tree, with the copies [cs] of the nodes [ts]; the array
    has room for [n]. *)
Record building (root : Z) (f : mrapi_resource_t) (n : nat) (cs : list (Z * mrapi_resource_t))
    (ts : list rtree) (own : memory_of_cells) : Prop := {
  bd_root : own !! root = Some (Resource f);
  bd_name : own !! rs_name f = Some (Chars "filtered tree");
  bd_array : ∃ l, own !! rs_children f = Some (Pointers l) ∧ length l = n ∧
                  ∀ j c, cs !! j = Some c → l !! j = Some c.1;
  bd_copies : Forall2 (λ c t, node_at (delete (rs_children f) own) c.1 c.2 (strip t) ∧
                              rs_number_of_children c.2 = 0 ∧ c.1 ≠ 0 ∧
                              rs_name c.2 ≠ 0) cs ts;
  bd_nodes : NoDup (root :: cs.*1);
  bd_names : NoDup (rs_name f :: (rs_name <$> cs.*2));
  bd_size : size own = (3 + blocks ts)%nat }.

Lemma concat_split {A B} (g : A → list B) l k x :
  l !! k = Some x →
  concat (map g l) = concat (map g (take k l)) ++ g x ++ concat (map g (drop (S k) l)).
Proof.
  intros Hk. rewrite <- (take_drop_middle l k x Hk) at 1. by rewrite map_app, concat_app.
Qed.

Section create.
Context (malloc_at : memory_of_cells → Z) (junk : Z) (Hmalloc : allocator malloc_at).
Context (w0 : resources) (base : memory_of_cells).
Local Abbreviation W := (with_own w0 base).

Lemma with_own_nested own own1 :
  with_own (W own) (own ∪ base) own1 = W (own1 ∪ own).
Proof. unfold with_own, set_field. cbn. by rewrite (assoc_L (∪)). Qed.
Lemma with_own_start own : W own = with_own (W own) (own ∪ base) ∅.
Proof. by rewrite with_own_nested, (left_id_L ∅ (∪)). Qed.

(** The nodes and the names in memory. *)
Lemma building_nodes root f n cs ts own q :
  building root f n cs ts own → q ∈ root :: cs.*1 → is_Some (own !! q).
Proof.
  intros Hb [->|Hq]%elem_of_cons; [by eexists; apply (bd_root _ _ _ _ _ _ Hb)|].
  apply list_elem_of_fmap in Hq as (c & -> & [j Hj]%list_elem_of_lookup).
  destruct (Forall2_lookup_l _ _ _ _ _ (bd_copies _ _ _ _ _ _ Hb) Hj) as (t & _ & Hn & _).
  pose proof (nd_resource _ _ _ _ Hn) as [_ Hx]%lookup_delete_Some. by eexists.
Qed.
Lemma building_names root f n cs ts own q :
  building root f n cs ts own → q ∈ rs_name f :: (rs_name <$> cs.*2) → is_Some (own !! q).
Proof.
  intros Hb [->|Hq]%elem_of_cons; [by eexists; apply (bd_name _ _ _ _ _ _ Hb)|].
  rewrite <- list_fmap_compose in Hq.
  apply list_elem_of_fmap in Hq as (c & -> & [j Hj]%list_elem_of_lookup).
  destruct (Forall2_lookup_l _ _ _ _ _ (bd_copies _ _ _ _ _ _ Hb) Hj) as (t & _ & Hn & _).
  pose proof (nd_name _ _ _ _ Hn) as [_ Hx]%lookup_delete_Some. by eexists.
Qed.

(** One more copy. *)
Lemma building_extend root f n cs ts own own1 p r t l :
  building root f n cs ts own → own1 ##ₘ own →
  own !! rs_children f = Some (Pointers l) → (length cs < n)%nat →
  node_at own1 p r (strip t) → rs_number_of_children r = 0 → p ≠ 0 → rs_name r ≠ 0 →
  size own1 = copy_blocks t → (∀ j c, cs !! j = Some c → l !! j = Some c.1) → length l = n →
  building root f n (cs ++ [(p, r)]) (ts ++ [t])
    (<[rs_children f := Pointers (<[length cs := p]> l)]> (own1 ∪ own)).
Proof.
  intros Hb Hd Hl Hlt Hnode Hk H0 Hn0 Hsz Hall Hlen.
  pose proof Hb as [Hr Hn _ Hc Hnd Hnm Hs].
  assert (∀ a c, own !! a = Some c → (own1 ∪ own) !! a = Some c) as Hin.
  { intros a c Ha. by apply lookup_union_Some_r. }
  assert (∀ a c, own !! a = Some c → own1 !! a = None) as Hout.
  { intros a c Ha. by eapply map_disjoint_Some_r. }
  assert (length cs = length ts) as Hct by (by eapply Forall2_length).
  split.
  - rewrite lookup_insert_ne; [by apply Hin|]. intros He. rewrite He in *. congruence.
  - rewrite lookup_insert_ne; [by apply Hin|]. intros He. rewrite He in *. congruence.
  - eexists. split; [by rewrite lookup_insert_eq|]. rewrite length_insert. split; [done|].
    intros j c [[Hj Hc']|[-> <-]]%lookup_snoc_Some.
    + rewrite list_lookup_insert_ne by lia. by apply Hall.
    + apply list_lookup_insert_eq. lia.
  - rewrite delete_insert_eq. apply Forall2_app.
    + eapply Forall2_impl; [exact Hc|]. intros c t' (Hnode' & ? & ? & ?). split_and!; [|done..].
      eapply node_at_mono; [|exact Hnode']. apply delete_mono. by apply map_union_subseteq_r.
    + constructor; [|constructor]. split_and!; [|done..]. eapply node_at_mono; [|exact Hnode].
      apply map_subseteq_spec. intros a c Ha. rewrite lookup_delete_ne.
      * by apply lookup_union_Some_l.
      * intros <-. by rewrite (Hout _ _ Hl) in Ha.
  - rewrite fmap_app, app_comm_cons. apply NoDup_app. split_and!; [done| |apply NoDup_singleton].
    intros q Hq ->%list_elem_of_singleton. cbn in Hq.
    destruct (building_nodes _ _ _ _ _ _ _ Hb Hq) as [c Hp].
    pose proof (nd_resource _ _ _ _ Hnode) as Hx. by rewrite (Hout _ _ Hp) in Hx.
  - rewrite !fmap_app, app_comm_cons. apply NoDup_app. split_and!; [done| |apply NoDup_singleton].
    intros q Hq ->%list_elem_of_singleton. cbn in Hq.
    destruct (building_names _ _ _ _ _ _ _ Hb Hq) as [c Hp].
    pose proof (nd_name _ _ _ _ Hnode) as Hx. by rewrite (Hout _ _ Hp) in Hx.
  - rewrite map_size_insert_Some by (eexists; by apply Hin).
    rewrite map_size_disj_union by done. rewrite Hsz, Hs, blocks_app. cbn. lia.
Qed.

(** The branch of the search that copies a node. *)
Lemma copy_step root f n cs ts own src t p0 :
  building root f n cs ts own → own ##ₘ base → (length cs < n)%nat → Z.of_nat n < 65536 →
  node_at base p0 src t →
  wp (let* new_child := copy_node malloc_at junk src in
      let* f := load as_resource root in
      store_pointer (rs_children f) (Z.of_nat (length cs)) new_child;;
      ret (u16 (Z.of_nat (length cs) + 1)))
    (λ i w, ∃ own' c, w = W own' ∧ own' ##ₘ base ∧ building root f n (cs ++ [c]) (ts ++ [t]) own' ∧
       i = Z.of_nat (S (length cs))) (W own).
Proof.
  intros Hb Hd Hlt Hn Hnode. rewrite with_own_start at 1. apply wp_bind.
  eapply wp_mono; [apply (copy_node_spec malloc_at junk Hmalloc (W own) (own ∪ base) src t p0)|].
  { eapply node_at_mono; [|exact Hnode]. by apply map_union_subseteq_r. }
  intros p w (own1 & r & -> & Hd1 & Hnode1 & Hk & H0 & Hn0 & Hsz). rewrite with_own_nested.
  apply map_disjoint_union_r in Hd1 as [Hd1 Hd2].
  assert (own1 ∪ own ##ₘ base) as Hd3 by (by apply map_disjoint_union_l).
  pose proof (bd_array _ _ _ _ _ _ Hb) as (l & Hl & Hlen & Hall).
  apply wp_bind. eapply wp_load_cell; [done|left; apply lookup_union_Some_r; [done|apply (bd_root _ _ _ _ _ _ Hb)]|done|].
  apply wp_bind. eapply wp_store_pointer; [done|by apply lookup_union_Some_r|lia|].
  apply wp_ret. eexists _, (p, r). split; [done|]. split_and!.
  - apply map_disjoint_insert_l_2; [|done]. eapply map_disjoint_Some_l; [exact Hd|exact Hl].
  - by eapply building_extend.
  - rewrite u16_small; lia.
Qed.

Lemma create_tree_spec ty t : ∀ fuel p root f n cs ts own,
  tree_at base p t → (depth t <= fuel)%nat → building root f n cs ts own → own ##ₘ base →
  (length cs + length (selected ty t) <= n)%nat → Z.of_nat n < 65536 →
  wp (mrapi_impl_create_rsrc_tree malloc_at junk fuel ty p (Z.of_nat (length cs)) root)
    (λ i w, ∃ own' cs', w = W own' ∧ own' ##ₘ base ∧
       building root f n (cs ++ cs') (ts ++ selected ty t) own' ∧
       i = Z.of_nat (length (cs ++ cs'))) (W own).
Proof.
  induction t as [name ty' attrs kids IH] using rtree_forall.
  intros [|fuel] p root f n cs ts own Ht Hd Hb Hdis Hroom Hn; [cbn in Hd; lia|].
  pose proof (depth_child (Node name ty' attrs kids)) as Hdc.
  set (t := Node name ty' attrs kids) in *.
  inversion Ht as [? r ? Hnode Hk Hl Hc]; subst.
  rewrite selected_node in Hroom |- *. change (t_children t) with kids in *.
  cbn [mrapi_impl_create_rsrc_tree].
  apply wp_bind. eapply wp_load_cell; [done|right; apply (nd_resource _ _ _ _ Hnode)|done|].
  apply wp_bind.
  set (here := if decide (of_type ty t) then [t] else []) in *.
  assert (wp (if bool_decide (ty = rs_resource_type r) then
      let* new_child := copy_node malloc_at junk r in
      let* f := load as_resource root in
      store_pointer (rs_children f) (Z.of_nat (length cs)) new_child;;
      ret (u16 (Z.of_nat (length cs) + 1)) else ret (Z.of_nat (length cs)))
    (λ i w, ∃ own' cs', w = W own' ∧ own' ##ₘ base ∧ building root f n (cs ++ cs') (ts ++ here) own' ∧
       i = Z.of_nat (length (cs ++ cs')) ∧ length cs' = length here) (W own)) as Hhere.
  { rewrite (nd_type _ _ _ _ Hnode). subst here. unfold of_type in *.
    destruct (decide (t_type t = ty)) as [He|He].
    - rewrite bool_decide_eq_true_2 by done. rewrite length_app in Hroom. cbn [length] in Hroom.
      eapply wp_mono; [eapply copy_step; [done|done|lia|done|done]|].
      intros i w (own' & c & -> & Hd' & Hb' & ->). exists own', [c]. split_and!; try done.
      rewrite length_app. cbn. lia.
    - rewrite bool_decide_eq_false_2 by congruence. apply wp_ret. exists own, []. by rewrite !app_nil_r. }
  eapply wp_mono; [exact Hhere|]. clear Hhere.
  intros i w (own1 & cs1 & -> & Hd1 & Hb1 & -> & Hl1). rewrite Hk.
  destruct (Z.eqb_spec (Z.of_nat (length kids)) 0) as [He|He].
  - destruct kids; [|cbn in He; lia]. apply wp_ret. exists own1, cs1. cbn. by rewrite app_nil_r.
  - eapply wp_mono; [apply (for_to_spec _ _ (λ k acc w, ∃ own' cs', w = W own' ∧ own' ##ₘ base ∧
      building root f n (cs ++ cs') (ts ++ here ++ concat (map (selected ty) (take k kids))) own' ∧
      acc = Z.of_nat (length (cs ++ cs'))))|].
    + cbn in Hl. lia.
    + exists own1, cs1. cbn. by rewrite app_nil_r.
    + intros k acc w Hki (own2 & cs2 & -> & Hd2 & Hb2 & ->).
      destruct (lookup_lt_is_Some_2 kids k) as [c Hci]; [lia|].
      destruct (Hc k c Hci) as (q & Hq & Htc).
      apply wp_bind. eapply wp_load_pointer; [done..|].
      rewrite Forall_lookup in IH. specialize (Hdc c k Hci).
      pose proof (Forall2_length _ _ _ (bd_copies _ _ _ _ _ _ Hb2)) as Hlen2.
      pose proof (Forall2_length _ _ _ (bd_copies _ _ _ _ _ _ Hb)) as Hlen0.
      pose proof (concat_split (selected ty) kids k c Hci) as Hsplit.
      rewrite Hsplit, !length_app in Hroom. rewrite !length_app in Hlen2.
      eapply wp_mono; [eapply (IH k c Hci fuel q root f n); [done|lia|exact Hb2|done|rewrite length_app; lia|done]|].
      intros i w (own3 & cs3 & -> & Hd3 & Hb3 & ->). exists own3, (cs2 ++ cs3).
      rewrite (take_S_concat _ _ _ _ Hci). rewrite <- !app_assoc in Hb3. rewrite <- !app_assoc in *. by split_and!.
    + intros i w (own3 & cs3 & -> & Hd3 & Hb3 & ->). exists own3, cs3.
      by rewrite Nat2Z.id, firstn_all in Hb3.
Qed.
End create.

(** ** Releasing a filtered tree: which blocks are given back, and which stay. *)

(** ** Removing several blocks *)

Definition without (ks : list Z) (own : memory_of_cells) : memory_of_cells := foldr delete own ks.
Lemma lookup_without ks own a c :
  own !! a = Some c → a ∉ ks → without ks own !! a = Some c.
Proof. intros Ha Hn. unfold without. by rewrite lookup_foldr_delete_not_elem_of. Qed.
Lemma without_subseteq ks own : without ks own ⊆ own.
Proof. induction ks as [|k ks IH]; cbn; [done|]. etrans; [apply delete_subseteq|exact IH]. Qed.
Lemma without_cons k ks own : delete k (without ks own) = without (k :: ks) own.
Proof. done. Qed.
Lemma without_size ks own :
  NoDup ks → (∀ k, k ∈ ks → is_Some (own !! k)) →
  (size (without ks own) + length ks = size own)%nat.
Proof.
  induction 1 as [|k ks Hk Hnd IH]; intros Hin; [cbn; lia|].
  destruct (Hin k ltac:(by left)) as [c Hc].
  rewrite <- without_cons. pose proof (lookup_without ks own k c Hc Hk) as Hk'.
  pose proof (map_size_delete_Some k (without ks own) ltac:(by eexists)) as Hsz.
  assert (size (without ks own) ≠ 0%nat).
  { intros Hz. apply map_size_empty_inv in Hz. rewrite Hz in Hk'. done. }
  specialize (IH ltac:(intros; apply Hin; by right)). cbn [length]. lia.
Qed.

Section free.
Context (w0 : resources) (base : memory_of_cells).
Local Abbreviation W := (with_own w0 base).

Lemma wp_free a own (Q : unit → resources → Prop) :
  own ##ₘ base → is_Some (own !! a) → a ≠ 0 → Q tt (W (delete a own)) → wp (free a) Q (W own).
Proof.
  intros Hd [c Ha] H0 HQ. unfold free. destruct (Z.eqb_spec a 0); [done|].
  apply wp_bind, wp_get. apply wp_bind. eapply wp_oob; [by apply lookup_union_Some_l|].
  apply wp_modify. unfold with_own, set_field in *. cbn.
  rewrite delete_union, (delete_id base); [done|]. eapply map_disjoint_Some_l; [exact Hd|exact Ha].
Qed.
Lemma wp_free_null (Q : unit → resources → Prop) w : Q tt w → wp (free 0) Q w.
Proof. done. Qed.

Lemma without_disjoint ks own : own ##ₘ base → without ks own ##ₘ base.
Proof. intros Hd. eapply map_disjoint_weaken_l; [exact Hd|apply without_subseteq]. Qed.

End free.

(** ** The blocks that are freed *)

(** The last freed first. *)
Definition freed (cs : list (Z * mrapi_resource_t)) : list Z :=
  concat ((λ c, [c.1; rs_name c.2]) <$> rev cs).
Lemma freed_snoc cs c : freed (cs ++ [c]) = c.1 :: rs_name c.2 :: freed cs.
Proof. unfold freed. by rewrite rev_app_distr. Qed.
Lemma freed_perm cs : freed cs ≡ₚ cs.*1 ++ (rs_name <$> cs.*2).
Proof.
  induction cs as [|c cs IH] using rev_ind; [done|].
  rewrite freed_snoc, IH, !fmap_app. cbn. solve_Permutation.
Qed.

Section building.
Context (root : Z) (f : mrapi_resource_t) (n : nat) (cs : list (Z * mrapi_resource_t)).
Context (ts : list rtree) (own : memory_of_cells) (Hb : building root f n cs ts own).

Lemma copy_resource p : p ∈ cs.*1 → ∃ r, own !! p = Some (Resource r).
Proof.
  intros (c & -> & [j Hj]%list_elem_of_lookup)%list_elem_of_fmap.
  destruct (Forall2_lookup_l _ _ _ _ _ (bd_copies _ _ _ _ _ _ Hb) Hj) as (t & _ & Hn & _).
  pose proof (nd_resource _ _ _ _ Hn) as [_ Hx]%lookup_delete_Some. by eexists.
Qed.
Lemma copy_name p : p ∈ rs_name <$> cs.*2 → ∃ s, own !! p = Some (Chars s).
Proof.
  rewrite <- list_fmap_compose. intros (c & -> & [j Hj]%list_elem_of_lookup)%list_elem_of_fmap.
  destruct (Forall2_lookup_l _ _ _ _ _ (bd_copies _ _ _ _ _ _ Hb) Hj) as (t & _ & Hn & _).
  pose proof (nd_name _ _ _ _ Hn) as [_ Hx]%lookup_delete_Some. by eexists.
Qed.
(** Everything that is freed, in memory and without repetition. *)
Definition all_freed : list Z := root :: rs_name f :: rs_children f :: freed cs.
Lemma all_freed_perm :
  all_freed ≡ₚ rs_children f :: (root :: cs.*1) ++ (rs_name f :: (rs_name <$> cs.*2)).
Proof. unfold all_freed. rewrite freed_perm. cbn. solve_Permutation. Qed.
Lemma all_freed_there p : p ∈ all_freed → is_Some (own !! p).
Proof.
  rewrite all_freed_perm, elem_of_cons, elem_of_app. intros [->|[Hp|Hp]].
  - destruct (bd_array _ _ _ _ _ _ Hb) as (l & Hl & _). by eexists.
  - by eapply building_nodes.
  - by eapply building_names.
Qed.
Lemma all_freed_nodup : NoDup all_freed.
Proof.
  rewrite all_freed_perm. destruct (bd_array _ _ _ _ _ _ Hb) as (l & Hl & _).
  apply NoDup_cons. split.
  - rewrite elem_of_app, !elem_of_cons. intros [[He|Hp]|[He|Hp]].
    + pose proof (bd_root _ _ _ _ _ _ Hb). congruence.
    + apply copy_resource in Hp as [r Hp]. congruence.
    + pose proof (bd_name _ _ _ _ _ _ Hb). congruence.
    + apply copy_name in Hp as [s Hp]. congruence.
  - apply NoDup_app. split_and!; [apply (bd_nodes _ _ _ _ _ _ Hb)| |apply (bd_names _ _ _ _ _ _ Hb)].
    intros p Hp Hq. assert (∃ r, own !! p = Some (Resource r)) as [r Hr].
    { apply elem_of_cons in Hp as [->|Hp]; [eexists; apply (bd_root _ _ _ _ _ _ Hb)|by apply copy_resource]. }
    assert (∃ s, own !! p = Some (Chars s)) as [s Hs].
    { apply elem_of_cons in Hq as [->|Hq]; [eexists; apply (bd_name _ _ _ _ _ _ Hb)|by apply copy_name]. }
    congruence.
Qed.
End building.

(** ** The release *)

Section release.
Context (w0 : resources) (base : memory_of_cells).
Local Abbreviation W := (with_own w0 base).
Context (root : Z) (f : mrapi_resource_t) (n : nat) (cs : list (Z * mrapi_resource_t)).
Context (ts : list rtree) (own : memory_of_cells) (Hb : building root f n cs ts own).
Context (Hd : own ##ₘ base).

(** What is still there after some blocks were freed. *)
Lemma still_there ks a c :
  (∃ rest, all_freed root f cs ≡ₚ rest ++ ks ∧ a ∈ rest) → own !! a = Some c →
  without ks own !! a = Some c.
Proof.
  intros (rest & Hp & Ha) Hc. apply lookup_without; [done|]. intros Hin.
  pose proof (all_freed_nodup _ _ _ _ _ _ Hb) as Hnd. rewrite Hp in Hnd.
  apply NoDup_app in Hnd as (_ & Hnd & _). by eapply Hnd.
Qed.
Lemma free_copy k c :
  cs !! k = Some c →
  wp (let* the_child := load_pointer (rs_children f) (Z.of_nat k) in
      let* x := load as_resource the_child in
      free (rs_name x);; free the_child)
    (λ _ w, w = W (without (freed (take (S k) cs)) own)) (W (without (freed (take k cs)) own)).
Proof.
  intros Hk. destruct (bd_array _ _ _ _ _ _ Hb) as (l & Hl & _ & Hall).
  destruct (Forall2_lookup_l _ _ _ _ _ (bd_copies _ _ _ _ _ _ Hb) Hk) as (t & _ & Hn & _ & H0 & Hn0).
  pose proof (nd_resource _ _ _ _ Hn) as [_ Hr]%lookup_delete_Some.
  pose proof (nd_name _ _ _ _ Hn) as [_ Hnm]%lookup_delete_Some.
  rewrite (take_S_r cs k c Hk), freed_snoc. set (ks := freed (take k cs)).
  assert (∃ rest, all_freed root f cs ≡ₚ rest ++ ks ∧ rs_children f ∈ rest ∧ c.1 ∈ rest ∧
    rs_name c.2 ∈ rest) as (rest & Hp & Hin1 & Hin2 & Hin3).
  { exists (root :: rs_name f :: rs_children f :: freed (drop k cs)). split.
    - unfold all_freed. cbn. do 3 f_equiv. rewrite !freed_perm. subst ks. rewrite freed_perm.
      rewrite <- (take_drop k cs) at 1 2. rewrite !fmap_app. solve_Permutation.
    - rewrite freed_perm, (drop_S cs c k Hk). cbn. set_solver. }
  pose proof (without_disjoint base ks own Hd) as Hd'.
  apply wp_bind. eapply wp_intro.
  { apply load_pointer_done. exists l. split; [|by apply Hall].
    apply lookup_union_Some_l. apply still_there; [by exists rest|done]. }
  apply wp_bind. eapply wp_load_cell; [done|left; apply still_there; [by exists rest|done]|done|].
  apply wp_bind. apply wp_free; [done|eexists; eapply still_there; [by exists rest|exact Hnm]|done|].
  rewrite without_cons.
  apply wp_free; [by apply without_disjoint| |done|by rewrite without_cons].
  eexists. rewrite <- without_cons, lookup_delete_ne by congruence. eapply still_there; [by exists rest|exact Hr].
Qed.

Lemma tree_free_spec :
  rs_number_of_children f = Z.of_nat (length cs) → Z.of_nat (length cs) < 65536 →
  rs_number_of_attributes f = 0 → rs_attribute_values f = 0 →
  root ≠ 0 → rs_name f ≠ 0 → rs_children f ≠ 0 →
  wp (mrapi_impl_resource_tree_free root) (λ r w,
    r = (true, MRAPI_SUCCESS) ∧ w = W (without (all_freed root f cs) own)) (W own).
Proof.
  intros Hk Hsmall Ha Hv H0 Hn0 Hc0. unfold mrapi_impl_resource_tree_free.
  destruct (Z.eqb_spec root 0); [done|].
  apply wp_bind. eapply wp_load_cell; [done|left; apply (bd_root _ _ _ _ _ _ Hb)|done|].
  rewrite Hk, u16_small by lia.
  apply wp_bind. eapply wp_mono.
  { apply (for_to_spec _ _ (λ k _ w, w = W (without (freed (take k cs)) own))); [lia|done|].
    intros k _ w Hlt ->. destruct (lookup_lt_is_Some_2 cs k) as [c Hc]; [lia|]. by eapply free_copy. }
  intros _ w ->. rewrite Nat2Z.id, firstn_all.
  destruct (bd_array _ _ _ _ _ _ Hb) as (l & Hl & _).
  apply wp_bind. apply wp_free; [by apply without_disjoint| |done|].
  { eexists. eapply still_there; [|exact Hl]. exists [root; rs_name f; rs_children f]. split; [done|set_solver]. }
  rewrite without_cons.
  apply wp_bind. apply wp_free; [by apply without_disjoint| |done|].
  { eexists. eapply still_there; [|apply (bd_name _ _ _ _ _ _ Hb)]. exists [root; rs_name f].
    split; [done|set_solver]. }
  rewrite without_cons, Ha, Hv.
  apply wp_bind. apply wp_ret. apply wp_bind, wp_free_null.
  apply wp_bind. apply wp_free; [by apply without_disjoint| |done|].
  { eexists. eapply still_there; [|apply (bd_root _ _ _ _ _ _ Hb)]. exists [root].
    split; [done|set_solver]. }
  by apply wp_ret.
Qed.
End release.
