(* ===== verification/ResourceTheorems.v ===== *)
(** What the resource functions promise: the filtered tree and its release,
    reading attributes, the life of a dynamic attribute, and callbacks. *)

From S2P Require Import Prelude MrapiTypes MrapiHandles MrapiResources NodeSafety LockSystem LockTheorems ResourceSpec ResourceCopy ResourceTree.

(** ** Getting a tree *)

(** The root that is returned. *)
Definition filtered_root (junk name children n : Z) : mrapi_resource_t :=
  mk_resource name SYSTEM n children 0 0 0 junk junk.

Lemma blocks_split ts :
  blocks ts = (2 * length ts + sum_list ((λ x, 4 + 4 * length (t_attrs x)) <$> ts))%nat.
Proof.
  unfold blocks. induction ts as [|t ts IH]; [done|]. rewrite !fmap_cons.
  cbn [sum_list_with length]. unfold id in *. rewrite IH. unfold copy_blocks. lia.
Qed.

Section get.
Context (malloc_at : memory_of_cells → Z) (junk : Z) (Hmalloc : allocator malloc_at).

(** The three blocks of the root. *)
Lemma building_start root name arr n own :
  own !! root = Some (Resource (filtered_root junk name arr (Z.of_nat n))) →
  own !! name = Some (Chars "filtered tree") →
  own !! arr = Some (Pointers (replicate n junk)) → size own = 3%nat →
  building root (filtered_root junk name arr (Z.of_nat n)) n [] [] own.
Proof.
  intros Hr Hn Ha Hs. split; try done.
  - eexists. split; [done|]. by rewrite length_replicate.
  - apply NoDup_singleton.
  - apply NoDup_singleton.
Qed.

Lemma resources_get_spec fuel root flt ty t w :
  filter_type flt = Some (Some ty) → tree_at (cells w) root t → (depth t <= fuel)%nat →
  counted ty t = selected ty t → Z.of_nat (length (selected ty t)) < 65536 → selected ty t ≠ [] →
  wp (mrapi_impl_resources_get malloc_at junk fuel root flt) (λ r w', ∃ name arr own cs,
    r.2 = MRAPI_SUCCESS ∧ r.1 ≠ 0 ∧ name ≠ 0 ∧ arr ≠ 0 ∧
    w' = with_own w (cells w) own ∧ own ##ₘ cells w ∧
    building r.1 (filtered_root junk name arr (Z.of_nat (length (selected ty t))))
      (length (selected ty t)) cs (selected ty t) own) w.
Proof.
  intros Hf Ht Hd Hc Hn Hne. unfold mrapi_impl_resources_get. rewrite Hf.
  set (sel := selected ty t) in *.
  apply wp_bind. eapply wp_mono; [by apply count_exact|]. intros k w' [-> ->]. rewrite Hc.
  rewrite u16_small by lia.
  destruct (Z.eqb_spec (Z.of_nat (length sel)) 0) as [He|He].
  { exfalso. apply Hne, length_zero_iff_nil. lia. }
  assert (w = with_own w (cells w) ∅) as Hw.
  { destruct w. unfold with_own, set_field. cbn. by rewrite (left_id_L ∅ (∪)). }
  rewrite Hw at 1.
  apply wp_bind. apply wp_malloc; [done|apply map_disjoint_empty_l|]. intros p Hp0 _ Hpb Hd1.
  apply wp_bind. apply wp_malloc; [done..|]. intros nm Hn0 Hnm _ Hd2.
  unfold malloc_pointers.
  apply wp_bind. apply wp_malloc; [done..|]. intros ar Ha0 Har _ Hd3.
  apply lookup_insert_None in Har as [[_ Hpar]%lookup_insert_None Hnar].
  apply lookup_insert_None in Hnm as [_ Hpnm].
  apply wp_bind. eapply wp_store_cell; [read_off|].
  rewrite Nat2Z.id in *.
  match goal with |- wp _ _ (with_own _ _ ?o) => set (own := o) end.
  assert (own ##ₘ cells w) as Hd4 by (subst own; by apply map_disjoint_insert_l_2).
  assert (building p (filtered_root junk nm ar (Z.of_nat (length sel))) (length sel) [] [] own) as Hb.
  { apply building_start; subst own; [by rewrite lookup_insert_eq| | |].
    - read_off.
    - read_off.
    - rewrite map_size_insert_Some by (eexists; read_off).
      rewrite !map_size_insert_None by (rewrite ?lookup_insert_ne by done; done). by rewrite map_size_empty. }
  apply wp_bind. eapply wp_mono.
  { apply (create_tree_spec malloc_at junk Hmalloc w (cells w) ty t fuel root p _ (length sel) [] [] own
      Ht Hd Hb Hd4 ltac:(done) Hn). }
  intros i w' (own' & cs' & -> & Hd' & Hb' & _). apply wp_ret. by exists nm, ar, own', cs'.
Qed.

(** What the user sees. *)
Lemma building_tree root name arr n cs ts base own :
  building root (filtered_root junk name arr (Z.of_nat n)) n cs ts own → n = length ts →
  Z.of_nat n < 65536 →
  tree_at (own ∪ base) root (Node "filtered tree" SYSTEM [] (strip <$> ts)).
Proof.
  intros [Hr Hn (l & Hl & Hlen & Hall) Hc _ _ _] -> Hsmall.
  assert (own ⊆ own ∪ base) as Hsub by (apply map_union_subseteq_l).
  econstructor.
  - by split; [eapply lookup_weaken|eapply lookup_weaken|..].
  - cbn. by rewrite length_fmap.
  - cbn. by rewrite length_fmap.
  - intros i t Hi. apply list_lookup_fmap_Some in Hi as (t' & -> & Hi).
    destruct (Forall2_lookup_r _ _ _ _ _ Hc Hi) as (c & Hci & Hnode & Hk & _).
    exists c.1. split; [exists l; split; [by eapply lookup_weaken|by apply Hall]|].
    econstructor; [|done|done|done].
    eapply node_at_mono; [|exact Hnode]. trans own; [apply delete_subseteq|done].
Qed.
End get.

(** A malloc for the examples, and the memory of a process that starts. *)
Definition next_free (h : memory_of_cells) : Z := fresh ({[0]} ∪ dom h).
Lemma next_free_allocator : allocator next_free.
Proof.
  intros h. pose proof (is_fresh ({[0]} ∪ dom h : gset Z)) as Hf. fold (next_free h) in Hf.
  split; [set_solver|]. apply not_elem_of_dom. set_solver.
Qed.
Definition chip_start : resources :=
  mk_resources chip_memory (replicate MRAPI_MAX_CALLBACKS 0) 0
    (replicate MRAPI_MAX_CALLBACKS zero_callback) 0 false.

(** C28: Which resources a filter returns.  An unknown filter is refused and one
    without resources returns NULL, both without touching memory.  Otherwise, when
    only leaves have the type, the answer is a tree on fresh memory whose children
    are copies of exactly the nodes of that type, in the order of the search, with
    all their attributes; nothing that was there before changes. *)
Theorem filtered_tree_exact malloc_at junk fuel c root flt t w :
  allocator malloc_at → mrapi_impl_initialized c = true →
  tree_at (cells w) root t → (depth t <= fuel)%nat →
  (∀ ty, filter_type flt = Some (Some ty) → counted ty t = selected ty t) →
  (∀ ty, Z.of_nat (length (selected ty t)) < 65536) →
  wp (mrapi_resources_get malloc_at junk fuel c root flt) (λ r w',
    match filter_type flt with
    | None => r = (0, MRAPI_ERR_RSRC_INVALID_SUBSYSTEM) ∧ w' = w
    | Some None => r = (0, MRAPI_SUCCESS) ∧ w' = w
    | Some (Some ty) =>
        r.2 = MRAPI_SUCCESS ∧
        if decide (selected ty t = []) then r.1 = 0 ∧ w' = w
        else
          r.1 ≠ 0 ∧ cells w !! r.1 = None ∧ cells w ⊆ cells w' ∧ w = w' <| cells := cells w |> ∧
          tree_at (cells w') r.1 (Node "filtered tree" SYSTEM [] (strip <$> selected ty t))
    end) w.
Proof.
  intros Hm Hc Ht Hd Hleaf Hsmall. unfold mrapi_resources_get. rewrite Hc. cbn [negb].
  destruct (filter_type flt) as [[ty|]|] eqn:Hf;
    [|unfold mrapi_impl_resources_get; rewrite Hf; by apply wp_ret..].
  destruct (decide (selected ty t = [])) as [He|He].
  - unfold mrapi_impl_resources_get. rewrite Hf. apply wp_bind.
    eapply wp_mono; [by apply count_exact|]. intros n w' [-> ->]. rewrite (Hleaf ty eq_refl), He.
    by apply wp_ret.
  - eapply wp_mono; [by apply (resources_get_spec malloc_at junk Hm fuel root flt ty t w); auto|].
    intros r w' (name & arr & own & cs & Hr & H0 & _ & _ & -> & Hdis & Hb).
    split_and!; [done|done| | | |].
    + eapply map_disjoint_Some_l; [exact Hdis|apply (bd_root _ _ _ _ _ _ Hb)].
    + cbn. by apply map_union_subseteq_r.
    + by destruct w.
    + by eapply building_tree.
Qed.
Lemma filtered_tree_exact_witness :
  wp (mrapi_resources_get next_free 7 3 (ex_caller 0) chip MRAPI_RSRC_CPU) (λ r w',
    match filter_type MRAPI_RSRC_CPU with
    | None => r = (0, MRAPI_ERR_RSRC_INVALID_SUBSYSTEM) ∧ w' = chip_start
    | Some None => r = (0, MRAPI_SUCCESS) ∧ w' = chip_start
    | Some (Some ty) =>
        r.2 = MRAPI_SUCCESS ∧
        if decide (selected ty chip_tree = []) then r.1 = 0 ∧ w' = chip_start
        else
          r.1 ≠ 0 ∧ cells chip_start !! r.1 = None ∧ cells chip_start ⊆ cells w' ∧
          chip_start = w' <| cells := cells chip_start |> ∧
          tree_at (cells w') r.1 (Node "filtered tree" SYSTEM [] (strip <$> selected ty chip_tree))
    end) chip_start.
Proof.
  apply (filtered_tree_exact next_free 7 3 (ex_caller 0) chip MRAPI_RSRC_CPU chip_tree chip_start).
  - exact next_free_allocator.
  - reflexivity.
  - exact chip_tree_at.
  - vm_compute. lia.
  - intros ty [= <-]. vm_compute. reflexivity.
  - intros []; vm_compute; reflexivity.
Defined.

(** C29: Releasing a filtered tree.  After mrapi_resources_get, the release
    succeeds: no block is freed twice and none that was there before is touched.
    The four arrays and the cells of the attributes of every copy stay
    allocated, four and four for each attribute. *)
Theorem tree_free_leaks malloc_at junk fuel c root flt ty t w :
  allocator malloc_at → mrapi_impl_initialized c = true → filter_type flt = Some (Some ty) →
  tree_at (cells w) root t → (depth t <= fuel)%nat →
  counted ty t = selected ty t → Z.of_nat (length (selected ty t)) < 65536 → selected ty t ≠ [] →
  wp (let* (tree, _) := mrapi_resources_get malloc_at junk fuel c root flt in
      mrapi_resource_tree_free c tree) (λ st w', st = MRAPI_SUCCESS ∧
    ∃ left, w' = w <| cells := left ∪ cells w |> ∧ left ##ₘ cells w ∧
      size left = sum_list ((λ x, 4 + 4 * length (t_attrs x))%nat <$> selected ty t)) w.
Proof.
  intros Hm Hc Hf Ht Hd Hleaf Hsmall Hne. unfold mrapi_resources_get. rewrite Hc. cbn [negb].
  apply wp_bind. eapply wp_mono; [by apply (resources_get_spec malloc_at junk Hm fuel root flt ty t w)|].
  intros [p st] w' (name & arr & own & cs & _ & H0 & Hn0 & Ha0 & -> & Hdis & Hb). cbn [fst] in *.
  unfold mrapi_resource_tree_free. rewrite Hc. cbn [negb].
  pose proof (Forall2_length _ _ _ (bd_copies _ _ _ _ _ _ Hb)) as Hlen.
  apply wp_bind. eapply wp_mono.
  { eapply (tree_free_spec w (cells w) p _ _ cs _ own Hb Hdis); cbn; done || lia || congruence. }
  intros r w' [-> ->]. apply wp_ret. split; [done|].
  eexists. split; [done|]. split; [by apply without_disjoint|].
  pose proof (without_size _ own (all_freed_nodup _ _ _ _ _ _ Hb)
    (all_freed_there _ _ _ _ _ _ Hb)) as Hsz.
  rewrite (bd_size _ _ _ _ _ _ Hb) in Hsz. rewrite (Permutation_length (all_freed_perm _ _ _)) in Hsz.
  cbn [length] in Hsz. rewrite length_app in Hsz. cbn [length] in Hsz. rewrite !length_fmap in Hsz.
  rewrite Hlen in Hsz. pose proof (blocks_split (selected ty t)). lia.
Qed.
Lemma tree_free_leaks_witness :
  wp (let* (tree, _) := mrapi_resources_get next_free 7 3 (ex_caller 0) chip MRAPI_RSRC_CPU in
      mrapi_resource_tree_free (ex_caller 0) tree) (λ st w', st = MRAPI_SUCCESS ∧
    ∃ left, w' = chip_start <| cells := left ∪ cells chip_start |> ∧ left ##ₘ cells chip_start ∧
      size left = sum_list ((λ x, 4 + 4 * length (t_attrs x))%nat <$> selected CPU chip_tree))
    chip_start.
Proof.
  apply (tree_free_leaks next_free 7 3 (ex_caller 0) chip MRAPI_RSRC_CPU CPU chip_tree chip_start).
  - exact next_free_allocator.
  - reflexivity.
  - reflexivity.
  - exact chip_tree_at.
  - vm_compute. lia.
  - vm_compute. reflexivity.
  - vm_compute. reflexivity.
  - vm_compute. discriminate.
Defined.
