(* ===== verification/ResourceUse.v ===== *)
(** Attributes and callbacks of resources: reading an attribute, the life of the
    cache's dynamic attribute as an abstract counter, and how often a callback is
    called. *)

From S2P Require Import Prelude MrapiTypes MrapiHandles MrapiResources NodeSafety LockSystem LockTheorems ResourceSpec ResourceCopy ResourceTree ResourceTheorems.

(** ** Reading *)

Definition readable (a : attr) : bool :=
  bool_decide (a_static a = MRAPI_ATTR_STATIC) || negb (a_started a =? MRAPI_FALSE).

Lemma is_static_done w p r t i a :
  node_at (cells w) p r t → t_attrs t !! i = Some a →
  mrapi_impl_is_static p (Z.of_nat i) w
  = Done (bool_decide (a_static a = MRAPI_ATTR_STATIC), w).
Proof.
  intros Hn Ha. destruct (at_static _ _ _ _ (nd_attrs _ _ _ _ Hn i a Ha)) as (q & Hq & Hs).
  unfold mrapi_impl_is_static.
  rewrite (bind_done _ _ _ _ _ (load_done as_resource p _ r w (nd_resource _ _ _ _ Hn) eq_refl)).
  rewrite (bind_done _ _ _ _ _ (load_pointer_done _ _ _ _ Hq)).
  by rewrite (bind_done _ _ _ _ _ (load_done as_static q _ _ w Hs eq_refl)).
Qed.
Lemma valid_number_done w p r t i :
  node_at (cells w) p r t →
  mrapi_impl_valid_attribute_number p (Z.of_nat i) w
  = Done (bool_decide (i < length (t_attrs t))%nat, w).
Proof.
  intros Hn. unfold mrapi_impl_valid_attribute_number.
  rewrite (bind_done _ _ _ _ _ (load_done as_resource p _ r w (nd_resource _ _ _ _ Hn) eq_refl)).
  rewrite (nd_attributes _ _ _ _ Hn). unfold ret. do 2 f_equal.
  case_bool_decide; destruct (Z.leb_spec (Z.of_nat (length (t_attrs t))) (Z.of_nat i)); done || lia.
Qed.
Lemma get_attribute_done w p r t i a :
  node_at (cells w) p r t → t_attrs t !! i = Some a →
  mrapi_impl_resource_get_attribute p (Z.of_nat i) w = Done ((a_value a, MRAPI_SUCCESS), w).
Proof.
  intros Hn Ha. destruct (nd_attrs _ _ _ _ Hn i a Ha) as [(q1 & Hq1 & Ht) (q2 & Hq2 & Hv) _ _].
  assert (attribute_value p (Z.of_nat i) w = Done ((q2, a_type a), w)) as He.
  { unfold attribute_value.
    rewrite (bind_done _ _ _ _ _ (load_done as_resource p _ r w (nd_resource _ _ _ _ Hn) eq_refl)).
    rewrite (bind_done _ _ _ _ _ (load_pointer_done _ _ _ _ Hq1)).
    rewrite (bind_done _ _ _ _ _ (load_done as_rsrc_type q1 _ _ w Ht eq_refl)).
    by rewrite (bind_done _ _ _ _ _ (load_pointer_done _ _ _ _ Hq2)). }
  unfold mrapi_impl_resource_get_attribute. rewrite (bind_done _ _ _ _ _ He).
  destruct (a_type a); by rewrite (bind_done _ _ _ _ _ (load_done _ q2 _ (a_value a) w Hv eq_refl)).
Qed.

(** Reading an attribute of any node of a tree, on every branch: refused
    before initialization, for a number that the node does not have, and for a
    dynamic attribute that was not started; otherwise the value, and nothing
    changes. *)
Theorem attribute_read_exact c p r t i w :
  node_at (cells w) p r t →
  mrapi_resource_get_attribute c p (Z.of_nat i) w
  = Done (if negb (mrapi_impl_initialized c) then (None, MRAPI_ERR_NODE_NOTINIT)
          else match t_attrs t !! i with
               | None => (None, MRAPI_ERR_ATTR_NUM)
               | Some a => if readable a then (Some (a_value a), MRAPI_SUCCESS)
                           else (None, MRAPI_ERR_RSRC_NOTSTARTED)
               end, w).
Proof.
  intros Hn. unfold mrapi_resource_get_attribute. destruct (mrapi_impl_initialized c); [|done]. cbn [negb].
  rewrite (bind_done _ _ _ _ _ (valid_number_done w p r t i Hn)).
  destruct (t_attrs t !! i) as [a|] eqn:Ha.
  2:{ rewrite bool_decide_eq_false_2; [done|]. apply lookup_ge_None in Ha. lia. }
  rewrite bool_decide_eq_true_2 by (by eapply lookup_lt_Some). cbn [negb].
  destruct (at_started _ _ _ _ (nd_attrs _ _ _ _ Hn i a Ha)) as (q & Hq & Hb).
  rewrite (bind_done _ _ _ _ _ (load_done as_resource p _ r w (nd_resource _ _ _ _ Hn) eq_refl)).
  rewrite (bind_done _ _ _ _ _ (load_pointer_done _ _ _ _ Hq)).
  rewrite (bind_done _ _ _ _ _ (load_done as_boolean q _ _ w Hb eq_refl)).
  rewrite (bind_done _ _ _ _ _ (is_static_done w p r t i a Hn Ha)). unfold readable.
  destruct (bool_decide (a_static a = MRAPI_ATTR_STATIC)), (a_started a =? MRAPI_FALSE); cbn [negb andb orb];
    try done; by rewrite (bind_done _ _ _ _ _ (get_attribute_done w p r t i a Hn Ha)).
Qed.
(** The dynamic attribute of the cache, which nobody has started. *)
Lemma attribute_read_exact_witness :
  mrapi_resource_get_attribute (ex_caller 0) 70 1 chip_start
  = Done ((None, MRAPI_ERR_RSRC_NOTSTARTED), chip_start).
Proof.
  apply (attribute_read_exact (ex_caller 0) 70 (mk_resource 204 CACHE 0 0 2 18 15 21 24)
    (Node "L3 Cache" CACHE [mk_attr RSRC_UINT16_T 1024 MRAPI_ATTR_STATIC MRAPI_FALSE;
                            mk_attr RSRC_UINT32_T 0 MRAPI_ATTR_DYNAMIC MRAPI_FALSE] []) 1 chip_start).
  split; [vm_compute; reflexivity..|vm_compute; reflexivity|].
  intros [|[|i]] a [= <-]; split; eexists; (split; [eexists; split; vm_compute; reflexivity|vm_compute; reflexivity]).
Defined.

(** ** The life of a dynamic attribute *)

Inductive counter_op :=
| Start (callback : Z) | Count (increment : Z) | ReadValue | ResetValue | Stop.
(** The operations of the cache [p] as the user calls them; [Count] is what the
    hardware does. *)
Definition counter_call (c : caller) (p : Z) (op : counter_op) : M resources (option Z * mrapi_status) :=
  match op with
  | Start f => let* st := mrapi_dynamic_attribute_start c p 1 f in ret (None, st)
  | Count k => mrapi_impl_increment_cache_hits p k;; ret (None, MRAPI_SUCCESS)
  | ReadValue => mrapi_resource_get_attribute c p 1
  | ResetValue => let* st := mrapi_dynamic_attribute_reset c p 1 in ret (None, st)
  | Stop => let* st := mrapi_dynamic_attribute_stop c p 1 in ret (None, st)
  end.
Fixpoint counter_calls (c : caller) (p : Z) (ops : list counter_op) :
    M resources (list (option Z * mrapi_status)) :=
  match ops with
  | [] => ret []
  | op :: ops => let* r := counter_call c p op in let* l := counter_calls c p ops in ret (r :: l)
  end.

(** The abstract counter: its value, whether it runs, and the callbacks for its
    overflow. *)
Record counter := mk_counter { ct_value : Z; ct_started : bool; ct_callbacks : list Z }.
Definition counter_step (s : counter) (op : counter_op) : (option Z * mrapi_status) * counter :=
  match op with
  | Start f => ((None, MRAPI_SUCCESS), mk_counter (ct_value s) true (ct_callbacks s ++ [f]))
  | Count k => ((None, MRAPI_SUCCESS), mk_counter (u32 (ct_value s + k)) (ct_started s) (ct_callbacks s))
  | ReadValue => (if ct_started s then (Some (ct_value s), MRAPI_SUCCESS)
                  else (None, MRAPI_ERR_RSRC_NOTSTARTED), s)
  | ResetValue => ((None, MRAPI_SUCCESS), mk_counter 0 (ct_started s) (ct_callbacks s))
  | Stop => ((None, MRAPI_SUCCESS), mk_counter (ct_value s) false (ct_callbacks s))
  end.
Fixpoint counter_steps (s : counter) (ops : list counter_op) : list (option Z * mrapi_status) * counter :=
  match ops with
  | [] => ([], s)
  | op :: ops =>
      let '(r, s) := counter_step s op in
      let '(l, s) := counter_steps s ops in (r :: l, s)
  end.
Definition starts (ops : list counter_op) : nat :=
  length (filter (λ op, match op with Start _ => true | _ => false end = true) ops).

(** The cache in memory. *)
Record cache_at (p : Z) (v : Z) (b : bool) (qv qb : Z) (h : memory_of_cells) : Prop := {
  ca_node : ∃ r, h !! p = Some (Resource r) ∧ h !! rs_name r = Some (Chars "L3 Cache") ∧
    1 < rs_number_of_attributes r ∧
    (∃ q, ptr_at h (rs_attribute_types r) 1 q ∧ h !! q = Some (RsrcType RSRC_UINT32_T)) ∧
    (∃ q, ptr_at h (rs_attribute_static r) 1 q ∧ h !! q = Some (StaticFlag MRAPI_ATTR_DYNAMIC)) ∧
    ptr_at h (rs_attribute_values r) 1 qv ∧ ptr_at h (rs_attribute_started r) 1 qb;
  ca_value : h !! qv = Some (Uint32 v);
  ca_started : h !! qb = Some (Boolean (Z.b2z b)) }.
Record counter_at (p qv qb : Z) (s : counter) (w : resources) : Prop := {
  cr_cache : cache_at p (ct_value s) (ct_started s) qv qb (cells w);
  cr_index : rollover_index w = Z.of_nat (length (ct_callbacks s));
  cr_room : length (rollover_callbacks_ptr w) = MRAPI_MAX_CALLBACKS;
  cr_callbacks : take (length (ct_callbacks s)) (rollover_callbacks_ptr w) = ct_callbacks s }.

(** A write to the value or to the flag leaves the rest of the cache alone. *)
Lemma ptr_at_write h a c p i q :
  (∃ c', h !! a = Some c' ∧ as_pointers c' = None) → ptr_at h p i q → ptr_at (<[a := c]> h) p i q.
Proof.
  intros (c' & Ha & Hc) (l & Hp & Hi). exists l. split; [|done].
  rewrite lookup_insert_ne; [done|]. intros ->. by simplify_eq.
Qed.
Lemma cache_write_value p v b qv qb h v' :
  cache_at p v b qv qb h → cache_at p v' b qv qb (<[qv := Uint32 v']> h).
Proof.
  intros [(r & Hr & Hn & Hk & (q1 & Hp1 & Hq1) & (q2 & Hp2 & Hq2) & Hp3 & Hp4) Hv Hb].
  assert (∃ c', h !! qv = Some c' ∧ as_pointers c' = None) as Hne by (by eexists).
  split; [|by rewrite lookup_insert_eq|rewrite lookup_insert_ne by congruence; done].
  exists r. split_and!; [rewrite lookup_insert_ne by congruence; done..|done| | |by apply ptr_at_write|by apply ptr_at_write].
  - exists q1. split; [by apply ptr_at_write|]. rewrite lookup_insert_ne by congruence. done.
  - exists q2. split; [by apply ptr_at_write|]. rewrite lookup_insert_ne by congruence. done.
Qed.
Lemma cache_write_started p v b qv qb h b' :
  cache_at p v b qv qb h → cache_at p v b' qv qb (<[qb := Boolean (Z.b2z b')]> h).
Proof.
  intros [(r & Hr & Hn & Hk & (q1 & Hp1 & Hq1) & (q2 & Hp2 & Hq2) & Hp3 & Hp4) Hv Hb].
  assert (∃ c', h !! qb = Some c' ∧ as_pointers c' = None) as Hne by (by eexists).
  split; [|rewrite lookup_insert_ne by congruence; done|by rewrite lookup_insert_eq].
  exists r. split_and!; [rewrite lookup_insert_ne by congruence; done..|done| | |by apply ptr_at_write|by apply ptr_at_write].
  - exists q1. split; [by apply ptr_at_write|]. rewrite lookup_insert_ne by congruence. done.
  - exists q2. split; [by apply ptr_at_write|]. rewrite lookup_insert_ne by congruence. done.
Qed.

Section counter.
Context (c : caller) (Hc : mrapi_impl_initialized c = true) (p qv qb : Z).

Lemma load_pointer1_done a q w :
  ptr_at (cells w) a 1 q → load_pointer a 1 w = Done (q, w).
Proof. exact (load_pointer_done a 1 q w). Qed.
Lemma store_done a v old w :
  cells w !! a = Some old → store a v w = Done (tt, w <| cells ::= <[a := v]> |>).
Proof. intros Ha. unfold store. erewrite bind_done by reflexivity. by rewrite Ha. Qed.

Ltac step H := rewrite (bind_done _ _ _ _ _ H).

Lemma dynamic_done s w impl :
  counter_at p qv qb s w →
  dynamic_attribute c p 1 impl w
  = (let* (get_success, status) := impl in c_assert get_success;; ret status) w.
Proof.
  intros [[(r & Hr & Hn & Hk & (q1 & Hp1 & Hq1) & (q2 & Hp2 & Hq2) & _) _ _] _ _ _].
  unfold dynamic_attribute. rewrite Hc. cbn [negb].
  unfold mrapi_impl_valid_attribute_number. rewrite bind_assoc.
  step (load_done as_resource p _ r w Hr eq_refl).
  destruct (Z.leb_spec (rs_number_of_attributes r) 1); [lia|]. erewrite bind_done by reflexivity. cbn [negb].
  unfold mrapi_impl_is_static. rewrite bind_assoc. step (load_done as_resource p _ r w Hr eq_refl).
  rewrite bind_assoc. step (load_pointer1_done _ _ w Hp2).
  rewrite bind_assoc. step (load_done as_static q2 _ _ w Hq2 eq_refl). by erewrite bind_done by reflexivity.
Qed.
Lemma l3_done s w : counter_at p qv qb s w → is_l3_cache p w = Done (true, w).
Proof.
  intros [[(r & Hr & Hn & _) _ _] _ _ _]. unfold is_l3_cache.
  step (load_done as_resource p _ r w Hr eq_refl). by step (load_done as_chars _ _ _ w Hn eq_refl).
Qed.
Lemma value_done s w : counter_at p qv qb s w → attribute_value p 1 w = Done ((qv, RSRC_UINT32_T), w).
Proof.
  intros [[(r & Hr & Hn & _ & (q1 & Hp1 & Hq1) & _ & Hpv & _) _ _] _ _ _]. unfold attribute_value.
  step (load_done as_resource p _ r w Hr eq_refl). step (load_pointer1_done _ _ w Hp1).
  step (load_done as_rsrc_type q1 _ _ w Hq1 eq_refl). by step (load_pointer1_done _ _ w Hpv).
Qed.
Lemma set_started_done s w b :
  counter_at p qv qb s w →
  set_started p 1 (Z.b2z b) w = Done (tt, w <| cells ::= <[qb := Boolean (Z.b2z b)]> |>).
Proof.
  intros [[(r & Hr & Hn & _ & _ & _ & _ & Hpb) _ Hb] _ _ _]. unfold set_started.
  step (load_done as_resource p _ r w Hr eq_refl). step (load_pointer1_done _ _ w Hpb).
  step (load_done as_boolean qb _ _ w Hb eq_refl). by eapply store_done.
Qed.

Lemma counter_start s w f :
  counter_at p qv qb s w → (length (ct_callbacks s) < MRAPI_MAX_CALLBACKS)%nat →
  ∃ w', counter_call c p (Start f) w = Done ((None, MRAPI_SUCCESS), w') ∧
    counter_at p qv qb (mk_counter (ct_value s) true (ct_callbacks s ++ [f])) w'.
Proof.
  intros Hs Hlt. pose proof Hs as [Hcache Hi Hroom Hl].
  destruct (lookup_lt_is_Some_2 (rollover_callbacks_ptr w) (Z.to_nat (rollover_index w))) as [x Hx]; [lia|].
  set (w1 := w <| cells ::= <[qb := Boolean (Z.b2z true)]> |>).
  set (w2 := w1 <| rollover_callbacks_ptr ::= <[Z.to_nat (rollover_index w1) := f]> |>
                <| rollover_index ::= λ i, u16 (i + 1) |>).
  assert (mrapi_impl_dynamic_attribute_start p 1 f w = Done ((true, MRAPI_SUCCESS), w2)) as He.
  { unfold mrapi_impl_dynamic_attribute_start. step (l3_done s w Hs). cbn [andb Z.eqb Pos.eqb].
    rewrite bind_assoc. step (set_started_done s w true Hs). fold w1.
    unfold bind, get, from_option_oob, modify, ret.
    change (rollover_callbacks_ptr w1) with (rollover_callbacks_ptr w).
    change (rollover_index w1) with (rollover_index w). by rewrite Hx. }
  exists w2. cbn [counter_call]. unfold mrapi_dynamic_attribute_start. unfold bind at 1.
  rewrite (dynamic_done s w _ Hs). step He. split; [done|].
  split; [by eapply cache_write_started| | |]; cbn.
  - rewrite Hi, u16_small, length_app by (unfold MRAPI_MAX_CALLBACKS in *; lia). cbn. lia.
  - by rewrite length_insert.
  - rewrite Hi, Nat2Z.id, length_app. cbn. rewrite Nat.add_1_r.
    erewrite take_S_r by (apply list_lookup_insert_eq; lia).
    by rewrite take_insert_ge, Hl by lia.
Qed.

Lemma counter_simulates s w op :
  counter_at p qv qb s w →
  (length (ct_callbacks s) + starts [op] <= MRAPI_MAX_CALLBACKS)%nat →
  ∃ w', counter_call c p op w = Done ((counter_step s op).1, w') ∧
    counter_at p qv qb (counter_step s op).2 w'.
Proof.
  intros Hs Hroom. pose proof Hs as [Hcache Hi Hlen Hl]. pose proof Hcache as [(r & Hr & Hn & Hk &
    (q1 & Hp1 & Hq1) & (q2 & Hp2 & Hq2) & Hpv & Hpb) Hv Hb].
  destruct op as [f|k| | |]; cbn [counter_step fst snd].
  - apply counter_start; [done|]. change (starts [Start f]) with 1%nat in Hroom. lia.
  - exists (w <| cells ::= <[qv := Uint32 (u32 (ct_value s + k))]> |>). split.
    + cbn [counter_call]. unfold mrapi_impl_increment_cache_hits.
      rewrite bind_assoc. step (load_done as_resource p _ r w Hr eq_refl).
      rewrite bind_assoc. step (load_pointer1_done _ _ w Hpv).
      rewrite bind_assoc. step (load_done as_uint32 qv _ _ w Hv eq_refl).
      by step (store_done qv (Uint32 (u32 (ct_value s + k))) _ w Hv).
    + split; try done. by eapply cache_write_value.
  - exists w. split; [|done]. cbn [counter_call]. unfold mrapi_resource_get_attribute. rewrite Hc. cbn [negb].
    unfold mrapi_impl_valid_attribute_number. rewrite bind_assoc.
    step (load_done as_resource p _ r w Hr eq_refl).
    destruct (Z.leb_spec (rs_number_of_attributes r) 1); [lia|]. erewrite bind_done by reflexivity. cbn [negb].
    step (load_done as_resource p _ r w Hr eq_refl). step (load_pointer1_done _ _ w Hpb).
    step (load_done as_boolean qb _ _ w Hb eq_refl).
    unfold mrapi_impl_is_static. rewrite bind_assoc. step (load_done as_resource p _ r w Hr eq_refl).
    rewrite bind_assoc. step (load_pointer1_done _ _ w Hp2).
    rewrite bind_assoc. step (load_done as_static q2 _ _ w Hq2 eq_refl). erewrite bind_done by reflexivity.
    change (bool_decide (MRAPI_ATTR_DYNAMIC = MRAPI_ATTR_STATIC)) with false. destruct (ct_started s); [|done]. cbn [Z.b2z negb andb]. change (1 =? MRAPI_FALSE) with false. cbn beta iota.
    unfold mrapi_impl_resource_get_attribute. rewrite bind_assoc. step (value_done s w Hs).
    rewrite bind_assoc. by step (load_done as_uint32 qv _ _ w Hv eq_refl).
  - exists (w <| cells ::= <[qv := Uint32 0]> |>). split.
    + cbn [counter_call]. unfold mrapi_dynamic_attribute_reset. unfold bind at 1.
      rewrite (dynamic_done s w _ Hs). unfold mrapi_impl_dynamic_attribute_reset. rewrite bind_assoc.
      step (value_done s w Hs). rewrite !bind_assoc. step (load_done as_uint32 qv _ _ w Hv eq_refl).
      by step (store_done qv (Uint32 0) _ w Hv).
    + split; try done. by eapply cache_write_value.
  - exists (w <| cells ::= <[qb := Boolean (Z.b2z false)]> |>). split.
    + cbn [counter_call]. unfold mrapi_dynamic_attribute_stop. unfold bind at 1.
      rewrite (dynamic_done s w _ Hs). unfold mrapi_impl_dynamic_attribute_stop. rewrite bind_assoc.
      step (l3_done s w Hs). cbn [andb Z.eqb Pos.eqb]. rewrite !bind_assoc.
      by step (set_started_done s w false Hs).
    + split; try done. by eapply cache_write_started.
Qed.
End counter.

Lemma starts_one op : starts [op] = match op with Start _ => 1%nat | _ => 0%nat end.
Proof. by destruct op. Qed.

(** C30: The dynamic attribute of the cache implements the abstract counter: for any
    sequence of starts, counts, reads, resets and stops with at most ten starts,
    the answers are those of the counter, and the memory and the table of overflow
    callbacks keep representing it. *)
Theorem dynamic_attribute_refines c p qv qb ops s w :
  mrapi_impl_initialized c = true → counter_at p qv qb s w →
  (length (ct_callbacks s) + starts ops <= MRAPI_MAX_CALLBACKS)%nat →
  wp (counter_calls c p ops) (λ l w',
    l = (counter_steps s ops).1 ∧ counter_at p qv qb (counter_steps s ops).2 w') w.
Proof.
  intros Hc. revert s w. induction ops as [|op ops IH]; intros s w Hs Hroom; [by apply wp_ret|].
  assert (starts (op :: ops) = starts [op] + starts ops)%nat as Hst.
  { unfold starts. by rewrite <- length_app, <- filter_app. }
  destruct (counter_simulates c Hc p qv qb s w op Hs ltac:(lia)) as (w1 & He & Hs1).
  cbn [counter_calls]. apply wp_bind. eapply wp_intro; [exact He|].
  assert (length (ct_callbacks (counter_step s op).2) = length (ct_callbacks s) + starts [op])%nat as Hl.
  { rewrite starts_one. destruct op; cbn; rewrite ?length_app; cbn; lia. }
  apply wp_bind. eapply wp_mono; [apply (IH _ w1 Hs1); lia|].
  intros l w2 [-> Hs2]. apply wp_ret. cbn [counter_steps].
  destruct (counter_step s op) as [r s1]. cbn [fst snd] in *.
  by destruct (counter_steps s1 ops) as [l s2].
Qed.
Lemma dynamic_attribute_refines_witness :
  wp (counter_calls (ex_caller 0) 70 [ReadValue; Start 900; Count 7; ReadValue; Stop; ReadValue])
    (λ l w', l = (counter_steps (mk_counter 0 false [])
                    [ReadValue; Start 900; Count 7; ReadValue; Stop; ReadValue]).1 ∧
       counter_at 70 14 23 (counter_steps (mk_counter 0 false [])
                    [ReadValue; Start 900; Count 7; ReadValue; Stop; ReadValue]).2 w') chip_start.
Proof.
  apply (dynamic_attribute_refines (ex_caller 0) 70 14 23 _ (mk_counter 0 false []) chip_start).
  - reflexivity.
  - split; [|reflexivity..]. split; [|vm_compute; reflexivity..].
    exists (mk_resource 204 CACHE 0 0 2 18 15 21 24).
    split_and!; [vm_compute; reflexivity..|exists 17|exists 20| |];
      repeat split; try (eexists; split); vm_compute; reflexivity.
  - vm_compute. lia.
Defined.

(** The table of overflow callbacks has no room for an eleventh start. *)
Lemma eleventh_start_overruns :
  (let* _ := counter_calls (ex_caller 0) 70 (replicate 10 (Start 900)) in
   counter_call (ex_caller 0) 70 (Start 900)) chip_start = Fault OutOfBounds.
Proof. vm_compute. reflexivity. Qed.

(** ** Callbacks *)

(** [x] is the entry, at [i], that an event of the node finds. *)
Record registered (node : Z) (i : nat) (x : mrapi_callback_t) (w : resources) : Prop := {
  rg_entry : callbacks_array w !! i = Some x;
  rg_node : callback_node_id x = node;
  rg_first : ∀ j y, (j < i)%nat → callbacks_array w !! j = Some y → callback_node_id y ≠ node;
  rg_index : (i < Z.to_nat (callback_index w) <= MRAPI_MAX_CALLBACKS)%nat;
  rg_length : length (callbacks_array w) = MRAPI_MAX_CALLBACKS }.
(** What others do leaves the entry alone. *)
Definition leaves_entry (node : Z) (i : nat) (g : resources → resources) : Prop :=
  ∀ x w, registered node i x w → registered node i x (g w).

(** How many events make a call: at least one. *)
Definition period (x : mrapi_callback_t) : Z := Z.max 1 (callback_frequency x).
Definition counted_event (x : mrapi_callback_t) : mrapi_callback_t :=
  x <| callback_count := (callback_count x + 1) mod period x |>.

Lemma registered_alter node i x f w :
  registered node i x w → callback_node_id (f x) = callback_node_id x →
  registered node i (f x) (w <| callbacks_array ::= alter f i |>).
Proof.
  intros [He Hn Hf Hi Hl] Hid.
  split; cbn; [by rewrite list_lookup_alter_eq, He|congruence| |done|by rewrite length_alter].
  intros j y Hj. rewrite list_lookup_alter_ne by lia. by apply Hf.
Qed.
Lemma wp_modify_callback node i x f w (Q : unit → resources → Prop) :
  registered node i x w → callback_node_id (f x) = callback_node_id x →
  (∀ w', registered node i (f x) w' → Q tt w') → wp (modify_callback i f) Q w.
Proof.
  intros Hw Hid HQ. unfold modify_callback. apply wp_bind.
  eapply wp_arr_get; [apply (rg_entry _ _ _ _ Hw)|]. apply wp_modify, HQ. by apply registered_alter.
Qed.
Lemma wp_entry node i x w (Q : mrapi_callback_t → resources → Prop) :
  registered node i x w → Q x w → wp (arr_get callbacks_array i) Q w.
Proof. intros Hw. apply wp_arr_get, (rg_entry _ _ _ _ Hw). Qed.
Lemma wp_set_alarm node i x w (Q : unit → resources → Prop) :
  registered node i x w → (∀ w', registered node i x w' → alarm_set w' = true → Q tt w') →
  wp set_alarm Q w.
Proof. intros [] HQ. apply wp_modify, HQ; [by split|done]. Qed.

(** Counting one event. *)
Lemma count_event x :
  0 <= callback_count x < period x → callback_frequency x < 2 ^ 32 →
  u32 (callback_count x + 1) = callback_count x + 1 ∧
  if callback_frequency x <=? callback_count x + 1
  then (callback_count x + 1) mod period x = 0
  else (callback_count x + 1) mod period x = callback_count x + 1 ∧ callback_count x + 1 ≠ 0.
Proof.
  unfold period. intros Hc Hf. split; [apply u32_small; lia|].
  destruct (Z.leb_spec (callback_frequency x) (callback_count x + 1)).
  - replace (Z.max 1 (callback_frequency x)) with (callback_count x + 1) by lia. apply Z_mod_same_full.
  - split; [|lia]. apply Z.mod_small. lia.
Qed.
Lemma find_entry node i x w :
  registered node i x w →
  c_scan (λ x, callback_node_id x =? node) (callbacks_array w) (Z.to_nat (callback_index w)) 0 = Done i.
Proof.
  intros [He Hn Hf Hi Hl].
  destruct (c_scan_spec (λ x, callback_node_id x =? node) (callbacks_array w)
    (Z.to_nat (callback_index w)) 0) as (j & Hj & Hle & Hb & Ha); [lia|].
  rewrite Hj. f_equal. destruct (lt_eq_lt_dec j i) as [[Hlt|]|Hlt]; [|done|].
  - destruct (Ha ltac:(lia)) as (y & Hy & Hp). apply Z.eqb_eq in Hp. by destruct (Hf j y Hlt Hy).
  - specialize (Hb i x ltac:(lia) He). by apply Z.eqb_neq in Hb.
Qed.

(** One alarm. *)
Lemma alarm_spec gap c node i x w :
  mrapi_impl_whoami c ≠ None → c_node_id c = node → (∀ k, leaves_entry node i (gap k)) →
  registered node i x w → 0 <= callback_count x < period x → callback_frequency x < 2 ^ 32 →
  wp (mrapi_impl_alarm_catcher gap c) (λ r w',
    registered node i (counted_event x) w' ∧ alarm_set w' = true ∧
    r = if (callback_count x + 1) mod period x =? 0
        then Some (callback_func x, callback_event x) else None) w.
Proof.
  intros Hwho Hnode Hgap Hreg Hcount Hfreq. unfold mrapi_impl_alarm_catcher.
  apply wp_bind, wp_modify. set (w1 := w <| alarm_set := false |>).
  assert (registered node i x w1) as Hreg1 by (destruct Hreg; by split).
  unfold mrapi_impl_cause_event. unfold mrapi_impl_whoami in *.
  destruct (negb (c_attached c)); [done|]. destruct (c_pid c =? -1); [done|]. cbn beta iota.
  rewrite Hnode. apply wp_bind, wp_get. apply wp_bind.
  eapply wp_lift; [by eapply find_entry|]. apply wp_bind, wp_modify.
  destruct (Nat.ltb_spec i (Z.to_nat (callback_index w1))) as [_|Hge]; [|pose proof (rg_index _ _ _ _ Hreg1); lia].
  pose proof (Hgap 0%nat x w1 Hreg1) as Hreg2.
  destruct (count_event x Hcount Hfreq) as [Hu Hcase].
  apply wp_bind. eapply wp_modify_callback; [exact Hreg2|done|]. intros w3 Hreg3. cbn beta in Hreg3.
  apply wp_bind, wp_modify. apply (Hgap 1%nat) in Hreg3.
  apply wp_bind. eapply wp_entry; [exact Hreg3|]. cbn [callback_frequency callback_count set_field].
  change (callback_frequency (x <| callback_count ::= _ |>)) with (callback_frequency x).
  change (callback_count (x <| callback_count ::= _ |>)) with (u32 (callback_count x + 1)).
  rewrite Hu in *.
  unfold counted_event. destruct (callback_frequency x <=? callback_count x + 1).
  - rewrite Hcase. cbn [Z.eqb]. apply wp_bind. apply wp_bind.
    eapply wp_modify_callback; [exact Hreg3|done|]. intros w4 Hreg4. cbn beta in Hreg4.
    apply wp_bind. eapply wp_entry; [exact Hreg4|]. apply wp_bind, wp_modify.
    apply (Hgap 2%nat) in Hreg4. apply wp_bind. eapply wp_entry; [exact Hreg4|]. apply wp_ret.
    apply wp_bind. eapply wp_set_alarm; [exact Hreg4|]. intros w5 Hreg5 Ha. by apply wp_ret.
  - destruct Hcase as [-> Hne]. destruct (Z.eqb_spec (callback_count x + 1) 0); [done|].
    apply wp_bind, wp_ret, wp_bind. eapply wp_set_alarm; [exact Hreg3|]. intros w4 Hreg4 Ha.
    apply wp_ret. split; [|done]. 
    assert (x <| callback_count := callback_count x + 1 |> = x <| callback_count ::= λ n, u32 (n + 1) |>) as ->; [|done].
    unfold set_field. cbn. by rewrite Hu.
Qed.

(** A run of alarms: before each one others act, and between the releases too. *)
Fixpoint run_alarms (gaps : nat → nat → resources → resources) (c : caller) (i n : nat) :
    M resources (list (option (Z * Z))) :=
  match n with
  | O => ret []
  | S n =>
      modify (gaps i 3%nat);;
      let* r := mrapi_impl_alarm_catcher (gaps i) c in
      let* l := run_alarms gaps c (S i) n in
      ret (r :: l)
  end.
(** The answer to the event that follows [k] others. *)
Definition answer (x : mrapi_callback_t) (k : nat) : option (Z * Z) :=
  if (callback_count x + Z.of_nat k + 1) mod period x =? 0
  then Some (callback_func x, callback_event x) else None.

Lemma period_positive x : 0 < period x.
Proof. unfold period. lia. Qed.
Lemma counted_answer x k : answer (counted_event x) k = answer x (S k).
Proof.
  unfold answer. change (period (counted_event x)) with (period x).
  change (callback_count (counted_event x)) with ((callback_count x + 1) mod period x).
  change (callback_func (counted_event x)) with (callback_func x).
  change (callback_event (counted_event x)) with (callback_event x).
  rewrite <- Z.add_assoc, Zplus_mod_idemp_l.
  by replace (callback_count x + 1 + (Z.of_nat k + 1)) with (callback_count x + Z.of_nat (S k) + 1) by lia.
Qed.
Lemma counted_answers x n : map (answer (counted_event x)) (seq 0 n) = map (answer x) (seq 1 n).
Proof. rewrite <- seq_shift, map_map. apply map_ext, counted_answer. Qed.
Lemma counted_count x n :
  (callback_count (counted_event x) + n) mod period x = (callback_count x + (n + 1)) mod period x.
Proof.
  change (callback_count (counted_event x)) with ((callback_count x + 1) mod period x).
  rewrite Zplus_mod_idemp_l. f_equal. lia.
Qed.

(** A callback registered with frequency f is called at every f-th event of its
    node and at no other (a frequency of 0 counts as 1): of [n] alarms the one
    after [k] others makes the call, with the registered event as its argument, iff
    f divides the count then reached.  The count wraps at f, so it never exceeds
    the frequency, and each alarm arms the next one; others may do anything to
    the database between the alarms and while the lock is free, except to the
    entry. *)
Theorem callback_every_nth gaps c node i x n w :
  mrapi_impl_whoami c ≠ None → c_node_id c = node → (∀ a k, leaves_entry node i (gaps a k)) →
  registered node i x w → 0 <= callback_count x < period x → callback_frequency x < 2 ^ 32 →
  ∀ a, wp (run_alarms gaps c a n) (λ l w',
    l = map (answer x) (seq 0 n) ∧
    registered node i (x <| callback_count := (callback_count x + Z.of_nat n) mod period x |>) w' ∧
    (n ≠ 0%nat → alarm_set w' = true)) w.
Proof.
  intros Hwho Hnode Hgap. revert x w. induction n as [|n IH]; intros x w Hreg Hcount Hfreq a.
  - apply wp_ret. split_and!; [done| |done].
    rewrite Z.add_0_r, Z.mod_small by done. by destruct x.
  - cbn [run_alarms]. apply wp_bind, wp_modify. apply (Hgap a 3%nat) in Hreg. apply wp_bind.
    eapply wp_mono; [by apply (alarm_spec (gaps a) c node i x)|].
    intros r w1 (Hreg1 & Halarm & ->). apply wp_bind.
    pose proof (Z.mod_pos_bound (callback_count x + 1) (period x) (period_positive x)) as Hb.
    destruct n as [|n'].
    { apply wp_ret, wp_ret. split_and!; [|exact Hreg1|done].
      cbn. unfold answer. by rewrite Z.add_0_r. }
    eapply wp_mono; [apply (IH (counted_event x) w1 Hreg1 Hb Hfreq)|].
    intros l w2 (-> & Hreg2 & Ha2). apply wp_ret. split_and!; [| |intros _; by apply Ha2].
    + change (seq 0 (S (S n'))) with (0%nat :: seq 1 (S n')). rewrite map_cons. f_equal.
      * unfold answer. by rewrite Z.add_0_r.
      * apply counted_answers.
    + change (period (counted_event x)) with (period x) in Hreg2. rewrite counted_count in Hreg2.
      by replace (Z.of_nat (S (S n'))) with (Z.of_nat (S n') + 1) by lia.
Qed.

(** Node 1 registered for every third event; others change the cells between. *)
Definition ex_gaps (a k : nat) (w : resources) : resources :=
  w <| cells ::= <[Z.of_nat a := Uint32 (Z.of_nat k)]> |>.
Lemma callback_every_nth_witness :
  wp (let* r := mrapi_resource_register_callback (ex_caller 0) 1 3 900 in
      let* l := run_alarms ex_gaps (ex_caller 0) 0 7 in ret (r, l))
    (λ r w, r = (MRAPI_SUCCESS, map (answer (mk_callback 900 1 3 0 (c_node_id (ex_caller 0)))) (seq 0 7)) ∧
       registered (c_node_id (ex_caller 0)) 0 (mk_callback 900 1 3 1 (c_node_id (ex_caller 0))) w)
    chip_start.
Proof.
  apply wp_bind. eapply wp_intro; [vm_compute; reflexivity|]. apply wp_bind.
  eapply wp_mono;
    [apply (callback_every_nth ex_gaps (ex_caller 0) (c_node_id (ex_caller 0)) 0
       (mk_callback 900 1 3 0 (c_node_id (ex_caller 0))) 7)|].
  - discriminate.
  - reflexivity.
  - intros a k x w []. by split.
  - split; [reflexivity|reflexivity|intros j y Hj; lia|vm_compute; split; lia|reflexivity].
  - vm_compute. split; [discriminate|reflexivity].
  - reflexivity.
  - intros l w (-> & Hreg & _). by apply wp_ret.
Defined.

(** A second registration of the node is never found: its function is not called. *)
Lemma second_registration_never_called :
  match (let* _ := mrapi_resource_register_callback (ex_caller 0) 1 1 900 in
         let* _ := mrapi_resource_register_callback (ex_caller 0) 2 1 901 in
         run_alarms ex_gaps (ex_caller 0) 0 5) chip_start with
  | Done (l, _) => l = replicate 5 (Some (900, 1))
  | _ => False
  end.
Proof. vm_compute. reflexivity. Qed.
(** The array of callbacks has no room for an eleventh registration. *)
Lemma eleventh_registration_overruns :
  (foldr (λ f m, mrapi_resource_register_callback (ex_caller 0) 1 1 f;; m) (ret tt) (replicate 11 900))
    chip_start = Fault OutOfBounds.
Proof. vm_compute. reflexivity. Qed.
(** The first event of the enumeration is refused as if it were missing. *)
Lemma power_management_refused c frequency f w :
  mrapi_impl_initialized c = true →
  mrapi_resource_register_callback c 0 frequency f w = Done (MRAPI_ERR_RSRC_INVALID_EVENT, w).
Proof. intros H. unfold mrapi_resource_register_callback. by rewrite H. Qed.
