(* ===== verification/MemoryTheorems.v ===== *)
(** Shared and remote memory entries: every public call is safe, what
    attaching and detaching count, and the statuses of transfers. *)

From S2P Require Import Prelude MrapiTypes MrapiHandles MrapiLocks MrapiNodes MrapiShmem MrapiRmem LockSlots LockSpec LockEntry DbInvariant NodeSafety HandleTheorems RmemTheorems.

(** ** Keeping the invariant *)

Lemma db_wf_upd_shmem i f db : db_wf db → db_wf (upd_shmem i f db).
Proof. apply db_wf_shmems. Qed.
Lemma db_wf_upd_rmem i f db :
  db_wf db → (∀ x, length (rm_nodes (f x)) = length (rm_nodes x)) → db_wf (upd_rmem i f db).
Proof.
  intros Hdb Hf. split; cbn; rewrite ?length_alter; try apply Hdb.
  apply Forall_alter; [apply Hdb|]. intros x _ Hx. by rewrite Hf.
Qed.
Lemma db_wf_num_shmems f db : db_wf db → db_wf (db <| num_shmems ::= f |>).
Proof. intros Hdb. split; apply Hdb. Qed.
Lemma db_wf_num_rmems f db : db_wf db → db_wf (db <| num_rmems ::= f |>).
Proof. intros Hdb. split; apply Hdb. Qed.

Section accessors.
Context (F : Prop).

Lemma keeps_modify_shmem s f :
  (s < MRAPI_MAX_SHMEMS)%nat → db_keeps F (modify_shmem s f) (λ _, True).
Proof.
  intros Hs. eapply keeps_bind; [by apply keeps_get_shmem|]. intros _ _.
  apply keeps_modify; [done|]. intros db. apply db_wf_upd_shmem.
Qed.
Lemma keeps_get_rmem r :
  (r < MRAPI_MAX_RMEMS)%nat →
  db_keeps F (arr_get rmems r) (λ x, length (rm_nodes x) = MRAPI_MAX_NODES).
Proof.
  intros Hr. apply keeps_arr_get; intros db.
  - intros Hdb. apply lookup_lt_is_Some. by rewrite wf_rmems_length.
  - intros x Hdb Hx. by apply (Forall_lookup_1 _ _ _ _ (wf_rmems db Hdb) Hx).
Qed.
Lemma keeps_modify_rmem r f :
  (r < MRAPI_MAX_RMEMS)%nat → (∀ x, length (rm_nodes (f x)) = length (rm_nodes x)) →
  db_keeps F (modify_rmem r f) (λ _, True).
Proof.
  intros Hr Hf. eapply keeps_bind; [by apply keeps_get_rmem|]. intros _ _.
  apply keeps_modify; [done|]. intros db Hdb. by apply db_wf_upd_rmem.
Qed.
Lemma keeps_log_shmem_user d n s b :
  (d < MRAPI_MAX_DOMAINS)%nat → (n < MRAPI_MAX_NODES)%nat → (s < MRAPI_MAX_SHMEMS)%nat →
  db_keeps F (log_shmem_user d n s b) (λ _, True).
Proof.
  intros Hd Hn Hs. eapply keeps_bind; [by apply keeps_get_node|]. intros x Hx.
  eapply keeps_bind; [by apply keeps_n_shmems|]. intros _ _.
  apply keeps_modify_node; eauto with db.
Qed.
Lemma keeps_rm_nodes (x : mrapi_rmem_t) n :
  length (rm_nodes x) = MRAPI_MAX_NODES → (n < MRAPI_MAX_NODES)%nat →
  db_keeps F (from_option_oob (rm_nodes x !! n)) (λ _, True).
Proof. intros Hx Hn. apply keeps_oob; [|done]. apply lookup_lt_is_Some. by rewrite Hx. Qed.
Lemma keeps_log_rmem_user r n b :
  (r < MRAPI_MAX_RMEMS)%nat → (n < MRAPI_MAX_NODES)%nat →
  db_keeps F (log_rmem_user r n b) (λ _, True).
Proof.
  intros Hr Hn. eapply keeps_bind; [by apply keeps_get_rmem|]. intros x Hx.
  eapply keeps_bind; [by apply keeps_rm_nodes|]. intros _ _.
  apply keeps_modify_rmem; [done|]. intros y. cbn. by rewrite length_insert.
Qed.
(** Reading the whole database. *)
Lemma keeps_snapshot {B} (k : mrapi_database → M mrapi_database B) P :
  (∀ db, db_wf db → db_keeps F (k db) P) → db_keeps F (let* db := get in k db) P.
Proof. intros Hk db Hdb. eapply runs_step; [done|]. by apply Hk. Qed.

(** A handle that passed the check has its index in the array. *)
Lemma keeps_valid_shmem h :
  db_keeps F (mrapi_impl_valid_shmem_hndl h) (λ ok, ok = true →
    ∃ s, mrapi_impl_decode_hndl h = (s, true) ∧ (s < MRAPI_MAX_SHMEMS)%nat).
Proof.
  unfold mrapi_impl_valid_shmem_hndl. destruct (mrapi_impl_decode_hndl h) as [s v] eqn:Hd.
  destruct v; cbn [negb orb]; [|by apply keeps_ret].
  destruct (Nat.leb_spec MRAPI_MAX_SHMEMS s); [by apply keeps_ret|].
  eapply keeps_bind; [by apply keeps_get_shmem|]. intros x _. apply keeps_ret. eauto.
Qed.
Lemma keeps_valid_rmem h :
  db_keeps F (mrapi_impl_valid_rmem_hndl h) (λ ok, ok = true →
    ∃ s, mrapi_impl_decode_hndl h = (s, true) ∧ (s < MRAPI_MAX_RMEMS)%nat).
Proof.
  unfold mrapi_impl_valid_rmem_hndl. destruct (mrapi_impl_decode_hndl h) as [s v] eqn:Hd.
  destruct v; cbn [andb]; [|by apply keeps_ret].
  destruct (Nat.ltb_spec s MRAPI_MAX_RMEMS); [|by apply keeps_ret].
  eapply keeps_bind; [by apply keeps_get_rmem|]. intros x _. apply keeps_ret. eauto.
Qed.
End accessors.

(** ** Calls *)

Inductive mem_call :=
| ShmemCreate (id size : Z) (attrs : option mrapi_impl_attributes_t)
| ShmemGet (id : Z)
| ShmemAttach (shmem : Z)
| ShmemDetach (shmem : Z)
| ShmemDelete (shmem : Z)
| RmemCreate (id mem : Z) (t : mrapi_rmem_atype_t)
    (attrs : option mrapi_impl_attributes_t) (size : Z)
| RmemGet (id : Z) (t : mrapi_rmem_atype_t)
| RmemAttach (rmem : Z) (t : mrapi_rmem_atype_t)
| RmemDetach (rmem : Z)
| RmemDelete (rmem : Z).

Definition mute {A} (m : M mrapi_database A) : M mrapi_database unit := m;; ret tt.
Definition run_mem (o : os) (c : caller) (k : mem_call) : M mrapi_database unit :=
  match k with
  | ShmemCreate id size a => mute (mrapi_shmem_create o c id size a)
  | ShmemGet id => mute (mrapi_shmem_get c id)
  | ShmemAttach h => mute (mrapi_shmem_attach o c h)
  | ShmemDetach h => mute (mrapi_shmem_detach o c h)
  | ShmemDelete h => mute (mrapi_shmem_delete o c h MRAPI_SUCCESS)
  | RmemCreate id mem t a size => mute (mrapi_rmem_create c id mem t a size)
  | RmemGet id t => mute (mrapi_rmem_get c id t)
  | RmemAttach h t => mute (mrapi_rmem_attach c h t)
  | RmemDetach h => mute (mrapi_rmem_detach c h)
  | RmemDelete h => mute (mrapi_rmem_delete c h MRAPI_SUCCESS)
  end.

Ltac keep_end := intros; repeat case_match; by apply keeps_ret.

Section calls.
Context (F : Prop) (o : os) (c : caller) (Hc : caller_wf c).

Lemma keeps_shmem_create id size a :
  db_keeps F (mrapi_impl_shmem_create o c id size a) (λ _, True).
Proof.
  unfold mrapi_impl_shmem_create. eapply keeps_bind; [by apply keeps_assert_whoami|].
  intros _ _. apply keeps_snapshot. intros db Hdb.
  case_match; [by apply keeps_ret|].
  eapply keeps_bind; [by apply keeps_scan, wf_shmems_length|]. intros s Hs.
  case_match; [by apply keeps_ret|]. case_match; [by apply keeps_ret|].
  eapply keeps_bind; [by apply keeps_scan, wf_shmems_length|]. intros s' Hs'.
  eapply (keeps_bind _ _ (λ _, True)); [|intros _ _; by apply keeps_ret].
  destruct (Nat.ltb_spec s' MRAPI_MAX_SHMEMS); [|by apply keeps_ret].
  eapply keeps_bind; [by apply keeps_modify_shmem|]. intros _ _.
  eapply keeps_bind; [by apply keeps_modify_shmem|]. intros _ _.
  eapply (keeps_bind _ _ (λ _, True)); [case_match; by apply keeps_modify_shmem|].
  intros _ _. apply keeps_modify; [done|]. intros db'. apply db_wf_num_shmems.
Qed.
Lemma keeps_shmem_scan {B} id (k : nat → M mrapi_database B) P :
  (∀ s, db_keeps F (k s) P) →
  db_keeps F (let* db := get in
              let* s := lift (c_scan (has_shmem_key id) (shmems db) MRAPI_MAX_SHMEMS 0) in
              k s) P.
Proof.
  intros Hk. apply keeps_snapshot. intros db Hdb.
  eapply keeps_bind; [by apply keeps_scan, wf_shmems_length|]. intros s _. apply Hk.
Qed.
Lemma keeps_shmem_attached h s :
  mrapi_impl_decode_hndl h = (s, true) → (s < MRAPI_MAX_SHMEMS)%nat →
  db_keeps F (mrapi_impl_shmem_attached c h) (λ _, True).
Proof.
  intros Hd Hs. unfold mrapi_impl_shmem_attached.
  eapply keeps_bind; [by apply keeps_assert_whoami|]. intros _ (-> & ? & ?). rewrite Hd.
  eapply keeps_bind; [by apply keeps_get_shmem|]. intros x _.
  case_match; [|by apply keeps_ret].
  eapply keeps_bind; [by apply keeps_get_node|]. intros nd Hnd. by apply keeps_n_shmems.
Qed.
Lemma keeps_shmem_attach h s :
  mrapi_impl_decode_hndl h = (s, true) → (s < MRAPI_MAX_SHMEMS)%nat →
  db_keeps F (mrapi_impl_shmem_attach o c h) (λ _, True).
Proof.
  intros Hd Hs. unfold mrapi_impl_shmem_attach.
  eapply keeps_bind; [by apply keeps_assert_whoami|]. intros _ (-> & ? & ?). rewrite Hd.
  eapply (keeps_bind _ _ (λ _, True)); [by apply keeps_assert|]. intros _ _.
  eapply keeps_bind; [by apply keeps_modify_shmem|]. intros _ _.
  eapply keeps_bind; [by apply keeps_get_node|]. intros nd Hnd.
  eapply keeps_bind; [by apply keeps_n_shmems|]. intros user _.
  eapply (keeps_bind _ _ (λ _, True)).
  { destruct user; [by apply keeps_ret|].
    eapply keeps_bind; [by apply keeps_log_shmem_user|]. intros _ _.
    by apply keeps_modify_shmem. }
  intros _ _. eapply keeps_bind; [by apply keeps_get_shmem|]. keep_end.
Qed.
Lemma keeps_shmem_detach h s :
  mrapi_impl_decode_hndl h = (s, true) → (s < MRAPI_MAX_SHMEMS)%nat →
  db_keeps F (mrapi_impl_shmem_detach o c h) (λ _, True).
Proof.
  intros Hd Hs. unfold mrapi_impl_shmem_detach.
  eapply keeps_bind; [by apply keeps_assert_whoami|]. intros _ (-> & ? & ?). rewrite Hd.
  eapply (keeps_bind _ _ (λ _, True)); [by apply keeps_assert|]. intros _ _.
  eapply keeps_bind; [by apply keeps_log_shmem_user|]. intros _ _.
  eapply keeps_bind; [by apply keeps_modify_shmem|]. intros _ _.
  apply keeps_snapshot. intros db _. case_match; [|by apply keeps_ret].
  eapply keeps_bind; [by apply keeps_get_shmem|]. keep_end.
Qed.
Lemma keeps_shmem_delete h s :
  mrapi_impl_decode_hndl h = (s, true) → (s < MRAPI_MAX_SHMEMS)%nat →
  db_keeps F (mrapi_impl_shmem_delete o h) (λ _, True).
Proof.
  intros Hd Hs. unfold mrapi_impl_shmem_delete. rewrite Hd.
  eapply (keeps_bind _ _ (λ _, True)); [by apply keeps_assert|]. intros _ _.
  eapply keeps_bind; [by apply keeps_get_shmem|]. intros x _.
  case_match; [|by apply keeps_ret].
  eapply keeps_bind; [by apply keeps_modify_shmem|]. intros _ _.
  eapply (keeps_bind _ _ (λ _, True)); [|keep_end].
  apply keeps_modify; [done|]. intros db. apply db_wf_num_shmems.
Qed.

Lemma keeps_rmem_create id mem t a size :
  db_keeps F (mrapi_impl_rmem_create c id mem t a size) (λ _, True).
Proof.
  unfold mrapi_impl_rmem_create. eapply keeps_bind; [by apply keeps_assert_whoami|].
  intros _ _. apply keeps_snapshot. intros db Hdb.
  case_match; [by apply keeps_ret|].
  eapply keeps_bind; [by apply keeps_scan, wf_rmems_length|]. intros s Hs.
  case_match; [by apply keeps_ret|].
  eapply keeps_bind; [by apply keeps_scan, wf_rmems_length|]. intros s' Hs'.
  eapply (keeps_bind _ _ (λ _, True)); [|intros _ _; by apply keeps_ret].
  destruct (Nat.ltb_spec s' MRAPI_MAX_RMEMS); [|by apply keeps_ret].
  eapply keeps_bind; [by apply keeps_modify_rmem|]. intros _ _.
  eapply (keeps_bind _ _ (λ _, True)); [case_match; by apply keeps_modify_rmem|].
  intros _ _. apply keeps_modify; [done|]. intros db'. apply db_wf_num_rmems.
Qed.
Lemma keeps_rmem_attach h r :
  mrapi_impl_decode_hndl h = (r, true) → (r < MRAPI_MAX_RMEMS)%nat →
  db_keeps F (mrapi_impl_rmem_attach c h) (λ _, True).
Proof.
  intros Hd Hr. unfold mrapi_impl_rmem_attach.
  eapply keeps_bind; [by apply keeps_assert_whoami|]. intros _ (-> & ? & ?). rewrite Hd.
  eapply (keeps_bind _ _ (λ _, True)); [by apply keeps_assert|]. intros _ _.
  eapply keeps_bind; [by apply keeps_get_rmem|]. intros x Hx.
  eapply keeps_bind; [by apply keeps_rm_nodes|]. intros user _.
  eapply (keeps_bind _ _ (λ _, True)); [|keep_end].
  destruct user; [by apply keeps_ret|].
  eapply keeps_bind; [by apply keeps_log_rmem_user|]. intros _ _.
  by apply keeps_modify_rmem.
Qed.
Lemma keeps_rmem_detach h r :
  mrapi_impl_decode_hndl h = (r, true) → (r < MRAPI_MAX_RMEMS)%nat →
  db_keeps F (mrapi_impl_rmem_detach c h) (λ _, True).
Proof.
  intros Hd Hr. unfold mrapi_impl_rmem_detach.
  eapply keeps_bind; [by apply keeps_assert_whoami|]. intros _ (-> & ? & ?). rewrite Hd.
  eapply (keeps_bind _ _ (λ _, True)); [by apply keeps_assert|]. intros _ _.
  eapply keeps_bind; [by apply keeps_log_rmem_user|]. intros _ _.
  eapply keeps_bind; [by apply keeps_modify_rmem|]. keep_end.
Qed.
Lemma keeps_rmem_delete h r :
  mrapi_impl_decode_hndl h = (r, true) → (r < MRAPI_MAX_RMEMS)%nat →
  db_keeps F (mrapi_impl_rmem_delete h) (λ _, True).
Proof.
  intros Hd Hr. unfold mrapi_impl_rmem_delete. rewrite Hd.
  eapply (keeps_bind _ _ (λ _, True)); [by apply keeps_assert|]. intros _ _.
  eapply keeps_bind; [by apply keeps_modify_rmem|]. keep_end.
Qed.
End calls.

(** ** Every public call is safe *)

Lemma keeps_started {A} F c (a : A) (m : M mrapi_database A) P :
  P a → (caller_wf c → db_keeps F m P) → caller_ok c →
  db_keeps F (if negb (mrapi_impl_initialized c) then ret a else m) P.
Proof.
  intros Ha Hm Hc. destruct (mrapi_impl_initialized c) eqn:Hi; cbn [negb];
    [by apply Hm, Hc|by apply keeps_ret].
Qed.
Lemma keeps_checked_shmem {A} F h (a : A) (m : M mrapi_database A) :
  (∀ s, mrapi_impl_decode_hndl h = (s, true) → (s < MRAPI_MAX_SHMEMS)%nat →
     db_keeps F m (λ _, True)) →
  db_keeps F (let* ok := mrapi_impl_valid_shmem_hndl h in if negb ok then ret a else m)
    (λ _, True).
Proof.
  intros Hm. eapply keeps_bind; [by apply keeps_valid_shmem|].
  intros [] Hok; [|by apply keeps_ret]. destruct (Hok eq_refl) as (s & ? & ?). eauto.
Qed.
Lemma keeps_checked_rmem {A} F h (a : A) (m : M mrapi_database A) :
  (∀ r, mrapi_impl_decode_hndl h = (r, true) → (r < MRAPI_MAX_RMEMS)%nat →
     db_keeps F m (λ _, True)) →
  db_keeps F (let* ok := mrapi_impl_valid_rmem_hndl h in if negb ok then ret a else m)
    (λ _, True).
Proof.
  intros Hm. eapply keeps_bind; [by apply keeps_valid_rmem|].
  intros [] Hok; [|by apply keeps_ret]. destruct (Hok eq_refl) as (s & ? & ?). eauto.
Qed.

Lemma keeps_mute {A} F (m : M mrapi_database A) :
  db_keeps F m (λ _, True) → db_keeps F (mute m) (λ _, True).
Proof. intros Hm. eapply keeps_bind; [done|]. keep_end. Qed.

Lemma keeps_run_shmem F o c k :
  caller_ok c →
  match k with
  | ShmemCreate _ _ _ | ShmemGet _ | ShmemAttach _ | ShmemDetach _ | ShmemDelete _ =>
      db_keeps F (run_mem o c k) (λ _, True)
  | _ => True
  end.
Proof.
  intros Hc. destruct k as [id size a|id|h|h|h| | | | |]; try done; apply keeps_mute;
    apply keeps_started; try done; intros Hw.
  - cbn [mrapi_impl_shmem_validID negb].
    eapply (keeps_bind _ _ (λ _, True)).
    { apply keeps_shmem_scan. keep_end. }
    intros [] _; [by apply keeps_ret|]. by apply keeps_shmem_create.
  - eapply (keeps_bind _ _ (λ _, True)).
    { apply keeps_shmem_scan. keep_end. }
    intros [] _; [|by apply keeps_ret]. cbn [negb].
    eapply (keeps_bind _ _ (λ _, True)); [apply keeps_shmem_scan; keep_end|].
    intros [ok sh] _. keep_end.
  - apply keeps_checked_shmem. intros s Hd Hs.
    eapply keeps_bind; [by eapply keeps_shmem_attached|]. intros [] _; [by apply keeps_ret|].
    eapply keeps_bind; [by eapply keeps_shmem_attach|]. keep_end.
  - apply keeps_checked_shmem. intros s Hd Hs.
    eapply keeps_bind; [by eapply keeps_shmem_attached|]. intros [] _; [|by apply keeps_ret].
    eapply keeps_bind; [by eapply keeps_shmem_detach|]. keep_end.
  - apply keeps_checked_shmem. intros s Hd Hs.
    eapply keeps_bind; [by eapply keeps_shmem_delete|]. keep_end.
Qed.

Lemma keeps_run_rmem F o c k :
  caller_ok c →
  match k with
  | RmemCreate _ _ _ _ _ | RmemGet _ _ | RmemAttach _ _ | RmemDetach _ | RmemDelete _ =>
      db_keeps F (run_mem o c k) (λ _, True)
  | _ => True
  end.
Proof.
  intros Hc. destruct k as [| | | | |id mem t a size|id t|h t|h|h]; try done; apply keeps_mute;
    apply keeps_started; try done; intros Hw.
  - cbn [mrapi_impl_rmem_validID negb].
    eapply (keeps_bind _ _ (λ _, True)).
    { apply keeps_snapshot. intros db Hdb.
      eapply keeps_bind; [by apply keeps_scan, wf_rmems_length|]. keep_end. }
    intros [] _; [by apply keeps_ret|]. case_match; [by apply keeps_ret|].
    by apply keeps_rmem_create.
  - case_match; [by apply keeps_ret|].
    eapply (keeps_bind _ _ (λ _, True)).
    { apply keeps_snapshot. intros db Hdb.
      eapply keeps_bind; [by apply keeps_scan, wf_rmems_length|]. keep_end. }
    intros [ok r] _. keep_end.
  - apply keeps_checked_rmem. intros r Hd Hr.
    eapply keeps_bind; [by eapply keeps_rmem_attach|]. keep_end.
  - apply keeps_checked_rmem. intros r Hd Hr.
    eapply keeps_bind; [by eapply keeps_rmem_detach|]. keep_end.
  - apply keeps_checked_rmem. intros r Hd Hr.
    eapply keeps_bind; [by eapply keeps_rmem_delete|]. keep_end.
Qed.

(** Every public call that creates, looks up, attaches, detaches or
    deletes shared or remote memory, with any handle and any operating
    system results, finishes without a failed assertion or an access outside
    an array and leaves the database well formed. *)
Theorem memory_calls_are_safe o c k db :
  db_wf db → caller_ok c → wp (run_mem o c k) (λ _ db', db_wf db') db.
Proof.
  intros Hdb Hc.
  assert (db_keeps False (run_mem o c k) (λ _, True)) as Hk.
  { pose proof (keeps_run_shmem False o c k Hc). pose proof (keeps_run_rmem False o c k Hc).
    by destruct k. }
  eapply wp_mono; [apply (keeps_wp False db_wf _ (λ _, True)); [tauto|exact Hk|done]|]. by intros [] db' [_ ?].
Qed.
Lemma memory_calls_are_safe_witness :
  wp (run_mem (mk_os 1 1 true true 1 (λ _ _, 5) (λ _, 4096) (λ _, true) (λ _, true)) ex_c
        (ShmemCreate 7 64 None)) (λ _ db', db_wf db') zero_db.
Proof.
  apply (memory_calls_are_safe _ ex_c (ShmemCreate 7 64 None) zero_db).
  - apply db_wf_zero.
  - intros _. apply ex_c_wf.
Defined.

(** ** Attaching and detaching *)

Lemma shmem_get_done s db x : shmems db !! s = Some x → arr_get shmems s db = Done (x, db).
Proof. intros Hx. unfold arr_get, bind, get. by rewrite Hx. Qed.
Lemma modify_shmem_done s f db x :
  shmems db !! s = Some x → modify_shmem s f db = Done (tt, upd_shmem s f db).
Proof. intros Hx. unfold modify_shmem. by rewrite (bind_done _ _ _ _ _ (shmem_get_done s db x Hx)). Qed.
Lemma lookup_upd_shmem s f db x :
  shmems db !! s = Some x → shmems (upd_shmem s f db) !! s = Some (f x).
Proof. intros Hx. cbn. by rewrite list_lookup_alter_eq, Hx. Qed.
Lemma log_shmem_user_at d n s b db dm nd u :
  domains db !! d = Some dm → d_nodes dm !! n = Some nd → n_shmems nd !! s = Some u →
  log_shmem_user d n s b db
  = Done (tt, upd_node d n (λ x, x <| n_shmems ::= <[s := b]> |>) db).
Proof.
  intros Hd Hn Hu. unfold log_shmem_user.
  rewrite (bind_done _ _ _ _ _ (get_node_done _ _ _ _ _ Hd Hn)), Hu.
  erewrite bind_done by reflexivity. by eapply modify_node_done.
Qed.

(** The caller's user flag of segment [s]. *)
Definition shmem_user (c : caller) (s : nat) (db : mrapi_database) : option bool :=
  dm ← domains db !! c_dindex c; nd ← d_nodes dm !! c_nindex c; n_shmems nd !! s.
Lemma shmem_user_inv c s db b :
  shmem_user c s db = Some b →
  ∃ dm nd, domains db !! c_dindex c = Some dm ∧ d_nodes dm !! c_nindex c = Some nd ∧
    n_shmems nd !! s = Some b.
Proof.
  unfold shmem_user. destruct (domains db !! c_dindex c) as [dm|]; [|done].
  cbn. destruct (d_nodes dm !! c_nindex c) as [nd|] eqn:Hn; [|done]. cbn. eauto.
Qed.

Section shmem.
Context (o : os) (c : caller) (Hc : caller_wf c) (h : Z) (s : nat).
Context (Hh : mrapi_impl_decode_hndl h = (s, true)) (Hs : (s < MRAPI_MAX_SHMEMS)%nat).

Lemma valid_shmem_done db x :
  shmems db !! s = Some x → mrapi_impl_valid_shmem_hndl h db = Done (sh_valid x, db).
Proof.
  intros Hx. unfold mrapi_impl_valid_shmem_hndl. rewrite Hh. cbn [negb orb].
  destruct (Nat.leb_spec MRAPI_MAX_SHMEMS s); [lia|].
  by rewrite (bind_done _ _ _ _ _ (shmem_get_done s db x Hx)).
Qed.
Lemma shmem_attached_done db x b :
  shmems db !! s = Some x → sh_valid x = true → shmem_user c s db = Some b →
  mrapi_impl_shmem_attached c h db = Done (b, db).
Proof.
  intros Hx Hv (dm & nd & Hd & Hn & Hb)%shmem_user_inv.
  unfold mrapi_impl_shmem_attached.
  rewrite (bind_done _ _ _ _ _ (assert_whoami_done c db Hc)), Hh.
  rewrite (bind_done _ _ _ _ _ (shmem_get_done s db x Hx)), Hv.
  by rewrite (bind_done _ _ _ _ _ (get_node_done _ _ _ _ _ Hd Hn)), Hb.
Qed.
(** The caller's flag set to [b]. *)
Definition set_user (b : bool) (db : mrapi_database) : mrapi_database :=
  upd_node (c_dindex c) (c_nindex c) (λ x, x <| n_shmems ::= <[s := b]> |>) db.
Lemma shmem_user_set b u db : shmem_user c s db = Some u → shmem_user c s (set_user b db) = Some b.
Proof.
  intros (dm & nd & Hd & Hn & Hu)%shmem_user_inv. unfold shmem_user, set_user. cbn.
  rewrite list_lookup_alter_eq, Hd. cbn. rewrite list_lookup_alter_eq, Hn. cbn.
  apply list_lookup_insert_eq. by eapply lookup_lt_Some.
Qed.

Lemma shmem_attach_done db x :
  shmems db !! s = Some x → shmem_user c s db = Some false →
  let addr := os_shmem_attach o (sh_id x) in
  ∃ db', mrapi_impl_shmem_attach o c h db = Done (addr, db') ∧
    shmem_user c s db' = Some true ∧
    shmems db' !! s = Some (x <| sh_addr := addr |> <| sh_refs := u8 (sh_refs x + 1) |>).
Proof.
  intros Hx Hu addr. pose proof Hu as (dm & nd & Hd & Hn & Hb)%shmem_user_inv.
  set (db1 := upd_shmem s (λ x, x <| sh_addr := os_shmem_attach o (sh_id x) |>) db).
  set (db2 := set_user true db1).
  set (db3 := upd_shmem s (λ x, x <| sh_refs ::= λ r, u8 (r + 1) |>) db2).
  assert (Hx1 : shmems db1 !! s = Some (x <| sh_addr := addr |>))
    by exact (lookup_upd_shmem s _ db x Hx).
  assert (Hx2 : shmems db2 !! s = Some (x <| sh_addr := addr |>)) by done.
  assert (Hx3 : shmems db3 !! s
    = Some (x <| sh_addr := addr |> <| sh_refs := u8 (sh_refs x + 1) |>))
    by exact (lookup_upd_shmem s _ db2 _ Hx2).
  exists db3. split; [|split; [|done]].
  2:{ change (shmem_user c s db3) with (shmem_user c s db2).
      by apply (shmem_user_set true false db1). }
  unfold mrapi_impl_shmem_attach.
  rewrite (bind_done _ _ _ _ _ (assert_whoami_done c db Hc)), Hh, assert_true.
  rewrite (bind_done _ _ _ _ _ (modify_shmem_done s _ db x Hx)). fold db1.
  rewrite (bind_done _ _ _ _ _ (get_node_done _ _ db1 _ _ Hd Hn)), Hb.
  erewrite bind_done by reflexivity. erewrite bind_done.
  2:{ erewrite bind_done by (by eapply (log_shmem_user_at _ _ s true db1)).
      by eapply (modify_shmem_done s _ db2). }
  rewrite (bind_done _ _ _ _ _ (shmem_get_done s db3 _ Hx3)). done.
Qed.

Lemma shmem_detach_done db x :
  shmems db !! s = Some x → shmem_user c s db = Some true →
  (∀ a, os_shmem_detach o a = true) →
  ∃ db', mrapi_impl_shmem_detach o c h db = Done (true, db') ∧
    shmem_user c s db' = Some false ∧
    shmems db' !! s = Some (x <| sh_refs := u8 (sh_refs x - 1) |>).
Proof.
  intros Hx Hu Ho. pose proof Hu as (dm & nd & Hd & Hn & Hb)%shmem_user_inv.
  set (db1 := set_user false db).
  set (db2 := upd_shmem s (λ x, x <| sh_refs ::= λ r, u8 (r - 1) |>) db1).
  assert (Hx2 : shmems db2 !! s = Some (x <| sh_refs := u8 (sh_refs x - 1) |>))
    by exact (lookup_upd_shmem s _ db1 x Hx).
  exists db2. split; [|split; [|done]].
  2:{ change (shmem_user c s db2) with (shmem_user c s db1).
      by apply (shmem_user_set false true db). }
  unfold mrapi_impl_shmem_detach.
  rewrite (bind_done _ _ _ _ _ (assert_whoami_done c db Hc)), Hh, assert_true.
  erewrite bind_done by (by eapply (log_shmem_user_at _ _ s false db)).
  erewrite bind_done by (by eapply (modify_shmem_done s _ db1)).
  erewrite bind_done by reflexivity. case_match; [|done].
  rewrite (bind_done _ _ _ _ _ (shmem_get_done s db2 _ Hx2)). unfold ret. by rewrite Ho.
Qed.
End shmem.

(** Attaching and detaching balance.  A node that is not attached to a
    valid segment attaches to it: it gets the address the operating system
    mapped, is recorded as a user and counts as one reference; detaching
    succeeds, clears the record and gives the reference back. *)
Theorem shmem_attach_then_detach o c h s db x :
  caller_wf c → db_wf db → mrapi_impl_decode_hndl h = (s, true) →
  shmems db !! s = Some x → sh_valid x = true → shmem_user c s db = Some false →
  os_shmem_attach o (sh_id x) ≠ 0 → (∀ a, os_shmem_detach o a = true) →
  0 <= sh_refs x < 256 →
  wp (let* (addr, st1) := mrapi_shmem_attach o c h in
      let* db1 := get in
      let* st2 := mrapi_shmem_detach o c h in ret (addr, st1, db1, st2))
    (λ r db', ∃ db1,
       r = (os_shmem_attach o (sh_id x), MRAPI_SUCCESS, db1, MRAPI_SUCCESS) ∧
       shmem_user c s db1 = Some true ∧
       (sh_refs <$> shmems db1 !! s) = Some (u8 (sh_refs x + 1)) ∧
       shmem_user c s db' = Some false ∧
       shmems db' !! s = Some (x <| sh_addr := os_shmem_attach o (sh_id x) |>)) db.
Proof.
  intros Hc Hdb Hh Hx Hv Hu Haddr Hdet Hrefs.
  pose proof (lookup_lt_Some _ _ _ Hx) as Hs. rewrite (wf_shmems_length db Hdb) in Hs.
  destruct (shmem_attach_done o c Hc h s Hh db x Hx Hu) as (db1 & H1 & Hu1 & Hx1).
  destruct (shmem_detach_done o c Hc h s Hh db1 _ Hx1 Hu1 Hdet) as (db2 & H2 & Hu2 & Hx2).
  assert (mrapi_shmem_attach o c h db
    = Done ((os_shmem_attach o (sh_id x), MRAPI_SUCCESS), db1)) as Ha.
  { unfold mrapi_shmem_attach. rewrite caller_wf_initialized by done. cbn [negb].
    rewrite (bind_done _ _ _ _ _ (valid_shmem_done h s Hh Hs db x Hx)), Hv. cbn [negb].
    rewrite (bind_done _ _ _ _ _ (shmem_attached_done c Hc h s Hh db x false Hx Hv Hu)).
    rewrite (bind_done _ _ _ _ _ H1).
    by destruct (Z.eqb_spec (os_shmem_attach o (sh_id x)) 0). }
  assert (mrapi_shmem_detach o c h db1 = Done (MRAPI_SUCCESS, db2)) as Hd.
  { unfold mrapi_shmem_detach. rewrite caller_wf_initialized by done. cbn [negb].
    rewrite (bind_done _ _ _ _ _ (valid_shmem_done h s Hh Hs db1 _ Hx1)).
    cbn [sh_valid set_field]. change (sh_valid (_ <| sh_refs := _ |>)) with (sh_valid x).
    rewrite Hv. cbn [negb].
    rewrite (bind_done _ _ _ _ _ (shmem_attached_done c Hc h s Hh db1 _ true Hx1 Hv Hu1)).
    cbn [negb]. by rewrite (bind_done _ _ _ _ _ H2). }
  apply wp_bind. eapply wp_intro; [done|]. cbn beta iota.
  apply wp_bind. apply wp_get. apply wp_bind. eapply wp_intro; [done|]. apply wp_ret.
  exists db1. split; [done|]. split; [done|]. split; [by rewrite Hx1|]. split; [done|].
  rewrite Hx2. f_equal.
  transitivity (x <| sh_addr := os_shmem_attach o (sh_id x) |>
                  <| sh_refs := u8 (u8 (sh_refs x + 1) - 1) |>); [done|].
  assert (u8 (u8 (sh_refs x + 1) - 1) = sh_refs x) as ->; [|by destruct x].
  unfold u8. rewrite Zminus_mod_idemp_l, Z.mod_small; lia.
Qed.

(** A database with one segment, not attached. *)
Definition ex_shmem_os : os :=
  mk_os 1 1 true true 1 (λ _ _, 5) (λ _, 4096) (λ _, true) (λ _, true).
Definition ex_shmem_db : mrapi_database :=
  match mrapi_shmem_create ex_shmem_os ex_c 7 64 None zero_db with
  | Done (_, db) => db | Fault _ => zero_db end.
Definition ex_shmem : mrapi_shmem_t := default zero_shmem (shmems ex_shmem_db !! 0%nat).
Lemma ex_shmem_wf : db_wf ex_shmem_db.
Proof.
  pose proof (keeps_run_shmem False ex_shmem_os ex_c (ShmemCreate 7 64 None)
    (λ _, ex_c_wf) zero_db db_wf_zero) as Hk.
  unfold runs, run_mem, mute, bind in Hk. unfold ex_shmem_db.
  destruct (mrapi_shmem_create ex_shmem_os ex_c 7 64 None zero_db) as [[a db]|];
    [apply Hk|apply db_wf_zero].
Qed.
Lemma shmem_attach_then_detach_witness :
  wp (let* (addr, st1) := mrapi_shmem_attach ex_shmem_os ex_c 0x80000000 in
      let* db1 := get in
      let* st2 := mrapi_shmem_detach ex_shmem_os ex_c 0x80000000 in ret (addr, st1, db1, st2))
    (λ r db', ∃ db1,
       r = (os_shmem_attach ex_shmem_os (sh_id ex_shmem), MRAPI_SUCCESS, db1, MRAPI_SUCCESS) ∧
       shmem_user ex_c 0 db1 = Some true ∧
       (sh_refs <$> shmems db1 !! 0%nat) = Some (u8 (sh_refs ex_shmem + 1)) ∧
       shmem_user ex_c 0 db' = Some false ∧
       shmems db' !! 0%nat
       = Some (ex_shmem <| sh_addr := os_shmem_attach ex_shmem_os (sh_id ex_shmem) |>))
    ex_shmem_db.
Proof.
  apply (shmem_attach_then_detach ex_shmem_os ex_c 0x80000000 0 ex_shmem_db ex_shmem).
  - apply ex_c_wf.
  - exact ex_shmem_wf.
  - vm_compute. reflexivity.
  - vm_compute. reflexivity.
  - vm_compute. reflexivity.
  - vm_compute. reflexivity.
  - vm_compute. discriminate.
  - intros a. reflexivity.
  - vm_compute. split; [discriminate|reflexivity].
Defined.

(** ** Transfers *)

(** An overrun is silent.  For an attached node and strides no shorter
    than a block, [mrapi_rmem_write] and [mrapi_rmem_read] report
    [MRAPI_SUCCESS] when the bound check refuses the transfer, although no
    byte was moved. *)
Theorem rmem_overrun_is_silent c h r db x fuel off buf boff bytes n rs ls m :
  caller_wf c → mrapi_impl_decode_hndl h = (r, true) → (r < MRAPI_MAX_RMEMS)%nat →
  rmems db !! r = Some x → rm_valid x = true → rm_nodes x !! c_nindex c = Some true →
  bytes <= rs → bytes <= ls →
  (rm_addr x + rm_size x < rm_addr x + off + u32 (rs * n) + bytes →
   mrapi_rmem_write fuel c h off buf boff bytes n rs ls (db, m)
   = Done (MRAPI_SUCCESS, (db, m))) ∧
  (rm_addr x + rm_size x - 1 < rm_addr x + off + u32 (rs * n) →
   mrapi_rmem_read fuel c h off buf boff bytes n rs ls (db, m)
   = Done (MRAPI_SUCCESS, (db, m))).
Proof.
  intros Hc Hh Hr Hx Hv Hn Hrs Hls.
  assert (arr_get rmems r db = Done (x, db)) as Hg.
  { unfold arr_get, bind, get. by rewrite Hx. }
  assert (on_db (rmem_transfer_check c h bytes rs ls) (db, m) = Done (None, (db, m))) as Hchk.
  { unfold on_db, rmem_transfer_check. rewrite caller_wf_initialized by done. cbn [negb fst].
    assert (mrapi_impl_valid_rmem_hndl h db = Done (true, db)) as Hval.
    { unfold mrapi_impl_valid_rmem_hndl. rewrite Hh.
      destruct (Nat.ltb_spec r MRAPI_MAX_RMEMS); [|lia]. cbn [andb].
      by rewrite (bind_done _ _ _ _ _ Hg), Hv. }
    rewrite (bind_done _ _ _ _ _ Hval). cbn [negb].
    destruct (Z.ltb_spec rs bytes); [lia|]. destruct (Z.ltb_spec ls bytes); [lia|]. cbn [orb].
    assert (mrapi_impl_rmem_attached c h db = Done (true, db)) as Hatt.
    { unfold mrapi_impl_rmem_attached.
      rewrite (bind_done _ _ _ _ _ (assert_whoami_done c db Hc)), Hh.
      by rewrite (bind_done _ _ _ _ _ Hg), Hv, Hn. }
    by rewrite (bind_done _ _ _ _ _ Hatt). }
  split; intros Hover; unfold mrapi_rmem_write, mrapi_rmem_read, mrapi_impl_rmem_write,
    mrapi_impl_rmem_read; rewrite (bind_done _ _ _ _ _ Hchk), Hh; erewrite bind_done;
    try (rewrite assert_true, (on_rmem r db x Hx m), Hv; cbn [negb];
         rewrite (proj2 (Z.ltb_lt _ _) Hover); reflexivity); done.
Qed.
Lemma rmem_overrun_is_silent_witness :
  (1000 + 16 < 1000 + 9 + u32 (4 * 2) + 2 →
   mrapi_rmem_write 5 ex_c 0x80000000 9 2000 0 2 2 4 2 (ex_rdb, ex_mem)
   = Done (MRAPI_SUCCESS, (ex_rdb, ex_mem))) ∧
  (1000 + 16 - 1 < 1000 + 9 + u32 (4 * 2) →
   mrapi_rmem_read 5 ex_c 0x80000000 9 2000 0 2 2 4 2 (ex_rdb, ex_mem)
   = Done (MRAPI_SUCCESS, (ex_rdb, ex_mem))).
Proof.
  apply (rmem_overrun_is_silent ex_c 0x80000000 0 ex_rdb ex_rmem 5 9 2000 0 2 2 4 2 ex_mem).
  - apply ex_c_wf.
  - vm_compute. reflexivity.
  - unfold MRAPI_MAX_RMEMS. lia.
  - vm_compute. reflexivity.
  - reflexivity.
  - vm_compute. reflexivity.
  - lia.
  - lia.
Defined.

(** Entries are never given back: creating and deleting ten times fills the
    table of ten for good. *)
Definition ex_rmem_cycle (db : mrapi_database) : mrapi_database :=
  match (let* (h, _) := mrapi_rmem_create ex_c 5 1000 MRAPI_RMEM_DUMMY None 8 in
         mrapi_rmem_delete ex_c h MRAPI_SUCCESS) db with
  | Done (_, db) => db | Fault _ => db end.
Example rmem_entries_leak :
  match mrapi_rmem_create ex_c 5 1000 MRAPI_RMEM_DUMMY None 8
          (Nat.iter 10 ex_rmem_cycle zero_db) with
  | Done ((_, st), _) => st = MRAPI_ERR_MEM_LIMIT
  | Fault _ => False
  end.
Proof. vm_compute. done. Qed.

(** Detaching without being attached wraps the reference count. *)
Example rmem_detach_unattached :
  match (let* (h, _) := mrapi_rmem_create ex_c 5 1000 MRAPI_RMEM_DUMMY None 8 in
         mrapi_rmem_detach ex_c h) zero_db with
  | Done (st, db) => st = MRAPI_SUCCESS ∧ (rm_refs <$> rmems db !! 0%nat) = Some 255
  | Fault _ => False
  end.
Proof. vm_compute. done. Qed.
