(* ===== verification/McapiTypes.v ===== *)
(** Data model of the MCAPI shared-memory transport: status codes
    ([mcapi.h]), limits and the records of the shared database
    ([transport_sm.h], [mcapi_impl_spec.h]), and the access functions the
    operations use.

    The limits that configure chooses have its default values. *)

From S2P Require Import Prelude.

(** ** Status codes, as the integers they are in C *)

Definition MCAPI_SUCCESS : Z := 1.
Definition MCAPI_PENDING : Z := 2.
Definition MCAPI_TIMEOUT : Z := 3.
Definition MCAPI_ERR_PARAMETER : Z := 4.
Definition MCAPI_ERR_DOMAIN_INVALID : Z := 5.
Definition MCAPI_ERR_NODE_INVALID : Z := 6.
Definition MCAPI_ERR_NODE_INITFAILED : Z := 7.
Definition MCAPI_ERR_NODE_INITIALIZED : Z := 8.
Definition MCAPI_ERR_NODE_NOTINIT : Z := 9.
Definition MCAPI_ERR_NODE_FINALFAILED : Z := 10.
Definition MCAPI_ERR_PORT_INVALID : Z := 11.
Definition MCAPI_ERR_ENDP_INVALID : Z := 12.
Definition MCAPI_ERR_ENDP_EXISTS : Z := 13.
Definition MCAPI_ERR_ENDP_GET_LIMIT : Z := 14.
Definition MCAPI_ERR_ENDP_DELETED : Z := 15.
Definition MCAPI_ERR_ENDP_NOTOWNER : Z := 16.
Definition MCAPI_ERR_ENDP_REMOTE : Z := 17.
Definition MCAPI_ERR_ENDP_NOPORTS : Z := 18.
Definition MCAPI_ERR_ENDP_LIMIT : Z := 19.
Definition MCAPI_ERR_ATTR_INCOMPATIBLE : Z := 20.
Definition MCAPI_ERR_ATTR_SIZE : Z := 21.
Definition MCAPI_ERR_ATTR_NUM : Z := 22.
Definition MCAPI_ERR_ATTR_VALUE : Z := 23.
Definition MCAPI_ERR_ATTR_NOTSUPPORTED : Z := 24.
Definition MCAPI_ERR_ATTR_READONLY : Z := 25.
Definition MCAPI_ERR_MSG_LIMIT : Z := 26.
Definition MCAPI_ERR_MSG_TRUNCATED : Z := 27.
Definition MCAPI_ERR_CHAN_OPEN : Z := 28.
Definition MCAPI_ERR_CHAN_TYPE : Z := 29.
Definition MCAPI_ERR_CHAN_DIRECTION : Z := 30.
Definition MCAPI_ERR_CHAN_CONNECTED : Z := 31.
Definition MCAPI_ERR_CHAN_OPENPENDING : Z := 32.
Definition MCAPI_ERR_CHAN_NOTOPEN : Z := 33.
Definition MCAPI_ERR_CHAN_INVALID : Z := 34.
Definition MCAPI_ERR_PKT_LIMIT : Z := 35.
Definition MCAPI_ERR_SCL_SIZE : Z := 36.
Definition MCAPI_ERR_TRANSMISSION : Z := 37.
Definition MCAPI_ERR_PRIORITY : Z := 38.
Definition MCAPI_ERR_BUF_INVALID : Z := 39.
Definition MCAPI_ERR_MEM_LIMIT : Z := 40.
Definition MCAPI_ERR_REQUEST_INVALID : Z := 41.
Definition MCAPI_ERR_REQUEST_LIMIT : Z := 42.
Definition MCAPI_ERR_REQUEST_CANCELLED : Z := 43.
Definition MCAPI_ERR_WAIT_PENDING : Z := 44.
Definition MCAPI_ERR_GENERAL : Z := 45.
Definition MCAPI_STATUSCODE_END : Z := 46.
Definition MCAPI_MAX_STATUS_SIZE : Z := 32.
Definition MCA_INFINITE : Z := 0xffffffff.

(** ** Limits *)

Definition MCA_MAX_DOMAINS : nat := 2.
Definition MCA_MAX_NODES : nat := 16.
Definition MCAPI_MAX_ENDPOINTS : nat := 32.
Definition MCAPI_MAX_BUFFERS : nat := 1284.
Definition MCAPI_MAX_MSG_SIZE : nat := 1024.
Definition MCAPI_MAX_PKT_SIZE : nat := 1024.
Definition MCAPI_MAX_QUEUE_ELEMENTS : nat := 64.
(** One element stays empty so that full and empty differ. *)
Definition MCAPI_MAX_QUEUE_ENTRIES : nat := 65.
Definition MCAPI_MAX_REQUESTS : nat := 1024.
Definition MAGIC_NUM : Z := 0xdeadcafe.
Definition MCAPI_VALID_MASK : Z := 0x80000000.
Definition MCAPI_MAX_PRIORITY : Z := 10.
Definition MAX_NUM_ATTRIBUTES : nat := 4.
(** [~0], converted to [unsigned int]. *)
Definition MCAPI_PORT_ANY : Z := 0xffffffff.
Definition MCAPI_NODE_INVALID : Z := 0xffffffff.
Definition MCAPI_DOMAIN_INVALID : Z := 0xffffffff.
Definition MCAPI_RETURN_VALUE_INVALID : Z := 0xffffffff.
Definition MCAPI_NODE_ATTR_TYPE_REGULAR : Z := 0.
Definition MCAPI_ENDP_ATTR_NUM_RECV_BUFFERS : Z := 9.

(** ** Enumerations *)

Inductive channel_type := MCAPI_NO_CHAN | MCAPI_PKT_CHAN | MCAPI_SCL_CHAN.
#[export] Instance channel_type_eq_dec : EqDecision channel_type.
Proof. solve_decision. Defined.

Inductive mcapi_request_type :=
| OTHER | CONN_PKTCHAN | CONN_SCLCHAN | OPEN_PKTCHAN | OPEN_SCLCHAN
| CLOSE_PKTCHAN | CLOSE_SCLCHAN | SEND | RECV | GET_ENDPT.
#[export] Instance request_type_eq_dec : EqDecision mcapi_request_type.
Proof. solve_decision. Defined.

(** ** Records of the database *)

(** A message, packet or scalar buffer; [b_buff] is its char array. *)
Record buffer_entry := mk_buffer {
  b_magic_num : Z;
  b_size : Z;
  b_scalar : Z;
  b_buff : list Z }.
#[export] Instance eta_buffer : Settable buffer_entry := λ r,
  mk_buffer (b_magic_num r) (b_size r) (b_scalar r) (b_buff r).

(** Pointers are addresses: [rq_buffer] the user's buffer, [rq_buffer_ptr]
    the user's pointer to one, [rq_ep_endpoint] the endpoint to fill in. *)
Record mcapi_request_data := mk_mrequest {
  rq_valid : bool;
  rq_size : Z;
  rq_type : mcapi_request_type;
  rq_buffer : Z;
  rq_buffer_ptr : Z;
  rq_ep_node_num : Z;
  rq_ep_port_num : Z;
  rq_ep_domain_num : Z;
  rq_completed : bool;
  rq_cancelled : bool;
  rq_handle : Z;
  rq_status : Z;
  rq_ep_endpoint : Z }.
#[export] Instance eta_mrequest : Settable mcapi_request_data := λ r,
  mk_mrequest (rq_valid r) (rq_size r) (rq_type r) (rq_buffer r)
    (rq_buffer_ptr r) (rq_ep_node_num r) (rq_ep_port_num r)
    (rq_ep_domain_num r) (rq_completed r) (rq_cancelled r) (rq_handle r)
    (rq_status r) (rq_ep_endpoint r).

(** The array of requests is threaded with two doubly linked lists, of the
    free and of the used entries; -1 ends a list. *)
Record indexed_array_node := mk_inode { next_index : Z; prev_index : Z }.
#[export] Instance eta_inode : Settable indexed_array_node := λ r,
  mk_inode (next_index r) (prev_index r).

Record indexed_array_header := mk_iheader {
  ia_array : list indexed_array_node;
  curr_count : Z;
  max_count : Z;
  empty_head_index : Z;
  full_head_index : Z }.
#[export] Instance eta_iheader : Settable indexed_array_header := λ r,
  mk_iheader (ia_array r) (curr_count r) (max_count r) (empty_head_index r)
    (full_head_index r).

(** [bd_request] is the handle of the receive that reserved the entry (0:
    none); [bd_buff_index] the buffer's index with a valid bit (0: none). *)
Record buffer_descriptor := mk_desc {
  bd_request : Z;
  bd_buff_index : Z;
  bd_invalid : bool }.
#[export] Instance eta_desc : Settable buffer_descriptor := λ r,
  mk_desc (bd_request r) (bd_buff_index r) (bd_invalid r).

(** [q_head] and [q_tail] are reduced modulo [MCAPI_MAX_QUEUE_ENTRIES] by
    every assignment, so [nat] represents their [uint16_t]. *)
Record queue := mk_queue {
  q_send_endpt : Z;
  q_recv_endpt : Z;
  q_channel_type : channel_type;
  q_num_elements : Z; (* uint32 *)
  q_head : nat;
  q_tail : nat;
  q_elements : list buffer_descriptor }.
#[export] Instance eta_queue : Settable queue := λ r,
  mk_queue (q_send_endpt r) (q_recv_endpt r) (q_channel_type r)
    (q_num_elements r) (q_head r) (q_tail r) (q_elements r).

Record endpoint_entry := mk_endpoint {
  ep_port_num : Z;
  ep_valid : bool;
  ep_anonymous : bool;
  ep_open : bool;
  ep_connected : bool;
  ep_num_attributes : Z;
  ep_recv_queue : queue }.
#[export] Instance eta_endpoint : Settable endpoint_entry := λ r,
  mk_endpoint (ep_port_num r) (ep_valid r) (ep_anonymous r) (ep_open r)
    (ep_connected r) (ep_num_attributes r) (ep_recv_queue r).

(** [at_type] is the only member of the union [attribute_d]. *)
Record attribute_entry := mk_attribute {
  at_valid : bool;
  at_attribute_num : Z; (* uint16 *)
  at_bytes : Z; (* uint32 *)
  at_type : Z (* uint32 *) }.
#[export] Instance eta_attribute : Settable attribute_entry := λ r,
  mk_attribute (at_valid r) (at_attribute_num r) (at_bytes r) (at_type r).

(** A [node_entry] with its [node_descriptor]; the signal handlers are left
    out, and so are the attributes of an endpoint, which nothing uses. *)
Record node_entry := mk_mnode {
  ne_node_num : Z;
  ne_valid : bool;
  ne_pid : Z;
  ne_tid : Z;
  ne_attributes : list attribute_entry;
  num_endpoints : Z; (* uint16 *)
  endpoints : list endpoint_entry }.
#[export] Instance eta_mnode : Settable node_entry := λ r,
  mk_mnode (ne_node_num r) (ne_valid r) (ne_pid r) (ne_tid r)
    (ne_attributes r) (num_endpoints r) (endpoints r).

Record domain_entry := mk_mdomain {
  de_num_nodes : Z; (* uint16 *)
  de_domain_id : Z;
  de_valid : bool;
  de_nodes : list node_entry }.
#[export] Instance eta_mdomain : Settable domain_entry := λ r,
  mk_mdomain (de_num_nodes r) (de_domain_id r) (de_valid r) (de_nodes r).

Record mcapi_database := mk_mdb {
  m_domains : list domain_entry;
  m_buffers : list buffer_entry;
  m_requests : list mcapi_request_data;
  request_reserves_header : indexed_array_header;
  m_num_domains : Z }.
#[export] Instance eta_mdb : Settable mcapi_database := λ r,
  mk_mdb (m_domains r) (m_buffers r) (m_requests r) (request_reserves_header r)
    (m_num_domains r).

(** ** Zeroed memory *)

Definition zero_buffer : buffer_entry :=
  mk_buffer 0 0 0 (replicate MCAPI_MAX_MSG_SIZE 0).
Definition zero_mrequest : mcapi_request_data :=
  mk_mrequest false 0 OTHER 0 0 0 0 0 false false 0 0 0.
Definition zero_inode : indexed_array_node := mk_inode 0 0.
Definition zero_iheader : indexed_array_header :=
  mk_iheader (replicate MCAPI_MAX_REQUESTS zero_inode) 0 0 0 0.
Definition zero_desc : buffer_descriptor := mk_desc 0 0 false.
Definition zero_queue : queue :=
  mk_queue 0 0 MCAPI_NO_CHAN 0 0 0
    (replicate (S MCAPI_MAX_QUEUE_ENTRIES) zero_desc).
Definition zero_endpoint : endpoint_entry :=
  mk_endpoint 0 false false false false 0 zero_queue.
Definition zero_attribute : attribute_entry := mk_attribute false 0 0 0.
Definition zero_mnode : node_entry :=
  mk_mnode 0 false 0 0 (replicate MAX_NUM_ATTRIBUTES zero_attribute) 0
    (replicate MCAPI_MAX_ENDPOINTS zero_endpoint).
Definition zero_mdomain : domain_entry :=
  mk_mdomain 0 0 false (replicate MCA_MAX_NODES zero_mnode).
Definition zero_mdb : mcapi_database :=
  mk_mdb (replicate MCA_MAX_DOMAINS zero_mdomain)
    (replicate MCAPI_MAX_BUFFERS zero_buffer)
    (replicate MCAPI_MAX_REQUESTS zero_mrequest) zero_iheader 0.

(** ** The database and the memory of the calling process *)

Record world := mk_world { w_db : mcapi_database; w_mem : gmap Z Z }.
#[export] Instance eta_world : Settable world := λ r, mk_world (w_db r) (w_mem r).

Definition get_mdb : M world mcapi_database := gets w_db.
Definition modify_mdb (f : mcapi_database → mcapi_database) : M world unit :=
  modify (λ w, w <| w_db ::= f |>).

(** [mcapi_db->domains[d].nodes[n].node_d.endpoints[e]] as an lvalue. *)
Definition endpoint_at (d n e : nat) (db : mcapi_database) : option endpoint_entry :=
  m_domains db !! d ≫= λ dm, de_nodes dm !! n ≫= λ nd, endpoints nd !! e.
Definition upd_mnode (d n : nat) (f : node_entry → node_entry)
    (db : mcapi_database) : mcapi_database :=
  db <| m_domains ::= alter (λ dm, dm <| de_nodes ::= alter f n |>) d |>.
Definition upd_endpoint (d n e : nat) (f : endpoint_entry → endpoint_entry)
    (db : mcapi_database) : mcapi_database :=
  upd_mnode d n (λ nd, nd <| endpoints ::= alter f e |>) db.
Definition get_endpoint (d n e : nat) : M world endpoint_entry :=
  let* db := get_mdb in from_option_oob (endpoint_at d n e db).
Definition modify_endpoint (d n e : nat) (f : endpoint_entry → endpoint_entry) :
    M world unit :=
  get_endpoint d n e;; modify_mdb (upd_endpoint d n e f).

(** [&mcapi_db->domains[d].nodes[n].node_d.endpoints[e].recv_queue] *)
Definition get_queue (d n e : nat) : M world queue :=
  let* ep := get_endpoint d n e in ret (ep_recv_queue ep).
Definition set_queue (d n e : nat) (q : queue) : M world unit :=
  modify_endpoint d n e (λ ep, ep <| ep_recv_queue := q |>).
Definition on_queue {A} (d n e : nat) (f : queue → result (A * queue)) : M world A :=
  let* q := get_queue d n e in
  let* (a, q) := lift (f q) in
  set_queue d n e q;; ret a.

(** [mcapi_db->requests[r]] and [mcapi_db->buffers[i]] *)
Definition get_mrequest (r : nat) : M world mcapi_request_data :=
  let* db := get_mdb in from_option_oob (m_requests db !! r).
Definition modify_mrequest (r : nat) (f : mcapi_request_data → mcapi_request_data) :
    M world unit :=
  get_mrequest r;; modify_mdb (λ db, db <| m_requests ::= alter f r |>).
Definition get_buffer (i : nat) : M world buffer_entry :=
  let* db := get_mdb in from_option_oob (m_buffers db !! i).
Definition modify_buffer (i : nat) (f : buffer_entry → buffer_entry) : M world unit :=
  get_buffer i;; modify_mdb (λ db, db <| m_buffers ::= alter f i |>).
