(* ===== verification/McapiQueue.v ===== *)
(** The receive queue of an endpoint: [transport_sm_queue.c], and the parts
    of [transport_sm_request.c] that work on the queue alone.

    The functions take the queue by pointer (or by value, when they only
    look) and run with the database locked; [qindex] is the index they
    return.  A queue is a ring of [MCAPI_MAX_QUEUE_ENTRIES] descriptors; an
    entry between head and tail holds a buffer or is a bubble left by a
    removal out of order, and entries without a buffer can be reserved by
    outstanding receives. *)

From S2P Require Import Prelude Bytes McapiTypes.

(** [(q->head + i) % (MCAPI_MAX_QUEUE_ENTRIES)] *)
Definition ring_index (start i : nat) : nat := ((start + i) mod MCAPI_MAX_QUEUE_ENTRIES)%nat.

(** [q->elements[i]], read and written *)
Definition get_element (q : queue) (i : nat) : result buffer_descriptor :=
  match q_elements q !! i with Some x => Done x | None => Fault OutOfBounds end.
Definition upd_element (i : nat) (f : buffer_descriptor → buffer_descriptor)
    (q : queue) : queue := q <| q_elements ::= alter f i |>.

(** The entry has no request, but a buffer. *)
Definition unclaimed (x : buffer_descriptor) : bool :=
  (bd_request x =? 0) && negb (bd_buff_index x =? 0).
(** The entry has no request and is not a bubble. *)
Definition reservable (x : buffer_descriptor) : bool :=
  (bd_request x =? 0) && negb (bd_invalid x).

(** The loops that walk from the head to the first entry with [p]:
    [(i, qindex)] on leaving by [break]. *)
Fixpoint walk (p : buffer_descriptor → bool) (q : queue) (k i : nat) :
    result (option nat) :=
  match k with
  | O => Done None
  | S k' =>
      let qindex := ring_index (q_head q) i in
      match get_element q qindex with
      | Fault f => Fault f
      | Done x => if p x then Done (Some qindex) else walk p q k' (S i)
      end
  end.

Definition mcapi_trans_push_queue (q : queue) : result (nat * queue) :=
  if (ring_index (q_tail q) 1 =? q_head q)%nat then
    (* push_queue called on full queue *) Fault AssertFailed
  else
    let q := q <| q_num_elements ::= λ k, u32 (k + 1) |> in
    let i := q_tail q in
    let q := q <| q_tail := ring_index (q_tail q) 1 |> in
    if (q_head q =? q_tail q)%nat then Fault AssertFailed else Done (i, q).

(** The loop of [mcapi_trans_compact_queue]; its [i--] undoes the [i++], so
    every iteration looks at the head. *)
Fixpoint compact_loop (fuel : nat) (q : queue) : result queue :=
  match fuel with
  | O => Fault OutOfFuel
  | S fuel' =>
      let qindex := ring_index (q_head q) 0 in
      if (qindex =? q_tail q)%nat then Done q
      else
        match get_element q qindex with
        | Fault f => Fault f
        | Done x =>
            if negb (bd_request x =? 0) || negb (bd_buff_index x =? 0) then Done q
            else (* advance the head pointer *)
              let q := upd_element qindex (λ x, x <| bd_invalid := false |>) q in
              compact_loop fuel' (q <| q_head := ring_index (q_head q) 1 |>)
        end
  end.

Definition mcapi_trans_compact_queue (q : queue) : result (unit * queue) :=
  match compact_loop (S MCAPI_MAX_QUEUE_ENTRIES) q with
  | Fault f => Fault f
  | Done q =>
      if (0 <? q_num_elements q) && (q_head q =? q_tail q)%nat
      then Fault AssertFailed else Done (tt, q)
  end.

Definition mcapi_trans_pop_queue (q : queue) : result (nat * queue) :=
  if (q_head q =? q_tail q)%nat then
    (* pop_queue called on empty queue *) Fault AssertFailed
  else
    match walk unclaimed q MCAPI_MAX_QUEUE_ENTRIES 0 with
    | Fault f => Fault f
    | Done None =>
        (* all of this endpoint's buffers already have requests *)
        Fault AssertFailed
    | Done (Some x) =>
        let q := q <| q_num_elements ::= λ k, u32 (k - 1) |> in
        (* if we are removing from the front of the queue, then move head *)
        let q :=
          if (x =? q_head q)%nat then q <| q_head := ring_index (q_head q) 1 |>
          else upd_element x (λ e, e <| bd_invalid := true |>) q in
        if (0 <? q_num_elements q) && (q_head q =? q_tail q)%nat
        then Fault AssertFailed
        else
          match mcapi_trans_compact_queue q with
          | Fault f => Fault f
          | Done (_, q) => Done (x, q)
          end
    end.

Definition mcapi_trans_empty_queue (q : queue) : result bool :=
  if (q_head q =? q_tail q)%nat then Done true
  else
    match walk unclaimed q MCAPI_MAX_QUEUE_ENTRIES 0 with
    | Fault f => Fault f
    | Done o => Done (match o with Some _ => false | None => true end)
    end.

Definition mcapi_trans_full_queue (q : queue) : bool :=
  (ring_index (q_tail q) 1 =? q_head q)%nat.

(** ** Reservations *)

(** In [setup_request_have_lock]: a non-blocking receive to an empty queue
    reserves the next entry.  Returns whether there was one. *)
Definition reserve_entry (request : Z) (q : queue) : result (bool * queue) :=
  match walk reservable q MCAPI_MAX_QUEUE_ENTRIES 0 with
  | Fault f => Fault f
  | Done (Some qindex) =>
      Done (true, upd_element qindex (λ x, x <| bd_request := request |>) q)
  | Done None => Done (false, q)
  end.

(** The loops that look for the entry a request has reserved, from index 0. *)
Definition find_request (request : Z) (q : queue) : result nat :=
  c_scan (λ x, bd_request x =? request) (q_elements q) MCAPI_MAX_QUEUE_ENTRIES 0.

(** In [check_receive_request_have_lock], after the data was copied: the
    entry becomes a bubble. *)
Definition remove_entry (i : nat) (q : queue) : result (unit * queue) :=
  let q := q <| q_num_elements ::= λ k, u32 (k - 1) |> in
  let q := upd_element i (λ x, x <| bd_invalid := true |>) q in
  mcapi_trans_compact_queue q.

(** In [cancel_receive_request_have_lock]: shift all pending reservations
    down.  [start] is the entry of the cancelled request, [last] the entry
    the next reservation moves to. *)
Fixpoint shift_loop (k i start last : nat) (q : queue) : result queue :=
  match k with
  | O => Done q
  | S k' =>
      let curr := ring_index i start in
      (* don't cross over the head or the tail *)
      if ((curr =? q_tail q) || (curr =? q_head q))%nat && negb (curr =? start)%nat
      then Done q
      else
        match get_element q curr with
        | Fault f => Fault f
        | Done x =>
            if negb (bd_request x =? 0) then
              let q := upd_element last (λ e, e <| bd_request := bd_request x |>) q in
              let q := upd_element curr (λ e, e <| bd_request := 0 |>) q in
              shift_loop k' (S i) start curr q
            else shift_loop k' (S i) start last q
        end
  end.

Definition cancel_entry (request : Z) (q : queue) : result (unit * queue) :=
  match find_request request q with
  | Fault f => Fault f
  | Done start =>
      (* we should have found the outstanding request *)
      if (start =? MCAPI_MAX_QUEUE_ENTRIES)%nat then Fault AssertFailed
      else
        let q := upd_element start (λ x, x <| bd_request := 0 |>) q in
        match shift_loop MCAPI_MAX_QUEUE_ENTRIES 0 start start q with
        | Fault f => Fault f
        | Done q => Done (tt, q)
        end
  end.

(** ** The queue's side of the transport operations

    What sending, receiving and completing a receive do to the queue of the
    receiving endpoint, when a buffer is free and the request entries are in
    order. *)

(** [mcapi_trans_send_have_lock]: the buffer's descriptor [b] goes to the
    tail entry.  [false]: the queue is full. *)
Definition queue_send (b : Z) (q : queue) : result (bool * queue) :=
  if mcapi_trans_full_queue q then
    match mcapi_trans_compact_queue q with
    | Fault f => Fault f
    | Done (_, q) => Done (false, q)
    end
  else
    match mcapi_trans_push_queue q with
    | Fault f => Fault f
    | Done (i, q) => Done (true, upd_element i (λ x, x <| bd_buff_index := b |>) q)
    end.

(** [mcapi_trans_recv_have_lock] and, when the queue is empty, the
    reservation of [setup_request_have_lock]. *)
Inductive receive := Received (b : Z) | Reserved | NoRoom.
Definition queue_recv (r : Z) (q : queue) : result (receive * queue) :=
  match mcapi_trans_empty_queue q with
  | Fault f => Fault f
  | Done true =>
      match reserve_entry r q with
      | Fault f => Fault f
      | Done (ok, q) => Done (if ok then Reserved else NoRoom, q)
      end
  | Done false =>
      match mcapi_trans_pop_queue q with
      | Fault f => Fault f
      | Done (i, q) =>
          match get_element q i with
          | Fault f => Fault f
          | Done x => Done (Received (bd_buff_index x),
                            upd_element i (λ x, x <| bd_buff_index := 0 |>) q)
          end
      end
  end.

(** [check_receive_request_have_lock]: the buffer that arrived in the entry
    the request [r] has reserved, if any. *)
Definition queue_check (r : Z) (q : queue) : result (option Z * queue) :=
  match find_request r q with
  | Fault f => Fault f
  | Done i =>
      if (i =? MCAPI_MAX_QUEUE_ENTRIES)%nat then Fault AssertFailed
      else
        match get_element q i with
        | Fault f => Fault f
        | Done x =>
            if bd_buff_index x =? 0 then Done (None, q)
            else
              let q := upd_element i (λ x, x <| bd_request := 0 |>) q in
              let q := upd_element i (λ x, x <| bd_buff_index := 0 |>) q in
              match remove_entry i q with
              | Fault f => Fault f
              | Done (_, q) => Done (Some (bd_buff_index x), q)
              end
        end
  end.
