(* ===== verification/McapiRequests.v ===== *)
(** The array of requests: the doubly linked lists of free and used entries
    in [transport_sm_request.c], and request handles. *)

From S2P Require Import Prelude Bytes McapiTypes.

(** [header->array[i]] with an [int] index, read and written. *)
Definition get_inode (i : Z) (h : indexed_array_header) : result indexed_array_node :=
  if (0 <=? i) && (i <? Z.of_nat (length (ia_array h)))
  then match ia_array h !! Z.to_nat i with Some x => Done x | None => Fault OutOfBounds end
  else Fault OutOfBounds.
Definition upd_inode (i : Z) (f : indexed_array_node → indexed_array_node)
    (h : indexed_array_header) : result indexed_array_header :=
  match get_inode i h with
  | Fault e => Fault e
  | Done _ => Done (h <| ia_array ::= alter f (Z.to_nat i) |>)
  end.

(** The statements below run on the header as state. *)
Definition inode (i : Z) : M indexed_array_header indexed_array_node := λ h,
  match get_inode i h with Done x => Done (x, h) | Fault e => Fault e end.
Definition set_inode (i : Z) (f : indexed_array_node → indexed_array_node) :
    M indexed_array_header unit := λ h,
  match upd_inode i f h with Done h => Done (tt, h) | Fault e => Fault e end.

Definition mcapi_trans_remove_request_have_lock (r : Z) : M indexed_array_header bool :=
  let* header := get in
  if full_head_index header =? -1 then ret false
  else
    (* if r is head of the full list, its next link becomes the new head *)
    (if full_head_index header =? r then
       let* x := inode (full_head_index header) in
       modify (λ h, h <| full_head_index := next_index x |>)
     else ret tt);;
    (* unlink r from full list, linking its neighbors together *)
    let* x := inode r in
    (if negb (next_index x =? -1) then
       set_inode (next_index x) (λ y, y <| prev_index := prev_index x |>)
     else ret tt);;
    let* x := inode r in
    (if negb (prev_index x =? -1) then
       set_inode (prev_index x) (λ y, y <| next_index := next_index x |>)
     else ret tt);;
    (* link r as new head of available list *)
    let* header := get in
    let temp_empty_head_index := empty_head_index header in
    modify (λ h, h <| empty_head_index := r |>);;
    set_inode r (λ y, y <| next_index := temp_empty_head_index |>);;
    set_inode r (λ y, y <| prev_index := -1 |>);;
    (if negb (temp_empty_head_index =? -1) then
       set_inode temp_empty_head_index (λ y, y <| prev_index := r |>)
     else ret tt);;
    modify (λ h, h <| curr_count ::= λ k, k - 1 |>);;
    ret true.

(** The part of [mcapi_trans_reserve_request_have_lock] on the lists: the
    entry taken, if any. *)
Definition reserve_index : M indexed_array_header (option Z) :=
  let* header := get in
  if empty_head_index header =? -1 then ret None
  else
    let r := empty_head_index header in
    let temp_full_head_index := full_head_index header in
    modify (λ h, h <| full_head_index := empty_head_index h |>);;
    let* x := inode r in
    modify (λ h, h <| empty_head_index := next_index x |>);;
    let* header := get in
    set_inode (empty_head_index header) (λ y, y <| prev_index := -1 |>);;
    set_inode (full_head_index header) (λ y, y <| next_index := temp_full_head_index |>);;
    set_inode (full_head_index header) (λ y, y <| prev_index := -1 |>);;
    (if negb (temp_full_head_index =? -1) then
       set_inode temp_full_head_index (λ y, y <| prev_index := full_head_index header |>)
     else ret tt);;
    modify (λ h, h <| curr_count ::= λ k, k + 1 |>);;
    ret (Some r).

(** [mcapi_db->request_reserves_header] as the state of a computation. *)
Definition on_header {A} (m : M indexed_array_header A) : M world A :=
  let* db := get_mdb in
  let* (a, h) := lift (m (request_reserves_header db)) in
  modify_mdb (λ db, db <| request_reserves_header := h |>);; ret a.

(** Returns [*r], when the function returns [MCAPI_TRUE].  The entry is
    marked valid before the lists change; both are one step here. *)
Definition mcapi_trans_reserve_request_have_lock : M world (option nat) :=
  let* o := on_header reserve_index in
  match o with
  | None => ret None
  | Some r =>
      modify_mrequest (Z.to_nat r) (λ x, x <| rq_valid := true |>);;
      ret (Some (Z.to_nat r))
  end.

(** The array after the loop and the two assignments that follow it. *)
Definition init_array : list indexed_array_node :=
  <[0%nat := mk_inode 1 (-1)]>
    (<[(MCAPI_MAX_REQUESTS - 1)%nat := mk_inode (-1) (Z.of_nat MCAPI_MAX_REQUESTS - 2)]>
      ((λ i, mk_inode (Z.of_nat i + 1) (Z.of_nat i - 1)) <$> seq 0 MCAPI_MAX_REQUESTS)).
Definition mcapi_trans_init_indexed_array_have_lock : M indexed_array_header unit :=
  modify (λ h, h <| curr_count := 0 |> <| max_count := Z.of_nat MCAPI_MAX_REQUESTS |>
    <| empty_head_index := 0 |> <| full_head_index := -1 |> <| ia_array := init_array |>).

(** ** Request handles *)

(** [*request = 0x80000000 | r;] in [setup_request_have_lock] *)
Definition encode_request_handle (r : nat) : Z := Z.lor 0x80000000 (Z.of_nat r).

(** The index, or [None] for [MCAPI_FALSE]. *)
Definition mcapi_trans_decode_request_handle (request : Z) : option nat :=
  let r := u16 request in
  if (r <? Z.of_nat MCAPI_MAX_REQUESTS) && negb (Z.land request 0x80000000 =? 0)
  then Some (Z.to_nat r) else None.
