(* ===== verification/McapiTransport.v ===== *)
(** The shared-memory transport: endpoint handles, sending to and receiving
    from an endpoint ([transport_sm.c]), and the requests of the non-blocking
    operations ([transport_sm_request.c]).

    Everything here runs with the database locked.  A [void** buffer]
    parameter is modelled by the value of [*buffer] on entry and, where the
    code assigns it, its new value. *)

From S2P Require Import Prelude Bytes McapiTypes McapiQueue McapiRequests.

(** ** Endpoint handles *)

Definition mcapi_trans_encode_handle (domain_index node_index endpoint_index : nat) :
    result Z :=
  if (domain_index <? MCA_MAX_DOMAINS)%nat && (node_index <? MCA_MAX_NODES)%nat
     && (endpoint_index <? MCAPI_MAX_ENDPOINTS)%nat
  then
    let handle := Z.of_nat domain_index in
    let handle := Z.lor (u32 (Z.shiftl handle 8)) (Z.of_nat node_index) in
    Done (Z.lor (u32 (Z.shiftl handle 8)) (Z.of_nat endpoint_index))
  else Fault AssertFailed.

(** The three indices, and whether they are in range. *)
Definition mcapi_trans_decode_handle (handle : Z) : nat * nat * nat * bool :=
  let domain_index := Z.to_nat (Z.shiftr (Z.land handle 0x00ff0000) 16) in
  let node_index := Z.to_nat (Z.shiftr (Z.land handle 0x0000ff00) 8) in
  let endpoint_index := Z.to_nat (Z.land handle 0x000000ff) in
  (domain_index, node_index, endpoint_index,
   (domain_index <? MCA_MAX_DOMAINS)%nat && (node_index <? MCA_MAX_NODES)%nat
   && (endpoint_index <? MCAPI_MAX_ENDPOINTS)%nat).

(** [mcapi_assert(mcapi_trans_decode_handle(handle,&d,&n,&e));] *)
Definition decode_endpoint (handle : Z) : M world (nat * nat * nat) :=
  let '(d, n, e, ok) := mcapi_trans_decode_handle handle in
  c_assert ok;; ret (d, n, e).

(** ** User memory *)

Definition load (k : nat) (a : Z) : M world (list Z) :=
  let* w := get in lift (load_bytes k a (w_mem w)).
Definition store (l : list Z) (a : Z) : M world unit :=
  let* w := get in
  let* m := lift (store_bytes l a (w_mem w)) in
  modify (λ w, w <| w_mem := m |>).

(** ** Send *)

Definition buffer_free (b : buffer_entry) : bool := b_magic_num b =? 0.

(** Returns [MCAPI_FALSE] when the receive queue is full or no buffer is
    free. *)
Definition mcapi_trans_send_have_lock (rd rn re : nat) (buffer buffer_size scalar : Z) :
    M world bool :=
  let* q := get_queue rd rn re in
  if mcapi_trans_full_queue q then
    (* try to compact the queue *)
    on_queue rd rn re mcapi_trans_compact_queue;; ret false
  else
    let* db := get_mdb in
    let* i := lift (c_scan buffer_free (m_buffers db) MCAPI_MAX_BUFFERS 0) in
    if (i =? MCAPI_MAX_BUFFERS)%nat then (* no more buffers *) ret false
    else
      modify_buffer i (λ b, b <| b_magic_num := MAGIC_NUM |>);;
      (* find the next index in the circular queue *)
      let* qindex := on_queue rd rn re mcapi_trans_push_queue in
      let* q := get_queue rd rn re in
      (if decide (q_channel_type q = MCAPI_SCL_CHAN) then
         modify_buffer i (λ b, b <| b_scalar := scalar |>)
       else
         let* bytes := load (Z.to_nat buffer_size) buffer in
         let* b := get_buffer i in
         if (length bytes <=? length (b_buff b))%nat
         then modify_buffer i (λ b, b <| b_buff ::= λ l, bytes ++ drop (length bytes) l |>)
         else raise OutOfBounds);;
      modify_buffer i (λ b, b <| b_size := buffer_size |>);;
      on_queue rd rn re (λ q, Done (tt, upd_element qindex (λ x,
        x <| bd_buff_index := i32 (Z.lor (Z.of_nat i) MCAPI_VALID_MASK) |>) q));;
      ret true.

(** ** Receive *)

(** The index of a buffer in a queue entry. *)
Definition buffer_index (x : buffer_descriptor) : Z :=
  i32 (Z.land (u32 (bd_buff_index x)) 0x7fffffff).

(** [buff_addr i] is the address of [buffers[i].buff] in the calling
    process.  Returns [*received_size], the new value of [*buffer] and the
    scalar stored to [*scalar]; a scalar without a place to store it is a
    [NULL] dereference. *)
Definition mcapi_trans_recv_have_lock_ (buff_addr : nat → Z) (rd rn re : nat)
    (buffer buffer_size : Z) (qindex : nat) (has_scalar : bool) :
    M world (Z * Z * option Z) :=
  let* q := get_queue rd rn re in
  let* x := lift (get_element q qindex) in
  let index := buffer_index x in
  c_assert (0 <=? index);;
  let i := Z.to_nat index in
  let* b := get_buffer i in
  let size := if buffer_size <? b_size b then buffer_size else b_size b in
  let* res :=
    if decide (q_channel_type q = MCAPI_PKT_CHAN) then
      (* mcapi supplied buffer (pkt receive), so just update the pointer *)
      ret (b_size b, buff_addr i, None)
    else
      let* scalar :=
        if decide (q_channel_type q = MCAPI_SCL_CHAN) then
          if has_scalar then ret (Some (b_scalar b)) else raise OutOfBounds
        else
          (if size <=? Z.of_nat (length (b_buff b)) then ret tt else raise OutOfBounds);;
          store (take (Z.to_nat size) (b_buff b)) buffer;; ret None in
      (* free the mcapi buffer *)
      modify_buffer i (λ _, zero_buffer);;
      ret (b_size b, buffer, scalar) in
  (* clear the buffer pointer in the receive queue entry *)
  on_queue rd rn re (λ q, Done (tt,
    upd_element qindex (λ x, x <| bd_buff_index := 0 |>) q));;
  ret res.

(** The non-blocking use: [None] when the queue is empty. *)
Definition mcapi_trans_recv_have_lock (buff_addr : nat → Z) (rd rn re : nat)
    (buffer buffer_size : Z) (has_scalar : bool) : M world (option (Z * Z * option Z)) :=
  let* q := get_queue rd rn re in
  let* empty := lift (mcapi_trans_empty_queue q) in
  if (empty : bool) then ret None
  else
    let* qindex := on_queue rd rn re mcapi_trans_pop_queue in
    let* res := mcapi_trans_recv_have_lock_ buff_addr rd rn re buffer buffer_size
                  qindex has_scalar in
    ret (Some res).

(** ** Channels *)

Definition mcapi_trans_open_channel_have_lock (d n e : nat) : M world unit :=
  modify_endpoint d n e (λ ep, ep <| ep_open := true |>).
Definition mcapi_trans_close_channel_have_lock (d n e : nat) : M world unit :=
  modify_endpoint d n e (λ ep, ep <| ep_open := false |>).

Definition mcapi_trans_connect_channel_have_lock (send_endpoint receive_endpoint : Z)
    (type : channel_type) : M world unit :=
  let* (sd, sn, se) := decode_endpoint send_endpoint in
  let* (rd, rn, re) := decode_endpoint receive_endpoint in
  let connect ep := ep <| ep_connected := true |> <| ep_recv_queue ::= λ q,
    q <| q_recv_endpt := receive_endpoint |> <| q_send_endpt := send_endpoint |>
      <| q_channel_type := type |> |> in
  modify_endpoint sd sn se connect;;
  modify_endpoint rd rn re connect.

(** ** Endpoints *)

(** The loops of [mcapi_trans_endpoint_get_have_lock], innermost first: over
    the first [num_endpoints] endpoints of a node, over the nodes and over the
    domains. *)
Definition find_endpoint (port_num : Z) (nd : node_entry) : result (option nat) :=
  let k := Z.to_nat (num_endpoints nd) in
  match c_scan (λ ep, ep_valid ep && (ep_port_num ep =? port_num)) (endpoints nd) k 0 with
  | Fault f => Fault f
  | Done e => Done (if (e <? k)%nat then Some e else None)
  end.
Fixpoint find_in_nodes (node_num port_num : Z) (nodes : list node_entry) (k n : nat) :
    result (option (nat * nat)) :=
  match k with
  | O => Done None
  | S k' =>
      match nodes !! n with
      | None => Fault OutOfBounds
      | Some nd =>
          if ne_valid nd && (ne_node_num nd =? node_num) then
            match find_endpoint port_num nd with
            | Fault f => Fault f
            | Done (Some e) => Done (Some (n, e))
            | Done None => find_in_nodes node_num port_num nodes k' (S n)
            end
          else find_in_nodes node_num port_num nodes k' (S n)
      end
  end.
Fixpoint find_in_domains (domain_id node_num port_num : Z) (domains : list domain_entry)
    (k d : nat) : result (option (nat * nat * nat)) :=
  match k with
  | O => Done None
  | S k' =>
      match domains !! d with
      | None => Fault OutOfBounds
      | Some dm =>
          if de_valid dm && (de_domain_id dm =? domain_id) then
            match find_in_nodes node_num port_num (de_nodes dm) MCA_MAX_NODES 0 with
            | Fault f => Fault f
            | Done (Some (n, e)) => Done (Some (d, n, e))
            | Done None => find_in_domains domain_id node_num port_num domains k' (S d)
            end
          else find_in_domains domain_id node_num port_num domains k' (S d)
      end
  end.

(** The handle, when the endpoint exists. *)
Definition mcapi_trans_endpoint_get_have_lock (domain_id node_num port_num : Z) :
    M world (option Z) :=
  let* db := get_mdb in
  let* found := lift (find_in_domains domain_id node_num port_num (m_domains db)
                        MCA_MAX_DOMAINS 0) in
  match found with
  | Some (d, n, e) => let* h := lift (mcapi_trans_encode_handle d n e) in ret (Some h)
  | None => ret None
  end.

(** ** Setting up a request *)

(** [handle_ptr] is the pointer [handle] itself, which a get-endpoint request
    keeps; [buffer] is [None] for [NULL], else the pointer and [*buffer].
    Returns [*request]. *)
Definition setup_request_have_lock (handle handle_ptr mcapi_status : Z)
    (completed : bool) (size : Z) (buffer : option (Z * Z))
    (type : mcapi_request_type) (node_num port_num domain_num : Z) (r : nat) :
    M world Z :=
  modify_mrequest r (λ x, x <| rq_status := mcapi_status |> <| rq_size := size |>
    <| rq_cancelled := false |> <| rq_completed := completed |>);;
  let request := encode_request_handle r in
  match buffer with
  | Some (ptr, buf) =>
      if completed then ret tt
      else
        let* (d, n, e) := decode_endpoint handle in
        let* q := get_queue d n e in
        if decide (q_channel_type q = MCAPI_PKT_CHAN)
        then modify_mrequest r (λ x, x <| rq_buffer_ptr := ptr |>)
        else modify_mrequest r (λ x, x <| rq_buffer := buf |>)
  | None => ret tt
  end;;
  modify_mrequest r (λ x, x <| rq_type := type |> <| rq_handle := handle |>);;
  (if decide (type = GET_ENDPT) then
     modify_mrequest r (λ x, x <| rq_ep_endpoint := handle_ptr |>
       <| rq_ep_node_num := node_num |> <| rq_ep_port_num := port_num |>
       <| rq_ep_domain_num := domain_num |>)
   else ret tt);;
  (* a non-blocking receive to an empty queue reserves the next buffer *)
  (if bool_decide (type = RECV) && negb completed then
     let* (d, n, e) := decode_endpoint handle in
     let* reserved := on_queue d n e (reserve_entry request) in
     if (reserved : bool) then ret tt
     else modify_mrequest r (λ x, x <| rq_status := MCAPI_ERR_MEM_LIMIT |>
            <| rq_completed := true |>)
   else ret tt);;
  ret request.

(** ** Completing and cancelling requests *)

(** [mcapi_assert(mcapi_trans_decode_request_handle(request,&r));] *)
Definition decode_request (request : Z) : M world nat :=
  match mcapi_trans_decode_request_handle request with
  | Some r => ret r
  | None => raise AssertFailed
  end.

Definition check_open_channel_request_have_lock (request : Z) : M world unit :=
  match mcapi_trans_decode_request_handle request with
  | None => ret tt
  | Some r =>
      let* x := get_mrequest r in
      let* (d, n, e) := decode_endpoint (rq_handle x) in
      let* ep := get_endpoint d n e in
      if ep_connected ep then modify_mrequest r (λ x, x <| rq_completed := true |>)
      else ret tt
  end.

Definition check_close_channel_request_have_lock (request : Z) : M world unit :=
  match mcapi_trans_decode_request_handle request with
  | None => ret tt
  | Some r =>
      let* x := get_mrequest r in
      let* (d, n, e) := decode_endpoint (rq_handle x) in
      let* ep := get_endpoint d n e in
      if negb (ep_open ep) then modify_mrequest r (λ x, x <| rq_completed := true |>)
      else ret tt
  end.

Definition check_get_endpt_request_have_lock (request : Z) : M world unit :=
  let* r := decode_request request in
  let* x := get_mrequest r in
  let* o := mcapi_trans_endpoint_get_have_lock (rq_ep_domain_num x)
              (rq_ep_node_num x) (rq_ep_port_num x) in
  match o with
  | Some h =>
      store (le_bytes 4 h) (rq_ep_endpoint x);;
      modify_mrequest r (λ x, x <| rq_completed := true |> <| rq_status := MCAPI_SUCCESS |>)
  | None => ret tt
  end.

Definition cancel_receive_request_have_lock (request : Z) : M world unit :=
  let* r := decode_request request in
  let* x := get_mrequest r in
  let* (rd, rn, re) := decode_endpoint (rq_handle x) in
  on_queue rd rn re (cancel_entry request);;
  modify_mrequest r (λ x, x <| rq_cancelled := true |>).

Definition check_receive_request_have_lock (buff_addr : nat → Z) (request : Z) :
    M world unit :=
  let* r := decode_request request in
  let* x := get_mrequest r in
  let* (rd, rn, re) := decode_endpoint (rq_handle x) in
  let* q := get_queue rd rn re in
  let* i := lift (find_request request q) in
  (* we should have found the outstanding request *)
  if (i =? MCAPI_MAX_QUEUE_ENTRIES)%nat then raise AssertFailed
  else
    let* el := lift (get_element q i) in
    if bd_buff_index el =? 0 then ret tt
    else
      (* clear the request reservation *)
      on_queue rd rn re (λ q, Done (tt, upd_element i (λ e, e <| bd_request := 0 |>) q));;
      modify_mrequest r (λ x, x <| rq_completed := true |> <| rq_status := MCAPI_SUCCESS |>);;
      (if decide (q_channel_type q = MCAPI_PKT_CHAN) then
         let* (received, buf, _) := mcapi_trans_recv_have_lock_ buff_addr rd rn re 0
                                      (rq_size x) i false in
         store (le_bytes 8 buf) (rq_buffer_ptr x);;
         modify_mrequest r (λ x, x <| rq_size := received |>)
       else
         let size := rq_size x in
         let* (received, buf, _) := mcapi_trans_recv_have_lock_ buff_addr rd rn re
                                      (rq_buffer x) (rq_size x) i false in
         modify_mrequest r (λ x, x <| rq_buffer := buf |> <| rq_size := received |>);;
         if size <? received then
           modify_mrequest r (λ x, x <| rq_size := size |>
             <| rq_status := MCAPI_ERR_MSG_TRUNCATED |>)
         else ret tt);;
      (* mark this entry as invalid so that the bubble won't be re-used *)
      on_queue rd rn re (remove_entry i).
