(* ===== verification/McapiMessages.v ===== *)
(** Messages ([transport_sm_msg.c]), test, wait and cancel
    ([transport_sm_wait.c]) and endpoints ([transport_sm_endpoint.c]).

    Each function runs between [mcapi_trans_access_database_pre] and
    [..._post], so it is one atomic step; the waiting loops release the
    database, and [between k] stands for what other nodes do at the [k]-th
    yield.  Values passed by pointer are passed in and returned. *)

From S2P Require Import Prelude Bytes McapiTypes McapiQueue McapiRequests McapiTransport.

(** ** Messages *)

(** [mcapi_assert (...recv_queue.channel_type == MCAPI_NO_CHAN);] *)
Definition assert_no_chan (d n e : nat) : M world unit :=
  let* q := get_queue d n e in
  c_assert (bool_decide (q_channel_type q = MCAPI_NO_CHAN)).

(** Returns [*request] and [*mcapi_status]. *)
Definition mcapi_trans_msg_send_i (send_endpoint receive_endpoint buffer buffer_size
    request mcapi_status : Z) : M world (Z * Z) :=
  let completed := negb (mcapi_status =? MCAPI_SUCCESS) in
  (* make sure we have an available request entry *)
  let* o := mcapi_trans_reserve_request_have_lock in
  match o with
  | None => ret (request, MCAPI_ERR_REQUEST_LIMIT)
  | Some r =>
      let* mcapi_status :=
        if completed then ret mcapi_status
        else
          (* sends complete immediately *)
          let* (sd, sn, se) := decode_endpoint send_endpoint in
          let* (rd, rn, re) := decode_endpoint receive_endpoint in
          assert_no_chan sd sn se;;
          assert_no_chan rd rn re;;
          let* sent := mcapi_trans_send_have_lock rd rn re buffer buffer_size 0 in
          (* assume couldn't get a buffer *)
          ret (if (sent : bool) then mcapi_status else MCAPI_ERR_MEM_LIMIT) in
      let* request := setup_request_have_lock receive_endpoint 0 mcapi_status true
                        buffer_size None SEND 0 0 0 r in
      ret (request, MCAPI_SUCCESS)
  end.

(** Returns [*request] and [*mcapi_status]. *)
Definition mcapi_trans_msg_recv_i (buff_addr : nat → Z) (receive_endpoint buffer
    buffer_size request mcapi_status : Z) : M world (Z * Z) :=
  let completed := negb (mcapi_status =? MCAPI_SUCCESS) in
  (* make sure we have a request entry *)
  let* o := mcapi_trans_reserve_request_have_lock in
  match o with
  | None => ret (request, MCAPI_ERR_REQUEST_LIMIT)
  | Some r =>
      let* (completed, buffer_size) :=
        if completed then ret (true, buffer_size)
        else
          let* (rd, rn, re) := decode_endpoint receive_endpoint in
          assert_no_chan rd rn re;;
          let* o := mcapi_trans_recv_have_lock buff_addr rd rn re buffer buffer_size
                      false in
          ret (match o with
               | Some (received_size, _, _) => (true, received_size)
               | None => (false, buffer_size)
               end) in
      let* request := setup_request_have_lock receive_endpoint 0 mcapi_status completed
                        buffer_size (Some (0, buffer)) RECV 0 0 0 r in
      ret (request, mcapi_status)
  end.

Definition mcapi_trans_msg_available (receive_endpoint : Z) : M world Z :=
  let* (rd, rn, re) := decode_endpoint receive_endpoint in
  let* q := get_queue rd rn re in
  ret (u32 (i32 (q_num_elements q))).

(** ** Test, wait and cancel *)

(** Returns [(rc, *request, *size, *mcapi_status)]. *)
Definition mcapi_trans_test_i (buff_addr : nat → Z) (request size mcapi_status : Z) :
    M world (bool * Z * Z * Z) :=
  match mcapi_trans_decode_request_handle request with
  | None => ret (true, request, size, MCAPI_ERR_REQUEST_INVALID)
  | Some r =>
      let* x := get_mrequest r in
      if negb (rq_valid x) then ret (true, request, size, MCAPI_ERR_REQUEST_INVALID)
      else if rq_cancelled x then ret (true, request, size, MCAPI_ERR_REQUEST_CANCELLED)
      else
        (if rq_completed x then ret tt
         else match rq_type x with
              | SEND | CONN_PKTCHAN | CONN_SCLCHAN => ret tt
              | RECV => check_receive_request_have_lock buff_addr request
              | GET_ENDPT => check_get_endpt_request_have_lock request
              | OPEN_PKTCHAN | OPEN_SCLCHAN => check_open_channel_request_have_lock request
              | CLOSE_PKTCHAN | CLOSE_SCLCHAN =>
                  check_close_channel_request_have_lock request
              | OTHER => raise AssertFailed
              end);;
        (* query completed again because we may have just completed it *)
        let* x := get_mrequest r in
        if rq_completed x then
          on_header (mcapi_trans_remove_request_have_lock (Z.of_nat r));;
          modify_mrequest r (λ _, zero_mrequest);;
          ret (true, 0, rq_size x, rq_status x)
        else ret (false, request, size, mcapi_status)
  end.

(** Returns [(rc, *request, *size, *mcapi_status)]. *)
Fixpoint mcapi_wait_loop (buff_addr : nat → Z) (between : nat → world → world)
    (fuel k : nat) (request size mcapi_status timeout time : Z) :
    M world (bool * Z * Z * Z) :=
  match fuel with
  | O => raise OutOfFuel
  | S fuel' =>
      let time := u32 (time + 1) in
      let* (rc, request, size, mcapi_status) :=
        mcapi_trans_test_i buff_addr request size mcapi_status in
      if (rc : bool) then ret (true, request, size, mcapi_status)
      else
        modify (between k);;
        if negb (timeout =? MCA_INFINITE) && (timeout <=? time)
        then ret (false, request, size, MCAPI_TIMEOUT)
        else mcapi_wait_loop buff_addr between fuel' (S k) request size mcapi_status
               timeout time
  end.
#[global] Arguments mcapi_wait_loop : simpl never.

Definition mcapi_trans_wait (buff_addr : nat → Z) (between : nat → world → world)
    (fuel : nat) (request size mcapi_status timeout : Z) : M world (bool * Z * Z * Z) :=
  decode_request request;;
  mcapi_wait_loop buff_addr between fuel 0 request size mcapi_status timeout 0.

(** Returns [*mcapi_status]; the request itself is left as it is. *)
Definition mcapi_trans_cancel (request mcapi_status : Z) : M world Z :=
  let* r := decode_request request in
  let* x := get_mrequest r in
  if negb (rq_valid x) then ret MCAPI_ERR_REQUEST_INVALID
  else if rq_cancelled x then ret MCAPI_ERR_REQUEST_CANCELLED
  else if negb (rq_completed x) then
    (* cancel the request *)
    modify_mrequest r (λ x, x <| rq_cancelled := true |>);;
    match rq_type x with
    | RECV => cancel_receive_request_have_lock request
    | GET_ENDPT => ret tt
    | _ => raise AssertFailed
    end;;
    (* clear the request so that it can be re-used *)
    modify_mrequest r (λ _, zero_mrequest);;
    ret MCAPI_SUCCESS
  else (* it's too late, the request has already completed *) ret mcapi_status.

(** ** Blocking messages: non-blocking followed by wait *)

(** [do { ..._i (...) } while (status == MCAPI_ERR_REQUEST_LIMIT);] *)
Fixpoint until_request (between : nat → world → world) (op : Z → Z → M world (Z * Z))
    (fuel k : nat) (request status : Z) : M world (Z * Z) :=
  match fuel with
  | O => raise OutOfFuel
  | S fuel' =>
      let* (request, status) := op request status in
      if status =? MCAPI_ERR_REQUEST_LIMIT then
        modify (between k);; until_request between op fuel' (S k) request status
      else ret (request, status)
  end.

Definition mcapi_trans_msg_send (buff_addr : nat → Z) (between : nat → world → world)
    (fuel : nat) (send_endpoint receive_endpoint buffer buffer_size request : Z) :
    M world bool :=
  let* (request, status) :=
    until_request between
      (mcapi_trans_msg_send_i send_endpoint receive_endpoint buffer buffer_size)
      fuel 0 request MCAPI_SUCCESS in
  let* (_, _, _, status) :=
    mcapi_trans_wait buff_addr between fuel request 0 status MCA_INFINITE in
  ret (status =? MCAPI_SUCCESS).

(** Returns [(rc, *received_size)]. *)
Definition mcapi_trans_msg_recv (buff_addr : nat → Z) (between : nat → world → world)
    (fuel : nat) (receive_endpoint buffer buffer_size received_size request : Z) :
    M world (bool * Z) :=
  let* (request, status) :=
    until_request between
      (mcapi_trans_msg_recv_i buff_addr receive_endpoint buffer buffer_size)
      fuel 0 request MCAPI_SUCCESS in
  let* (_, _, received_size, status) :=
    mcapi_trans_wait buff_addr between fuel request received_size status MCA_INFINITE in
  ret (status =? MCAPI_SUCCESS, received_size).

(** ** Endpoints *)

(** [d] and [n] are the caller's indices.  Returns the handle, when the
    function returns [MCAPI_TRUE]. *)
Definition mcapi_trans_endpoint_create (d n : nat) (port_num : Z) (anonymous : bool) :
    M world (option Z) :=
  let* db := get_mdb in
  let* nd := from_option_oob (m_domains db !! d ≫= λ dm, de_nodes dm !! n) in
  (* make sure there's room - mcapi should have already checked this *)
  c_assert (num_endpoints nd <? Z.of_nat MCAPI_MAX_ENDPOINTS);;
  (* find the first available endpoint index *)
  let* e := lift (c_scan (λ ep, negb (ep_valid ep)) (endpoints nd) MCAPI_MAX_ENDPOINTS 0) in
  if (e <? MCAPI_MAX_ENDPOINTS)%nat then
    modify_endpoint d n e (λ ep, ep <| ep_valid := true |> <| ep_port_num := port_num |>
      <| ep_open := false |> <| ep_anonymous := anonymous |> <| ep_num_attributes := 0 |>);;
    modify_mdb (upd_mnode d n (λ nd, nd <| num_endpoints ::= λ k, u16 (k + 1) |>));;
    let* h := lift (mcapi_trans_encode_handle d n e) in
    ret (Some h)
  else ret None.

Definition mcapi_trans_endpoint_delete (endpoint : Z) : M world unit :=
  let* (d, n, e) := decode_endpoint endpoint in
  get_endpoint d n e;;
  modify_mdb (upd_mnode d n (λ nd, nd <| num_endpoints ::= λ k, u16 (k - 1) |>));;
  (* zero out the old endpoint entry in the shared memory database *)
  modify_endpoint d n e (λ _, zero_endpoint).

(** Returns [*endpoint] and [*request]; without a free request the code reports
    nothing. *)
Definition mcapi_trans_endpoint_get_i (endpoint endpoint_ptr domain_id node_num port_num
    request mcapi_status : Z) : M world (Z * Z) :=
  let valid := mcapi_status =? MCAPI_SUCCESS in
  let* o := mcapi_trans_reserve_request_have_lock in
  match o with
  | None => ret (endpoint, request)
  | Some r =>
      let* o := if valid then mcapi_trans_endpoint_get_have_lock domain_id node_num port_num
                else ret None in
      let endpoint := default endpoint o in
      let* request := setup_request_have_lock endpoint endpoint_ptr mcapi_status
                        (bool_decide (is_Some o)) 0 None GET_ENDPT node_num port_num
                        domain_id r in
      ret (endpoint, request)
  end.

(** The blocking version: yields until the endpoint exists. *)
Fixpoint mcapi_trans_endpoint_get (between : nat → world → world) (fuel k : nat)
    (domain_id node_num port_num : Z) : M world Z :=
  match fuel with
  | O => raise OutOfFuel
  | S fuel' =>
      let* o := mcapi_trans_endpoint_get_have_lock domain_id node_num port_num in
      match o with
      | Some h => ret h
      | None =>
          modify (between k);;
          mcapi_trans_endpoint_get between fuel' (S k) domain_id node_num port_num
      end
  end.
