(* ===== verification/McapiChannels.v ===== *)
(** Packet channels ([transport_sm_pktchan.c]) and scalar channels
    ([transport_sm_sclchan.c]).

    As for messages, each function is one atomic step, the values passed by
    pointer are passed in and returned, and a status other than
    [MCAPI_SUCCESS] on entry is an error the public function found, which the
    request then reports. *)

From S2P Require Import Prelude Bytes McapiTypes McapiQueue McapiRequests McapiTransport McapiMessages.

(** ** Connecting, opening and closing, for both types of channel

    The packet and the scalar functions differ in the type of the channel and
    of the request; [chan] and [type] are those. *)

(** Returns [*request] and [*mcapi_status]. *)
Definition channel_connect_i (chan : channel_type) (type : mcapi_request_type)
    (send_endpoint receive_endpoint request mcapi_status : Z) : M world (Z * Z) :=
  let completed := negb (mcapi_status =? MCAPI_SUCCESS) in
  (* make sure we have a request entry *)
  let* o := mcapi_trans_reserve_request_have_lock in
  match o with
  | None => ret (request, MCAPI_ERR_REQUEST_LIMIT)
  | Some r =>
      (if completed then ret tt
       else mcapi_trans_connect_channel_have_lock send_endpoint receive_endpoint chan);;
      let* request := setup_request_have_lock receive_endpoint 0 mcapi_status true 0 None
                        type 0 0 0 r in
      ret (request, mcapi_status)
  end.
Definition mcapi_trans_pktchan_connect_i := channel_connect_i MCAPI_PKT_CHAN CONN_PKTCHAN.
Definition mcapi_trans_sclchan_connect_i := channel_connect_i MCAPI_SCL_CHAN CONN_SCLCHAN.

(** The two sides open alike.  [handle] is the value of [*recv_handle] or
    [*send_handle] on entry; returns its new value, [*request] and
    [*mcapi_status]. *)
Definition channel_open_i (chan : channel_type) (type : mcapi_request_type)
    (handle endpoint request mcapi_status : Z) : M world (Z * Z * Z) :=
  let completed := negb (mcapi_status =? MCAPI_SUCCESS) in
  let* o := mcapi_trans_reserve_request_have_lock in
  match o with
  | None => ret (handle, request, MCAPI_ERR_REQUEST_LIMIT)
  | Some r =>
      let* (handle, completed) :=
        if completed then ret (handle, completed)
        else
          let* (d, n, e) := decode_endpoint endpoint in
          mcapi_trans_open_channel_have_lock d n e;;
          (* fill in the channel handle *)
          let* handle := lift (mcapi_trans_encode_handle d n e) in
          (* has the channel been connected yet? *)
          let* q := get_queue d n e in
          ret (handle, bool_decide (q_channel_type q = chan)) in
      let* request := setup_request_have_lock endpoint 0 mcapi_status completed 0 None
                        type 0 0 0 r in
      ret (handle, request, mcapi_status)
  end.
Definition mcapi_trans_pktchan_recv_open_i := channel_open_i MCAPI_PKT_CHAN OPEN_PKTCHAN.
Definition mcapi_trans_pktchan_send_open_i := channel_open_i MCAPI_PKT_CHAN OPEN_PKTCHAN.
Definition mcapi_trans_sclchan_recv_open_i := channel_open_i MCAPI_SCL_CHAN OPEN_SCLCHAN.
Definition mcapi_trans_sclchan_send_open_i := channel_open_i MCAPI_SCL_CHAN OPEN_SCLCHAN.

(** Returns [*request] and [*mcapi_status]. *)
Definition channel_close_i (type : mcapi_request_type) (handle request mcapi_status : Z) :
    M world (Z * Z) :=
  let completed := negb (mcapi_status =? MCAPI_SUCCESS) in
  let* o := mcapi_trans_reserve_request_have_lock in
  match o with
  | None => ret (request, MCAPI_ERR_REQUEST_LIMIT)
  | Some r =>
      (if completed then ret tt
       else
         let* (d, n, e) := decode_endpoint handle in
         mcapi_trans_close_channel_have_lock d n e);;
      let* request := setup_request_have_lock handle 0 mcapi_status true 0 None
                        type 0 0 0 r in
      ret (request, mcapi_status)
  end.
Definition mcapi_trans_pktchan_recv_close_i := channel_close_i CLOSE_PKTCHAN.
Definition mcapi_trans_pktchan_send_close_i := channel_close_i CLOSE_PKTCHAN.
Definition mcapi_trans_sclchan_recv_close_i := channel_close_i CLOSE_SCLCHAN.
Definition mcapi_trans_sclchan_send_close_i := channel_close_i CLOSE_SCLCHAN.

(** ** Packets *)

(** Returns [*request] and [*mcapi_status]. *)
Definition mcapi_trans_pktchan_send_i (send_handle buffer size request mcapi_status : Z) :
    M world (Z * Z) :=
  let completed := negb (mcapi_status =? MCAPI_SUCCESS) in
  let* o := mcapi_trans_reserve_request_have_lock in
  match o with
  | None => ret (request, MCAPI_ERR_REQUEST_LIMIT)
  | Some r =>
      let* mcapi_status :=
        if completed then ret mcapi_status
        else
          let* (sd, sn, se) := decode_endpoint send_handle in
          let* q := get_queue sd sn se in
          let* (rd, rn, re) := decode_endpoint (q_recv_endpt q) in
          let* sent := mcapi_trans_send_have_lock rd rn re buffer size 0 in
          ret (if (sent : bool) then mcapi_status else MCAPI_ERR_MEM_LIMIT) in
      let* request := setup_request_have_lock send_handle 0 mcapi_status true size None
                        SEND 0 0 0 r in
      (* the non-blocking request succeeded, when they call test/wait they
         will see the status of the send *)
      ret (request, MCAPI_SUCCESS)
  end.

Definition mcapi_trans_pktchan_send (buff_addr : nat → Z) (between : nat → world → world)
    (fuel : nat) (send_handle buffer size request : Z) : M world bool :=
  let* (request, status) :=
    until_request between (mcapi_trans_pktchan_send_i send_handle buffer size)
      fuel 0 request MCAPI_SUCCESS in
  let* (_, _, _, status) :=
    mcapi_trans_wait buff_addr between fuel request size status MCA_INFINITE in
  ret (status =? MCAPI_SUCCESS).

(** [buffer] is the address of the user's pointer, which lives in [w_mem];
    returns [*request] and [*mcapi_status]. *)
Definition mcapi_trans_pktchan_recv_i (buff_addr : nat → Z)
    (receive_handle buffer request mcapi_status : Z) : M world (Z * Z) :=
  let completed := negb (mcapi_status =? MCAPI_SUCCESS) in
  let size := Z.of_nat MCAPI_MAX_PKT_SIZE in
  let* o := mcapi_trans_reserve_request_have_lock in
  match o with
  | None => ret (request, MCAPI_ERR_REQUEST_LIMIT)
  | Some r =>
      let* (completed, size) :=
        if completed then ret (completed, size)
        else
          let* (rd, rn, re) := decode_endpoint receive_handle in
          (* *buffer will be filled in with a ptr to an mcapi buffer *)
          store (le_bytes 8 0) buffer;;
          let* o := mcapi_trans_recv_have_lock buff_addr rd rn re 0
                      (Z.of_nat MCAPI_MAX_PKT_SIZE) false in
          match o with
          | Some (received_size, buf, _) =>
              store (le_bytes 8 buf) buffer;; ret (true, received_size)
          | None => ret (false, size)
          end in
      let* request := setup_request_have_lock receive_handle 0 mcapi_status completed size
                        (Some (buffer, 0)) RECV 0 0 0 r in
      ret (request, mcapi_status)
  end.

(** Returns [(rc, *received_size)]. *)
Definition mcapi_trans_pktchan_recv (buff_addr : nat → Z) (between : nat → world → world)
    (fuel : nat) (receive_handle buffer received_size request : Z) : M world (bool * Z) :=
  let* (request, status) :=
    until_request between (mcapi_trans_pktchan_recv_i buff_addr receive_handle buffer)
      fuel 0 request MCAPI_SUCCESS in
  let* (_, _, received_size, status) :=
    mcapi_trans_wait buff_addr between fuel request received_size status MCA_INFINITE in
  ret (status =? MCAPI_SUCCESS, received_size).

(** Also [mcapi_trans_sclchan_available_i]: the same code. *)
Definition mcapi_trans_pktchan_available (receive_handle : Z) : M world Z :=
  let* (rd, rn, re) := decode_endpoint receive_handle in
  let* q := get_queue rd rn re in
  ret (u32 (i32 (q_num_elements q))).
Definition mcapi_trans_sclchan_available_i := mcapi_trans_pktchan_available.

(** The members of [buffer_entry] before [buff], with a 64-bit [size_t]: each is put
    at the next multiple of its size. *)
Definition sizeof_magic_num : Z := 4.
Definition sizeof_size : Z := 8.
Definition sizeof_scalar : Z := 8.
Definition put_member (offset size : Z) : Z := (offset + size - 1) / size * size + size.
Definition offsetof_buff : Z :=
  fold_left put_member [sizeof_magic_num; sizeof_size; sizeof_scalar] 0.
(** The address of the [i]-th entry, whose [buff] is at [buff_addr i]. *)
Definition entry_addr (buff_addr : nat → Z) (i : nat) : Z := buff_addr i - offsetof_buff.

(** The entry is found by pointer arithmetic on [buffer]; a pointer that is not to
    the [buff] of an entry makes the code read and clear whatever memory is there,
    which is a fault. *)
Definition mcapi_trans_pktchan_free (buff_addr : nat → Z) (buffer : Z) : M world bool :=
  let b_e := buffer - (sizeof_scalar + sizeof_size + sizeof_magic_num + 4) in
  let* i := lift (c_scan (λ i, entry_addr buff_addr i =? b_e) (seq 0 MCAPI_MAX_BUFFERS)
                    MCAPI_MAX_BUFFERS 0) in
  let* b_e := get_buffer i in
  if b_magic_num b_e =? MAGIC_NUM then
    modify_buffer i (λ _, zero_buffer);; ret true
  else (* didn't find the buffer *) ret false.

(** ** Scalars *)

Definition mcapi_trans_sclchan_send (send_handle dataword size : Z) : M world bool :=
  let* (sd, sn, se) := decode_endpoint send_handle in
  let* q := get_queue sd sn se in
  let* (rd, rn, re) := decode_endpoint (q_recv_endpt q) in
  mcapi_trans_send_have_lock rd rn re 0 size dataword.

(** [mcapi_trans_recv_have_lock] with [blocking]: yields while the queue is
    empty. *)
Fixpoint recv_blocking_have_lock (buff_addr : nat → Z) (between : nat → world → world)
    (fuel k : nat) (rd rn re : nat) (buffer buffer_size : Z) (has_scalar : bool) :
    M world (Z * Z * option Z) :=
  match fuel with
  | O => raise OutOfFuel
  | S fuel' =>
      let* o := mcapi_trans_recv_have_lock buff_addr rd rn re buffer buffer_size
                  has_scalar in
      match o with
      | Some res => ret res
      | None =>
          modify (between k);;
          recv_blocking_have_lock buff_addr between fuel' (S k) rd rn re buffer
            buffer_size has_scalar
      end
  end.
#[global] Arguments recv_blocking_have_lock : simpl never.

(** Returns [(rc, *data)]; [data] is its value on entry. *)
Definition mcapi_trans_sclchan_recv (buff_addr : nat → Z) (between : nat → world → world)
    (fuel : nat) (receive_handle data size : Z) : M world (bool * Z) :=
  let* (rd, rn, re) := decode_endpoint receive_handle in
  let* (received_size, _, scalar) :=
    recv_blocking_have_lock buff_addr between fuel 0 rd rn re 0 size true in
  ret (received_size =? size, default data scalar).
