(* ===== verification/McapiCheck.v ===== *)
(** The calling thread's identity ([mcapi_trans_whoami] and the functions on
    top of it in [transport_sm.c]) and the error checks in front of every
    operation ([transport_sm_check.c]).

    A check locks the database, reads it and unlocks it; none changes it.
    Pointers that are only compared with [NULL] are integers, 0 for [NULL]. *)

From S2P Require Import Prelude Bytes McapiTypes McapiQueue McapiRequests McapiTransport.

(** ** The calling thread *)

(** [mt_db]: this process is attached to the database ([mcapi_db != NULL]);
    the rest are the thread-local variables [mcapi_pid] (-1 until the node is
    initialized), [mcapi_tid], [mcapi_nindex], [mcapi_dindex],
    [mcapi_node_num] and [mcapi_domain_id]. *)
Record thread := mk_thread {
  mt_db : bool;
  mcapi_pid : Z;
  mcapi_tid : Z;
  mcapi_nindex : nat;
  mcapi_dindex : nat;
  mcapi_node_num : Z;
  mcapi_domain_id : Z }.
#[export] Instance eta_thread : Settable thread := λ r,
  mk_thread (mt_db r) (mcapi_pid r) (mcapi_tid r) (mcapi_nindex r) (mcapi_dindex r)
    (mcapi_node_num r) (mcapi_domain_id r).

(** The node number, node index, domain and domain index, when it returns
    [MCAPI_TRUE]. *)
Definition mcapi_trans_whoami (t : thread) : option (Z * nat * Z * nat) :=
  if negb (mt_db t) then None
  else if mcapi_pid t =? -1 then None
  else Some (mcapi_node_num t, mcapi_nindex t, mcapi_domain_id t, mcapi_dindex t).
(** [mcapi_assert(mcapi_trans_whoami(&node_id,&n,&domain_id,&d));] *)
Definition assert_whoami (t : thread) : M world (Z * nat * Z * nat) :=
  match mcapi_trans_whoami t with Some x => ret x | None => raise AssertFailed end.

Definition mcapi_trans_get_node_num (t : thread) : option Z :=
  match mcapi_trans_whoami t with Some (node, _, _, _) => Some node | None => None end.
Definition mcapi_trans_get_domain_num (t : thread) : option Z :=
  match mcapi_trans_whoami t with Some (_, _, domain, _) => Some domain | None => None end.
Definition mcapi_trans_initialized (t : thread) : bool :=
  bool_decide (is_Some (mcapi_trans_whoami t)).

(** ** Endpoints and channels *)

Definition mcapi_trans_channel_type (endpoint : Z) : M world channel_type :=
  let* (d, n, e) := decode_endpoint endpoint in
  let* q := get_queue d n e in
  ret (q_channel_type q).

(** [MCAPI_FALSE] for an endpoint already connected as the other side. *)
Definition mcapi_trans_send_endpoint (endpoint : Z) : M world bool :=
  let* (d, n, e) := decode_endpoint endpoint in
  let* ep := get_endpoint d n e in
  ret (negb (ep_connected ep && (q_recv_endpt (ep_recv_queue ep) =? endpoint))).
Definition mcapi_trans_recv_endpoint (endpoint : Z) : M world bool :=
  let* (d, n, e) := decode_endpoint endpoint in
  let* ep := get_endpoint d n e in
  ret (negb (ep_connected ep && (q_send_endpt (ep_recv_queue ep) =? endpoint))).

Definition mcapi_trans_valid_port (port_num : Z) : bool := true.
Definition mcapi_trans_valid_node (node_num : Z) : bool := true.

Definition mcapi_trans_valid_endpoint (endpoint : Z) : M world bool :=
  let '(d, n, e, ok) := mcapi_trans_decode_handle endpoint in
  if (ok : bool) then
    let* db := get_mdb in
    let* dm := from_option_oob (m_domains db !! d) in
    let* nd := from_option_oob (de_nodes dm !! n) in
    let* ep := get_endpoint d n e in
    ret (de_valid dm && ne_valid nd && ep_valid ep)
  else ret false.

(** Does the calling node have an endpoint with this port? *)
Definition mcapi_trans_endpoint_exists (t : thread) (port_num : Z) : M world bool :=
  if port_num =? MCAPI_PORT_ANY then ret false
  else
    let* (_, n, _, d) := assert_whoami t in
    let* db := get_mdb in
    let* nd := from_option_oob (m_domains db !! d ≫= λ dm, de_nodes dm !! n) in
    (* we can't just iterate for i < num_endpoints *)
    let* i := lift (c_scan (λ ep, ep_valid ep && (ep_port_num ep =? port_num))
                      (endpoints nd) MCAPI_MAX_ENDPOINTS 0) in
    ret (i <? MCAPI_MAX_ENDPOINTS)%nat.

Definition mcapi_trans_valid_endpoints (endpoint1 endpoint2 : Z) : M world bool :=
  let '(d1, n1, e1, ok1) := mcapi_trans_decode_handle endpoint1 in
  if negb ok1 then ret false
  else
    let* ep1 := get_endpoint d1 n1 e1 in
    if negb (ep_valid ep1) then ret false
    else
      let '(d2, n2, e2, ok2) := mcapi_trans_decode_handle endpoint2 in
      if negb ok2 then ret false
      else
        let* ep2 := get_endpoint d2 n2 e2 in
        ret (ep_valid ep2).

(** The same code under five names. *)
Definition mcapi_trans_endpoint_channel_isopen (endpoint : Z) : M world bool :=
  let* (d, n, e) := decode_endpoint endpoint in
  let* ep := get_endpoint d n e in
  ret (ep_open ep).
Definition mcapi_trans_pktchan_recv_isopen := mcapi_trans_endpoint_channel_isopen.
Definition mcapi_trans_pktchan_send_isopen := mcapi_trans_endpoint_channel_isopen.
Definition mcapi_trans_sclchan_recv_isopen := mcapi_trans_endpoint_channel_isopen.
Definition mcapi_trans_sclchan_send_isopen := mcapi_trans_endpoint_channel_isopen.

(** Compares the node number of the entry, not its domain, with the
    caller's. *)
Definition mcapi_trans_endpoint_isowner (t : thread) (endpoint : Z) : M world bool :=
  match mcapi_trans_get_node_num t with
  | None => raise AssertFailed
  | Some node_num =>
      let* (d, n, e) := decode_endpoint endpoint in
      let* ep := get_endpoint d n e in
      let* db := get_mdb in
      let* nd := from_option_oob (m_domains db !! d ≫= λ dm, de_nodes dm !! n) in
      ret (ep_valid ep && (ne_node_num nd =? node_num))
  end.

Definition mcapi_trans_channel_connected (endpoint : Z) : M world bool :=
  let* (d, n, e) := decode_endpoint endpoint in
  let* ep := get_endpoint d n e in
  ret (ep_valid ep && ep_connected ep).

Definition mcapi_trans_compatible_endpoint_attributes (send_endpoint recv_endpoint : Z) :
    bool := true.

(** Does the handle refer to an endpoint whose queue has type [type]? *)
Definition valid_channel_handle (type : channel_type) (handle : Z) : M world bool :=
  let '(d, n, e, ok) := mcapi_trans_decode_handle handle in
  if (ok : bool) then
    let* q := get_queue d n e in
    ret (bool_decide (q_channel_type q = type))
  else ret false.
Definition mcapi_trans_valid_pktchan_send_handle := valid_channel_handle MCAPI_PKT_CHAN.
Definition mcapi_trans_valid_pktchan_recv_handle := valid_channel_handle MCAPI_PKT_CHAN.
Definition mcapi_trans_valid_sclchan_send_handle := valid_channel_handle MCAPI_SCL_CHAN.
Definition mcapi_trans_valid_sclchan_recv_handle := valid_channel_handle MCAPI_SCL_CHAN.

Definition mcapi_trans_connected (endpoint : Z) : M world bool :=
  let '(d, n, e, ok) := mcapi_trans_decode_handle endpoint in
  if (ok : bool) then
    let* q := get_queue d n e in
    ret (bool_decide (q_channel_type q ≠ MCAPI_NO_CHAN))
  else ret false.

(** ** The calling node, and parameters *)

Definition mcapi_trans_num_endpoints (t : thread) : M world Z :=
  let* (_, n, _, d) := assert_whoami t in
  let* db := get_mdb in
  let* nd := from_option_oob (m_domains db !! d ≫= λ dm, de_nodes dm !! n) in
  ret (num_endpoints nd).

Definition mcapi_trans_valid_priority (priority : Z) : bool :=
  (0 <=? priority) && (priority <=? MCAPI_MAX_PRIORITY).
Definition mcapi_trans_valid_status_param (mcapi_status : Z) : bool :=
  negb (mcapi_status =? 0).
Definition mcapi_trans_valid_version_param (mcapi_version : Z) : bool :=
  negb (mcapi_version =? 0).
Definition mcapi_trans_valid_buffer_param (buffer : Z) : bool := negb (buffer =? 0).
Definition mcapi_trans_valid_size_param (size : Z) : bool := negb (size =? 0).
Definition mcapi_trans_valid_request_handle (request : Z) : bool :=
  bool_decide (is_Some (mcapi_trans_decode_request_handle request)).
