(* ===== verification/McapiNodes.v ===== *)
(** Nodes: initialization ([transport_sm_initialize.c]), finalization
    ([transport_sm_finalize.c]), node and endpoint attributes
    ([transport_sm_attributes.c], [transport_sm_endpoint.c]) and waiting for
    one of several requests ([transport_sm_wait.c]).

    Initialization and finalization also use variables of the process: the
    pointer to the database and the two counters that keep them apart.  What
    the operating system and the MRAPI layer below answer is a record.  The
    signal handlers that initialization installs are left out. *)

From S2P Require Import Prelude Bytes McapiTypes McapiQueue McapiRequests McapiTransport McapiMessages McapiCheck.

(** ** The process *)

(** [pr_db]: [mcapi_db != NULL]. *)
Record process := mk_process {
  pr_db : bool;
  mcapi_initialize_ctr : Z;
  mcapi_finalize_ctr : Z;
  pr_world : world }.
#[export] Instance eta_process : Settable process := λ r,
  mk_process (pr_db r) (mcapi_initialize_ctr r) (mcapi_finalize_ctr r) (pr_world r).

(** [sm_initialize]: [transport_sm_initialize] succeeds; [sm_finalize]: the
    result of [transport_sm_finalize], given the two flags it is told;
    [sm_pid], [sm_tid]: [getpid()] and [pthread_self()]. *)
Inductive shared_memory := Existed | Created | Failed.
Record system := mk_system {
  sm_initialize : bool;
  sm_memory : shared_memory;
  sm_finalize : bool → bool → bool;
  sm_pid : Z;
  sm_tid : Z }.

Definition on_world {A} (m : M world A) : M process A := λ p,
  match m (pr_world p) with
  | Done (a, w) => Done (a, p <| pr_world := w |>)
  | Fault f => Fault f
  end.

(** [while (busy) usleep(10000);]: what others do in between is [between]. *)
Fixpoint spin (between : nat → process → process) (fuel k : nat)
    (busy : process → bool) : M process unit :=
  match fuel with
  | O => raise OutOfFuel
  | S fuel' =>
      let* p := get in
      if busy p then modify (between k);; spin between fuel' (S k) busy else ret tt
  end.
#[global] Arguments spin : simpl never.

(** ** Initialization *)

(** "the memory is not zeroed for us, go through and set all nodes/domains to
    invalid" *)
Definition invalidate_all (db : mcapi_database) : mcapi_database :=
  db <| m_domains ::= fmap (λ dm, dm <| de_valid := false |>
    <| de_nodes ::= fmap (λ nd, nd <| ne_valid := false |>) |>) |>.

(** The indices of the domain and node entry to use; [None] when the node
    exists already or there is no room. *)
Definition find_node_entry (domain_id node_id : Z) (db : mcapi_database) :
    result (option (nat * nat)) :=
  (* first see if this domain already exists *)
  match c_scan (λ dm, de_domain_id dm =? domain_id) (m_domains db) MCA_MAX_DOMAINS 0 with
  | Fault f => Fault f
  | Done d0 =>
      match (if (d0 =? MCA_MAX_DOMAINS)%nat then
               (* it didn't exist so find the first available entry *)
               c_scan (λ dm, negb (de_valid dm)) (m_domains db) MCA_MAX_DOMAINS 0
             else Done d0) with
      | Fault f => Fault f
      | Done d =>
          if (d =? MCA_MAX_DOMAINS)%nat then Done None
          else
            match m_domains db !! d with
            | None => Fault OutOfBounds
            | Some dm =>
                match c_scan (λ nd, ne_valid nd && (ne_node_num nd =? node_id))
                        (de_nodes dm) MCA_MAX_NODES 0 with
                | Fault f => Fault f
                | Done n0 =>
                    if negb (n0 =? MCA_MAX_NODES)%nat then
                      (* this node already exists for this domain *) Done None
                    else
                      match c_scan (λ nd, negb (ne_valid nd)) (de_nodes dm)
                              MCA_MAX_NODES 0 with
                      | Fault f => Fault f
                      | Done n =>
                          Done (if (n =? MCA_MAX_NODES)%nat then None else Some (d, n))
                      end
                end
            end
      end
  end.

(** [attributes.entries[MCAPI_NODE_ATTR_TYPE_REGULAR].bytes =
    sizeof(mcapi_node_attr_type_t)] *)
Definition set_attribute_size (l : list attribute_entry) : list attribute_entry :=
  alter (λ a, a <| at_bytes := 4 |>) (Z.to_nat MCAPI_NODE_ATTR_TYPE_REGULAR) l.

(** Add the caller to the database. *)
Definition add_node (o : system) (d n : nat) (domain_id node_id : Z)
    (node_attrs : option (list attribute_entry)) (db : mcapi_database) : mcapi_database :=
  let add nd := nd <| ne_valid := true |> <| ne_node_num := node_id |>
    <| ne_pid := sm_pid o |> <| ne_tid := sm_tid o |>
    <| ne_attributes ::= λ l, set_attribute_size (default l node_attrs) |>
    <| endpoints ::= fmap (λ _, zero_endpoint) |> in
  upd_mnode d n add
    (db <| m_domains ::= alter (λ dm, dm <| de_domain_id := domain_id |>
      <| de_valid := true |> <| de_num_nodes ::= λ k, u16 (k + 1) |>) d |>).

(** [between] is what others do at the polls, and [gap] what they do before the section
    that has the lock of the database and after it.  Returns the result and the
    thread's variables. *)
Definition mcapi_trans_initialize (o : system) (between gap : nat → process → process)
    (fuel : nat) (t : thread) (domain_id node_id : Z)
    (node_attrs : option (list attribute_entry)) : M process (bool * thread) :=
  (* prevent concurrent initialization or rundown by another thread *)
  spin between fuel 0 (λ p, negb (mcapi_initialize_ctr p =? 0));;
  modify (λ p, p <| mcapi_initialize_ctr := 1 |>);;
  (* do not initialize resources during rundown *)
  spin between fuel 0 (λ p, 0 <? mcapi_finalize_ctr p);;
  modify (gap 0%nat);;
  if negb (sm_initialize o) then
    modify (λ p, p <| mcapi_initialize_ctr := 0 |>);; ret (false, t)
  else
    let* rc :=
      match sm_memory o with
      | Existed => modify (λ p, p <| pr_db := true |>);; ret true
      | Created =>
          modify (λ p, p <| pr_db := true |>);;
          on_world (modify_mdb invalidate_all);;
          on_world (on_header mcapi_trans_init_indexed_array_have_lock);;
          ret true
      | Failed => ret false
      end in
    let* found :=
      if (rc : bool) then
        on_world (let* db := get_mdb in lift (find_node_entry domain_id node_id db))
      else ret None in
    let* res :=
      match found with
      | Some (d, n) =>
          on_world (modify_mdb (add_node o d n domain_id node_id node_attrs));;
          ret (true, t <| mt_db := true |> <| mcapi_pid := sm_pid o |>
            <| mcapi_tid := sm_tid o |> <| mcapi_nindex := n |>
            <| mcapi_dindex := d |> <| mcapi_node_num := node_id |>
            <| mcapi_domain_id := domain_id |>)
      | None => let* p := get in ret (false, t <| mt_db := pr_db p |>)
      end in
    modify (gap 1%nat);;
    modify (λ p, p <| mcapi_initialize_ctr := 0 |>);; ret res.

(** ** Finalization *)

(** Is no other node of the database valid, or none of process [pid]? *)
Definition last_man (p : node_entry → bool) (db : mcapi_database) : bool :=
  negb (existsb (λ dm, existsb (λ nd, ne_valid nd && p nd) (de_nodes dm)) (m_domains db)).

(** [gap] is what others do before the section that has the lock and after it, when
    the decision who is the last has been made. *)
Definition mcapi_trans_finalize (o : system) (between gap : nat → process → process)
    (fuel : nat) (t : thread) : M process bool :=
  (* prevent concurrent rundown or initialization by another thread *)
  spin between fuel 0 (λ p, negb (mcapi_finalize_ctr p =? 0));;
  modify (λ p, p <| mcapi_finalize_ctr := 1 |>);;
  (* do not free resources while runtime is being initialized *)
  spin between fuel 0 (λ p, 0 <? mcapi_initialize_ctr p);;
  let* p := get in
  if negb (pr_db p) then ret false
  else
    modify (gap 0%nat);;
    let* p := get in
    let* (_, n, _, d) := on_world (assert_whoami (t <| mt_db := pr_db p |>)) in
    (* mark myself as invalid and see if there are any other valid nodes *)
    on_world (let* db := get_mdb in
              from_option_oob (m_domains db !! d ≫= λ dm, de_nodes dm !! n));;
    on_world (modify_mdb (upd_mnode d n (λ nd, nd <| ne_valid := false |>)));;
    let* db := on_world get_mdb in
    let last_man_standing := last_man (λ _, true) db in
    let last_man_standing_for_this_process := last_man (λ nd, ne_pid nd =? sm_pid o) db in
    modify (gap 1%nat);;
    let rc := sm_finalize o last_man_standing last_man_standing_for_this_process in
    (if last_man_standing_for_this_process then modify (λ p, p <| pr_db := false |>)
     else ret tt);;
    modify (λ p, p <| mcapi_finalize_ctr := 0 |>);;
    ret rc.

(** ** Attributes *)

(** [memset(mcapi_node_attributes,0,sizeof(mcapi_node_attributes))]: the size
    of a pointer, 8 bytes, is the first entry up to its [attribute_d]. *)
Definition mcapi_trans_node_init_attributes (mcapi_node_attributes : list attribute_entry) :
    list attribute_entry * bool :=
  (alter (λ a, mk_attribute false 0 0 (at_type a)) 0%nat mcapi_node_attributes, true).

(** Returns the attributes, the result and [*mcapi_status]. *)
Definition mcapi_trans_node_set_attribute (mcapi_node_attributes : list attribute_entry)
    (attribute_num attribute attribute_size mcapi_status : Z) :
    M world (list attribute_entry * bool * Z) :=
  if negb (attribute_num =? MCAPI_NODE_ATTR_TYPE_REGULAR) then
    ret (mcapi_node_attributes, false, MCAPI_ERR_ATTR_NOTSUPPORTED)
  else if negb (attribute_size =? 4) then
    ret (mcapi_node_attributes, false, MCAPI_ERR_ATTR_SIZE)
  else
    let* bytes := load (Z.to_nat attribute_size) attribute in
    ret (alter (λ a, a <| at_type := le_value bytes |>) (Z.to_nat attribute_num)
           mcapi_node_attributes, true, mcapi_status).

(** Returns the result and [*mcapi_status]. *)
Definition mcapi_trans_node_get_attribute (t : thread)
    (domain_id node_id attribute_num attribute attribute_size mcapi_status : Z) :
    M world (bool * Z) :=
  match mcapi_trans_whoami t with
  | None => ret (false, MCAPI_ERR_NODE_NOTINIT)
  | Some _ =>
      if negb (attribute_num =? MCAPI_NODE_ATTR_TYPE_REGULAR) then
        ret (false, MCAPI_ERR_ATTR_NOTSUPPORTED)
      else
        (* look for the <domain,node> *)
        let* db := get_mdb in
        let* d := lift (c_scan (λ dm, de_domain_id dm =? domain_id) (m_domains db)
                          MCA_MAX_DOMAINS 0) in
        if (d =? MCA_MAX_DOMAINS)%nat then ret (false, MCAPI_ERR_DOMAIN_INVALID)
        else
          let* dm := from_option_oob (m_domains db !! d) in
          let* n := lift (c_scan (λ nd, ne_node_num nd =? node_id) (de_nodes dm)
                            MCA_MAX_NODES 0) in
          if (n =? MCA_MAX_NODES)%nat then ret (false, MCAPI_ERR_NODE_INVALID)
          else
            let* nd := from_option_oob (de_nodes dm !! n) in
            if negb (de_valid dm) then ret (false, MCAPI_ERR_DOMAIN_INVALID)
            else if negb (ne_valid nd) then ret (false, MCAPI_ERR_NODE_INVALID)
            else
              let* a := from_option_oob (ne_attributes nd !! Z.to_nat attribute_num) in
              let size := at_bytes a in
              if negb (size =? attribute_size) then ret (false, MCAPI_ERR_ATTR_SIZE)
              else
                (* [attribute_d] is one unsigned int *)
                (if size <=? 4 then ret tt else raise OutOfBounds);;
                store (le_bytes (Z.to_nat size) (at_type a)) attribute;;
                ret (true, mcapi_status)
  end.

(** Returns [*mcapi_status]. *)
Definition mcapi_trans_endpoint_get_attribute (endpoint attribute_num attribute : Z) :
    M world Z :=
  let* (d, n, e) := decode_endpoint endpoint in
  if attribute_num =? MCAPI_ENDP_ATTR_NUM_RECV_BUFFERS then
    let* q := get_queue d n e in
    store (le_bytes 4 (u32 (Z.of_nat MCAPI_MAX_QUEUE_ENTRIES - q_num_elements q)))
      attribute;;
    ret MCAPI_SUCCESS
  else ret MCAPI_ERR_ATTR_NUM.

(** ** Waiting for one of several requests *)

(** The inner loop, from [requests[i]] on; [yields] counts the yields so far.
    [None]: it reached the end. *)
Fixpoint wait_any_round (buff_addr : nat → Z) (between : nat → world → world)
    (requests : list Z) (k i yields : nat) (size mcapi_status timeout time : Z) :
    M world (option (Z * list Z * Z * Z) * Z * Z) :=
  match k with
  | O => ret (None, size, mcapi_status)
  | S k' =>
      let* request := from_option_oob (requests !! i) in
      let* (rc, request, size, mcapi_status) :=
        mcapi_trans_test_i buff_addr request size mcapi_status in
      if (rc : bool) then
        ret (Some (Z.of_nat i, <[i := request]> requests, size, mcapi_status), size,
             mcapi_status)
      else
        modify (between yields);;
        if negb (timeout =? MCA_INFINITE) && (timeout <=? time) then
          ret (Some (MCAPI_RETURN_VALUE_INVALID, requests, size, MCAPI_TIMEOUT), size,
               mcapi_status)
        else wait_any_round buff_addr between requests k' (S i) (S yields) size
               mcapi_status timeout time
  end.
#[global] Arguments wait_any_round : simpl never.

(** Returns the index, the requests, [*size] and [*mcapi_status]. *)
Fixpoint mcapi_trans_wait_any (buff_addr : nat → Z) (between : nat → world → world)
    (fuel yields : nat) (requests : list Z) (size mcapi_status timeout time : Z) :
    M world (Z * list Z * Z * Z) :=
  match fuel with
  | O => raise OutOfFuel
  | S fuel' =>
      let time := u32 (time + 1) in
      let* (o, size, mcapi_status) :=
        wait_any_round buff_addr between requests (length requests) 0 yields size
          mcapi_status timeout time in
      match o with
      | Some res => ret res
      | None =>
          mcapi_trans_wait_any buff_addr between fuel' (yields + length requests)
            requests size mcapi_status timeout time
      end
  end.
#[global] Arguments mcapi_trans_wait_any : simpl never.
