(* ===== verification/McapiApi.v ===== *)
(** The public functions ([mcapi.c]): parameter checks in front of the
    transport.

    A pointer parameter that is checked against [NULL] is an [option] of the
    value it points to; a buffer is an address.  A non-blocking function that
    finds an error passes it on as [*mcapi_status], and the transport reports
    it through the request.  [None] as an endpoint is the indeterminate value
    of the local variable a failing function returns. *)

From S2P Require Import Prelude Bytes McapiTypes McapiQueue McapiRequests McapiTransport McapiMessages McapiChannels McapiCheck McapiNodes.

Definition u64 (z : Z) : Z := z mod 2 ^ 64.

(** [if (!a) *s = b; else ...]: the first check that fails gives the status. *)
Definition check {A} (m : M world bool) (err : A) (k : M world A) : M world A :=
  let* ok := m in if (ok : bool) then k else ret err.
Definition check_not {A} (m : M world bool) (err : A) (k : M world A) : M world A :=
  let* bad := m in if (bad : bool) then ret err else k.

(** ** Nodes *)

Definition mcapi_initialize (o : system) (between gap : nat → process → process)
    (fuel : nat) (t : thread) (domain_id node_id : Z)
    (mcapi_node_attributes : option (list attribute_entry)) : M process (thread * Z) :=
  if negb (mcapi_trans_valid_node node_id) then ret (t, MCAPI_ERR_NODE_INVALID)
  else if mcapi_trans_initialized t then ret (t, MCAPI_ERR_NODE_INITIALIZED)
  else
    let* (ok, t) := mcapi_trans_initialize o between gap fuel t domain_id node_id
                      mcapi_node_attributes in
    ret (t, if (ok : bool) then MCAPI_SUCCESS else MCAPI_ERR_NODE_INITFAILED).

Definition mcapi_finalize (o : system) (between gap : nat → process → process)
    (fuel : nat) (t : thread) : M process Z :=
  let* ok := mcapi_trans_finalize o between gap fuel t in
  ret (if (ok : bool) then MCAPI_SUCCESS else MCAPI_ERR_NODE_FINALFAILED).

(** Returns the attributes and [*mcapi_status]. *)
Definition mcapi_node_init_attributes (mcapi_node_attributes : option (list attribute_entry)) :
    option (list attribute_entry) * Z :=
  match mcapi_node_attributes with
  | None => (None, MCAPI_ERR_PARAMETER)
  | Some l =>
      let '(l, ok) := mcapi_trans_node_init_attributes l in
      (Some l, if ok then MCAPI_SUCCESS else MCAPI_ERR_GENERAL)
  end.

Definition mcapi_node_set_attribute (mcapi_node_attributes : option (list attribute_entry))
    (attribute_num attribute attribute_size : Z) :
    M world (option (list attribute_entry) * Z) :=
  match mcapi_node_attributes with
  | None => ret (None, MCAPI_ERR_PARAMETER)
  | Some l =>
      if attribute =? 0 then ret (Some l, MCAPI_ERR_PARAMETER)
      else
        let* (l, ok, status) := mcapi_trans_node_set_attribute l attribute_num attribute
                                  attribute_size MCAPI_ERR_GENERAL in
        ret (Some l, if (ok : bool) then MCAPI_SUCCESS else status)
  end.

Definition mcapi_node_get_attribute (t : thread)
    (domain_id node_id attribute_num attribute attribute_size : Z) : M world Z :=
  if attribute =? 0 then ret MCAPI_ERR_PARAMETER
  else
    let* (ok, status) := mcapi_trans_node_get_attribute t domain_id node_id attribute_num
                           attribute attribute_size MCAPI_ERR_GENERAL in
    ret (if (ok : bool) then MCAPI_SUCCESS else status).

Definition mcapi_domain_id_get (t : thread) : Z * Z :=
  match mcapi_trans_get_domain_num t with
  | Some domain => (domain, MCAPI_SUCCESS)
  | None => (MCAPI_DOMAIN_INVALID, MCAPI_ERR_NODE_NOTINIT)
  end.
Definition mcapi_node_id_get (t : thread) : Z * Z :=
  match mcapi_trans_get_node_num t with
  | Some node => (node, MCAPI_SUCCESS)
  | None => (MCAPI_NODE_INVALID, MCAPI_ERR_NODE_NOTINIT)
  end.

(** ** Endpoints *)

(** The sections of these two functions are separate; [gap k] is what other threads
    do between the [k]-th and the next. *)
Definition undisturbed (k : nat) (w : world) : world := w.

(** Returns the endpoint and [*mcapi_status]. *)
Definition mcapi_endpoint_create (gap : nat → world → world) (t : thread) (port_id : Z) :
    M world (option Z * Z) :=
  let '(domain_id, status) := mcapi_domain_id_get t in
  if negb (status =? MCAPI_SUCCESS) then ret (None, MCAPI_ERR_NODE_NOTINIT)
  else
    check_not (mcapi_trans_endpoint_exists t port_id) (None, MCAPI_ERR_ENDP_EXISTS)
      (modify (gap 0%nat);;
       let* num := mcapi_trans_num_endpoints t in
       if num =? Z.of_nat MCAPI_MAX_ENDPOINTS then ret (None, MCAPI_ERR_ENDP_LIMIT)
       else if negb (mcapi_trans_valid_port port_id) then
         ret (None, MCAPI_ERR_PORT_INVALID)
       else
         modify (gap 1%nat);;
         (* [mcapi_trans_endpoint_create] asks whoami for the node *)
         let* (_, n, _, d) := assert_whoami t in
         let* e := mcapi_trans_endpoint_create d n port_id false in
         match e with
         | None => ret (None, MCAPI_ERR_ENDP_NOPORTS)
         | Some e => ret (Some e, MCAPI_SUCCESS)
         end).

(** Returns [*endpoint], [*request] and [*mcapi_status]. *)
Definition mcapi_endpoint_get_i
    (domain_id node_id port_id endpoint endpoint_ptr request : Z) : M world (Z * Z * Z) :=
  let mcapi_status :=
    if negb (mcapi_trans_valid_node node_id) then MCAPI_ERR_NODE_INVALID
    else if negb (mcapi_trans_valid_port port_id) then MCAPI_ERR_PORT_INVALID
    else MCAPI_SUCCESS in
  let* (endpoint, request) :=
    mcapi_trans_endpoint_get_i endpoint endpoint_ptr domain_id node_id port_id request
      mcapi_status in
  ret (endpoint, request, mcapi_status).

Definition mcapi_endpoint_get (between : nat → world → world) (fuel : nat)
    (domain_id node_id port_id timeout : Z) : M world (option Z * Z) :=
  if negb (mcapi_trans_valid_node node_id) then ret (None, MCAPI_ERR_NODE_INVALID)
  else if negb (mcapi_trans_valid_port port_id) then ret (None, MCAPI_ERR_PORT_INVALID)
  else
    let* e := mcapi_trans_endpoint_get between fuel 0 domain_id node_id port_id in
    ret (Some e, MCAPI_SUCCESS).

Definition mcapi_endpoint_delete (gap : nat → world → world) (t : thread) (endpoint : Z) :
    M world Z :=
  check (mcapi_trans_valid_endpoint endpoint) MCAPI_ERR_ENDP_INVALID
    (modify (gap 0%nat);;
     check (mcapi_trans_endpoint_isowner t endpoint) MCAPI_ERR_ENDP_NOTOWNER
       (modify (gap 1%nat);;
        check_not (mcapi_trans_endpoint_channel_isopen endpoint) MCAPI_ERR_CHAN_OPEN
          (modify (gap 2%nat);;
           mcapi_trans_endpoint_delete endpoint;; ret MCAPI_SUCCESS))).

Definition mcapi_endpoint_get_attribute (endpoint attribute_num attribute : Z) : M world Z :=
  check (mcapi_trans_valid_endpoint endpoint) MCAPI_ERR_ENDP_INVALID
    (mcapi_trans_endpoint_get_attribute endpoint attribute_num attribute).

Section Api.
(** The addresses of the buffers, what other nodes do at a yield, the fuel of
    the waiting loops, and the value of an uninitialized request. *)
Context (buff_addr : nat → Z) (between : nat → world → world) (fuel : nat) (junk : Z).

(** ** Messages *)

Definition check_msg_send (send_endpoint receive_endpoint buffer_size priority : Z) :
    M world Z :=
  if negb (mcapi_trans_valid_priority priority) then ret MCAPI_ERR_PRIORITY
  else
    check (mcapi_trans_valid_endpoints send_endpoint receive_endpoint)
      MCAPI_ERR_ENDP_INVALID
      (ret (if Z.of_nat MCAPI_MAX_MSG_SIZE <? buffer_size then MCAPI_ERR_MSG_LIMIT
            else MCAPI_SUCCESS)).

(** Returns [*request] and [*mcapi_status]. *)
Definition mcapi_msg_send_i (send_endpoint receive_endpoint buffer buffer_size priority
    request : Z) : M world (Z * Z) :=
  let* mcapi_status := check_msg_send send_endpoint receive_endpoint buffer_size priority in
  mcapi_trans_msg_send_i send_endpoint receive_endpoint buffer buffer_size request
    mcapi_status.

Definition mcapi_msg_send (send_endpoint receive_endpoint buffer buffer_size priority : Z) :
    M world Z :=
  let* mcapi_status := check_msg_send send_endpoint receive_endpoint buffer_size priority in
  if negb (mcapi_status =? MCAPI_SUCCESS) then ret mcapi_status
  else
    let* ok := mcapi_trans_msg_send buff_addr between fuel send_endpoint receive_endpoint
                 buffer buffer_size junk in
    ret (if (ok : bool) then MCAPI_SUCCESS else MCAPI_ERR_MEM_LIMIT).

Definition check_msg_recv (receive_endpoint buffer : Z) : M world Z :=
  if negb (mcapi_trans_valid_buffer_param buffer) then ret MCAPI_ERR_PARAMETER
  else
    check (mcapi_trans_valid_endpoint receive_endpoint) MCAPI_ERR_ENDP_INVALID
      (ret MCAPI_SUCCESS).

(** [if (!request) *mcapi_status = MCAPI_ERR_PARAMETER; else ...] *)
Definition with_request_param (request : option Z) (f : Z → M world (Z * Z)) :
    M world (option Z * Z) :=
  match request with
  | None => ret (None, MCAPI_ERR_PARAMETER)
  | Some request =>
      let* (request, mcapi_status) := f request in ret (Some request, mcapi_status)
  end.

Definition mcapi_msg_recv_i (receive_endpoint buffer buffer_size : Z)
    (request : option Z) : M world (option Z * Z) :=
  with_request_param request (λ request,
    let* mcapi_status := check_msg_recv receive_endpoint buffer in
    mcapi_trans_msg_recv_i buff_addr receive_endpoint buffer buffer_size request
      mcapi_status).

(** Returns [*received_size] and [*mcapi_status]. *)
Definition mcapi_msg_recv (receive_endpoint buffer buffer_size received_size : Z) :
    M world (Z * Z) :=
  let* mcapi_status := check_msg_recv receive_endpoint buffer in
  if negb (mcapi_status =? MCAPI_SUCCESS) then ret (received_size, mcapi_status)
  else
    let* (_, received_size) :=
      mcapi_trans_msg_recv buff_addr between fuel receive_endpoint buffer buffer_size
        received_size junk in
    ret (if buffer_size <? received_size then (buffer_size, MCAPI_ERR_MSG_TRUNCATED)
         else (received_size, MCAPI_SUCCESS)).

(** Returns the number and [*mcapi_status]. *)
Definition mcapi_msg_available (receive_endpoint : Z) : M world (Z * Z) :=
  check (mcapi_trans_valid_endpoint receive_endpoint) (0, MCAPI_ERR_ENDP_INVALID)
    (let* rc := mcapi_trans_msg_available receive_endpoint in ret (rc, MCAPI_SUCCESS)).

(** ** Connecting, opening and closing a channel *)

Definition check_connect (send_endpoint receive_endpoint : Z) : M world Z :=
  check (mcapi_trans_valid_endpoints send_endpoint receive_endpoint)
    MCAPI_ERR_ENDP_INVALID
    (check_not (mcapi_trans_channel_connected send_endpoint) MCAPI_ERR_CHAN_CONNECTED
       (check_not (mcapi_trans_channel_connected receive_endpoint)
          MCAPI_ERR_CHAN_CONNECTED
          (ret (if negb (mcapi_trans_compatible_endpoint_attributes send_endpoint
                           receive_endpoint)
                then MCAPI_ERR_ATTR_INCOMPATIBLE else MCAPI_SUCCESS)))).

(** No check of [request] here. *)
Definition mcapi_pktchan_connect_i (send_endpoint receive_endpoint request : Z) :
    M world (Z * Z) :=
  let* mcapi_status := check_connect send_endpoint receive_endpoint in
  mcapi_trans_pktchan_connect_i send_endpoint receive_endpoint request mcapi_status.
Definition mcapi_sclchan_connect_i (send_endpoint receive_endpoint : Z)
    (request : option Z) : M world (option Z * Z) :=
  with_request_param request (λ request,
    let* mcapi_status := check_connect send_endpoint receive_endpoint in
    mcapi_trans_sclchan_connect_i send_endpoint receive_endpoint request mcapi_status).

(** [other] is the type of channel that must not be connected, [side] the
    check of the direction. *)
Definition check_open (other : channel_type) (side : Z → M world bool) (endpoint : Z) :
    M world Z :=
  check (mcapi_trans_valid_endpoint endpoint) MCAPI_ERR_ENDP_INVALID
    (let* type := mcapi_trans_channel_type endpoint in
     if decide (type = other) then ret MCAPI_ERR_CHAN_TYPE
     else check (side endpoint) MCAPI_ERR_CHAN_DIRECTION (ret MCAPI_SUCCESS)).

(** Returns [*handle], [*request] and [*mcapi_status]. *)
Definition open_i (other : channel_type) (side : Z → M world bool)
    (trans : Z → Z → Z → Z → M world (Z * Z * Z)) (handle endpoint : Z)
    (request : option Z) : M world (Z * option Z * Z) :=
  match request with
  | None => ret (handle, None, MCAPI_ERR_PARAMETER)
  | Some request =>
      let* mcapi_status := check_open other side endpoint in
      let* (handle, request, mcapi_status) := trans handle endpoint request mcapi_status in
      ret (handle, Some request, mcapi_status)
  end.
Definition mcapi_pktchan_recv_open_i :=
  open_i MCAPI_SCL_CHAN mcapi_trans_recv_endpoint mcapi_trans_pktchan_recv_open_i.
Definition mcapi_pktchan_send_open_i :=
  open_i MCAPI_SCL_CHAN mcapi_trans_send_endpoint mcapi_trans_pktchan_send_open_i.
Definition mcapi_sclchan_recv_open_i :=
  open_i MCAPI_PKT_CHAN mcapi_trans_recv_endpoint mcapi_trans_sclchan_recv_open_i.
Definition mcapi_sclchan_send_open_i :=
  open_i MCAPI_PKT_CHAN mcapi_trans_send_endpoint mcapi_trans_sclchan_send_open_i.

Definition close_i (valid isopen : Z → M world bool)
    (trans : Z → Z → Z → M world (Z * Z)) (handle : Z) (request : option Z) :
    M world (option Z * Z) :=
  with_request_param request (λ request,
    let* mcapi_status :=
      check (valid handle) MCAPI_ERR_CHAN_INVALID
        (check (isopen handle) MCAPI_ERR_CHAN_NOTOPEN (ret MCAPI_SUCCESS)) in
    trans handle request mcapi_status).
Definition mcapi_pktchan_recv_close_i :=
  close_i mcapi_trans_valid_pktchan_recv_handle mcapi_trans_pktchan_recv_isopen
    mcapi_trans_pktchan_recv_close_i.
(** The code asks whether it is a valid receive handle. *)
Definition mcapi_pktchan_send_close_i :=
  close_i mcapi_trans_valid_pktchan_recv_handle mcapi_trans_pktchan_send_isopen
    mcapi_trans_pktchan_send_close_i.
Definition mcapi_sclchan_recv_close_i :=
  close_i mcapi_trans_valid_sclchan_recv_handle mcapi_trans_sclchan_recv_isopen
    mcapi_trans_sclchan_recv_close_i.
Definition mcapi_sclchan_send_close_i :=
  close_i mcapi_trans_valid_sclchan_recv_handle mcapi_trans_sclchan_send_isopen
    mcapi_trans_sclchan_send_close_i.

(** ** Packets *)

Definition check_pktchan_send (send_handle size : Z) : M world Z :=
  check (mcapi_trans_valid_pktchan_send_handle send_handle) MCAPI_ERR_CHAN_INVALID
    (ret (if Z.of_nat MCAPI_MAX_PKT_SIZE <? size then MCAPI_ERR_PKT_LIMIT
          else MCAPI_SUCCESS)).

Definition mcapi_pktchan_send_i (send_handle buffer size : Z) (request : option Z) :
    M world (option Z * Z) :=
  with_request_param request (λ request,
    let* mcapi_status := check_pktchan_send send_handle size in
    mcapi_trans_pktchan_send_i send_handle buffer size request mcapi_status).

Definition mcapi_pktchan_send (send_handle buffer size : Z) : M world Z :=
  let* mcapi_status := check_pktchan_send send_handle size in
  if negb (mcapi_status =? MCAPI_SUCCESS) then ret mcapi_status
  else
    let* ok := mcapi_trans_pktchan_send buff_addr between fuel send_handle buffer size
                 junk in
    ret (if (ok : bool) then MCAPI_SUCCESS else MCAPI_ERR_MEM_LIMIT).

Definition check_pktchan_recv (receive_handle buffer : Z) : M world Z :=
  if negb (mcapi_trans_valid_buffer_param buffer) then ret MCAPI_ERR_PARAMETER
  else
    check (mcapi_trans_valid_pktchan_recv_handle receive_handle) MCAPI_ERR_CHAN_INVALID
      (ret MCAPI_SUCCESS).

Definition mcapi_pktchan_recv_i (receive_handle buffer : Z) (request : option Z) :
    M world (option Z * Z) :=
  with_request_param request (λ request,
    let* mcapi_status := check_pktchan_recv receive_handle buffer in
    mcapi_trans_pktchan_recv_i buff_addr receive_handle buffer request mcapi_status).

(** Returns [*received_size] and [*mcapi_status]. *)
Definition mcapi_pktchan_recv (receive_handle buffer received_size : Z) : M world (Z * Z) :=
  let* mcapi_status := check_pktchan_recv receive_handle buffer in
  if negb (mcapi_status =? MCAPI_SUCCESS) then ret (received_size, mcapi_status)
  else
    let* (ok, received_size) :=
      mcapi_trans_pktchan_recv buff_addr between fuel receive_handle buffer received_size
        junk in
    ret (received_size,
         if (ok : bool) then
           if Z.of_nat MCAPI_MAX_PKT_SIZE <? received_size then MCAPI_ERR_PKT_LIMIT
           else MCAPI_SUCCESS
         else MCAPI_ERR_MEM_LIMIT).

Definition mcapi_pktchan_available (receive_handle : Z) : M world (Z * Z) :=
  check (mcapi_trans_valid_pktchan_recv_handle receive_handle) (0, MCAPI_ERR_CHAN_INVALID)
    (let* num := mcapi_trans_pktchan_available receive_handle in
     ret (u32 (i32 num), MCAPI_SUCCESS)).

Definition mcapi_pktchan_release (buffer : Z) : M world Z :=
  let* ok := mcapi_trans_pktchan_free buff_addr buffer in
  ret (if (ok : bool) then MCAPI_SUCCESS else MCAPI_ERR_BUF_INVALID).

(** ** Scalars *)

Definition sclchan_send (send_handle dataword size : Z) : M world Z :=
  check (mcapi_trans_valid_sclchan_send_handle send_handle) MCAPI_ERR_CHAN_INVALID
    (let* ok := mcapi_trans_sclchan_send send_handle dataword size in
     ret (if (ok : bool) then MCAPI_SUCCESS else MCAPI_ERR_MEM_LIMIT)).
Definition mcapi_sclchan_send_uint64 (send_handle dataword : Z) : M world Z :=
  sclchan_send send_handle (u64 dataword) 8.
(** [mcapi_status] is a pointer that is not [NULL]; with [NULL] the function
    does nothing. *)
Definition mcapi_sclchan_send_uint32 (send_handle dataword : Z) : M world Z :=
  sclchan_send send_handle (u32 dataword) 4.
Definition mcapi_sclchan_send_uint16 (send_handle dataword : Z) : M world Z :=
  sclchan_send send_handle (u16 dataword) 2.
Definition mcapi_sclchan_send_uint8 (send_handle dataword : Z) : M world Z :=
  sclchan_send send_handle (u8 dataword) 1.

(** Returns the word received and [*mcapi_status]. *)
Definition sclchan_recv (cast : Z → Z) (receive_handle exp_size : Z) : M world (Z * Z) :=
  check (mcapi_trans_valid_sclchan_recv_handle receive_handle)
    (cast 0, MCAPI_ERR_CHAN_INVALID)
    (let* (ok, dataword) :=
       mcapi_trans_sclchan_recv buff_addr between fuel receive_handle 0 exp_size in
     ret (cast dataword, if (ok : bool) then MCAPI_SUCCESS else MCAPI_ERR_SCL_SIZE)).
Definition mcapi_sclchan_recv_uint64 (receive_handle : Z) : M world (Z * Z) :=
  sclchan_recv (λ z, z) receive_handle 8.
Definition mcapi_sclchan_recv_uint32 (receive_handle : Z) : M world (Z * Z) :=
  sclchan_recv u32 receive_handle 4.
Definition mcapi_sclchan_recv_uint16 (receive_handle : Z) : M world (Z * Z) :=
  sclchan_recv u16 receive_handle 2.
Definition mcapi_sclchan_recv_uint8 (receive_handle : Z) : M world (Z * Z) :=
  sclchan_recv u8 receive_handle 1.

Definition mcapi_sclchan_available (receive_handle : Z) : M world (Z * Z) :=
  check (mcapi_trans_valid_sclchan_recv_handle receive_handle) (0, MCAPI_ERR_CHAN_INVALID)
    (let* num := mcapi_trans_sclchan_available_i receive_handle in
     ret (u32 (i32 num), MCAPI_SUCCESS)).

(** ** Test, wait and cancel *)

(** Return the result, [*request], [*size] and [*mcapi_status]. *)
Definition mcapi_test (request : Z) (size : option Z) : M world (bool * Z * option Z * Z) :=
  match size with
  | None => ret (true, request, None, MCAPI_ERR_PARAMETER)
  | Some size =>
      if negb (mcapi_trans_valid_request_handle request) then
        ret (true, request, Some size, MCAPI_ERR_REQUEST_INVALID)
      else
        let* (rc, request, size, mcapi_status) :=
          mcapi_trans_test_i buff_addr request size MCAPI_SUCCESS in
        ret (rc, request, Some size, mcapi_status)
  end.

Definition mcapi_wait (request : Z) (size : option Z) (timeout : Z) :
    M world (bool * Z * option Z * Z) :=
  match size with
  | None => ret (true, request, None, MCAPI_ERR_PARAMETER)
  | Some size =>
      if negb (mcapi_trans_valid_request_handle request) then
        ret (false, request, Some size, MCAPI_ERR_REQUEST_INVALID)
      else
        let* (rc, request, size, mcapi_status) :=
          mcapi_trans_wait buff_addr between fuel request size MCAPI_SUCCESS timeout in
        ret (rc, request, Some size, mcapi_status)
  end.

Definition mcapi_wait_any (requests : list Z) (size : option Z) (timeout : Z) :
    M world (Z * list Z * option Z * Z) :=
  match size with
  | None => ret (1, requests, None, MCAPI_ERR_PARAMETER)
  | Some size =>
      let* (rc, requests, size, mcapi_status) :=
        mcapi_trans_wait_any buff_addr between fuel 0 requests size MCAPI_SUCCESS
          timeout 0 in
      ret (rc, requests, Some size, mcapi_status)
  end.

Definition mcapi_cancel (request : Z) : M world Z :=
  if negb (mcapi_trans_valid_request_handle request) then ret MCAPI_ERR_REQUEST_INVALID
  else mcapi_trans_cancel request MCAPI_SUCCESS.
End Api.
