(* ===== verification/McapiDisplay.v ===== *)
(** Status display: [mcapi_trans_display_status] of [transport_sm.c], with
    the destination buffer of [size] bytes modelled as in MrapiDisplay.v. *)

From S2P Require Import Prelude MrapiDisplay McapiTypes.

(** The cases of the [switch] in order, and its [default]. *)
Definition mcapi_status_names : list (Z * string) :=
  [ (MCAPI_SUCCESS, "MCAPI_SUCCESS"%string);
    (MCAPI_PENDING, "MCAPI_PENDING"%string);
    (MCAPI_ERR_PARAMETER, "MCAPI_ERR_PARAMETER"%string);
    (MCAPI_ERR_DOMAIN_INVALID, "MCAPI_ERR_DOMAIN_INVALID"%string);
    (MCAPI_ERR_NODE_INVALID, "MCAPI_ERR_NODE_INVALID"%string);
    (MCAPI_ERR_NODE_INITFAILED, "MCAPI_ERR_NODE_INITFAILED"%string);
    (MCAPI_ERR_NODE_INITIALIZED, "MCAPI_ERR_NODE_INITIALIZED"%string);
    (MCAPI_ERR_NODE_NOTINIT, "MCAPI_ERR_NODE_NOTINIT"%string);
    (MCAPI_ERR_NODE_FINALFAILED, "MCAPI_ERR_NODE_FINALFAILED"%string);
    (MCAPI_ERR_PORT_INVALID, "MCAPI_ERR_INVALID"%string);
    (MCAPI_ERR_ENDP_INVALID, "MCAPI_ERR_ENDP_INVALID"%string);
    (MCAPI_ERR_ENDP_NOPORTS, "MCAPI_ERR_ENDP_NOPORTS"%string);
    (MCAPI_ERR_ENDP_LIMIT, "MCAPI_ERR_ENDP_LIMIT"%string);
    (MCAPI_ERR_ENDP_EXISTS, "MCAPI_ERR_ENDP_EXISTS"%string);
    (MCAPI_ERR_ENDP_NOTOWNER, "MCAPI_ERR_ENDP_NOTOWNER"%string);
    (MCAPI_ERR_ENDP_REMOTE, "MCAPI_ERR_ENDP_REMOTE"%string);
    (MCAPI_ERR_ATTR_INCOMPATIBLE, "MCAPI_ERR_ATTR_INCOMPATIBLE"%string);
    (MCAPI_ERR_ATTR_SIZE, "MCAPI_ERR_ATTR_SIZE"%string);
    (MCAPI_ERR_ATTR_NUM, "MCAPI_ERR_ATTR_NUM"%string);
    (MCAPI_ERR_ATTR_VALUE, "MCAPI_ERR_ATTR_VALUE"%string);
    (MCAPI_ERR_ATTR_NOTSUPPORTED, "MCAPI_ERR_ATTR_NOTSUPPORTED"%string);
    (MCAPI_ERR_ATTR_READONLY, "MCAPI_ERR_ATTR_READONLY"%string);
    (MCAPI_ERR_MSG_LIMIT, "MCAPI_ERR_MSG_LIMIT"%string);
    (MCAPI_ERR_MSG_TRUNCATED, "MCAPI_ERR_MSG_TRUNCATED"%string);
    (MCAPI_ERR_TRANSMISSION, "MCAPI_ERR_TRANSMISSION"%string);
    (MCAPI_ERR_MEM_LIMIT, "MCAPI_ERR_MEM_LIMIT"%string);
    (MCAPI_TIMEOUT, "MCAPI_TIMEOUT"%string);
    (MCAPI_ERR_REQUEST_LIMIT, "MCAPI_ERR_REQUEST_LIMIT"%string);
    (MCAPI_ERR_PRIORITY, "MCAPI_ERR_PRIORITY"%string);
    (MCAPI_ERR_CHAN_OPEN, "MCAPI_ERR_CHAN_OPEN"%string);
    (MCAPI_ERR_CHAN_TYPE, "MCAPI_ERR_CHAN_TYPE"%string);
    (MCAPI_ERR_CHAN_CONNECTED, "MCAPI_ERR_CHAN_CONNECTED"%string);
    (MCAPI_ERR_CHAN_OPENPENDING, "MCAPI_ERR_CHAN_OPENPENDING"%string);
    (MCAPI_ERR_CHAN_DIRECTION, "MCAPI_ERR_CHAN_DIRECTION"%string);
    (MCAPI_ERR_CHAN_NOTOPEN, "MCAPI_ERR_CHAN_NOTOPEN"%string);
    (MCAPI_ERR_CHAN_INVALID, "MCAPI_ERR_CHAN_INVALID"%string);
    (MCAPI_ERR_REQUEST_INVALID, "MCAPI_ERR_REQUEST_INVALID"%string);
    (MCAPI_ERR_PKT_LIMIT, "MCAPI_ERR_PKT_LIMIT"%string);
    (MCAPI_ERR_BUF_INVALID, "MCAPI_ERR_BUF_INVALID"%string);
    (MCAPI_ERR_SCL_SIZE, "MCAPI_ERR_SCL_SIZE"%string);
    (MCAPI_ERR_REQUEST_CANCELLED, "MCAPI_ERR_REQUEST_CANCELLED"%string);
    (MCAPI_ERR_GENERAL, "MCAPI_ERR_GENERAL"%string);
    (MCAPI_STATUSCODE_END, "MCAPI_STATUSCODE_END"%string) ].
Definition mcapi_status_name (status : Z) : string :=
  match List.find (λ c, c.1 =? status) mcapi_status_names with
  | Some c => c.2
  | None => "UNKNOWN"%string
  end.

(** [None]: [status_message] is [NULL].  Returns the buffer after the call. *)
Definition mcapi_trans_display_status (status : Z)
    (status_message : option (list Ascii.ascii)) (size : Z) :
    result (option (list Ascii.ascii)) :=
  match status_message with
  | None => Done None
  | Some buf =>
      if size <? MCAPI_MAX_STATUS_SIZE then Done (Some buf)
      else if Z.of_nat (length buf) <? size then Fault OutOfBounds
      else
        let buf := replicate (Z.to_nat size) nul ++ drop (Z.to_nat size) buf in
        match strcpy buf (mcapi_status_name status) with
        | Done buf => Done (Some buf)
        | Fault f => Fault f
        end
  end.
Definition mcapi_display_status (status : Z)
    (status_message : option (list Ascii.ascii)) (size : Z) :
    result (option (list Ascii.ascii)) :=
  mcapi_trans_display_status status status_message size.

(** ** What the display functions guarantee *)

Definition mcapi_name_ok (s : string) : bool :=
  forallb (λ a, bool_decide (a ≠ nul)) (String.list_ascii_of_string s) &&
  (length (String.list_ascii_of_string s) <? 32)%nat.
Lemma mcapi_name_facts st : mcapi_name_ok (mcapi_status_name st) = true.
Proof.
  assert (forallb (λ c, mcapi_name_ok c.2) mcapi_status_names = true) as H by reflexivity.
  rewrite forallb_forall in H. unfold mcapi_status_name.
  destruct (List.find _ _) as [c|] eqn:Hc; [|reflexivity].
  apply List.find_some in Hc. by apply H, Hc.
Qed.

(** Displaying a status: into a buffer of [size >= 32] bytes, as the function
    demands, it writes a NUL-terminated string that is the status's name and
    stays inside the buffer, for every status, known or not. *)
Theorem mcapi_display_status_fits st buf size :
  Z.of_nat (length buf) = size → 32 <= size →
  ∃ buf', mcapi_display_status st (Some buf) size = Done (Some buf') ∧
    c_string buf' = String.list_ascii_of_string (mcapi_status_name st) ∧
    length buf' = length buf.
Proof.
  intros Hb Hs. unfold mcapi_display_status, mcapi_trans_display_status, MCAPI_MAX_STATUS_SIZE.
  destruct (Z.ltb_spec size 32); [lia|]. destruct (Z.ltb_spec (Z.of_nat (length buf)) size); [lia|].
  pose proof (mcapi_name_facts st) as Hn. unfold mcapi_name_ok in Hn.
  rewrite andb_true_iff, Nat.ltb_lt in Hn. destruct Hn as [Hn Hl]. unfold strcpy.
  set (cs := String.list_ascii_of_string _) in *.
  rewrite length_app, length_replicate, length_drop.
  destruct (Nat.ltb_spec (Z.to_nat size + (length buf - Z.to_nat size)) (length cs + 1)); [lia|].
  eexists. split; [done|]. split.
  - apply c_string_app, Forall_forall. intros a Ha. apply list_elem_of_In in Ha.
    rewrite forallb_forall in Hn. by apply Hn, bool_decide_eq_true in Ha.
  - rewrite !length_app, length_drop, length_app, length_replicate, length_drop. cbn. lia.
Qed.
Lemma mcapi_display_status_fits_witness :
  ∃ buf', mcapi_display_status MCAPI_TIMEOUT (Some (replicate 32 nul)) 32 = Done (Some buf') ∧
    c_string buf' = String.list_ascii_of_string (mcapi_status_name MCAPI_TIMEOUT) ∧
    length buf' = length (replicate 32 nul).
Proof. apply (mcapi_display_status_fits MCAPI_TIMEOUT (replicate 32 nul) 32); [reflexivity|lia]. Defined.

Example port_invalid_misnamed :
  mcapi_status_name MCAPI_ERR_PORT_INVALID = "MCAPI_ERR_INVALID"%string.
Proof. reflexivity. Qed.
Example wait_pending_unnamed : mcapi_status_name MCAPI_ERR_WAIT_PENDING = "UNKNOWN"%string.
Proof. reflexivity. Qed.
