(* ===== verification/McapiRequestList.v ===== *)
(** The two lists threaded through the array of requests: their invariant,
    and reserving and removing as operations on lists. *)

From S2P Require Import Prelude Bytes McapiTypes McapiRequests.

(** ** Linked segments *)

Definition hd_or (e : Z) (l : list nat) : Z :=
  match l with [] => e | i :: _ => Z.of_nat i end.
Definition last_or (p : Z) (l : list nat) : Z :=
  match last l with Some i => Z.of_nat i | None => p end.

(** The nodes [l] are linked in this order in the array [a], after the node
    [p] and before the node [e]. *)
Fixpoint links (a : list indexed_array_node) (p : Z) (l : list nat) (e : Z) : Prop :=
  match l with
  | [] => True
  | i :: l' => a !! i = Some (mk_inode (hd_or e l') p) ∧ links a (Z.of_nat i) l' e
  end.

Lemma links_app a p l1 l2 e :
  links a p (l1 ++ l2) e ↔ links a p l1 (hd_or e l2) ∧ links a (last_or p l1) l2 e.
Proof.
  revert p. induction l1 as [|i l1 IH]; intros p; [unfold last_or; cbn; tauto|].
  cbn. rewrite IH. replace (hd_or (hd_or e l2) l1) with (hd_or e (l1 ++ l2)) by by destruct l1.
  replace (last_or p (i :: l1)) with (last_or (Z.of_nat i) l1); [tauto|].
  unfold last_or. destruct l1 using rev_ind; [done|].
  by rewrite app_comm_cons, !last_snoc.
Qed.
Lemma links_alter a p l e i f : i ∉ l → links (alter f i a) p l e ↔ links a p l e.
Proof.
  revert p. induction l as [|j l IH]; intros p Hi; [done|].
  apply not_elem_of_cons in Hi as [Hij Hi]. cbn. by rewrite list_lookup_alter_ne, IH.
Qed.
(** Changing the neighbour of an end. *)
Lemma links_prev a p p' i l e :
  i ∉ l → links a p (i :: l) e →
  links (alter (λ y, y <| prev_index := p' |>) i a) p' (i :: l) e.
Proof.
  intros Hi [Ha Hl]. split; [|by apply links_alter].
  by rewrite list_lookup_alter_eq, Ha.
Qed.
Lemma links_next a p l i e e' :
  i ∉ l → links a p (l ++ [i]) e →
  links (alter (λ y, y <| next_index := e' |>) i a) p (l ++ [i]) e'.
Proof.
  rewrite !links_app. intros Hi [Hl [Ha _]]. cbn in *. split; [by apply links_alter|].
  split; [|done]. by rewrite list_lookup_alter_eq, Ha.
Qed.
Lemma links_lookup a p l e i : links a p l e → i ∈ l → is_Some (a !! i).
Proof.
  revert p. induction l as [|j l IH]; intros p Hl Hi; [by apply not_elem_of_nil in Hi|].
  destruct Hl as [Ha Hl]. apply elem_of_cons in Hi as [->|Hi]; eauto.
Qed.

(** ** The invariant *)

Record header_wf (h : indexed_array_header) (free used : list nat) : Prop := {
  hw_free : links (ia_array h) (-1) free (-1);
  hw_used : links (ia_array h) (-1) used (-1);
  hw_empty_head : empty_head_index h = hd_or (-1) free;
  hw_full_head : full_head_index h = hd_or (-1) used;
  hw_perm : free ++ used ≡ₚ seq 0 MCAPI_MAX_REQUESTS;
  hw_length : length (ia_array h) = MCAPI_MAX_REQUESTS;
  hw_count : curr_count h = Z.of_nat (length used) }.

Lemma perm_facts free used (i : nat) :
  free ++ used ≡ₚ seq 0 MCAPI_MAX_REQUESTS →
  NoDup (free ++ used) ∧ (i ∈ free ++ used → (i < MCAPI_MAX_REQUESTS)%nat).
Proof.
  intros Hp. split; [rewrite Hp; apply NoDup_seq|].
  rewrite Hp, elem_of_seq. lia.
Qed.

(** ** Array accesses *)

Lemma inode_done h i x :
  ia_array h !! i = Some x → inode (Z.of_nat i) h = Done (x, h).
Proof.
  intros Hi. pose proof (lookup_lt_Some _ _ _ Hi). unfold inode, get_inode.
  replace (_ && _) with true by (symmetry; apply andb_true_intro; lia).
  by rewrite Nat2Z.id, Hi.
Qed.
Lemma set_inode_done h i f :
  (i < length (ia_array h))%nat →
  set_inode (Z.of_nat i) f h = Done (tt, h <| ia_array ::= alter f i |>).
Proof.
  intros Hi. destruct (lookup_lt_is_Some_2 _ _ Hi) as [x Hx].
  unfold set_inode, upd_inode. pose proof (inode_done h i x Hx) as Hd.
  unfold inode in Hd. destruct (get_inode (Z.of_nat i) h); [|done].
  by rewrite Nat2Z.id.
Qed.
Lemma hd_or_neg l : hd_or (-1) l = -1 ↔ l = [].
Proof. destruct l; cbn; [done|]. split; [lia|done]. Qed.

(** An assignment to a neighbour that may not exist. *)
Definition index_of (o : option nat) : Z :=
  match o with Some i => Z.of_nat i | None => -1 end.
Definition alter_at (o : option nat) (f : indexed_array_node → indexed_array_node)
    (a : list indexed_array_node) : list indexed_array_node :=
  match o with Some i => alter f i a | None => a end.

Lemma hd_index l : hd_or (-1) l = index_of (head l).
Proof. by destruct l. Qed.
Lemma last_index l : last_or (-1) l = index_of (last l).
Proof. unfold last_or. by destruct (last l). Qed.
Lemma set_index_done h o f :
  (∀ i, o = Some i → (i < length (ia_array h))%nat) →
  (if negb (index_of o =? -1) then set_inode (index_of o) f else ret tt) h
  = Done (tt, h <| ia_array ::= alter_at o f |>).
Proof.
  intros Hi. destruct o as [i|]; [|by destruct h]. cbn.
  destruct (Z.eqb_spec (Z.of_nat i) (-1)); [lia|]. by apply set_inode_done, Hi.
Qed.
Lemma length_alter_at o f a : length (alter_at o f a) = length a.
Proof. destruct o; [apply length_alter|done]. Qed.
Lemma links_alter_at a p l e o f :
  (∀ i, o = Some i → i ∉ l) → links a p l e → links (alter_at o f a) p l e.
Proof. destruct o; [|done]. intros H ?. by apply links_alter; [apply H|]. Qed.
Lemma lookup_alter_at o f a r :
  (∀ i, o = Some i → i ≠ r) → alter_at o f a !! r = a !! r.
Proof. destruct o as [i|]; [|done]. intros Hi. cbn. apply list_lookup_alter_ne. by apply Hi. Qed.
Lemma head_in (l : list nat) i : head l = Some i → i ∈ l.
Proof. destruct l; [done|]. intros [= ->]. left. Qed.
Lemma last_in (l : list nat) i : last l = Some i → i ∈ l.
Proof. intros [l' ->]%last_Some. apply elem_of_app. right. left. Qed.

(** ** Linking a node in as the head of a list, and taking one out *)

Definition linked_in (r : nat) (l : list nat) (a : list indexed_array_node) :=
  alter_at (head l) (λ y, y <| prev_index := Z.of_nat r |>)
    (alter (λ y, y <| prev_index := -1 |>) r
      (alter (λ y, y <| next_index := index_of (head l) |>) r a)).
Definition unlinked (l1 l2 : list nat) (a : list indexed_array_node) :=
  alter_at (last l1) (λ y, y <| next_index := hd_or (-1) l2 |>)
    (alter_at (head l2) (λ y, y <| prev_index := last_or (-1) l1 |>) a).

Lemma links_linked_in a r l :
  links a (-1) l (-1) → NoDup (r :: l) → is_Some (a !! r) →
  links (linked_in r l a) (-1) (r :: l) (-1).
Proof.
  intros Hl [Hr Hnd]%NoDup_cons [x Hx]. unfold linked_in.
  set (a2 := alter _ r _).
  assert (a2 !! r = Some (mk_inode (hd_or (-1) l) (-1))) as Ha2.
  { unfold a2. by rewrite !list_lookup_alter_eq, Hx, hd_index. }
  assert (links a2 (-1) l (-1)) as Hl2 by (by do 2 (apply links_alter; [done|])).
  destruct l as [|u us]; [done|]. apply not_elem_of_cons in Hr as [Hru Hr].
  apply NoDup_cons in Hnd as [Hu _]. cbn [head alter_at].
  split; [by rewrite list_lookup_alter_ne|]. by eapply links_prev.
Qed.
Lemma links_linked_in_other a r l p l' e :
  links a p l' e → r ∉ l' → (∀ u, u ∈ l → u ∉ l') → links (linked_in r l a) p l' e.
Proof.
  intros Hl Hr Hd. apply links_alter_at; [intros i Hi; by apply Hd, head_in|].
  by do 2 (apply links_alter; [done|]).
Qed.
Lemma links_unlinked a r l1 l2 :
  links a (-1) (l1 ++ r :: l2) (-1) → NoDup (l1 ++ r :: l2) →
  links (unlinked l1 l2 a) (-1) (l1 ++ l2) (-1).
Proof.
  intros [Hl1 [Hr Hl2]]%links_app (Hn1 & Hd & Hn2)%NoDup_app.
  apply NoDup_cons in Hn2 as [Hr2 Hn2]. unfold unlinked. apply links_app. split.
  - assert (links (alter_at (head l2) (λ y, y <| prev_index := last_or (-1) l1 |>) a)
      (-1) l1 (Z.of_nat r)) as Hl1'.
    { apply links_alter_at; [|done]. intros i Hi%head_in Hi1.
      apply (Hd i Hi1). by right. }
    destruct l1 as [|i l1] using rev_ind; [done|]. rewrite last_snoc. cbn [alter_at].
    apply NoDup_app in Hn1 as (_ & Hi & _).
    eapply links_next; [intros Hi'; by apply (Hi i Hi'); left|done].
  - apply links_alter_at.
    { intros i Hi%last_in Hi2. apply (Hd i Hi). by right. }
    destruct l2 as [|j l2]; [done|]. apply NoDup_cons in Hn2 as [Hj _].
    by eapply links_prev.
Qed.
Lemma links_unlinked_other a l1 l2 p l e :
  links a p l e → (∀ u, u ∈ l1 ++ l2 → u ∉ l) → links (unlinked l1 l2 a) p l e.
Proof.
  intros Hl Hd. unfold unlinked.
  apply links_alter_at; [intros i Hi%last_in; apply Hd, elem_of_app; by left|].
  apply links_alter_at; [intros i Hi%head_in; apply Hd, elem_of_app; by right|done].
Qed.
Lemma lookup_unlinked a r l1 l2 :
  r ∉ l1 → r ∉ l2 → unlinked l1 l2 a !! r = a !! r.
Proof.
  intros H1 H2. unfold unlinked.
  rewrite !lookup_alter_at; [done|intros i Hi%head_in ->; done|intros i Hi%last_in ->; done].
Qed.
Lemma length_linked_in r l a : length (linked_in r l a) = length a.
Proof. unfold linked_in. by rewrite length_alter_at, !length_alter. Qed.
Lemma length_unlinked l1 l2 a : length (unlinked l1 l2 a) = length a.
Proof. unfold unlinked. by rewrite !length_alter_at. Qed.

(** ** Reserving *)

Section reserve.
Context (h : indexed_array_header) (r : nat) (used : list nat).

Lemma reserve_index_some f free :
  header_wf h (r :: f :: free) used →
  ∃ h', reserve_index h = Done (Some (Z.of_nat r), h') ∧
        header_wf h' (f :: free) (r :: used).
Proof.
  intros [Hfree Hused He Hf Hp Hlen Hc].
  destruct (perm_facts _ _ 0 Hp) as [Hnd _].
  assert (∀ i, i ∈ (r :: f :: free) ++ used → (i < length (ia_array h))%nat) as Hin.
  { intros i. rewrite Hlen. by apply (perm_facts _ _ i Hp). }
  cbn in Hnd. apply NoDup_cons in Hnd as [Hr1 [Hf1 (Hnf & Hd & Hnu)%NoDup_app]%NoDup_cons].
  rewrite elem_of_cons, elem_of_app in Hr1. rewrite elem_of_app in Hf1.
  assert (is_Some (ia_array h !! r)) as Hsr.
  { eapply lookup_lt_is_Some_2, Hin, elem_of_app. left. left. }
  assert (f < length (ia_array h))%nat as Hfl by (apply Hin, elem_of_app; left; right; left).
  destruct Hfree as [Hr Hfree].
  unfold reserve_index. erewrite bind_done by done. rewrite He. cbn [hd_or].
  destruct (Z.eqb_spec (Z.of_nat r) (-1)); [lia|].
  erewrite bind_done by done. erewrite bind_done by (by apply inode_done; rewrite He).
  erewrite bind_done by done. erewrite bind_done by done. cbn -[alter alter_at].
  rewrite He, Hf, (hd_index used). cbn [hd_or].
  assert (r < length (ia_array h))%nat by (by apply lookup_lt_is_Some_1).
  do 3 (erewrite bind_done by (apply set_inode_done; cbn -[alter]; by rewrite ?length_alter)).
  erewrite bind_done; [|apply set_index_done; cbn -[alter]; rewrite !length_alter;
                         intros i Hi%head_in; apply Hin, elem_of_app; by right].
  erewrite bind_done by done. eexists; split; [done|].
  assert (links (alter (λ y, y <| prev_index := -1 |>) f (ia_array h)) (-1) (f :: free) (-1))
    as Hfree' by (eapply links_prev; [tauto|done]).
  assert (links (alter (λ y, y <| prev_index := -1 |>) f (ia_array h)) (-1) used (-1))
    as Hused' by (apply links_alter; tauto).
  split; cbn -[alter alter_at links seq].
  - apply (links_linked_in_other _ r used); [done| |].
    + rewrite elem_of_cons. tauto.
    + intros u Hu [->|Hu']%elem_of_cons; [tauto|]. by apply (Hd u).
  - apply links_linked_in; [done|apply NoDup_cons; tauto|].
    rewrite list_lookup_alter_ne; [done|]. intros ->. tauto.
  - done.
  - done.
  - etrans; [|exact Hp]. cbn -[seq]. solve_Permutation.
  - by rewrite length_alter_at, !length_alter.
  - rewrite Hc. lia.
Qed.

Lemma reserve_index_none : header_wf h [] used → reserve_index h = Done (None, h).
Proof.
  intros [_ _ He _ _ _ _]. unfold reserve_index. erewrite bind_done by done. by rewrite He.
Qed.

(** Taking the last free entry writes to [array[-1]]. *)
Lemma reserve_index_last : header_wf h [r] used → reserve_index h = Fault OutOfBounds.
Proof.
  intros [[Hr _] _ He _ _ _ _]. unfold reserve_index. erewrite bind_done by done.
  rewrite He. cbn [hd_or]. destruct (Z.eqb_spec (Z.of_nat r) (-1)); [lia|].
  erewrite bind_done by done. erewrite bind_done by (by apply inode_done; rewrite He).
  erewrite bind_done by done. by erewrite bind_done by done.
Qed.
End reserve.

(** ** Removing *)

Section remove.
Context (h : indexed_array_header) (r : nat) (free l1 l2 : list nat).

Lemma remove_request_done :
  header_wf h free (l1 ++ r :: l2) →
  ∃ h', mcapi_trans_remove_request_have_lock (Z.of_nat r) h = Done (true, h') ∧
        header_wf h' (r :: free) (l1 ++ l2).
Proof.
  intros [Hfree Hused He Hf Hp Hlen Hc].
  destruct (perm_facts _ _ 0 Hp) as [(Hnf & Hd & Hnu)%NoDup_app _].
  assert (∀ i, i ∈ free ++ l1 ++ r :: l2 → (i < length (ia_array h))%nat) as Hin.
  { intros i. rewrite Hlen. by apply (perm_facts _ _ i Hp). }
  assert (∀ i, i ∈ l1 ∨ i ∈ l2 ∨ i = r → i ∈ l1 ++ r :: l2) as Hmem.
  { intros i Hi. rewrite elem_of_app, elem_of_cons. tauto. }
  pose proof (proj1 (NoDup_app _ _) Hnu) as (Hn1 & Hd12 & [Hr2 Hn2]%NoDup_cons).
  assert (r ∉ l1) as Hr1 by (intros Hi; apply (Hd12 r Hi); left).
  assert (r < length (ia_array h))%nat as Hr by (apply Hin, elem_of_app; right; apply Hmem; tauto).
  pose proof (proj1 (links_app _ _ _ _ _) Hused) as (_ & Hrx & _).
  rewrite (hd_index l2), (last_index l1) in Hrx.
  unfold mcapi_trans_remove_request_have_lock. erewrite bind_done by done.
  rewrite Hf. assert ((hd_or (-1) (l1 ++ r :: l2) =? -1) = false) as ->.
  { apply Z.eqb_neq. destruct l1; cbn; lia. }
  set (h0 := if hd_or (-1) (l1 ++ r :: l2) =? Z.of_nat r
             then h <| full_head_index := index_of (head l2) |> else h).
  erewrite (bind_done _ _ _ tt h0).
  2:{ unfold h0. destruct (Z.eqb_spec (hd_or (-1) (l1 ++ r :: l2)) (Z.of_nat r)) as [->|]; [|done].
      erewrite bind_done by by apply inode_done. done. }
  assert (ia_array h0 = ia_array h) as Ha0 by (unfold h0; by case_match).
  assert (full_head_index h0 = hd_or (-1) (l1 ++ l2)) as Hf0.
  { unfold h0. destruct l1 as [|i l1']; cbn.
    - rewrite Z.eqb_refl. cbn. by rewrite hd_index.
    - destruct (Z.eqb_spec (Z.of_nat i) (Z.of_nat r)) as [Hir|]; [|done].
      destruct Hr1. rewrite (Nat2Z.inj _ _ Hir). left. }
  assert (empty_head_index h0 = hd_or (-1) free) as He0 by (unfold h0; by case_match).
  assert (curr_count h0 = Z.of_nat (length (l1 ++ r :: l2))) as Hc0 by (unfold h0; by case_match).
  clearbody h0.
  erewrite bind_done by (apply inode_done; rewrite Ha0; exact Hrx).
  cbn [next_index prev_index].
  erewrite bind_done; [|apply set_index_done; rewrite Ha0; intros i Hi%head_in;
                         apply Hin, elem_of_app; right; apply Hmem; tauto].
  erewrite bind_done.
  2:{ apply inode_done. cbn -[alter alter_at]. rewrite Ha0, lookup_alter_at; [exact Hrx|].
      intros i Hi%head_in ->. done. }
  cbn [next_index prev_index].
  erewrite bind_done; [|apply set_index_done; cbn -[alter alter_at]; rewrite length_alter_at, Ha0;
                         intros i Hi%last_in; apply Hin, elem_of_app; right; apply Hmem; tauto].
  erewrite bind_done by done. erewrite bind_done by done. cbn -[alter alter_at].
  do 2 (erewrite bind_done by (apply set_inode_done; cbn -[alter alter_at];
    by rewrite ?length_alter, !length_alter_at, Ha0)).
  rewrite He0, (hd_index free).
  erewrite bind_done; [|apply set_index_done; cbn -[alter alter_at];
    rewrite !length_alter, !length_alter_at, Ha0; intros i Hi%head_in;
    apply Hin, elem_of_app; by left].
  erewrite bind_done by done. eexists; split; [done|].
  assert (r ∉ free) as Hrf by (intros Hi; apply (Hd r Hi), Hmem; tauto).
  assert (∀ u, u ∈ l1 ++ l2 → u ∉ free) as Hdf.
  { intros u [?|?]%elem_of_app Hu; apply (Hd u Hu), Hmem; tauto. }
  pose proof (links_unlinked _ _ _ _ Hused Hnu) as Hused'.
  pose proof (links_unlinked_other _ l1 l2 _ _ _ Hfree Hdf) as Hfree'.
  unfold unlinked in Hused', Hfree'. rewrite (hd_index l2), (last_index l1) in Hused', Hfree'.
  split; cbn -[alter alter_at links seq]; rewrite ?Ha0.
  - apply links_linked_in; [done|by apply NoDup_cons|].
    apply lookup_lt_is_Some_2. by rewrite !length_alter_at.
  - apply (links_linked_in_other _ r free); [done| |].
    + rewrite elem_of_app. tauto.
    + intros u Hu Hu'. by apply (Hdf u Hu').
  - done.
  - done.
  - etrans; [|exact Hp]. solve_Permutation.
  - by rewrite length_alter_at, !length_alter, !length_alter_at.
  - rewrite Hc0, !length_app, length_cons. lia.
Qed.
End remove.

(** ** The initial lists *)

Lemma links_seq a p i k e :
  (∀ j, (i <= j < i + k)%nat → a !! j = Some (mk_inode
     (if (S j <? i + k)%nat then Z.of_nat (S j) else e)
     (if (j =? i)%nat then p else Z.of_nat j - 1))) →
  links a p (seq i k) e.
Proof.
  revert i p. induction k as [|k IH]; intros i p Ha; [done|]. cbn. split.
  - rewrite Ha by lia. rewrite Nat.eqb_refl. f_equal. f_equal.
    destruct k as [|k]; cbn [seq hd_or];
      [destruct (Nat.ltb_spec (S i) (i + 1))|destruct (Nat.ltb_spec (S i) (i + S (S k)))]; lia || done.
  - apply IH. intros j Hj. rewrite Ha by lia.
    replace (i + S k)%nat with (S i + k)%nat by lia. f_equal. f_equal.
    destruct (Nat.eqb_spec j i); [lia|]. destruct (Nat.eqb_spec j (S i)); [lia|done].
Qed.
Lemma init_array_lookup j :
  (j < MCAPI_MAX_REQUESTS)%nat →
  init_array !! j = Some (mk_inode
    (if (S j <? MCAPI_MAX_REQUESTS)%nat then Z.of_nat (S j) else -1)
    (if (j =? 0)%nat then -1 else Z.of_nat j - 1)).
Proof.
  intros Hj. unfold init_array.
  assert (0 < MCAPI_MAX_REQUESTS ∧ MCAPI_MAX_REQUESTS - 1 < MCAPI_MAX_REQUESTS
          ∧ MCAPI_MAX_REQUESTS = 1024)%nat as (H0 & H1 & Hm) by (unfold MCAPI_MAX_REQUESTS; lia).
  destruct (decide (j = 0%nat)) as [->|].
  { rewrite list_lookup_insert_eq; [done|].
    by rewrite length_insert, length_fmap, length_seq. }
  rewrite list_lookup_insert_ne by done.
  destruct (decide (j = MCAPI_MAX_REQUESTS - 1)%nat) as [->|].
  { rewrite list_lookup_insert_eq; [done|]. by rewrite length_fmap, length_seq. }
  rewrite list_lookup_insert_ne by done. rewrite list_lookup_fmap, lookup_seq_lt by done.
  cbn [fmap option_fmap option_map]. f_equal. f_equal.
  - destruct (Nat.ltb_spec (S j) MCAPI_MAX_REQUESTS); lia.
  - by destruct (Nat.eqb_spec j 0).
Qed.
Opaque init_array.

Lemma init_header_wf h :
  ∃ h', mcapi_trans_init_indexed_array_have_lock h = Done (tt, h') ∧
        header_wf h' (seq 0 MCAPI_MAX_REQUESTS) [].
Proof.
  exists (h <| curr_count := 0 |> <| max_count := Z.of_nat MCAPI_MAX_REQUESTS |>
    <| empty_head_index := 0 |> <| full_head_index := -1 |> <| ia_array := init_array |>).
  split; [done|]. split.
  - apply links_seq. intros j Hj. apply init_array_lookup. lia.
  - exact I.
  - reflexivity.
  - reflexivity.
  - by rewrite app_nil_r.
  - change (length init_array = MCAPI_MAX_REQUESTS).
    Transparent init_array. unfold init_array.
    by rewrite !length_insert, length_fmap, length_seq.
  - reflexivity.
Qed.
