(* ===== verification/McapiRing.v ===== *)
(** The receive queue as a ring: its entries read from the head on, and the
    effect of the loops on them. *)

From S2P Require Import Prelude Bytes McapiTypes McapiQueue.

#[local] Abbreviation N := MCAPI_MAX_QUEUE_ENTRIES (only parsing).

(** ** Indices *)

Lemma ring_entries : MCAPI_MAX_QUEUE_ENTRIES = 65%nat.
Proof. reflexivity. Qed.
#[local] Opaque MCAPI_MAX_QUEUE_ENTRIES.

Lemma ring_index_lt h j : (ring_index h j < N)%nat.
Proof. apply Nat.mod_upper_bound. by rewrite ring_entries. Qed.
Lemma ring_index_small h j :
  (h < N)%nat → (j < N)%nat →
  ring_index h j = if (h + j <? N)%nat then (h + j)%nat else (h + j - N)%nat.
Proof.
  unfold ring_index. rewrite ring_entries. intros Hh Hj.
  destruct (Nat.ltb_spec (h + j) 65); [by apply Nat.mod_small|].
  replace (h + j)%nat with ((h + j - 65) + 1 * 65)%nat at 1 by lia.
  rewrite Nat.Div0.mod_add. apply Nat.mod_small. lia.
Qed.
Lemma ring_index_inj h i j :
  (h < N)%nat → (i < N)%nat → (j < N)%nat → ring_index h i = ring_index h j → i = j.
Proof.
  intros Hh Hi Hj. rewrite !ring_index_small by done.
  destruct (Nat.ltb_spec (h + i) N), (Nat.ltb_spec (h + j) N); lia.
Qed.
Lemma ring_index_twice h i j : ring_index (ring_index h i) j = ring_index h (i + j).
Proof.
  unfold ring_index. rewrite Nat.Div0.add_mod_idemp_l. f_equal. lia.
Qed.
Lemma ring_index_full h j : ring_index h (N + j) = ring_index h j.
Proof.
  unfold ring_index. replace (h + (N + j))%nat with ((h + j) + 1 * N)%nat by lia.
  apply Nat.Div0.mod_add.
Qed.
Lemma ring_index_0 h : (h < N)%nat → ring_index h 0 = h.
Proof. intros Hh. unfold ring_index. rewrite Nat.add_0_r. by apply Nat.mod_small. Qed.

(** ** The entries from the head on *)

Record ring_wf (q : queue) : Prop := {
  rw_length : length (q_elements q) = S N;
  rw_head : (q_head q < N)%nat }.

Definition rot (q : queue) : list buffer_descriptor :=
  let l := take N (q_elements q) in drop (q_head q) l ++ take (q_head q) l.

Section rot.
Context (q : queue) (Hq : ring_wf q).

Lemma length_rot : length (rot q) = N.
Proof using Hq.
  destruct Hq. unfold rot. rewrite length_app, length_drop, !length_take. lia.
Qed.
Lemma lookup_rot j : (j < N)%nat → rot q !! j = q_elements q !! ring_index (q_head q) j.
Proof using Hq.
  destruct Hq as [Hl Hh]. intros Hj. unfold rot. rewrite ring_index_small by done.
  destruct (Nat.ltb_spec (q_head q + j) N).
  - rewrite lookup_app_l by (rewrite length_drop, length_take; lia).
    by rewrite lookup_drop, lookup_take_lt by lia.
  - rewrite lookup_app_r by (rewrite length_drop, length_take; lia).
    rewrite length_drop, length_take, !lookup_take_lt by lia. f_equal. lia.
Qed.
Lemma get_element_rot j x :
  (j < N)%nat → rot q !! j = Some x → get_element q (ring_index (q_head q) j) = Done x.
Proof using Hq. intros Hj. rewrite lookup_rot by done. unfold get_element. by intros ->. Qed.

Lemma upd_element_wf i f : ring_wf (upd_element i f q).
Proof using Hq. destruct Hq. by split; [cbn; rewrite length_alter|]. Qed.
End rot.

Lemma rot_eq q l :
  ring_wf q → length l = N →
  (∀ j, (j < N)%nat → q_elements q !! ring_index (q_head q) j = l !! j) → rot q = l.
Proof.
  intros Hq Hl Hj. apply list_eq. intros j. destruct (decide (j < N)%nat).
  - by rewrite lookup_rot, Hj.
  - rewrite !lookup_ge_None_2; [done|lia|rewrite length_rot; [lia|done]].
Qed.

Lemma rot_upd q j f :
  ring_wf q → (j < N)%nat →
  rot (upd_element (ring_index (q_head q) j) f q) = alter f j (rot q).
Proof.
  intros Hq Hj. apply rot_eq; [by apply upd_element_wf|rewrite length_alter; by apply length_rot|].
  intros i Hi. cbn. destruct (decide (i = j)) as [->|].
  - by rewrite !list_lookup_alter_eq, lookup_rot.
  - rewrite !list_lookup_alter_ne; [by rewrite lookup_rot|done|].
    intros Heq%ring_index_inj; [done|by destruct Hq|done..].
Qed.

(** Advancing the head moves the first entry to the end. *)
Definition advance (q : queue) : queue := q <| q_head := ring_index (q_head q) 1 |>.
Lemma advance_wf q : ring_wf q → ring_wf (advance q).
Proof. intros [??]. split; [done|apply ring_index_lt]. Qed.
Lemma rot_advance q x l : ring_wf q → rot q = x :: l → rot (advance q) = l ++ [x].
Proof.
  intros Hq Hr. pose proof (length_rot q Hq) as Hlen. rewrite Hr in Hlen. cbn in Hlen.
  apply rot_eq; [by apply advance_wf|rewrite length_app; cbn; lia|].
  intros j Hj. cbn. rewrite ring_index_twice. destruct (decide (S j < N)%nat).
  - rewrite <- lookup_rot by done. rewrite Hr. cbn. by rewrite lookup_app_l by lia.
  - replace (1 + j)%nat with (N + 0)%nat by lia. rewrite ring_index_full.
    rewrite <- lookup_rot by (done || (rewrite ring_entries; lia)).
    rewrite Hr. rewrite lookup_app_r by lia. by replace (j - length l)%nat with 0%nat by lia.
Qed.

(** ** Walking from the head *)

Lemma walk_spec p q k i :
  ring_wf q → (i + k <= N)%nat →
  match walk p q k i with
  | Done (Some x) => ∃ j e, x = ring_index (q_head q) j ∧ (i <= j < i + k)%nat ∧
      rot q !! j = Some e ∧ p e = true ∧
      ∀ m e', (i <= m < j)%nat → rot q !! m = Some e' → p e' = false
  | Done None => ∀ m e', (i <= m < i + k)%nat → rot q !! m = Some e' → p e' = false
  | Fault _ => False
  end.
Proof.
  intros Hq. revert i. induction k as [|k IH]; intros i Hi; cbn; [lia|].
  destruct (lookup_lt_is_Some_2 (rot q) i) as [e He]; [rewrite length_rot by done; lia|].
  rewrite (get_element_rot q Hq i e) by (done || lia). destruct (p e) eqn:Hp.
  - exists i, e. repeat split; try done; lia.
  - specialize (IH (S i)).
    destruct (walk p q k (S i)) as [[x|]|]; [| |by apply IH; lia].
    + destruct IH as (j & e1 & -> & Hj & He1 & Hp1 & Hm); [lia|].
      exists j, e1. repeat split; try done; [lia|lia|].
      intros m e' Hm1 He'. destruct (decide (m = i)) as [->|]; [congruence|].
      apply (Hm m); [lia|done].
    + intros m e' Hm1 He'. destruct (decide (m = i)) as [->|]; [congruence|].
      apply (IH ltac:(lia) m); [lia|done].
Qed.

(** The first entry that satisfies the test, when the ring is split there. *)
Lemma walk_first p q l1 x l2 :
  ring_wf q → rot q = l1 ++ x :: l2 → p x = true → Forall (λ e, p e = false) l1 →
  walk p q N 0 = Done (Some (ring_index (q_head q) (length l1))).
Proof.
  intros Hq Hr Hp Hl1. pose proof (walk_spec p q N 0 Hq ltac:(lia)) as Hw.
  assert (rot q !! length l1 = Some x) as Hx.
  { rewrite Hr. by rewrite lookup_app_r, Nat.sub_diag by lia. }
  assert (length l1 < N)%nat as Hlt.
  { rewrite <- (length_rot q Hq). by eapply lookup_lt_Some. }
  rewrite Forall_lookup in Hl1.
  destruct (walk p q N 0) as [[i|]|]; [| |done].
  - destruct Hw as (j & e & -> & Hj & He & Hpe & Hm). do 3 f_equal.
    destruct (lt_eq_lt_dec j (length l1)) as [[Hlt'| ->]|Hgt]; [|done|].
    + rewrite Hr, lookup_app_l in He by done. by rewrite (Hl1 _ _ He) in Hpe.
    + by rewrite (Hm (length l1) x) in Hp by (done || lia).
  - by rewrite (Hw (length l1) x) in Hp by (done || lia).
Qed.
Lemma walk_none p q :
  ring_wf q → Forall (λ e, p e = false) (rot q) → walk p q N 0 = Done None.
Proof.
  intros Hq Hf. pose proof (walk_spec p q N 0 Hq ltac:(lia)) as Hw.
  rewrite Forall_lookup in Hf. destruct (walk p q N 0) as [[i|]|]; [|done|done].
  destruct Hw as (j & e & -> & Hj & He & Hpe & _). by rewrite (Hf j e He) in Hpe.
Qed.

(** ** Slots, and compaction *)

(** An entry between head and tail holds the buffer [b], reserved by the
    request [r] (0: none), or is a bubble; after the tail come entries
    reserved by waiting requests, and blank ones. *)
Inductive slot := Live (r b : Z) | Bubble.
Definition enc (s : slot) : buffer_descriptor :=
  match s with Live r b => mk_desc r b false | Bubble => mk_desc 0 0 true end.
Definition waiting (r : Z) : buffer_descriptor := mk_desc r 0 false.
Definition slot_ok (s : slot) : Prop := match s with Live _ b => b ≠ 0 | Bubble => True end.
Definition is_live (s : slot) : bool := match s with Live _ _ => true | Bubble => false end.
(** Nobody has reserved it. *)
Definition is_loose (s : slot) : bool := match s with Live r _ => r =? 0 | Bubble => false end.
Fixpoint trim (ws : list slot) : list slot :=
  match ws with Bubble :: ws' => trim ws' | _ => ws end.

(** What the queue operations leave alone. *)
Record same_channel (q q' : queue) : Prop := {
  sc_send : q_send_endpt q' = q_send_endpt q;
  sc_recv : q_recv_endpt q' = q_recv_endpt q;
  sc_type : q_channel_type q' = q_channel_type q }.
#[export] Instance same_channel_refl : Reflexive same_channel.
Proof. by split. Qed.
#[export] Instance same_channel_trans : Transitive same_channel.
Proof. intros q1 q2 q3 [] []. split; congruence. Qed.

Record compacted (q q' : queue) (ws : list slot) (X : list buffer_descriptor) : Prop := {
  co_wf : ring_wf q';
  co_rot : rot q' = (enc <$> trim ws) ++ X ++
             replicate (length ws - length (trim ws)) zero_desc;
  co_head : q_head q' = ring_index (q_head q) (length ws - length (trim ws));
  co_tail : q_tail q' = q_tail q;
  co_num : q_num_elements q' = q_num_elements q;
  co_channel : same_channel q q' }.

Lemma trim_length ws : (length (trim ws) <= length ws)%nat.
Proof. induction ws as [|[|] ws IH]; cbn; lia. Qed.
Lemma trim_live ws s : is_live s = true → trim (s :: ws) = s :: ws.
Proof. by destruct s. Qed.

Lemma tail_not_head q n :
  ring_wf q → (0 < n < N)%nat → q_head q ≠ ring_index (q_head q) n.
Proof.
  intros Hq Hn Heq. rewrite <- (ring_index_0 (q_head q)) in Heq at 1 by by destruct Hq.
  apply ring_index_inj in Heq; [lia|by destruct Hq|lia|lia].
Qed.

Lemma compact_loop_spec q ws X fuel :
  ring_wf q → Forall slot_ok ws → rot q = (enc <$> ws) ++ X →
  q_tail q = ring_index (q_head q) (length ws) → (length ws < N)%nat →
  (length ws < fuel)%nat →
  ∃ q', compact_loop fuel q = Done q' ∧ compacted q q' ws X.
Proof.
  revert q X fuel. induction ws as [|s ws IH]; intros q X fuel Hq Hok Hr Ht Hlen Hfuel;
    (destruct fuel as [|fuel]; [lia|]); cbn [compact_loop]; rewrite ring_index_0 by by destruct Hq.
  - cbn in Ht. rewrite ring_index_0 in Ht by by destruct Hq. rewrite <- Ht, Nat.eqb_refl.
    exists q. split; [done|]. split; try done; cbn; [by rewrite app_nil_r|].
    by rewrite ring_index_0 by by destruct Hq.
  - destruct (Nat.eqb_spec (q_head q) (q_tail q)) as [Heq|_].
    { rewrite Ht in Heq. by apply tail_not_head in Heq; [|done|cbn in *; lia]. }
    assert (get_element q (q_head q) = Done (enc s)) as Hg.
    { rewrite <- (ring_index_0 (q_head q)) by by destruct Hq.
      apply get_element_rot; [done|lia|by rewrite Hr]. }
    rewrite Hg. apply Forall_cons in Hok as [Hs Hok]. destruct s as [r b|]; cbn.
    + destruct (Z.eqb_spec b 0); [done|]. rewrite orb_true_r.
      exists q. split; [done|]. split; try done; cbn; rewrite Nat.sub_diag; cbn.
      * by rewrite app_nil_r.
      * by rewrite ring_index_0 by by destruct Hq.
    + set (q1 := upd_element (q_head q) (λ x, x <| bd_invalid := false |>) q).
      assert (rot q1 = zero_desc :: (enc <$> ws) ++ X) as Hr1.
      { unfold q1. rewrite <- (ring_index_0 (q_head q)) by by destruct Hq.
        rewrite rot_upd by (done || (rewrite ring_entries; lia)). by rewrite Hr. }
      assert (ring_wf q1) as Hq1 by by apply upd_element_wf.
      destruct (IH (advance q1) (X ++ [zero_desc]) fuel) as (q' & Hq' & [Hwf Hrot Hh Htl Hn Hc]).
      * by apply advance_wf.
      * done.
      * rewrite (rot_advance _ _ _ Hq1 Hr1). by rewrite <- app_assoc.
      * cbn. rewrite Ht, ring_index_twice. f_equal.
      * cbn in Hlen. lia.
      * cbn in Hfuel. lia.
      * exists q'. split; [done|].
        assert (S (length ws) - length (trim ws) = S (length ws - length (trim ws)))%nat as Hs'.
        { pose proof (trim_length ws). lia. }
        split; cbn [trim length]; try rewrite Hs'; try done.
        -- rewrite Hrot. cbn. by rewrite <- app_assoc.
        -- rewrite Hh. cbn. rewrite ring_index_twice. f_equal; lia.
        -- etrans; [|exact Hc]. by split.
Qed.
