(* ===== verification/McapiQueueSpec.v ===== *)
(** What each queue operation does to the slots of the ring, those of waiting
    requests included. *)

From S2P Require Import Prelude Bytes McapiTypes McapiQueue McapiRing.

#[local] Abbreviation N := MCAPI_MAX_QUEUE_ENTRIES (only parsing).
#[local] Opaque MCAPI_MAX_QUEUE_ENTRIES.

(** The queue [q] holds the slots [ws] between head and tail, and the
    requests [rs] wait for the next messages. *)
Record ring (q : queue) (ws : list slot) (rs : list Z) : Prop := {
  rg_wf : ring_wf q;
  rg_ok : Forall slot_ok ws;
  rg_reqs : Forall (λ r, r ≠ 0) rs;
  rg_rot : ∃ k, rot q = (enc <$> ws) ++ (waiting <$> rs) ++ replicate k zero_desc;
  rg_tail : q_tail q = ring_index (q_head q) (length ws);
  rg_len : (length ws < N)%nat;
  rg_front : trim ws = ws;
  rg_num : q_num_elements q = countb is_live ws }.

Lemma ring_zero : ring zero_queue [] [].
Proof.
  assert (ring_wf zero_queue) as Hq.
  { split; cbn [zero_queue q_elements q_head]; [apply length_replicate|rewrite ring_entries; lia]. }
  split; try done; cbn [length].
  - exists MCAPI_MAX_QUEUE_ENTRIES. unfold rot, zero_queue. cbn [q_elements q_head].
    rewrite take_replicate, drop_0, take_0, app_nil_r. cbn. f_equal.
  - rewrite ring_entries. lia.
Qed.

Lemma trim_trim ws : trim (trim ws) = trim ws.
Proof. by induction ws as [|[|] ws IH]. Qed.
Lemma trim_ok ws : Forall slot_ok ws → Forall slot_ok (trim ws).
Proof. induction ws as [|[|] ws IH]; [done..|]. intros [_ H]%Forall_cons. by apply IH. Qed.
Lemma countb_trim ws : countb is_live (trim ws) = countb is_live ws.
Proof. induction ws as [|[|] ws IH]; [done..|]. rewrite countb_cons. cbn. by rewrite IH. Qed.
Lemma countb_live_bound ws : (length ws < N)%nat → 0 <= countb is_live ws < 65.
Proof.
  rewrite ring_entries. pose proof (countb_le_length is_live ws).
  pose proof (countb_nonneg is_live ws). lia.
Qed.

(** ** Compaction *)

Section compact.
Context (q : queue) (ws : list slot) (X : list buffer_descriptor).
Context (Hq : ring_wf q) (Hok : Forall slot_ok ws) (Hr : rot q = (enc <$> ws) ++ X).
Context (Ht : q_tail q = ring_index (q_head q) (length ws)) (Hlen : (length ws < N)%nat).

Lemma compacted_tail q' :
  compacted q q' ws X → q_tail q' = ring_index (q_head q') (length (trim ws)).
Proof using Ht Hlen.
  intros [_ _ Hh Htl _ _]. pose proof (trim_length ws).
  rewrite Hh, Htl, Ht, ring_index_twice. f_equal. lia.
Qed.
Lemma compact_queue_spec :
  q_num_elements q = countb is_live ws →
  ∃ q', mcapi_trans_compact_queue q = Done (tt, q') ∧ compacted q q' ws X.
Proof using All.
  intros Hn. unfold mcapi_trans_compact_queue.
  destruct (compact_loop_spec q ws X (S N)) as (q' & -> & Hc); try done; [lia|].
  exists q'. split; [|done]. destruct (Z.ltb_spec 0 (q_num_elements q')) as [Hpos|]; [|done].
  destruct (Nat.eqb_spec (q_head q') (q_tail q')) as [Heq|]; [|done].
  rewrite (compacted_tail q' Hc) in Heq. pose proof (trim_length ws).
  apply tail_not_head in Heq; [done|by destruct Hc|].
  destruct Hc as [_ _ _ _ Hnum _]. rewrite Hnum, Hn, <- countb_trim in Hpos.
  destruct (trim ws) eqn:E; [by rewrite countb_nil in Hpos|]. cbn in *. lia.
Qed.
End compact.

(** After compaction the ring is normal again, whatever follows the slots. *)
Lemma ring_compacted q q' ws rs k :
  compacted q q' ws ((waiting <$> rs) ++ replicate k zero_desc) →
  Forall slot_ok ws → Forall (λ r, r ≠ 0) rs → (length ws < N)%nat →
  q_tail q = ring_index (q_head q) (length ws) →
  q_num_elements q = countb is_live ws → ring q' (trim ws) rs.
Proof.
  intros Hc Hok Hrs Hlen Ht Hn. pose proof (trim_length ws).
  pose proof (compacted_tail q ws _ Ht Hlen q' Hc) as Ht'. destruct Hc as [Hwf Hrot _ _ Hnum _].
  split; try done.
  - by apply trim_ok.
  - exists (k + (length ws - length (trim ws)))%nat. rewrite Hrot, <- app_assoc.
    by rewrite replicate_add.
  - lia.
  - apply trim_trim.
  - by rewrite countb_trim, Hnum.
Qed.

Lemma trim_id ws : trim ws = ws → ∀ q q' X,
  compacted q q' ws X → ring_wf q → rot q' = (enc <$> ws) ++ X ∧ q_head q' = q_head q.
Proof.
  intros Htrim q q' X [_ Hrot Hh _ _ _] Hq. rewrite Htrim, Nat.sub_diag in *.
  rewrite app_nil_r in Hrot. split; [done|]. by rewrite Hh, ring_index_0 by by destruct Hq.
Qed.

(** ** Full and empty *)

Lemma full_queue_spec q ws rs :
  ring q ws rs → mcapi_trans_full_queue q = bool_decide (length ws = MCAPI_MAX_QUEUE_ELEMENTS).
Proof.
  intros [Hwf _ _ _ Ht Hl _ _]. unfold mcapi_trans_full_queue.
  rewrite Ht, ring_index_twice. rewrite ring_entries in Hl. unfold MCAPI_MAX_QUEUE_ELEMENTS.
  destruct (bool_decide_reflect (length ws = 64%nat)) as [->|Hne].
  - replace (64 + 1)%nat with (N + 0)%nat by (rewrite ring_entries; lia).
    rewrite ring_index_full, ring_index_0 by by destruct Hwf. by rewrite Nat.eqb_refl.
  - apply Nat.eqb_neq. apply not_eq_sym, tail_not_head; [done|]. rewrite ring_entries. lia.
Qed.

Lemma unclaimed_enc s : slot_ok s → unclaimed (enc s) = is_loose s.
Proof.
  destruct s as [r b|]; [|done]. cbn. unfold unclaimed. cbn. intros Hb.
  destruct (Z.eqb_spec b 0); [done|]. by rewrite andb_true_r.
Qed.
Lemma unclaimed_rest rs k :
  Forall (λ e, unclaimed e = false) ((waiting <$> rs) ++ replicate k zero_desc).
Proof.
  apply Forall_app. split; [|by apply Forall_replicate].
  apply Forall_fmap, Forall_true. intros r. unfold unclaimed. cbn. apply andb_false_r.
Qed.
Lemma unclaimed_slots ws :
  Forall slot_ok ws → Forall (λ s, is_loose s = false) ws →
  Forall (λ e, unclaimed e = false) (enc <$> ws).
Proof.
  intros Hok Hf. apply Forall_fmap. induction Hok as [|s ws Hs Hok IH]; [done|].
  apply Forall_cons in Hf as [Hl Hf]. constructor; [cbn; by rewrite unclaimed_enc|by apply IH].
Qed.

Lemma empty_queue_spec q ws rs :
  ring q ws rs → mcapi_trans_empty_queue q = Done (negb (existsb is_loose ws)).
Proof.
  intros [Hwf Hok Hrs [k Hr] Ht Hl Hf Hn]. unfold mcapi_trans_empty_queue.
  destruct ws as [|s0 ws].
  { rewrite Ht. cbn. rewrite ring_index_0 by by destruct Hwf. by rewrite Nat.eqb_refl. }
  destruct (Nat.eqb_spec (q_head q) (q_tail q)) as [Heq|_].
  { rewrite Ht in Heq. apply tail_not_head in Heq; [done..|cbn in *; lia]. }
  remember (s0 :: ws) as ws' eqn:Hws. clear Hws s0 ws.
  destruct (list_find (λ s, is_loose s = true) ws') as [[j s]|] eqn:Hfind.
  - apply list_find_Some in Hfind as (Hs & Hloose & Hbefore).
    rewrite <- (take_drop_middle ws' j s Hs) in Hr, Hok. rewrite fmap_app, fmap_cons, <- app_assoc in Hr.
    apply Forall_app in Hok as [Hok1 [Hoks Hok2]%Forall_cons].
    rewrite (walk_first _ _ _ _ _ Hwf Hr).
    + assert (existsb is_loose ws' = true) as -> by (apply existsb_exists; exists s;
        split; [by apply list_elem_of_In; eapply list_elem_of_lookup_2|done]). done.
    + by rewrite unclaimed_enc.
    + apply unclaimed_slots; [done|]. apply Forall_lookup. intros i x Hx.
      pose proof (lookup_lt_Some _ _ _ Hx) as Hi. rewrite length_take in Hi.
      rewrite lookup_take_lt in Hx by lia. specialize (Hbefore i x Hx ltac:(lia)).
      by destruct (is_loose x).
  - apply list_find_None in Hfind.
    assert (Forall (λ s, is_loose s = false) ws') as Hnone.
    { eapply Forall_impl; [exact Hfind|]. intros s. cbn. by destruct (is_loose s). }
    rewrite walk_none; [|done|].
    + assert (existsb is_loose ws' = false) as ->; [|done].
      apply not_true_is_false. intros (s & Hs%list_elem_of_In & Hl')%existsb_exists.
      rewrite Forall_forall in Hnone. by rewrite (Hnone s Hs) in Hl'.
    + rewrite Hr. apply Forall_app. split; [by apply unclaimed_slots|apply unclaimed_rest].
Qed.

(** ** Push *)

(** The sender's two steps: take the tail entry, then store the buffer. *)
Definition with_buffer (i : nat) (b : Z) (q : queue) : queue :=
  upd_element i (λ x, x <| bd_buff_index := b |>) q.

Lemma push_queue_spec q ws rs b :
  ring q ws rs → length ws ≠ MCAPI_MAX_QUEUE_ELEMENTS → b ≠ 0 →
  ∃ q', mcapi_trans_push_queue q = Done (q_tail q, q') ∧ same_channel q q' ∧
    ring (with_buffer (q_tail q) b q') (ws ++ [Live (default 0 (head rs)) b]) (tail rs).
Proof.
  intros Hring Hl64 Hb. pose proof (full_queue_spec _ _ _ Hring) as Hfull.
  destruct Hring as [Hwf Hok Hrs [k Hr] Ht Hl Hf Hn].
  rewrite bool_decide_eq_false_2 in Hfull by done.
  assert (length ws < 64)%nat as Hlt.
  { rewrite ring_entries in Hl. unfold MCAPI_MAX_QUEUE_ELEMENTS in Hl64. lia. }
  pose proof (countb_live_bound ws Hl) as Hcb.
  set (q1 := q <| q_num_elements ::= λ k, u32 (k + 1) |>
               <| q_tail := ring_index (q_tail q) 1 |>).
  assert (ring_wf q1) as Hwf1 by by destruct Hwf.
  assert (q_tail q1 = ring_index (q_head q1) (length ws + 1)) as Ht1.
  { cbn. by rewrite Ht, ring_index_twice. }
  assert (mcapi_trans_push_queue q = if (q_head q1 =? q_tail q1)%nat then Fault AssertFailed
                                     else Done (q_tail q, q1)) as ->.
  { unfold mcapi_trans_push_queue. unfold mcapi_trans_full_queue in Hfull. by rewrite Hfull. }
  rewrite Ht1. destruct (Nat.eqb_spec (q_head q1) (ring_index (q_head q1) (length ws + 1)))
    as [Heq|_].
  { apply tail_not_head in Heq; [done..|rewrite ring_entries; lia]. }
  exists q1. split; [done|]. split; [by split|].
  assert (rot (with_buffer (q_tail q) b q1) =
    (enc <$> (ws ++ [Live (default 0 (head rs)) b])) ++ (waiting <$> tail rs)
    ++ replicate (match rs with [] => pred k | _ => k end) zero_desc) as Hrot.
  { unfold with_buffer. rewrite Ht. change (q_head q) with (q_head q1).
    rewrite rot_upd by (done || (rewrite ring_entries; lia)).
    change (rot q1) with (rot q). rewrite Hr.
    rewrite <- (length_fmap enc ws), <- (Nat.add_0_r (length (enc <$> ws))), alter_app_r.
    rewrite fmap_app, <- app_assoc. f_equal. destruct rs as [|r rs]; [|done]. cbn.
    destruct k; [|done]. pose proof (length_rot q Hwf) as Hlr.
    rewrite Hr, length_app, length_fmap, ring_entries in Hlr. cbn in Hlr. lia. }
  split; try done.
  - by apply upd_element_wf.
  - apply Forall_app. split; [done|]. by repeat constructor.
  - destruct rs; [done|]. by inv Hrs.
  - eauto.
  - rewrite length_app. exact Ht1.
  - rewrite length_app, ring_entries. cbn. lia.
  - destruct ws as [|[|] ws]; try done. cbn in Hf. pose proof (trim_length ws).
    rewrite Hf in H. cbn in H. lia.
  - rewrite countb_app, countb_cons, countb_nil. cbn. rewrite Hn, u32_small by lia. lia.
Qed.

(** ** Removing an entry *)

Lemma with_buffer_same i b q : same_channel q (with_buffer i b q).
Proof. by split. Qed.

(** The entry at offset [length l1], in the terms of the ring. *)
Lemma rot_upd_mid q l1 x l2 f n :
  ring_wf q → n = length l1 → rot q = l1 ++ x :: l2 →
  rot (upd_element (ring_index (q_head q) n) f q) = l1 ++ f x :: l2.
Proof.
  intros Hwf -> Hr. rewrite rot_upd; [|done|].
  - rewrite Hr, <- (Nat.add_0_r (length l1)), alter_app_r. done.
  - rewrite <- (length_rot q Hwf), Hr, length_app. cbn. lia.
Qed.
Lemma rot_mid q l1 s l2 rs k :
  rot q = (enc <$> (l1 ++ s :: l2)) ++ (waiting <$> rs) ++ replicate k zero_desc →
  rot q = (enc <$> l1) ++ enc s :: (enc <$> l2) ++ (waiting <$> rs) ++ replicate k zero_desc.
Proof. by rewrite fmap_app, fmap_cons, <- app_assoc. Qed.

Lemma countb_bubble l1 r b l2 :
  countb is_live (l1 ++ Live r b :: l2) = countb is_live (l1 ++ Bubble :: l2) + 1.
Proof. rewrite !countb_app, !countb_cons. cbn. lia. Qed.
Lemma slots_bubble l1 r b l2 :
  Forall slot_ok (l1 ++ Live r b :: l2) → b ≠ 0 ∧ Forall slot_ok (l1 ++ Bubble :: l2).
Proof.
  intros [H1 [Hb H2]%Forall_cons]%Forall_app. split; [done|].
  apply Forall_app. split; [done|]. by constructor.
Qed.

Section remove.
Context (q : queue) (l1 : list slot) (r b : Z) (l2 : list slot) (rs : list Z).
Context (Hring : ring q (l1 ++ Live r b :: l2) rs).

Let i := ring_index (q_head q) (length l1).

(** A receive that had reserved the entry takes its buffer. *)
Lemma remove_entry_spec :
  ∃ q', remove_entry i (with_buffer i 0 (upd_element i (λ e, e <| bd_request := 0 |>) q))
        = Done (tt, q') ∧ same_channel q q' ∧ ring q' (trim (l1 ++ Bubble :: l2)) rs.
Proof using All.
  destruct Hring as [Hwf Hok Hrs [k Hr%rot_mid] Ht Hl Hf Hn].
  destruct (slots_bubble _ _ _ _ Hok) as [Hb Hok'].
  pose proof (countb_live_bound _ Hl) as Hcb. rewrite countb_bubble in Hn, Hcb.
  unfold remove_entry.
  set (q1 := upd_element i (λ e, e <| bd_request := 0 |>) q).
  set (q2 := with_buffer i 0 q1). set (q3 := upd_element i _ _).
  assert (length l1 = length (enc <$> l1)) as Hi by by rewrite length_fmap.
  assert (rot q1 = (enc <$> l1) ++ mk_desc 0 b false :: (enc <$> l2)
                   ++ (waiting <$> rs) ++ replicate k zero_desc) as Hr1
    by (exact (rot_upd_mid q _ _ _ (λ e, e <| bd_request := 0 |>) _ Hwf Hi Hr)).
  assert (ring_wf q1) as Hwf1 by by apply upd_element_wf.
  pose proof (rot_upd_mid q1 _ _ _ (λ x, x <| bd_buff_index := 0 |>) _ Hwf1 Hi Hr1) as Hr2.
  assert (ring_wf q2) as Hwf2 by by apply upd_element_wf.
  pose proof (rot_upd_mid (q2 <| q_num_elements ::= λ k, u32 (k - 1) |>) _ _ _
                (λ x, x <| bd_invalid := true |>) _ ltac:(by destruct Hwf2) Hi Hr2) as Hr3.
  assert (ring_wf q3) as Hwf3 by (apply upd_element_wf; by destruct Hwf2).
  assert (rot q3 = (enc <$> (l1 ++ Bubble :: l2)) ++ (waiting <$> rs) ++ replicate k zero_desc)
    as Hr3' by (etrans; [exact Hr3|]; by rewrite fmap_app, fmap_cons, <- app_assoc).
  assert (length (l1 ++ Bubble :: l2) = length (l1 ++ Live r b :: l2)) as Hlen
    by by rewrite !length_app.
  rewrite <- Hlen in Ht, Hl.
  assert (q_num_elements q3 = countb is_live (l1 ++ Bubble :: l2)) as Hn3.
  { transitivity (u32 (q_num_elements q - 1)); [done|]. rewrite Hn, u32_small; pose proof (countb_nonneg is_live l2);
      pose proof (countb_nonneg is_live (l1 ++ Bubble :: l2)); lia. }
  destruct (compact_queue_spec q3 _ _ Hwf3 Hok' Hr3' Ht Hl Hn3) as (q' & Hq' & Hc).
  exists q'. split; [done|]. split; [|by eapply ring_compacted].
  etrans; [|by destruct Hc]. by split.
Qed.
End remove.

(** An arriving receive pops the first entry nobody has reserved. *)
Lemma compact_noop q s l X :
  ring_wf q → q_head q ≠ q_tail q → rot q = enc s :: l → is_live s = true → slot_ok s →
  X = l → mcapi_trans_compact_queue q = Done (tt, q).
Proof.
  intros Hwf Hne Hr Hs Hok _. unfold mcapi_trans_compact_queue. cbn [compact_loop].
  rewrite ring_index_0 by by destruct Hwf. apply Nat.eqb_neq in Hne. rewrite Hne.
  assert (get_element q (q_head q) = Done (enc s)) as ->.
  { rewrite <- (ring_index_0 (q_head q)) by by destruct Hwf.
    apply get_element_rot; [done|rewrite ring_entries; lia|by rewrite Hr]. }
  destruct s as [r b|]; [|done]. cbn. destruct (Z.eqb_spec b 0); [done|].
  rewrite orb_true_r. by rewrite Hne, andb_false_r.
Qed.

Section pop.
Context (q : queue) (l1 : list slot) (b : Z) (l2 : list slot) (rs : list Z).
Context (Hring : ring q (l1 ++ Live 0 b :: l2) rs).
Context (Hfirst : Forall (λ s, is_loose s = false) l1).

Let i := ring_index (q_head q) (length l1).

Lemma pop_walk :
  q_head q ≠ q_tail q ∧ walk unclaimed q N 0 = Done (Some i) ∧ (i = q_head q ↔ l1 = []).
Proof using All.
  destruct Hring as [Hwf Hok Hrs [k Hr%rot_mid] Ht Hl Hf Hn].
  rewrite length_app in Hl, Ht. cbn [length] in Hl, Ht. split; [|split].
  - rewrite Ht. apply tail_not_head; [done|lia].
  - apply Forall_app in Hok as [Hok1 [Hb _]%Forall_cons].
    unfold i. rewrite <- (length_fmap enc l1). eapply walk_first; [done|done| |].
    + by rewrite (unclaimed_enc (Live 0 b)).
    + by apply unclaimed_slots.
  - split; [|intros ->; by apply ring_index_0; destruct Hwf].
    intros Hi. destruct l1; [done|]. symmetry in Hi. apply tail_not_head in Hi; [done..|].
    cbn in *. lia.
Qed.

(** At the head: the head advances, past the bubbles that follow. *)
Lemma pop_head_spec :
  l1 = [] →
  ∃ q' x, mcapi_trans_pop_queue q = Done (i, q') ∧ same_channel q q' ∧
    get_element q' i = Done x ∧ bd_buff_index x = b ∧ ring (with_buffer i 0 q') (trim l2) rs.
Proof using All.
  intros Hl1. destruct pop_walk as (Hne & Hw & [_ Hhead]). specialize (Hhead Hl1).
  destruct Hring as [Hwf Hok Hrs [k Hr] Ht Hl Hf Hn]. clear Hring.
  unfold mcapi_trans_pop_queue. apply Nat.eqb_neq in Hne. rewrite Hne, Hw, Hhead, Nat.eqb_refl.
  pose proof (countb_live_bound _ Hl) as Hcb. rewrite countb_bubble in Hn, Hcb. subst l1.
  cbn [app] in *. rewrite countb_cons in Hn, Hcb. cbn -[countb] in Hn, Hcb.
  apply Forall_cons in Hok as [Hb Hok].
  set (q1 := advance (q <| q_num_elements ::= λ k, u32 (k - 1) |>)).
  change (_ <| q_head := _ |>) with q1.
  assert (ring_wf q1) as Hwf1 by (apply advance_wf; by destruct Hwf).
  assert (rot q1 = (enc <$> l2) ++ ((waiting <$> rs) ++ replicate k zero_desc)
                   ++ [enc (Live 0 b)]) as Hr1.
  { rewrite app_assoc. apply (rot_advance (q <| q_num_elements ::= λ k, u32 (k - 1) |>));
      [by destruct Hwf|exact Hr]. }
  assert (q_tail q1 = ring_index (q_head q1) (length l2)) as Ht1.
  { cbn. rewrite ring_index_twice. exact Ht. }
  cbn [length] in Hl. assert (length l2 < N)%nat as Hl2 by lia.
  assert (q_num_elements q1 = countb is_live l2) as Hn1.
  { transitivity (u32 (q_num_elements q - 1)); [done|]. rewrite Hn, u32_small; pose proof (countb_nonneg is_live l2); lia. }
  assert ((0 <? q_num_elements q1) && (q_head q1 =? q_tail q1)%nat = false) as ->.
  { apply andb_false_iff. rewrite Hn1.
    destruct (decide (l2 = [])) as [->|Hne2]; [by left|]. right.
    apply Nat.eqb_neq. rewrite Ht1. apply tail_not_head; [done|].
    apply length_zero_iff_nil in Hne2 || (destruct l2; [done|cbn in *; lia]). }
  destruct (compact_queue_spec q1 l2 _ Hwf1 Hok Hr1 Ht1 Hl2 Hn1) as (q' & -> & Hc).
  pose proof (compacted_tail q1 l2 _ Ht1 Hl2 q' Hc) as Ht'.
  pose proof (trim_length l2). destruct Hc as [Hwf' Hr' Hh' _ Hnum' Hch'].
  set (t := (length l2 - length (trim l2))%nat) in *.
  assert (rot q' = ((enc <$> trim l2) ++ (waiting <$> rs) ++ replicate k zero_desc)
                   ++ enc (Live 0 b) :: replicate t zero_desc) as Hr2
    by (rewrite Hr'; by rewrite <- !app_assoc).
  clear Hr'. rename Hr2 into Hr'.
  assert (q_head q = ring_index (q_head q')
            (length ((enc <$> trim l2) ++ (waiting <$> rs) ++ replicate k zero_desc))) as Hpos.
  { pose proof (length_rot q' Hwf') as Hlr. rewrite Hr', length_app in Hlr.
    cbn [length] in Hlr. rewrite length_replicate in Hlr.
    change (q_head q1) with (ring_index (q_head q) 1) in Hh'.
    rewrite Hh', !ring_index_twice.
    match goal with |- _ = ring_index _ ?n => replace n with (N + 0)%nat by (cbn; lia) end.
    rewrite ring_index_full. by rewrite ring_index_0 by by destruct Hwf. }
  exists q', (enc (Live 0 b)). split; [done|]. split; [etrans; [|exact Hch']; by split|].
  rewrite Hpos. split; [|split; [done|]].
  - apply get_element_rot; [done| |].
    + rewrite <- (length_rot q' Hwf'), Hr', (length_app _ (_ :: _)). cbn [length]. lia.
    + rewrite Hr'. by rewrite lookup_app_r, Nat.sub_diag by lia.
  - pose proof (rot_upd_mid q' _ _ _ (λ x, x <| bd_buff_index := 0 |>) _ Hwf' eq_refl Hr') as Hr2.
    split; try done.
    + by apply upd_element_wf.
    + by apply trim_ok.
    + exists (k + (1 + t))%nat. etrans; [exact Hr2|].
      rewrite <- !app_assoc. do 2 f_equal. by rewrite !replicate_add.
    + lia.
    + apply trim_trim.
    + etrans; [exact Hnum'|]. by rewrite countb_trim.
Qed.

(** Further back: the entry becomes a bubble. *)
Lemma pop_inner_spec :
  l1 ≠ [] →
  ∃ q' x, mcapi_trans_pop_queue q = Done (i, q') ∧ same_channel q q' ∧
    get_element q' i = Done x ∧ bd_buff_index x = b ∧
    ring (with_buffer i 0 q') (l1 ++ Bubble :: l2) rs.
Proof using All.
  intros Hl1. destruct pop_walk as (Hne & Hw & [Hhead _]).
  destruct Hring as [Hwf Hok Hrs [k Hr%rot_mid] Ht Hl Hf Hn]. clear Hring.
  pose proof (slots_bubble _ _ _ _ Hok) as [Hb Hok'].
  pose proof (countb_live_bound _ Hl) as Hcb. rewrite countb_bubble in Hn, Hcb.
  pose proof (countb_nonneg is_live (l1 ++ Bubble :: l2)) as Hpos.
  assert (length l1 = length (enc <$> l1)) as Hi by by rewrite length_fmap.
  set (q1 := upd_element i (λ e, e <| bd_invalid := true |>)
               (q <| q_num_elements ::= λ k, u32 (k - 1) |>)).
  pose proof (rot_upd_mid (q <| q_num_elements ::= λ k, u32 (k - 1) |>) _ _ _
    (λ e, e <| bd_invalid := true |>) _ ltac:(by destruct Hwf) Hi Hr) as Hr1.
  assert (ring_wf q1) as Hwf1 by (apply upd_element_wf; by destruct Hwf).
  assert (mcapi_trans_pop_queue q = Done (i, q1)) as Hpop.
  { unfold mcapi_trans_pop_queue. pose proof Hne as Hne'. apply Nat.eqb_neq in Hne'.
    rewrite Hne', Hw. cbv zeta.
    change (q_head (q <| q_num_elements ::= λ k, u32 (k - 1) |>)) with (q_head q).
    destruct (Nat.eqb_spec i (q_head q)) as [E|_]; [by apply Hhead in E|].
    fold q1. assert ((q_head q1 =? q_tail q1)%nat = false) as -> by exact Hne'.
    rewrite andb_false_r. destruct l1 as [|s l]; [done|].
    destruct s as [r0 b0|]; [|cbn in Hf; pose proof (trim_length (l ++ Live 0 b :: l2)) as Hlt;
                              rewrite Hf in Hlt; cbn in Hlt; lia].
    erewrite (compact_noop q1 (Live r0 b0)); [done|done|done|exact Hr1|done|by inv Hok|done]. }
  exists q1, (mk_desc 0 b true). split; [done|]. split; [by split|]. split; [|split; [done|]].
  - apply (get_element_rot q1 Hwf1).
    + rewrite length_app in Hl. lia.
    + etrans; [exact (f_equal (.!! length l1) Hr1)|].
      rewrite Hi. by rewrite lookup_app_r, Nat.sub_diag by lia.
  - pose proof (rot_upd_mid q1 _ _ _ (λ x, x <| bd_buff_index := 0 |>) _ Hwf1 Hi Hr1) as Hr2.
    assert (length (l1 ++ Bubble :: l2) = length (l1 ++ Live 0 b :: l2)) as Hlen
      by by rewrite !length_app.
    split; try done.
    + by apply upd_element_wf.
    + exists k. etrans; [exact Hr2|]. by rewrite fmap_app, fmap_cons, <- app_assoc.
    + by rewrite Hlen.
    + by rewrite Hlen.
    + destruct l1 as [|[r0 b0|] l]; [done|done|]. cbn in Hf.
      pose proof (trim_length (l ++ Live 0 b :: l2)) as Hlt.
      rewrite Hf in Hlt. cbn in Hlt. lia.
    + transitivity (u32 (q_num_elements q - 1)); [done|]. rewrite Hn, u32_small; lia.
Qed.

Lemma pop_queue_spec :
  ∃ q' x, mcapi_trans_pop_queue q = Done (i, q') ∧ same_channel q q' ∧
    get_element q' i = Done x ∧ bd_buff_index x = b ∧
    ring (with_buffer i 0 q') (trim (l1 ++ Bubble :: l2)) rs.
Proof using All.
  destruct (decide (l1 = [])) as [Hl1|Hl1].
  - destruct (pop_head_spec Hl1) as (q' & x & H1 & H2 & H3 & H4 & H5). exists q', x.
    by rewrite Hl1 at 1.
  - destruct (pop_inner_spec Hl1) as (q' & x & H1 & H2 & H3 & H4 & H5). exists q', x.
    by rewrite (rg_front _ _ _ H5).
Qed.
End pop.

(** ** Reserving an entry, finding it again, and cancelling the reservation. *)

(** ** Reserve *)

Lemma reservable_slots ws :
  Forall (λ s, is_loose s = false) ws → Forall (λ e, reservable e = false) (enc <$> ws).
Proof.
  intros Hf. apply Forall_fmap. eapply Forall_impl; [exact Hf|].
  intros [r b|] Hl; [|done]. cbn in *. unfold reservable. cbn. by rewrite Hl.
Qed.
Lemma reservable_waiting rs :
  Forall (λ r, r ≠ 0) rs → Forall (λ e, reservable e = false) (waiting <$> rs).
Proof.
  intros Hf. apply Forall_fmap. eapply Forall_impl; [exact Hf|].
  intros r Hr. cbn. unfold reservable. cbn. by apply Z.eqb_neq in Hr as ->.
Qed.

Lemma reserve_entry_spec q ws rs r :
  ring q ws rs → Forall (λ s, is_loose s = false) ws → r ≠ 0 →
  if bool_decide (length ws + length rs < N)%nat
  then ∃ q', reserve_entry r q = Done (true, q') ∧ same_channel q q' ∧ ring q' ws (rs ++ [r])
  else reserve_entry r q = Done (false, q).
Proof.
  intros [Hwf Hok Hrs [k Hr] Ht Hl Hf Hn] Hloose Hne. unfold reserve_entry.
  pose proof (length_rot q Hwf) as Hlen.
  rewrite Hr, !length_app, !length_fmap, length_replicate in Hlen.
  pose proof (reservable_slots ws Hloose) as H1. pose proof (reservable_waiting rs Hrs) as H2.
  case_bool_decide.
  - destruct k as [|k]; [lia|]. cbn in Hr. rewrite app_assoc in Hr.
    rewrite (walk_first _ _ _ _ _ Hwf Hr); [|done|by apply Forall_app].
    eexists; split; [done|]. split; [by split|]. split; try done.
    + by apply upd_element_wf.
    + apply Forall_app. split; [done|]. by repeat constructor.
    + exists k. etrans; [exact (rot_upd_mid q _ _ _ (λ x, x <| bd_request := r |>) _ Hwf eq_refl Hr)|].
      by rewrite fmap_app, <- !app_assoc.
  - assert (k = 0%nat) as -> by lia. rewrite walk_none; [done|done|].
    rewrite Hr. cbn. rewrite app_nil_r. by apply Forall_app.
Qed.

(** ** Finding the entry of a request *)

Lemma ring_index_surj h j :
  (h < N)%nat → (j < N)%nat → ∃ j', (j' < N)%nat ∧ ring_index h j' = j.
Proof.
  intros Hh Hj. destruct (decide (h <= j)%nat).
  - exists (j - h)%nat. split; [lia|]. rewrite ring_index_small by lia.
    destruct (Nat.ltb_spec (h + (j - h)) N); lia.
  - exists (j + N - h)%nat. split; [lia|]. rewrite ring_index_small by lia.
    destruct (Nat.ltb_spec (h + (j + N - h)) N); lia.
Qed.

Lemma find_request_spec q r l1 x l2 :
  ring_wf q → rot q = l1 ++ x :: l2 → bd_request x = r →
  r ∉ bd_request <$> l1 ++ l2 →
  find_request r q = Done (ring_index (q_head q) (length l1)).
Proof.
  intros Hwf Hr Hx Hne. pose proof Hwf as [Hlen Hh]. unfold find_request.
  destruct (c_scan_spec (λ x, bd_request x =? r) (q_elements q) N 0) as (j & Hj & Hle & Hb & Ha);
    [lia|]. rewrite Hj. f_equal.
  assert (length l1 < N)%nat as Hl1.
  { rewrite <- (length_rot q Hwf), Hr, length_app. cbn. lia. }
  assert (q_elements q !! ring_index (q_head q) (length l1) = Some x) as Hxe.
  { rewrite <- lookup_rot by done. by rewrite Hr, lookup_app_r, Nat.sub_diag by lia. }
  pose proof (ring_index_lt (q_head q) (length l1)) as Hlt.
  destruct (decide (j < N)%nat) as [HjN|].
  - destruct Ha as (y & Hy & Hyr%Z.eqb_eq); [lia|].
    destruct (ring_index_surj (q_head q) j Hh HjN) as (j' & Hj' & <-).
    rewrite <- lookup_rot in Hy by done. f_equal.
    destruct (decide (j' = length l1)) as [|Hne']; [done|]. destruct Hne.
    apply list_elem_of_fmap. exists y. split; [done|]. rewrite Hr in Hy.
    rewrite elem_of_app. destruct (decide (j' < length l1)%nat).
    + left. rewrite lookup_app_l in Hy by done. by eapply list_elem_of_lookup_2.
    + right. rewrite lookup_app_r in Hy by lia.
      destruct (j' - length l1)%nat eqn:E; [lia|]. by eapply list_elem_of_lookup_2.
  - specialize (Hb (ring_index (q_head q) (length l1)) x ltac:(lia) Hxe).
    cbn in Hb. by rewrite Hx, Z.eqb_refl in Hb.
Qed.

(** ** Cancel: shifting the reservations behind the cancelled one *)

Record same_ring (q q' : queue) : Prop := {
  sr_wf : ring_wf q';
  sr_head : q_head q' = q_head q;
  sr_tail : q_tail q' = q_tail q;
  sr_num : q_num_elements q' = q_num_elements q;
  sr_channel : same_channel q q' }.
Lemma same_ring_refl q : ring_wf q → same_ring q q.
Proof. by split. Qed.
Lemma same_ring_upd q q' i f : same_ring q q' → same_ring q (upd_element i f q').
Proof. intros [? ? ? ? []]. split; try done; by apply upd_element_wf. Qed.

Section shift.
Context (q0 : queue) (t p : nat) (Ht : q_tail q0 = ring_index (q_head q0) t).
Context (Hp : (t <= p < N)%nat).

Let start := ring_index (q_head q0) p.

Lemma shift_step q k i last l1 x l2 :
  same_ring q0 q → (0 < i)%nat → (k + i = N)%nat → (p + i < N)%nat →
  rot q = l1 ++ x :: l2 → length l1 = (p + i)%nat →
  (0 < k)%nat ∧ ring_index i start = ring_index (q_head q) (p + i) ∧
  shift_loop k i start last q =
    if negb (bd_request x =? 0)
    then shift_loop (pred k) (S i) start (ring_index i start)
           (upd_element (ring_index i start) (λ e, e <| bd_request := 0 |>)
              (upd_element last (λ e, e <| bd_request := bd_request x |>) q))
    else shift_loop (pred k) (S i) start last q.
Proof using Ht Hp.
  intros [Hwf Hh Htl _ _] Hi Hk Hpi Hr Hl1. destruct k as [|k]; [lia|].
  assert (ring_index i start = ring_index (q_head q) (p + i)) as Hcurr.
  { unfold start, ring_index at 1. rewrite Nat.add_comm. fold (ring_index (ring_index (q_head q0) p) i).
    by rewrite ring_index_twice, Hh. }
  split; [lia|]. split; [done|]. cbn [shift_loop pred]. rewrite Hcurr.
  assert ((ring_index (q_head q) (p + i) =? q_tail q)%nat = false) as ->.
  { apply Nat.eqb_neq. rewrite Htl, Ht, Hh. intros E%ring_index_inj; [lia| |lia|lia].
    rewrite <- Hh. by destruct Hwf. }
  assert ((ring_index (q_head q) (p + i) =? q_head q)%nat = false) as ->.
  { apply Nat.eqb_neq. apply not_eq_sym, tail_not_head; [done|lia]. }
  cbn [orb andb]. rewrite (get_element_rot q Hwf _ x); [done|lia|].
  by rewrite Hr, lookup_app_r, Hl1, Nat.sub_diag by lia.
Qed.

Lemma shift_blank q k i last l1 m :
  same_ring q0 q → (0 < i)%nat → (k + i = N)%nat → length l1 = (p + i)%nat →
  rot q = l1 ++ replicate m zero_desc → shift_loop k i start last q = Done q.
Proof using Ht Hp.
  revert k i l1. induction m as [|m IH]; intros k i l1 Hs Hi Hk Hl1 Hr; pose proof Hs as [Hwf Hh _ _ _].
  - pose proof (length_rot q Hwf) as Hlen. rewrite Hr, length_app, Hl1 in Hlen. cbn in Hlen.
    destruct k as [|k]; [done|]. cbn [shift_loop].
    assert (ring_index i start = q_head q) as Hc.
    { unfold start, ring_index at 1. rewrite Nat.add_comm. fold (ring_index (ring_index (q_head q0) p) i).
      rewrite ring_index_twice, <- Hh. replace (p + i)%nat with (N + 0)%nat by lia.
      by rewrite ring_index_full, ring_index_0 by by destruct Hwf. }
    rewrite Hc, Nat.eqb_refl, orb_true_r.
    assert ((q_head q =? start)%nat = false) as ->; [|done].
    apply Nat.eqb_neq. unfold start. rewrite <- Hh. apply tail_not_head; [done|lia].
  - cbn in Hr. pose proof (length_rot q Hwf) as Hlen.
    rewrite Hr, length_app, Hl1 in Hlen. cbn in Hlen. rewrite length_replicate in Hlen.
    destruct (shift_step q k i last l1 zero_desc _ Hs Hi Hk ltac:(lia) Hr Hl1) as (Hk0 & _ & ->).
    cbn. apply (IH _ _ (l1 ++ [zero_desc])); [done|lia|lia|rewrite length_app; cbn; lia|].
    by rewrite <- app_assoc.
Qed.

Lemma shift_waiting rs q k i l1 m :
  same_ring q0 q → Forall (λ r, r ≠ 0) rs → (0 < i)%nat → (k + i = N)%nat →
  S (length l1) = (p + i)%nat →
  rot q = l1 ++ zero_desc :: (waiting <$> rs) ++ replicate m zero_desc →
  ∃ q', shift_loop k i start (ring_index (q_head q) (p + i - 1)) q = Done q' ∧
    same_ring q0 q' ∧ rot q' = l1 ++ (waiting <$> rs) ++ replicate (S m) zero_desc.
Proof using Ht Hp.
  revert q k i l1. induction rs as [|r rs IH]; intros q k i l1 Hs Hrs Hi Hk Hl1 Hr.
  - exists q. split; [|done]. apply (shift_blank q k i _ (l1 ++ [zero_desc]) m); try done.
    + rewrite length_app. cbn. lia.
    + by rewrite Hr, <- app_assoc.
  - pose proof Hs as [Hwf Hh _ _ _]. apply Forall_cons in Hrs as [Hr0 Hrs].
    pose proof (length_rot q Hwf) as Hlen.
    rewrite Hr, length_app in Hlen. cbn in Hlen. rewrite length_app in Hlen.
    assert (rot q = (l1 ++ [zero_desc]) ++ waiting r :: (waiting <$> rs) ++ replicate m zero_desc)
      as Hr1 by by rewrite Hr, <- app_assoc.
    assert (length (l1 ++ [zero_desc]) = p + i)%nat as Hl2 by (rewrite length_app; cbn; lia).
    destruct (shift_step q k i (ring_index (q_head q) (p + i - 1)) _ _ _ Hs Hi Hk ltac:(lia) Hr1 Hl2)
      as (Hk0 & Hc & ->).
    cbn [waiting bd_request]. apply Z.eqb_neq in Hr0 as Hb. rewrite Hb. cbn [negb]. rewrite Hc.
    assert (p + i - 1 = length l1)%nat as Hlast by lia. rewrite Hlast.
    pose proof (rot_upd_mid q _ _ _ (λ e, e <| bd_request := r |>) _ Hwf eq_refl Hr) as Hr2.
    set (q1 := upd_element (ring_index (q_head q) (length l1)) _ q) in *.
    assert (same_ring q0 q1) as Hs1 by by apply same_ring_upd.
    assert (rot q1 = (l1 ++ [waiting r]) ++ waiting r :: (waiting <$> rs) ++ replicate m zero_desc)
      as Hr3 by (rewrite Hr2; by rewrite <- app_assoc).
    assert (p + i = length (l1 ++ [waiting r]))%nat as Hl3 by (rewrite length_app; cbn; lia).
    pose proof (rot_upd_mid q1 _ _ _ (λ e, e <| bd_request := 0 |>) _ (sr_wf _ _ Hs1) Hl3 Hr3) as Hr4.
    change (q_head q1) with (q_head q) in Hr4.
    set (q2 := upd_element _ _ q1) in *.
    destruct (IH q2 (pred k) (S i) (l1 ++ [waiting r])) as (q' & Hq' & Hs' & Hr').
    + by apply same_ring_upd.
    + done.
    + lia.
    + lia.
    + lia.
    + exact Hr4.
    + exists q'. split; [|split; [done|by rewrite Hr', <- app_assoc]].
      rewrite <- Hq'. f_equal. change (q_head q2) with (q_head q). f_equal. lia.
Qed.
End shift.

(** ** The queue operations that name a request *)

Definition slot_req (s : slot) : Z := match s with Live r _ => r | Bubble => 0 end.
Lemma requests_slots (ws : list slot) : bd_request <$> (enc <$> ws) = slot_req <$> ws.
Proof. rewrite <- list_fmap_compose. apply list_fmap_ext. by intros ? [] ?. Qed.
Lemma requests_waiting (rs : list Z) : bd_request <$> (waiting <$> rs) = rs.
Proof. rewrite <- list_fmap_compose. apply list_fmap_id. Qed.
Lemma requests_blank k : bd_request <$> replicate k zero_desc = replicate k 0.
Proof. by rewrite fmap_replicate. Qed.

Lemma find_live q l1 r b l2 rs :
  ring q (l1 ++ Live r b :: l2) rs → r ≠ 0 → r ∉ slot_req <$> l1 ++ l2 → r ∉ rs →
  find_request r q = Done (ring_index (q_head q) (length l1)).
Proof.
  intros [Hwf _ _ [k Hr%rot_mid] _ _ _ _] Hr0 Hl Hrs.
  rewrite <- (length_fmap enc l1). eapply find_request_spec; [done|exact Hr|done|].
  rewrite !fmap_app, requests_blank, !requests_slots, requests_waiting.
  rewrite fmap_app, elem_of_app in Hl.
  intros [?|[?|[?|[? _]%elem_of_replicate]%elem_of_app]%elem_of_app]%elem_of_app;
    [tauto..|done].
Qed.

(** The entry of a reservation that is still waiting. *)
Lemma find_waiting q ws r1 r r2 :
  ring q ws (r1 ++ r :: r2) → r ∉ slot_req <$> ws → r ∉ r1 ++ r2 →
  ∃ k, rot q = ((enc <$> ws) ++ (waiting <$> r1)) ++ waiting r ::
                 (waiting <$> r2) ++ replicate k zero_desc ∧
    (length ((enc <$> ws) ++ (waiting <$> r1)) < N)%nat ∧
    find_request r q =
      Done (ring_index (q_head q) (length ((enc <$> ws) ++ (waiting <$> r1)))).
Proof.
  intros [Hwf _ Hrs [k Hr] _ _ _ _] Hws Hr12. exists k.
  apply Forall_app in Hrs as [Hrs1 [Hr0 Hrs2]%Forall_cons].
  assert (rot q = ((enc <$> ws) ++ (waiting <$> r1)) ++ waiting r ::
            (waiting <$> r2) ++ replicate k zero_desc) as Hr'.
  { rewrite Hr, fmap_app, fmap_cons. by rewrite <- !app_assoc. }
  split; [done|]. split.
  - rewrite <- (length_rot q Hwf), Hr', (length_app (_ ++ _) (_ :: _)). cbn [length]. lia.
  - rewrite (find_request_spec q r _ (waiting r) _ Hwf Hr' eq_refl); [done|].
    rewrite !fmap_app, requests_slots, !requests_waiting, requests_blank.
    rewrite elem_of_app in Hr12.
    intros [[?|?]%elem_of_app|[?|[? _]%elem_of_replicate]%elem_of_app]%elem_of_app;
      [tauto..|done].
Qed.

Lemma cancel_entry_spec q ws r1 r r2 :
  ring q ws (r1 ++ r :: r2) → r ∉ slot_req <$> ws → r ∉ r1 ++ r2 →
  ∃ q', cancel_entry r q = Done (tt, q') ∧ same_channel q q' ∧ ring q' ws (r1 ++ r2).
Proof.
  intros Hring Hws Hr12. destruct (find_waiting _ _ _ _ _ Hring Hws Hr12) as (k & Hr' & Hl1N & Hfind).
  destruct Hring as [Hwf Hok Hrs _ Ht Hl Hf Hn].
  apply Forall_app in Hrs as [Hrs1 [Hr0 Hrs2]%Forall_cons].
  set (l1 := (enc <$> ws) ++ (waiting <$> r1)) in *.
  assert (length l1 = (length ws + length r1)%nat) as Hl1
    by (unfold l1; by rewrite length_app, !length_fmap).
  unfold cancel_entry. rewrite Hfind.
  pose proof (ring_index_lt (q_head q) (length l1)) as Hlt.
  destruct (Nat.eqb_spec (ring_index (q_head q) (length l1)) N); [lia|].
  pose proof (rot_upd_mid q _ _ _ (λ x, x <| bd_request := 0 |>) _ Hwf eq_refl Hr') as Hr1.
  set (q1 := upd_element _ _ q) in *.
  assert (same_ring q q1) as Hs1 by by apply same_ring_upd, same_ring_refl.
  (* the first iteration looks at the entry just cleared *)
  assert (shift_loop N 0 (ring_index (q_head q) (length l1)) (ring_index (q_head q) (length l1)) q1
    = shift_loop (pred N) 1 (ring_index (q_head q) (length l1))
        (ring_index (q_head q1) (length l1 + 1 - 1)) q1) as ->.
  { destruct N as [|n'] eqn:EN; [lia|]. cbn [shift_loop pred].
    assert (ring_index 0 (ring_index (q_head q) (length l1)) = ring_index (q_head q) (length l1)) as ->.
    { unfold ring_index at 1. rewrite EN. apply Nat.mod_small. rewrite <- EN. lia. }
    rewrite Nat.eqb_refl, andb_false_r.
    assert (get_element q1 (ring_index (q_head q) (length l1)) = Done zero_desc) as ->.
    { apply (get_element_rot q1 (sr_wf _ _ Hs1)); [by rewrite EN|].
      by rewrite Hr1, lookup_app_r, Nat.sub_diag by lia. }
    cbn. do 2 f_equal. lia. }
  destruct (shift_waiting q (length ws) (length l1) Ht ltac:(lia) r2 q1 (pred N) 1 l1 k)
    as (q' & -> & Hs' & Hq'); [done|done|lia|lia|lia|exact Hr1|].
  destruct Hs' as [Hwf' Hh' Ht' Hn' Hc'].
  exists q'. split; [done|]. split; [done|]. split; try done.
  - apply Forall_app. by split.
  - exists (S k). rewrite Hq'. unfold l1. by rewrite fmap_app, <- !app_assoc.
  - by rewrite Ht', Hh'.
  - by rewrite Hn'.
Qed.
