(* ===== verification/McapiFifo.v ===== *)
(** First in, first out: over any history of sends, receives and tests, the
    [k]-th receive gets the [k]-th message. *)

From S2P Require Import Prelude Bytes McapiTypes McapiQueue McapiRing McapiQueueSpec.

#[local] Opaque MCAPI_MAX_QUEUE_ENTRIES.

(** ** The operations, on a ring *)

Lemma compact_ring q ws rs :
  ring q ws rs →
  ∃ q', mcapi_trans_compact_queue q = Done (tt, q') ∧ same_channel q q' ∧ ring q' ws rs.
Proof.
  intros [Hwf Hok Hrs [k Hr] Ht Hl Hf Hn].
  destruct (compact_queue_spec q ws _ Hwf Hok Hr Ht Hl Hn) as (q' & Hq' & Hc).
  exists q'. split_and!; [done|by destruct Hc|]. rewrite <- Hf. by eapply ring_compacted.
Qed.

Lemma queue_send_spec q ws rs b :
  ring q ws rs → b ≠ 0 →
  ∃ ok q', queue_send b q = Done (ok, q') ∧ same_channel q q' ∧
    ok = bool_decide (length ws ≠ MCAPI_MAX_QUEUE_ELEMENTS) ∧
    if (ok : bool) then ring q' (ws ++ [Live (default 0 (head rs)) b]) (tail rs)
    else ring q' ws rs.
Proof.
  intros Hring Hb. unfold queue_send. rewrite (full_queue_spec _ _ _ Hring).
  destruct (decide (length ws = MCAPI_MAX_QUEUE_ELEMENTS)) as [Hfull|Hfull].
  - rewrite bool_decide_eq_true_2 by done.
    destruct (compact_ring q ws rs Hring) as (q' & -> & Hsc & Hr').
    exists false, q'. split_and!; try done. by rewrite bool_decide_eq_false_2 by tauto.
  - rewrite bool_decide_eq_false_2 by done.
    destruct (push_queue_spec q ws rs b Hring Hfull Hb) as (q' & -> & Hsc & Hr').
    exists true, (with_buffer (q_tail q) b q').
    split_and!; [done|by etrans; [exact Hsc|apply with_buffer_same]| |done].
    by rewrite bool_decide_eq_true_2.
Qed.

(** The first slot nobody has reserved. *)
Lemma loose_split ws :
  existsb is_loose ws = true →
  ∃ l1 b l2, ws = l1 ++ Live 0 b :: l2 ∧ Forall (λ s, is_loose s = false) l1.
Proof.
  induction ws as [|s ws IH]; [done|]. cbn. destruct (is_loose s) eqn:Hs.
  - intros _. destruct s as [r b|]; [|done]. apply Z.eqb_eq in Hs as ->. by exists [], b, ws.
  - intros (l1 & b & l2 & -> & Hl1)%IH. exists (s :: l1), b, l2. by split; [|constructor].
Qed.
Lemma no_loose ws : existsb is_loose ws = false → Forall (λ s, is_loose s = false) ws.
Proof.
  induction ws as [|s ws IH]; [done|]. cbn. intros [Hs Hl]%orb_false_iff.
  constructor; [done|by apply IH].
Qed.

(** What a receive does to the slots. *)
Inductive receive_effect (r : Z) (ws : list slot) (rs : list Z) :
    receive → list slot → list Z → Prop :=
| effect_received l1 b l2 :
    ws = l1 ++ Live 0 b :: l2 → Forall (λ s, is_loose s = false) l1 →
    receive_effect r ws rs (Received b) (trim (l1 ++ Bubble :: l2)) rs
| effect_reserved :
    Forall (λ s, is_loose s = false) ws →
    (length ws + length rs < MCAPI_MAX_QUEUE_ENTRIES)%nat →
    receive_effect r ws rs Reserved ws (rs ++ [r])
| effect_no_room :
    Forall (λ s, is_loose s = false) ws →
    ¬ (length ws + length rs < MCAPI_MAX_QUEUE_ENTRIES)%nat →
    receive_effect r ws rs NoRoom ws rs.

Lemma queue_recv_spec q ws rs r :
  ring q ws rs → r ≠ 0 →
  ∃ res q' ws' rs', queue_recv r q = Done (res, q') ∧ same_channel q q' ∧
    receive_effect r ws rs res ws' rs' ∧ ring q' ws' rs'.
Proof.
  intros Hring Hr. unfold queue_recv. rewrite (empty_queue_spec _ _ _ Hring).
  destruct (existsb is_loose ws) eqn:Hloose; cbn [negb].
  - apply loose_split in Hloose as (l1 & b & l2 & -> & Hl1).
    destruct (pop_queue_spec q l1 b l2 rs Hring Hl1) as (q' & x & -> & Hsc & -> & Hx & Hr').
    rewrite Hx. eexists _, _, _, _. split; [done|]. split; [|split; [|exact Hr']].
    + by etrans; [exact Hsc|apply with_buffer_same].
    + by eapply effect_received.
  - apply no_loose in Hloose. pose proof (reserve_entry_spec q ws rs r Hring Hloose Hr) as Hs.
    case_bool_decide as Hroom.
    + destruct Hs as (q' & -> & Hsc & Hr'). eexists _, _, _, _. split; [done|].
      split; [done|]. split; [|exact Hr']. by apply effect_reserved.
    + rewrite Hs. eexists _, _, _, _. split; [done|].
      split; [done|]. split; [|exact Hring]. by apply effect_no_room.
Qed.

Lemma queue_check_arrived q l1 r b l2 rs :
  ring q (l1 ++ Live r b :: l2) rs → r ≠ 0 → r ∉ slot_req <$> l1 ++ l2 → r ∉ rs →
  ∃ q', queue_check r q = Done (Some b, q') ∧ same_channel q q' ∧
    ring q' (trim (l1 ++ Bubble :: l2)) rs.
Proof.
  intros Hring Hr Hl Hrs. unfold queue_check. rewrite (find_live _ _ _ _ _ _ Hring Hr Hl Hrs).
  pose proof (ring_index_lt (q_head q) (length l1)) as Hlt.
  destruct (Nat.eqb_spec (ring_index (q_head q) (length l1)) MCAPI_MAX_QUEUE_ENTRIES); [lia|].
  assert (get_element q (ring_index (q_head q) (length l1)) = Done (enc (Live r b))) as ->.
  { pose proof (rg_wf _ _ _ Hring) as Hwf. pose proof (rg_len _ _ _ Hring) as Hlen.
    rewrite length_app in Hlen. cbn [length] in Hlen.
    destruct (rg_rot _ _ _ Hring) as [k Hk%rot_mid].
    apply get_element_rot; [done|lia|]. rewrite Hk.
    by rewrite lookup_app_r, length_fmap, Nat.sub_diag by by rewrite length_fmap. }
  cbn [enc bd_buff_index]. pose proof (rg_ok _ _ _ Hring) as Hok.
  apply slots_bubble in Hok as [Hb _]. apply Z.eqb_neq in Hb as ->.
  destruct (remove_entry_spec q l1 r b l2 rs Hring) as (q' & Hq' & Hsc & Hring').
  unfold with_buffer in Hq'. rewrite Hq'. by exists q'.
Qed.

Lemma queue_check_waiting q ws r1 r r2 :
  ring q ws (r1 ++ r :: r2) → r ∉ slot_req <$> ws → r ∉ r1 ++ r2 →
  queue_check r q = Done (None, q).
Proof.
  intros Hring Hws Hr12. unfold queue_check.
  destruct (find_waiting _ _ _ _ _ Hring Hws Hr12) as (k & Hrot & Hlt & ->).
  pose proof (ring_index_lt (q_head q) (length ((enc <$> ws) ++ (waiting <$> r1)))).
  destruct (Nat.eqb_spec (ring_index (q_head q) (length ((enc <$> ws) ++ (waiting <$> r1))))
              MCAPI_MAX_QUEUE_ENTRIES); [lia|].
  rewrite (get_element_rot q (rg_wf _ _ _ Hring) _ (waiting r) Hlt); [done|].
  rewrite Hrot. rewrite lookup_app_r, Nat.sub_diag by lia. done.
Qed.

(** ** Histories of a queue *)

(** The buffers sent and the receives accepted, in their orders; which
    receive got which buffer; and the receives that wait for an answer.  A
    receive that was answered or cancelled frees its handle for a later one. *)
Record history := mk_history {
  sent : list Z;
  received : list Z;
  delivered : list (Z * Z);
  outstanding : list Z }.

Definition sends (b : Z) (ok : bool) (h : history) : history :=
  mk_history (sent h ++ if ok then [b] else []) (received h) (delivered h) (outstanding h).
Definition receives (r : Z) (res : receive) (h : history) : history :=
  mk_history (sent h)
    (received h ++ match res with NoRoom => [] | _ => [r] end)
    (delivered h ++ match res with Received b => [(r, b)] | _ => [] end)
    (outstanding h ++ match res with Reserved => [r] | _ => [] end).
Definition checks (r : Z) (res : option Z) (h : history) : history :=
  match res with
  | Some b => mk_history (sent h) (received h) (delivered h ++ [(r, b)])
                (filter (λ r', r' ≠ r) (outstanding h))
  | None => h
  end.
(** The receives that came after the last message. *)
Definition unanswered (h : history) : list Z := drop (length (sent h)) (received h).
Definition cancels (r : Z) (h : history) : history :=
  mk_history (sent h)
    (take (length (sent h)) (received h) ++ filter (λ r', r' ≠ r) (unanswered h))
    (delivered h) (filter (λ r', r' ≠ r) (outstanding h)).

Inductive queue_history : queue → history → Prop :=
| history_start : queue_history zero_queue (mk_history [] [] [] [])
| history_send q h b ok q' :
    queue_history q h → b ≠ 0 → queue_send b q = Done (ok, q') →
    queue_history q' (sends b ok h)
| history_recv q h r res q' :
    queue_history q h → r ≠ 0 → r ∉ outstanding h → queue_recv r q = Done (res, q') →
    queue_history q' (receives r res h)
| history_check q h r res q' :
    queue_history q h → r ∈ outstanding h → queue_check r q = Done (res, q') →
    queue_history q' (checks r res h)
| history_cancel q h r q' :
    queue_history q h → r ∈ unanswered h → cancel_entry r q = Done (tt, q') →
    queue_history q' (cancels r h).

(** ** What the slots say about the history *)

Definition claim (s : slot) : list (Z * Z) :=
  match s with Live r b => if r =? 0 then [] else [(r, b)] | Bubble => [] end.
Definition loose (s : slot) : list Z :=
  match s with Live r b => if r =? 0 then [b] else [] | Bubble => [] end.

(** The messages and receives matched so far are the delivered ones and the
    reserved entries that have a buffer; the surplus messages are the
    unreserved entries, the surplus receives the waiting ones. *)
Record matching (h : history) (ws : list slot) (rs : list Z) : Prop := {
  mt_pairs : zip (received h) (sent h) ≡ₚ delivered h ++ (ws ≫= claim);
  mt_loose : ws ≫= loose = drop (length (received h)) (sent h);
  mt_waiting : rs = unanswered h;
  mt_out : outstanding h ≡ₚ (ws ≫= claim).*1 ++ rs;
  mt_fresh : NoDup (outstanding h) }.

Lemma bind_trim {A} (f : slot → list A) ws : f Bubble = [] → trim ws ≫= f = ws ≫= f.
Proof. intros Hf. induction ws as [|[|] ws IH]; [done..|]. cbn. by rewrite Hf, IH. Qed.
Lemma bind_not_loose l :
  Forall (λ s, is_loose s = false) l → l ≫= loose = [].
Proof. induction 1 as [|[r b|] l Hs Hl IH]; [done| |done]. cbn in *. by rewrite Hs, IH. Qed.

Lemma zip_snoc_l {A B} (l : list A) (k : list B) x y :
  k !! length l = Some y → zip (l ++ [x]) k = zip l k ++ [(x, y)].
Proof.
  revert k. induction l as [|a l IH]; intros [|b k] Hk; try done; cbn in *.
  - inv Hk. by rewrite zip_with_nil_l || done.
  - by rewrite IH.
Qed.
Lemma zip_snoc_r {A B} (l : list A) (k : list B) x y :
  l !! length k = Some x → zip l (k ++ [y]) = zip l k ++ [(x, y)].
Proof.
  revert k. induction l as [|a l IH]; intros [|b k] Hk; try done; cbn in *.
  - inv Hk. destruct l; done.
  - by rewrite IH.
Qed.
Lemma zip_more_l {A B} (l l' : list A) (k : list B) :
  (length k <= length l)%nat → zip (l ++ l') k = zip l k.
Proof.
  revert k. induction l as [|a l IH]; intros [|b k] Hk; cbn in *; try done; [by destruct l'|lia|].
  rewrite IH; [done|lia].
Qed.
Lemma zip_more_r {A B} (l : list A) (k k' : list B) :
  (length l <= length k)%nat → zip l (k ++ k') = zip l k.
Proof.
  revert k. induction l as [|a l IH]; intros [|b k] Hk; cbn in *; try done; [lia|].
  rewrite IH; [done|lia].
Qed.

(** ** The slots a request has claimed *)

Lemma elem_of_claims r ws : r ≠ 0 → r ∈ slot_req <$> ws ↔ r ∈ (ws ≫= claim).*1.
Proof.
  intros Hr. induction ws as [|[r' b|] ws IH]; [done| |].
  - cbn. rewrite fmap_app, elem_of_app, elem_of_cons, IH.
    destruct (Z.eqb_spec r' 0) as [->|]; cbn; [set_solver|set_solver].
  - cbn. rewrite elem_of_cons, IH. tauto.
Qed.
Lemma claim_split r ws :
  r ∈ (ws ≫= claim).*1 → r ≠ 0 ∧ ∃ l1 b l2, ws = l1 ++ Live r b :: l2.
Proof.
  induction ws as [|[r' b|] ws IH]; [set_solver| |].
  - cbn. destruct (Z.eqb_spec r' 0) as [->|]; cbn.
    + intros (Hr & l1 & b' & l2 & ->)%IH. split; [done|]. by exists (Live 0 b :: l1), b', l2.
    + rewrite elem_of_cons. intros [->|(Hr & l1 & b' & l2 & ->)%IH].
      * split; [done|]. by exists [], b, ws.
      * split; [done|]. by exists (Live r' b :: l1), b', l2.
  - cbn. intros (Hr & l1 & b' & l2 & ->)%IH. split; [done|]. by exists (Bubble :: l1), b', l2.
Qed.
Lemma claims_live l1 r b l2 :
  r ≠ 0 → (l1 ++ Live r b :: l2) ≫= claim = (l1 ≫= claim) ++ (r, b) :: (l2 ≫= claim).
Proof. intros Hr. rewrite bind_app. cbn. by apply Z.eqb_neq in Hr as ->. Qed.
Lemma claims_bubble l1 l2 : trim (l1 ++ Bubble :: l2) ≫= claim = (l1 ++ l2) ≫= claim.
Proof. rewrite bind_trim by done. by rewrite !bind_app. Qed.
Lemma loose_bubble l1 l2 : trim (l1 ++ Bubble :: l2) ≫= loose = (l1 ++ l2) ≫= loose.
Proof. rewrite bind_trim by done. by rewrite !bind_app. Qed.
Lemma loose_live l1 r b l2 :
  r ≠ 0 → (l1 ++ Live r b :: l2) ≫= loose = (l1 ++ l2) ≫= loose.
Proof. intros Hr. rewrite !bind_app. cbn. by apply Z.eqb_neq in Hr as ->. Qed.

Lemma filter_ne_none (r : Z) (l : list Z) : r ∉ l → filter (λ r', r' ≠ r) l = l.
Proof.
  intros Hr. induction l as [|x l IH]; [done|]. rewrite filter_cons.
  rewrite decide_True by set_solver. rewrite IH; [done|set_solver].
Qed.
Lemma filter_ne_mid (r : Z) (l1 l2 : list Z) :
  r ∉ l1 ++ l2 → filter (λ r', r' ≠ r) (l1 ++ r :: l2) = l1 ++ l2.
Proof.
  intros Hr. rewrite filter_app, filter_cons, decide_False by tauto.
  rewrite !filter_ne_none; set_solver.
Qed.

(** ** Each operation keeps the matching *)

Section matching.
Context (h : history) (ws : list slot) (rs : list Z) (Hm : matching h ws rs).

Lemma waiting_nonempty r rs' :
  rs = r :: rs' →
  received h !! length (sent h) = Some r ∧ (length (sent h) < length (received h))%nat.
Proof using Hm.
  intros Hrs. pose proof (mt_waiting _ _ _ Hm) as Hw. rewrite Hrs in Hw. unfold unanswered in Hw.
  assert (received h !! length (sent h) = Some r) as Hl.
  { rewrite <- (Nat.add_0_r (length (sent h))), <- lookup_drop, <- Hw. done. }
  split; [done|]. by eapply lookup_lt_Some.
Qed.
Lemma waiting_empty : rs = [] → (length (received h) <= length (sent h))%nat.
Proof using Hm.
  intros Hrs. pose proof (mt_waiting _ _ _ Hm) as Hw. rewrite Hrs in Hw.
  apply (f_equal length) in Hw. unfold unanswered in Hw. rewrite length_drop in Hw. cbn in Hw. lia.
Qed.
Lemma nothing_loose :
  Forall (λ s, is_loose s = false) ws → (length (sent h) <= length (received h))%nat.
Proof using Hm.
  intros Hl%bind_not_loose. pose proof (mt_loose _ _ _ Hm) as Hd. rewrite Hl in Hd.
  apply (f_equal length) in Hd. rewrite length_drop in Hd. cbn in Hd. lia.
Qed.

Lemma matching_send b : rs = [] ∨ head rs ≠ Some 0 →
  matching (sends b true h) (ws ++ [Live (default 0 (head rs)) b]) (tail rs).
Proof using Hm.
  intros Hr0. pose proof Hm as [Hp Hl Hw Ho Hf]. unfold unanswered in Hw.
  pose proof waiting_empty as He. pose proof waiting_nonempty as Hne. clear Hm.
  destruct rs as [|r rs']; cbn [head tail default].
  - specialize (He eq_refl).
    split; unfold unanswered; cbn [sends sent received delivered outstanding]; try done.
    + rewrite zip_more_r, Hp, bind_app by lia. cbn. by rewrite !app_nil_r.
    + rewrite drop_app_le by lia. by rewrite bind_app, Hl.
    + by rewrite drop_ge by (rewrite length_app; cbn; lia).
    + rewrite bind_app. cbn. by rewrite !app_nil_r in *.
  - destruct (Hne r rs' eq_refl) as [Hlk Hlt].
    assert (r ≠ 0) as Hr by (destruct Hr0 as [?|Hh]; [done|cbn in Hh; congruence]).
    assert (claim (Live r b) = [(r, b)]) as Hc by (cbn; by apply Z.eqb_neq in Hr as ->).
    assert (loose (Live r b) = []) as Hlo by (cbn; by apply Z.eqb_neq in Hr as ->).
    split; unfold unanswered; cbn [sends sent received delivered outstanding id from_option]; try done.
    + rewrite (zip_snoc_r _ _ r b Hlk), Hp, bind_app. cbn [mbind list_bind]. rewrite Hc, app_nil_r.
      by rewrite app_assoc.
    + rewrite bind_app. cbn [mbind list_bind]. rewrite Hlo, Hl, !app_nil_r.
      rewrite !drop_ge; [done|rewrite length_app; cbn; lia|lia].
    + rewrite length_app. cbn [length]. rewrite <- drop_drop, <- Hw. done.
    + rewrite bind_app. cbn [mbind list_bind]. rewrite Hc, app_nil_r, fmap_app, Ho. cbn.
      by rewrite <- app_assoc.
Qed.

Lemma matching_recv r res ws' rs' :
  receive_effect r ws rs res ws' rs' → r ∉ outstanding h →
  matching (receives r res h) ws' rs' ∧
  ∀ b, res = Received b → sent h !! length (received h) = Some b.
Proof using Hm.
  intros He Hr. pose proof Hm as [Hp Hl Hw Ho Hf]. destruct He as [l1 b l2 -> Hl1|Hl1 _|Hl1 _].
  - assert (sent h !! length (received h) = Some b) as Hb.
    { rewrite <- (Nat.add_0_r (length (received h))), <- lookup_drop, <- Hl, bind_app.
      by rewrite bind_not_loose. }
    assert (rs = []) as ->.
    { rewrite Hw. apply drop_ge. apply lookup_lt_Some in Hb. lia. }
    split; [|by intros ? [= <-]]. pose proof (lookup_lt_Some _ _ _ Hb) as Hlt.
    split; unfold unanswered; cbn [receives sent received delivered outstanding]; try done.
    + rewrite (zip_snoc_l _ _ r b Hb), Hp, claims_bubble, !bind_app. cbn.
      solve_Permutation.
    + rewrite loose_bubble, length_app. cbn [length]. rewrite <- drop_drop, <- Hl, !bind_app.
      rewrite (bind_not_loose l1) by done. done.
    + symmetry. apply drop_ge. rewrite length_app. cbn. lia.
    + rewrite app_nil_r, Ho, claims_bubble, !bind_app. done.
    + by rewrite app_nil_r.
  - pose proof (nothing_loose Hl1) as Hle. split; [|done].
    split; unfold unanswered; cbn [receives sent received delivered outstanding]; try done.
    + by rewrite zip_more_l, app_nil_r by lia.
    + rewrite Hl, !drop_ge; [done|rewrite length_app; cbn; lia|lia].
    + rewrite drop_app_le, Hw by lia. done.
    + by rewrite Ho, app_assoc.
    + rewrite NoDup_app. split_and!; [done| |apply NoDup_singleton]. set_solver.
  - split; [|done]. split; unfold unanswered; cbn [receives sent received delivered outstanding];
      by rewrite ?app_nil_r.
Qed.
End matching.

(** A request is in one place: in one slot or among the waiting ones. *)
Lemma unique_mid (r : Z) l l1 l2 :
  l ≡ₚ l1 ++ r :: l2 → NoDup l →
  r ∉ l1 ++ l2 ∧ filter (λ r', r' ≠ r) l ≡ₚ l1 ++ l2.
Proof.
  intros Hl Hn. assert (r ∉ l1 ++ l2) as Hr.
  { rewrite Hl in Hn. apply NoDup_app in Hn as (_ & Hd & [Hr2 _]%NoDup_cons). set_solver. }
  split; [done|]. by rewrite Hl, filter_ne_mid.
Qed.
Lemma live_unique h l1 r b l2 rs :
  matching h (l1 ++ Live r b :: l2) rs → r ≠ 0 →
  r ∉ slot_req <$> l1 ++ l2 ∧ r ∉ rs ∧
  filter (λ r', r' ≠ r) (outstanding h) ≡ₚ ((l1 ++ l2) ≫= claim).*1 ++ rs.
Proof.
  intros [_ _ _ Ho Hf] Hr. rewrite claims_live, fmap_app, fmap_cons, <- app_assoc in Ho by done.
  apply unique_mid in Ho as [Hu Hfi]; [|done].
  rewrite elem_of_claims, bind_app, fmap_app by done. split_and!; [set_solver..|].
  rewrite Hfi. by rewrite <- app_assoc.
Qed.
Lemma waiting_unique h ws r1 r r2 :
  matching h ws (r1 ++ r :: r2) → r ≠ 0 →
  r ∉ slot_req <$> ws ∧ r ∉ r1 ++ r2 ∧
  filter (λ r', r' ≠ r) (outstanding h) ≡ₚ (ws ≫= claim).*1 ++ r1 ++ r2.
Proof.
  intros [_ _ _ Ho Hf] Hr. rewrite app_assoc in Ho.
  apply unique_mid in Ho as [Hu Hfi]; [|done].
  rewrite elem_of_claims by done. rewrite <- app_assoc in *. split_and!; [set_solver..|].
  by rewrite Hfi.
Qed.

Lemma matching_check h l1 r b l2 rs :
  matching h (l1 ++ Live r b :: l2) rs → r ≠ 0 →
  matching (checks r (Some b) h) (trim (l1 ++ Bubble :: l2)) rs.
Proof.
  intros Hm Hr. destruct (live_unique _ _ _ _ _ _ Hm Hr) as (_ & _ & Hfi).
  destruct Hm as [Hp Hl Hw Ho Hf].
  split; unfold unanswered; cbn [checks sent received delivered outstanding]; try done.
  - rewrite Hp, claims_live, claims_bubble, bind_app by done. solve_Permutation.
  - by rewrite loose_bubble, <- Hl, loose_live.
  - by rewrite claims_bubble.
  - by apply NoDup_filter.
Qed.

Lemma matching_cancel h ws r1 r r2 :
  matching h ws (r1 ++ r :: r2) → r ≠ 0 → matching (cancels r h) ws (r1 ++ r2).
Proof.
  intros Hm Hr. destruct (waiting_unique _ _ _ _ _ Hm Hr) as (_ & Hr12 & Hfi).
  destruct (waiting_nonempty h ws _ Hm) with (r := hd 0 (r1 ++ r :: r2))
    (rs' := tail (r1 ++ r :: r2)) as [_ Hlt]; [by destruct r1|].
  destruct Hm as [Hp Hl Hw Ho Hf].
  assert (filter (λ r', r' ≠ r) (unanswered h) = r1 ++ r2) as Hu
    by by rewrite <- Hw, filter_ne_mid.
  assert (length (take (length (sent h)) (received h)) = length (sent h)) as Ht
    by (rewrite length_take; lia).
  split; unfold unanswered; cbn [cancels sent received delivered outstanding]; try done.
  - rewrite <- Hp, zip_more_l by lia.
    rewrite <- (take_drop (length (sent h)) (received h)) at 2. by rewrite zip_more_l by lia.
  - rewrite Hl, !drop_ge; [done|rewrite length_app; lia|lia].
  - by rewrite Hu, <- Ht, drop_app_length at 1.
  - by apply NoDup_filter.
Qed.

(** ** The invariant of all histories *)

Definition explained (q : queue) (h : history) : Prop :=
  ∃ ws rs, ring q ws rs ∧ matching h ws rs.

Lemma outstanding_split h ws rs r :
  matching h ws rs → Forall (λ r, r ≠ 0) rs → r ∈ outstanding h →
  r ≠ 0 ∧ ((∃ l1 b l2, ws = l1 ++ Live r b :: l2) ∨ ∃ r1 r2, rs = r1 ++ r :: r2).
Proof.
  intros [_ _ _ Ho _] Hrs Hr. rewrite Ho in Hr.
  apply elem_of_app in Hr as [[H0 Hs]%claim_split|Hr]; [by split; [|left]|].
  rewrite Forall_forall in Hrs. split; [by apply Hrs|]. right. by apply list_elem_of_split.
Qed.
Lemma unanswered_waiting h ws rs r :
  matching h ws rs → Forall (λ r, r ≠ 0) rs → r ∈ unanswered h →
  r ≠ 0 ∧ ∃ r1 r2, rs = r1 ++ r :: r2.
Proof.
  intros [_ _ Hw _ _] Hrs Hr. rewrite <- Hw in Hr. rewrite Forall_forall in Hrs.
  split; [by apply Hrs|]. by apply list_elem_of_split.
Qed.

Section step.
Context (q : queue) (h : history) (He : explained q h).

Lemma explained_send b :
  b ≠ 0 → ∃ ok q', queue_send b q = Done (ok, q') ∧ explained q' (sends b ok h).
Proof using He.
  intros Hb. destruct He as (ws & rs & Hring & Hm).
  destruct (queue_send_spec _ _ _ b Hring Hb) as (ok & q' & Hq' & _ & _ & Hr').
  exists ok, q'. split; [done|]. destruct ok.
  - eexists _, _. split; [exact Hr'|]. apply matching_send; [done|].
    pose proof (rg_reqs _ _ _ Hring) as Hrs. destruct Hrs; [by left|right; cbn; congruence].
  - exists ws, rs. split; [done|]. destruct Hm. unfold sends. cbn. rewrite app_nil_r.
    by split.
Qed.
Lemma explained_recv r :
  r ≠ 0 → r ∉ outstanding h →
  ∃ res q', queue_recv r q = Done (res, q') ∧ explained q' (receives r res h) ∧
    ∀ b, res = Received b → sent h !! length (received h) = Some b.
Proof using He.
  intros Hr Ho. destruct He as (ws & rs & Hring & Hm).
  destruct (queue_recv_spec _ _ _ r Hring Hr) as (res & q' & ws' & rs' & Hq' & _ & Heff & Hr').
  destruct (matching_recv _ _ _ Hm _ _ _ _ Heff Ho) as [Hm' Hb].
  exists res, q'. split_and!; [done|by exists ws', rs'|done].
Qed.
Lemma explained_check r :
  r ∈ outstanding h →
  ∃ res q', queue_check r q = Done (res, q') ∧ explained q' (checks r res h).
Proof using He.
  intros Ho. destruct He as (ws & rs & Hring & Hm).
  destruct (outstanding_split _ _ _ r Hm (rg_reqs _ _ _ Hring) Ho)
    as (Hr & [(l1 & b & l2 & ->)|(r1 & r2 & ->)]).
  - destruct (live_unique _ _ _ _ _ _ Hm Hr) as (Hl & Hrs & _).
    destruct (queue_check_arrived _ _ _ _ _ _ Hring Hr Hl Hrs) as (q' & Hq' & _ & Hr').
    exists (Some b), q'. split; [done|]. eexists _, _. split; [exact Hr'|]. by apply matching_check.
  - destruct (waiting_unique _ _ _ _ _ Hm Hr) as (Hl & Hrs & _).
    exists None, q. split; [by eapply queue_check_waiting|]. by eexists _, _.
Qed.
Lemma explained_cancel r :
  r ∈ unanswered h →
  ∃ q', cancel_entry r q = Done (tt, q') ∧ explained q' (cancels r h).
Proof using He.
  intros Ho. destruct He as (ws & rs & Hring & Hm).
  destruct (unanswered_waiting _ _ _ r Hm (rg_reqs _ _ _ Hring) Ho) as (Hr & r1 & r2 & ->).
  destruct (waiting_unique _ _ _ _ _ Hm Hr) as (Hl & Hrs & _).
  destruct (cancel_entry_spec _ _ _ _ _ Hring Hl Hrs) as (q' & Hq' & _ & Hr').
  exists q'. split; [done|]. eexists _, _. split; [exact Hr'|]. by apply matching_cancel.
Qed.
End step.

Lemma history_explained q h : queue_history q h → explained q h.
Proof.
  induction 1 as [|q h b ok q' _ IH Hb Hq|q h r res q' _ IH Hr Ho Hq|q h r res q' _ IH Ho Hq
                 |q h r q' _ IH Ho Hq].
  - exists [], []. split; [apply ring_zero|]. by split; try apply NoDup_nil_2.
  - destruct (explained_send _ _ IH b Hb) as (ok' & q1 & Hq1 & He). congruence.
  - destruct (explained_recv _ _ IH r Hr Ho) as (res' & q1 & Hq1 & He & _). congruence.
  - destruct (explained_check _ _ IH r Ho) as (res' & q1 & Hq1 & He). congruence.
  - destruct (explained_cancel _ _ IH r Ho) as (q1 & Hq1 & He). congruence.
Qed.

Lemma live_count ws :
  countb is_live ws = Z.of_nat (length (ws ≫= claim) + length (ws ≫= loose)).
Proof.
  induction ws as [|[r b|] ws IH]; [done| |].
  - rewrite countb_cons, IH. cbn. destruct (r =? 0); cbn; lia.
  - rewrite countb_cons, IH. done.
Qed.

(** ** What a receive and a test answer *)

Lemma receive_answer h ws rs :
  matching h ws rs → ∀ r res ws' rs',
  receive_effect r ws rs res ws' rs' → r ∉ outstanding h →
  match sent h !! length (received h) with
  | Some b => res = Received b
  | None => res = Reserved ∨ res = NoRoom
  end.
Proof.
  intros Hm r res ws' rs' Heff Ho.
  destruct (matching_recv _ _ _ Hm _ _ _ _ Heff Ho) as [_ Hb].
  assert (Forall (λ s, is_loose s = false) ws → sent h !! length (received h) = None) as Hnone.
  { intros Hl%(nothing_loose h ws rs Hm). by apply lookup_ge_None. }
  destruct Heff as [l1 b l2 Hws Hl1|Hl _|Hl _].
  - by rewrite (Hb b eq_refl).
  - rewrite Hnone by done. by left.
  - rewrite Hnone by done. by right.
Qed.

Lemma test_answer q h r :
  explained q h → r ∈ outstanding h →
  ∃ res q', queue_check r q = Done (res, q') ∧
    match res with
    | Some b => (r, b) ∈ zip (received h) (sent h) ∧ r ∉ unanswered h
    | None => r ∈ unanswered h ∧ q' = q
    end.
Proof.
  intros (ws & rs & Hring & Hm) Ho.
  destruct (outstanding_split _ _ _ r Hm (rg_reqs _ _ _ Hring) Ho)
    as (Hr & [(l1 & b & l2 & ->)|(r1 & r2 & ->)]).
  - destruct (live_unique _ _ _ _ _ _ Hm Hr) as (Hl & Hrs & _).
    destruct (queue_check_arrived _ _ _ _ _ _ Hring Hr Hl Hrs) as (q' & Hq' & _).
    exists (Some b), q'. split; [done|]. rewrite <- (mt_waiting _ _ _ Hm). split; [|done].
    rewrite (mt_pairs _ _ _ Hm), claims_live by done. set_solver.
  - destruct (waiting_unique _ _ _ _ _ Hm Hr) as (Hl & Hrs & _).
    exists None, q. split; [by eapply queue_check_waiting|].
    rewrite <- (mt_waiting _ _ _ Hm). split; [|done]. set_solver.
Qed.
