(* ===== verification/McapiQueueTheorems.v ===== *)
(** What an endpoint's receive queue promises: every receive gets the message
    of its rank, and no operation on a queue that was used by its protocol
    fails. *)

From S2P Require Import Prelude Bytes McapiTypes McapiQueue McapiRing McapiQueueSpec McapiFifo.

#[local] Opaque MCAPI_MAX_QUEUE_ENTRIES MCAPI_MAX_QUEUE_ELEMENTS.

Lemma matched_length h ws rs :
  matching h ws rs →
  (length (delivered h) + length (ws ≫= claim) + length (ws ≫= loose) = length (sent h))%nat.
Proof.
  intros [Hp Hl _ _ _]. apply Permutation_length in Hp. apply (f_equal length) in Hl.
  rewrite length_drop in Hl. rewrite length_app, length_zip_with in Hp. lia.
Qed.
Lemma claimed_answer h ws rs r b :
  matching h ws rs → (r, b) ∈ ws ≫= claim → (r, b) ∈ zip (received h) (sent h).
Proof. intros [Hp _ _ _ _] Hin. rewrite Hp. set_solver. Qed.

(** C14: a receive queue is first in, first out, also for receives that were
    posted before their message arrived and after cancellations: whatever was
    delivered is the message whose rank among the sent ones is the rank of the
    receive; when no receive waits, these are all deliveries due; and the
    number of elements the queue reports is the number of messages sent and
    not yet delivered. *)
Theorem messages_delivered_in_order q h :
  queue_history q h →
  delivered h ⊆+ zip (received h) (sent h) ∧
  (outstanding h = [] → delivered h ≡ₚ zip (received h) (sent h)) ∧
  q_num_elements q = Z.of_nat (length (sent h)) - Z.of_nat (length (delivered h)).
Proof.
  intros (ws & rs & Hring & Hm)%history_explained. pose proof Hm as [Hp _ _ Ho _].
  split_and!.
  - rewrite Hp. by apply submseteq_inserts_r.
  - intros Hnone. rewrite Hnone in Ho. symmetry in Ho. apply Permutation_nil_r in Ho.
    apply app_nil in Ho as [Hc%fmap_nil_inv _]. by rewrite Hp, Hc, app_nil_r.
  - rewrite (rg_num _ _ _ Hring), live_count. pose proof (matched_length _ _ _ Hm). lia.
Qed.

(** Two receives are posted, the first is cancelled, two messages arrive:
    the receive that was kept gets the first. *)
Definition example_run : result (list (option Z) * queue) :=
  match queue_recv 11 zero_queue with
  | Done (_, q) => match queue_recv 12 q with
  | Done (_, q) => match cancel_entry 11 q with
  | Done (_, q) => match queue_send 21 q with
  | Done (_, q) => match queue_send 22 q with
  | Done (_, q) => match queue_check 12 q with
  | Done (a, q) => match queue_recv 13 q with
  | Done (Received b, q) => Done ([a; Some b], q)
  | Done (_, q) => Done ([a; None], q)
  | Fault f => Fault f end | Fault f => Fault f end | Fault f => Fault f end
  | Fault f => Fault f end | Fault f => Fault f end | Fault f => Fault f end
  | Fault f => Fault f end.

Definition example_history : history :=
  mk_history [21; 22] [12; 13] [(12, 21); (13, 22)] [].

Definition run_queue : queue :=
  Eval vm_compute in match example_run with Done (_, q) => q | Fault _ => zero_queue end.

Lemma run_history : queue_history run_queue example_history.
Proof.
  change example_history with
    (receives 13 (Received 22) (checks 12 (Some 21) (sends 22 true (sends 21 true
      (cancels 11 (receives 12 Reserved (receives 11 Reserved (mk_history [] [] [] [])))))))).
  eapply history_recv; [eapply history_check; [eapply history_send; [eapply history_send;
    [eapply history_cancel; [eapply history_recv; [eapply history_recv;
      [apply history_start|..]|..]|..]|..]|..]|..]|..].
  all: lazymatch goal with
       | |- _ = Done _ => vm_compute; reflexivity
       | |- _ ∉ _ => vm_compute; set_solver
       | |- _ ∈ _ => vm_compute; set_solver
       | |- _ => done
       end.
Qed.

Lemma messages_delivered_in_order_witness :
  queue_history run_queue example_history ∧
  delivered example_history ≡ₚ zip (received example_history) (sent example_history).
Proof.
  split; [exact run_history|].
  exact (proj1 (proj2 (messages_delivered_in_order _ _ run_history)) eq_refl).
Defined.

(** C15: on a queue used by its protocol no operation fails.  A send is
    accepted or refused; a receive takes the message of its rank when it is
    there, and else is reserved or refused; a test answers a receive exactly
    when its message has arrived, with that message; a receive whose message
    has not arrived can be cancelled. *)
Theorem queue_never_fails q h :
  queue_history q h →
  (∀ b, b ≠ 0 → ∃ ok q', queue_send b q = Done (ok, q')) ∧
  (∀ r, r ≠ 0 → r ∉ outstanding h → ∃ res q', queue_recv r q = Done (res, q') ∧
     match sent h !! length (received h) with
     | Some b => res = Received b
     | None => res = Reserved ∨ res = NoRoom
     end) ∧
  (∀ r, r ∈ outstanding h → ∃ res q', queue_check r q = Done (res, q') ∧
     match res with
     | Some b => (r, b) ∈ zip (received h) (sent h) ∧ r ∉ unanswered h
     | None => r ∈ unanswered h ∧ q' = q
     end) ∧
  (∀ r, r ∈ unanswered h → ∃ q', cancel_entry r q = Done (tt, q')).
Proof.
  intros He%history_explained. split_and!.
  - intros b Hb. destruct (explained_send _ _ He b Hb) as (ok & q' & Hq & _). eauto.
  - intros r Hr Ho. destruct He as (ws & rs & Hring & Hm).
    destruct (queue_recv_spec _ _ _ r Hring Hr) as (res & q' & ws' & rs' & Hq & _ & Heff & _).
    exists res, q'. split; [done|]. by apply (receive_answer h ws rs Hm r res ws' rs').
  - intros r Ho. by apply test_answer.
  - intros r Ho. destruct (explained_cancel _ _ He r Ho) as (q' & Hq & _). eauto.
Qed.

Lemma queue_never_fails_witness :
  queue_history run_queue example_history ∧
  ∃ res q', queue_recv 14 run_queue = Done (res, q') ∧ (res = Reserved ∨ res = NoRoom).
Proof.
  split; [exact run_history|].
  refine (proj1 (proj2 (queue_never_fails _ _ run_history)) 14 _ _); [done|vm_compute; set_solver].
Defined.

(** The cancellation the code also allows, of a receive whose message has
    arrived: the second receive loses its message to the third. *)
Example cancel_after_arrival :
  (match queue_recv 11 zero_queue with
   | Done (_, q) => match queue_recv 12 q with
   | Done (_, q) => match queue_send 21 q with
   | Done (_, q) => match cancel_entry 11 q with
   | Done (_, q) => match queue_recv 13 q with
   | Done (res, q) => match queue_check 12 q with
   | Done (o, _) => Done (res, o)
   | Fault f => Fault f end | Fault f => Fault f end | Fault f => Fault f end
   | Fault f => Fault f end | Fault f => Fault f end | Fault f => Fault f end)
  = Done (Received 21, None).
Proof. vm_compute. reflexivity. Qed.
