(* ===== verification/McapiAccess.v ===== *)
(** The rules of the access functions: one lemma per way the operations reach
    a queue, a buffer or user memory; and the request table around an operation. *)

From S2P Require Import Prelude Bytes McapiTypes McapiQueue McapiRequests McapiTransport McapiMessages McapiRequestList.

(** The receive queue of an endpoint. *)
Definition queue_at (d n e : nat) (w : world) : option queue :=
  ep_recv_queue <$> endpoint_at d n e (w_db w).
Definition with_queue (d n e : nat) (q : queue) (w : world) : world :=
  w <| w_db ::= upd_endpoint d n e (λ ep, ep <| ep_recv_queue := q |>) |>.
Definition buffers (w : world) : list buffer_entry := m_buffers (w_db w).
Definition with_buffers (f : list buffer_entry → list buffer_entry) (w : world) : world :=
  w <| w_db ::= λ db, db <| m_buffers ::= f |> |>.
Definition with_mem (m : gmap Z Z) (w : world) : world := w <| w_mem := m |>.

Lemma endpoint_at_upd d n e f db ep :
  endpoint_at d n e db = Some ep → endpoint_at d n e (upd_endpoint d n e f db) = Some (f ep).
Proof.
  unfold endpoint_at, upd_endpoint, upd_mnode. cbn. rewrite list_lookup_alter_eq.
  destruct (m_domains db !! d) as [dm|]; [|done]. cbn. rewrite list_lookup_alter_eq.
  destruct (de_nodes dm !! n) as [nd|]; [|done]. cbn. rewrite list_lookup_alter_eq.
  by intros ->.
Qed.
Lemma endpoint_at_upd_ne d n e d' n' e' f db :
  (d', n', e') ≠ (d, n, e) →
  endpoint_at d' n' e' (upd_endpoint d n e f db) = endpoint_at d' n' e' db.
Proof.
  intros Hne. unfold endpoint_at, upd_endpoint, upd_mnode. cbn.
  destruct (decide (d' = d)) as [->|]; [rewrite list_lookup_alter_eq|by rewrite list_lookup_alter_ne].
  destruct (m_domains db !! d) as [dm|]; [|done]. cbn.
  destruct (decide (n' = n)) as [->|]; [rewrite list_lookup_alter_eq|by rewrite list_lookup_alter_ne].
  destruct (de_nodes dm !! n) as [nd|]; [|done]. cbn.
  rewrite list_lookup_alter_ne; [done|congruence].
Qed.
Lemma queue_at_with d n e q w :
  is_Some (queue_at d n e w) → queue_at d n e (with_queue d n e q w) = Some q.
Proof.
  unfold queue_at. intros [q0 Hq0]. destruct (endpoint_at d n e (w_db w)) eqn:He; [|done].
  cbn. by erewrite endpoint_at_upd.
Qed.
Lemma queue_at_with_ne d n e d' n' e' q w :
  (d', n', e') ≠ (d, n, e) → queue_at d' n' e' (with_queue d n e q w) = queue_at d' n' e' w.
Proof. intros Hne. unfold queue_at. cbn. by rewrite endpoint_at_upd_ne. Qed.

(** Updates of the same place compose; updates of different parts of the
    database commute by computation. *)
Lemma upd_endpoint_twice d n e f g db :
  upd_endpoint d n e f (upd_endpoint d n e g db) = upd_endpoint d n e (f ∘ g) db.
Proof.
  destruct db as [dms bs rqs h nd]. unfold upd_endpoint, upd_mnode, set_field. cbn. f_equal.
  rewrite list_alter_alter_eq. apply list_alter_ext; [|done]. intros [? ? ? nds] _. cbn. f_equal.
  rewrite list_alter_alter_eq. apply list_alter_ext; [|done]. intros [? ? ? ? ? ? eps] _. cbn.
  f_equal. by rewrite list_alter_alter_eq.
Qed.
Lemma with_queue_twice d n e q q' w : with_queue d n e q (with_queue d n e q' w) = with_queue d n e q w.
Proof. unfold with_queue, set_field. destruct w as [db m]. cbn. f_equal. apply upd_endpoint_twice. Qed.
Lemma with_buffers_twice (f g : buffer_entry → buffer_entry) i w :
  with_buffers (alter f i) (with_buffers (alter g i) w) = with_buffers (alter (f ∘ g) i) w.
Proof.
  destruct w as [[? bs ? ? ?] m]. unfold with_buffers, set_field. cbn. do 2 f_equal. apply list_alter_alter_eq.
Qed.
Lemma with_buffers_queue f d n e q w :
  with_buffers f (with_queue d n e q w) = with_queue d n e q (with_buffers f w).
Proof. done. Qed.

(** ** Rules *)

Section rules.
Context (d n e : nat).

Lemma wp_get_queue q w (Q : queue → world → Prop) :
  queue_at d n e w = Some q → Q q w → wp (get_queue d n e) Q w.
Proof.
  unfold queue_at. intros (ep & He & ->)%fmap_Some HQ. unfold get_queue, get_endpoint.
  apply wp_bind, wp_bind, wp_gets. by eapply wp_oob.
Qed.
Lemma wp_on_queue {A} (f : queue → result (A * queue)) q a q' w (Q : A → world → Prop) :
  queue_at d n e w = Some q → f q = Done (a, q') → Q a (with_queue d n e q' w) →
  wp (on_queue d n e f) Q w.
Proof.
  intros Hq Hf HQ. unfold on_queue. apply wp_bind. eapply wp_get_queue; [done|].
  apply wp_bind. eapply wp_lift; [done|]. apply wp_bind. unfold set_queue, modify_endpoint.
  unfold queue_at in Hq. apply fmap_Some in Hq as (ep & He & ->).
  apply wp_bind, wp_bind, wp_gets. eapply wp_oob; [exact He|]. apply wp_modify. by apply wp_ret.
Qed.
End rules.

Lemma wp_get_buffer i b w (Q : buffer_entry → world → Prop) :
  buffers w !! i = Some b → Q b w → wp (get_buffer i) Q w.
Proof. intros Hb HQ. apply wp_bind, wp_gets. by eapply wp_oob. Qed.
Lemma wp_modify_buffer i f b w (Q : unit → world → Prop) :
  buffers w !! i = Some b → Q tt (with_buffers (alter f i) w) → wp (modify_buffer i f) Q w.
Proof. intros Hb HQ. apply wp_bind. eapply wp_get_buffer; [done|]. by apply wp_modify. Qed.
Lemma wp_load k a l w (Q : list Z → world → Prop) :
  load_bytes k a (w_mem w) = Done l → Q l w → wp (load k a) Q w.
Proof. intros Hl HQ. apply wp_bind, wp_get. by eapply wp_lift. Qed.
Lemma wp_store l a m w (Q : unit → world → Prop) :
  store_bytes l a (w_mem w) = Done m → Q tt (with_mem m w) → wp (store l a) Q w.
Proof.
  intros Hl HQ. apply wp_bind, wp_get, wp_bind. eapply wp_lift; [done|]. by apply wp_modify.
Qed.
Lemma wp_decode h d n e w (Q : nat * nat * nat → world → Prop) :
  mcapi_trans_decode_handle h = (d, n, e, true) → Q (d, n, e) w → wp (decode_endpoint h) Q w.
Proof. intros Hd HQ. unfold decode_endpoint. rewrite Hd. apply wp_bind. by apply wp_assert. Qed.

Definition requests (w : world) : list mcapi_request_data := m_requests (w_db w).
Lemma wp_get_mrequest r x w (Q : mcapi_request_data → world → Prop) :
  requests w !! r = Some x → Q x w → wp (get_mrequest r) Q w.
Proof. intros Hx HQ. apply wp_bind, wp_gets. by eapply wp_oob. Qed.
Definition with_request (r : nat) (f : mcapi_request_data → mcapi_request_data)
    (w : world) : world := w <| w_db ::= λ db, db <| m_requests ::= alter f r |> |>.
Lemma wp_modify_mrequest r f x w (Q : unit → world → Prop) :
  requests w !! r = Some x → Q tt (with_request r f w) → wp (modify_mrequest r f) Q w.
Proof. intros Hx HQ. apply wp_bind. eapply wp_get_mrequest; [done|]. by apply wp_modify. Qed.

(** The request lists. *)
Definition header (w : world) : indexed_array_header := request_reserves_header (w_db w).
Definition with_header (h : indexed_array_header) (w : world) : world :=
  w <| w_db ::= λ db, db <| request_reserves_header := h |> |>.
Lemma wp_on_header {A} (m : M indexed_array_header A) a h w (Q : A → world → Prop) :
  m (header w) = Done (a, h) → Q a (with_header h w) → wp (on_header m) Q w.
Proof.
  intros Hm HQ. unfold on_header. apply wp_bind, wp_gets, wp_bind.
  eapply wp_lift; [exact Hm|]. apply wp_bind, wp_modify. by apply wp_ret.
Qed.

(** A run described by a postcondition that fixes result and state. *)
Lemma wp_exact {S A} (m : M S A) s a s' : wp m (λ a1 s1, a1 = a ∧ s1 = s') s → m s = Done (a, s').
Proof. intros (a1 & s1 & -> & -> & ->)%wp_done. done. Qed.

(** Of the database only the queue of [d], [n], [e] and buffers differ. *)
Record frame (d n e : nat) (w w' : world) : Prop := {
  fr_requests : requests w' = requests w;
  fr_header : header w' = header w;
  fr_queues : ∀ d' n' e', (d', n', e') ≠ (d, n, e) → queue_at d' n' e' w' = queue_at d' n' e' w }.
Lemma frame_refl d n e w : frame d n e w w.
Proof. done. Qed.
Lemma frame_queue d n e q f m w : frame d n e w (with_queue d n e q (with_buffers f (with_mem m w))).
Proof. split; [done..|]. intros. by rewrite queue_at_with_ne. Qed.

(** ** What the updates leave alone *)

Lemma queue_at_buffers d n e f w : queue_at d n e (with_buffers f w) = queue_at d n e w.
Proof. done. Qed.
Lemma queue_at_mem d n e m w : queue_at d n e (with_mem m w) = queue_at d n e w.
Proof. done. Qed.
Lemma buffers_queue d n e q w : buffers (with_queue d n e q w) = buffers w.
Proof. done. Qed.
Lemma buffers_with f w : buffers (with_buffers f w) = f (buffers w).
Proof. done. Qed.
Lemma buffers_mem m w : buffers (with_mem m w) = buffers w.
Proof. done. Qed.
Lemma mem_queue d n e q w : w_mem (with_queue d n e q w) = w_mem w.
Proof. done. Qed.
Lemma mem_buffers f w : w_mem (with_buffers f w) = w_mem w.
Proof. done. Qed.
Lemma queue_at_request d n e r f w : queue_at d n e (with_request r f w) = queue_at d n e w.
Proof. done. Qed.
Lemma buffers_request r f w : buffers (with_request r f w) = buffers w.
Proof. done. Qed.
Lemma mem_request r f w : w_mem (with_request r f w) = w_mem w.
Proof. done. Qed.
Lemma requests_queue d n e q w : requests (with_queue d n e q w) = requests w.
Proof. done. Qed.
Lemma requests_buffers f w : requests (with_buffers f w) = requests w.
Proof. done. Qed.
Lemma requests_mem m w : requests (with_mem m w) = requests w.
Proof. done. Qed.
Lemma requests_with r f w : requests (with_request r f w) = alter f r (requests w).
Proof. done. Qed.
Create Rewrite HintDb world.
#[export] Hint Rewrite queue_at_request buffers_request mem_request requests_queue
  requests_buffers requests_mem requests_with : world.
#[export] Hint Rewrite queue_at_buffers queue_at_mem buffers_queue buffers_with buffers_mem
  mem_queue mem_buffers : world.

(** ** User memory *)

(** ** The request table around an operation: operations on queues and buffers
    do not see it, and a request that completes at once is reserved, set up
    and taken back by the next test. *)

#[local] Opaque MCAPI_MAX_QUEUE_ENTRIES MCAPI_MAX_BUFFERS.

(** ** The table as a part of the world *)

Definition with_table (rqs : list mcapi_request_data) (h : indexed_array_header)
    (w : world) : world :=
  mk_world (w_db w <| m_requests := rqs |> <| request_reserves_header := h |>) (w_mem w).

Lemma table_id w : with_table (requests w) (header w) w = w.
Proof. by destruct w as [[] ?]. Qed.
Lemma table_table rqs h rqs' h' w : with_table rqs h (with_table rqs' h' w) = with_table rqs h w.
Proof. done. Qed.
Lemma table_request r f rqs h w :
  with_request r f (with_table rqs h w) = with_table (alter f r rqs) h w.
Proof. done. Qed.
Lemma table_header h' rqs h w : with_header h' (with_table rqs h w) = with_table rqs h' w.
Proof. done. Qed.
Lemma requests_table rqs h w : requests (with_table rqs h w) = rqs.
Proof. done. Qed.
Lemma header_table rqs h w : header (with_table rqs h w) = h.
Proof. done. Qed.
Lemma queue_at_table d n e rqs h w : queue_at d n e (with_table rqs h w) = queue_at d n e w.
Proof. done. Qed.
Lemma buffers_table rqs h w : buffers (with_table rqs h w) = buffers w.
Proof. done. Qed.
Lemma mem_table rqs h w : w_mem (with_table rqs h w) = w_mem w.
Proof. done. Qed.
#[export] Hint Rewrite table_table table_request table_header requests_table header_table
  queue_at_table buffers_table mem_table : world.

(** ** Operations that do not see the table *)

Definition indep {A} (m : M world A) : Prop := ∀ rqs h w,
  m (with_table rqs h w) =
  match m w with Done (a, w') => Done (a, with_table rqs h w') | Fault f => Fault f end.

Section indep.
Context {A B : Type}.
Implicit Types (m : M world A).

Lemma indep_done m rqs h w a w' :
  indep m → m w = Done (a, w') → m (with_table rqs h w) = Done (a, with_table rqs h w').
Proof. intros Hm Hw. by rewrite Hm, Hw. Qed.
Lemma indep_keeps m w a w' :
  indep m → m w = Done (a, w') → requests w' = requests w ∧ header w' = header w.
Proof.
  intros Hm Hw. pose proof (Hm (requests w) (header w) w) as H.
  rewrite table_id, Hw in H. injection H as H. by rewrite H.
Qed.
Lemma indep_ret (a : A) : indep (ret a).
Proof. done. Qed.
Lemma indep_raise f : indep (raise (A := A) f).
Proof. done. Qed.
Lemma indep_lift (r : result A) : indep (lift r).
Proof. intros rqs h w. by destruct r. Qed.
Lemma indep_oob (o : option A) : indep (from_option_oob o).
Proof. by destruct o. Qed.
Lemma indep_bind m (k : A → M world B) : indep m → (∀ a, indep (k a)) → indep (bind m k).
Proof.
  intros Hm Hk rqs h w. unfold bind. rewrite Hm. destruct (m w) as [[a w']|]; [apply Hk|done].
Qed.
(** Reading the database, but not the table. *)
Lemma indep_mdb (k : mcapi_database → M world A) :
  (∀ rqs h w, k (w_db (with_table rqs h w)) = k (w_db w)) → (∀ db, indep (k db)) →
  indep (let* db := get_mdb in k db).
Proof.
  intros Hk Hi rqs h w. unfold bind, get_mdb, gets. rewrite Hk. apply Hi.
Qed.
End indep.
Lemma indep_assert b : indep (c_assert b).
Proof. by destruct b. Qed.
Lemma indep_modify (f : world → world) :
  (∀ rqs h w, f (with_table rqs h w) = with_table rqs h (f w)) → indep (modify f).
Proof. intros Hf rqs h w. unfold modify. by rewrite Hf. Qed.

Create HintDb indep.
#[export] Hint Resolve indep_ret indep_raise indep_lift indep_oob indep_assert : indep.

(** One step on the shape of the computation. *)
Ltac indep_step :=
  match goal with
  | |- indep (bind get_mdb _) => apply indep_mdb; [done|intros ?]
  | |- indep (bind _ _) => apply indep_bind; [|intros ?]
  | |- indep (modify _) => apply indep_modify; done
  | |- indep (modify_mdb _) => apply indep_modify; done
  | |- indep (match ?x with _ => _ end) => destruct x
  | |- indep (let '_ := ?x in _) => destruct x
  end.
Ltac solve_indep := repeat (first [solve [auto with indep] | indep_step]); cbn beta iota in *.

Lemma indep_get_endpoint d n e : indep (get_endpoint d n e).
Proof. unfold get_endpoint. solve_indep. Qed.
#[export] Hint Resolve indep_get_endpoint : indep.
Lemma indep_modify_endpoint d n e f : indep (modify_endpoint d n e f).
Proof. unfold modify_endpoint. solve_indep. Qed.
Lemma indep_get_queue d n e : indep (get_queue d n e).
Proof. unfold get_queue. solve_indep. Qed.
#[export] Hint Resolve indep_modify_endpoint indep_get_queue : indep.
Lemma indep_on_queue {A} d n e (f : queue → result (A * queue)) : indep (on_queue d n e f).
Proof. unfold on_queue, set_queue. solve_indep. Qed.
Lemma indep_get_buffer i : indep (get_buffer i).
Proof. unfold get_buffer. solve_indep. Qed.
#[export] Hint Resolve indep_on_queue indep_get_buffer : indep.
Lemma indep_modify_buffer i f : indep (modify_buffer i f).
Proof. unfold modify_buffer. solve_indep. Qed.
Lemma indep_decode h : indep (decode_endpoint h).
Proof. unfold decode_endpoint. solve_indep. Qed.
Lemma indep_load k a : indep (load k a).
Proof. intros rqs h w. unfold load, bind, get, lift. cbn. by destruct (load_bytes k a (w_mem w)). Qed.
Lemma indep_store l a : indep (store l a).
Proof.
  intros rqs h w. unfold store, bind, get, lift, modify. cbn.
  by destruct (store_bytes l a (w_mem w)).
Qed.
#[export] Hint Resolve indep_modify_buffer indep_decode indep_load indep_store : indep.

Lemma indep_send rd rn re buffer size v :
  indep (mcapi_trans_send_have_lock rd rn re buffer size v).
Proof. unfold mcapi_trans_send_have_lock. solve_indep. Qed.
Lemma indep_recv_ buff_addr rd rn re buffer size qindex has_scalar :
  indep (mcapi_trans_recv_have_lock_ buff_addr rd rn re buffer size qindex has_scalar).
Proof. unfold mcapi_trans_recv_have_lock_. solve_indep. Qed.
#[export] Hint Resolve indep_send indep_recv_ : indep.
Lemma indep_recv buff_addr rd rn re buffer size has_scalar :
  indep (mcapi_trans_recv_have_lock buff_addr rd rn re buffer size has_scalar).
Proof. unfold mcapi_trans_recv_have_lock. solve_indep. Qed.
Lemma indep_connect sh rh type : indep (mcapi_trans_connect_channel_have_lock sh rh type).
Proof. unfold mcapi_trans_connect_channel_have_lock. solve_indep. Qed.
Lemma indep_open d n e : indep (mcapi_trans_open_channel_have_lock d n e).
Proof. unfold mcapi_trans_open_channel_have_lock. solve_indep. Qed.
Lemma indep_close d n e : indep (mcapi_trans_close_channel_have_lock d n e).
Proof. unfold mcapi_trans_close_channel_have_lock. solve_indep. Qed.
Lemma indep_no_chan d n e : indep (assert_no_chan d n e).
Proof. unfold assert_no_chan. solve_indep. Qed.
#[export] Hint Resolve indep_recv indep_connect indep_open indep_close indep_no_chan : indep.

(** ** Request handles *)

Lemma request_handle_all :
  forallb (λ r, bool_decide (mcapi_trans_decode_request_handle (encode_request_handle r) = Some r))
    (seq 0 MCAPI_MAX_REQUESTS) = true.
Proof. vm_compute. reflexivity. Qed.
Lemma request_handle r :
  (r < MCAPI_MAX_REQUESTS)%nat →
  mcapi_trans_decode_request_handle (encode_request_handle r) = Some r.
Proof.
  intros Hr. pose proof request_handle_all as Hall. rewrite forallb_forall in Hall.
  specialize (Hall r). rewrite in_seq in Hall. apply bool_decide_eq_true in Hall; [done|lia].
Qed.
#[local] Opaque encode_request_handle mcapi_trans_decode_request_handle.

(** ** Reserving and setting up *)

(** The table is consistent, with at least two free entries, [r] first. *)
Record table (w : world) (r f : nat) (free used : list nat) : Prop := {
  tb_header : header_wf (header w) (r :: f :: free) used;
  tb_length : length (requests w) = MCAPI_MAX_REQUESTS }.

Lemma table_index w r f free used : table w r f free used → (r < MCAPI_MAX_REQUESTS)%nat.
Proof.
  intros [Hwf _]. apply (perm_facts _ _ r (hw_perm _ _ _ Hwf)), elem_of_app. left. left.
Qed.

Lemma reserve_done w r f free used :
  table w r f free used →
  ∃ h1, mcapi_trans_reserve_request_have_lock w =
      Done (Some r, with_table (alter (λ x, x <| rq_valid := true |>) r (requests w)) h1 w) ∧
    header_wf h1 (f :: free) (r :: used).
Proof.
  intros Ht. pose proof (table_index _ _ _ _ _ Ht) as Hr. destruct Ht as [Hwf Hlen].
  destruct (reserve_index_some _ r used f free Hwf) as (h1 & Hres & Hwf1). exists h1. split; [|done].
  destruct (lookup_lt_is_Some_2 (requests w) r) as [x Hx]; [lia|].
  apply wp_exact. unfold mcapi_trans_reserve_request_have_lock. apply wp_bind.
  eapply wp_on_header; [exact Hres|]. cbv beta iota. rewrite Nat2Z.id. apply wp_bind.
  eapply wp_modify_mrequest; [exact Hx|]. apply wp_ret. split; [done|].
  by destruct w as [[] ?].
Qed.

(** What [setup_request_have_lock] makes of a request that is complete. *)
Definition completed_as (handle st size : Z) (type : mcapi_request_type)
    (x : mcapi_request_data) : mcapi_request_data :=
  x <| rq_status := st |> <| rq_size := size |> <| rq_cancelled := false |>
    <| rq_completed := true |> <| rq_type := type |> <| rq_handle := handle |>.

Lemma setup_completed w x handle hp st size buffer type nn pn dn r :
  requests w !! r = Some x → type ≠ GET_ENDPT →
  setup_request_have_lock handle hp st true size buffer type nn pn dn r w =
    Done (encode_request_handle r, with_request r (completed_as handle st size type) w).
Proof.
  intros Hx Ht. apply wp_exact. unfold setup_request_have_lock.
  apply wp_bind. eapply wp_modify_mrequest; [exact Hx|].
  apply wp_bind. eapply (wp_intro _ _ _ tt); [by destruct buffer as [[]|]|].
  apply wp_bind. eapply wp_modify_mrequest.
  { autorewrite with world. by rewrite list_lookup_alter_eq, Hx. }
  apply wp_bind. rewrite decide_False by done. apply wp_ret, wp_bind.
  rewrite andb_false_r. apply wp_ret, wp_ret. split; [done|].
  destruct w as [[? ? rqs ? ?] ?]. unfold with_request, set_field. cbn. do 2 f_equal.
  by rewrite list_alter_alter_eq.
Qed.

(** ** Testing a completed request *)

Record complete (x : mcapi_request_data) : Prop := {
  cp_valid : rq_valid x = true;
  cp_cancelled : rq_cancelled x = false;
  cp_completed : rq_completed x = true }.

Lemma test_complete buff_addr w r x free u1 u2 size st :
  (r < MCAPI_MAX_REQUESTS)%nat → requests w !! r = Some x → complete x →
  header_wf (header w) free (u1 ++ r :: u2) →
  ∃ h', mcapi_trans_test_i buff_addr (encode_request_handle r) size st w =
      Done (true, 0, rq_size x, rq_status x,
            with_table (alter (λ _, zero_mrequest) r (requests w)) h' w) ∧
    header_wf h' (r :: free) (u1 ++ u2).
Proof.
  intros Hr Hx [Hv Hc Hd] Hwf. destruct (remove_request_done _ r free u1 u2 Hwf) as (h' & Hrem & Hwf').
  exists h'. split; [|done]. apply wp_exact. unfold mcapi_trans_test_i. rewrite request_handle by done.
  apply wp_bind. eapply wp_get_mrequest; [exact Hx|]. rewrite Hv, Hc, Hd. cbn [negb].
  apply wp_bind, wp_ret, wp_bind. eapply wp_get_mrequest; [exact Hx|]. rewrite Hd.
  apply wp_bind. eapply wp_on_header; [exact Hrem|]. apply wp_bind.
  eapply wp_modify_mrequest; [exact Hx|]. apply wp_ret. split; [done|]. by destruct w as [[] ?].
Qed.

(** Reserving, setting up as complete and testing: the answer of the test is
    what was set up, and the table is as before.  [w1] is the world after the
    operation in between. *)
Lemma submit_test buff_addr w w1 h1 r f free used handle st size type tsize tst :
  table w r f free used → header_wf h1 (f :: free) (r :: used) → requests w1 = requests w →
  let w2 := with_request r (completed_as handle st size type)
    (with_table (alter (λ x, x <| rq_valid := true |>) r (requests w)) h1 w1) in
  ∃ h', mcapi_trans_test_i buff_addr (encode_request_handle r) tsize tst w2 =
      Done (true, 0, size, st, with_table (alter (λ _, zero_mrequest) r (requests w)) h' w1) ∧
    header_wf h' (r :: f :: free) used.
Proof.
  intros Ht Hwf Hw1 w2. pose proof (table_index _ _ _ _ _ Ht) as Hr. destruct Ht as [_ Hlen].
  destruct (lookup_lt_is_Some_2 (requests w) r) as [x Hx]; [lia|].
  assert (requests w2 !! r = Some (completed_as handle st size type (x <| rq_valid := true |>))) as Hx2.
  { unfold w2. autorewrite with world. by rewrite !list_lookup_alter_eq, Hx. }
  destruct (test_complete buff_addr w2 r _ (f :: free) [] used tsize tst Hr Hx2) as (h' & Hrun & Hwf');
    [done|exact Hwf|]. exists h'. split; [|exact Hwf']. rewrite Hrun. do 2 f_equal.
  unfold w2. autorewrite with world. by rewrite !list_alter_alter_eq.
Qed.
