(* ===== verification/McapiMailbox.v ===== *)
(** Sending to and receiving from an endpoint, as operations on the list of
    the messages, packets or scalars that wait there. *)

From S2P Require Import Prelude Bytes McapiTypes McapiQueue McapiRequests McapiTransport McapiRing McapiQueueSpec McapiFifo McapiAccess.

#[local] Opaque MCAPI_MAX_QUEUE_ENTRIES MCAPI_MAX_QUEUE_ELEMENTS.

(** ** References to buffers *)

(** What a queue entry stores for the buffer [i]. *)
Definition buffer_ref (i : nat) : Z := i32 (Z.lor (Z.of_nat i) MCAPI_VALID_MASK).

Lemma buffer_ref_all :
  forallb (λ i, negb (buffer_ref i =? 0) && (buffer_index (mk_desc 0 (buffer_ref i) false) =? Z.of_nat i))
    (seq 0 MCAPI_MAX_BUFFERS) = true.
Proof. vm_compute. reflexivity. Qed.
Lemma buffer_ref_spec i x :
  (i < MCAPI_MAX_BUFFERS)%nat → bd_buff_index x = buffer_ref i →
  buffer_ref i ≠ 0 ∧ buffer_index x = Z.of_nat i.
Proof.
  intros Hi Hx. pose proof buffer_ref_all as Hall. rewrite forallb_forall in Hall.
  specialize (Hall i). rewrite in_seq in Hall.
  apply andb_true_iff in Hall as [H1%negb_true_iff%Z.eqb_neq H2%Z.eqb_eq]; [|lia].
  split; [done|]. unfold buffer_index in *. by rewrite Hx.
Qed.
#[local] Opaque buffer_ref.
#[local] Opaque MCAPI_MAX_BUFFERS MCAPI_MAX_MSG_SIZE.

(** ** What a buffer holds *)

(** The type of the channel and what it means that a buffer stores an item. *)
Record contents (T : Type) := mk_contents {
  kind : channel_type;
  stored : buffer_entry → T → Prop }.
Arguments mk_contents {T} _ _.
Arguments kind {T} _.
Arguments stored {T} _ _ _.

Definition stores_bytes (b : buffer_entry) (msg : list Z) : Prop :=
  b_size b = Z.of_nat (length msg) ∧ take (length msg) (b_buff b) = msg ∧
  (length msg <= MCAPI_MAX_MSG_SIZE)%nat.
Definition message : contents (list Z) := mk_contents MCAPI_NO_CHAN stores_bytes.
Definition packet : contents (list Z) := mk_contents MCAPI_PKT_CHAN stores_bytes.
(** A scalar is a size in bytes and a word. *)
Definition scalar : contents (Z * Z) :=
  mk_contents MCAPI_SCL_CHAN (λ b x, b_size b = x.1 ∧ b_scalar b = x.2).

(** The buffer [i] is in use and holds the item. *)
Definition in_buffer {T} (c : contents T) (bs : list buffer_entry) (i : nat) (x : T) : Prop :=
  ∃ b, bs !! i = Some b ∧ b_magic_num b = MAGIC_NUM ∧ stored c b x.
Definition holds : list buffer_entry → nat → list Z → Prop := in_buffer message.

Record buffers_wf (bs : list buffer_entry) : Prop := {
  bw_length : length bs = MCAPI_MAX_BUFFERS;
  bw_size : Forall (λ b, length (b_buff b) = MCAPI_MAX_MSG_SIZE) bs }.

(** The items nobody has reserved, first to last, at an endpoint where no
    receive is waiting. *)
Record box {T} (c : contents T) (d n e : nat) (w : world) (q : queue) (ws : list slot)
    (ids : list nat) (items : list T) : Prop := {
  bx_queue : queue_at d n e w = Some q;
  bx_ring : ring q ws [];
  bx_type : q_channel_type q = kind c;
  bx_refs : ws ≫= loose = buffer_ref <$> ids;
  bx_nodup : NoDup ids;
  bx_holds : Forall2 (in_buffer c (buffers w)) ids items;
  bx_buffers : buffers_wf (buffers w) }.
Definition waiting {T} (c : contents T) (d n e : nat) (w : world) (items : list T) : Prop :=
  ∃ q ws ids, box c d n e w q ws ids items.

(** The messages at an endpoint. *)
Definition mailbox : nat → nat → nat → world → queue → list slot → list nat →
    list (list Z) → Prop := box message.
Definition mails : nat → nat → nat → world → list (list Z) → Prop := waiting message.

Lemma alter_buffers_wf f i bs :
  (∀ b, length (b_buff b) = MCAPI_MAX_MSG_SIZE → length (b_buff (f b)) = MCAPI_MAX_MSG_SIZE) →
  buffers_wf bs → buffers_wf (alter f i bs).
Proof.
  intros Hf [Hl Hs]. split; [by rewrite length_alter|].
  apply Forall_alter; [done|]. intros b _. apply Hf.
Qed.
Lemma buffer_length bs i b :
  buffers_wf bs → bs !! i = Some b → length (b_buff b) = MCAPI_MAX_MSG_SIZE.
Proof. intros [_ Hs] Hb. rewrite Forall_lookup in Hs. by eapply Hs. Qed.
Lemma in_buffer_alter_ne {T} (c : contents T) bs i j f x :
  i ≠ j → in_buffer c bs j x → in_buffer c (alter f i bs) j x.
Proof.
  intros Hij (b & Hb & H). exists b. split; [|done]. by rewrite list_lookup_alter_ne.
Qed.
Lemma in_buffer_others {T} (c : contents T) bs f i ids items :
  i ∉ ids → Forall2 (in_buffer c bs) ids items → Forall2 (in_buffer c (alter f i bs)) ids items.
Proof.
  intros Hi Hh. induction Hh as [|j m ids items Hj Hh IH]; [constructor|].
  constructor; [apply in_buffer_alter_ne; [set_solver|done]|]. apply IH. set_solver.
Qed.
Lemma in_buffer_range {T} (c : contents T) bs i x :
  buffers_wf bs → in_buffer c bs i x → (i < MCAPI_MAX_BUFFERS)%nat.
Proof. intros [<- _] (b & Hb & _). by eapply lookup_lt_Some. Qed.

(** ** Looking for a free buffer *)

Lemma free_buffer bs :
  buffers_wf bs →
  (∃ i b, c_scan buffer_free bs MCAPI_MAX_BUFFERS 0 = Done i ∧ (i < MCAPI_MAX_BUFFERS)%nat ∧
     bs !! i = Some b ∧ b_magic_num b = 0) ∨
  (c_scan buffer_free bs MCAPI_MAX_BUFFERS 0 = Done MCAPI_MAX_BUFFERS ∧
     Forall (λ b, b_magic_num b ≠ 0) bs).
Proof.
  intros [Hl _]. destruct (c_scan_all buffer_free bs _ Hl) as [(i & b & Hs & Hi & Hb & Hf & _)|[Hs Hn]].
  - left. exists i, b. split_and!; try done. by apply Z.eqb_eq.
  - right. split; [done|]. apply Forall_lookup. intros i b Hb.
    apply Z.eqb_neq. exact (Hn i b Hb).
Qed.

(** ** Sending *)

(** The buffer a message or packet was copied to. *)
Definition filled (bytes : list Z) (b : buffer_entry) : buffer_entry :=
  b <| b_magic_num := MAGIC_NUM |>
    <| b_buff ::= λ l, bytes ++ drop (length bytes) l |>
    <| b_size := Z.of_nat (length bytes) |>.
(** The buffer that carries a scalar. *)
Definition carrying (size v : Z) (b : buffer_entry) : buffer_entry :=
  b <| b_magic_num := MAGIC_NUM |> <| b_scalar := v |> <| b_size := size |>.

Section send.
Context (d n e : nat) (w : world) (q : queue) (ws : list slot) (rs : list Z).
Context (Hq : queue_at d n e w = Some q) (Hring : ring q ws rs).
Context (Hbuf : buffers_wf (buffers w)).

Lemma send_to_full buffer size scalar :
  length ws = MCAPI_MAX_QUEUE_ELEMENTS →
  ∃ q', mcapi_trans_send_have_lock d n e buffer size scalar w = Done (false, with_queue d n e q' w) ∧
    same_channel q q' ∧ ring q' ws rs.
Proof using Hq Hring.
  intros Hfull. destruct (compact_ring q ws rs Hring) as (q' & Hc & Hsc & Hr').
  exists q'. split; [|done].
  assert (wp (mcapi_trans_send_have_lock d n e buffer size scalar)
            (λ a w', a = false ∧ w' = with_queue d n e q' w) w) as Hwp.
  { unfold mcapi_trans_send_have_lock. apply wp_bind. eapply wp_get_queue; [done|].
    rewrite (full_queue_spec _ _ _ Hring), bool_decide_eq_true_2 by done.
    apply wp_bind. by eapply wp_on_queue. }
  apply wp_done in Hwp as (a & w' & -> & -> & ->). done.
Qed.

Lemma send_no_buffer buffer size scalar :
  length ws ≠ MCAPI_MAX_QUEUE_ELEMENTS → Forall (λ b, b_magic_num b ≠ 0) (buffers w) →
  mcapi_trans_send_have_lock d n e buffer size scalar w = Done (false, w).
Proof using Hq Hring Hbuf.
  intros Hroom Hused.
  assert (wp (mcapi_trans_send_have_lock d n e buffer size scalar)
            (λ a w', a = false ∧ w' = w) w) as Hwp.
  { unfold mcapi_trans_send_have_lock. apply wp_bind. eapply wp_get_queue; [done|].
    rewrite (full_queue_spec _ _ _ Hring), bool_decide_eq_false_2 by done.
    apply wp_bind, wp_gets. fold (buffers w).
    destruct (free_buffer _ Hbuf) as [(i & b & _ & _ & Hb & H0)|[Hs _]].
    - rewrite Forall_lookup in Hused. by destruct (Hused i b Hb).
    - apply wp_bind. eapply wp_lift; [exact Hs|]. rewrite Nat.eqb_refl. by apply wp_ret. }
  apply wp_done in Hwp as (a & w' & -> & -> & ->). done.
Qed.

(** The first free buffer and the tail entry of the queue are taken; [f] is
    what becomes of the buffer. *)
Definition sent (f : buffer_entry → buffer_entry) (i : nat) (q' : queue) : world :=
  with_queue d n e q' (with_buffers (alter f i) w).

Section to_buffer.
Context (i : nat) (b : buffer_entry).
Context (Hroom : length ws ≠ MCAPI_MAX_QUEUE_ELEMENTS).
Context (Hscan : c_scan buffer_free (buffers w) MCAPI_MAX_BUFFERS 0 = Done i).
Context (Hi : (i < MCAPI_MAX_BUFFERS)%nat) (Hb : buffers w !! i = Some b).

(** Up to the point where the buffer is filled. *)
Lemma send_prepare (k : nat → nat → M world bool) (Q : bool → world → Prop) :
  (∀ q', same_channel q q' →
     queue_send (buffer_ref i) q = Done (true, with_buffer (q_tail q) (buffer_ref i) q') →
     wp (k i (q_tail q)) Q (sent (λ b, b <| b_magic_num := MAGIC_NUM |>) i q')) →
  wp (let* q := get_queue d n e in
      if mcapi_trans_full_queue q then
        on_queue d n e mcapi_trans_compact_queue;; ret false
      else
        let* db := get_mdb in
        let* i := lift (c_scan buffer_free (m_buffers db) MCAPI_MAX_BUFFERS 0) in
        if (i =? MCAPI_MAX_BUFFERS)%nat then ret false
        else
          modify_buffer i (λ b, b <| b_magic_num := MAGIC_NUM |>);;
          let* qindex := on_queue d n e mcapi_trans_push_queue in
          k i qindex) Q w.
Proof using Hq Hring Hroom Hscan Hi Hb.
  intros Hk. destruct (buffer_ref_spec i (mk_desc 0 (buffer_ref i) false) Hi eq_refl) as [Href _].
  destruct (push_queue_spec q ws rs (buffer_ref i) Hring Hroom Href) as (q' & Hpush & Hsc & _).
  pose proof (full_queue_spec _ _ _ Hring) as Hfull. rewrite bool_decide_eq_false_2 in Hfull by done.
  apply wp_bind. eapply wp_get_queue; [exact Hq|]. rewrite Hfull.
  apply wp_bind, wp_gets. fold (buffers w). apply wp_bind. eapply wp_lift; [exact Hscan|].
  destruct (Nat.eqb_spec i MCAPI_MAX_BUFFERS); [lia|].
  apply wp_bind. eapply wp_modify_buffer; [exact Hb|].
  apply wp_bind. eapply wp_on_queue; [exact Hq|exact Hpush|].
  apply Hk; [done|]. unfold queue_send. by rewrite Hfull, Hpush.
Qed.

Lemma sent_queue f q' : queue_at d n e (sent f i q') = Some q'.
Proof using Hq. apply queue_at_with. autorewrite with world. by rewrite Hq. Qed.
Lemma sent_buffer f q' : buffers (sent f i q') !! i = Some (f b).
Proof using Hb. unfold sent. autorewrite with world. by rewrite list_lookup_alter_eq, Hb. Qed.

(** Changing the buffer once more, and writing the entry of the queue. *)
Lemma sent_fill f g q' (Q : unit → world → Prop) :
  Q tt (sent (g ∘ f) i q') → wp (modify_buffer i g) Q (sent f i q').
Proof using Hb.
  intros HQ. eapply wp_modify_buffer; [apply sent_buffer|].
  unfold sent in *. by rewrite with_buffers_queue, with_buffers_twice.
Qed.
Lemma sent_entry f j q' (Q : unit → world → Prop) :
  Q tt (sent f i (with_buffer j (buffer_ref i) q')) →
  wp (on_queue d n e (λ q, Done (tt, upd_element j (λ x,
        x <| bd_buff_index := i32 (Z.lor (Z.of_nat i) MCAPI_VALID_MASK) |>) q))) Q (sent f i q').
Proof using Hq.
  intros HQ. eapply wp_on_queue; [apply sent_queue|done|].
  unfold sent in *. by rewrite with_queue_twice.
Qed.

(** A message or packet. *)
Lemma send_to_buffer bytes buffer v :
  q_channel_type q ≠ MCAPI_SCL_CHAN → (length bytes <= MCAPI_MAX_MSG_SIZE)%nat →
  load_bytes (length bytes) buffer (w_mem w) = Done bytes →
  ∃ q', queue_send (buffer_ref i) q = Done (true, q') ∧
    mcapi_trans_send_have_lock d n e buffer (Z.of_nat (length bytes)) v w
      = Done (true, sent (filled bytes) i q').
Proof using Hq Hring Hbuf Hroom Hscan Hi Hb.
  intros Htype Hlen Hload. pose proof (buffer_length _ _ _ Hbuf Hb) as Hbl.
  assert (wp (mcapi_trans_send_have_lock d n e buffer (Z.of_nat (length bytes)) v)
    (λ a w', ∃ q', queue_send (buffer_ref i) q = Done (true, q') ∧ a = true ∧
       w' = sent (filled bytes) i q') w) as Hwp.
  2:{ apply wp_done in Hwp as (a & w' & Hrun & q' & Hqs & -> & ->). by exists q'. }
  unfold mcapi_trans_send_have_lock. apply send_prepare. intros q' Hsc Hqs.
  apply wp_bind. eapply wp_get_queue; [apply sent_queue|].
  rewrite decide_False by (destruct Hsc; congruence).
  apply wp_bind, wp_bind. rewrite Nat2Z.id. eapply wp_load; [exact Hload|].
  apply wp_bind. eapply wp_get_buffer; [apply sent_buffer|]. cbn [b_buff set_field].
  rewrite Hbl. apply Nat.leb_le in Hlen as ->.
  apply sent_fill, wp_bind, sent_fill, wp_bind, sent_entry, wp_ret. by eexists.
Qed.

(** A scalar. *)
Lemma send_scalar_to_buffer buffer size v :
  q_channel_type q = MCAPI_SCL_CHAN →
  ∃ q', queue_send (buffer_ref i) q = Done (true, q') ∧
    mcapi_trans_send_have_lock d n e buffer size v w = Done (true, sent (carrying size v) i q').
Proof using Hq Hring Hroom Hscan Hi Hb.
  intros Htype.
  assert (wp (mcapi_trans_send_have_lock d n e buffer size v)
    (λ a w', ∃ q', queue_send (buffer_ref i) q = Done (true, q') ∧ a = true ∧
       w' = sent (carrying size v) i q') w) as Hwp.
  2:{ apply wp_done in Hwp as (a & w' & Hrun & q' & Hqs & -> & ->). by exists q'. }
  unfold mcapi_trans_send_have_lock. apply send_prepare. intros q' Hsc Hqs.
  apply wp_bind. eapply wp_get_queue; [apply sent_queue|].
  rewrite decide_True by (destruct Hsc; congruence).
  apply wp_bind, sent_fill, wp_bind, sent_fill, wp_bind, sent_entry, wp_ret. by eexists.
Qed.
End to_buffer.
End send.

(** ** Sending appends to the box *)

(** [f] makes a buffer that stores [x]. *)
Definition stores {T} (c : contents T) (x : T) (f : buffer_entry → buffer_entry) : Prop :=
  ∀ b, length (b_buff b) = MCAPI_MAX_MSG_SIZE →
    length (b_buff (f b)) = MCAPI_MAX_MSG_SIZE ∧ b_magic_num (f b) = MAGIC_NUM ∧ stored c (f b) x.
Lemma filled_stores bytes :
  (length bytes <= MCAPI_MAX_MSG_SIZE)%nat →
  stores message bytes (filled bytes) ∧ stores packet bytes (filled bytes).
Proof.
  intros Hlen. enough (∀ b, length (b_buff b) = MCAPI_MAX_MSG_SIZE →
    length (b_buff (filled bytes b)) = MCAPI_MAX_MSG_SIZE ∧ b_magic_num (filled bytes b) = MAGIC_NUM ∧
    stores_bytes (filled bytes b) bytes) as H by by split.
  intros b Hb. split_and!; [cbn; rewrite length_app, length_drop; lia|done|].
  split_and!; [done| |done]. cbn. by rewrite take_app_length.
Qed.
Lemma carrying_stores size v : stores scalar (size, v) (carrying size v).
Proof. intros b Hb. by split_and!. Qed.
Lemma stores_in_buffer {T} (c : contents T) x f bs i b :
  buffers_wf bs → stores c x f → bs !! i = Some b → in_buffer c (alter f i bs) i x.
Proof.
  intros Hwf Hf Hb. destruct (Hf b) as (_ & Hm & Hx); [by eapply buffer_length|].
  exists (f b). by rewrite list_lookup_alter_eq, Hb.
Qed.

(** The refusals, common to all kinds of item. *)
Definition no_room (q : queue) (w : world) : Prop :=
  mcapi_trans_full_queue q = true ∨ Forall (λ b, b_magic_num b ≠ 0) (buffers w).

Lemma box_send {T} (c : contents T) (x : T) f d n e w q ws ids items buffer size v :
  box c d n e w q ws ids items → stores c x f →
  (∀ i b, length ws ≠ MCAPI_MAX_QUEUE_ELEMENTS →
     c_scan buffer_free (buffers w) MCAPI_MAX_BUFFERS 0 = Done i → (i < MCAPI_MAX_BUFFERS)%nat →
     buffers w !! i = Some b →
     ∃ q', queue_send (buffer_ref i) q = Done (true, q') ∧
       mcapi_trans_send_have_lock d n e buffer size v w = Done (true, sent d n e w f i q')) →
  ∃ ok w', mcapi_trans_send_have_lock d n e buffer size v w = Done (ok, w') ∧
    w_mem w' = w_mem w ∧ frame d n e w w' ∧
    waiting c d n e w' (if ok then items ++ [x] else items) ∧ (ok = false → no_room q w).
Proof.
  intros [Hq Hring Htype Hrefs Hnd Hh Hbuf] Hf Hsend.
  destruct (decide (length ws = MCAPI_MAX_QUEUE_ELEMENTS)) as [Hfull|Hroom].
  { destruct (send_to_full _ _ _ _ _ _ _ Hq Hring buffer size v Hfull) as (q' & Hs & Hsc & Hr').
    exists false, (with_queue d n e q' w). split_and!; [done|done| | |].
    - split; [done..|]. intros. by rewrite queue_at_with_ne.
    - exists q', ws, ids. split; try done; [by apply queue_at_with; rewrite Hq|destruct Hsc; congruence].
    - intros _. left. rewrite (full_queue_spec _ _ _ Hring). by apply bool_decide_eq_true. }
  destruct (free_buffer _ Hbuf) as [(i & b & Hs & Hi & Hb & H0)|[_ Hused]].
  2:{ exists false, w. rewrite (send_no_buffer _ _ _ _ _ _ _ Hq Hring Hbuf) by done.
      split_and!; [done|done|apply frame_refl|by exists q, ws, ids|by right]. }
  destruct (Hsend i b Hroom Hs Hi Hb) as (q' & Hqs & Hrun).
  exists true, (sent d n e w f i q'). split_and!; [done|done| | |done].
  { exact (frame_queue d n e q' (alter f i) (w_mem w) w). }
  destruct (buffer_ref_spec i (mk_desc 0 (buffer_ref i) false) Hi eq_refl) as [Href _].
  destruct (queue_send_spec q ws [] (buffer_ref i) Hring Href) as (ok & q2 & Hq2 & Hsc & _ & Hr2).
  assert (ok = true ∧ q2 = q') as [-> ->] by (rewrite Hqs in Hq2; by inv Hq2).
  assert (i ∉ ids) as Hni.
  { intros Hin. apply list_elem_of_lookup in Hin as [j Hj].
    destruct (Forall2_lookup_l _ _ _ _ _ Hh Hj) as (y & _ & b' & Hb2 & Hmag & _).
    rewrite Hb in Hb2. injection Hb2 as <-. by rewrite H0 in Hmag. }
  exists q', (ws ++ [Live 0 (buffer_ref i)]), (ids ++ [i]).
  split; try done.
  - by apply (sent_queue _ _ _ _ _ Hq).
  - destruct Hsc. congruence.
  - rewrite bind_app, Hrefs, fmap_app. done.
  - apply NoDup_app. split_and!; [done|set_solver|apply NoDup_singleton].
  - apply Forall2_app; [by apply in_buffer_others|].
    constructor; [by eapply stores_in_buffer|constructor].
  - apply alter_buffers_wf; [|done]. intros b' Hb'. by apply Hf.
Qed.

Lemma box_send_bytes c d n e w q ws ids items bytes buffer v :
  kind c ≠ MCAPI_SCL_CHAN → stores c bytes (filled bytes) →
  box c d n e w q ws ids items → (length bytes <= MCAPI_MAX_MSG_SIZE)%nat →
  load_bytes (length bytes) buffer (w_mem w) = Done bytes →
  ∃ ok w', mcapi_trans_send_have_lock d n e buffer (Z.of_nat (length bytes)) v w = Done (ok, w') ∧
    w_mem w' = w_mem w ∧ frame d n e w w' ∧
    waiting c d n e w' (if ok then items ++ [bytes] else items) ∧ (ok = false → no_room q w).
Proof.
  intros Hc Hf Hbox Hlen Hload. eapply box_send; [done|done|]. intros i b H1 H2 H3 H4.
  destruct Hbox as [Hq Hring Htype _ _ _ Hbuf].
  by apply (send_to_buffer _ _ _ _ _ _ _ Hq Hring Hbuf i b H1 H2 H3 H4); [rewrite Htype|..].
Qed.
Lemma box_send_scalar d n e w q ws ids items buffer size v :
  box scalar d n e w q ws ids items →
  ∃ ok w', mcapi_trans_send_have_lock d n e buffer size v w = Done (ok, w') ∧
    w_mem w' = w_mem w ∧ frame d n e w w' ∧
    waiting scalar d n e w' (if ok then items ++ [(size, v)] else items) ∧
    (ok = false → no_room q w).
Proof.
  intros Hbox. eapply box_send; [done|apply carrying_stores|]. intros i b H1 H2 H3 H4.
  destruct Hbox as [Hq Hring Htype _ _ _ Hbuf].
  by apply (send_scalar_to_buffer _ _ _ _ _ _ _ Hq Hring i b H1 H2 H3 H4).
Qed.
Lemma mailbox_send d n e w q ws ids msgs bytes buffer v :
  mailbox d n e w q ws ids msgs → (length bytes <= MCAPI_MAX_MSG_SIZE)%nat →
  load_bytes (length bytes) buffer (w_mem w) = Done bytes →
  ∃ ok w', mcapi_trans_send_have_lock d n e buffer (Z.of_nat (length bytes)) v w
             = Done (ok, w') ∧
    w_mem w' = w_mem w ∧ mails d n e w' (if ok then msgs ++ [bytes] else msgs) ∧
    (ok = false →
       mcapi_trans_full_queue q = true ∨ Forall (λ b, b_magic_num b ≠ 0) (buffers w)).
Proof.
  intros Hbox Hlen Hload. destruct (box_send_bytes message d n e w q ws ids msgs bytes buffer v)
    as (ok & w' & H1 & H2 & _ & H3 & H4); [done|by apply filled_stores|done..|].
  by exists ok, w'.
Qed.

(** ** Receiving *)

Section recv.
Context (buff_addr : nat → Z) (d n e : nat) (w : world).
Context (q : queue) (x : buffer_descriptor) (qindex i : nat) (b : buffer_entry).
Context (Hq : queue_at d n e w = Some q).
Context (Hx : get_element q qindex = Done x) (Href : bd_buff_index x = buffer_ref i).
Context (Hi : (i < MCAPI_MAX_BUFFERS)%nat).
Context (Hb : buffers w !! i = Some b).

(** Once the item in the buffer [i] is delivered, the entry is cleared. *)
Lemma recv_deliver buffer buffer_size (has_scalar : bool) res w1 :
  queue_at d n e w1 = Some q →
  wp (if decide (q_channel_type q = MCAPI_PKT_CHAN) then ret (b_size b, buff_addr i, None)
      else
        let* scalar :=
          if decide (q_channel_type q = MCAPI_SCL_CHAN) then
            if has_scalar then ret (Some (b_scalar b)) else raise OutOfBounds
          else
            (if (if buffer_size <? b_size b then buffer_size else b_size b) <=?
                Z.of_nat (length (b_buff b)) then ret tt else raise OutOfBounds);;
            store (take (Z.to_nat (if buffer_size <? b_size b then buffer_size else b_size b))
                     (b_buff b)) buffer;; ret None in
        modify_buffer i (λ _, zero_buffer);;
        ret (b_size b, buffer, scalar)) (λ a w', a = res ∧ w' = w1) w →
  mcapi_trans_recv_have_lock_ buff_addr d n e buffer buffer_size qindex has_scalar w =
    Done (res, with_queue d n e (with_buffer qindex 0 q) w1).
Proof using Hq Hx Href Hi Hb.
  intros Hq1 Hwp. destruct (buffer_ref_spec i x Hi Href) as [_ Hidx]. apply wp_exact.
  unfold mcapi_trans_recv_have_lock_. apply wp_bind. eapply wp_get_queue; [exact Hq|].
  apply wp_bind. eapply wp_lift; [exact Hx|]. rewrite Hidx.
  apply wp_bind, wp_assert; [by apply Z.leb_le; lia|]. rewrite Nat2Z.id.
  apply wp_bind. eapply wp_get_buffer; [exact Hb|].
  apply wp_bind. eapply wp_mono; [exact Hwp|]. intros a w2 [-> ->].
  apply wp_bind. eapply wp_on_queue; [exact Hq1|done|]. by apply wp_ret.
Qed.

(** A packet is lent to the user: it gets the address of the buffer. *)
Lemma recv_packet_entry buffer buffer_size has_scalar :
  q_channel_type q = MCAPI_PKT_CHAN →
  mcapi_trans_recv_have_lock_ buff_addr d n e buffer buffer_size qindex has_scalar w =
    Done ((b_size b, buff_addr i, None), with_queue d n e (with_buffer qindex 0 q) w).
Proof using Hq Hx Href Hi Hb.
  intros Ht. apply recv_deliver; [done|]. rewrite decide_True by done. by apply wp_ret.
Qed.

(** A scalar is stored to the user's variable, and the buffer is freed. *)
Lemma recv_scalar_entry buffer buffer_size :
  q_channel_type q = MCAPI_SCL_CHAN →
  mcapi_trans_recv_have_lock_ buff_addr d n e buffer buffer_size qindex true w =
    Done ((b_size b, buffer, Some (b_scalar b)), with_queue d n e (with_buffer qindex 0 q)
            (with_buffers (alter (λ _, zero_buffer) i) w)).
Proof using Hq Hx Href Hi Hb.
  intros Ht. apply recv_deliver; [done|]. rewrite decide_False by by rewrite Ht.
  rewrite decide_True by done. apply wp_bind, wp_ret, wp_bind.
  eapply wp_modify_buffer; [exact Hb|]. by apply wp_ret.
Qed.

(** A message is copied to the user's buffer, and the buffer is freed. *)
Lemma recv_entry buffer buffer_size msg mem :
  q_channel_type q = MCAPI_NO_CHAN → buffers_wf (buffers w) → stores_bytes b msg →
  0 <= buffer_size →
  store_bytes (take (Z.to_nat buffer_size) msg) buffer (w_mem w) = Done mem →
  mcapi_trans_recv_have_lock_ buff_addr d n e buffer buffer_size qindex false w =
    Done ((Z.of_nat (length msg), buffer, None),
      with_queue d n e (with_buffer qindex 0 q)
        (with_buffers (alter (λ _, zero_buffer) i) (with_mem mem w))).
Proof using Hq Hx Href Hi Hb.
  intros Ht Hbuf (Hsize & Hmsg & Hlen) Hpos Hstore. apply recv_deliver; [done|].
  rewrite !decide_False by by rewrite Ht. rewrite Hsize, (buffer_length _ _ _ Hbuf Hb).
  set (size := if buffer_size <? Z.of_nat (length msg) then _ else _).
  assert (size = Z.of_nat (length (take (Z.to_nat buffer_size) msg))) as Hsz.
  { rewrite length_take. unfold size. destruct (Z.ltb_spec buffer_size (Z.of_nat (length msg))); lia. }
  assert (take (Z.to_nat size) (b_buff b) = take (Z.to_nat buffer_size) msg) as ->.
  { rewrite Hsz, Nat2Z.id, length_take. rewrite <- Hmsg at 2. by rewrite take_take. }
  rewrite length_take in Hsz.
  apply wp_bind, wp_bind. destruct (Z.leb_spec size (Z.of_nat MCAPI_MAX_MSG_SIZE)); [|lia].
  apply wp_ret, wp_bind. eapply wp_store; [exact Hstore|]. apply wp_ret.
  apply wp_bind. eapply wp_modify_buffer; [autorewrite with world; exact Hb|]. by apply wp_ret.
Qed.
End recv.

(** ** Receiving takes the first item *)

(** [g] is what becomes of the buffer, [res] the answer and [mem] the user's
    memory afterwards. *)
Lemma box_recv {T} (c : contents T) (x : T) g res mem buff_addr d n e w q ws ids items buffer
    buffer_size has_scalar :
  box c d n e w q ws ids (x :: items) →
  (∀ b, length (b_buff b) = MCAPI_MAX_MSG_SIZE → length (b_buff (g b)) = MCAPI_MAX_MSG_SIZE) →
  (∀ q' desc k i b, queue_at d n e (with_queue d n e q' w) = Some q' →
     q_channel_type q' = kind c → get_element q' k = Done desc →
     bd_buff_index desc = buffer_ref i → (i < MCAPI_MAX_BUFFERS)%nat →
     buffers w !! i = Some b → stored c b x →
     mcapi_trans_recv_have_lock_ buff_addr d n e buffer buffer_size k has_scalar
       (with_queue d n e q' w) =
     Done (res i, with_queue d n e (with_buffer k 0 q')
             (with_buffers (alter g i) (with_mem mem w)))) →
  ∃ i w' q' ws' ids', mcapi_trans_recv_have_lock buff_addr d n e buffer buffer_size has_scalar w
      = Done (Some (res i), w') ∧
    in_buffer c (buffers w) i x ∧ i ∉ ids' ∧
    w_mem w' = mem ∧ frame d n e w w' ∧ buffers w' = alter g i (buffers w) ∧
    box c d n e w' q' ws' ids' items.
Proof.
  intros [Hq Hring Htype Hrefs Hnd Hh Hbuf] Hg Hentry.
  inversion Hh as [|i m ids' items' Hi Hh' Hids Heq]; subst.
  apply NoDup_cons in Hnd as [Hni Hnd].
  destruct (existsb is_loose ws) eqn:Hl.
  2:{ apply no_loose, bind_not_loose in Hl. by rewrite Hl in Hrefs. }
  pose proof (empty_queue_spec _ _ _ Hring) as Hempty. rewrite Hl in Hempty.
  apply loose_split in Hl as (l1 & b0 & l2 & -> & Hl1).
  rewrite bind_app, bind_not_loose in Hrefs by done. cbn in Hrefs.
  injection Hrefs as Hb0 Hrefs. subst b0.
  destruct (pop_queue_spec q l1 (buffer_ref i) l2 [] Hring Hl1)
    as (q' & desc & Hpop & Hsc & Hx & Href & Hring').
  set (k := ring_index (q_head q) (length l1)) in *.
  pose proof (in_buffer_range _ _ _ _ Hbuf Hi) as Hir. pose proof Hi as (b & Hb & _ & Hst).
  assert (is_Some (queue_at d n e w)) as Hsome by by rewrite Hq.
  assert (q_channel_type q' = kind c) as Htype' by (destruct Hsc; congruence).
  pose proof (Hentry q' desc k i b (queue_at_with d n e q' w Hsome) Htype' Hx Href Hir Hb Hst) as Hrun.
  set (w' := with_queue d n e (with_buffer k 0 q') _) in Hrun.
  exists i, w', (with_buffer k 0 q'), (trim (l1 ++ Bubble :: l2)), ids'. split_and!; try done.
  - apply wp_exact. unfold mcapi_trans_recv_have_lock. apply wp_bind. eapply wp_get_queue; [exact Hq|].
    apply wp_bind. eapply wp_lift; [exact Hempty|]. cbn [negb].
    apply wp_bind. eapply wp_on_queue; [exact Hq|exact Hpop|].
    apply wp_bind. eapply wp_intro; [exact Hrun|]. by apply wp_ret.
  - apply frame_queue.
  - split.
    + apply queue_at_with. autorewrite with world. by rewrite Hq.
    + done.
    + done.
    + rewrite loose_bubble, bind_app, bind_not_loose by done. done.
    + done.
    + unfold w'. autorewrite with world. by apply in_buffer_others.
    + unfold w'. autorewrite with world. by apply alter_buffers_wf.
Qed.

Lemma recv_twice d n e q q' f m w :
  with_queue d n e q (with_buffers f (with_mem m (with_queue d n e q' w))) =
  with_queue d n e q (with_buffers f (with_mem m w)).
Proof. apply (with_queue_twice d n e q q' (with_buffers f (with_mem m w))). Qed.
Lemma zero_buffer_length b :
  length (b_buff b) = MCAPI_MAX_MSG_SIZE → length (b_buff zero_buffer) = MCAPI_MAX_MSG_SIZE.
Proof. intros _. apply length_replicate. Qed.

Lemma mailbox_recv buff_addr d n e w q ws ids msg msgs buffer buffer_size mem :
  mailbox d n e w q ws ids (msg :: msgs) → 0 <= buffer_size →
  store_bytes (take (Z.to_nat buffer_size) msg) buffer (w_mem w) = Done mem →
  ∃ w', mcapi_trans_recv_have_lock buff_addr d n e buffer buffer_size false w
          = Done (Some (Z.of_nat (length msg), buffer, None), w') ∧
    w_mem w' = mem ∧ mails d n e w' msgs.
Proof.
  intros Hbox Hpos Hstore. pose proof (bx_buffers _ _ _ _ _ _ _ _ _ Hbox) as Hbuf.
  destruct (box_recv message msg (λ _, zero_buffer) (λ _, (Z.of_nat (length msg), buffer, None)) mem
    buff_addr d n e w q ws ids msgs buffer buffer_size false Hbox zero_buffer_length)
    as (i & w' & q' & ws' & ids' & Hr & _ & _ & Hm & _ & _ & Hb').
  - intros q' desc k i b H1 H2 H3 H4 H5 H6 H7. rewrite <- (recv_twice d n e _ q').
    by apply (recv_entry buff_addr d n e _ q' desc k i b).
  - exists w'. split_and!; [done|done|by exists q', ws', ids'].
Qed.

(** The item received stays in its buffer, which is lent to the user. *)
Lemma box_recv_packet buff_addr d n e w q ws ids pkt pkts buffer buffer_size :
  box packet d n e w q ws ids (pkt :: pkts) →
  ∃ i w' q' ws' ids', mcapi_trans_recv_have_lock buff_addr d n e buffer buffer_size false w
      = Done (Some (Z.of_nat (length pkt), buff_addr i, None), w') ∧
    in_buffer packet (buffers w) i pkt ∧ i ∉ ids' ∧
    w_mem w' = w_mem w ∧ frame d n e w w' ∧ buffers w' = buffers w ∧
    box packet d n e w' q' ws' ids' pkts.
Proof.
  intros Hbox.
  destruct (box_recv packet pkt (λ b, b) (λ i, (Z.of_nat (length pkt), buff_addr i, None)) (w_mem w)
    buff_addr d n e w q ws ids pkts buffer buffer_size false Hbox)
    as (i & w' & q' & ws' & ids' & Hr & Hi & Hni & Hm & Hf & Hb & Hb').
  - done.
  - intros q' desc k i b H1 H2 H3 H4 H5 H6 [H7 _].
    rewrite (recv_packet_entry buff_addr d n e _ q' desc k i b H1 H3 H4 H5 H6 _ _ _ H2), H7.
    rewrite with_queue_twice. do 3 f_equal. destruct w as [[? bs ? ? ?] m].
    unfold with_buffers, with_mem, set_field. cbn. by rewrite list_alter_id.
  - exists i, w', q', ws', ids'. rewrite list_alter_id in Hb by done. by split_and!.
Qed.

Lemma box_recv_scalar buff_addr d n e w q ws ids size v items buffer buffer_size :
  box scalar d n e w q ws ids ((size, v) :: items) →
  ∃ i w' q' ws' ids', mcapi_trans_recv_have_lock buff_addr d n e buffer buffer_size true w
      = Done (Some (size, buffer, Some v), w') ∧
    in_buffer scalar (buffers w) i (size, v) ∧ i ∉ ids' ∧
    w_mem w' = w_mem w ∧ frame d n e w w' ∧ buffers w' = alter (λ _, zero_buffer) i (buffers w) ∧
    box scalar d n e w' q' ws' ids' items.
Proof.
  intros Hbox.
  destruct (box_recv scalar (size, v) (λ _, zero_buffer) (λ _, (size, buffer, Some v)) (w_mem w)
    buff_addr d n e w q ws ids items buffer buffer_size true Hbox zero_buffer_length)
    as (i & w' & q' & ws' & ids' & Hr & Hi & Hni & Hm & Hf & Hb & Hb').
  - intros q' desc k i b H1 H2 H3 H4 H5 H6 [H7 H8]. cbn in H7, H8. subst size v.
    rewrite (recv_scalar_entry buff_addr d n e _ q' desc k i b H1 H3 H4 H5 H6 _ _ H2).
    do 2 f_equal. by rewrite <- (recv_twice d n e _ q').
  - exists i, w', q', ws', ids'. by split_and!.
Qed.

Lemma box_recv_empty {T} (c : contents T) buff_addr d n e w q ws ids buffer buffer_size has_scalar :
  box c d n e w q ws ids [] →
  mcapi_trans_recv_have_lock buff_addr d n e buffer buffer_size has_scalar w = Done (None, w).
Proof.
  intros [Hq Hring Htype Hrefs _ Hh _]. inversion Hh; subst. cbn in Hrefs.
  pose proof (empty_queue_spec _ _ _ Hring) as Hempty.
  destruct (existsb is_loose ws) eqn:Hl.
  { apply loose_split in Hl as (l1 & b0 & l2 & -> & Hl1).
    rewrite bind_app, bind_not_loose in Hrefs by done. done. }
  apply wp_exact. unfold mcapi_trans_recv_have_lock. apply wp_bind. eapply wp_get_queue; [exact Hq|].
  apply wp_bind. eapply wp_lift; [exact Hempty|]. cbn [negb]. by apply wp_ret.
Qed.
