(* ===== verification/McapiBlocking.v ===== *)
(** The public calls around the request table: a blocking send is the direct
    one, an error found by a public function is reported by the request it
    returns, and waiting ends. *)

From S2P Require Import Prelude Bytes McapiTypes McapiQueue McapiRequests McapiTransport McapiMessages McapiChannels McapiCheck McapiNodes McapiApi McapiRequestList McapiRing McapiFifo McapiAccess McapiMailbox.

#[local] Opaque MCAPI_MAX_QUEUE_ENTRIES MCAPI_MAX_BUFFERS.
#[local] Opaque encode_request_handle mcapi_trans_decode_request_handle.

(** ** Blocking calls *)

Lemma bind_fault {S A B} (m : M S A) (k : A → M S B) s e :
  m s = Fault e → bind m k s = Fault e.
Proof. unfold bind. by intros ->. Qed.

Lemma wait_loop_S buff_addr between fuel k request size st timeout time :
  mcapi_wait_loop buff_addr between (S fuel) k request size st timeout time =
  (let time := u32 (time + 1) in
   let* (rc, request, size, st) := mcapi_trans_test_i buff_addr request size st in
   if (rc : bool) then ret (true, request, size, st)
   else
     modify (between k);;
     if negb (timeout =? MCA_INFINITE) && (timeout <=? time)
     then ret (false, request, size, MCAPI_TIMEOUT)
     else mcapi_wait_loop buff_addr between fuel (S k) request size st timeout time).
Proof. reflexivity. Qed.

(** The first [k] attempts of a retry loop, at the yields [i], [i + 1], ..., find
    every request entry in use, and [wk] is the world of the next one. *)
Fixpoint exhausted_for (between : nat → world → world) (k i : nat) (w wk : world) : Prop :=
  match k with
  | O => wk = w
  | S k => (∃ used, header_wf (header w) [] used) ∧ exhausted_for between k (S i) (between i w) wk
  end.

Lemma reserve_exhausted w used :
  header_wf (header w) [] used → mcapi_trans_reserve_request_have_lock w = Done (None, w).
Proof.
  intros Hwf. apply wp_exact. unfold mcapi_trans_reserve_request_have_lock. apply wp_bind.
  eapply wp_on_header; [exact (reserve_index_none _ used Hwf)|]. apply wp_ret. split; [done|].
  by destruct w as [[] ?].
Qed.
Lemma reserve_last w r used :
  header_wf (header w) [r] used → mcapi_trans_reserve_request_have_lock w = Fault OutOfBounds.
Proof.
  intros Hwf. pose proof (reserve_index_last (header w) r used Hwf) as Hlast. unfold header in Hlast.
  unfold mcapi_trans_reserve_request_have_lock, on_header, get_mdb, bind, gets, lift. cbn beta iota.
  by rewrite Hlast.
Qed.

(** The attempts that find no entry only leave their error in the status. *)
Lemma until_exhausted between op rq k fuel i st w wk :
  (∀ rq st w used, header_wf (header w) [] used → op rq st w = Done ((rq, MCAPI_ERR_REQUEST_LIMIT), w)) →
  exhausted_for between k i w wk →
  until_request between op (k + fuel) i rq st w =
  until_request between op fuel (k + i) rq (match k with O => st | S _ => MCAPI_ERR_REQUEST_LIMIT end) wk.
Proof.
  intros Hop. revert i st w. induction k as [|k IH]; intros i st w Hex; [by cbn in Hex; subst wk|].
  destruct Hex as [[used Hwf] Hex]. cbn [Nat.add until_request].
  rewrite (bind_done _ _ _ _ _ (Hop rq st w used Hwf)). change (MCAPI_ERR_REQUEST_LIMIT =? MCAPI_ERR_REQUEST_LIMIT) with true.
  cbv iota beta. erewrite bind_done by done. rewrite IH by done. rewrite Nat.add_succ_r. by destruct k.
Qed.

(** An operation that submits the request [r], which the first test finds
    complete: the wait runs once. *)
Lemma complete_wait buff_addr between fuel size r w2 w3 sz st :
  (0 < fuel)%nat → (r < MCAPI_MAX_REQUESTS)%nat →
  mcapi_trans_test_i buff_addr (encode_request_handle r) size MCAPI_SUCCESS w2 = Done ((true, 0, sz, st), w3) →
  mcapi_trans_wait buff_addr between fuel (encode_request_handle r) size MCAPI_SUCCESS MCA_INFINITE w2
    = Done ((true, 0, sz, st), w3).
Proof.
  intros Hf Hr Htest. destruct fuel as [|fuel]; [lia|].
  unfold mcapi_trans_wait, decode_request. rewrite request_handle by done.
  erewrite bind_done by done. rewrite wait_loop_S. by rewrite (bind_done _ _ _ _ _ Htest).
Qed.
Lemma until_submits between op fuel i rq st r w w2 :
  (0 < fuel)%nat → op rq st w = Done ((encode_request_handle r, MCAPI_SUCCESS), w2) →
  until_request between op fuel i rq st w = Done ((encode_request_handle r, MCAPI_SUCCESS), w2).
Proof. destruct fuel; [lia|]. intros _ Hop. cbn [until_request]. by rewrite (bind_done _ _ _ _ _ Hop). Qed.
Lemma blocking_run buff_addr between fuel op junk size r w w2 w3 sz st {B} (k : Z * Z → bool * Z * Z * Z → M world B) :
  (0 < fuel)%nat → (r < MCAPI_MAX_REQUESTS)%nat →
  op junk MCAPI_SUCCESS w = Done ((encode_request_handle r, MCAPI_SUCCESS), w2) →
  mcapi_trans_test_i buff_addr (encode_request_handle r) size MCAPI_SUCCESS w2
    = Done ((true, 0, sz, st), w3) →
  (let* (request, status) := until_request between op fuel 0 junk MCAPI_SUCCESS in
   let* res := mcapi_trans_wait buff_addr between fuel request size status MCA_INFINITE in
   k (request, status) res) w
  = k (encode_request_handle r, MCAPI_SUCCESS) (true, 0, sz, st) w3.
Proof.
  intros Hf Hr Hop Htest.
  rewrite (bind_done _ _ _ _ _ (until_submits between op fuel 0 _ _ _ _ _ Hf Hop)).
  by rewrite (bind_done _ _ _ _ _ (complete_wait buff_addr between fuel _ _ _ _ _ _ Hf Hr Htest)).
Qed.

(** The world after a request has come and gone. *)
Definition request_done (r : nat) (h' : indexed_array_header) (w w1 : world) : world :=
  with_table (alter (λ _, zero_mrequest) r (requests w)) h' w1.

Section submitted.
Context (buff_addr : nat → Z) (w : world) (r f : nat) (free used : list nat).
Context (Ht : table w r f free used).

(** The common shape of the non-blocking functions whose operation completes
    at once: [body] runs between reserving and setting up, and [status] is
    what the request will report. *)
Lemma submit_run {A} (body : M world A) (status : A → Z) (compl : A → bool) (size : A → Z)
    (out : Z → A → M world (Z * Z)) handle buffer type a w1 rq :
  indep body → type ≠ GET_ENDPT → body w = Done (a, w1) → compl a = true →
  ∃ w2, (let* o := mcapi_trans_reserve_request_have_lock in
         match o with
         | None => ret (rq, MCAPI_ERR_REQUEST_LIMIT)
         | Some r =>
             let* a := body in
             let* request := setup_request_have_lock handle 0 (status a) (compl a) (size a)
                               buffer type 0 0 0 r in
             out request a
         end) w = out (encode_request_handle r) a w2 ∧
    ∀ tsize tst, ∃ h', mcapi_trans_test_i buff_addr (encode_request_handle r) tsize tst w2
        = Done ((true, 0, size a, status a), request_done r h' w w1) ∧
      header_wf h' (r :: f :: free) used.
Proof using Ht.
  intros Hi Hty Hb Hc. destruct (reserve_done w r f free used Ht) as (h1 & Hres & Hwf).
  set (rqs := alter (λ x, x <| rq_valid := true |>) r (requests w)).
  pose proof (indep_done body rqs h1 w a w1 Hi Hb) as Hb1.
  destruct (indep_keeps body w a w1 Hi Hb) as [Hrq _].
  pose proof (table_index _ _ _ _ _ Ht) as Hr. pose proof (tb_length _ _ _ _ _ Ht) as Hlen.
  destruct (lookup_lt_is_Some_2 rqs r) as [x Hx]; [unfold rqs; rewrite length_alter; lia|].
  exists (with_request r (completed_as handle (status a) (size a) type) (with_table rqs h1 w1)). split.
  - rewrite (bind_done _ _ _ _ _ Hres). fold rqs. rewrite (bind_done _ _ _ _ _ Hb1), Hc.
    erewrite bind_done; [done|]. by eapply setup_completed.
  - intros tsize tst. exact (submit_test buff_addr w w1 h1 r f free used handle (status a) (size a) type
      tsize tst Ht Hwf Hrq).
Qed.

(** ... and when the operation fails. *)
Lemma submit_fault {A} (body : M world A) (k : nat → A → M world (Z * Z)) e rq :
  indep body → body w = Fault e →
  (let* o := mcapi_trans_reserve_request_have_lock in
   match o with
   | None => ret (rq, MCAPI_ERR_REQUEST_LIMIT)
   | Some r => let* a := body in k r a
   end) w = Fault e.
Proof using Ht.
  intros Hi Hb. destruct (reserve_done w r f free used Ht) as (h1 & Hres & Hwf).
  rewrite (bind_done _ _ _ _ _ Hres). unfold bind. rewrite Hi, Hb. done.
Qed.
End submitted.

(** ** Sending *)

(** The handle [h] is that of a valid endpoint whose queue has type [c]. *)
Record endpoint_ok (h : Z) (d n e : nat) (c : channel_type) (w : world) : Prop := {
  eo_handle : mcapi_trans_decode_handle h = (d, n, e, true);
  eo_endpoint : ∃ ep, endpoint_at d n e (w_db w) = Some ep ∧ ep_valid ep = true ∧
    q_channel_type (ep_recv_queue ep) = c }.
Lemma endpoint_queue h d n e c w :
  endpoint_ok h d n e c w → ∃ q, queue_at d n e w = Some q ∧ q_channel_type q = c.
Proof. intros [_ (ep & He & _ & Hc)]. exists (ep_recv_queue ep). unfold queue_at. by rewrite He. Qed.
Lemma wp_get_endpoint d n e ep w (Q : endpoint_entry → world → Prop) :
  endpoint_at d n e (w_db w) = Some ep → Q ep w → wp (get_endpoint d n e) Q w.
Proof. intros He HQ. unfold get_endpoint. apply wp_bind, wp_gets. by eapply wp_oob. Qed.
Lemma valid_endpoints_done h1 d1 n1 e1 c1 h2 d2 n2 e2 c2 w :
  endpoint_ok h1 d1 n1 e1 c1 w → endpoint_ok h2 d2 n2 e2 c2 w →
  mcapi_trans_valid_endpoints h1 h2 w = Done (true, w).
Proof.
  intros [Hh1 (ep1 & He1 & Hv1 & _)] [Hh2 (ep2 & He2 & Hv2 & _)]. apply wp_exact.
  unfold mcapi_trans_valid_endpoints. rewrite Hh1. cbn [negb]. apply wp_bind.
  eapply wp_get_endpoint; [exact He1|]. rewrite Hv1. cbn [negb]. rewrite Hh2. cbn [negb].
  apply wp_bind. eapply wp_get_endpoint; [exact He2|]. by apply wp_ret.
Qed.
Lemma assert_no_chan_done h d n e w :
  endpoint_ok h d n e MCAPI_NO_CHAN w → assert_no_chan d n e w = Done (tt, w).
Proof.
  intros (q & Hq & Hc)%endpoint_queue. apply wp_exact. unfold assert_no_chan.
  apply wp_bind. eapply wp_get_queue; [exact Hq|]. apply wp_assert; [|done].
  by apply bool_decide_eq_true.
Qed.
Lemma decode_done h d n e w :
  mcapi_trans_decode_handle h = (d, n, e, true) → decode_endpoint h w = Done ((d, n, e), w).
Proof. intros Hh. apply wp_exact. eapply wp_decode; [exact Hh|done]. Qed.

(** What the transport reports of a send. *)
Definition send_status (ok : bool) : Z := if ok then MCAPI_SUCCESS else MCAPI_ERR_MEM_LIMIT.

Section sending.
Context (buff_addr : nat → Z) (between : nat → world → world) (fuel : nat) (junk : Z).
Context (w : world) (r f : nat) (free used : list nat).
Context (Ht : table w r f free used) (Hfuel : (0 < fuel)%nat).

Section message.
Context (send_endpoint receive_endpoint : Z) (sd sn se rd rn re : nat).
Context (Hs : endpoint_ok send_endpoint sd sn se MCAPI_NO_CHAN w).
Context (Hr : endpoint_ok receive_endpoint rd rn re MCAPI_NO_CHAN w).
Context (buffer buffer_size priority : Z).
Context (Hprio : mcapi_trans_valid_priority priority = true).
Context (Hsize : buffer_size <= Z.of_nat MCAPI_MAX_MSG_SIZE).

Lemma check_msg_send_done :
  check_msg_send send_endpoint receive_endpoint buffer_size priority w = Done (MCAPI_SUCCESS, w).
Proof using Hs Hr Hprio Hsize.
  unfold check_msg_send, check. rewrite Hprio. cbn [negb].
  rewrite (bind_done _ _ _ _ _ (valid_endpoints_done _ _ _ _ _ _ _ _ _ _ _ Hs Hr)).
  by apply Z.ltb_ge in Hsize as ->.
Qed.

(** The part of [mcapi_trans_msg_send_i] between the request's set-up. *)
Definition msg_send_body : M world Z :=
  let* (sd, sn, se) := decode_endpoint send_endpoint in
  let* (rd, rn, re) := decode_endpoint receive_endpoint in
  assert_no_chan sd sn se;;
  assert_no_chan rd rn re;;
  let* sent := mcapi_trans_send_have_lock rd rn re buffer buffer_size 0 in
  ret (if (sent : bool) then MCAPI_SUCCESS else MCAPI_ERR_MEM_LIMIT).
Lemma indep_msg_send_body : indep msg_send_body.
Proof. unfold msg_send_body. solve_indep. Qed.
Lemma msg_send_body_run :
  msg_send_body w =
  match mcapi_trans_send_have_lock rd rn re buffer buffer_size 0 w with
  | Done (ok, w1) => Done (send_status ok, w1)
  | Fault e => Fault e
  end.
Proof using Hs Hr.
  unfold msg_send_body. rewrite (bind_done _ _ _ _ _ (decode_done _ _ _ _ _ (eo_handle _ _ _ _ _ _ Hs))).
  rewrite (bind_done _ _ _ _ _ (decode_done _ _ _ _ _ (eo_handle _ _ _ _ _ _ Hr))).
  rewrite (bind_done _ _ _ _ _ (assert_no_chan_done _ _ _ _ _ Hs)).
  rewrite (bind_done _ _ _ _ _ (assert_no_chan_done _ _ _ _ _ Hr)). unfold bind.
  by destruct (mcapi_trans_send_have_lock _ _ _ _ _ _ w) as [[ok w1]|].
Qed.

Lemma blocking_msg_send :
  match mcapi_trans_send_have_lock rd rn re buffer buffer_size 0 w with
  | Done (ok, w1) => ∃ h',
      mcapi_msg_send buff_addr between fuel junk send_endpoint receive_endpoint buffer
        buffer_size priority w = Done (send_status ok, request_done r h' w w1) ∧
      header_wf h' (r :: f :: free) used
  | Fault e =>
      mcapi_msg_send buff_addr between fuel junk send_endpoint receive_endpoint buffer
        buffer_size priority w = Fault e
  end.
Proof using Ht Hfuel Hs Hr Hprio Hsize.
  pose proof msg_send_body_run as Hbody.
  unfold mcapi_msg_send. rewrite (bind_done _ _ _ _ _ check_msg_send_done).
  change (negb (MCAPI_SUCCESS =? MCAPI_SUCCESS)) with false. cbv iota. unfold mcapi_trans_msg_send.
  destruct (mcapi_trans_send_have_lock _ _ _ _ _ _ w) as [[ok w1]|e].
  - destruct (submit_run buff_addr w r f free used Ht msg_send_body (λ st, st) (λ _, true)
      (λ _, buffer_size) (λ rq _, ret (rq, MCAPI_SUCCESS)) receive_endpoint None SEND
      _ w1 junk indep_msg_send_body ltac:(done) Hbody eq_refl) as (w2 & Hrun & Htest).
    destruct (Htest 0 MCAPI_SUCCESS) as (h' & Htst & Hwf). exists h'. split; [|done].
    pose proof (blocking_run buff_addr between fuel
      (mcapi_trans_msg_send_i send_endpoint receive_endpoint buffer buffer_size) junk 0 r w w2 _ _ _
      (λ _ res, let '(_, _, _, st) := res in ret (st =? MCAPI_SUCCESS))
      Hfuel (table_index _ _ _ _ _ Ht) Hrun Htst) as Hb.
    rewrite (bind_done _ _ _ _ _ Hb). by destruct ok.
  - apply bind_fault, bind_fault. destruct fuel as [|k]; [lia|]. cbn [until_request].
    apply bind_fault. exact (submit_fault w r f free used Ht msg_send_body _ e junk
      indep_msg_send_body Hbody).
Qed.
End message.

(** ** Packets *)

(** Sending on a channel whose other end is the endpoint [rd], [rn], [re]. *)
Section packet.
Context (send_handle : Z) (sd sn se rd rn re : nat) (qs : queue).
Context (Hs : mcapi_trans_decode_handle send_handle = (sd, sn, se, true)).
Context (Hqs : queue_at sd sn se w = Some qs) (Htype : q_channel_type qs = MCAPI_PKT_CHAN).
Context (Hr : mcapi_trans_decode_handle (q_recv_endpt qs) = (rd, rn, re, true)).
Context (buffer size : Z) (Hsize : size <= Z.of_nat MCAPI_MAX_PKT_SIZE).

Definition pkt_send_body : M world Z :=
  let* (sd, sn, se) := decode_endpoint send_handle in
  let* q := get_queue sd sn se in
  let* (rd, rn, re) := decode_endpoint (q_recv_endpt q) in
  let* sent := mcapi_trans_send_have_lock rd rn re buffer size 0 in
  ret (if (sent : bool) then MCAPI_SUCCESS else MCAPI_ERR_MEM_LIMIT).
Lemma indep_pkt_send_body : indep pkt_send_body.
Proof. unfold pkt_send_body. solve_indep. Qed.
Lemma get_queue_done d n e q v : queue_at d n e v = Some q → get_queue d n e v = Done (q, v).
Proof. intros Hq. apply wp_exact. eapply wp_get_queue; [exact Hq|done]. Qed.
Lemma pkt_send_body_run ok w1 :
  mcapi_trans_send_have_lock rd rn re buffer size 0 w = Done (ok, w1) →
  pkt_send_body w = Done (send_status ok, w1).
Proof using Hs Hqs Hr.
  intros Hsend. unfold pkt_send_body. rewrite (bind_done _ _ _ _ _ (decode_done _ _ _ _ _ Hs)).
  rewrite (bind_done _ _ _ _ _ (get_queue_done _ _ _ _ _ Hqs)).
  rewrite (bind_done _ _ _ _ _ (decode_done _ _ _ _ _ Hr)).
  by rewrite (bind_done _ _ _ _ _ Hsend).
Qed.

Lemma valid_handle_done h d n e q c v :
  mcapi_trans_decode_handle h = (d, n, e, true) → queue_at d n e v = Some q →
  q_channel_type q = c → valid_channel_handle c h v = Done (true, v).
Proof.
  intros Hh Hq Hc. unfold valid_channel_handle. rewrite Hh.
  rewrite (bind_done _ _ _ _ _ (get_queue_done _ _ _ _ _ Hq)). by rewrite bool_decide_eq_true_2.
Qed.

Lemma blocking_pktchan_send ok w1 :
  mcapi_trans_send_have_lock rd rn re buffer size 0 w = Done (ok, w1) →
  ∃ h', mcapi_pktchan_send buff_addr between fuel junk send_handle buffer size w
      = Done (send_status ok, request_done r h' w w1) ∧
    header_wf h' (r :: f :: free) used.
Proof using Ht Hfuel Hs Hqs Htype Hr Hsize.
  intros Hsend. pose proof (pkt_send_body_run ok w1 Hsend) as Hbody.
  unfold mcapi_pktchan_send, check_pktchan_send, check.
  rewrite (bind_done _ _ w MCAPI_SUCCESS w); cycle 1.
  { erewrite bind_done by (by eapply valid_handle_done).
    by apply Z.ltb_ge in Hsize as ->. }
  change (negb (MCAPI_SUCCESS =? MCAPI_SUCCESS)) with false. cbv iota. unfold mcapi_trans_pktchan_send.
  destruct (submit_run buff_addr w r f free used Ht pkt_send_body (λ st, st) (λ _, true)
    (λ _, size) (λ rq _, ret (rq, MCAPI_SUCCESS)) send_handle None SEND
    _ w1 junk indep_pkt_send_body ltac:(done) Hbody eq_refl) as (w2 & Hrun & Htest).
  destruct (Htest size MCAPI_SUCCESS) as (h' & Htst & Hwf). exists h'. split; [|done].
  pose proof (blocking_run buff_addr between fuel
    (mcapi_trans_pktchan_send_i send_handle buffer size) junk size r w w2 _ _ _
    (λ _ res, let '(_, _, _, st) := res in ret (st =? MCAPI_SUCCESS))
    Hfuel (table_index _ _ _ _ _ Ht) Hrun Htst) as Hb.
  rewrite (bind_done _ _ _ _ _ Hb). by destruct ok.
Qed.
End packet.

(** Receiving where a packet is waiting. *)
Section packet_recv.
Context (receive_handle : Z) (rd rn re : nat) (q : queue) (ws : list slot) (ids : list nat).
Context (pkt : list Z) (pkts : list (list Z)).
Context (Hr : mcapi_trans_decode_handle receive_handle = (rd, rn, re, true)).
Context (Hbox : box packet rd rn re w q ws ids (pkt :: pkts)).
Context (Hlen : (length pkt <= MCAPI_MAX_PKT_SIZE)%nat).
Context (buffer : Z) (Hbuffer : buffer ≠ 0).
Context (Hmem : ∀ i, 0 <= i < 8 → is_Some (w_mem w !! (buffer + i))).

Definition pkt_recv_body : M world (bool * Z) :=
  let size := Z.of_nat MCAPI_MAX_PKT_SIZE in
  let* (rd, rn, re) := decode_endpoint receive_handle in
  store (le_bytes 8 0) buffer;;
  let* o := mcapi_trans_recv_have_lock buff_addr rd rn re 0
              (Z.of_nat MCAPI_MAX_PKT_SIZE) false in
  match o with
  | Some (received_size, buf, _) =>
      store (le_bytes 8 buf) buffer;; ret (true, received_size)
  | None => ret (false, size)
  end.
Lemma indep_pkt_recv_body : indep pkt_recv_body.
Proof. unfold pkt_recv_body. solve_indep. Qed.


(** The packet's buffer [i] is lent to the user. *)
Lemma pkt_recv_body_run :
  ∃ i w1 q' ws' ids', pkt_recv_body w = Done ((true, Z.of_nat (length pkt)), w1) ∧
    load_bytes 8 buffer (w_mem w1) = Done (le_bytes 8 (buff_addr i)) ∧
    in_buffer packet (buffers w1) i pkt ∧ i ∉ ids' ∧ frame rd rn re w w1 ∧
    buffers w1 = buffers w ∧ box packet rd rn re w1 q' ws' ids' pkts.
Proof using between fuel Hr Hbox Hmem.
  destruct (store_bytes_ok (le_bytes 8 0) buffer (w_mem w)) as [m1 Hm1]; [by rewrite le_bytes_length|].
  set (wm := with_mem m1 w).
  assert (box packet rd rn re wm q ws ids (pkt :: pkts)) as Hbox1 by (destruct Hbox; by split).
  destruct (box_recv_packet buff_addr rd rn re wm q ws ids pkt pkts 0 (Z.of_nat MCAPI_MAX_PKT_SIZE) Hbox1)
    as (i & w1 & q' & ws' & ids' & Hrecv & Hi & Hni & Hm & [Hf1 Hf2 Hf3] & Hb & Hbox').
  destruct (store_bytes_ok (le_bytes 8 (buff_addr i)) buffer (w_mem w1)) as [m2 Hm2].
  { rewrite le_bytes_length, Hm. intros j Hj. eapply store_bytes_domain; [exact Hm1|by apply Hmem]. }
  exists i, (with_mem m2 w1), q', ws', ids'. split_and!.
  - apply wp_exact. unfold pkt_recv_body. apply wp_bind. eapply wp_decode; [exact Hr|].
    apply wp_bind. eapply wp_store; [exact Hm1|]. apply wp_bind. eapply wp_intro; [exact Hrecv|].
    apply wp_bind. eapply wp_store; [exact Hm2|]. by apply wp_ret.
  - rewrite <- (le_bytes_length 8 (buff_addr i)) at 1. by eapply load_store_bytes.
  - change (in_buffer packet (buffers w1) i pkt). rewrite Hb. exact Hi.
  - done.
  - by split.
  - done.
  - destruct Hbox'. by split.
Qed.

Lemma blocking_pktchan_recv received_size :
  ∃ i w1 h' q' ws' ids', mcapi_pktchan_recv buff_addr between fuel junk receive_handle buffer
      received_size w = Done ((Z.of_nat (length pkt), MCAPI_SUCCESS), request_done r h' w w1) ∧
    header_wf h' (r :: f :: free) used ∧
    load_bytes 8 buffer (w_mem w1) = Done (le_bytes 8 (buff_addr i)) ∧
    in_buffer packet (buffers w1) i pkt ∧ i ∉ ids' ∧ frame rd rn re w w1 ∧
    buffers w1 = buffers w ∧ box packet rd rn re w1 q' ws' ids' pkts.
Proof using Ht Hfuel Hr Hbox Hlen Hbuffer Hmem.
  destruct pkt_recv_body_run as (i & w1 & q' & ws' & ids' & Hbody & Hrest).
  unfold mcapi_pktchan_recv, check_pktchan_recv, check, mcapi_trans_valid_buffer_param.
  rewrite (bind_done _ _ w MCAPI_SUCCESS w); cycle 1.
  { apply Z.eqb_neq in Hbuffer as ->. cbn [negb]. rewrite (bind_done _ _ w true w); [done|].
    eapply valid_handle_done; [exact Hr|apply (bx_queue _ _ _ _ _ _ _ _ _ Hbox)|].
    apply (bx_type _ _ _ _ _ _ _ _ _ Hbox). }
  change (negb (MCAPI_SUCCESS =? MCAPI_SUCCESS)) with false. cbv iota. unfold mcapi_trans_pktchan_recv.
  destruct (submit_run buff_addr w r f free used Ht pkt_recv_body (λ _, MCAPI_SUCCESS) (λ a, a.1)
    (λ a, a.2) (λ rq _, ret (rq, MCAPI_SUCCESS)) receive_handle (Some (buffer, 0)) RECV
    _ w1 junk indep_pkt_recv_body ltac:(done) Hbody eq_refl) as (w2 & Hrun & Htest).
  destruct (Htest received_size MCAPI_SUCCESS) as (h' & Htst & Hwf).
  exists i, w1, h', q', ws', ids'. split; [|done].
  assert (mcapi_trans_pktchan_recv_i buff_addr receive_handle buffer junk MCAPI_SUCCESS w
    = Done ((encode_request_handle r, MCAPI_SUCCESS), w2)) as Hrun'.
  { etrans; [|exact Hrun]. unfold mcapi_trans_pktchan_recv_i, bind.
    destruct (mcapi_trans_reserve_request_have_lock w) as [[[r0|] w0]|]; [|done..].
    change (negb (MCAPI_SUCCESS =? MCAPI_SUCCESS)) with false. cbv iota beta.
    unfold pkt_recv_body, bind. destruct (decode_endpoint receive_handle w0) as [[[[a b] c] v]|]; [|done].
    destruct (store _ _ v) as [[[] v1]|]; [|done].
    destruct (mcapi_trans_recv_have_lock _ _ _ _ _ _ _ v1) as [[[[[sz bf] sc]|] v2]|]; [|done..].
    by destruct (store _ _ v2) as [[[] v3]|]. }
  pose proof (blocking_run buff_addr between fuel
    (mcapi_trans_pktchan_recv_i buff_addr receive_handle buffer) junk received_size r w w2 _ _ _
    (λ _ res, let '(_, _, rsz, st) := res in ret (st =? MCAPI_SUCCESS, rsz))
    Hfuel (table_index _ _ _ _ _ Ht) Hrun' Htst) as Hb.
  rewrite (bind_done _ _ _ _ _ Hb). change (MCAPI_SUCCESS =? MCAPI_SUCCESS) with true. cbv beta iota. cbn [snd].
  replace (Z.of_nat MCAPI_MAX_PKT_SIZE <? Z.of_nat (length pkt)) with false; [done|].
  symmetry. apply Z.ltb_ge. lia.
Qed.
End packet_recv.
End sending.
