(* ===== verification/McapiChannelSpec.v ===== *)
(** A connected channel as a list of the items on their way: what connecting,
    sending and receiving do to it; and a concrete database for examples. *)

From S2P Require Import Prelude Bytes McapiTypes McapiQueue McapiRequests McapiTransport McapiMessages McapiChannels McapiCheck McapiNodes McapiApi McapiRequestList McapiRing McapiQueueSpec McapiFifo McapiAccess McapiMailbox McapiBlocking.

Lemma some_buffer : (0 < MCAPI_MAX_BUFFERS)%nat.
Proof. unfold MCAPI_MAX_BUFFERS. lia. Qed.
#[local] Opaque MCAPI_MAX_QUEUE_ENTRIES MCAPI_MAX_QUEUE_ELEMENTS.
#[local] Opaque MCAPI_MAX_BUFFERS MCAPI_MAX_MSG_SIZE.

(** The send handle [sh] refers to an endpoint connected to the receive
    endpoint [rh], where [items] wait. *)
Record channel {T} (c : contents T) (sh rh : Z) (sd sn se rd rn re : nat) (w : world)
    (items : list T) : Prop := {
  ch_send : mcapi_trans_decode_handle sh = (sd, sn, se, true);
  ch_recv : mcapi_trans_decode_handle rh = (rd, rn, re, true);
  ch_distinct : (sd, sn, se) ≠ (rd, rn, re);
  ch_out : ∃ q, queue_at sd sn se w = Some q ∧ q_channel_type q = kind c ∧ q_recv_endpt q = rh;
  ch_in : waiting c rd rn re w items }.

Lemma channel_frame {T} (c : contents T) sh rh sd sn se rd rn re w w' items items' :
  channel c sh rh sd sn se rd rn re w items → frame rd rn re w w' →
  waiting c rd rn re w' items' → channel c sh rh sd sn se rd rn re w' items'.
Proof.
  intros [Hs Hr Hd Ho Hi] [_ _ Hf] Hw. split; try done. by rewrite Hf.
Qed.
Lemma channel_table {T} (c : contents T) sh rh sd sn se rd rn re rqs h w items :
  channel c sh rh sd sn se rd rn re w items →
  channel c sh rh sd sn se rd rn re (with_table rqs h w) items.
Proof.
  intros [Hs Hr Hd Ho (q & ws & ids & [])]. split; try done. exists q, ws, ids. by split.
Qed.
Lemma box_valid {T} (c : contents T) h d n e w q ws ids items :
  mcapi_trans_decode_handle h = (d, n, e, true) → box c d n e w q ws ids items →
  valid_channel_handle (kind c) h w = Done (true, w).
Proof. intros Hh [Hq _ Ht]. by eapply valid_handle_done. Qed.

(** The refusals: the queue is full or no buffer is free. *)
Definition no_room_at (d n e : nat) (w : world) : Prop :=
  ∃ q, queue_at d n e w = Some q ∧ no_room q w.

(** ** Connecting *)

(** The handle of a valid endpoint that is not connected. *)
Record unconnected (h : Z) (d n e : nat) (w : world) : Prop := {
  un_handle : mcapi_trans_decode_handle h = (d, n, e, true);
  un_endpoint : ∃ ep, endpoint_at d n e (w_db w) = Some ep ∧ ep_valid ep = true ∧
    ep_connected ep = false }.

Lemma unconnected_checks h d n e w :
  unconnected h d n e w → mcapi_trans_channel_connected h w = Done (false, w).
Proof.
  intros [Hh (ep & He & Hv & Hc)]. apply wp_exact. unfold mcapi_trans_channel_connected.
  apply wp_bind. eapply wp_decode; [exact Hh|]. apply wp_bind. eapply wp_get_endpoint; [exact He|].
  apply wp_ret. by rewrite Hv, Hc.
Qed.
Lemma check_connect_done sh rh sd sn se rd rn re w :
  unconnected sh sd sn se w → unconnected rh rd rn re w →
  check_connect sh rh w = Done (MCAPI_SUCCESS, w).
Proof.
  intros Hs Hr. pose proof (unconnected_checks _ _ _ _ _ Hs) as Hcs.
  pose proof (unconnected_checks _ _ _ _ _ Hr) as Hcr.
  destruct Hs as [Hsh (es & Hes & Hvs & _)], Hr as [Hrh (er & Her & Hvr & _)].
  unfold check_connect, check, check_not.
  rewrite (bind_done _ _ w true w); [|by eapply valid_endpoints_done; split; [|eexists| |eexists]].
  by rewrite (bind_done _ _ _ _ _ Hcs), (bind_done _ _ _ _ _ Hcr).
Qed.

Section connect.
Context (sh rh : Z) (sd sn se rd rn re : nat) (type : channel_type) (w : world).
Context (Hs : unconnected sh sd sn se w) (Hr : unconnected rh rd rn re w).
Context (Hne : (sd, sn, se) ≠ (rd, rn, re)).

(** What becomes of the two endpoints. *)
Definition linked (q : queue) : queue :=
  q <| q_recv_endpt := rh |> <| q_send_endpt := sh |> <| q_channel_type := type |>.
Definition link (ep : endpoint_entry) : endpoint_entry :=
  ep <| ep_connected := true |> <| ep_recv_queue ::= linked |>.
Definition connected_world : world :=
  w <| w_db ::= upd_endpoint sd sn se link |> <| w_db ::= upd_endpoint rd rn re link |>.

Lemma wp_modify_endpoint d n e f ep w1 (Q : unit → world → Prop) :
  endpoint_at d n e (w_db w1) = Some ep → Q tt (w1 <| w_db ::= upd_endpoint d n e f |>) →
  wp (modify_endpoint d n e f) Q w1.
Proof. intros He HQ. apply wp_bind. eapply wp_get_endpoint; [done|]. by apply wp_modify. Qed.
Lemma connect_done : mcapi_trans_connect_channel_have_lock sh rh type w = Done (tt, connected_world).
Proof using Hs Hr Hne.
  destruct Hs as [Hsh (es & Hes & _)], Hr as [Hrh (er & Her & _)]. apply wp_exact.
  unfold mcapi_trans_connect_channel_have_lock. apply wp_bind. eapply wp_decode; [exact Hsh|].
  apply wp_bind. eapply wp_decode; [exact Hrh|]. cbv beta iota zeta. apply wp_bind.
  eapply wp_modify_endpoint; [exact Hes|]. eapply wp_modify_endpoint; [|done].
  cbn [w_db set_field]. by rewrite endpoint_at_upd_ne.
Qed.
Lemma connected_queue d n e ep :
  (d, n, e) = (sd, sn, se) ∨ (d, n, e) = (rd, rn, re) → endpoint_at d n e (w_db w) = Some ep →
  queue_at d n e connected_world = Some (linked (ep_recv_queue ep)).
Proof using Hne.
  intros Hde He. unfold queue_at, connected_world. cbn [w_db set_field].
  destruct Hde as [[= -> -> ->]|[= -> -> ->]].
  - rewrite endpoint_at_upd_ne by done. by rewrite (endpoint_at_upd _ _ _ _ _ _ He).
  - erewrite endpoint_at_upd; [|rewrite endpoint_at_upd_ne by done; exact He]. done.
Qed.
Lemma linked_ring q ws : ring q ws [] → ring (linked q) ws [].
Proof. intros [[] ? ? ? ? ? ? ?]. split; [by split|done..]. Qed.

(** The channel is empty when no message was waiting. *)
Lemma connect_channel {T} (c : contents T) :
  kind c = type → mails rd rn re w [] → channel c sh rh sd sn se rd rn re connected_world [].
Proof using Hs Hr Hne.
  intros Hc (q & ws & ids & [Hq Hring _ Hrefs Hnd Hh Hb]).
  destruct Hs as [Hsh (es & Hes & _)], Hr as [Hrh (er & Her & _)].
  pose proof Hq as Hq'. unfold queue_at in Hq'. rewrite Her in Hq'. injection Hq' as <-.
  split; try done.
  - eexists. split; [by apply connected_queue; [left|exact Hes]|done].
  - exists (linked (ep_recv_queue er)), ws, ids. split; try done.
    + by apply connected_queue; [right|].
    + by apply linked_ring.
    + apply Forall2_nil_inv_r in Hh as ->. constructor.
Qed.

(** The function: the request it returns completes, and the channel is there. *)
Lemma connect_run {T} (c : contents T) buff_addr r f free used request_type request :
  kind c = type → mails rd rn re w [] → table w r f free used → request_type ≠ GET_ENDPT →
  ∃ w2, (let* mcapi_status := check_connect sh rh in
         channel_connect_i type request_type sh rh request mcapi_status) w
      = Done ((encode_request_handle r, MCAPI_SUCCESS), w2) ∧
    ∀ tsize tst, ∃ w3, mcapi_trans_test_i buff_addr (encode_request_handle r) tsize tst w2
        = Done ((true, 0, 0, MCAPI_SUCCESS), w3) ∧ w_mem w3 = w_mem w ∧ buffers w3 = buffers w ∧
      table w3 r f free used ∧ channel c sh rh sd sn se rd rn re w3 [].
Proof using Hs Hr Hne.
  intros Hc Hm Ht Hty. rewrite (bind_done _ _ _ _ _ (check_connect_done _ _ _ _ _ _ _ _ _ Hs Hr)).
  destruct (submit_run buff_addr w r f free used Ht (mcapi_trans_connect_channel_have_lock sh rh type)
    (λ _, MCAPI_SUCCESS) (λ _, true) (λ _, 0) (λ rq _, ret (rq, MCAPI_SUCCESS)) rh None request_type tt
    connected_world request (indep_connect _ _ _) Hty connect_done eq_refl) as (w2 & Hrun & Htest).
  exists w2. split; [exact Hrun|]. intros tsize tst. destruct (Htest tsize tst) as (h' & Ht' & Hwf).
  exists (request_done r h' w connected_world). split_and!; [exact Ht'|done|done| |].
  - split; [exact Hwf|]. unfold request_done. rewrite requests_table, length_alter. by destruct Ht.
  - apply channel_table. by apply connect_channel.
Qed.
End connect.

(** ** Scalars *)

Section scalar.
Context (sh rh : Z) (sd sn se rd rn re : nat).
#[local] Abbreviation scalars := (channel scalar sh rh sd sn se rd rn re).

Lemma sclchan_send_run w items size v :
  scalars w items →
  ∃ ok w', sclchan_send sh v size w = Done (send_status ok, w') ∧ w_mem w' = w_mem w ∧
    scalars w' (if ok then items ++ [(size, v)] else items) ∧ (ok = false → no_room_at rd rn re w).
Proof.
  intros Hch. pose proof Hch as [Hs Hr _ (qs & Hqs & Ht & Hrh) (q & ws & ids & Hbox)].
  destruct (box_send_scalar rd rn re w q ws ids items 0 size v Hbox)
    as (ok & w' & Hrun & Hm & Hf & Hw & Hno).
  exists ok, w'. split; [|split; [done|split; [by eapply channel_frame|]]];
    [|intros Hok; exists q; split; [by destruct Hbox|by apply Hno]].
  unfold sclchan_send, check.
  rewrite (bind_done _ _ w true w) by by eapply valid_handle_done.
  rewrite (bind_done _ _ w ok w'); [done|].
  unfold mcapi_trans_sclchan_send. rewrite (bind_done _ _ _ _ _ (decode_done _ _ _ _ _ Hs)).
  rewrite (bind_done _ _ _ _ _ (get_queue_done _ _ _ _ _ Hqs)), Hrh.
  by rewrite (bind_done _ _ _ _ _ (decode_done _ _ _ _ _ Hr)).
Qed.

Lemma sclchan_recv_run buff_addr between fuel cast exp_size w size v items :
  scalars w ((size, v) :: items) → (0 < fuel)%nat →
  ∃ w', sclchan_recv buff_addr between fuel cast rh exp_size w
      = Done ((cast v, if size =? exp_size then MCAPI_SUCCESS else MCAPI_ERR_SCL_SIZE), w') ∧
    w_mem w' = w_mem w ∧ scalars w' items.
Proof.
  intros Hch Hfuel. pose proof Hch as [_ Hr _ _ (q & ws & ids & Hbox)].
  destruct (box_recv_scalar buff_addr rd rn re w q ws ids size v items 0 exp_size Hbox)
    as (i & w' & q' & ws' & ids' & Hrun & _ & _ & Hm & Hf & _ & Hbox').
  exists w'. split; [|split; [done|eapply channel_frame; [done|done|by exists q', ws', ids']]].
  unfold sclchan_recv, check.
  rewrite (bind_done _ _ w true w) by by eapply (box_valid scalar).
  rewrite (bind_done _ _ w (size =? exp_size, v) w'); [by destruct (size =? exp_size)|].
  unfold mcapi_trans_sclchan_recv. rewrite (bind_done _ _ _ _ _ (decode_done _ _ _ _ _ Hr)).
  destruct fuel as [|fuel]; [lia|].
  rewrite (bind_done _ _ w (size, 0, Some v) w'); [done|].
  unfold recv_blocking_have_lock. by rewrite (bind_done _ _ _ _ _ Hrun).
Qed.
End scalar.

(** ** Packets *)

Section packet.
Context (buff_addr : nat → Z) (between : nat → world → world) (fuel : nat) (junk : Z).
Context (Hfuel : (0 < fuel)%nat).
Context (sh rh : Z) (sd sn se rd rn re : nat).
#[local] Abbreviation packets := (channel packet sh rh sd sn se rd rn re).

Lemma table_done w w1 r h' f free used :
  table w r f free used → header_wf h' (r :: f :: free) used →
  table (request_done r h' w w1) r f free used.
Proof. intros [_ Hl] Hh. split; [done|]. unfold request_done. by rewrite requests_table, length_alter. Qed.

Lemma pktchan_send_run w r f free used items bytes buffer :
  table w r f free used → packets w items →
  (length bytes <= MCAPI_MAX_PKT_SIZE)%nat → MCAPI_MAX_PKT_SIZE = MCAPI_MAX_MSG_SIZE →
  load_bytes (length bytes) buffer (w_mem w) = Done bytes →
  ∃ ok w', mcapi_pktchan_send buff_addr between fuel junk sh buffer (Z.of_nat (length bytes)) w
      = Done (send_status ok, w') ∧
    w_mem w' = w_mem w ∧ table w' r f free used ∧
    packets w' (if ok then items ++ [bytes] else items) ∧ (ok = false → no_room_at rd rn re w).
Proof using Hfuel.
  intros Ht Hch Hlen Hmax Hload.
  pose proof Hch as [Hs Hr _ (qs & Hqs & Hty & Hrh) (q & ws & ids & Hbox)].
  destruct (box_send_bytes packet rd rn re w q ws ids items bytes buffer 0)
    as (ok & w1 & Hrun & Hm & Hf & Hw & Hno); [done|apply filled_stores; lia|done|lia|done|].
  destruct (blocking_pktchan_send buff_addr between fuel junk w r f free used Ht Hfuel sh sd sn se
    rd rn re qs Hs Hqs Hty ltac:(by rewrite Hrh) buffer (Z.of_nat (length bytes)) ltac:(lia) ok w1 Hrun)
    as (h' & Hsend & Hwf).
  exists ok, (request_done r h' w w1). split_and!; [done|done|by apply table_done| |].
  - apply channel_table. by eapply channel_frame.
  - intros Hok. exists q. split; [by destruct Hbox|by apply Hno].
Qed.

(** The packet's buffer is [i], whose address the user gets. *)
Lemma pktchan_recv_run w r f free used pkt items buffer rsize :
  table w r f free used → packets w (pkt :: items) → (length pkt <= MCAPI_MAX_PKT_SIZE)%nat →
  buffer ≠ 0 → (∀ i, 0 <= i < 8 → is_Some (w_mem w !! (buffer + i))) →
  ∃ i w' q ws ids, mcapi_pktchan_recv buff_addr between fuel junk rh buffer rsize w
      = Done ((Z.of_nat (length pkt), MCAPI_SUCCESS), w') ∧
    load_bytes 8 buffer (w_mem w') = Done (le_bytes 8 (buff_addr i)) ∧
    in_buffer packet (buffers w') i pkt ∧ i ∉ ids ∧ box packet rd rn re w' q ws ids items ∧
    table w' r f free used ∧ packets w' items.
Proof using Hfuel.
  intros Ht Hch Hlen Hb Hmem. pose proof Hch as [_ Hr _ _ (q & ws & ids & Hbox)].
  destruct (blocking_pktchan_recv buff_addr between fuel junk w r f free used Ht Hfuel rh rd rn re q ws
    ids pkt items Hr Hbox Hlen buffer Hb Hmem rsize)
    as (i & w1 & h' & q' & ws' & ids' & Hrun & Hwf & Hload & Hi & Hni & Hf & _ & Hbox').
  exists i, (request_done r h' w w1), q', ws', ids'. split_and!; try done.
  - destruct Hbox'. by split.
  - by apply table_done.
  - apply channel_table. eapply channel_frame; [done|done|by exists q', ws', ids'].
Qed.

(** Releasing a buffer that holds a packet frees it; the ones on their way
    stay. *)
Context (Hinj : ∀ i j, (i < MCAPI_MAX_BUFFERS)%nat → (j < MCAPI_MAX_BUFFERS)%nat →
  buff_addr i = buff_addr j → i = j).

(** The pointer arithmetic agrees with the layout. *)
Lemma find_buffer i :
  (i < MCAPI_MAX_BUFFERS)%nat →
  c_scan (λ j, entry_addr buff_addr j =? buff_addr i - (sizeof_scalar + sizeof_size + sizeof_magic_num + 4))
    (seq 0 MCAPI_MAX_BUFFERS) MCAPI_MAX_BUFFERS 0 = Done i.
Proof using Hinj.
  intros Hi. change (sizeof_scalar + sizeof_size + sizeof_magic_num + 4) with offsetof_buff. unfold entry_addr.
  destruct (c_scan_all (λ j, buff_addr j - offsetof_buff =? buff_addr i - offsetof_buff) (seq 0 MCAPI_MAX_BUFFERS)
    MCAPI_MAX_BUFFERS (length_seq _ _)) as [(k & j & -> & Hk & Hj & Hp & _)|[_ Hn]].
  - apply lookup_seq in Hj as [-> _]. apply Z.eqb_eq in Hp. f_equal. clear Hfuel. apply Hinj; [done..|]. cbn in Hp. lia.
  - specialize (Hn i i). rewrite Z.eqb_refl in Hn. discriminate Hn. by apply lookup_seq.
Qed.
Lemma release_run w i b :
  buffers w !! i = Some b → (i < MCAPI_MAX_BUFFERS)%nat →
  mcapi_pktchan_release buff_addr (buff_addr i) w =
    if b_magic_num b =? MAGIC_NUM
    then Done (MCAPI_SUCCESS, with_buffers (alter (λ _, zero_buffer) i) w)
    else Done (MCAPI_ERR_BUF_INVALID, w).
Proof using Hinj.
  intros Hb Hi. unfold mcapi_pktchan_release, mcapi_trans_pktchan_free. cbv zeta.
  assert (∀ Q, wp (get_buffer i) Q w ↔ Q b w) as Hget.
  { intros Q. unfold wp, get_buffer, get_mdb, bind, gets. fold (buffers w). by rewrite Hb. }
  destruct (b_magic_num b =? MAGIC_NUM) eqn:Hm; apply wp_exact; apply wp_bind, wp_bind;
    (eapply wp_lift; [by apply find_buffer|]); apply wp_bind; (eapply wp_get_buffer; [exact Hb|]);
    rewrite Hm.
  - apply wp_bind. eapply wp_modify_buffer; [exact Hb|]. apply wp_ret. by apply wp_ret.
  - apply wp_ret. by apply wp_ret.
Qed.
End packet.

(** ** A concrete database

    Zeroed shared memory with an initialized request table and two valid
    endpoints, 0 and 1, and the same with a channel between them. *)

#[local] Transparent MCAPI_MAX_QUEUE_ELEMENTS MCAPI_MAX_MSG_SIZE.

Definition fresh_header : indexed_array_header :=
  match mcapi_trans_init_indexed_array_have_lock zero_iheader with
  | Done (_, h) => h
  | Fault _ => zero_iheader
  end.
Lemma fresh_header_wf : header_wf fresh_header (0%nat :: 1%nat :: seq 2 1022) [].
Proof.
  destruct (init_header_wf zero_iheader) as (h & Hi & Hwf). unfold fresh_header. by rewrite Hi.
Qed.
(** The bytes 7, 8, 9 at address 100, and room for a pointer at 300. *)
Definition fresh_mem : gmap Z Z :=
  list_to_map ([(100, 7); (101, 8); (102, 9)] ++ ((λ i, (300 + Z.of_nat i, 0)) <$> seq 0 8)).
Definition bare_world : world :=
  mk_world (zero_mdb <| request_reserves_header := fresh_header |>) fresh_mem.
Definition make_valid (ep : endpoint_entry) : endpoint_entry := ep <| ep_valid := true |>.
Definition fresh_world : world :=
  bare_world <| w_db ::= upd_endpoint 0 0 0 make_valid |> <| w_db ::= upd_endpoint 0 0 1 make_valid |>.
Lemma bare_endpoint e :
  (e < MCAPI_MAX_ENDPOINTS)%nat → endpoint_at 0 0 e (w_db bare_world) = Some zero_endpoint.
Proof.
  intros He. change (replicate MCAPI_MAX_ENDPOINTS zero_endpoint !! e = Some zero_endpoint).
  by apply lookup_replicate_2.
Qed.
Lemma fresh_endpoint e :
  (e = 0 ∨ e = 1)%nat → endpoint_at 0 0 e (w_db fresh_world) = Some (make_valid zero_endpoint).
Proof.
  intros [-> | ->]; unfold fresh_world; cbn [w_db set_field].
  - rewrite endpoint_at_upd_ne by done. apply endpoint_at_upd, bare_endpoint. unfold MCAPI_MAX_ENDPOINTS. lia.
  - apply endpoint_at_upd. rewrite endpoint_at_upd_ne by done. apply bare_endpoint. unfold MCAPI_MAX_ENDPOINTS. lia.
Qed.
Lemma fresh_ok e : (e = 0 ∨ e = 1)%nat → endpoint_ok (Z.of_nat e) 0 0 e MCAPI_NO_CHAN fresh_world.
Proof.
  intros He. split; [by destruct He as [-> | ->]|]. exists (make_valid zero_endpoint).
  split; [by apply fresh_endpoint|done].
Qed.
Lemma fresh_table : table fresh_world 0 1 (seq 2 1022) [].
Proof. split; [exact fresh_header_wf|]. apply (length_replicate MCAPI_MAX_REQUESTS zero_mrequest). Qed.

Lemma fresh_buffers : buffers_wf (buffers fresh_world).
Proof.
  split; [exact (length_replicate MCAPI_MAX_BUFFERS zero_buffer)|].
  apply (Forall_replicate _ MCAPI_MAX_BUFFERS zero_buffer), length_replicate.
Qed.
Lemma fresh_box : box message 0 0 1 fresh_world zero_queue [] [] [].
Proof.
  split; [|apply ring_zero|done|done|apply NoDup_nil_2|constructor|apply fresh_buffers].
  unfold queue_at. by rewrite fresh_endpoint by by right.
Qed.

(** ** A channel *)

Lemma fresh_unconnected e : (e = 0 ∨ e = 1)%nat → unconnected (Z.of_nat e) 0 0 e fresh_world.
Proof.
  intros He. split; [by destruct He as [-> | ->]|]. exists (make_valid zero_endpoint).
  split; [by apply fresh_endpoint|done].
Qed.
Definition linked_world (type : channel_type) : world :=
  connected_world 0 1 0 0 0 0 0 1 type fresh_world.
Lemma linked_channel {T} (c : contents T) :
  channel c 0 1 0 0 0 0 0 1 (linked_world (kind c)) [].
Proof.
  eapply connect_channel; [by apply (fresh_unconnected 0); left|by apply (fresh_unconnected 1); right| | |].
  - done.
  - done.
  - exists zero_queue, [], []. apply fresh_box.
Qed.
Lemma linked_room type : ¬ no_room_at 0 0 1 (linked_world type).
Proof.
  intros (q & Hq & Hno). unfold linked_world in Hq.
  rewrite (connected_queue 0 1 0 0 0 0 0 1 type fresh_world ltac:(done) 0 0 1 (make_valid zero_endpoint))
    in Hq by (first [by right | by apply fresh_endpoint; right]).
  injection Hq as <-. destruct Hno as [Hfull|Hused]; [done|].
  rewrite Forall_lookup in Hused. apply (Hused 0%nat zero_buffer); [|done].
  apply (lookup_replicate_2 MCAPI_MAX_BUFFERS zero_buffer 0), some_buffer.
Qed.
Lemma linked_table type : table (linked_world type) 0 1 (seq 2 1022) [].
Proof. split; [exact fresh_header_wf|]. apply (length_replicate MCAPI_MAX_REQUESTS zero_mrequest). Qed.
