(* ===== verification/McapiEndpoints.v ===== *)
(** The endpoint table of a node as a map from indices to ports: what creating,
    deleting and looking up endpoints do to it. *)

From S2P Require Import Prelude Bytes McapiTypes McapiQueue McapiRequests McapiTransport McapiMessages McapiChannels McapiCheck McapiNodes McapiApi McapiAccess McapiBlocking.

(** ** The table of a node *)

Definition node_at (d n : nat) (w : world) : option node_entry :=
  m_domains (w_db w) !! d ≫= λ dm, de_nodes dm !! n.
Definition with_node (d n : nat) (f : node_entry → node_entry) (w : world) : world :=
  w <| w_db ::= upd_mnode d n f |>.

(** The port of the endpoint [e], when it exists. *)
Definition port_at (nd : node_entry) (e : nat) : option Z :=
  endpoints nd !! e ≫= λ ep, if ep_valid ep then Some (ep_port_num ep) else None.

(** The counter is right, and no two endpoints share a port other than
    MCAPI_PORT_ANY. *)
Record node_wf (nd : node_entry) : Prop := {
  nw_length : length (endpoints nd) = MCAPI_MAX_ENDPOINTS;
  nw_count : num_endpoints nd = countb ep_valid (endpoints nd);
  nw_ports : ∀ i j p, port_at nd i = Some p → port_at nd j = Some p → p ≠ MCAPI_PORT_ANY → i = j }.

Record endpoint_tables (w : world) : Prop := {
  et_domains : length (m_domains (w_db w)) = MCA_MAX_DOMAINS;
  et_nodes : Forall (λ dm, length (de_nodes dm) = MCA_MAX_NODES) (m_domains (w_db w));
  et_wf : ∀ d n nd, node_at d n w = Some nd → node_wf nd }.

Lemma node_at_with d n f w :
  node_at d n (with_node d n f w) = f <$> node_at d n w.
Proof.
  unfold node_at, with_node, upd_mnode. cbn. rewrite list_lookup_alter_eq.
  destruct (m_domains (w_db w) !! d) as [dm|]; [|done]. cbn. by rewrite list_lookup_alter_eq.
Qed.
Lemma node_at_with_ne d n d' n' f w :
  (d', n') ≠ (d, n) → node_at d' n' (with_node d n f w) = node_at d' n' w.
Proof.
  intros Hne. unfold node_at, with_node, upd_mnode. cbn.
  destruct (decide (d' = d)) as [->|]; [rewrite list_lookup_alter_eq|by rewrite list_lookup_alter_ne].
  destruct (m_domains (w_db w) !! d) as [dm|]; [|done]. cbn. by rewrite list_lookup_alter_ne by congruence.
Qed.
Lemma endpoint_at_node d n e w : endpoint_at d n e (w_db w) = node_at d n w ≫= λ nd, endpoints nd !! e.
Proof. unfold endpoint_at, node_at. by destruct (m_domains (w_db w) !! d). Qed.

Lemma with_node_twice d n f g w : with_node d n f (with_node d n g w) = with_node d n (f ∘ g) w.
Proof.
  destruct w as [[dms bs rqs h nn] m]. unfold with_node, upd_mnode, set_field. cbn. do 2 f_equal.
  rewrite list_alter_alter_eq. apply list_alter_ext; [|done]. intros [? ? ? nds] _. cbn. f_equal.
  by rewrite list_alter_alter_eq.
Qed.
Lemma with_node_ext d n f g nd w :
  node_at d n w = Some nd → f nd = g nd → with_node d n f w = with_node d n g w.
Proof.
  intros Hnd Hfg. unfold node_at in Hnd. destruct w as [[dms bs rqs h nn] m].
  unfold with_node, upd_mnode, set_field. cbn in *. do 2 f_equal.
  apply list_alter_ext; [|done]. intros dm Hdm. rewrite Hdm in Hnd. cbn in Hnd.
  destruct dm as [? ? ? nds]. cbn in *. f_equal. apply list_alter_ext; [|done]. intros x Hx. congruence.
Qed.

Lemma tables_with d n f w :
  endpoint_tables w → (∀ nd, node_at d n w = Some nd → node_wf (f nd)) →
  endpoint_tables (with_node d n f w).
Proof.
  intros [Hd Hn Hwf] Hf. split.
  - unfold with_node, upd_mnode. cbn. by rewrite length_alter.
  - unfold with_node, upd_mnode. cbn. apply Forall_alter; [done|]. intros dm _ H. cbn. by rewrite length_alter.
  - intros d' n' nd Hnd. destruct (decide ((d', n') = (d, n))) as [[= -> ->]|Hne].
    + rewrite node_at_with in Hnd. apply fmap_Some in Hnd as (nd0 & Hnd & ->). by apply Hf.
    + rewrite node_at_with_ne in Hnd by done. by eapply Hwf.
Qed.
Lemma node_in_range d n w :
  endpoint_tables w → (d < MCA_MAX_DOMAINS)%nat → (n < MCA_MAX_NODES)%nat →
  ∃ dm nd, m_domains (w_db w) !! d = Some dm ∧ de_nodes dm !! n = Some nd ∧
    node_at d n w = Some nd ∧ node_wf nd.
Proof.
  intros [Hd Hn Hwf] Hdr Hnr. destruct (lookup_lt_is_Some_2 (m_domains (w_db w)) d) as [dm Hdm]; [lia|].
  rewrite Forall_lookup in Hn. destruct (lookup_lt_is_Some_2 (de_nodes dm) n) as [nd Hnd];
    [rewrite (Hn _ _ Hdm); lia|].
  exists dm, nd. assert (node_at d n w = Some nd) as H by (unfold node_at; by rewrite Hdm).
  split_and!; [done..|by eapply Hwf].
Qed.
Lemma endpoint_in_range nd e :
  node_wf nd → (e < MCAPI_MAX_ENDPOINTS)%nat → ∃ ep, endpoints nd !! e = Some ep.
Proof. intros [Hl _ _] He. apply lookup_lt_is_Some_2. lia. Qed.

(** ** Handles *)

Lemma endpoint_handle_all :
  forallb (λ i, let '(d, n, e) := ((i / 512)%nat, (i / 32 mod 16)%nat, (i mod 32)%nat) in
    match mcapi_trans_encode_handle d n e with
    | Done h => bool_decide (mcapi_trans_decode_handle h = (d, n, e, true))
    | Fault _ => false
    end) (seq 0 1024) = true.
Proof. vm_compute. reflexivity. Qed.
Lemma encode_done d n e :
  (d < MCA_MAX_DOMAINS)%nat → (n < MCA_MAX_NODES)%nat → (e < MCAPI_MAX_ENDPOINTS)%nat →
  ∃ h, mcapi_trans_encode_handle d n e = Done h ∧ mcapi_trans_decode_handle h = (d, n, e, true).
Proof.
  unfold MCA_MAX_DOMAINS, MCA_MAX_NODES, MCAPI_MAX_ENDPOINTS. intros Hd Hn He.
  pose proof endpoint_handle_all as Hall. rewrite forallb_forall in Hall.
  specialize (Hall (d * 512 + n * 32 + e)%nat). rewrite in_seq in Hall.
  assert ((d * 512 + n * 32 + e) / 512 = d)%nat as Ed by (symmetry; apply (Nat.div_unique _ 512 d (n * 32 + e)); lia).
  assert ((d * 512 + n * 32 + e) mod 32 = e)%nat as Ee by (symmetry; apply (Nat.mod_unique _ 32 (d * 16 + n)); lia).
  assert ((d * 512 + n * 32 + e) / 32 = d * 16 + n)%nat as En by (symmetry; apply (Nat.div_unique _ 32 _ e); lia).
  assert ((d * 16 + n) mod 16 = n)%nat as En' by (symmetry; apply (Nat.mod_unique _ 16 d); lia).
  rewrite Ed, Ee, En, En' in Hall. specialize (Hall ltac:(lia)).
  destruct (mcapi_trans_encode_handle d n e) as [h|]; [|done]. exists h. split; [done|].
  by apply bool_decide_eq_true in Hall.
Qed.
Lemma decode_range h d n e :
  mcapi_trans_decode_handle h = (d, n, e, true) →
  (d < MCA_MAX_DOMAINS)%nat ∧ (n < MCA_MAX_NODES)%nat ∧ (e < MCAPI_MAX_ENDPOINTS)%nat.
Proof.
  unfold mcapi_trans_decode_handle. intros [= <- <- <- Hok].
  apply andb_true_iff in Hok as [[H1%Nat.ltb_lt H2%Nat.ltb_lt]%andb_true_iff H3%Nat.ltb_lt]. done.
Qed.

(** ** Creating and deleting in the table *)

Definition fill (port : Z) (ep : endpoint_entry) : endpoint_entry :=
  ep <| ep_valid := true |> <| ep_port_num := port |> <| ep_open := false |>
    <| ep_anonymous := false |> <| ep_num_attributes := 0 |>.
Definition with_entry (e : nat) (f : endpoint_entry → endpoint_entry) (k : Z)
    (nd : node_entry) : node_entry :=
  nd <| endpoints ::= alter f e |> <| num_endpoints := k |>.
Definition created (e : nat) (port : Z) (nd : node_entry) : node_entry :=
  with_entry e (fill port) (num_endpoints nd + 1) nd.
Definition deleted (e : nat) (nd : node_entry) : node_entry :=
  with_entry e (λ _, zero_endpoint) (num_endpoints nd - 1) nd.

Lemma port_at_entry e f k nd j :
  port_at (with_entry e f k nd) j =
  if decide (j = e) then endpoints nd !! e ≫= λ ep, if ep_valid (f ep) then Some (ep_port_num (f ep)) else None
  else port_at nd j.
Proof.
  unfold port_at, with_entry. cbn. case_decide as Hj.
  - subst j. rewrite list_lookup_alter_eq. by destruct (endpoints nd !! e).
  - by rewrite list_lookup_alter_ne.
Qed.
Lemma count_entry e f k nd ep :
  endpoints nd !! e = Some ep →
  countb ep_valid (endpoints (with_entry e f k nd)) =
    countb ep_valid (endpoints nd) - Z.b2z (ep_valid ep) + Z.b2z (ep_valid (f ep)).
Proof.
  intros He. cbn. rewrite <- (countb_insert ep_valid _ _ _ (f ep) He). f_equal.
  rewrite list_insert_alter. apply list_alter_ext; [|done]. intros x Hx. congruence.
Qed.
Lemma port_valid nd e ep :
  endpoints nd !! e = Some ep → port_at nd e = if ep_valid ep then Some (ep_port_num ep) else None.
Proof. unfold port_at. by intros ->. Qed.

Lemma created_wf nd e port :
  node_wf nd → (e < MCAPI_MAX_ENDPOINTS)%nat → port_at nd e = None →
  (port = MCAPI_PORT_ANY ∨ ∀ j, port_at nd j ≠ Some port) → node_wf (created e port nd).
Proof.
  intros Hwf He Hfree Hport. destruct (endpoint_in_range nd e Hwf He) as [ep Hep].
  rewrite (port_valid _ _ _ Hep) in Hfree. destruct (ep_valid ep) eqn:Hv; [done|].
  destruct Hwf as [Hl Hc Hp]. unfold created. split.
  - unfold with_entry. cbn. by rewrite length_alter.
  - rewrite (count_entry _ _ _ _ _ Hep), Hv, <- Hc. cbn. lia.
  - intros i j p. rewrite !port_at_entry, Hep. cbn. do 2 case_decide; subst; try done.
    + intros [= <-] Hj Hany. destruct Hport as [?|Hno]; [done|]. by destruct (Hno j).
    + intros Hi [= <-] Hany. destruct Hport as [?|Hno]; [done|]. by destruct (Hno i).
    + apply Hp.
Qed.
Lemma deleted_wf nd e p : node_wf nd → port_at nd e = Some p → node_wf (deleted e nd).
Proof.
  intros [Hl Hc Hp] He. unfold port_at in He. apply bind_Some in He as (ep & Hep & Hv).
  destruct (ep_valid ep) eqn:Hval; [|done]. unfold deleted. split.
  - unfold with_entry. cbn. by rewrite length_alter.
  - rewrite (count_entry _ _ _ _ _ Hep), Hval, <- Hc. cbn. lia.
  - intros i j p'. rewrite !port_at_entry, Hep. cbn. do 2 case_decide; try done. apply Hp.
Qed.
Lemma count_bound nd : node_wf nd → 0 <= num_endpoints nd <= 32.
Proof.
  intros [Hl -> _]. pose proof (countb_nonneg ep_valid (endpoints nd)).
  pose proof (countb_le_length ep_valid (endpoints nd)). rewrite Hl in *. unfold MCAPI_MAX_ENDPOINTS in *. lia.
Qed.
Lemma countb_true {A} (l : list A) : countb (λ _, true) l = Z.of_nat (length l).
Proof. induction l as [|x l IH]; [done|]. rewrite countb_cons, IH. cbn [length Z.b2z]. lia. Qed.
Lemma count_all nd :
  node_wf nd → (∀ e, (e < MCAPI_MAX_ENDPOINTS)%nat → port_at nd e ≠ None) → num_endpoints nd = 32.
Proof.
  intros Hwf Hall. pose proof Hwf as [Hl -> _].
  rewrite (countb_ext ep_valid (λ _, true)).
  - rewrite countb_true, Hl. done.
  - intros ep [e He]%list_elem_of_lookup. specialize (Hall e).
    rewrite (port_valid _ _ _ He) in Hall. destruct (ep_valid ep); [done|].
    destruct Hall; [|done]. apply lookup_lt_Some in He. lia.
Qed.
Lemma count_some nd e p : node_wf nd → port_at nd e = Some p → 1 <= num_endpoints nd.
Proof.
  intros Hwf He. pose proof (count_bound _ (deleted_wf nd e p Hwf He)) as H. cbn in H. lia.
Qed.

(** ** The functions *)

Section caller.
Context (t : thread) (node dom : Z) (d n : nat) (w : world) (nd : node_entry).
Context (Hw : endpoint_tables w) (Ht : mcapi_trans_whoami t = Some (node, n, dom, d)).
Context (Hd : (d < MCA_MAX_DOMAINS)%nat) (Hn : (n < MCA_MAX_NODES)%nat).
Context (Hnd : node_at d n w = Some nd).

Lemma exists_done port :
  ∃ b, mcapi_trans_endpoint_exists t port w = Done (b, w) ∧
    if b : bool then port ≠ MCAPI_PORT_ANY ∧ ∃ e, port_at nd e = Some port
    else port = MCAPI_PORT_ANY ∨ ∀ e, port_at nd e ≠ Some port.
Proof using Hw Ht Hnd.
  destruct (et_wf _ Hw _ _ _ Hnd) as [Hl _ _].
  unfold mcapi_trans_endpoint_exists. destruct (Z.eqb_spec port MCAPI_PORT_ANY) as [->|Hany].
  { exists false. split; [done|by left]. }
  destruct (c_scan_all (λ ep, ep_valid ep && (ep_port_num ep =? port)) (endpoints nd) _ Hl)
    as [(e & ep & Hs & He & Hep & Hp & _)|[Hs Hno]].
  - exists true. split.
    + apply wp_exact, wp_bind. unfold assert_whoami. rewrite Ht. apply wp_ret, wp_bind, wp_gets, wp_bind.
      eapply wp_oob; [exact Hnd|]. apply wp_bind. eapply wp_lift; [exact Hs|]. apply wp_ret.
      apply Nat.ltb_lt in He. by rewrite He.
    + apply andb_true_iff in Hp as [Hv Hpt%Z.eqb_eq]. split; [done|]. exists e.
      by rewrite (port_valid _ _ _ Hep), Hv, Hpt.
  - exists false. split.
    + apply wp_exact, wp_bind. unfold assert_whoami. rewrite Ht. apply wp_ret, wp_bind, wp_gets, wp_bind.
      eapply wp_oob; [exact Hnd|]. apply wp_bind. eapply wp_lift; [exact Hs|]. apply wp_ret. done.
    + right. intros e He. unfold port_at in He. apply bind_Some in He as (ep & Hep & Hv).
      specialize (Hno e ep Hep). destruct (ep_valid ep); [|done]. injection Hv as Hv.
      rewrite Hv, Z.eqb_refl in Hno. done.
Qed.

(** What [mcapi_endpoint_create] does, on every branch. *)
Inductive create_result (port : Z) : option Z * Z → world → Prop :=
| cr_exists e :
    port ≠ MCAPI_PORT_ANY → port_at nd e = Some port →
    create_result port (None, MCAPI_ERR_ENDP_EXISTS) w
| cr_limit :
    (port = MCAPI_PORT_ANY ∨ ∀ e, port_at nd e ≠ Some port) → num_endpoints nd = 32 →
    create_result port (None, MCAPI_ERR_ENDP_LIMIT) w
| cr_created e h :
    (port = MCAPI_PORT_ANY ∨ ∀ e, port_at nd e ≠ Some port) → (e < MCAPI_MAX_ENDPOINTS)%nat →
    port_at nd e = None → (∀ j, (j < e)%nat → port_at nd j ≠ None) →
    mcapi_trans_decode_handle h = (d, n, e, true) →
    create_result port (Some h, MCAPI_SUCCESS) (with_node d n (created e port) w).

Lemma trans_create_done port :
  (port = MCAPI_PORT_ANY ∨ ∀ e, port_at nd e ≠ Some port) → num_endpoints nd ≠ 32 →
  ∃ h w', mcapi_trans_endpoint_create d n port false w = Done (Some h, w') ∧
    create_result port (Some h, MCAPI_SUCCESS) w'.
Proof using Hw Hd Hn Hnd.
  intros Hport Hlim. pose proof (et_wf _ Hw _ _ _ Hnd) as Hwf. pose proof (count_bound _ Hwf) as Hb.
  destruct (c_scan_all (λ ep, negb (ep_valid ep)) (endpoints nd) _ (nw_length _ Hwf))
    as [(e & ep & Hs & He & Hep & Hv & Hbefore)|[_ Hno]].
  2:{ destruct Hlim. apply (count_all _ Hwf). intros e He. destruct (endpoint_in_range nd e Hwf He) as [ep Hep].
      specialize (Hno e ep Hep). rewrite (port_valid _ _ _ Hep). by destruct (ep_valid ep). }
  destruct (encode_done d n e Hd Hn He) as (h & Henc & Hdec).
  exists h, (with_node d n (created e port) w). split.
  - apply wp_exact. unfold mcapi_trans_endpoint_create. apply wp_bind, wp_gets, wp_bind.
    eapply wp_oob; [exact Hnd|]. apply wp_bind, wp_assert.
    { apply Z.ltb_lt. unfold MCAPI_MAX_ENDPOINTS. lia. }
    apply wp_bind. eapply wp_lift; [exact Hs|]. pose proof He as He'. apply Nat.ltb_lt in He' as ->.
    apply wp_bind. unfold modify_endpoint. apply wp_bind. eapply wp_get_endpoint.
    { by rewrite endpoint_at_node, Hnd. }
    apply wp_modify, wp_bind, wp_modify, wp_bind. eapply wp_lift; [exact Henc|]. apply wp_ret.
    split; [done|]. change (with_node d n (λ nd, nd <| num_endpoints ::= λ k, u16 (k + 1) |>)
      (with_node d n (λ nd, nd <| endpoints ::= alter (fill port) e |>) w) = with_node d n (created e port) w).
    rewrite with_node_twice. eapply with_node_ext; [exact Hnd|]. unfold created, with_entry, compose.
    assert (u16 (num_endpoints nd + 1) = num_endpoints nd + 1) as Hu by (apply u16_small; lia).
    rewrite <- Hu. by destruct nd.
  - econstructor; try done.
    + by rewrite (port_valid _ _ _ Hep), (proj1 (negb_true_iff _) Hv).
    + intros j Hj. destruct (endpoint_in_range nd j Hwf ltac:(lia)) as [epj Hepj].
      specialize (Hbefore j epj Hj Hepj). rewrite (port_valid _ _ _ Hepj). by destruct (ep_valid epj).
Qed.

Lemma num_done : mcapi_trans_num_endpoints t w = Done (num_endpoints nd, w).
Proof using Ht Hnd.
  apply wp_exact, wp_bind. unfold assert_whoami. rewrite Ht. apply wp_ret, wp_bind, wp_gets, wp_bind.
  eapply wp_oob; [exact Hnd|]. by apply wp_ret.
Qed.

Lemma create_keeps port r w' : create_result port r w' → endpoint_tables w'.
Proof using Hw Hnd.
  destruct 1 as [e|_|e h Hport He Hfree _ _]; [done|done|]. apply tables_with; [done|].
  intros nd' Hnd'. rewrite Hnd in Hnd'. injection Hnd' as <-. apply created_wf; try done.
  by eapply et_wf.
Qed.
End caller.

Lemma modify_done {S} (f : S → S) s : modify f s = Done (tt, f s).
Proof. done. Qed.

(** ** Interference

    What other threads may do between the sections of a call of [t]: they keep the
    tables well formed, and leave the ports and the counter of the entry of [t], and
    of the entries with its number, as they are. *)
Record left_alone (nd nd' : node_entry) : Prop := {
  la_number : ne_node_num nd' = ne_node_num nd;
  la_count : num_endpoints nd' = num_endpoints nd;
  la_ports e : port_at nd' e = port_at nd e }.
Definition of_thread (t : thread) (d n : nat) (nd : node_entry) : Prop :=
  ∃ node n0 dom d0, mcapi_trans_whoami t = Some (node, n0, dom, d0) ∧
    ((d, n) = (d0, n0) ∨ ne_node_num nd = node).
Definition spares (t : thread) (w w' : world) : Prop :=
  endpoint_tables w → endpoint_tables w' ∧
    ∀ d n nd, node_at d n w = Some nd → of_thread t d n nd → ∃ nd', node_at d n w' = Some nd' ∧ left_alone nd nd'.
Lemma spares_refl t w : spares t w w.
Proof. intros Hw. split; [done|]. intros d n nd Hnd _. exists nd. by split. Qed.

Section create.
Context (gap : nat → world → world) (t : thread) (node dom : Z) (d n : nat).
Context (Ht : mcapi_trans_whoami t = Some (node, n, dom, d)).
Context (Hd : (d < MCA_MAX_DOMAINS)%nat) (Hn : (n < MCA_MAX_NODES)%nat).
Context (Hgap : ∀ k w, spares t w (gap k w)).

Lemma own_entry k w nd :
  endpoint_tables w → node_at d n w = Some nd →
  endpoint_tables (gap k w) ∧ ∃ nd', node_at d n (gap k w) = Some nd' ∧ left_alone nd nd'.
Proof using Ht Hgap.
  intros Hw Hnd. destruct (Hgap k w Hw) as [Hw' Hkeep]. split; [done|]. apply Hkeep; [done|].
  exists node, n, dom, d. split; [done|by left].
Qed.

(** What a creation does, on every branch: the port is checked in [w], the number of
    endpoints after the first gap, and the endpoint created after the second. *)
Lemma create_done w nd port :
  endpoint_tables w → node_at d n w = Some nd →
  ∃ r w', mcapi_endpoint_create gap t port w = Done (r, w') ∧
    (create_result d n w nd port r w' ∧ r.2 = MCAPI_ERR_ENDP_EXISTS ∨
     ∃ w1 nd1, (w1 = gap 0%nat w ∧ r.2 = MCAPI_ERR_ENDP_LIMIT ∨ w1 = gap 1%nat (gap 0%nat w) ∧ r.2 = MCAPI_SUCCESS) ∧
       endpoint_tables w1 ∧ node_at d n w1 = Some nd1 ∧ left_alone nd nd1 ∧ create_result d n w1 nd1 port r w').
Proof using Ht Hd Hn Hgap.
  intros Hw Hnd. destruct (exists_done t node dom d n w nd Hw Ht Hnd port) as (b & Hex & Hb).
  unfold mcapi_endpoint_create, mcapi_domain_id_get, mcapi_trans_get_domain_num. rewrite Ht. cbv beta iota.
  change (negb (MCAPI_SUCCESS =? MCAPI_SUCCESS)) with false. cbv iota. unfold check_not. rewrite (bind_done _ _ _ _ _ Hex).
  destruct b.
  { destruct Hb as (Hany & e & He). eexists _, _. split; [done|]. left. split; [by eapply cr_exists|done]. }
  rewrite (bind_done _ _ _ _ _ (modify_done _ _)). destruct (own_entry 0 w nd Hw Hnd) as (Hw1 & nd1 & Hnd1 & Hla1).
  rewrite (bind_done _ _ _ _ _ (num_done t node dom d n _ nd1 Ht Hnd1)).
  assert (port = MCAPI_PORT_ANY ∨ ∀ e, port_at nd1 e ≠ Some port) as Hb1.
  { destruct Hb as [?|Hno]; [by left|right]. intros e. by rewrite (la_ports _ _ Hla1). }
  destruct (Z.eqb_spec (num_endpoints nd1) (Z.of_nat MCAPI_MAX_ENDPOINTS)) as [Hlim|Hlim].
  { eexists _, _. split; [done|]. right. exists (gap 0%nat w), nd1. split_and!; try done; [by left|by apply cr_limit]. }
  change (negb (mcapi_trans_valid_port port)) with false. cbv iota. rewrite (bind_done _ _ _ _ _ (modify_done _ _)).
  destruct (own_entry 1 _ nd1 Hw1 Hnd1) as (Hw2 & nd2 & Hnd2 & [Hnum2 Hcount2 Hports2]).
  assert (port = MCAPI_PORT_ANY ∨ ∀ e, port_at nd2 e ≠ Some port) as Hb2.
  { destruct Hb1 as [?|Hno]; [by left|right]. intros e. by rewrite Hports2. }
  destruct (trans_create_done d n _ nd2 Hw2 Hd Hn Hnd2 port Hb2 ltac:(by rewrite Hcount2)) as (h & w' & Hrun & Hr).
  exists (Some h, MCAPI_SUCCESS), w'. split.
  { unfold assert_whoami. rewrite Ht. rewrite (bind_done _ _ _ (node, n, dom, d) (gap 1%nat (gap 0%nat w))) by done.
    by rewrite (bind_done _ _ _ _ _ Hrun). }
  right. exists (gap 1%nat (gap 0%nat w)), nd2. split_and!; try done; [by right|].
  destruct Hla1 as [H1 H2 H3]. split; [congruence|congruence|]. intros e. by rewrite Hports2.
Qed.
End create.

(** Undisturbed. *)
Lemma create_run t node dom d n w nd port :
  endpoint_tables w → mcapi_trans_whoami t = Some (node, n, dom, d) →
  (d < MCA_MAX_DOMAINS)%nat → (n < MCA_MAX_NODES)%nat → node_at d n w = Some nd →
  ∃ r w', mcapi_endpoint_create undisturbed t port w = Done (r, w') ∧ create_result d n w nd port r w'.
Proof.
  intros Hw Ht Hd Hn Hnd.
  destruct (create_done undisturbed t node dom d n Ht Hd Hn (λ _, spares_refl t) w nd port Hw Hnd)
    as (r & w' & Hrun & [[Hr _]|(w1 & nd1 & Hw1 & _ & Hnd1 & _ & Hr)]); exists r, w'; (split; [done|]); [done|].
  assert (w1 = w) as -> by (by destruct Hw1 as [[-> _]|[-> _]]). congruence.
Qed.


(** ** Deleting *)

(** The handle [h] is that of the endpoint [ep] of node [nd], all valid. *)
Record live (h : Z) (d n e : nat) (nd : node_entry) (ep : endpoint_entry) (w : world) : Prop := {
  lv_handle : mcapi_trans_decode_handle h = (d, n, e, true);
  lv_domain : ∃ dm, m_domains (w_db w) !! d = Some dm ∧ de_valid dm = true;
  lv_node : node_at d n w = Some nd;
  lv_node_valid : ne_valid nd = true;
  lv_endpoint : endpoints nd !! e = Some ep;
  lv_valid : ep_valid ep = true }.

Lemma live_port h d n e nd ep w : live h d n e nd ep w → port_at nd e = Some (ep_port_num ep).
Proof. intros []. by rewrite (port_valid _ _ _ lv_endpoint0), lv_valid0. Qed.

Lemma valid_endpoint_done h w :
  endpoint_tables w →
  ∃ b, mcapi_trans_valid_endpoint h w = Done (b, w) ∧
    if b : bool then ∃ d n e nd ep, live h d n e nd ep w
    else ∀ d n e nd ep, ¬ live h d n e nd ep w.
Proof.
  intros Hw. unfold mcapi_trans_valid_endpoint.
  destruct (mcapi_trans_decode_handle h) as [[[d n] e] ok] eqn:Hh. destruct ok.
  2:{ exists false. split; [done|]. intros d' n' e' nd ep []. congruence. }
  destruct (decode_range _ _ _ _ Hh) as (Hd & Hn & He).
  destruct (node_in_range d n w Hw Hd Hn) as (dm & nd & Hdm & Hnds & Hnd & Hwf).
  destruct (endpoint_in_range nd e Hwf He) as [ep Hep].
  exists (de_valid dm && ne_valid nd && ep_valid ep). split.
  - apply wp_exact, wp_bind, wp_gets, wp_bind. eapply wp_oob; [exact Hdm|]. apply wp_bind.
    eapply wp_oob; [exact Hnds|]. apply wp_bind. eapply wp_get_endpoint; [by rewrite endpoint_at_node, Hnd|].
    by apply wp_ret.
  - destruct (de_valid dm && ne_valid nd && ep_valid ep) eqn:Hv.
    + apply andb_true_iff in Hv as [[H1 H2]%andb_true_iff H3]. exists d, n, e, nd, ep. by split; try eexists.
    + intros d' n' e' nd' ep' [Hh' (dm' & Hdm' & Hv1) Hnd' Hv2 Hep' Hv3].
      rewrite Hh in Hh'. injection Hh' as <- <- <-. simplify_eq. by rewrite Hv1, Hv2, Hv3 in Hv.
Qed.

(** What [mcapi_endpoint_delete] called by the node number [node] does, on
    every branch. *)
Inductive delete_result (node h : Z) (w : world) : Z → world → Prop :=
| dr_invalid :
    (∀ d n e nd ep, ¬ live h d n e nd ep w) → delete_result node h w MCAPI_ERR_ENDP_INVALID w
| dr_notowner d n e nd ep :
    live h d n e nd ep w → ne_node_num nd ≠ node → delete_result node h w MCAPI_ERR_ENDP_NOTOWNER w
| dr_open d n e nd ep :
    live h d n e nd ep w → ne_node_num nd = node → ep_open ep = true →
    delete_result node h w MCAPI_ERR_CHAN_OPEN w
| dr_deleted d n e nd ep :
    live h d n e nd ep w → ne_node_num nd = node → ep_open ep = false →
    delete_result node h w MCAPI_SUCCESS (with_node d n (deleted e) w).

Lemma trans_delete_done h d n e nd p w :
  endpoint_tables w → mcapi_trans_decode_handle h = (d, n, e, true) → node_at d n w = Some nd →
  port_at nd e = Some p →
  mcapi_trans_endpoint_delete h w = Done (tt, with_node d n (deleted e) w).
Proof.
  intros Hw Hh Hnd Hp. pose proof (et_wf _ Hw _ _ _ Hnd) as Hwf.
  pose proof (count_some _ _ _ Hwf Hp) as H1. pose proof (count_bound _ Hwf) as H2.
  unfold port_at in Hp. apply bind_Some in Hp as (ep & Hep & _).
  apply wp_exact. unfold mcapi_trans_endpoint_delete. apply wp_bind. eapply wp_decode; [exact Hh|].
  apply wp_bind. eapply wp_get_endpoint; [by rewrite endpoint_at_node, Hnd|].
  apply wp_bind, wp_modify. unfold modify_endpoint. apply wp_bind. eapply wp_get_endpoint.
  { rewrite endpoint_at_node. fold (with_node d n (λ nd, nd <| num_endpoints ::= λ k, u16 (k - 1) |>) w).
    rewrite node_at_with, Hnd. exact Hep. }
  apply wp_modify. split; [done|].
  change (with_node d n (λ nd, nd <| endpoints ::= alter (λ _, zero_endpoint) e |>)
    (with_node d n (λ nd, nd <| num_endpoints ::= λ k, u16 (k - 1) |>) w) = with_node d n (deleted e) w).
  rewrite with_node_twice. eapply with_node_ext; [exact Hnd|]. unfold deleted, with_entry, compose.
  assert (u16 (num_endpoints nd - 1) = num_endpoints nd - 1) as Hu by (apply u16_small; lia).
  rewrite <- Hu. by destruct nd.
Qed.
Lemma isowner_done t node n0 dom d0 h d n e nd ep w :
  mcapi_trans_whoami t = Some (node, n0, dom, d0) → mcapi_trans_decode_handle h = (d, n, e, true) →
  node_at d n w = Some nd → endpoints nd !! e = Some ep →
  mcapi_trans_endpoint_isowner t h w = Done (ep_valid ep && (ne_node_num nd =? node), w).
Proof.
  intros Ht Hh Hnd Hep. apply wp_exact. unfold mcapi_trans_endpoint_isowner, mcapi_trans_get_node_num. rewrite Ht.
  apply wp_bind. eapply wp_decode; [exact Hh|]. apply wp_bind. eapply wp_get_endpoint; [by rewrite endpoint_at_node, Hnd|].
  apply wp_bind, wp_gets, wp_bind. eapply wp_oob; [exact Hnd|]. by apply wp_ret.
Qed.
Lemma isopen_done h d n e nd ep w :
  mcapi_trans_decode_handle h = (d, n, e, true) → node_at d n w = Some nd → endpoints nd !! e = Some ep →
  mcapi_trans_endpoint_channel_isopen h w = Done (ep_open ep, w).
Proof.
  intros Hh Hnd Hep. apply wp_exact, wp_bind. eapply wp_decode; [exact Hh|]. apply wp_bind.
  eapply wp_get_endpoint; [by rewrite endpoint_at_node, Hnd|]. by apply wp_ret.
Qed.

Lemma delete_run t node n0 dom d0 h w :
  endpoint_tables w → mcapi_trans_whoami t = Some (node, n0, dom, d0) →
  ∃ st w', mcapi_endpoint_delete undisturbed t h w = Done (st, w') ∧ delete_result node h w st w'.
Proof.
  intros Hw Ht. destruct (valid_endpoint_done h w Hw) as (b & Hv & Hb).
  unfold mcapi_endpoint_delete, check, check_not. rewrite (bind_done _ _ _ _ _ Hv). destruct b.
  2:{ eexists _, _. split; [done|by apply dr_invalid]. }
  destruct Hb as (d & n & e & nd & ep & Hl). pose proof Hl as [Hh (dm & Hdm & _) Hnd _ Hep Hval].
  rewrite (bind_done _ _ w tt w) by done.
  rewrite (bind_done _ _ _ _ _ (isowner_done _ _ _ _ _ _ _ _ _ _ _ _ Ht Hh Hnd Hep)), Hval. cbn [andb].
  destruct (Z.eqb_spec (ne_node_num nd) node) as [Heq|Hne].
  2:{ eexists _, _. split; [done|by eapply dr_notowner]. }
  rewrite (bind_done _ _ w tt w) by done.
  rewrite (bind_done _ _ _ _ _ (isopen_done _ _ _ _ _ _ _ Hh Hnd Hep)). destruct (ep_open ep) eqn:Hopen.
  { eexists _, _. split; [done|by eapply dr_open]. }
  rewrite (bind_done _ _ w tt w) by done.
  rewrite (bind_done _ _ _ _ _ (trans_delete_done _ _ _ _ _ _ _ Hw Hh Hnd (live_port _ _ _ _ _ _ _ Hl))).
  eexists _, _. split; [done|by eapply dr_deleted].
Qed.

(** Under interference a deletion may also find the endpoint of another node gone. *)
Lemma delete_done gap t node n0 dom d0 h w :
  (∀ k w, spares t w (gap k w)) → endpoint_tables w → mcapi_trans_whoami t = Some (node, n0, dom, d0) →
  ∃ st w', mcapi_endpoint_delete gap t h w = Done (st, w') ∧ endpoint_tables w' ∧
    st ∈ [MCAPI_SUCCESS; MCAPI_ERR_ENDP_INVALID; MCAPI_ERR_ENDP_NOTOWNER; MCAPI_ERR_CHAN_OPEN].
Proof.
  intros Hgap Hw Ht. destruct (valid_endpoint_done h w Hw) as (b & Hv & Hb).
  unfold mcapi_endpoint_delete, check, check_not. rewrite (bind_done _ _ _ _ _ Hv). destruct b.
  2:{ eexists _, _. split; [done|]. split; [done|set_solver]. }
  destruct Hb as (d & n & e & nd & ep & Hl). pose proof (lv_handle _ _ _ _ _ _ _ Hl) as Hh.
  destruct (decode_range _ _ _ _ Hh) as (Hd & Hn & He). clear nd ep Hl.
  rewrite (bind_done _ _ _ _ _ (modify_done _ _)). destruct (Hgap 0%nat w Hw) as [Hw1 _].
  destruct (node_in_range d n _ Hw1 Hd Hn) as (_ & nd1 & _ & _ & Hnd1 & Hwf1).
  destruct (endpoint_in_range nd1 e Hwf1 He) as [ep1 Hep1].
  rewrite (bind_done _ _ _ _ _ (isowner_done _ _ _ _ _ _ _ _ _ _ _ _ Ht Hh Hnd1 Hep1)).
  destruct (ep_valid ep1 && (ne_node_num nd1 =? node)) eqn:Hown.
  2:{ eexists _, _. split; [done|]. split; [done|set_solver]. }
  apply andb_true_iff in Hown as [Hval Hnum%Z.eqb_eq].
  assert (∀ nd, ne_node_num nd = node → of_thread t d n nd) as Hmine.
  { intros nd Hnd. exists node, n0, dom, d0. split; [done|by right]. }
  rewrite (bind_done _ _ _ _ _ (modify_done _ _)). destruct (Hgap 1%nat _ Hw1) as [Hw2 Hk2].
  destruct (Hk2 d n nd1 Hnd1 (Hmine _ Hnum)) as (nd2 & Hnd2 & [Hnum2 _ Hports2]).
  destruct (endpoint_in_range nd2 e (et_wf _ Hw2 _ _ _ Hnd2) He) as [ep2 Hep2].
  rewrite (bind_done _ _ _ _ _ (isopen_done _ _ _ _ _ _ _ Hh Hnd2 Hep2)). destruct (ep_open ep2).
  { eexists _, _. split; [done|]. split; [done|set_solver]. }
  rewrite (bind_done _ _ _ _ _ (modify_done _ _)). destruct (Hgap 2%nat _ Hw2) as [Hw3 Hk3].
  destruct (Hk3 d n nd2 Hnd2 (Hmine nd2 ltac:(congruence))) as (nd3 & Hnd3 & [_ _ Hports3]).
  assert (port_at nd3 e = Some (ep_port_num ep1)) as Hp3.
  { by rewrite Hports3, Hports2, (port_valid _ _ _ Hep1), Hval. }
  rewrite (bind_done _ _ _ _ _ (trans_delete_done _ _ _ _ _ _ _ Hw3 Hh Hnd3 Hp3)).
  eexists _, _. split; [done|]. split; [|set_solver].
  apply tables_with; [done|]. intros nd' Hnd'. simplify_eq. eapply deleted_wf; [by eapply et_wf|done].
Qed.

Lemma delete_keeps node h w st w' :
  endpoint_tables w → delete_result node h w st w' → endpoint_tables w'.
Proof.
  intros Hw. destruct 1 as [| | |d n e nd ep Hl _ _]; [done..|].
  apply tables_with; [done|]. intros nd' Hnd'. pose proof (lv_node _ _ _ _ _ _ _ Hl) as Hnd.
  rewrite Hnd in Hnd'. injection Hnd' as <-. eapply deleted_wf; [by eapply et_wf|by eapply live_port].
Qed.

(** ** Looking up *)

(** The search only looks at the first [num_endpoints] entries. *)
Lemma find_endpoint_spec port nd :
  node_wf nd → port ≠ MCAPI_PORT_ANY →
  ∃ o, find_endpoint port nd = Done o ∧
    ∀ e, o = Some e ↔ port_at nd e = Some port ∧ Z.of_nat e < num_endpoints nd.
Proof.
  intros Hwf Hany. pose proof (count_bound _ Hwf) as Hb. pose proof Hwf as [Hl _ Hp].
  unfold find_endpoint. set (k := Z.to_nat (num_endpoints nd)).
  destruct (c_scan_spec (λ ep, ep_valid ep && (ep_port_num ep =? port)) (endpoints nd) k 0)
    as (j & -> & Hj & Hbefore & Hat); [unfold MCAPI_MAX_ENDPOINTS in Hl; lia|].
  exists (if (j <? k)%nat then Some j else None). split; [done|].
  assert (∀ e, port_at nd e = Some port ↔
    ∃ ep, endpoints nd !! e = Some ep ∧ ep_valid ep && (ep_port_num ep =? port) = true) as Hport.
  { intros e. unfold port_at. destruct (endpoints nd !! e) as [ep|]; [|by split; [|intros (? & ? & _)]].
    cbn. destruct (ep_valid ep) eqn:Hv; split.
    - intros [= <-]. exists ep. split; [done|]. by rewrite Hv, Z.eqb_refl.
    - intros (? & [= <-] & [_ ->%Z.eqb_eq]%andb_true_iff). done.
    - done.
    - intros (? & [= <-] & [Hv' _]%andb_true_iff). congruence. }
  intros e. destruct (Nat.ltb_spec j k) as [Hlt|Hge].
  - assert (port_at nd j = Some port) as Hpj by (apply Hport, Hat; lia). split.
    + intros [= <-]. split; [done|lia].
    + intros [He _]. f_equal. by eapply Hp.
  - split; [done|]. intros [(ep & Hep & Hpe)%Hport He]. rewrite (Hbefore e ep) in Hpe; [done|lia|done].
Qed.

Definition found_at (port : Z) (nd : node_entry) (e : nat) : Prop :=
  port_at nd e = Some port ∧ Z.of_nat e < num_endpoints nd.
Definition named (node : Z) (nd : node_entry) : Prop := ne_valid nd = true ∧ ne_node_num nd = node.
Definition domain_named (dom : Z) (dm : domain_entry) : Prop :=
  de_valid dm = true ∧ de_domain_id dm = dom.

Lemma find_in_nodes_spec node port nodes k i :
  Forall node_wf nodes → port ≠ MCAPI_PORT_ANY → (i + k = length nodes)%nat →
  ∃ o, find_in_nodes node port nodes k i = Done o ∧
    match o with
    | Some (n, e) => ∃ nd, nodes !! n = Some nd ∧ named node nd ∧ found_at port nd e
    | None => ∀ n nd e, (i <= n)%nat → nodes !! n = Some nd → named node nd → ¬ found_at port nd e
    end.
Proof.
  intros Hwf Hany. revert i. induction k as [|k IH]; intros i Hlen.
  { exists None. split; [done|]. intros n nd e Hin Hn. apply lookup_lt_Some in Hn. lia. }
  cbn [find_in_nodes]. destruct (lookup_lt_is_Some_2 nodes i) as [nd Hnd]; [lia|]. rewrite Hnd.
  destruct (IH (S i) ltac:(lia)) as (o & Ho & Hspec).
  rewrite Forall_lookup in Hwf. destruct (find_endpoint_spec port nd (Hwf _ _ Hnd) Hany) as (oe & He & Hoe).
  assert ((∀ e, named node nd → ¬ found_at port nd e) →
    ∃ o, find_in_nodes node port nodes k (S i) = Done o ∧
    match o with
    | Some (n, e) => ∃ nd, nodes !! n = Some nd ∧ named node nd ∧ found_at port nd e
    | None => ∀ n nd e, (i <= n)%nat → nodes !! n = Some nd → named node nd → ¬ found_at port nd e
    end) as Hnext.
  { intros Hmiss. exists o. split; [done|]. destruct o as [[n e]|]; [done|].
    intros n nd' e Hin Hn. destruct (decide (n = i)) as [->|]; [|by apply (Hspec n); [lia|]].
    rewrite Hnd in Hn. injection Hn as <-. apply Hmiss. }
  destruct (ne_valid nd && (ne_node_num nd =? node)) eqn:Hv.
  - apply andb_true_iff in Hv as [Hv Hnum%Z.eqb_eq]. rewrite He. destruct oe as [e|].
    + exists (Some (i, e)). split; [done|]. exists nd. split_and!; [done|done|]. by apply Hoe.
    + apply Hnext. intros e _ Hf. by apply Hoe in Hf.
  - apply Hnext. intros e [Hv' Hn'] _. rewrite Hv', Hn', Z.eqb_refl in Hv. done.
Qed.
Lemma find_in_domains_spec dom node port doms k i :
  Forall (λ dm, Forall node_wf (de_nodes dm) ∧ length (de_nodes dm) = MCA_MAX_NODES) doms →
  port ≠ MCAPI_PORT_ANY → (i + k = length doms)%nat →
  ∃ o, find_in_domains dom node port doms k i = Done o ∧
    match o with
    | Some (d, n, e) => ∃ dm nd, doms !! d = Some dm ∧ domain_named dom dm ∧ de_nodes dm !! n = Some nd ∧
        named node nd ∧ found_at port nd e
    | None => ∀ d dm n nd e, (i <= d)%nat → doms !! d = Some dm → domain_named dom dm →
        de_nodes dm !! n = Some nd → named node nd → ¬ found_at port nd e
    end.
Proof.
  intros Hwf Hany. revert i. induction k as [|k IH]; intros i Hlen.
  { exists None. split; [done|]. intros d dm n nd e Hin Hn. apply lookup_lt_Some in Hn. lia. }
  cbn [find_in_domains]. destruct (lookup_lt_is_Some_2 doms i) as [dm Hdm]; [lia|]. rewrite Hdm.
  destruct (IH (S i) ltac:(lia)) as (o & Ho & Hspec).
  rewrite Forall_lookup in Hwf. destruct (Hwf _ _ Hdm) as [Hns Hl].
  destruct (find_in_nodes_spec node port (de_nodes dm) MCA_MAX_NODES 0 Hns Hany) as (oe & He & Hoe); [by rewrite Hl|].
  assert ((∀ n nd e, domain_named dom dm → de_nodes dm !! n = Some nd → named node nd → ¬ found_at port nd e) →
    ∃ o, find_in_domains dom node port doms k (S i) = Done o ∧
    match o with
    | Some (d, n, e) => ∃ dm nd, doms !! d = Some dm ∧ domain_named dom dm ∧ de_nodes dm !! n = Some nd ∧
        named node nd ∧ found_at port nd e
    | None => ∀ d dm n nd e, (i <= d)%nat → doms !! d = Some dm → domain_named dom dm →
        de_nodes dm !! n = Some nd → named node nd → ¬ found_at port nd e
    end) as Hnext.
  { intros Hmiss. exists o. split; [done|]. destruct o as [[[d n] e]|]; [done|].
    intros d dm' n nd e Hin Hn. destruct (decide (d = i)) as [->|]; [|by apply (Hspec d); [lia|]].
    rewrite Hdm in Hn. injection Hn as <-. apply Hmiss. }
  destruct (de_valid dm && (de_domain_id dm =? dom)) eqn:Hv.
  - apply andb_true_iff in Hv as [Hv Hnum%Z.eqb_eq]. rewrite He. destruct oe as [[n e]|].
    + exists (Some (i, n, e)). split; [done|]. destruct Hoe as (nd & ? & ? & ?). by exists dm, nd.
    + apply Hnext. intros n nd e _ Hn. apply (Hoe n); [lia|done].
  - apply Hnext. intros n nd e [Hv' Hn'] _. rewrite Hv', Hn', Z.eqb_refl in Hv. done.
Qed.

(** The endpoint [h] has this domain, node number and port. *)
Definition addressed (dom node port h : Z) (d n e : nat) (nd : node_entry) (w : world) : Prop :=
  mcapi_trans_decode_handle h = (d, n, e, true) ∧
  (∃ dm, m_domains (w_db w) !! d = Some dm ∧ domain_named dom dm) ∧
  node_at d n w = Some nd ∧ named node nd ∧ port_at nd e = Some port.

Lemma lookup_done dom node port w :
  endpoint_tables w → port ≠ MCAPI_PORT_ANY →
  ∃ o, mcapi_trans_endpoint_get_have_lock dom node port w = Done (o, w) ∧
    match o with
    | Some h => ∃ d n e nd, addressed dom node port h d n e nd w ∧ Z.of_nat e < num_endpoints nd
    | None => ∀ h d n e nd, addressed dom node port h d n e nd w → num_endpoints nd <= Z.of_nat e
    end.
Proof.
  intros [Hd Hns Hwf] Hany.
  assert (Forall (λ dm, Forall node_wf (de_nodes dm) ∧ length (de_nodes dm) = MCA_MAX_NODES) (m_domains (w_db w)))
    as Hall.
  { rewrite Forall_lookup in Hns. apply Forall_lookup. intros d dm Hdm. split; [|by eapply Hns].
    apply Forall_lookup. intros n nd Hnd. apply (Hwf d n). unfold node_at. by rewrite Hdm. }
  destruct (find_in_domains_spec dom node port _ MCA_MAX_DOMAINS 0 Hall Hany) as (o & Ho & Hspec); [by rewrite Hd|].
  destruct o as [[[d n] e]|].
  - destruct Hspec as (dm & nd & Hdm & Hdn & Hnd & Hnn & Hpt & Hlt).
    assert (node_at d n w = Some nd) as Hat by (unfold node_at; by rewrite Hdm).
    rewrite Forall_lookup in Hall. destruct (Hall _ _ Hdm) as [_ Hl].
    assert (d < MCA_MAX_DOMAINS)%nat by (rewrite <- Hd; by eapply lookup_lt_Some).
    assert (n < MCA_MAX_NODES)%nat by (rewrite <- Hl; by eapply lookup_lt_Some).
    assert (e < MCAPI_MAX_ENDPOINTS)%nat.
    { rewrite <- (nw_length _ (Hwf _ _ _ Hat)). unfold port_at in Hpt.
      apply bind_Some in Hpt as (ep & Hep & _). by eapply lookup_lt_Some. }
    destruct (encode_done d n e) as (h & Henc & Hdec); [done..|]. exists (Some h). split.
    + apply wp_exact, wp_bind, wp_gets, wp_bind. eapply wp_lift; [exact Ho|]. apply wp_bind.
      eapply wp_lift; [exact Henc|]. by apply wp_ret.
    + exists d, n, e, nd. split; [|done]. split_and!; try done. by exists dm.
  - exists None. split.
    + apply wp_exact, wp_bind, wp_gets, wp_bind. eapply wp_lift; [exact Ho|]. by apply wp_ret.
    + intros h d n e nd (_ & (dm & Hdm & Hdn) & Hat & Hnn & Hpt).
      unfold node_at in Hat. rewrite Hdm in Hat. apply Z.nlt_ge. intros Hlt.
      by apply (Hspec d dm n nd e ltac:(lia) Hdm Hdn Hat Hnn).
Qed.

(** A search that misses never ends when nothing changes. *)
Lemma get_spins dom node port fuel k w :
  mcapi_trans_endpoint_get_have_lock dom node port w = Done (None, w) →
  mcapi_trans_endpoint_get (λ _ w, w) fuel k dom node port w = Fault OutOfFuel.
Proof.
  intros Hmiss. revert k. induction fuel as [|fuel IH]; intros k; [done|].
  cbn [mcapi_trans_endpoint_get]. rewrite (bind_done _ _ _ _ _ Hmiss). cbv beta iota.
  rewrite (bind_done _ _ w tt w) by done. apply IH.
Qed.
