(* ===== verification/McapiEndpointTheorems.v ===== *)
(** Endpoints: the tables stay well formed, creation and deletion on every
    branch, and what a lookup finds. *)

From S2P Require Import Prelude Bytes McapiTypes McapiQueue McapiRequests McapiTransport McapiMessages McapiChannels McapiCheck McapiNodes McapiApi McapiAccess McapiBlocking McapiChannelSpec McapiEndpoints.

(** ** Histories *)

(** The calls of any threads that change the tables, with what other threads do
    between their sections. *)
Inductive endpoint_call :=
| Create (gap : nat → world → world) (t : thread) (port : Z)
| Delete (gap : nat → world → world) (t : thread) (h : Z).
Definition run_endpoint_call (c : endpoint_call) : M world Z :=
  match c with
  | Create gap t port => let* (_, st) := mcapi_endpoint_create gap t port in ret st
  | Delete gap t h => mcapi_endpoint_delete gap t h
  end.
Fixpoint run_endpoint_calls (l : list endpoint_call) : M world (list Z) :=
  match l with
  | [] => ret []
  | c :: l' =>
      let* st := run_endpoint_call c in
      let* sts := run_endpoint_calls l' in
      ret (st :: sts)
  end.

(** The thread has been initialized, as a node of the database. *)
Definition initialized (t : thread) : Prop :=
  ∃ node n dom d, mcapi_trans_whoami t = Some (node, n, dom, d) ∧
    (d < MCA_MAX_DOMAINS)%nat ∧ (n < MCA_MAX_NODES)%nat.
(** A thread that is not initialized may create, which is refused, but not delete,
    which asserts that it is; and the other threads of the caller's node do not
    create or delete during the call. *)
Definition admissible (c : endpoint_call) : Prop :=
  match c with
  | Create gap t _ => (mcapi_trans_whoami t = None ∨ initialized t) ∧ ∀ k w, spares t w (gap k w)
  | Delete gap t _ => initialized t ∧ ∀ k w, spares t w (gap k w)
  end.

Lemma run_call_done c w :
  endpoint_tables w → admissible c →
  ∃ st w', run_endpoint_call c w = Done (st, w') ∧ endpoint_tables w' ∧
    st ∈ [MCAPI_SUCCESS; MCAPI_ERR_NODE_NOTINIT; MCAPI_ERR_ENDP_EXISTS; MCAPI_ERR_ENDP_LIMIT; MCAPI_ERR_ENDP_INVALID;
          MCAPI_ERR_ENDP_NOTOWNER; MCAPI_ERR_CHAN_OPEN].
Proof.
  intros Hw Hc. destruct c as [gap t port|gap t h]; cbn [admissible] in Hc.
  - destruct Hc as [[Ht|(node & n & dom & d & Ht & Hd & Hn)] Hgap].
    { exists MCAPI_ERR_NODE_NOTINIT, w. split; [|split; [done|set_solver]].
      cbn [run_endpoint_call]. unfold mcapi_endpoint_create, mcapi_domain_id_get, mcapi_trans_get_domain_num.
      by rewrite Ht. }
    destruct (node_in_range d n w Hw Hd Hn) as (_ & nd & _ & _ & Hnd & _).
    destruct (create_done gap t node dom d n Ht Hd Hn Hgap w nd port Hw Hnd) as (r & w' & Hrun & Hr).
    exists r.2, w'. split; [cbn [run_endpoint_call]; rewrite (bind_done _ _ _ _ _ Hrun); by destruct r|].
    destruct Hr as [[Hr _]|(w1 & nd1 & _ & Hw1 & Hnd1 & _ & Hr)];
      (split; [by eapply create_keeps|destruct Hr; cbn; set_solver]).
  - destruct Hc as [(node & n & dom & d & Ht & _ & _) Hgap].
    destruct (delete_done gap t node n dom d h w Hgap Hw Ht) as (st & w' & Hrun & Hw' & Hst).
    exists st, w'. split; [done|]. split; [done|set_solver].
Qed.

(** C26: over any history of endpoint creations and deletions by threads, other
    threads doing anything between the sections of a call that keeps the tables
    well formed and does not touch the endpoints of the caller's node, no call fails
    an assertion or leaves an array, each reports one of its documented statuses
    (never MCAPI_ERR_ENDP_NOPORTS), and the tables stay well formed: the counter of
    every node is the number of its endpoints, and no two of them share a port but
    MCAPI_PORT_ANY.  (A deletion by a thread that is not initialized would fail an
    assertion, and is left out.) *)
Theorem endpoint_tables_sound w l :
  endpoint_tables w → Forall admissible l →
  ∃ sts w', run_endpoint_calls l w = Done (sts, w') ∧ endpoint_tables w' ∧
    Forall (λ st, st ∈ [MCAPI_SUCCESS; MCAPI_ERR_NODE_NOTINIT; MCAPI_ERR_ENDP_EXISTS; MCAPI_ERR_ENDP_LIMIT;
      MCAPI_ERR_ENDP_INVALID; MCAPI_ERR_ENDP_NOTOWNER; MCAPI_ERR_CHAN_OPEN]) sts.
Proof.
  intros Hw Hl. revert w Hw. induction Hl as [|c l Hc Hl IH]; intros w Hw; [by exists [], w|].
  destruct (run_call_done c w Hw Hc) as (st & w1 & Hrun & Hw1 & Hst).
  destruct (IH w1 Hw1) as (sts & w2 & Hruns & Hw2 & Hsts). exists (st :: sts), w2.
  split; [|split; [done|by constructor]]. cbn [run_endpoint_calls].
  rewrite (bind_done _ _ _ _ _ Hrun). by rewrite (bind_done _ _ _ _ _ Hruns).
Qed.

Lemma zero_node_wf : node_wf zero_mnode.
Proof.
  split; [apply length_replicate|vm_compute; reflexivity|].
  intros i j p Hi. unfold port_at in Hi. apply bind_Some in Hi as (ep & [-> _]%lookup_replicate & Hp). done.
Qed.
Lemma bare_tables : endpoint_tables bare_world.
Proof.
  split; [done|by repeat constructor|]. intros d n nd Hnd. unfold node_at in Hnd.
  apply bind_Some in Hnd as (dm & [-> _]%lookup_replicate & [-> _]%lookup_replicate). apply zero_node_wf.
Qed.
Definition first_thread : thread := mk_thread true 1 1 0 0 5 0.
Lemma first_initialized : initialized first_thread.
Proof. exists 5, 0%nat, 0, 0%nat. split; [done|]. unfold MCA_MAX_DOMAINS, MCA_MAX_NODES. lia. Qed.
(** A creation of another node spares the endpoints of this one. *)
Lemma create_spares t node n dom d t' node' n' dom' d' port w nd r w' :
  mcapi_trans_whoami t = Some (node, n, dom, d) → mcapi_trans_whoami t' = Some (node', n', dom', d') →
  (d', n') ≠ (d, n) → node_at d' n' w = Some nd → ne_node_num nd ≠ node →
  create_result d' n' w nd port r w' → spares t w w'.
Proof.
  intros Ht Ht' Hne Hnd Hnum Hr Hw. split; [by eapply create_keeps|].
  intros d1 n1 nd1 Hnd1 (node1 & n2 & dom1 & d2 & Ht1 & Hmine). rewrite Ht in Ht1. injection Ht1 as <- <- <- <-.
  destruct Hr as [| |e h]; [by exists nd1; split|by exists nd1; split|].
  exists nd1. split; [|by split]. rewrite node_at_with_ne; [done|]. intros [= -> ->].
  rewrite Hnd in Hnd1. injection Hnd1 as <-. by destruct Hmine as [?|?].
Qed.

(** Another node creates an endpoint whenever it can. *)
Definition second_thread : thread := mk_thread true 2 2 1 0 6 0.
Definition strange_thread : thread := mk_thread false 3 3 0 0 0 0.
Definition other_creates (port : Z) (k : nat) (w : world) : world :=
  match node_at 0 1 w with
  | Some nd =>
      if ne_node_num nd =? 5 then w
      else match mcapi_endpoint_create undisturbed second_thread port w with Done (_, w') => w' | Fault _ => w end
  | None => w
  end.
Lemma other_creates_spares port k w : spares first_thread w (other_creates port k w).
Proof.
  intros Hw. unfold other_creates. destruct (node_at 0 1 w) as [nd|] eqn:Hnd; [|by apply spares_refl].
  destruct (Z.eqb_spec (ne_node_num nd) 5) as [|Hnum]; [by apply spares_refl|].
  destruct (create_run second_thread 6 0 0 1 w nd port Hw eq_refl ltac:(unfold MCA_MAX_DOMAINS; lia)
    ltac:(unfold MCA_MAX_NODES; lia) Hnd) as (r & w' & -> & Hr).
  by eapply (create_spares first_thread 5 0 0 0 second_thread 6 1 0 0).
Qed.
Lemma endpoint_tables_sound_witness :
  ∃ sts w', run_endpoint_calls [Create (other_creates 3) first_thread 7; Create undisturbed first_thread 7;
      Delete (other_creates 4) first_thread 0; Create undisturbed strange_thread 7] bare_world
    = Done (sts, w') ∧ endpoint_tables w'.
Proof.
  destruct (endpoint_tables_sound bare_world [Create (other_creates 3) first_thread 7; Create undisturbed first_thread 7;
    Delete (other_creates 4) first_thread 0; Create undisturbed strange_thread 7]
    bare_tables) as (sts & w' & H & Hw & _).
  - apply Forall_cons; split; [split; [right; apply first_initialized|apply other_creates_spares]|].
    apply Forall_cons; split; [split; [right; apply first_initialized|intros; apply spares_refl]|].
    apply Forall_cons; split; [split; [apply first_initialized|apply other_creates_spares]|].
    apply Forall_singleton. split; [by left|intros; apply spares_refl].
  - by exists sts, w'.
Defined.

(** ** Creation and deletion on every branch *)

(** Creating an endpoint on every branch: with the port of an existing
    endpoint of the node (other than MCAPI_PORT_ANY) it reports
    MCAPI_ERR_ENDP_EXISTS, with 32 endpoints MCAPI_ERR_ENDP_LIMIT, both
    changing nothing; otherwise the first free entry of the node becomes the
    endpoint, of which it returns the handle. *)
Theorem endpoint_create_exact t node dom d n w nd port :
  endpoint_tables w → mcapi_trans_whoami t = Some (node, n, dom, d) →
  (d < MCA_MAX_DOMAINS)%nat → (n < MCA_MAX_NODES)%nat → node_at d n w = Some nd →
  ∃ r w', mcapi_endpoint_create undisturbed t port w = Done (r, w') ∧ create_result d n w nd port r w'.
Proof. intros. by eapply create_run. Qed.
Lemma endpoint_create_exact_witness :
  ∃ r w', mcapi_endpoint_create undisturbed first_thread 7 bare_world = Done (r, w') ∧
    create_result 0 0 bare_world zero_mnode 7 r w'.
Proof.
  apply (endpoint_create_exact first_thread 5 0 0 0 bare_world zero_mnode 7 bare_tables);
    [done|unfold MCA_MAX_DOMAINS; lia|unfold MCA_MAX_NODES; lia|done].
Defined.

(** Deleting an endpoint on every branch: a handle of no valid endpoint is
    MCAPI_ERR_ENDP_INVALID, an endpoint of a node with another number
    MCAPI_ERR_ENDP_NOTOWNER, an open one MCAPI_ERR_CHAN_OPEN, all changing
    nothing; otherwise, connected or not, the entry is zeroed and the counter
    of its node decremented. *)
Theorem endpoint_delete_exact t node n dom d h w :
  endpoint_tables w → mcapi_trans_whoami t = Some (node, n, dom, d) →
  ∃ st w', mcapi_endpoint_delete undisturbed t h w = Done (st, w') ∧ delete_result node h w st w'.
Proof. intros. by eapply delete_run. Qed.
Lemma endpoint_delete_exact_witness :
  ∃ st w', mcapi_endpoint_delete undisturbed first_thread 9 bare_world = Done (st, w') ∧
    delete_result 5 9 bare_world st w'.
Proof. by apply (endpoint_delete_exact first_thread 5 0 0 0 9 bare_world bare_tables). Defined.

(** ** Lookup *)

(** A lookup by domain, node and port never fails and changes nothing;
    the handle it returns is that of an endpoint with this address; and it
    finds nothing exactly when every endpoint with this address has an index
    of at least the number of endpoints of its node. *)
Theorem endpoint_lookup_exact dom node port w :
  endpoint_tables w → port ≠ MCAPI_PORT_ANY →
  ∃ o, mcapi_trans_endpoint_get_have_lock dom node port w = Done (o, w) ∧
    match o with
    | Some h => ∃ d n e nd, addressed dom node port h d n e nd w ∧ Z.of_nat e < num_endpoints nd
    | None => ∀ h d n e nd, addressed dom node port h d n e nd w → num_endpoints nd <= Z.of_nat e
    end.
Proof. apply lookup_done. Qed.
Lemma endpoint_lookup_exact_witness :
  ∃ o, mcapi_trans_endpoint_get_have_lock 0 5 7 bare_world = Done (o, bare_world).
Proof.
  destruct (endpoint_lookup_exact 0 5 7 bare_world bare_tables) as (o & H & _); [done|]. by exists o.
Defined.

(** An endpoint can get lost: a node deletes one endpoint while another,
    in the entry just below the number of endpoints, stays; no blocking
    lookup ever finds the one that stayed, although it is there. *)
Theorem delete_hides_endpoint t node n0 dom0 d0 dom port w d n e1 e2 nd h1 ep1 h2 timeout :
  endpoint_tables w → mcapi_trans_whoami t = Some (node, n0, dom0, d0) →
  live h1 d n e1 nd ep1 w → ne_node_num nd = node → ep_open ep1 = false →
  addressed dom node port h2 d n e2 nd w → port ≠ MCAPI_PORT_ANY → e1 ≠ e2 →
  num_endpoints nd = Z.of_nat e2 + 1 →
  (∀ h' d' n' e' nd', addressed dom node port h' d' n' e' nd' w → (d', n') = (d, n)) →
  ∃ w', mcapi_endpoint_delete undisturbed t h1 w = Done (MCAPI_SUCCESS, w') ∧
    addressed dom node port h2 d n e2 (deleted e1 nd) w' ∧
    ∀ fuel, mcapi_endpoint_get (λ _ w, w) fuel dom node port timeout w' = Fault OutOfFuel.
Proof.
  intros Hw Ht Hl1 Hnum Hopen Ha Hany Hne Hcount Huniq.
  destruct (delete_run t node n0 dom0 d0 h1 w Hw Ht) as (st & w' & Hrun & Hr).
  assert (st = MCAPI_SUCCESS ∧ w' = with_node d n (deleted e1) w) as [-> ->].
  { pose proof Hl1 as [Hh _ Hnd _ Hep _].
    destruct Hr as [Hno|d' n' e' nd' ep' Hl Hn'|d' n' e' nd' ep' Hl Hn' Ho|d' n' e' nd' ep' Hl _ _];
      [by destruct (Hno _ _ _ _ _ Hl1)|..]; destruct Hl as [Hh' _ Hnd' _ Hep' _];
      rewrite Hh in Hh'; injection Hh' as <- <- <-; rewrite Hnd in Hnd'; injection Hnd' as <-;
      rewrite Hep in Hep'; injection Hep' as <-; [done|congruence|done]. }
  exists (with_node d n (deleted e1) w). split; [done|].
  pose proof Ha as (Hh2 & (dm & Hdm & Hdn) & Hnd & Hnn & Hpt).
  assert (∀ d' dm', m_domains (w_db (with_node d n (deleted e1) w)) !! d' = Some dm' → ∃ dm,
    m_domains (w_db w) !! d' = Some dm ∧ (∀ dom, domain_named dom dm ↔ domain_named dom dm')) as Hdoms.
  { intros d' dm'. unfold with_node, upd_mnode. cbn. intros Hd'.
    destruct (decide (d' = d)) as [->|]; [|rewrite list_lookup_alter_ne in Hd' by done; by exists dm'].
    rewrite list_lookup_alter_eq in Hd'. apply fmap_Some in Hd' as (dm0 & Hdm0 & ->). by exists dm0. }
  assert (endpoint_tables (with_node d n (deleted e1) w)) as Hw' by by eapply delete_keeps.
  assert (node_at d n (with_node d n (deleted e1) w) = Some (deleted e1 nd)) as Hnd' by by rewrite node_at_with, Hnd.
  split.
  - split_and!; try done.
    + exists (dm <| de_nodes ::= alter (deleted e1) n |>). split; [|done].
      unfold with_node, upd_mnode. cbn. by rewrite list_lookup_alter_eq, Hdm.
    + unfold deleted. by rewrite port_at_entry, decide_False.
  - intros fuel. destruct (lookup_done dom node port _ Hw' Hany) as (o & Hlook & Ho).
    destruct o as [h|].
    + destruct Ho as (d' & n' & e' & nd' & (Hh & (dm' & Hdm' & Hdn') & Hat & Hnn' & Hpt') & Hlt).
      destruct (Hdoms _ _ Hdm') as (dm0 & Hdm0 & Hiff).
      destruct (decide ((d', n') = (d, n))) as [[= -> ->]|Hoff].
      * rewrite Hnd' in Hat. injection Hat as <-. unfold deleted in Hpt'. rewrite port_at_entry in Hpt'.
        case_decide; [by destruct (endpoints nd !! e1)|].
        assert (e' = e2) as -> by by eapply (nw_ports _ (et_wf _ Hw _ _ _ Hnd)). cbn in Hlt. lia.
      * rewrite node_at_with_ne in Hat by done. destruct Hoff. apply (Huniq h d' n' e' nd').
        split_and!; try done. exists dm0. split; [done|by apply Hiff].
    + unfold mcapi_endpoint_get.
      change (negb (mcapi_trans_valid_node node)) with false. change (negb (mcapi_trans_valid_port port)) with false.
      cbv iota. by apply bind_fault, get_spins.
Qed.

(** A node 5 with the endpoints of ports 7 and 8. *)
Definition two_ports (nd : node_entry) : node_entry :=
  created 1 8 (created 0 7 (nd <| ne_valid := true |> <| ne_node_num := 5 |>)).
Definition open_domain (w : world) : world :=
  w <| w_db ::= λ db, db <| m_domains ::= alter (λ dm, dm <| de_valid := true |>) 0%nat |> |>.
Lemma open_domain_node d n w : node_at d n (open_domain w) = node_at d n w.
Proof.
  unfold node_at, open_domain. cbn. destruct (decide (d = 0%nat)) as [->|]; [|by rewrite list_lookup_alter_ne].
  rewrite list_lookup_alter_eq. by destruct (m_domains (w_db w) !! 0%nat).
Qed.
Lemma open_domain_tables w : endpoint_tables w → endpoint_tables (open_domain w).
Proof.
  intros [Hd Hn Hwf]. split.
  - unfold open_domain. cbn. by rewrite length_alter.
  - unfold open_domain. cbn. by apply Forall_alter.
  - intros d n nd. rewrite open_domain_node. apply Hwf.
Qed.
Definition ports_world : world := with_node 0 0 two_ports (open_domain bare_world).
Lemma ports_tables : endpoint_tables ports_world.
Proof.
  apply tables_with; [apply open_domain_tables, bare_tables|]. intros nd. rewrite open_domain_node.
  intros Hnd. pose proof (et_wf _ bare_tables _ _ _ Hnd) as Hwf.
  assert (nd = zero_mnode) as -> by (cbn in Hnd; by injection Hnd as <-).
  apply created_wf; [apply created_wf|..].
  - destruct zero_node_wf. by split.
  - unfold MCAPI_MAX_ENDPOINTS. lia.
  - done.
  - right. intros j Hj. unfold port_at in Hj. apply bind_Some in Hj as (ep & [-> _]%lookup_replicate & ?). done.
  - unfold MCAPI_MAX_ENDPOINTS. lia.
  - done.
  - right. intros j Hj. unfold created in Hj. rewrite port_at_entry in Hj. case_decide; [done|].
    unfold port_at in Hj. apply bind_Some in Hj as (ep & [-> _]%lookup_replicate & ?). done.
Qed.
Lemma delete_hides_endpoint_witness :
  ∃ w', mcapi_endpoint_delete undisturbed first_thread 0 ports_world = Done (MCAPI_SUCCESS, w') ∧
    ∀ fuel, mcapi_endpoint_get (λ _ w, w) fuel 0 5 8 0 w' = Fault OutOfFuel.
Proof.
  assert (addressed 0 5 8 1 0 0 1 (two_ports zero_mnode) ports_world) as Ha.
  { split_and!; try done. eexists. by split. }
  assert (live 0 0 0 0 (two_ports zero_mnode) (fill 7 zero_endpoint) ports_world) as Hl.
  { split; try done. eexists. by split. }
  destruct (delete_hides_endpoint first_thread 5 0 0 0 0 8 ports_world 0 0 0 1 (two_ports zero_mnode) 0
    (fill 7 zero_endpoint) 1 0 ports_tables eq_refl Hl eq_refl eq_refl Ha) as (w' & Hd & _ & Hg).
  - done.
  - done.
  - done.
  - intros h' d' n' e' nd' (_ & _ & Hnd & Hnn & _).
    destruct (decide ((d', n') = (0, 0)%nat)) as [|Hoff]; [done|]. exfalso.
    unfold ports_world in Hnd. rewrite node_at_with_ne, open_domain_node in Hnd by done.
    unfold node_at in Hnd. apply bind_Some in Hnd as (dm & [-> _]%lookup_replicate & [-> _]%lookup_replicate).
    by destruct Hnn.
  - by exists w'.
Defined.

(** ** Endpoints that share a port, and calls of two threads of one node *)

(** MCAPI_PORT_ANY is no wildcard: it is the port of every endpoint that asks for it. *)
Example any_port_is_shared :
  match run_endpoint_calls [Create undisturbed first_thread MCAPI_PORT_ANY; Create undisturbed first_thread MCAPI_PORT_ANY]
    bare_world with
  | Done (sts, w) => sts = [MCAPI_SUCCESS; MCAPI_SUCCESS] ∧
      (node_at 0 0 w ≫= λ nd, port_at nd 0) = Some MCAPI_PORT_ANY ∧
      (node_at 0 0 w ≫= λ nd, port_at nd 1) = Some MCAPI_PORT_ANY
  | Fault _ => False
  end.
Proof. vm_compute. done. Qed.
(** Two threads of a node delete one endpoint at the same time: the check and the
    deletion are separate sections, both succeed, and the counter says that the
    node has no endpoint while one is left. *)
Definition also_deletes (k : nat) (w : world) : world :=
  if Nat.eqb k 2 then
    match mcapi_endpoint_delete undisturbed first_thread 0 w with Done (_, w) => w | Fault _ => w end
  else w.
Example deletions_race :
  match mcapi_endpoint_delete also_deletes first_thread 0 ports_world with
  | Done (st, w) => st = MCAPI_SUCCESS ∧
      (num_endpoints <$> node_at 0 0 w) = Some 0 ∧ (node_at 0 0 w ≫= λ nd, port_at nd 1) = Some 8
  | Fault _ => False
  end.
Proof. vm_compute. done. Qed.
(** Two threads of a node create an endpoint with one port at the same time: both
    succeed. *)
Definition also_creates (k : nat) (w : world) : world :=
  if Nat.eqb k 1 then
    match mcapi_endpoint_create undisturbed first_thread 7 w with Done (_, w) => w | Fault _ => w end
  else w.
Example endpoint_creations_race :
  match mcapi_endpoint_create also_creates first_thread 7 bare_world with
  | Done ((_, st), w) => st = MCAPI_SUCCESS ∧
      (node_at 0 0 w ≫= λ nd, port_at nd 0) = Some 7 ∧ (node_at 0 0 w ≫= λ nd, port_at nd 1) = Some 7
  | Fault _ => False
  end.
Proof. vm_compute. done. Qed.
