(* ===== verification/McapiNodeTheorems.v ===== *)
(** MCAPI nodes: unique identities, what initialization registers and what it
    leaves behind, and finalization without a database. *)

From S2P Require Import Prelude Bytes McapiTypes McapiQueue McapiRequests McapiTransport McapiMessages McapiChannels McapiCheck McapiNodes McapiApi McapiAccess McapiBlocking McapiChannelSpec McapiEndpoints.

(** ** The identities of MCAPI nodes: the search of initialization, the entry it
    fills, and the invariant that initialization and finalization keep. *)

#[local] Opaque MCA_MAX_DOMAINS MCA_MAX_NODES init_array.

(** ** The invariant *)

(** No two valid nodes of a domain have the same number, and no domain entry
    has the number of a later valid one. *)
Record identities (db : mcapi_database) : Prop := {
  id_domains : length (m_domains db) = MCA_MAX_DOMAINS;
  id_nodes : ∀ d dm, m_domains db !! d = Some dm → length (de_nodes dm) = MCA_MAX_NODES;
  id_first : ∀ i j dmi dmj, (i < j)%nat → m_domains db !! i = Some dmi → m_domains db !! j = Some dmj →
    de_valid dmj = true → de_domain_id dmi ≠ de_domain_id dmj;
  id_unique : ∀ d dm i j x y, m_domains db !! d = Some dm → de_nodes dm !! i = Some x →
    de_nodes dm !! j = Some y → ne_valid x = true → ne_valid y = true →
    ne_node_num x = ne_node_num y → i = j }.

Lemma identities_domains db db' : m_domains db' = m_domains db → identities db → identities db'.
Proof. intros Heq [H1 H2 H3 H4]. split; by rewrite Heq. Qed.

(** What the two functions do to a domain entry and to its nodes. *)
Lemma identities_alter db d n f g :
  identities db → (∀ dm, de_nodes (f dm) = de_nodes dm) →
  (∀ dm nd, m_domains db !! d = Some dm → de_nodes dm !! n = Some nd →
     (ne_valid (g nd) = true → ∀ m x, m ≠ n → de_nodes dm !! m = Some x → ne_valid x = true →
        ne_node_num x ≠ ne_node_num (g nd)) ∧
     (∀ i dmi, (i < d)%nat → m_domains db !! i = Some dmi → de_valid (f dm) = true →
        de_domain_id dmi ≠ de_domain_id (f dm)) ∧
     (∀ j dmj, (d < j)%nat → m_domains db !! j = Some dmj → de_valid dmj = true →
        de_domain_id (f dm) ≠ de_domain_id dmj)) →
  (∀ dm, m_domains db !! d = Some dm → is_Some (de_nodes dm !! n)) →
  identities (upd_mnode d n g (db <| m_domains ::= alter f d |>)).
Proof.
  intros [Hl Hns Hf Hu] Hfn Hg Hn.
  assert (∀ i dm', m_domains (upd_mnode d n g (db <| m_domains ::= alter f d |>)) !! i = Some dm' →
    (i = d ∧ ∃ dm nd, m_domains db !! d = Some dm ∧ de_nodes dm !! n = Some nd ∧
       dm' = (f dm) <| de_nodes ::= alter g n |>) ∨ (i ≠ d ∧ m_domains db !! i = Some dm')) as Hinv.
  { intros i dm'. unfold upd_mnode. cbn. rewrite list_alter_alter_eq.
    destruct (decide (i = d)) as [->|Hne]; [|rewrite list_lookup_alter_ne by done; by right].
    rewrite list_lookup_alter_eq. intros (dm & Hdm & ->)%fmap_Some. left. split; [done|].
    destruct (Hn dm Hdm) as [nd Hnd]. by exists dm, nd. }
  split.
  - unfold upd_mnode. cbn. by rewrite !length_alter.
  - intros i dm' [(-> & dm & nd & Hdm & _ & ->)|(_ & Hdm)]%Hinv; [|by eapply Hns].
    cbn. rewrite length_alter, Hfn. by eapply Hns.
  - intros i j dmi dmj Hij Hi Hj Hv.
    destruct (Hinv _ _ Hi) as [(-> & dm & nd & Hdm & Hnd & ->)|(Hni & Hdi)];
      destruct (Hinv _ _ Hj) as [(-> & dm2 & nd2 & Hdm2 & Hnd2 & ->)|(Hnj & Hdj)]; cbn in *.
    + lia.
    + destruct (Hg dm nd Hdm Hnd) as (_ & _ & H). by eapply H.
    + destruct (Hg dm2 nd2 Hdm2 Hnd2) as (_ & H & _). by eapply H.
    + by eapply Hf.
  - intros i dm' a b x y [(-> & dm & nd & Hdm & Hnd & ->)|(_ & Hdm)]%Hinv; [|by eapply Hu].
    cbn. rewrite Hfn. destruct (Hg dm nd Hdm Hnd) as (H & _ & _).
    destruct (decide (a = n)) as [->|Ha], (decide (b = n)) as [->|Hb];
      rewrite ?list_lookup_alter_eq, ?list_lookup_alter_ne, ?Hnd by done; cbn.
    + done.
    + intros [= <-] Hy Hvx Hvy Heq. destruct (H Hvx b y Hb Hy Hvy). done.
    + intros Hx [= <-] Hvx Hvy Heq. destruct (H Hvy a x Ha Hx Hvx). done.
    + by eapply Hu.
Qed.

(** ** The search *)

Lemma find_node_entry_spec dom node db :
  identities db →
  ∃ o, find_node_entry dom node db = Done o ∧
    match o with
    | None => True
    | Some (d, n) => ∃ dm nd, m_domains db !! d = Some dm ∧ de_nodes dm !! n = Some nd ∧
        ne_valid nd = false ∧
        (∀ m x, de_nodes dm !! m = Some x → ne_valid x = true → ne_node_num x ≠ node) ∧
        (∀ i dmi, (i < d)%nat → m_domains db !! i = Some dmi → de_domain_id dmi ≠ dom) ∧
        (∀ j dmj, (d < j)%nat → m_domains db !! j = Some dmj → de_valid dmj = true →
           dom ≠ de_domain_id dmj)
    end.
Proof.
  intros [Hl Hns Hf Hu]. unfold find_node_entry.
  assert (∃ d,
    (match c_scan (λ dm, de_domain_id dm =? dom) (m_domains db) MCA_MAX_DOMAINS 0 with
     | Fault f => Fault f
     | Done d0 =>
         if (d0 =? MCA_MAX_DOMAINS)%nat then
           c_scan (λ dm, negb (de_valid dm)) (m_domains db) MCA_MAX_DOMAINS 0
         else Done d0
     end) = Done d ∧ (d <= MCA_MAX_DOMAINS)%nat ∧
    (∀ i dmi, (i < d)%nat → (d < MCA_MAX_DOMAINS)%nat → m_domains db !! i = Some dmi → de_domain_id dmi ≠ dom) ∧
    (∀ j dmj, (d < j)%nat → m_domains db !! j = Some dmj → de_valid dmj = true → dom ≠ de_domain_id dmj))
    as (d & Hd & Hle & Hbefore & Hafter).
  { destruct (c_scan_all (λ dm, de_domain_id dm =? dom) _ _ Hl)
      as [(d & dm & -> & Hlt & Hdm & Hid%Z.eqb_eq & Hb)|[-> Hno]].
    - exists d. destruct (Nat.eqb_spec d MCA_MAX_DOMAINS); [lia|]. split; [done|]. split; [lia|]. split.
      + intros i dmi Hi _ Hdmi. by apply Z.eqb_neq, (Hb i).
      + intros j dmj Hj Hdmj Hv. rewrite <- Hid. by apply (Hf d j).
    - rewrite Nat.eqb_refl. destruct (c_scan_spec (λ dm, negb (de_valid dm)) (m_domains db) MCA_MAX_DOMAINS 0)
        as (d & -> & Hle & _ & _); [by rewrite Hl|]. exists d. split; [done|]. split; [lia|]. split; intros i dmi Hi.
      + intros _ Hdmi. by apply Z.eqb_neq, (Hno i).
      + intros Hdmi _. apply not_eq_sym, Z.eqb_neq, (Hno i), Hdmi. }
  destruct (c_scan (λ dm, de_domain_id dm =? dom) (m_domains db) MCA_MAX_DOMAINS 0) as [d0|f]; [|done].
  rewrite Hd. destruct (Nat.eqb_spec d MCA_MAX_DOMAINS) as [|Hne]; [by exists None|].
  destruct (lookup_lt_is_Some_2 (m_domains db) d) as [dm Hdm]; [rewrite Hl; lia|]. rewrite Hdm.
  pose proof (Hns _ _ Hdm) as Hln.
  destruct (c_scan_all (λ nd, ne_valid nd && (ne_node_num nd =? node)) _ _ Hln)
    as [(n0 & x & -> & Hlt & _)|[-> Hnone]].
  { destruct (Nat.eqb_spec n0 MCA_MAX_NODES); [lia|]. by exists None. }
  rewrite Nat.eqb_refl. cbn [negb].
  destruct (c_scan_all (λ nd, negb (ne_valid nd)) _ _ Hln) as [(n & nd & -> & Hlt & Hnd & Hv & _)|[-> _]].
  - destruct (Nat.eqb_spec n MCA_MAX_NODES); [lia|]. exists (Some (d, n)). split; [done|].
    exists dm, nd. split_and!; try done.
    + by apply negb_true_iff.
    + intros m x Hx Hvx Hnum. specialize (Hnone m x Hx). by rewrite Hvx, Hnum, Z.eqb_refl in Hnone.
    + intros i dmi Hi. apply Hbefore; [done|lia].
  - rewrite Nat.eqb_refl. by exists None.
Qed.

(** ** Initialization *)

Lemma add_node_identities o d n dom node attrs db :
  identities db → find_node_entry dom node db = Done (Some (d, n)) →
  identities (add_node o d n dom node attrs db) ∧
  ∃ dm nd, m_domains db !! d = Some dm ∧ de_nodes dm !! n = Some nd ∧ ne_valid nd = false.
Proof.
  intros Hid Hfind. destruct (find_node_entry_spec dom node db Hid) as (o' & Hfind' & Hspec).
  rewrite Hfind in Hfind'. injection Hfind' as <-.
  destruct Hspec as (dm & nd & Hdm & Hnd & Hv & Hfresh & Hb & Ha). split; [|by exists dm, nd].
  apply identities_alter; [done|done| |].
  - intros dm' nd' Hdm' Hnd'. rewrite Hdm in Hdm'. injection Hdm' as <-. cbn. split_and!.
    + intros _ m x _ Hx Hvx. by eapply Hfresh.
    + intros i dmi Hi Hdmi _. by eapply Hb.
    + intros j dmj Hj Hdmj Hvj. by eapply Ha.
  - intros dm' Hdm'. rewrite Hdm in Hdm'. injection Hdm' as <-. by exists nd.
Qed.
Lemma invalidate_identities db :
  length (m_domains db) = MCA_MAX_DOMAINS →
  (∀ d dm, m_domains db !! d = Some dm → length (de_nodes dm) = MCA_MAX_NODES) →
  identities (invalidate_all db).
Proof.
  intros Hl Hns. unfold invalidate_all. split; cbn.
  - by rewrite length_fmap.
  - intros d dm. rewrite list_lookup_fmap. intros (dm0 & Hdm & ->)%fmap_Some. cbn. rewrite length_fmap. by eapply Hns.
  - intros i j dmi dmj _ _. rewrite list_lookup_fmap. by intros (dm0 & _ & ->)%fmap_Some.
  - intros d dm i j x y. rewrite list_lookup_fmap. intros (dm0 & _ & ->)%fmap_Some. cbn.
    rewrite !list_lookup_fmap. by intros (x0 & _ & ->)%fmap_Some.
Qed.

(** The thread after it became node [n] of domain [d]. *)
Definition registered (o : system) (d n : nat) (dom node : Z) (t : thread) : thread :=
  t <| mt_db := true |> <| mcapi_pid := sm_pid o |> <| mcapi_tid := sm_tid o |>
    <| mcapi_nindex := n |> <| mcapi_dindex := d |> <| mcapi_node_num := node |>
    <| mcapi_domain_id := dom |>.
Definition with_db (f : mcapi_database → mcapi_database) (p : process) : process :=
  p <| pr_world ::= λ w, w <| w_db ::= f |> |>.
Definition db_of (p : process) : mcapi_database := w_db (pr_world p).

(** From the point where the process is attached. *)
Definition attached (gap : nat → process → process) (o : system) (t : thread) (rc : bool) (dom node : Z)
    (attrs : option (list attribute_entry)) : M process (bool * thread) :=
  let* found :=
    if rc then on_world (let* db := get_mdb in lift (find_node_entry dom node db)) else ret None in
  let* res :=
    match found with
    | Some (d, n) =>
        on_world (modify_mdb (add_node o d n dom node attrs));;
        ret (true, registered o d n dom node t)
    | None => let* p := get in ret (false, t <| mt_db := pr_db p |>)
    end in
  modify (gap 1%nat);;
  modify (λ p, p <| mcapi_initialize_ctr := 0 |>);; ret res.

Lemma attached_done gap o t dom node attrs p :
  attached gap o t true dom node attrs p =
  match find_node_entry dom node (db_of p) with
  | Fault f => Fault f
  | Done (Some (d, n)) =>
      Done ((true, registered o d n dom node t),
            gap 1%nat (with_db (add_node o d n dom node attrs) p) <| mcapi_initialize_ctr := 0 |>)
  | Done None => Done ((false, t <| mt_db := pr_db p |>), gap 1%nat p <| mcapi_initialize_ctr := 0 |>)
  end.
Proof.
  unfold attached, on_world, bind, get_mdb, gets, lift, db_of.
  destruct (find_node_entry dom node (w_db (pr_world p))) as [[[d n]|]|]; [done| |done].
  cbn. by destruct p.
Qed.

Lemma spin_S between fuel k busy :
  spin between (S fuel) k busy =
  (let* p := get in if busy p then modify (between k);; spin between fuel (S k) busy else ret tt).
Proof. reflexivity. Qed.
Lemma spin_free between fuel k busy p :
  (0 < fuel)%nat → busy p = false → spin between fuel k busy p = Done (tt, p).
Proof. intros Hf Hb. destruct fuel; [lia|]. rewrite spin_S. unfold bind, get. by rewrite Hb. Qed.
Lemma spin_busy between fuel k busy (I : process → Prop) p :
  (∀ k p, I p → I (between k p)) → (∀ p, I p → busy p = true) → I p →
  spin between fuel k busy p = Fault OutOfFuel.
Proof.
  intros Hb Hbusy. revert k p. induction fuel as [|fuel IH]; intros k p Hp; [done|].
  rewrite spin_S. unfold bind at 1, get. rewrite Hbusy by done. unfold bind, modify. by apply IH, Hb.
Qed.

Section keeps.
Context (between gap : nat → process → process).
Definition ids (p : process) : Prop := identities (db_of p).
Context (Hb : ∀ k p, ids p → ids (between k p)).
Context (Hg : ∀ k p, ids p → ids (gap k p)).
Context (Hdb : ∀ k p, pr_db p = true → pr_db (gap k p) = true).

Lemma spin_keeps fuel k busy : keeps True ids (spin between fuel k busy) (λ _, True).
Proof using Hb.
  revert k. induction fuel as [|fuel IH]; intros k; [by intros p Hp|].
  rewrite spin_S. apply (keeps_bind _ _ (λ _, True)); [by apply keeps_get|]. intros p _.
  destruct (busy p); [|by apply keeps_ret].
  apply (keeps_bind _ _ (λ _, True)); [by apply keeps_modify; [|apply Hb]|]. intros _ _. apply IH.
Qed.

(** A thread registered in range. *)
Definition in_database (t : thread) : Prop :=
  (mcapi_dindex t < MCA_MAX_DOMAINS)%nat ∧ (mcapi_nindex t < MCA_MAX_NODES)%nat.

Lemma attached_keeps o t rc dom node attrs :
  keeps True ids (attached gap o t rc dom node attrs) (λ r, r.1 = true → in_database r.2).
Proof using Hg.
  destruct rc; [|by intros p Hp; cbn; split; [|by apply Hg]]. intros p Hp. unfold runs. rewrite attached_done.
  destruct (find_node_entry_spec dom node (db_of p) Hp) as (r & Hfind & _). rewrite Hfind.
  destruct r as [[d n]|]; [|by split; [|by apply Hg]].
  destruct (add_node_identities o d n dom node attrs _ Hp Hfind) as (Hid & dm & nd & Hdm & Hnd & _).
  split; [|exact (Hg 1%nat (with_db (add_node o d n dom node attrs) p) Hid)]. intros _. destruct Hp as [Hl Hns _ _]. split; cbn.
  - rewrite <- Hl. by eapply lookup_lt_Some.
  - rewrite <- (Hns _ _ Hdm). by eapply lookup_lt_Some.
Qed.

Lemma initialize_keeps o fuel t dom node attrs :
  keeps True ids (mcapi_trans_initialize o between gap fuel t dom node attrs)
    (λ r, r.1 = true → in_database r.2).
Proof using Hb Hg.
  unfold mcapi_trans_initialize. apply (keeps_bind _ _ (λ _, True)); [apply spin_keeps|]. intros _ _.
  apply (keeps_bind _ _ (λ _, True)); [by apply keeps_modify|]. intros _ _.
  apply (keeps_bind _ _ (λ _, True)); [apply spin_keeps|]. intros _ _.
  apply (keeps_bind _ _ (λ _, True)); [by apply keeps_modify; [|apply Hg]|]. intros _ _.
  destruct (sm_initialize o); cbn [negb].
  - apply (keeps_bind _ _ (λ _, True)); [|intros rc _; apply attached_keeps].
    destruct (sm_memory o); [by apply (keeps_bind _ _ (λ _, True)); [apply keeps_modify|intros; apply keeps_ret]| |by apply keeps_ret].
    intros p Hp. unfold runs, bind, modify, on_world, on_header. cbn. split; [done|].
    destruct Hp as [Hl Hns _ _].
    by apply (identities_domains (invalidate_all (db_of p))), (invalidate_identities _ Hl Hns).
  - apply (keeps_bind _ _ (λ _, True)); [by apply keeps_modify|]. intros _ _. by apply keeps_ret.
Qed.

(** ** Finalization *)

Lemma finalize_keeps o fuel t :
  is_Some (mcapi_trans_whoami t) → in_database t →
  keeps True ids (mcapi_trans_finalize o between gap fuel t) (λ _, True).
Proof using Hb Hg Hdb.
  intros [[[[node n] dom] d] Ht] [Hd Hn].
  assert (n = mcapi_nindex t ∧ d = mcapi_dindex t ∧ mcapi_pid t ≠ -1) as (-> & -> & Hpid).
  { unfold mcapi_trans_whoami in Ht. destruct (mt_db t); [|done]. cbn [negb] in Ht.
    destruct (Z.eqb_spec (mcapi_pid t) (-1)); [done|]. by injection Ht as <- <- <- <-. }
  unfold mcapi_trans_finalize. apply (keeps_bind _ _ (λ _, True)); [apply spin_keeps|]. intros _ _.
  apply (keeps_bind _ _ (λ _, True)); [by apply keeps_modify|]. intros _ _.
  apply (keeps_bind _ _ (λ _, True)); [apply spin_keeps|]. intros _ _.
  intros p0 Hp0. eapply runs_step; [reflexivity|]. destruct (pr_db p0) eqn:Hdb0; [|by apply keeps_ret].
  cbn [negb]. eapply runs_step; [reflexivity|]. eapply runs_step; [reflexivity|].
  pose proof (Hg 0%nat p0 Hp0) as Hp. rewrite (Hdb 0%nat p0 Hdb0). generalize dependent (gap 0%nat p0). clear p0 Hp0 Hdb0.
  intros p Hp.
  assert (on_world (assert_whoami (t <| mt_db := true |>)) p =
    Done ((mcapi_node_num t, mcapi_nindex t, mcapi_domain_id t, mcapi_dindex t), p)) as Hwho.
  { unfold on_world, assert_whoami, mcapi_trans_whoami. cbn. apply Z.eqb_neq in Hpid. rewrite Hpid.
    cbn. by destruct p. }
  eapply runs_step; [exact Hwho|]. cbv beta iota.
  pose proof Hp as [Hl Hns _ _].
  destruct (lookup_lt_is_Some_2 (m_domains (db_of p)) (mcapi_dindex t)) as [dm Hdm]; [by rewrite Hl|].
  destruct (lookup_lt_is_Some_2 (de_nodes dm) (mcapi_nindex t)) as [nd Hnd]; [by rewrite (Hns _ _ Hdm)|].
  eapply runs_step.
  { unfold on_world, bind, get_mdb, gets. unfold db_of in Hdm. rewrite Hdm. cbn. rewrite Hnd. done. }
  set (f := λ nd, nd <| ne_valid := false |>).
  assert (ids (with_db (upd_mnode (mcapi_dindex t) (mcapi_nindex t) f) p)) as Hp'.
  { assert (identities (upd_mnode (mcapi_dindex t) (mcapi_nindex t) f
      (db_of p <| m_domains ::= alter (λ dm, dm) (mcapi_dindex t) |>))) as H.
    { apply identities_alter; [done|done| |].
      - intros dm' nd' Hdm' _. split_and!; [done| |].
        + intros i dmi Hi Hdmi Hv. by apply (id_first _ Hp i (mcapi_dindex t)).
        + intros j dmj Hj Hdmj Hv. by apply (id_first _ Hp (mcapi_dindex t) j).
      - intros dm' Hdm'. rewrite Hdm in Hdm'. injection Hdm' as <-. by exists nd. }
    revert H. apply identities_domains. unfold db_of, with_db, upd_mnode. cbn.
    by rewrite (list_alter_id (λ dm, dm)) by done. }
  eapply runs_step; [by destruct p|]. eapply runs_step; [by destruct p|].
  eapply runs_step; [reflexivity|].
  match goal with |- runs _ _ _ _ (gap _ ?p') => change (ids p') in Hp'; apply (Hg 1%nat) in Hp'; revert Hp'; generalize (gap 1%nat p') end.
  intros p2 Hp2. destruct (last_man _ _); by cbn.
Qed.
End keeps.

#[local] Transparent MCA_MAX_DOMAINS MCA_MAX_NODES.

(** ** Identities *)

(** C32: initializations and finalizations keep the identities of the nodes
    unique, whatever other threads do at the polls, before the section of the call
    that has the lock of the database and after it, as long as they keep the
    identities too and leave a process its pointer to the database: each call, a
    finalization by a thread that is initialized, either keeps polling or finishes
    without a fault, two valid nodes of a domain never have the same number, and no
    two valid domain entries the same domain number. *)
Theorem node_identities_unique o between gap fuel :
  (∀ k p, ids p → ids (between k p)) → (∀ k p, ids p → ids (gap k p)) →
  (∀ k p, pr_db p = true → pr_db (gap k p) = true) →
  (∀ t dom node attrs,
     keeps True ids (mcapi_initialize o between gap fuel t dom node attrs) (λ _, True)) ∧
  (∀ t, is_Some (mcapi_trans_whoami t) → in_database t →
     keeps True ids (mcapi_finalize o between gap fuel t) (λ _, True)).
Proof.
  intros Hb Hg Hdb. split.
  - intros t dom node attrs. unfold mcapi_initialize. cbn [negb mcapi_trans_valid_node].
    destruct (mcapi_trans_initialized t); [by apply keeps_ret|].
    eapply keeps_bind; [by apply initialize_keeps|]. intros [ok t'] _. by apply keeps_ret.
  - intros t Ht Hin. unfold mcapi_finalize.
    eapply keeps_bind; [by apply finalize_keeps|]. intros ok _. by apply keeps_ret.
Qed.

Lemma zero_identities : identities zero_mdb.
Proof.
  split.
  - done.
  - intros d dm [-> _]%lookup_replicate. done.
  - intros i j dmi dmj _ _ [-> _]%lookup_replicate. done.
  - intros d dm i j x y [-> _]%lookup_replicate [-> _]%lookup_replicate. done.
Qed.
(** A process attached to a zeroed database, and what its system answers. *)
Definition a_process : process := mk_process true 0 0 (mk_world zero_mdb ∅).
Definition a_system : system := mk_system true Existed (λ _ _, true) 1 1.
Definition a_thread : thread := mk_thread true (-1) 0 0 0 0 0.
(** A thread becomes node 5 and finalizes. *)
Definition alone_here (k : nat) (p : process) : process := p.
Definition node_five : thread := registered a_system 0 0 0 5 a_thread.
Lemma node_identities_unique_witness :
  match mcapi_initialize a_system alone_here alone_here 1 a_thread 0 5 None a_process with
  | Done ((t, st), p) => ids p ∧ st = MCAPI_SUCCESS ∧
      match mcapi_finalize a_system alone_here alone_here 1 node_five p with
      | Done (_, p) => ids p
      | Fault f => f = OutOfFuel
      end
  | Fault f => f = OutOfFuel
  end.
Proof.
  destruct (node_identities_unique a_system alone_here alone_here 1 ltac:(done) ltac:(done) ltac:(done)) as [H Hf].
  specialize (H a_thread 0 5 None a_process zero_identities). unfold runs in H.
  assert (match mcapi_initialize a_system alone_here alone_here 1 a_thread 0 5 None a_process with
    Done ((_, st), _) => st = MCAPI_SUCCESS | Fault _ => False end) as Hst by (vm_compute; reflexivity).
  destruct (mcapi_initialize _ _ _ _ _ _ _ _ _) as [[[t st] p]|f]; [|done]. destruct H as [_ Hp].
  split; [exact Hp|]. split; [exact Hst|].
  specialize (Hf node_five (ex_intro _ _ eq_refl) ltac:(split; vm_compute; lia) p Hp). unfold runs in Hf.
  destruct (mcapi_finalize _ _ _ _ _ _) as [[r p2]|f]; apply Hf.
Defined.

(** ** Initialization against finalization

    Each of the two sets its counter and then waits for the other's to be reset:
    when both have set theirs, neither returns. *)
Theorem initialize_and_finalize_deadlock o o' between gap fuel t t' dom node attrs p :
  mcapi_initialize_ctr p = 0 → mcapi_finalize_ctr p = 0 → mcapi_trans_whoami t = None →
  (∀ k p, mcapi_initialize_ctr p = 1 ∧ mcapi_finalize_ctr p = 1 →
     mcapi_initialize_ctr (between k p) = 1 ∧ mcapi_finalize_ctr (between k p) = 1) →
  mcapi_initialize o between gap fuel t dom node attrs (p <| mcapi_finalize_ctr := 1 |>) = Fault OutOfFuel ∧
  mcapi_finalize o' between gap fuel t' (p <| mcapi_initialize_ctr := 1 |>) = Fault OutOfFuel.
Proof.
  intros Hi Hf Ht Hb.
  set (stuck := p <| mcapi_initialize_ctr := 1 |> <| mcapi_finalize_ctr := 1 |>).
  assert (∀ busy, (∀ p, mcapi_initialize_ctr p = 1 ∧ mcapi_finalize_ctr p = 1 → busy p = true) →
    ∀ fuel k, spin between fuel k busy stuck = Fault OutOfFuel) as Hspin.
  { intros busy Hbusy fuel' k.
    by apply (spin_busy _ _ _ _ (λ p, mcapi_initialize_ctr p = 1 ∧ mcapi_finalize_ctr p = 1)). }
  split.
  - unfold mcapi_initialize, mcapi_trans_initialized. cbn [negb mcapi_trans_valid_node].
    rewrite Ht, bool_decide_eq_false_2 by by intros []. apply bind_fault.
    unfold mcapi_trans_initialize. destruct fuel as [|fuel]; [done|].
    rewrite (bind_done _ _ _ tt (p <| mcapi_finalize_ctr := 1 |>)) by (apply spin_free; [lia|cbn; by rewrite Hi]).
    rewrite (bind_done _ _ _ tt stuck) by done. apply bind_fault, Hspin. intros q [_ ->]. done.
  - unfold mcapi_finalize. apply bind_fault. unfold mcapi_trans_finalize. destruct fuel as [|fuel]; [done|].
    rewrite (bind_done _ _ _ tt (p <| mcapi_initialize_ctr := 1 |>)) by (apply spin_free; [lia|cbn; by rewrite Hf]).
    rewrite (bind_done _ _ _ tt stuck) by done. apply bind_fault, Hspin. intros q [-> _]. done.
Qed.
Lemma initialize_and_finalize_deadlock_witness :
  mcapi_initialize a_system alone_here alone_here 9 a_thread 0 5 None (a_process <| mcapi_finalize_ctr := 1 |>)
    = Fault OutOfFuel ∧
  mcapi_finalize a_system alone_here alone_here 9 node_five (a_process <| mcapi_initialize_ctr := 1 |>) = Fault OutOfFuel.
Proof.
  apply (initialize_and_finalize_deadlock a_system a_system alone_here alone_here 9 a_thread node_five 0 5 None a_process);
    done.
Defined.

(** A node of another process, which has its own counters, that is registered after the decision who is the last:
    the layer below is told to release what that node uses. *)
Definition also_registers (k : nat) (p : process) : process :=
  if Nat.eqb k 1 then
    match mcapi_initialize (mk_system true Existed (λ _ _, true) 2 2) alone_here alone_here 1 a_thread 0 6 None
      (mk_process true 0 0 (pr_world p)) with
    | Done (_, q) => p <| pr_world := pr_world q |>
    | Fault _ => p
    end
  else p.
Example last_man_is_stale :
  match mcapi_initialize a_system alone_here alone_here 1 a_thread 0 5 None a_process with
  | Done ((t, _), p) =>
      match mcapi_trans_finalize (mk_system true Existed (λ last _, last) 1 1) alone_here also_registers 1 t p with
      | Done (told_last, p) => told_last = true ∧ last_man (λ _, true) (db_of p) = false
      | Fault _ => False
      end
  | Fault _ => False
  end.
Proof. vm_compute. done. Qed.

(** ** What initialization registers *)

Lemma created_limit t node dom d n w nd port :
  mcapi_trans_whoami t = Some (node, n, dom, d) → node_at d n w = Some nd →
  length (endpoints nd) = MCAPI_MAX_ENDPOINTS → (∀ e, port_at nd e = None) → num_endpoints nd = 32 →
  mcapi_endpoint_create undisturbed t port w = Done ((None, MCAPI_ERR_ENDP_LIMIT), w).
Proof.
  intros Ht Hnd Hl Hno Hnum. unfold mcapi_endpoint_create, mcapi_domain_id_get, mcapi_trans_get_domain_num.
  rewrite Ht. cbv beta iota. change (negb (MCAPI_SUCCESS =? MCAPI_SUCCESS)) with false. cbv iota.
  assert (mcapi_trans_endpoint_exists t port w = Done (false, w)) as Hex.
  { unfold mcapi_trans_endpoint_exists. destruct (port =? MCAPI_PORT_ANY); [done|].
    destruct (c_scan_all (λ ep, ep_valid ep && (ep_port_num ep =? port)) (endpoints nd) _ Hl)
      as [(e & ep & _ & _ & Hep & Hp & _)|[Hs _]].
    - specialize (Hno e). rewrite (port_valid _ _ _ Hep) in Hno. by destruct (ep_valid ep).
    - apply wp_exact, wp_bind. unfold assert_whoami. rewrite Ht. apply wp_ret, wp_bind, wp_gets, wp_bind.
      eapply wp_oob; [exact Hnd|]. apply wp_bind. eapply wp_lift; [exact Hs|]. by apply wp_ret. }
  assert (mcapi_trans_num_endpoints t w = Done (32, w)) as Hn.
  { apply wp_exact, wp_bind. unfold assert_whoami. rewrite Ht. apply wp_ret, wp_bind, wp_gets, wp_bind.
    eapply wp_oob; [exact Hnd|]. apply wp_ret. by rewrite Hnum. }
  unfold check_not. rewrite (bind_done _ _ _ _ _ Hex). rewrite (bind_done _ _ w tt w) by done.
  by rewrite (bind_done _ _ _ _ _ Hn).
Qed.

(** Initialization, when nobody else is initializing or finalizing and the
    shared memory exists: it fails and changes nothing when the node exists or
    there is no entry for it; otherwise the thread becomes the node of a free
    entry, without endpoints.  The entry's counter of endpoints is not reset:
    after a predecessor that left 32 endpoints, the new node can create
    none. *)
Theorem initialize_keeps_endpoint_count o between fuel t dom node attrs p :
  ids p → (∀ d n nd, node_at d n (pr_world p) = Some nd → length (endpoints nd) = MCAPI_MAX_ENDPOINTS) →
  mcapi_trans_whoami t = None → mcapi_initialize_ctr p = 0 → mcapi_finalize_ctr p = 0 →
  sm_initialize o = true → sm_memory o = Existed → sm_pid o ≠ -1 → (0 < fuel)%nat →
  match find_node_entry dom node (db_of p) with
  | Fault _ => False
  | Done None => ∃ t' p',
      mcapi_initialize o between alone_here fuel t dom node attrs p = Done ((t', MCAPI_ERR_NODE_INITFAILED), p') ∧
      pr_world p' = pr_world p
  | Done (Some (d, n)) => ∃ t' p' nd nd',
      mcapi_initialize o between alone_here fuel t dom node attrs p = Done ((t', MCAPI_SUCCESS), p') ∧
      mcapi_trans_whoami t' = Some (node, n, dom, d) ∧
      node_at d n (pr_world p) = Some nd ∧ ne_valid nd = false ∧
      node_at d n (pr_world p') = Some nd' ∧ named node nd' ∧ (∀ e, port_at nd' e = None) ∧
      num_endpoints nd' = num_endpoints nd ∧
      (num_endpoints nd = 32 → ∀ port, mcapi_endpoint_create undisturbed t' port (pr_world p')
         = Done ((None, MCAPI_ERR_ENDP_LIMIT), pr_world p'))
  end.
Proof.
  intros Hids Hlen Ht Hi Hf Hsi Hsm Hpid Hfuel.
  set (p1 := p <| mcapi_initialize_ctr := 1 |> <| pr_db := true |>).
  assert (∀ r, attached alone_here o t true dom node attrs p1 = Done r →
    mcapi_initialize o between alone_here fuel t dom node attrs p =
    Done ((r.1.2, if r.1.1 : bool then MCAPI_SUCCESS else MCAPI_ERR_NODE_INITFAILED), r.2)) as Hrun.
  { intros [[ok t'] p'] Hatt. unfold mcapi_initialize, mcapi_trans_initialized.
    cbn [negb mcapi_trans_valid_node]. rewrite Ht, bool_decide_eq_false_2 by by intros [].
    rewrite (bind_done _ _ p (ok, t') p'); [done|]. unfold mcapi_trans_initialize.
    rewrite (bind_done _ _ p tt p) by (apply spin_free; [done|by rewrite Hi]).
    rewrite (bind_done _ _ p tt (p <| mcapi_initialize_ctr := 1 |>)) by done.
    rewrite (bind_done _ _ _ tt (p <| mcapi_initialize_ctr := 1 |>)) by (apply spin_free; [done|by cbn; rewrite Hf]).
    rewrite (bind_done _ _ _ tt (p <| mcapi_initialize_ctr := 1 |>)) by done.
    rewrite Hsi, Hsm. cbn [negb]. by rewrite (bind_done _ _ _ true p1) by done. }
  pose proof (attached_done alone_here o t dom node attrs p1) as Hatt. change (db_of p1) with (db_of p) in Hatt.
  destruct (find_node_entry_spec dom node (db_of p) Hids) as (r & Hfind & Hspec). rewrite Hfind in Hatt |- *.
  destruct r as [[d n]|].
  2:{ specialize (Hrun _ Hatt). eexists _, _. split; [exact Hrun|done]. }
  specialize (Hrun _ Hatt). destruct Hspec as (dm & nd & Hdm & Hnd & Hv & _).
  assert (node_at d n (pr_world p) = Some nd) as Hat by (unfold node_at; unfold db_of in Hdm; by rewrite Hdm).
  set (f := λ nd, nd <| ne_valid := true |> <| ne_node_num := node |>
    <| ne_pid := sm_pid o |> <| ne_tid := sm_tid o |>
    <| ne_attributes ::= λ l, set_attribute_size (default l attrs) |>
    <| endpoints ::= fmap (λ _, zero_endpoint) |>) in *.
  exists (registered o d n dom node t), (with_db (add_node o d n dom node attrs) p1 <| mcapi_initialize_ctr := 0 |>),
    nd, (f nd).
  assert (node_at d n (pr_world (with_db (add_node o d n dom node attrs) p1 <| mcapi_initialize_ctr := 0 |>))
    = Some (f nd)) as Hat'.
  { unfold node_at, with_db, add_node, upd_mnode. cbn. unfold db_of in Hdm.
    rewrite list_alter_alter_eq, list_lookup_alter_eq, Hdm. cbn. by rewrite list_lookup_alter_eq, Hnd. }
  assert (mcapi_trans_whoami (registered o d n dom node t) = Some (node, n, dom, d)) as Hwho.
  { unfold mcapi_trans_whoami. cbn. apply Z.eqb_neq in Hpid. by rewrite Hpid. }
  assert (∀ e, port_at (f nd) e = None) as Hports.
  { intros e. unfold port_at, f. cbn. rewrite list_lookup_fmap. by destruct (endpoints nd !! e). }
  split_and!; try done. intros Hfull port. eapply created_limit; try done.
  unfold f. cbn. rewrite length_fmap. by eapply Hlen.
Qed.
Lemma initialize_keeps_endpoint_count_witness :
  ∃ t' p', mcapi_initialize a_system (λ _ p, p) alone_here 1 a_thread 0 5 None a_process = Done ((t', MCAPI_SUCCESS), p') ∧
    mcapi_trans_whoami t' = Some (5, 0%nat, 0, 0%nat).
Proof.
  pose proof (initialize_keeps_endpoint_count a_system (λ _ p, p) 1 a_thread 0 5 None a_process
    zero_identities) as H. change (find_node_entry 0 5 (db_of a_process)) with (@Done (option (nat * nat)) (Some (0, 0)%nat)) in H.
  destruct H as (t' & p' & nd & nd' & Hi & Hw & _); try done.
  - intros d n nd Hnd. unfold node_at in Hnd.
    by apply bind_Some in Hnd as (dm & [-> _]%lookup_replicate & [-> _]%lookup_replicate).
  - lia.
  - by exists t', p'.
Defined.

(** ** Finalization without a database *)

(** Finalizing a process that is not attached to the database (before the
    first initialization, or a second time) reports
    MCAPI_ERR_NODE_FINALFAILED and leaves the finalize counter set: from then
    on every initialization by a new thread and every finalization polls for
    ever, since no call of another thread resets the counter. *)
Theorem finalize_unattached_blocks o between fuel t p :
  pr_db p = false → mcapi_initialize_ctr p = 0 → mcapi_finalize_ctr p = 0 → (0 < fuel)%nat →
  ∃ p', mcapi_finalize o between alone_here fuel t p = Done (MCAPI_ERR_NODE_FINALFAILED, p') ∧
    mcapi_finalize_ctr p' = 1 ∧
    ∀ o between fuel,
      (∀ k p, mcapi_finalize_ctr p = 1 → mcapi_finalize_ctr (between k p) = 1) →
      (∀ t dom node attrs, mcapi_trans_whoami t = None →
         mcapi_initialize o between alone_here fuel t dom node attrs p' = Fault OutOfFuel) ∧
      (∀ t, mcapi_finalize o between alone_here fuel t p' = Fault OutOfFuel).
Proof.
  intros Hdb Hi Hf Hfuel. set (p' := p <| mcapi_finalize_ctr := 1 |>). exists p'. split; [|split; [done|]].
  - unfold mcapi_finalize. rewrite (bind_done _ _ p false p'); [done|]. unfold mcapi_trans_finalize.
    rewrite (bind_done _ _ p tt p) by (apply spin_free; [done|by rewrite Hf]).
    rewrite (bind_done _ _ p tt p') by done.
    rewrite (bind_done _ _ p' tt p') by (apply spin_free; [done|by unfold p'; cbn; rewrite Hi]).
    rewrite (bind_done _ _ p' p' p') by done. unfold p' at 1. cbn. by rewrite Hdb.
  - clear o between fuel Hfuel. intros o between fuel Hb.
    assert (∀ busy k p, (∀ p, mcapi_finalize_ctr p = 1 → busy p = true) → mcapi_finalize_ctr p = 1 →
      spin between fuel k busy p = Fault OutOfFuel) as Hspin.
    { intros busy k q Hbusy Hq. by apply (spin_busy _ _ _ _ (λ p, mcapi_finalize_ctr p = 1)). }
    split.
    + intros t' dom node attrs Ht'. unfold mcapi_initialize, mcapi_trans_initialized.
      cbn [negb mcapi_trans_valid_node]. rewrite Ht', bool_decide_eq_false_2 by by intros [].
      apply bind_fault.
      unfold mcapi_trans_initialize. destruct fuel as [|fuel]; [done|].
      rewrite (bind_done _ _ p' tt p') by (apply spin_free; [lia|by unfold p'; cbn; rewrite Hi]).
      rewrite (bind_done _ _ p' tt (p' <| mcapi_initialize_ctr := 1 |>)) by done.
      apply bind_fault. apply Hspin; [|done]. intros q Hq. by rewrite Hq.
    + intros t'. unfold mcapi_finalize. apply bind_fault. unfold mcapi_trans_finalize. apply bind_fault.
      apply Hspin; [|done]. intros q Hq. by rewrite Hq.
Qed.
Lemma finalize_unattached_blocks_witness :
  ∃ p', mcapi_finalize a_system (λ _ p, p) alone_here 1 a_thread (mk_process false 0 0 (mk_world zero_mdb ∅))
      = Done (MCAPI_ERR_NODE_FINALFAILED, p') ∧
    ∀ fuel, mcapi_initialize a_system (λ _ p, p) alone_here fuel a_thread 0 5 None p' = Fault OutOfFuel.
Proof.
  destruct (finalize_unattached_blocks a_system (λ _ p, p) 1 a_thread (mk_process false 0 0 (mk_world zero_mdb ∅))
    eq_refl eq_refl eq_refl (le_n 1)) as (p' & H & _ & Hspin).
  exists p'. split; [done|]. intros fuel. by apply (Hspin a_system (λ _ p, p) fuel).
Defined.
