(* ===== verification/McapiApiTheorems.v ===== *)
(** The public functions of MCAPI: blocking sends, errors of non-blocking
    calls, and waiting. *)

From S2P Require Import Prelude Bytes McapiTypes McapiQueue McapiRequests McapiTransport McapiMessages McapiChannels McapiCheck McapiNodes McapiApi McapiRequestList McapiRing McapiQueueSpec McapiFifo McapiAccess McapiMailbox McapiBlocking McapiChannelSpec.

(** ** What the caller of a non-blocking function and of the waiting functions
    is told: errors are reported by the request, and waiting ends. *)

#[local] Opaque MCAPI_MAX_QUEUE_ENTRIES MCAPI_MAX_BUFFERS.
#[local] Opaque encode_request_handle mcapi_trans_decode_request_handle.

(** ** Errors of the public function *)

(** The non-blocking functions of the transport with their arguments, as
    functions of [*request] and the status the public function found; and whether
    the function is a send, which reports success when it made a request. *)
Inductive nonblocking : bool → (Z → Z → M world (Z * Z)) → Prop :=
| nb_msg_send sh rh buffer size : nonblocking true (mcapi_trans_msg_send_i sh rh buffer size)
| nb_msg_recv buff_addr rh buffer size :
    nonblocking false (mcapi_trans_msg_recv_i buff_addr rh buffer size)
| nb_connect chan type sh rh :
    type ≠ GET_ENDPT → nonblocking false (channel_connect_i chan type sh rh)
| nb_open chan type handle ep :
    type ≠ GET_ENDPT →
    nonblocking false (λ rq st, let* (_, rq, st) := channel_open_i chan type handle ep rq st in
                                ret (rq, st))
| nb_close type handle : type ≠ GET_ENDPT → nonblocking false (channel_close_i type handle)
| nb_pkt_send sh buffer size : nonblocking true (mcapi_trans_pktchan_send_i sh buffer size)
| nb_pkt_recv buff_addr rh buffer :
    nonblocking false (mcapi_trans_pktchan_recv_i buff_addr rh buffer).

(** Without an entry to reserve nothing is done, with or without an error. *)
Lemma nonblocking_exhausted sends op rq st w used :
  nonblocking sends op → header_wf (header w) [] used →
  op rq st w = Done ((rq, MCAPI_ERR_REQUEST_LIMIT), w).
Proof.
  intros Hop Hwf. pose proof (reserve_exhausted w used Hwf) as Hres.
  destruct Hop; unfold mcapi_trans_msg_send_i, mcapi_trans_msg_recv_i, channel_connect_i, channel_open_i,
    channel_close_i, mcapi_trans_pktchan_send_i, mcapi_trans_pktchan_recv_i; cbv zeta;
    unfold bind; by rewrite Hres.
Qed.
Lemma nonblocking_last sends op rq st w r used :
  nonblocking sends op → header_wf (header w) [r] used → op rq st w = Fault OutOfBounds.
Proof.
  intros Hop Hwf. pose proof (reserve_last w r used Hwf) as Hres.
  destruct Hop; unfold mcapi_trans_msg_send_i, mcapi_trans_msg_recv_i, channel_connect_i, channel_open_i,
    channel_close_i, mcapi_trans_pktchan_send_i, mcapi_trans_pktchan_recv_i; cbv zeta;
    unfold bind; by rewrite Hres.
Qed.

Section errors.
Context (buff_addr : nat → Z) (w : world) (r f : nat) (free used : list nat).
Context (Ht : table w r f free used).

(** With an error the function is the set-up of a completed request. *)
Lemma error_shape sends op st rq :
  nonblocking sends op → st ≠ MCAPI_SUCCESS →
  ∃ handle size buffer type, type ≠ GET_ENDPT ∧
    op rq st w =
    (let* o := mcapi_trans_reserve_request_have_lock in
     match o with
     | None => ret (rq, MCAPI_ERR_REQUEST_LIMIT)
     | Some r =>
         let* _ := ret tt in
         let* request := setup_request_have_lock handle 0 st true size buffer type 0 0 0 r in
         ret (request, if sends then MCAPI_SUCCESS else st)
     end) w.
Proof using Ht.
  intros Hop Hst. apply Z.eqb_neq in Hst as Hc.
  destruct (reserve_done w r f free used Ht) as (h1 & Hres & _).
  destruct Hop as [sh rh buffer size|ba rh buffer size|chan type sh rh Hty|chan type handle ep Hty
    |type handle Hty|sh buffer size|ba rh buffer].
  - exists rh, size, None, SEND. split; [done|].
    unfold mcapi_trans_msg_send_i. by rewrite Hc.
  - exists rh, size, (Some (0, buffer)), RECV. split; [done|].
    unfold mcapi_trans_msg_recv_i. by rewrite Hc.
  - exists rh, 0, None, type. split; [done|].
    unfold channel_connect_i. by rewrite Hc.
  - exists ep, 0, None, type. split; [done|].
    unfold channel_open_i. rewrite Hc. unfold bind at 1. cbn [negb].
    rewrite !(bind_done _ _ _ _ _ Hres). cbv beta iota. unfold bind, ret. cbv beta iota.
    by destruct (setup_request_have_lock _ _ _ _ _ _ _ _ _ _ _ _) as [[]|].
  - exists handle, 0, None, type. split; [done|].
    unfold channel_close_i. by rewrite Hc.
  - exists sh, size, None, SEND. split; [done|].
    unfold mcapi_trans_pktchan_send_i. by rewrite Hc.
  - exists rh, (Z.of_nat MCAPI_MAX_PKT_SIZE), (Some (buffer, 0)), RECV. split; [done|].
    unfold mcapi_trans_pktchan_recv_i. by rewrite Hc.
Qed.

Lemma error_run sends op st rq :
  nonblocking sends op → st ≠ MCAPI_SUCCESS →
  ∃ w2, op rq st w = Done ((encode_request_handle r, if sends then MCAPI_SUCCESS else st), w2) ∧
    ∀ tsize tst, ∃ size h', mcapi_trans_test_i buff_addr (encode_request_handle r) tsize tst w2
        = Done ((true, 0, size, st), request_done r h' w w) ∧
      header_wf h' (r :: f :: free) used.
Proof using Ht.
  intros Hop Hst. destruct (error_shape sends op st rq Hop Hst)
    as (handle & size & buffer & type & Hty & Heq).
  destruct (submit_run buff_addr w r f free used Ht (ret tt) (λ _, st) (λ _, true) (λ _, size)
    (λ rq _, ret (rq, if sends then MCAPI_SUCCESS else st)) handle buffer type tt w rq (indep_ret tt) Hty eq_refl eq_refl)
    as (w2 & Hrun & Htest).
  exists w2. split; [by rewrite Heq, Hrun|].
  intros tsize tst. exists size. apply Htest.
Qed.
End errors.

(** A blocking send whose first attempt found no entry submits the error of that
    attempt instead of the message. *)
Lemma retried_send_loses buff_addr between fuel junk w wk k r f free used
    send_endpoint receive_endpoint sd sn se rd rn re buffer buffer_size priority :
  exhausted_for between (S k) 0 w wk → (S k < fuel)%nat → table wk r f free used →
  endpoint_ok send_endpoint sd sn se MCAPI_NO_CHAN w →
  endpoint_ok receive_endpoint rd rn re MCAPI_NO_CHAN w →
  mcapi_trans_valid_priority priority = true → buffer_size <= Z.of_nat MCAPI_MAX_MSG_SIZE →
  ∃ h', mcapi_msg_send buff_addr between fuel junk send_endpoint receive_endpoint buffer
      buffer_size priority w = Done (MCAPI_ERR_MEM_LIMIT, request_done r h' wk wk) ∧
    header_wf h' (r :: f :: free) used.
Proof.
  intros Hex Hfuel Ht Hs Hr Hprio Hsize.
  set (op := mcapi_trans_msg_send_i send_endpoint receive_endpoint buffer buffer_size).
  assert (nonblocking true op) as Hop by constructor.
  destruct (error_run buff_addr wk r f free used Ht true op MCAPI_ERR_REQUEST_LIMIT junk Hop ltac:(done))
    as (w2 & Hrun & Htest).
  destruct (Htest 0 MCAPI_SUCCESS) as (size & h' & Htst & Hwf). exists h'. split; [|done].
  unfold mcapi_msg_send. rewrite (bind_done _ _ _ _ _ (check_msg_send_done w _ _ _ _ _ _ _ _ Hs Hr _ _ Hprio Hsize)).
  change (negb (MCAPI_SUCCESS =? MCAPI_SUCCESS)) with false. cbv iota. unfold mcapi_trans_msg_send.
  assert (until_request between op fuel 0 junk MCAPI_SUCCESS w
    = Done ((encode_request_handle r, MCAPI_SUCCESS), w2)) as Hu.
  { replace fuel with (S k + (fuel - S k))%nat by lia.
    rewrite (until_exhausted between op junk (S k) _ 0 _ w wk); [|intros; by eapply nonblocking_exhausted|done].
    apply until_submits; [lia|done]. }
  rewrite (bind_done _ _ w false (request_done r h' wk wk)); [done|]. rewrite (bind_done _ _ _ _ _ Hu). cbv beta iota.
  rewrite (bind_done _ _ _ _ _ (complete_wait buff_addr between fuel _ _ _ _ _ _ ltac:(lia) (table_index _ _ _ _ _ Ht) Htst)).
  done.
Qed.

(** ** Waiting ends *)

(** Every assignment to the tail of a queue reduces it. *)
Definition tails_ok (w : world) : Prop :=
  ∀ d n e q, queue_at d n e w = Some q → (q_tail q < MCAPI_MAX_QUEUE_ENTRIES)%nat.

(** From a world with tails in range, the computation never spins, and the
    tails stay in range. *)
Definition steady {A} (m : M world A) : Prop := ∀ w, tails_ok w →
  match m w with Done (_, w') => tails_ok w' | Fault f => f ≠ OutOfFuel end.

Section steady.
Context {A B : Type}.
Lemma steady_ret (a : A) : steady (ret a).
Proof. by intros w Hw. Qed.
Lemma steady_raise f : f ≠ OutOfFuel → steady (raise (A := A) f).
Proof. by intros Hf w Hw. Qed.
Lemma steady_bind (m : M world A) (k : A → M world B) :
  steady m → (∀ a, steady (k a)) → steady (bind m k).
Proof.
  intros Hm Hk w Hw. specialize (Hm w Hw). unfold bind. destruct (m w) as [[a w']|]; [by apply Hk|done].
Qed.
Lemma steady_lift (r : result A) : r ≠ Fault OutOfFuel → steady (lift r).
Proof. intros Hr w Hw. destruct r; cbn; [done|congruence]. Qed.
Lemma steady_oob (o : option A) : steady (from_option_oob o).
Proof. intros w Hw. by destruct o. Qed.
Lemma steady_modify (f : world → world) :
  (∀ d n e w, queue_at d n e (f w) = queue_at d n e w) → steady (modify f).
Proof. intros Hf w Hw d n e q Hq. apply (Hw d n e). by rewrite <- Hf. Qed.
Lemma steady_on_header (m : M indexed_array_header A) :
  (∀ h, m h ≠ Fault OutOfFuel) → steady (on_header m).
Proof.
  intros Hm w Hw. unfold on_header, bind, get_mdb, gets, lift. specialize (Hm (header w)).
  unfold header in Hm. destruct (m _) as [[a h]|]; cbn; [done|congruence].
Qed.
Lemma steady_on_queue d n e (f : queue → result (A * queue)) :
  (∀ q, (q_tail q < MCAPI_MAX_QUEUE_ENTRIES)%nat →
     match f q with Done (_, q') => q_tail q' = q_tail q | Fault e => e ≠ OutOfFuel end) →
  steady (on_queue d n e f).
Proof.
  intros Hf w Hw. destruct (queue_at d n e w) as [q|] eqn:Hq.
  - specialize (Hf q (Hw _ _ _ _ Hq)). destruct (f q) as [[a q']|e'] eqn:Hfq.
    + assert (on_queue d n e f w = Done (a, with_queue d n e q' w)) as ->.
      { apply wp_exact. by eapply wp_on_queue. }
      intros d' n' e' q1 Hq1. destruct (decide ((d', n', e') = (d, n, e))) as [[= -> -> ->]|Hne].
      * rewrite queue_at_with in Hq1 by by rewrite Hq. injection Hq1 as <-. rewrite Hf. by eapply Hw.
      * rewrite queue_at_with_ne in Hq1 by done. by eapply Hw.
    + unfold on_queue. rewrite (bind_done _ _ w q w); [|apply wp_exact; by eapply wp_get_queue].
      unfold bind, lift. by rewrite Hfq.
  - unfold queue_at in Hq. unfold on_queue, get_queue, get_endpoint, bind, get_mdb, gets.
    by destruct (endpoint_at _ _ _ _).
Qed.
End steady.
Lemma steady_get_mdb : steady get_mdb.
Proof. by intros w Hw. Qed.
Lemma steady_assert b : steady (c_assert b).
Proof. intros w Hw. by destruct b. Qed.
Lemma scan_fuel {A} (p : A → bool) l k i : c_scan p l k i ≠ Fault OutOfFuel.
Proof.
  revert i. induction k as [|k IH]; intros i; [done|]. change (c_scan p l (S k) i) with
    (match l !! i with None => Fault OutOfBounds | Some x => if p x then Done i else c_scan p l k (S i) end).
  destruct (l !! i); [|done]. by destruct (p _).
Qed.
Create HintDb steady.
#[export] Hint Resolve steady_ret steady_oob steady_assert steady_get_mdb scan_fuel : steady.
#[export] Hint Extern 1 (steady (raise _)) => by apply steady_raise : steady.
Ltac steady_step :=
  match goal with
  | |- steady (bind _ _) => apply steady_bind; [|intros ?]
  | |- steady (lift _) => apply steady_lift
  | |- steady (modify_mdb _) => apply steady_modify; done
  | |- steady (match ?x with _ => _ end) => destruct x
  | |- steady (let '_ := ?x in _) => destruct x
  end.
Ltac solve_steady := repeat (first [solve [auto with steady] | steady_step]).

Lemma steady_store l a : steady (store l a).
Proof.
  intros w Hw. unfold store, bind, get, lift, modify. destruct (store_bytes l a (w_mem w)) eqn:Hs; [done|].
  revert a Hs. generalize (w_mem w). induction l as [|b l IH]; intros m a; cbn; [done|].
  destruct (m !! a); [apply IH|by intros [= <-]].
Qed.
Lemma steady_get_endpoint d n e : steady (get_endpoint d n e).
Proof. unfold get_endpoint. solve_steady. Qed.
Lemma steady_get_mrequest r : steady (get_mrequest r).
Proof. unfold get_mrequest. solve_steady. Qed.
Lemma steady_get_buffer r : steady (get_buffer r).
Proof. unfold get_buffer. solve_steady. Qed.
#[export] Hint Resolve steady_store steady_get_endpoint steady_get_mrequest steady_get_buffer : steady.
Lemma steady_modify_mrequest r f : steady (modify_mrequest r f).
Proof. unfold modify_mrequest. solve_steady. Qed.
Lemma steady_modify_buffer r f : steady (modify_buffer r f).
Proof. unfold modify_buffer. solve_steady. Qed.
Lemma steady_get_queue d n e : steady (get_queue d n e).
Proof. unfold get_queue. solve_steady. Qed.
Lemma steady_decode h : steady (decode_endpoint h).
Proof. unfold decode_endpoint. solve_steady. Qed.
Lemma steady_decode_request r : steady (decode_request r).
Proof. unfold decode_request. solve_steady. Qed.
Lemma get_element_fuel q i : get_element q i ≠ Fault OutOfFuel.
Proof. unfold get_element. by destruct (_ !! _). Qed.
#[export] Hint Resolve steady_modify_mrequest steady_modify_buffer steady_get_queue steady_decode
  steady_decode_request get_element_fuel : steady.

(** Compacting ends: the head reaches the tail. *)
Lemma compact_loop_ends fuel q :
  (q_tail q < MCAPI_MAX_QUEUE_ENTRIES)%nat →
  (∃ i, (i < fuel)%nat ∧ ring_index (q_head q) i = q_tail q) →
  match compact_loop fuel q with Done q' => q_tail q' = q_tail q | Fault e => e ≠ OutOfFuel end.
Proof.
  revert q. induction fuel as [|fuel IH]; intros q Ht (i & Hi & Hr); [lia|]. cbn [compact_loop].
  destruct (Nat.eqb_spec (ring_index (q_head q) 0) (q_tail q)) as [|Hne]; [done|].
  pose proof (get_element_fuel q (ring_index (q_head q) 0)) as Hg.
  destruct (get_element q _) as [x|]; [|congruence].
  destruct (negb _ || negb _); [done|]. destruct i as [|i]; [done|].
  set (q1 := upd_element _ _ q <| q_head := _ |>). change (q_tail q) with (q_tail q1).
  apply IH; [done|]. exists i. split; [lia|]. cbn. rewrite <- Hr. unfold ring_index.
  rewrite Nat.Div0.add_mod_idemp_l. f_equal. lia.
Qed.
Lemma compact_queue_ends q :
  (q_tail q < MCAPI_MAX_QUEUE_ENTRIES)%nat →
  match mcapi_trans_compact_queue q with
  | Done (_, q') => q_tail q' = q_tail q
  | Fault e => e ≠ OutOfFuel
  end.
Proof.
  intros Ht. unfold mcapi_trans_compact_queue.
  assert (∃ i, (i < S MCAPI_MAX_QUEUE_ENTRIES)%nat ∧ ring_index (q_head q) i = q_tail q) as Hi.
  { rewrite ring_entries in *. exists ((q_tail q + (65 - q_head q mod 65)) mod 65)%nat.
    pose proof (Nat.mod_upper_bound (q_head q) 65). split.
    - pose proof (Nat.mod_upper_bound (q_tail q + (65 - q_head q mod 65)) 65). lia.
    - unfold ring_index. rewrite ring_entries, Nat.Div0.add_mod_idemp_r.
      rewrite <- Nat.Div0.add_mod_idemp_l.
      replace (q_head q mod 65 + (q_tail q + (65 - q_head q mod 65)))%nat with (q_tail q + 1 * 65)%nat by lia.
      rewrite Nat.Div0.mod_add. by apply Nat.mod_small. }
  pose proof (compact_loop_ends (S MCAPI_MAX_QUEUE_ENTRIES) q Ht Hi) as Hc.
  by destruct (compact_loop _ q) as [q'|]; [destruct (_ && _)|].
Qed.

(** ** Testing and waiting *)

Lemma inode_fuel i h : inode i h ≠ Fault OutOfFuel.
Proof. unfold inode, get_inode. destruct (_ && _); [|done]. by destruct (_ !! _). Qed.
Lemma set_inode_fuel i f h : set_inode i f h ≠ Fault OutOfFuel.
Proof.
  unfold set_inode, upd_inode, get_inode. destruct (_ && _); [|done]. by destruct (_ !! _).
Qed.
Lemma bind_fuel {S A B} (m : M S A) (k : A → M S B) s :
  m s ≠ Fault OutOfFuel → (∀ a s', k a s' ≠ Fault OutOfFuel) → bind m k s ≠ Fault OutOfFuel.
Proof. intros Hm Hk. unfold bind. destruct (m s) as [[a s']|]; [apply Hk|congruence]. Qed.
Lemma remove_request_fuel r h : mcapi_trans_remove_request_have_lock r h ≠ Fault OutOfFuel.
Proof.
  unfold mcapi_trans_remove_request_have_lock.
  repeat first
    [ done | apply inode_fuel | apply set_inode_fuel
    | match goal with
      | |- bind _ _ _ ≠ _ => apply bind_fuel; [|intros ? ?]
      | |- (if ?b then _ else _) _ ≠ _ => destruct b
      end ].
Qed.
Lemma scan_endpoints_fuel port nd : find_endpoint port nd ≠ Fault OutOfFuel.
Proof.
  unfold find_endpoint. pose proof (scan_fuel (λ ep, ep_valid ep && (ep_port_num ep =? port))
    (endpoints nd) (Z.to_nat (num_endpoints nd)) 0). destruct (c_scan _ _ _ _); [done|congruence].
Qed.
Lemma find_in_nodes_fuel node port nodes k n : find_in_nodes node port nodes k n ≠ Fault OutOfFuel.
Proof.
  revert n. induction k as [|k IH]; intros n; cbn [find_in_nodes]; [done|].
  destruct (nodes !! n) as [nd|]; [|done]. pose proof (scan_endpoints_fuel port nd).
  destruct (_ && _); [|apply IH]. destruct (find_endpoint _ _) as [[]|]; [done|apply IH|congruence].
Qed.
Lemma find_in_domains_fuel dom node port doms k d :
  find_in_domains dom node port doms k d ≠ Fault OutOfFuel.
Proof.
  revert d. induction k as [|k IH]; intros d; cbn [find_in_domains]; [done|].
  destruct (doms !! d) as [dm|]; [|done].
  pose proof (find_in_nodes_fuel node port (de_nodes dm) MCA_MAX_NODES 0).
  destruct (_ && _); [|apply IH]. destruct (find_in_nodes _ _ _ _ _) as [[[]|]|]; [done|apply IH|congruence].
Qed.
Lemma encode_fuel d n e : mcapi_trans_encode_handle d n e ≠ Fault OutOfFuel.
Proof. unfold mcapi_trans_encode_handle. by destruct (_ && _). Qed.
#[export] Hint Resolve find_in_domains_fuel encode_fuel : steady.

Lemma steady_upd d n e i f :
  steady (on_queue d n e (λ q, Done (tt, upd_element i f q))).
Proof. by apply steady_on_queue. Qed.
Lemma steady_remove d n e i : steady (on_queue d n e (remove_entry i)).
Proof.
  apply steady_on_queue. intros q Hq. unfold remove_entry.
  set (q1 := upd_element _ _ _). exact (compact_queue_ends q1 Hq).
Qed.
#[export] Hint Resolve steady_upd steady_remove : steady.
Lemma steady_recv_ buff_addr d n e buffer size i has_scalar :
  steady (mcapi_trans_recv_have_lock_ buff_addr d n e buffer size i has_scalar).
Proof. unfold mcapi_trans_recv_have_lock_. solve_steady. Qed.
#[export] Hint Resolve steady_recv_ : steady.
Lemma steady_check_receive buff_addr request :
  steady (check_receive_request_have_lock buff_addr request).
Proof. unfold check_receive_request_have_lock, find_request. solve_steady. Qed.
Lemma steady_check_get request : steady (check_get_endpt_request_have_lock request).
Proof.
  unfold check_get_endpt_request_have_lock, mcapi_trans_endpoint_get_have_lock. solve_steady.
Qed.
Lemma steady_check_open request : steady (check_open_channel_request_have_lock request).
Proof. unfold check_open_channel_request_have_lock. solve_steady. Qed.
Lemma steady_check_close request : steady (check_close_channel_request_have_lock request).
Proof. unfold check_close_channel_request_have_lock. solve_steady. Qed.
Lemma steady_remove_request r : steady (on_header (mcapi_trans_remove_request_have_lock r)).
Proof. apply steady_on_header. intros h. apply remove_request_fuel. Qed.
#[export] Hint Resolve steady_remove_request : steady.
#[export] Hint Resolve steady_check_receive steady_check_get steady_check_open steady_check_close : steady.
Lemma steady_test buff_addr request size st : steady (mcapi_trans_test_i buff_addr request size st).
Proof.
  unfold mcapi_trans_test_i. solve_steady.
Qed.

(** What a wait with a finite time-out can do: the test's answer, or
    [MCAPI_TIMEOUT]. *)
Lemma wait_loop_ends buff_addr between fuel k request size st timeout time w :
  (∀ k w, tails_ok w → tails_ok (between k w)) → tails_ok w →
  timeout ≠ MCA_INFINITE → 0 <= time < 2 ^ 32 - 1 → timeout < 2 ^ 32 → (0 < fuel)%nat →
  timeout - time <= Z.of_nat fuel →
  match mcapi_wait_loop buff_addr between fuel k request size st timeout time w with
  | Done ((rc, _, _, st'), w') => tails_ok w' ∧ (rc = false → st' = MCAPI_TIMEOUT)
  | Fault e => e ≠ OutOfFuel
  end.
Proof.
  intros Hb Hw Hinf. revert k request size st time w Hw.
  induction fuel as [|fuel IH]; intros k request size st time w Hw Htime Hto Hf Hfuel; [lia|].
  rewrite wait_loop_S. unfold bind at 1. pose proof (steady_test buff_addr request size st w Hw) as Ht.
  destruct (mcapi_trans_test_i _ _ _ _ w) as [[[[[rc rq] sz] st'] w1]|]; [|done]. cbv beta iota.
  destruct rc; [by split|]. rewrite u32_small by lia. unfold bind, modify. cbv beta iota.
  apply Z.eqb_neq in Hinf as Hne. rewrite Hne. cbn [negb andb].
  destruct (Z.leb_spec timeout (time + 1)); [split; [by apply Hb|done]|].
  destruct fuel as [|fuel]; [lia|]. apply IH; [by apply Hb|lia..].
Qed.

#[local] Transparent encode_request_handle mcapi_trans_decode_request_handle.

(** ** Blocking sends *)

(** C24: a blocking send between valid message endpoints.  When its first attempt
    finds two request entries free, [mcapi_msg_send] returns what
    [mcapi_trans_send_have_lock] does, a refusal as MCAPI_ERR_MEM_LIMIT, and
    leaves the database as that function does; the request it used in between
    is back in the free list, which is as it was.  When the first [k] attempts find
    every entry in use, and the next one two free, it reports MCAPI_ERR_MEM_LIMIT
    without having tried to send anything: what the other nodes left at the last
    yield is not changed but for the list of free requests. *)
Theorem blocking_send_is_direct buff_addr between fuel junk w wk k r f free used
    send_endpoint receive_endpoint sd sn se rd rn re buffer buffer_size priority :
  exhausted_for between k 0 w wk → (k < fuel)%nat → table wk r f free used →
  endpoint_ok send_endpoint sd sn se MCAPI_NO_CHAN w →
  endpoint_ok receive_endpoint rd rn re MCAPI_NO_CHAN w →
  mcapi_trans_valid_priority priority = true → buffer_size <= Z.of_nat MCAPI_MAX_MSG_SIZE →
  let sent := mcapi_msg_send buff_addr between fuel junk send_endpoint receive_endpoint buffer
    buffer_size priority w in
  match k, mcapi_trans_send_have_lock rd rn re buffer buffer_size 0 w with
  | O, Done (ok, w1) => ∃ h',
      sent = Done (if ok then MCAPI_SUCCESS else MCAPI_ERR_MEM_LIMIT, request_done r h' w w1) ∧
      header_wf h' (r :: f :: free) used
  | O, Fault e => sent = Fault e
  | S _, _ => ∃ h', sent = Done (MCAPI_ERR_MEM_LIMIT, request_done r h' wk wk) ∧
      header_wf h' (r :: f :: free) used
  end.
Proof.
  intros Hex Hfuel Ht Hs Hr Hprio Hsize. destruct k as [|k]; [|by eapply retried_send_loses].
  cbn in Hex. subst wk.
  exact (blocking_msg_send buff_addr between fuel junk w r f free used Ht Hfuel _ _ _ _ _ _ _ _ Hs Hr _ _ _ Hprio Hsize).
Qed.

Lemma fresh_send :
  ∃ ok w1, mcapi_trans_send_have_lock 0 0 1 100 3 0 fresh_world = Done (ok, w1).
Proof.
  destruct (box_send_bytes message 0 0 1 fresh_world zero_queue [] [] [] [7; 8; 9] 100 0)
    as (ok & w1 & Hs & _).
  - done.
  - apply filled_stores. unfold MCAPI_MAX_MSG_SIZE. cbn. lia.
  - apply fresh_box.
  - unfold MCAPI_MAX_MSG_SIZE. cbn. lia.
  - vm_compute. reflexivity.
  - by exists ok, w1.
Qed.
(** The world of the examples with every request entry in use. *)
Definition all_in_use (h : indexed_array_header) : indexed_array_header :=
  mk_iheader (ia_array h) (Z.of_nat MCAPI_MAX_REQUESTS) (max_count h) (-1) (empty_head_index h).
Lemma all_in_use_wf h free : header_wf h free [] → header_wf (all_in_use h) [] free.
Proof.
  intros [Hf _ He _ Hp Hl _]. rewrite app_nil_r in Hp.
  split; [done|exact Hf|done|exact He|exact Hp|exact Hl|]. by rewrite Hp, length_seq.
Qed.
Definition busy_world : world :=
  fresh_world <| w_db ::= λ db, db <| request_reserves_header ::= all_in_use |> |>.
Lemma busy_header : header_wf (header busy_world) [] (0%nat :: 1%nat :: seq 2 1022).
Proof. exact (all_in_use_wf _ _ fresh_header_wf). Qed.
Lemma busy_ok e : (e = 0 ∨ e = 1)%nat → endpoint_ok (Z.of_nat e) 0 0 e MCAPI_NO_CHAN busy_world.
Proof. intros He. destruct (fresh_ok e He) as [Hh Hep]. by split. Qed.

Lemma blocking_send_is_direct_witness :
  (∃ ok w1 h', mcapi_trans_send_have_lock 0 0 1 100 3 0 fresh_world = Done (ok, w1) ∧
    mcapi_msg_send (λ _, 0) (λ _ w, w) 1 0 0 1 100 3 0 fresh_world =
      Done (if ok : bool then MCAPI_SUCCESS else MCAPI_ERR_MEM_LIMIT, request_done 0 h' fresh_world w1)) ∧
  ∃ h', mcapi_msg_send (λ _, 0) (λ _ _, fresh_world) 2 0 0 1 100 3 0 busy_world =
    Done (MCAPI_ERR_MEM_LIMIT, request_done 0 h' fresh_world fresh_world).
Proof.
  split.
  - destruct fresh_send as (ok & w1 & Hs).
    pose proof (blocking_send_is_direct (λ _, 0) (λ _ w, w) 1 0 fresh_world fresh_world 0 0 1 (seq 2 1022) []
      0 1 0 0 0 0 0 1 100 3 0 eq_refl (le_n 1) fresh_table (fresh_ok 0 (or_introl eq_refl))
      (fresh_ok 1 (or_intror eq_refl)) eq_refl ltac:(unfold MCAPI_MAX_MSG_SIZE; lia)) as H.
    rewrite Hs in H. destruct H as (h' & H & _). by exists ok, w1, h'.
  - destruct (blocking_send_is_direct (λ _, 0) (λ _ _, fresh_world) 2 0 busy_world fresh_world 1 0 1 (seq 2 1022) []
      0 1 0 0 0 0 0 1 100 3 0 (conj (ex_intro _ _ busy_header) eq_refl) (le_n 2) fresh_table (busy_ok 0 (or_introl eq_refl))
      (busy_ok 1 (or_intror eq_refl)) eq_refl ltac:(unfold MCAPI_MAX_MSG_SIZE; lia)) as (h' & H & _).
    by exists h'.
Defined.

(** ** Errors of non-blocking calls *)

(** C21: an error found by a public non-blocking function.  With two request entries
    free it is reported by the request the function returns: the transport function
    does nothing else, the first test completes with that status, and then the
    database and the list of free requests are as before; [*mcapi_status] keeps the
    error too, but for the sends, which set it to MCAPI_SUCCESS.  With every entry
    in use the error is lost: the function changes nothing and reports
    MCAPI_ERR_REQUEST_LIMIT.  With one entry left it writes outside the list. *)
Theorem errors_reported_by_request buff_addr w sends op st rq :
  nonblocking sends op → st ≠ MCAPI_SUCCESS →
  (∀ r f free used, table w r f free used →
     ∃ w2, op rq st w = Done ((encode_request_handle r, if sends then MCAPI_SUCCESS else st), w2) ∧
       ∀ tsize tst, ∃ size h', mcapi_trans_test_i buff_addr (encode_request_handle r) tsize tst w2
           = Done ((true, 0, size, st), request_done r h' w w) ∧
         header_wf h' (r :: f :: free) used) ∧
  (∀ used, header_wf (header w) [] used → op rq st w = Done ((rq, MCAPI_ERR_REQUEST_LIMIT), w)) ∧
  (∀ r used, header_wf (header w) [r] used → op rq st w = Fault OutOfBounds).
Proof.
  intros Hop Hst. split; [|split]; [intros r f free used Ht; by eapply error_run|intros; by eapply nonblocking_exhausted
    |intros; by eapply nonblocking_last].
Qed.
Lemma errors_reported_by_request_witness :
  (∃ w2, mcapi_trans_msg_recv_i (λ _, 0) 0 200 3 0 MCAPI_ERR_ENDP_INVALID fresh_world
    = Done ((encode_request_handle 0, MCAPI_ERR_ENDP_INVALID), w2)) ∧
  mcapi_trans_msg_recv_i (λ _, 0) 0 200 3 7 MCAPI_ERR_ENDP_INVALID busy_world
    = Done ((7, MCAPI_ERR_REQUEST_LIMIT), busy_world).
Proof.
  split.
  - destruct (proj1 (errors_reported_by_request (λ _, 0) fresh_world false
      (mcapi_trans_msg_recv_i (λ _, 0) 0 200 3) MCAPI_ERR_ENDP_INVALID 0
      (nb_msg_recv _ _ _ _) ltac:(done)) 0%nat 1%nat (seq 2 1022) [] fresh_table) as (w2 & H & _).
    by exists w2.
  - exact (proj1 (proj2 (errors_reported_by_request (λ _, 0) busy_world false
      (mcapi_trans_msg_recv_i (λ _, 0) 0 200 3) MCAPI_ERR_ENDP_INVALID 7
      (nb_msg_recv _ _ _ _) ltac:(done))) _ busy_header).
Defined.

(** ** Waiting *)

(** C27: waiting with a finite time-out ends within [max(timeout, 1)]
    iterations, whatever the other nodes do in between as long as they keep
    the tails of the queues in range; it returns the test's answer, or
    MCAPI_FALSE with MCAPI_TIMEOUT (or an invalid handle). *)
Theorem wait_terminates buff_addr between fuel request size timeout w :
  (∀ k w, tails_ok w → tails_ok (between k w)) → tails_ok w →
  0 <= timeout < 2 ^ 32 → timeout ≠ MCA_INFINITE → Z.max timeout 1 <= Z.of_nat fuel →
  match mcapi_wait buff_addr between fuel request (Some size) timeout w with
  | Done ((rc, _, _, st), w') =>
      tails_ok w' ∧
      (rc = false → st = MCAPI_TIMEOUT ∨ st = MCAPI_ERR_REQUEST_INVALID)
  | Fault e => e ≠ OutOfFuel
  end.
Proof.
  intros Hb Hw Hto Hinf Hfuel. unfold mcapi_wait.
  destruct (mcapi_trans_valid_request_handle request); [|by split; [|right]]. cbn [negb].
  unfold mcapi_trans_wait, decode_request.
  destruct (mcapi_trans_decode_request_handle request); [|done].
  unfold bind at 1. unfold bind at 1. cbn [ret].
  pose proof (wait_loop_ends buff_addr between fuel 0 request size MCAPI_SUCCESS timeout 0 w Hb Hw Hinf
    ltac:(lia) ltac:(lia) ltac:(lia) ltac:(lia)) as H.
  destruct (mcapi_wait_loop _ _ _ _ _ _ _ _ _ w) as [[[[[rc rq] sz] st] w']|]; [|done].
  destruct H as [H1 H2]. split; [done|]. intros Hrc. left. by apply H2.
Qed.

Lemma bare_tails m : tails_ok (mk_world zero_mdb m).
Proof.
  intros d n e q. unfold queue_at, endpoint_at. cbn [w_db m_domains zero_mdb].
  intros (ep & Hep & ->)%fmap_Some.
  apply bind_Some in Hep as (dm & [-> _]%lookup_replicate & Hep).
  apply bind_Some in Hep as (nd & [-> _]%lookup_replicate & Hep).
  apply lookup_replicate in Hep as [-> _]. rewrite ring_entries. cbn. lia.
Qed.
Lemma wait_terminates_witness :
  match mcapi_wait (λ _, 0) (λ _ w, w) 3 0x80000000 (Some 0) 3 (mk_world zero_mdb ∅) with
  | Done ((rc, _, _, st), w') =>
      tails_ok w' ∧
      (rc = false → st = MCAPI_TIMEOUT ∨ st = MCAPI_ERR_REQUEST_INVALID)
  | Fault e => e ≠ OutOfFuel
  end.
Proof.
  apply (wait_terminates (λ _, 0) (λ _ w, w) 3 0x80000000 0 3 (mk_world zero_mdb ∅));
    [done|apply bare_tails|lia|done|cbn; lia].
Defined.

(** Waiting for any of several requests with a time-out of at most one
    iteration tests only the first of them, complete or not the others; and
    with no requests it never returns, whatever the time-out. *)
Theorem wait_any_short_timeout buff_addr between fuel request rest size timeout w w1 :
  0 <= timeout <= 1 → (0 < fuel)%nat →
  mcapi_trans_test_i buff_addr request size MCAPI_SUCCESS w
    = Done ((false, request, size, MCAPI_SUCCESS), w1) →
  mcapi_wait_any buff_addr between fuel (request :: rest) (Some size) timeout w
    = Done ((MCAPI_RETURN_VALUE_INVALID, request :: rest, Some size, MCAPI_TIMEOUT), between 0%nat w1) ∧
  (∀ fuel timeout, mcapi_wait_any buff_addr between fuel [] (Some size) timeout w = Fault OutOfFuel).
Proof.
  intros Hto Hf Htest. split.
  - unfold mcapi_wait_any. destruct fuel as [|fuel]; [lia|].
    rewrite (bind_done _ _ w (MCAPI_RETURN_VALUE_INVALID, request :: rest, size, MCAPI_TIMEOUT)
      (between 0%nat w1)); [done|].
    unfold mcapi_trans_wait_any. cbn [length]. unfold wait_any_round at 1.
    rewrite (bind_done _ _ w (Some (MCAPI_RETURN_VALUE_INVALID, request :: rest, size, MCAPI_TIMEOUT),
      size, MCAPI_SUCCESS) (between 0%nat w1)); [done|].
    erewrite bind_done by done. rewrite (bind_done _ _ _ _ _ Htest). cbv beta iota.
    erewrite bind_done by done. change (u32 (0 + 1)) with 1.
    assert (negb (timeout =? MCA_INFINITE) && (timeout <=? 1) = true) as ->; [|done].
    unfold MCA_INFINITE. destruct (Z.eqb_spec timeout 0xffffffff); [lia|]. cbn [negb andb]. apply Z.leb_le. lia.
  - intros fuel' timeout'. unfold mcapi_wait_any.
    enough (∀ k time, mcapi_trans_wait_any buff_addr between fuel' k [] size MCAPI_SUCCESS timeout' time w
      = Fault OutOfFuel) as H by by apply bind_fault.
    induction fuel' as [|fuel' IH]; intros k time; [done|].
    change (mcapi_trans_wait_any buff_addr between fuel' (k + 0) [] size MCAPI_SUCCESS timeout'
      (u32 (time + 1)) w = Fault OutOfFuel). apply IH.
Qed.

(** Request 0 is pending, request 1 complete. *)
Definition two_requests : world :=
  with_request 0 (λ _, zero_mrequest <| rq_valid := true |> <| rq_type := SEND |>)
    (with_request 1 (λ _, zero_mrequest <| rq_valid := true |> <| rq_type := SEND |>
       <| rq_completed := true |>) (mk_world zero_mdb ∅)).
Lemma wait_any_short_timeout_witness :
  mcapi_wait_any (λ _, 0) (λ _ w, w) 1 [0x80000000; 0x80000001] (Some 0) 1 two_requests
    = Done ((MCAPI_RETURN_VALUE_INVALID, [0x80000000; 0x80000001], Some 0, MCAPI_TIMEOUT), two_requests).
Proof.
  refine (proj1 (wait_any_short_timeout (λ _, 0) (λ _ w, w) 1 0x80000000 [0x80000001] 0 1
    two_requests two_requests _ _ _)); [lia|lia|reflexivity].
Defined.
