(* ===== verification/McapiChannelTheorems.v ===== *)
(** Channels: connecting and opening them, streams of scalars, and the life of
    a packet from send to release. *)

From S2P Require Import Prelude Bytes McapiTypes McapiQueue McapiRequests McapiTransport McapiMessages McapiChannels McapiCheck McapiNodes McapiApi McapiRequestList McapiRing McapiQueueSpec McapiFifo McapiAccess McapiMailbox McapiBlocking McapiChannelSpec.

#[local] Opaque MCAPI_MAX_QUEUE_ENTRIES MCAPI_MAX_QUEUE_ELEMENTS MCAPI_MAX_BUFFERS.

(** ** Connecting *)

(** Connecting two distinct valid endpoints that are not connected
    succeeds for both types of channel, and the request it returns completes
    with MCAPI_SUCCESS; when no message was waiting at the receive endpoint, an
    empty channel then leads from one to the other, and the table of requests
    is as before. *)
Theorem connect_makes_channel buff_addr w r f free used sh rh sd sn se rd rn re request :
  table w r f free used → unconnected sh sd sn se w → unconnected rh rd rn re w →
  (sd, sn, se) ≠ (rd, rn, re) → mails rd rn re w [] →
  let links {T} (c : contents T) (w2 : world) := ∀ size st, ∃ w3,
    mcapi_trans_test_i buff_addr (encode_request_handle r) size st w2
      = Done ((true, 0, 0, MCAPI_SUCCESS), w3) ∧
    table w3 r f free used ∧ channel c sh rh sd sn se rd rn re w3 [] in
  (∃ w2, mcapi_pktchan_connect_i sh rh request w
      = Done ((encode_request_handle r, MCAPI_SUCCESS), w2) ∧ links packet w2) ∧
  (∃ w2, mcapi_sclchan_connect_i sh rh (Some request) w
      = Done ((Some (encode_request_handle r), MCAPI_SUCCESS), w2) ∧ links scalar w2).
Proof.
  intros Ht Hs Hr Hne Hm links.
  destruct (connect_run sh rh sd sn se rd rn re MCAPI_PKT_CHAN w Hs Hr Hne packet buff_addr r f free used
    CONN_PKTCHAN request) as (wp & Hp & Hlp); [done..|].
  destruct (connect_run sh rh sd sn se rd rn re MCAPI_SCL_CHAN w Hs Hr Hne scalar buff_addr r f free used
    CONN_SCLCHAN request) as (ws & Hsc & Hls); [done..|].
  split; [exists wp|exists ws]; (split; [|intros size st;
    destruct (Hlp size st) as (wp' & Htp & _ & _ & Htbp & Hchp);
    destruct (Hls size st) as (ws' & Hts & _ & _ & Htbs & Hchs); eexists; by split_and!]).
  - exact Hp.
  - unfold mcapi_sclchan_connect_i, with_request_param. by rewrite (bind_done _ _ _ _ _ Hsc).
Qed.
Lemma connect_makes_channel_witness :
  ∃ w2, mcapi_sclchan_connect_i 0 1 (Some 0) fresh_world
    = Done ((Some (encode_request_handle 0), MCAPI_SUCCESS), w2).
Proof.
  destruct (connect_makes_channel (λ _, 0) fresh_world 0 1 (seq 2 1022) [] 0 1 0 0 0 0 0 1 0 fresh_table
    (fresh_unconnected 0 (or_introl eq_refl)) (fresh_unconnected 1 (or_intror eq_refl)) ltac:(done)
    (ex_intro _ zero_queue (ex_intro _ [] (ex_intro _ [] fresh_box)))) as [_ (w2 & H & _)].
  by exists w2.
Defined.

(** ** Streams of scalars *)

(** The four functions of each direction. *)
Inductive width := W8 | W16 | W32 | W64.
Definition bytes_of (k : width) : Z := match k with W8 => 1 | W16 => 2 | W32 => 4 | W64 => 8 end.
Definition truncate (k : width) (v : Z) : Z := v mod 2 ^ (8 * bytes_of k).
Definition send_word (k : width) : Z → Z → M world Z :=
  match k with
  | W8 => mcapi_sclchan_send_uint8
  | W16 => mcapi_sclchan_send_uint16
  | W32 => mcapi_sclchan_send_uint32
  | W64 => mcapi_sclchan_send_uint64
  end.
Definition recv_word (buff_addr : nat → Z) (between : nat → world → world) (fuel : nat)
    (k : width) : Z → M world (Z * Z) :=
  match k with
  | W8 => mcapi_sclchan_recv_uint8 buff_addr between fuel
  | W16 => mcapi_sclchan_recv_uint16 buff_addr between fuel
  | W32 => mcapi_sclchan_recv_uint32 buff_addr between fuel
  | W64 => mcapi_sclchan_recv_uint64 buff_addr between fuel
  end.

(** Send all the words; the statuses. *)
Fixpoint send_words (sh : Z) (l : list (width * Z)) : M world (list Z) :=
  match l with
  | [] => ret []
  | (k, v) :: l' =>
      let* st := send_word k sh v in
      let* sts := send_words sh l' in
      ret (st :: sts)
  end.
(** Receive words of the given widths; the words with their statuses. *)
Fixpoint recv_words (buff_addr : nat → Z) (between : nat → world → world) (fuel : nat)
    (rh : Z) (ks : list width) : M world (list (Z * Z)) :=
  match ks with
  | [] => ret []
  | k :: ks' =>
      let* x := recv_word buff_addr between fuel k rh in
      let* xs := recv_words buff_addr between fuel rh ks' in
      ret (x :: xs)
  end.

Section stream.
Context (sh rh : Z) (sd sn se rd rn re : nat).
#[local] Abbreviation scalars := (channel scalar sh rh sd sn se rd rn re).

(** What is sent for a word. *)
Definition item (x : width * Z) : Z * Z := (bytes_of x.1, truncate x.1 x.2).

Lemma truncate_twice k v : truncate k (truncate k v) = truncate k v.
Proof. unfold truncate. by rewrite Z.mod_mod by by destruct k. Qed.
Lemma send_word_run k v w items :
  scalars w items →
  ∃ ok w', send_word k sh v w = Done (send_status ok, w') ∧
    scalars w' (if ok then items ++ [item (k, v)] else items) ∧ (ok = false → no_room_at rd rn re w).
Proof.
  intros Hch. destruct (sclchan_send_run _ _ _ _ _ _ _ _ w items (bytes_of k) (truncate k v) Hch)
    as (ok & w' & Hrun & _ & Hch'). exists ok, w'. split; [|done]. by destruct k.
Qed.
Lemma recv_word_run buff_addr between fuel k w size v items :
  scalars w ((size, v) :: items) → (0 < fuel)%nat → (k = W64 → truncate W64 v = v) →
  ∃ w', recv_word buff_addr between fuel k rh w
      = Done ((truncate k v, if size =? bytes_of k then MCAPI_SUCCESS else MCAPI_ERR_SCL_SIZE), w') ∧
    scalars w' items.
Proof.
  intros Hch Hf H64.
  destruct (sclchan_recv_run sh rh sd sn se rd rn re buff_addr between fuel
    (match k with W64 => λ z, z | _ => truncate k end) (bytes_of k) w size v items Hch Hf)
    as (w' & Hrun & _ & Hch'). exists w'. split; [|done]. destruct k; [exact Hrun..|].
  rewrite H64 by done. exact Hrun.
Qed.

Lemma send_words_run l w items sts w1 :
  scalars w items → send_words sh l w = Done (sts, w1) →
  Forall (λ st, st = MCAPI_SUCCESS) sts → scalars w1 (items ++ (item <$> l)).
Proof.
  revert w items sts. induction l as [|[k v] l IH]; intros w items sts Hch Hrun Hall.
  - injection Hrun as <- <-. by rewrite app_nil_r.
  - cbn [send_words] in Hrun. destruct (send_word_run k v w items Hch) as (ok & w2 & Hs & Hch2 & _).
    rewrite (bind_done _ _ _ _ _ Hs) in Hrun. apply bind_inv in Hrun as (sts' & w3 & Hl & Hret).
    injection Hret as <- <-. apply Forall_cons in Hall as [Hst Hall].
    destruct ok; [|done]. rewrite fmap_cons, cons_middle, app_assoc. by eapply IH.
Qed.
Lemma recv_words_run buff_addr between fuel l w :
  scalars w (item <$> l) → (0 < fuel)%nat →
  ∃ w', recv_words buff_addr between fuel rh (fst <$> l) w
      = Done ((λ x, (truncate x.1 x.2, MCAPI_SUCCESS)) <$> l, w') ∧ scalars w' [].
Proof.
  intros Hch Hf. revert w Hch. induction l as [|[k v] l IH]; intros w Hch; [by exists w|].
  destruct (recv_word_run buff_addr between fuel k w (bytes_of k) (truncate k v) _ Hch Hf)
    as (w1 & Hr & Hch1); [intros ->; apply truncate_twice|].
  destruct (IH w1 Hch1) as (w2 & Hrs & Hch2). exists w2. split; [|done].
  rewrite Z.eqb_refl, truncate_twice in Hr. rewrite !fmap_cons.
  unfold recv_words at 1. fold recv_words. rewrite (bind_done _ _ _ _ _ Hr).
  by rewrite (bind_done _ _ _ _ _ Hrs).
Qed.
End stream.

(** C22: a scalar channel delivers the words of any width in order: when every
    send of a sequence succeeds, receiving with the same widths yields the
    words, each reduced to its width, with MCAPI_SUCCESS, and leaves the
    channel empty. *)
Theorem scalar_stream_roundtrip buff_addr between fuel sh rh sd sn se rd rn re w l sts w1 :
  channel scalar sh rh sd sn se rd rn re w [] → (0 < fuel)%nat →
  send_words sh l w = Done (sts, w1) → Forall (λ st, st = MCAPI_SUCCESS) sts →
  ∃ w2, recv_words buff_addr between fuel rh (fst <$> l) w1
      = Done ((λ x, (truncate x.1 x.2, MCAPI_SUCCESS)) <$> l, w2) ∧
    channel scalar sh rh sd sn se rd rn re w2 [].
Proof.
  intros Hch Hf Hs Hall. eapply recv_words_run; [|done].
  by apply (send_words_run _ _ _ _ _ _ _ _ _ _ _ _ _ Hch Hs).
Qed.

Lemma linked_send_words :
  ∃ w1, send_words 0 [(W16, 70000)] (linked_world MCAPI_SCL_CHAN) = Done ([MCAPI_SUCCESS], w1).
Proof.
  destruct (send_word_run 0 1 0 0 0 0 0 1 W16 70000 (linked_world MCAPI_SCL_CHAN) [] (linked_channel scalar))
    as (ok & w1 & Hs & _ & Hno). destruct ok; [|by destruct (linked_room _ (Hno eq_refl))].
  exists w1. unfold send_words. by rewrite (bind_done _ _ _ _ _ Hs).
Qed.
Lemma scalar_stream_roundtrip_witness :
  ∃ w1 w2, send_words 0 [(W16, 70000)] (linked_world MCAPI_SCL_CHAN) = Done ([MCAPI_SUCCESS], w1) ∧
    recv_words (λ _, 0) (λ _ w, w) 1 1 [W16] w1 = Done ([(4464, MCAPI_SUCCESS)], w2).
Proof.
  destruct linked_send_words as (w1 & Hs).
  destruct (scalar_stream_roundtrip (λ _, 0) (λ _ w, w) 1 0 1 0 0 0 0 0 1 (linked_world MCAPI_SCL_CHAN)
    [(W16, 70000)] [MCAPI_SUCCESS] w1 (linked_channel scalar) (le_n 1) Hs) as (w2 & Hr & _);
    [by constructor|]. by exists w1, w2.
Defined.

(** Receiving a scalar of another size reports MCAPI_ERR_SCL_SIZE, and the
    word is lost: it is no longer in the channel. *)
Theorem scalar_size_mismatch_loses_word buff_addr between fuel sh rh sd sn se rd rn re w k size v items :
  channel scalar sh rh sd sn se rd rn re w ((size, v) :: items) → (0 < fuel)%nat →
  size ≠ bytes_of k → 0 <= v < 2 ^ 64 →
  ∃ w', recv_word buff_addr between fuel k rh w = Done ((truncate k v, MCAPI_ERR_SCL_SIZE), w') ∧
    channel scalar sh rh sd sn se rd rn re w' items.
Proof.
  intros Hch Hf Hs Hv.
  destruct (recv_word_run sh rh sd sn se rd rn re buff_addr between fuel k w size v items Hch Hf)
    as (w' & Hr & Hch'); [intros _; by apply Z.mod_small|].
  apply Z.eqb_neq in Hs. rewrite Hs in Hr. by exists w'.
Qed.

Lemma scalar_size_mismatch_loses_word_witness :
  ∃ w1 w2, send_words 0 [(W16, 70000)] (linked_world MCAPI_SCL_CHAN) = Done ([MCAPI_SUCCESS], w1) ∧
    mcapi_sclchan_recv_uint8 (λ _, 0) (λ _ w, w) 1 1 w1 = Done ((112, MCAPI_ERR_SCL_SIZE), w2).
Proof.
  destruct linked_send_words as (w1 & Hs).
  assert (channel scalar 0 1 0 0 0 0 0 1 w1 [(2, 4464)]) as Hch.
  { by apply (send_words_run _ _ _ _ _ _ _ _ _ _ _ _ _ (linked_channel scalar) Hs); constructor. }
  destruct (scalar_size_mismatch_loses_word (λ _, 0) (λ _ w, w) 1 0 1 0 0 0 0 0 1 w1 W8 2 4464 []
    Hch (le_n 1)) as (w2 & Hr & _); [done|done|]. by exists w1, w2.
Defined.

(** ** The life of a packet *)

(** C23: a packet sent on an empty channel is received as it was sent: the
    receiver gets the address of a buffer that holds its bytes; releasing the
    address frees that buffer and leaves the channel empty, and releasing it
    again is refused. *)
Theorem packet_roundtrip buff_addr between fuel junk sh rh sd sn se rd rn re w r f free used bytes
    buffer w1 ptr rsize :
  (∀ i j, (i < MCAPI_MAX_BUFFERS)%nat → (j < MCAPI_MAX_BUFFERS)%nat →
     buff_addr i = buff_addr j → i = j) →
  table w r f free used → (0 < fuel)%nat → channel packet sh rh sd sn se rd rn re w [] →
  (length bytes <= MCAPI_MAX_PKT_SIZE)%nat → load_bytes (length bytes) buffer (w_mem w) = Done bytes →
  mcapi_pktchan_send buff_addr between fuel junk sh buffer (Z.of_nat (length bytes)) w
    = Done (MCAPI_SUCCESS, w1) →
  ptr ≠ 0 → (∀ i, 0 <= i < 8 → is_Some (w_mem w !! (ptr + i))) →
  ∃ i b w2, mcapi_pktchan_recv buff_addr between fuel junk rh ptr rsize w1
      = Done ((Z.of_nat (length bytes), MCAPI_SUCCESS), w2) ∧
    load_bytes 8 ptr (w_mem w2) = Done (le_bytes 8 (buff_addr i)) ∧
    buffers w2 !! i = Some b ∧ take (length bytes) (b_buff b) = bytes ∧
    ∃ w3, mcapi_pktchan_release buff_addr (buff_addr i) w2 = Done (MCAPI_SUCCESS, w3) ∧
      buffers w3 !! i = Some zero_buffer ∧ channel packet sh rh sd sn se rd rn re w3 [] ∧
      mcapi_pktchan_release buff_addr (buff_addr i) w3 = Done (MCAPI_ERR_BUF_INVALID, w3).
Proof.
  intros Hinj Ht Hf Hch Hlen Hload Hsend Hptr Hmem.
  destruct (pktchan_send_run buff_addr between fuel junk Hf sh rh sd sn se rd rn re w r f free used []
    bytes buffer Ht Hch Hlen eq_refl Hload) as (ok & w1' & Hs & Hm & Ht1 & Hch1 & _).
  rewrite Hs in Hsend. injection Hsend as Hok ->. destruct ok; [|done].
  destruct (pktchan_recv_run buff_addr between fuel junk Hf sh rh sd sn se rd rn re w1 r f free used bytes
    [] ptr rsize Ht1 Hch1 Hlen Hptr) as (i & w2 & q & ws & ids & Hr & Hl & Hi & Hni & Hbox & Ht2 & Hch2);
    [by rewrite Hm|].
  pose proof (in_buffer_range _ _ _ _ (bx_buffers _ _ _ _ _ _ _ _ _ Hbox) Hi) as Hir.
  destruct Hi as (b & Hb & Hmag & _ & Htake & _).
  pose proof (release_run buff_addr Hinj w2 i b Hb Hir) as Hrel. rewrite Hmag in Hrel.
  exists i, b, w2. split_and!; try done. eexists. split; [exact Hrel|].
  assert (buffers (with_buffers (alter (λ _, zero_buffer) i) w2) !! i = Some zero_buffer) as Hz.
  { autorewrite with world. by rewrite list_lookup_alter_eq, Hb. }
  split; [done|]. split.
  - destruct Hch2 as [H1 H2 H3 H4 _]. split; try done. exists q, ws, ids.
    destruct Hbox as [B1 B2 B3 B4 B5 B6 B7]. split; try done.
    + autorewrite with world. by apply in_buffer_others.
    + autorewrite with world. by apply alter_buffers_wf; [apply zero_buffer_length|].
  - by rewrite (release_run buff_addr Hinj _ i zero_buffer Hz Hir).
Qed.

Lemma linked_send_packet :
  ∃ w1, mcapi_pktchan_send Z.of_nat (λ _ w, w) 1 0 0 100 3 (linked_world MCAPI_PKT_CHAN)
    = Done (MCAPI_SUCCESS, w1).
Proof.
  destruct (pktchan_send_run Z.of_nat (λ _ w, w) 1 0 (le_n 1) 0 1 0 0 0 0 0 1 (linked_world MCAPI_PKT_CHAN)
    0 1 (seq 2 1022) [] [] [7; 8; 9] 100 (linked_table _) (linked_channel packet))
    as (ok & w1 & Hs & _ & _ & _ & Hno); [apply Nat.leb_le; vm_compute; reflexivity|reflexivity|vm_compute; reflexivity|].
  destruct ok; [|by destruct (linked_room _ (Hno eq_refl))]. by exists w1.
Qed.
Lemma fresh_pointer i : 0 <= i < 8 → is_Some (fresh_mem !! (300 + i)).
Proof.
  intros Hi. assert (i ∈ Z.of_nat <$> seq 0 8) as Hin.
  { apply list_elem_of_fmap. exists (Z.to_nat i). split; [lia|]. apply elem_of_seq. lia. }
  clear Hi. revert i Hin. apply Forall_forall. vm_compute. repeat constructor; by eexists.
Qed.
Lemma packet_roundtrip_witness :
  ∃ w1 i w2 w3,
    mcapi_pktchan_send Z.of_nat (λ _ w, w) 1 0 0 100 3 (linked_world MCAPI_PKT_CHAN)
      = Done (MCAPI_SUCCESS, w1) ∧
    mcapi_pktchan_recv Z.of_nat (λ _ w, w) 1 0 1 300 0 w1 = Done ((3, MCAPI_SUCCESS), w2) ∧
    load_bytes 8 300 (w_mem w2) = Done (le_bytes 8 (Z.of_nat i)) ∧
    mcapi_pktchan_release Z.of_nat (Z.of_nat i) w2 = Done (MCAPI_SUCCESS, w3).
Proof.
  destruct linked_send_packet as (w1 & Hs).
  destruct (packet_roundtrip Z.of_nat (λ _ w, w) 1 0 0 1 0 0 0 0 0 1 (linked_world MCAPI_PKT_CHAN)
    0 1 (seq 2 1022) [] [7; 8; 9] 100 w1 300 0 ltac:(intros i j _ _; apply Nat2Z.inj) (linked_table _)
    (le_n 1) (linked_channel packet)) as (i & b & w2 & Hr & Hl & _ & _ & w3 & Hrel & _).
  - apply Nat.leb_le. vm_compute. reflexivity.
  - vm_compute. reflexivity.
  - exact Hs.
  - done.
  - apply fresh_pointer.
  - exists w1, i, w2, w3. split_and!; done.
Defined.
