(* ===== verification/McapiMessageTheorems.v ===== *)
(** Messages between endpoints: what is sent is received, byte for byte and in
    order, and the handles of endpoints and requests. *)

From S2P Require Import Prelude Bytes McapiTypes McapiQueue McapiRequests McapiTransport McapiRing McapiQueueSpec McapiFifo McapiAccess McapiMailbox.

#[local] Opaque MCAPI_MAX_QUEUE_ENTRIES MCAPI_MAX_QUEUE_ELEMENTS.

(** ** A concrete endpoint *)

(** Zeroed shared memory, and a process with the bytes 7, 8, 9 at address 100
    and room for three bytes at address 200. *)
Definition example_mem : gmap Z Z :=
  list_to_map [(100, 7); (101, 8); (102, 9); (200, 0); (201, 0); (202, 0)].
Definition example_world : world := mk_world zero_mdb example_mem.

Lemma zero_buffers_wf : buffers_wf (buffers example_world).
Proof. split; [apply length_replicate|]. apply Forall_replicate, length_replicate. Qed.
Lemma example_mailbox : mailbox 0 0 0 example_world zero_queue [] [] [].
Proof.
  split; [|apply ring_zero|done|done|apply NoDup_nil_2|constructor|apply zero_buffers_wf].
  reflexivity.
Qed.
Lemma example_mails : mails 0 0 0 example_world [].
Proof. exists zero_queue, [], []. exact example_mailbox. Qed.

(** There is room for a message. *)
Lemma example_room :
  ¬ (mcapi_trans_full_queue zero_queue = true ∨
     Forall (λ b, b_magic_num b ≠ 0) (buffers example_world)).
Proof.
  intros [H|H]; [by vm_compute in H|]. rewrite Forall_lookup in H.
  apply (H 0%nat zero_buffer); [|done]. apply lookup_replicate_2. unfold MCAPI_MAX_BUFFERS. lia.
Qed.

(** ** Sending and receiving *)

(** C18: sending to an endpoint appends the message to the ones waiting there
    and leaves user memory alone, or changes no message when it is refused;
    it is refused only when the queue is full or no buffer is free.  It never
    fails. *)
Theorem send_appends_message d n e w q ws ids msgs bytes buffer scalar :
  mailbox d n e w q ws ids msgs → (length bytes <= MCAPI_MAX_MSG_SIZE)%nat →
  load_bytes (length bytes) buffer (w_mem w) = Done bytes →
  ∃ ok w', mcapi_trans_send_have_lock d n e buffer (Z.of_nat (length bytes)) scalar w
             = Done (ok, w') ∧
    w_mem w' = w_mem w ∧ mails d n e w' (if ok then msgs ++ [bytes] else msgs) ∧
    (ok = false →
       mcapi_trans_full_queue q = true ∨ Forall (λ b, b_magic_num b ≠ 0) (buffers w)).
Proof. apply mailbox_send. Qed.

Lemma send_appends_message_witness :
  load_bytes 3 100 (w_mem example_world) = Done [7; 8; 9] ∧
  ∃ ok w', mcapi_trans_send_have_lock 0 0 0 100 3 0 example_world = Done (ok, w') ∧
    mails 0 0 0 w' (if ok then [[7; 8; 9]] else []).
Proof.
  split; [vm_compute; reflexivity|].
  destruct (send_appends_message 0 0 0 example_world zero_queue [] [] [] [7; 8; 9] 100 0
    example_mailbox) as (ok & w' & Hrun & _ & Hm & _);
    [unfold MCAPI_MAX_MSG_SIZE; cbn; lia|vm_compute; reflexivity|].
  exists ok, w'. by split.
Defined.

(** C19: a receive takes the first waiting message: it reports the message's
    length, copies as much of it as the user's buffer takes and frees the
    mcapi buffer; without a message it changes nothing. *)
Theorem receive_takes_first_message buff_addr d n e w q ws ids msgs buffer buffer_size :
  mailbox d n e w q ws ids msgs → 0 <= buffer_size →
  match msgs with
  | [] => mcapi_trans_recv_have_lock buff_addr d n e buffer buffer_size false w = Done (None, w)
  | msg :: msgs' =>
      ∀ mem, store_bytes (take (Z.to_nat buffer_size) msg) buffer (w_mem w) = Done mem →
      ∃ w', mcapi_trans_recv_have_lock buff_addr d n e buffer buffer_size false w
              = Done (Some (Z.of_nat (length msg), buffer, None), w') ∧
        w_mem w' = mem ∧ mails d n e w' msgs'
  end.
Proof.
  intros Hm Hpos. destruct msgs as [|msg msgs'].
  - by eapply (box_recv_empty message).
  - intros mem Hs. by eapply mailbox_recv.
Qed.

Lemma receive_takes_first_message_witness :
  mcapi_trans_recv_have_lock (λ _, 0) 0 0 0 200 3 false example_world = Done (None, example_world).
Proof.
  exact (receive_takes_first_message (λ _, 0) 0 0 0 example_world zero_queue [] [] [] 200 3
    example_mailbox ltac:(lia)).
Defined.

(** C16: a message sent to an endpoint where none waits is received as it was
    sent, whatever is done to the user's memory in between: the receiver's
    buffer then holds its bytes, and the endpoint is empty again. *)
Theorem message_roundtrip buff_addr d n e w bytes buffer scalar w1 mem buffer' size' :
  mails d n e w [] → (length bytes <= MCAPI_MAX_MSG_SIZE)%nat →
  load_bytes (length bytes) buffer (w_mem w) = Done bytes →
  mcapi_trans_send_have_lock d n e buffer (Z.of_nat (length bytes)) scalar w = Done (true, w1) →
  Z.of_nat (length bytes) <= size' →
  (∀ i, 0 <= i < Z.of_nat (length bytes) → is_Some (mem !! (buffer' + i))) →
  ∃ w2, mcapi_trans_recv_have_lock buff_addr d n e buffer' size' false (with_mem mem w1)
          = Done (Some (Z.of_nat (length bytes), buffer', None), w2) ∧
    load_bytes (length bytes) buffer' (w_mem w2) = Done bytes ∧ mails d n e w2 [].
Proof.
  intros (q & ws & ids & Hm) Hlen Hload Hrun Hsize Hmem.
  destruct (mailbox_send _ _ _ _ _ _ _ _ _ _ scalar Hm Hlen Hload)
    as (ok & w1' & Hrun' & _ & (q1 & ws1 & ids1 & Hm1) & _).
  rewrite Hrun in Hrun'. injection Hrun' as <- <-.
  destruct (store_bytes_ok bytes buffer' mem Hmem) as [mem' Hstore].
  assert (mailbox d n e (with_mem mem w1) q1 ws1 ids1 [bytes]) as Hm2 by (destruct Hm1; by split).
  destruct (mailbox_recv buff_addr _ _ _ _ _ _ _ _ _ buffer' size' mem' Hm2)
    as (w2 & Hrecv & <- & Hm'); [lia|by rewrite take_ge by lia|].
  exists w2. split_and!; [done| |done]. by eapply load_store_bytes.
Qed.

Lemma message_roundtrip_witness :
  ∃ w1 w2, mcapi_trans_send_have_lock 0 0 0 100 3 0 example_world = Done (true, w1) ∧
    mcapi_trans_recv_have_lock (λ _, 0) 0 0 0 200 3 false (with_mem example_mem w1)
      = Done (Some (3, 200, None), w2) ∧
    load_bytes 3 200 (w_mem w2) = Done [7; 8; 9].
Proof.
  destruct (mailbox_send _ _ _ _ _ _ _ _ [7; 8; 9] 100 0 example_mailbox)
    as (ok & w1 & Hs & _ & _ & Hrefused);
    [unfold MCAPI_MAX_MSG_SIZE; cbn; lia|vm_compute; reflexivity|].
  destruct ok; [|by destruct (example_room (Hrefused eq_refl))].
  destruct (message_roundtrip (λ _, 0) 0 0 0 example_world [7; 8; 9] 100 0 w1 example_mem 200 3)
    as (w2 & Hr & Hl & _); [exact example_mails|unfold MCAPI_MAX_MSG_SIZE; cbn; lia
    |vm_compute; reflexivity|exact Hs|cbn; lia| |].
  - intros i Hi. cbn in Hi. assert (i = 0 ∨ i = 1 ∨ i = 2) as [->|[-> | ->]] by lia;
      vm_compute; by eexists.
  - exists w1, w2. by split_and!.
Defined.

(** ** Handles *)

(** Every index triple in range, as a number. *)
Lemma encode_all :
  forallb (λ d, forallb (λ n, forallb (λ e,
    match mcapi_trans_encode_handle d n e with
    | Done h => h =? Z.of_nat d * 65536 + Z.of_nat n * 256 + Z.of_nat e
    | Fault _ => false
    end) (seq 0 MCAPI_MAX_ENDPOINTS)) (seq 0 MCA_MAX_NODES)) (seq 0 MCA_MAX_DOMAINS) = true.
Proof. vm_compute. reflexivity. Qed.
Lemma encode_handle_value d n e :
  (d < MCA_MAX_DOMAINS)%nat → (n < MCA_MAX_NODES)%nat → (e < MCAPI_MAX_ENDPOINTS)%nat →
  mcapi_trans_encode_handle d n e = Done (Z.of_nat d * 65536 + Z.of_nat n * 256 + Z.of_nat e).
Proof.
  intros Hd Hn He. pose proof encode_all as Hall.
  rewrite forallb_forall in Hall. specialize (Hall d ltac:(apply in_seq; lia)).
  rewrite forallb_forall in Hall. specialize (Hall n ltac:(apply in_seq; lia)).
  rewrite forallb_forall in Hall. specialize (Hall e ltac:(apply in_seq; lia)).
  destruct (mcapi_trans_encode_handle d n e); [|done]. apply Z.eqb_eq in Hall. by subst.
Qed.

Lemma land_byte h : Z.land h 255 = h mod 256.
Proof. change 255 with (Z.ones 8). by rewrite Z.land_ones. Qed.
Lemma decode_handle_value h :
  mcapi_trans_decode_handle h =
  let d := Z.to_nat (h / 65536 mod 256) in
  let n := Z.to_nat (h / 256 mod 256) in
  let e := Z.to_nat (h mod 256) in
  (d, n, e, (d <? MCA_MAX_DOMAINS)%nat && (n <? MCA_MAX_NODES)%nat
            && (e <? MCAPI_MAX_ENDPOINTS)%nat).
Proof.
  unfold mcapi_trans_decode_handle. rewrite !Z.shiftr_land.
  change (Z.shiftr 0x00ff0000 16) with 255. change (Z.shiftr 0x0000ff00 8) with 255.
  change 0x000000ff with 255. rewrite !land_byte, !Z.shiftr_div_pow2 by done. done.
Qed.

(** Endpoint handles: encoding indices in range yields a 24-bit handle
    that decodes to them, out of range it asserts; and a 24-bit handle that
    decodes successfully is the encoding of what it decodes to. *)
Theorem endpoint_handle_roundtrip :
  (∀ d n e,
     if (d <? MCA_MAX_DOMAINS)%nat && (n <? MCA_MAX_NODES)%nat && (e <? MCAPI_MAX_ENDPOINTS)%nat
     then ∃ h, mcapi_trans_encode_handle d n e = Done h ∧ 0 <= h < 2 ^ 24 ∧
       mcapi_trans_decode_handle h = (d, n, e, true)
     else mcapi_trans_encode_handle d n e = Fault AssertFailed) ∧
  (∀ h d n e, 0 <= h < 2 ^ 24 → mcapi_trans_decode_handle h = (d, n, e, true) →
     mcapi_trans_encode_handle d n e = Done h).
Proof.
  split.
  - intros d n e. destruct (_ && _) eqn:Hin; [|unfold mcapi_trans_encode_handle; by rewrite Hin].
    pose proof Hin as [[Hd%Nat.ltb_lt Hn%Nat.ltb_lt]%andb_true_iff He%Nat.ltb_lt]%andb_true_iff.
    eexists. split; [by apply encode_handle_value|].
    unfold MCA_MAX_DOMAINS, MCA_MAX_NODES, MCAPI_MAX_ENDPOINTS in Hd, Hn, He. split; [lia|].
    rewrite decode_handle_value.
    set (h := Z.of_nat d * 65536 + Z.of_nat n * 256 + _).
    assert (h / 65536 mod 256 = Z.of_nat d) as -> by (unfold h; Z.to_euclidean_division_equations; lia).
    assert (h / 256 mod 256 = Z.of_nat n) as -> by (unfold h; Z.to_euclidean_division_equations; lia).
    assert (h mod 256 = Z.of_nat e) as -> by (unfold h; Z.to_euclidean_division_equations; lia).
    cbv zeta. rewrite !Nat2Z.id. by rewrite Hin.
  - intros h d n e Hh. rewrite decode_handle_value. cbv zeta. intros [= <- <- <- Hin].
    pose proof Hin as [[Hd%Nat.ltb_lt Hn%Nat.ltb_lt]%andb_true_iff He%Nat.ltb_lt]%andb_true_iff.
    rewrite encode_handle_value by done. f_equal.
    rewrite !Z2Nat.id by (apply Z.mod_pos_bound; done).
    Z.to_euclidean_division_equations. lia.
Qed.
