(* ===== verification/McapiRequestTheorems.v ===== *)
(** Requests: the table of request entries over any history of reserving and
    removing, the completion and the cancellation of a request, and the retry
    loop of the blocking calls. *)

From S2P Require Import Prelude Bytes McapiTypes McapiQueue McapiRequests McapiTransport McapiMessages McapiRequestList McapiRing McapiQueueSpec McapiFifo McapiAccess McapiMailbox.

(** ** Completing a receive that was posted before its message arrived. *)

#[local] Opaque MCAPI_MAX_QUEUE_ENTRIES MCAPI_MAX_QUEUE_ELEMENTS.
#[local] Opaque MCAPI_MAX_BUFFERS MCAPI_MAX_MSG_SIZE.

Lemma header_queue d n e q w : header (with_queue d n e q w) = header w.
Proof. done. Qed.
Lemma header_buffers f w : header (with_buffers f w) = header w.
Proof. done. Qed.
Lemma header_mem m w : header (with_mem m w) = header w.
Proof. done. Qed.
Lemma header_request r f w : header (with_request r f w) = header w.
Proof. done. Qed.
#[export] Hint Rewrite header_queue header_buffers header_mem header_request : world.

Lemma get_upd_element q k f x :
  get_element q k = Done x → get_element (upd_element k f q) k = Done (f x).
Proof.
  unfold get_element. cbn. rewrite list_lookup_alter_eq. destruct (q_elements q !! k); [|done].
  by intros [= ->].
Qed.

(** ** A receive whose message has arrived *)

(** What the user is told. *)
Definition answer_size (size : Z) (msg : list Z) : Z := Z.min size (Z.of_nat (length msg)).
Definition answer_status (size : Z) (msg : list Z) : Z :=
  if size <? Z.of_nat (length msg) then MCAPI_ERR_MSG_TRUNCATED else MCAPI_SUCCESS.

(** The request [r], in progress on a message endpoint, has reserved the
    entry after [l1], and its message is in the buffer [i]. *)
Record arrived (request : Z) (r : nat) (x : mcapi_request_data) (d n e : nat) (w : world)
    (q : queue) (l1 l2 : list slot) (rs : list Z) (i : nat) (msg : list Z) : Prop := {
  ar_decode : mcapi_trans_decode_request_handle request = Some r;
  ar_request : requests w !! r = Some x;
  ar_handle : mcapi_trans_decode_handle (rq_handle x) = (d, n, e, true);
  ar_size : 0 <= rq_size x;
  ar_queue : queue_at d n e w = Some q;
  ar_type : q_channel_type q = MCAPI_NO_CHAN;
  ar_ring : ring q (l1 ++ Live request (buffer_ref i) :: l2) rs;
  ar_nonzero : request ≠ 0;
  ar_slots : request ∉ slot_req <$> l1 ++ l2;
  ar_waiting : request ∉ rs;
  ar_buffers : buffers_wf (buffers w);
  ar_holds : holds (buffers w) i msg }.

Section arrived.
Context (buff_addr : nat → Z) (request : Z) (r : nat) (x : mcapi_request_data) (d n e : nat).
Context (w : world) (q : queue) (l1 l2 : list slot) (rs : list Z) (i : nat) (msg : list Z).
Context (Har : arrived request r x d n e w q l1 l2 rs i msg).
Context (mem : gmap Z Z).
Context (Hmem : store_bytes (take (Z.to_nat (rq_size x)) msg) (rq_buffer x) (w_mem w) = Done mem).

Let k := ring_index (q_head q) (length l1).
Let q1 := upd_element k (λ e, e <| bd_request := 0 |>) q.
Let w1 := with_request r (λ x, x <| rq_completed := true |> <| rq_status := MCAPI_SUCCESS |>)
            (with_queue d n e q1 w).
Let w2 := with_queue d n e (with_buffer k 0 q1)
            (with_buffers (alter (λ _, zero_buffer) i) (with_mem mem w1)).

Lemma arrived_entry :
  find_request request q = Done k ∧ (k ≠ MCAPI_MAX_QUEUE_ENTRIES) ∧
  get_element q k = Done (mk_desc request (buffer_ref i) false) ∧ buffer_ref i ≠ 0.
Proof using Har.
  destruct Har as [_ _ _ _ _ _ Hring Hne Hs Hw _ _]. unfold k.
  pose proof (ring_index_lt (q_head q) (length l1)). split_and!; [by eapply find_live|lia| |].
  - pose proof (rg_wf _ _ _ Hring) as Hwf. pose proof (rg_len _ _ _ Hring) as Hlen.
    rewrite length_app in Hlen. cbn [length] in Hlen.
    destruct (rg_rot _ _ _ Hring) as [k' Hk%rot_mid].
    apply get_element_rot; [done|lia|]. rewrite Hk.
    by rewrite lookup_app_r, length_fmap, Nat.sub_diag by by rewrite length_fmap.
  - by destruct (slots_bubble _ _ _ _ (rg_ok _ _ _ Hring)).
Qed.

Lemma arrived_recv :
  mcapi_trans_recv_have_lock_ buff_addr d n e (rq_buffer x) (rq_size x) k false w1 =
    Done ((Z.of_nat (length msg), rq_buffer x, None), w2).
Proof using Har Hmem.
  destruct arrived_entry as (_ & _ & Hk & _).
  destruct Har as [_ _ _ Hsize Hq Ht _ _ _ _ Hbuf Hh].
  pose proof (in_buffer_range _ _ _ _ Hbuf Hh) as Hi. destruct Hh as (b & Hb & _ & Hst).
  eapply (recv_entry buff_addr d n e w1 q1 _ k i b); try done.
  - unfold w1. autorewrite with world. apply queue_at_with. by rewrite Hq.
  - by apply get_upd_element.
  - done.
Qed.

Lemma arrived_check :
  wp (check_receive_request_have_lock buff_addr request)
    (λ _ w', ∃ q' x', queue_at d n e w' = Some q' ∧
       ring q' (trim (l1 ++ Bubble :: l2)) rs ∧
       requests w' !! r = Some x' ∧ rq_completed x' = true ∧
       rq_size x' = answer_size (rq_size x) msg ∧ rq_status x' = answer_status (rq_size x) msg ∧
       buffers w' = alter (λ _, zero_buffer) i (buffers w) ∧ w_mem w' = mem ∧
       header w' = header w) w.
Proof using Har Hmem.
  pose proof arrived_recv as Hrecv. destruct arrived_entry as (Hfind & Hkn & Hk & Href).
  destruct Har as [Hdec Hx Hh Hsize Hq Ht Hring Hne Hs Hwait Hbuf Hholds].
  destruct (remove_entry_spec q l1 request (buffer_ref i) l2 rs Hring) as (q' & Hrem & _ & Hring').
  fold k in Hrem. fold q1 in Hrem.
  unfold check_receive_request_have_lock, decode_request. rewrite Hdec. apply wp_bind, wp_ret.
  apply wp_bind. eapply wp_get_mrequest; [exact Hx|].
  apply wp_bind. eapply wp_decode; [exact Hh|].
  apply wp_bind. eapply wp_get_queue; [exact Hq|].
  apply wp_bind. eapply wp_lift; [exact Hfind|]. apply Nat.eqb_neq in Hkn as ->.
  apply wp_bind. eapply wp_lift; [exact Hk|]. cbn [bd_buff_index].
  apply Z.eqb_neq in Href as ->.
  apply wp_bind. eapply wp_on_queue; [exact Hq|done|].
  apply wp_bind. eapply wp_modify_mrequest; [autorewrite with world; exact Hx|].
  rewrite Ht. rewrite decide_False by done. fold q1. fold w1.
  assert (queue_at d n e w2 = Some (with_buffer k 0 q1)) as Hq2.
  { unfold w2. apply queue_at_with. unfold w1. autorewrite with world.
    rewrite queue_at_with by by rewrite Hq. done. }
  apply wp_bind. apply wp_bind. eapply wp_intro; [exact Hrecv|].
  apply wp_bind. eapply wp_modify_mrequest.
  { unfold w2, w1. autorewrite with world. by rewrite list_lookup_alter_eq, Hx. }
  set (w3 := with_request r _ w2).
  destruct (Z.ltb_spec (rq_size x) (Z.of_nat (length msg))) as [Hlt|Hge].
  - eapply wp_modify_mrequest.
    { unfold w3, w2, w1. autorewrite with world. by rewrite !list_lookup_alter_eq, Hx. }
    eapply wp_on_queue; [unfold w3; autorewrite with world; exact Hq2|exact Hrem|].
    eexists q', _. split_and!.
    + apply queue_at_with. unfold w3. autorewrite with world. by rewrite Hq2.
    + done.
    + unfold w3, w2, w1. autorewrite with world. by rewrite !list_lookup_alter_eq, Hx.
    + done.
    + cbn. unfold answer_size. lia.
    + cbn. unfold answer_status. destruct (Z.ltb_spec (rq_size x) (Z.of_nat (length msg))); [done|lia].
    + done.
    + done.
    + done.
  - apply wp_ret.
    eapply wp_on_queue; [unfold w3; autorewrite with world; exact Hq2|exact Hrem|].
    eexists q', _. split_and!.
    + apply queue_at_with. unfold w3. autorewrite with world. by rewrite Hq2.
    + done.
    + unfold w3, w2, w1. autorewrite with world. by rewrite !list_lookup_alter_eq, Hx.
    + done.
    + cbn. unfold answer_size. lia.
    + cbn. unfold answer_status. destruct (Z.ltb_spec (rq_size x) (Z.of_nat (length msg))); [lia|done].
    + done.
    + done.
    + done.
Qed.

Lemma arrived_test size st free u1 u2 :
  rq_valid x = true → rq_cancelled x = false → rq_completed x = false → rq_type x = RECV →
  header_wf (header w) free (u1 ++ r :: u2) →
  ∃ w' q', mcapi_trans_test_i buff_addr request size st w =
      Done (true, 0, answer_size (rq_size x) msg, answer_status (rq_size x) msg, w') ∧
    queue_at d n e w' = Some q' ∧ ring q' (trim (l1 ++ Bubble :: l2)) rs ∧
    buffers w' = alter (λ _, zero_buffer) i (buffers w) ∧ w_mem w' = mem ∧
    requests w' !! r = Some zero_mrequest ∧ header_wf (header w') (r :: free) (u1 ++ u2).
Proof using Har Hmem.
  intros Hv Hc Hcomp Ht Hwf. pose proof arrived_check as Hcheck.
  destruct Har as [Hdec Hx _ _ _ _ _ _ _ _ _ _].
  apply wp_done in Hcheck as ([] & w3 & Hrun & q' & x' & Hq' & Hring' & Hx' & Hcomp' & Hsz & Hst
    & Hb & Hm & Hh).
  destruct (remove_request_done (header w) r free u1 u2 Hwf) as (h' & Hrem & Hwf').
  exists (with_request r (λ _, zero_mrequest) (with_header h' w3)), q'. split.
  - unfold mcapi_trans_test_i. rewrite Hdec.
    assert (∀ y v, requests v !! r = Some y → get_mrequest r v = Done (y, v)) as Hget.
    { intros y v Hy. unfold get_mrequest, get_mdb. erewrite bind_done by done.
      by fold (requests v); rewrite Hy. }
    erewrite bind_done by by apply Hget. rewrite Hv, Hc, Hcomp, Ht. cbn [negb].
    erewrite bind_done by exact Hrun. erewrite bind_done by by apply Hget.
    assert (on_header (mcapi_trans_remove_request_have_lock (Z.of_nat r)) w3
      = Done (true, with_header h' w3)) as Hon.
    { unfold on_header, get_mdb. erewrite bind_done by done. fold (header w3).
      rewrite Hh, (bind_done (lift _) _ w3 (true, h') w3) by by rewrite Hrem. done. }
    assert (modify_mrequest r (λ _, zero_mrequest) (with_header h' w3)
      = Done (tt, with_request r (λ _, zero_mrequest) (with_header h' w3))) as Hmod.
    { unfold modify_mrequest. by erewrite bind_done by by apply Hget. }
    rewrite Hcomp'. erewrite bind_done by exact Hon. erewrite bind_done by exact Hmod.
    by rewrite Hsz, Hst.
  - split_and!; try done. autorewrite with world. change (requests (with_header h' w3)) with (requests w3).
    by rewrite list_lookup_alter_eq, Hx'.
Qed.
End arrived.
#[local] Transparent MCAPI_MAX_QUEUE_ENTRIES MCAPI_MAX_QUEUE_ELEMENTS MCAPI_MAX_BUFFERS MCAPI_MAX_MSG_SIZE.

(** ** Histories of the request table *)

(** The entries handed out and not yet returned, according to the answers. *)
Inductive in_use : indexed_array_header → list nat → Prop :=
| use_init h0 h : mcapi_trans_init_indexed_array_have_lock h0 = Done (tt, h) → in_use h []
| use_reserve h us o h' :
    in_use h us → reserve_index h = Done (o, h') →
    in_use h' (match o with Some r => Z.to_nat r :: us | None => us end)
| use_remove h us r ok h' :
    in_use h us → r ∈ us →
    mcapi_trans_remove_request_have_lock (Z.of_nat r) h = Done (ok, h') →
    in_use h' (filter (λ r', r' ≠ r) us).

Lemma free_and_used h free used :
  header_wf h free used → (length free + length used = MCAPI_MAX_REQUESTS)%nat.
Proof.
  intros Hwf. pose proof (Permutation_length (hw_perm _ _ _ Hwf)) as Hl.
  rewrite length_app, length_seq in Hl. done.
Qed.
Lemma used_facts h free used :
  header_wf h free used → NoDup used ∧ Forall (λ r, (r < MCAPI_MAX_REQUESTS)%nat) used ∧
  ∀ r, r ∈ free → r ∉ used ∧ (r < MCAPI_MAX_REQUESTS)%nat.
Proof.
  intros Hwf. pose proof (hw_perm _ _ _ Hwf) as Hp.
  destruct (perm_facts _ _ 0 Hp) as [(_ & Hd & Hn)%NoDup_app _]. split_and!; [done| |].
  - apply Forall_forall. intros r Hr. apply (perm_facts _ _ r Hp), elem_of_app. by right.
  - intros r Hr. split; [by apply Hd|]. apply (perm_facts _ _ r Hp), elem_of_app. by left.
Qed.
Lemma filter_used (r : nat) l1 l2 :
  NoDup (l1 ++ r :: l2) → filter (λ r', r' ≠ r) (l1 ++ r :: l2) = l1 ++ l2.
Proof.
  intros (Hn1 & Hd & [Hr2 Hn2]%NoDup_cons)%NoDup_app.
  rewrite filter_app, filter_cons, decide_False by tauto.
  assert (∀ l : list nat, r ∉ l → filter (λ r', r' ≠ r) l = l) as Hid.
  { intros l Hl. induction l as [|x l IH]; [done|]. rewrite filter_cons, decide_True by set_solver.
    rewrite IH; [done|set_solver]. }
  rewrite !Hid; [done|done|]. intros Hr1. apply (Hd r Hr1). set_solver.
Qed.

Lemma in_use_wf h us : in_use h us → ∃ free used, header_wf h free used ∧ used ≡ₚ us.
Proof.
  induction 1 as [h0 h Hi|h us o h' _ (free & used & Hwf & Hu) Hr|h us r ok h' _ (free & used & Hwf & Hu) Hin Hr].
  - destruct (init_header_wf h0) as (h1 & Hi' & Hwf). rewrite Hi in Hi'. injection Hi' as <-. eauto.
  - destruct free as [|r [|f free]].
    + rewrite (reserve_index_none h used Hwf) in Hr. injection Hr as <- <-. eauto.
    + by rewrite (reserve_index_last h r used Hwf) in Hr.
    + destruct (reserve_index_some h r used f free Hwf) as (h1 & Hr' & Hwf').
      rewrite Hr in Hr'. injection Hr' as -> ->. rewrite Nat2Z.id.
      exists (f :: free), (r :: used). split; [done|by rewrite Hu].
  - rewrite <- Hu in Hin. apply list_elem_of_split in Hin as (l1 & l2 & ->).
    destruct (remove_request_done h r free l1 l2 Hwf) as (h1 & Hr' & Hwf').
    rewrite Hr in Hr'. injection Hr' as -> ->. exists (r :: free), (l1 ++ l2). split; [done|].
    rewrite <- Hu, filter_used; [done|]. by apply used_facts in Hwf as [? _].
Qed.

(** C20: over any history of reserving and removing requests, the entries in
    use are distinct and in range and the table counts them; as long as two
    entries are free a reservation yields a free one; and every entry in use
    can be returned. *)
Theorem request_table_correct h us :
  in_use h us →
  NoDup us ∧ Forall (λ r, (r < MCAPI_MAX_REQUESTS)%nat) us ∧
  curr_count h = Z.of_nat (length us) ∧
  ((length us + 1 < MCAPI_MAX_REQUESTS)%nat →
     ∃ r h', reserve_index h = Done (Some (Z.of_nat r), h') ∧ r ∉ us ∧
       (r < MCAPI_MAX_REQUESTS)%nat) ∧
  (∀ r, r ∈ us → ∃ h', mcapi_trans_remove_request_have_lock (Z.of_nat r) h = Done (true, h')).
Proof.
  intros (free & used & Hwf & Hu)%in_use_wf.
  destruct (used_facts _ _ _ Hwf) as (Hnd & Hall & Hfree). pose proof (free_and_used _ _ _ Hwf).
  split_and!; [by rewrite <- Hu|by rewrite <- Hu|by rewrite (hw_count _ _ _ Hwf), Hu| |].
  - rewrite <- Hu. intros Hroom. destruct free as [|r [|f free]]; [cbn in *; lia..|].
    destruct (reserve_index_some h r used f free Hwf) as (h1 & Hr & _).
    exists r, h1. split; [done|]. rewrite <- Hu. apply Hfree. left.
  - intros r. rewrite <- Hu. intros (l1 & l2 & ->)%list_elem_of_split.
    destruct (remove_request_done h r free l1 l2 Hwf) as (h1 & Hr & _). eauto.
Qed.

(** A table with the first entry in use. *)
Definition example_header : indexed_array_header :=
  match mcapi_trans_init_indexed_array_have_lock zero_iheader with
  | Done (_, h) => match reserve_index h with Done (_, h) => h | Fault _ => h end
  | Fault _ => zero_iheader
  end.
Lemma example_header_wf :
  in_use example_header [0%nat] ∧ header_wf example_header (1%nat :: seq 2 1022) [0%nat].
Proof.
  destruct (init_header_wf zero_iheader) as (h & Hi & Hwf).
  change (seq 0 MCAPI_MAX_REQUESTS) with (0%nat :: 1%nat :: seq 2 1022) in Hwf.
  destruct (reserve_index_some h 0 [] 1 _ Hwf) as (h' & Hr & Hwf').
  unfold example_header. rewrite Hi, Hr. split; [|done].
  exact (use_reserve h [] (Some 0) h' (use_init _ _ Hi) Hr).
Qed.
Lemma example_in_use : in_use example_header [0%nat].
Proof. exact (proj1 example_header_wf). Qed.
Lemma request_table_correct_witness :
  in_use example_header [0%nat] ∧ curr_count example_header = 1.
Proof.
  split; [exact example_in_use|].
  exact (proj1 (proj2 (proj2 (request_table_correct _ _ example_in_use)))).
Defined.

(** Taking the last free entry writes before the array: with all entries
    but one in use, the next reservation accesses [array[-1]]. *)
Theorem last_request_overruns h us :
  in_use h us → (length us + 1 = MCAPI_MAX_REQUESTS)%nat → reserve_index h = Fault OutOfBounds.
Proof.
  intros (free & used & Hwf & Hu)%in_use_wf Hl.
  pose proof (free_and_used _ _ _ Hwf). rewrite <- Hu in Hl.
  destruct free as [|r [|f free]]; cbn in *; [lia| |lia]. by apply (reserve_index_last h r used).
Qed.

Lemma reserve_many k :
  (k + 1 <= MCAPI_MAX_REQUESTS)%nat → ∃ h us, in_use h us ∧ length us = k.
Proof.
  induction k as [|k IH]; intros Hk.
  - destruct (init_header_wf zero_iheader) as (h & Hi & _). exists h, []. split; [by eapply use_init|done].
  - destruct IH as (h & us & Hus & Hl); [lia|].
    destruct (in_use_wf _ _ Hus) as (free & used & Hwf & Hu).
    pose proof (free_and_used _ _ _ Hwf). rewrite <- Hu in Hl.
    destruct free as [|r [|f free]]; [cbn in *; lia..|].
    destruct (reserve_index_some h r used f free Hwf) as (h1 & Hr & _).
    exists h1, (Z.to_nat (Z.of_nat r) :: us). split; [by apply (use_reserve h us (Some _))|].
    cbn. by rewrite <- Hu, Hl.
Qed.
Lemma last_request_overruns_witness :
  ∃ h us, in_use h us ∧ length us = 1023%nat ∧ reserve_index h = Fault OutOfBounds.
Proof.
  destruct (reserve_many 1023) as (h & us & Hus & Hl); [unfold MCAPI_MAX_REQUESTS; lia|].
  exists h, us. split; [done|]. split; [done|].
  apply (last_request_overruns h us Hus). by rewrite Hl.
Defined.

(** ** Cancelling *)

Definition pending (x : mcapi_request_data) : Prop :=
  rq_valid x = true ∧ rq_cancelled x = false ∧ rq_completed x = false ∧ rq_type x = RECV.

(** Cancelling a receive that is waiting succeeds: its reservation
    disappears from the queue and the other waiting receives keep their order;
    the request entry is cleared.  The table of entries does not change, so
    that the entry stays in use: no later call returns it, because the handle
    is now refused. *)
Theorem cancel_waiting_receive request r x d n e w q ws r1 r2 st :
  mcapi_trans_decode_request_handle request = Some r → requests w !! r = Some x → pending x →
  mcapi_trans_decode_handle (rq_handle x) = (d, n, e, true) → queue_at d n e w = Some q →
  ring q ws (r1 ++ request :: r2) → request ∉ slot_req <$> ws → request ∉ r1 ++ r2 →
  ∃ w' q', mcapi_trans_cancel request st w = Done (MCAPI_SUCCESS, w') ∧
    queue_at d n e w' = Some q' ∧ ring q' ws (r1 ++ r2) ∧
    requests w' !! r = Some zero_mrequest ∧
    request_reserves_header (w_db w') = request_reserves_header (w_db w) ∧
    ∀ buff_addr size st', mcapi_trans_test_i buff_addr request size st' w'
      = Done (true, request, size, MCAPI_ERR_REQUEST_INVALID, w').
Proof.
  intros Hdec Hx (Hv & Hc & Hcomp & Ht) Hh Hq Hring Hws Hr12.
  destruct (cancel_entry_spec _ _ _ _ _ Hring Hws Hr12) as (q' & Hcancel & _ & Hring').
  set (w' := with_request r (λ _, zero_mrequest) (with_request r (λ x, x <| rq_cancelled := true |>)
    (with_queue d n e q' (with_request r (λ x, x <| rq_cancelled := true |>) w)))).
  assert (requests w' !! r = Some zero_mrequest) as Hzero.
  { unfold w'. autorewrite with world. by rewrite !list_lookup_alter_eq, Hx. }
  exists w', q'. split_and!.
  - assert (wp (mcapi_trans_cancel request st) (λ a w1, a = MCAPI_SUCCESS ∧ w1 = w') w) as Hwp.
    2:{ apply wp_done in Hwp as (a & w1 & -> & -> & ->). done. }
    unfold mcapi_trans_cancel, decode_request. rewrite Hdec. apply wp_bind, wp_ret.
    apply wp_bind. eapply wp_get_mrequest; [exact Hx|]. rewrite Hv, Hc, Hcomp, Ht. cbn [negb].
    apply wp_bind. eapply wp_modify_mrequest; [exact Hx|]. apply wp_bind.
    unfold cancel_receive_request_have_lock, decode_request. rewrite Hdec. apply wp_bind, wp_ret.
    apply wp_bind. eapply wp_get_mrequest.
    { autorewrite with world. by rewrite list_lookup_alter_eq, Hx. }
    apply wp_bind. eapply wp_decode; [exact Hh|].
    apply wp_bind. eapply wp_on_queue; [autorewrite with world; exact Hq|exact Hcancel|].
    eapply wp_modify_mrequest.
    { autorewrite with world. by rewrite list_lookup_alter_eq, Hx. }
    apply wp_bind. eapply wp_modify_mrequest.
    { autorewrite with world. by rewrite !list_lookup_alter_eq, Hx. }
    by apply wp_ret.
  - unfold w'. autorewrite with world. apply queue_at_with. autorewrite with world. by rewrite Hq.
  - done.
  - done.
  - done.
  - intros buff_addr size st'. unfold mcapi_trans_test_i. rewrite Hdec.
    assert (get_mrequest r w' = Done (zero_mrequest, w')) as Hg.
    { unfold get_mrequest, get_mdb. erewrite bind_done by done. by fold (requests w'); rewrite Hzero. }
    by erewrite bind_done by exact Hg.
Qed.

(** A world where request 0 waits for a message at the first endpoint. *)
Definition example_request : Z := 0x80000000.
Definition waiting_queue : queue :=
  match queue_recv example_request zero_queue with Done (_, q) => q | Fault _ => zero_queue end.
Definition waiting_request : mcapi_request_data :=
  zero_mrequest <| rq_valid := true |> <| rq_type := RECV |> <| rq_size := 8 |>
    <| rq_buffer := 200 |>.
Definition waiting_world : world :=
  with_queue 0 0 0 waiting_queue
    (with_request 0 (λ _, waiting_request) (mk_world zero_mdb ∅)).
Lemma waiting_ring : ring waiting_queue [] [example_request].
Proof.
  pose proof (reserve_entry_spec zero_queue [] [] example_request ring_zero
    (Forall_nil_2 _) ltac:(done)) as Hs.
  rewrite bool_decide_eq_true_2 in Hs by (unfold MCAPI_MAX_QUEUE_ENTRIES; cbn; lia).
  destruct Hs as (q' & Hr & _ & Hring).
  assert (waiting_queue = q') as ->; [|done].
  unfold waiting_queue, queue_recv. rewrite (empty_queue_spec _ _ _ ring_zero). cbn [existsb negb].
  by rewrite Hr.
Qed.
Lemma cancel_waiting_receive_witness :
  ∃ w' q', mcapi_trans_cancel example_request 0 waiting_world = Done (MCAPI_SUCCESS, w') ∧
    queue_at 0 0 0 w' = Some q' ∧ ring q' [] [].
Proof.
  destruct (cancel_waiting_receive example_request 0 waiting_request 0 0 0 waiting_world
    waiting_queue [] [] [] 0) as (w' & q' & H1 & H2 & H3 & _);
    [reflexivity|reflexivity|repeat split|reflexivity| |exact waiting_ring| | |].
  - apply queue_at_with. by eexists.
  - cbn. set_solver.
  - cbn. set_solver.
  - exists w', q'. by split_and!.
Defined.

(** ** The retry loop *)

Lemma recv_keeps_limit buff_addr ep buffer size request w a w' :
  mcapi_trans_msg_recv_i buff_addr ep buffer size request MCAPI_ERR_REQUEST_LIMIT w = Done (a, w') →
  a.2 = MCAPI_ERR_REQUEST_LIMIT.
Proof.
  unfold mcapi_trans_msg_recv_i. intros (o & w1 & _ & H1)%bind_inv. destruct o as [r|].
  - apply bind_inv in H1 as ([c s] & w2 & _ & H2). apply bind_inv in H2 as (rq & w3 & _ & H3).
    by injection H3 as <- _.
  - by injection H1 as <- _.
Qed.
Lemma retry_stuck between op :
  (∀ rq w a w', op rq MCAPI_ERR_REQUEST_LIMIT w = Done (a, w') → a.2 = MCAPI_ERR_REQUEST_LIMIT) →
  ∀ fuel k rq w a w', until_request between op fuel k rq MCAPI_ERR_REQUEST_LIMIT w ≠ Done (a, w').
Proof.
  intros Hop fuel. induction fuel as [|fuel IH]; intros k rq w a w' Hrun; [done|].
  cbn [until_request] in Hrun. apply bind_inv in Hrun as ([rq1 st1] & w1 & H1 & H2).
  apply Hop in H1. cbn in H1. subst st1. cbn -[until_request] in H2.
  by apply IH in H2.
Qed.

(** The retry of the blocking receive never ends: when the first attempt
    finds no request entry, the error it leaves in the status makes every
    later attempt report the same error, whatever other nodes free in the
    meantime. *)
Theorem receive_retry_never_ends buff_addr between fuel ep buffer size rsize request w :
  reserve_index (request_reserves_header (w_db w)) =
    Done (None, request_reserves_header (w_db w)) →
  ∀ a w', mcapi_trans_msg_recv buff_addr between fuel ep buffer size rsize request w ≠ Done (a, w').
Proof.
  intros Hnone a w' Hrun. unfold mcapi_trans_msg_recv in Hrun.
  apply bind_inv in Hrun as (b & w1 & Hloop & _). destruct fuel as [|fuel]; [done|].
  cbn [until_request] in Hloop. apply bind_inv in Hloop as ([rq st] & w2 & Hop & Hrest).
  assert (st = MCAPI_ERR_REQUEST_LIMIT) as ->.
  { unfold mcapi_trans_msg_recv_i in Hop. apply bind_inv in Hop as (o & w3 & Hres & Hop).
    unfold mcapi_trans_reserve_request_have_lock, on_header, get_mdb in Hres.
    apply bind_inv in Hres as (o1 & w4 & Hh & Ho1). rewrite (bind_done _ _ _ _ _ eq_refl) in Hh.
    unfold lift in Hh. apply bind_inv in Hh as ([o2 h2] & w5 & Hh & Hh2).
    rewrite Hnone in Hh. injection Hh as <- <- <-.
    rewrite (bind_done _ _ _ _ _ eq_refl) in Hh2. injection Hh2 as <- <-.
    injection Ho1 as <- <-. by injection Hop as <- <- <-. }
  cbn -[until_request] in Hrest. eapply retry_stuck; [|exact Hrest]. intros rq1 w4 a1 w5. apply recv_keeps_limit.
Qed.

(** All entries in use, as the table reports it. *)
Definition exhausted_world : world :=
  mk_world (zero_mdb <| request_reserves_header := zero_iheader <| empty_head_index := -1 |> |>) ∅.
Lemma receive_retry_never_ends_witness :
  reserve_index (request_reserves_header (w_db exhausted_world)) =
    Done (None, request_reserves_header (w_db exhausted_world)) ∧
  mcapi_trans_msg_recv (λ _, 0) (λ _ w, w) 7 0 200 3 0 0 exhausted_world
    ≠ Done ((true, 3), exhausted_world).
Proof.
  split; [vm_compute; reflexivity|].
  apply (receive_retry_never_ends (λ _, 0) (λ _ w, w) 7 0 200 3 0 0 exhausted_world).
  vm_compute. reflexivity.
Defined.

(** ** Completing *)

(** C17: testing a posted receive whose message has arrived completes it: the
    user's buffer gets the message, as far as it fits, the call reports the
    number of bytes and whether the message was truncated, the entry leaves
    the queue without disturbing the others, and the mcapi buffer and the
    request entry are free again. *)
Theorem test_completes_receive buff_addr request r x d n e w q l1 l2 rs i msg mem size st free u1 u2 :
  arrived request r x d n e w q l1 l2 rs i msg → pending x →
  store_bytes (take (Z.to_nat (rq_size x)) msg) (rq_buffer x) (w_mem w) = Done mem →
  header_wf (header w) free (u1 ++ r :: u2) →
  ∃ w' q', mcapi_trans_test_i buff_addr request size st w =
      Done (true, 0, Z.min (rq_size x) (Z.of_nat (length msg)),
            if rq_size x <? Z.of_nat (length msg) then MCAPI_ERR_MSG_TRUNCATED
            else MCAPI_SUCCESS, w') ∧
    queue_at d n e w' = Some q' ∧ ring q' (trim (l1 ++ Bubble :: l2)) rs ∧
    buffers w' = alter (λ _, zero_buffer) i (buffers w) ∧ w_mem w' = mem ∧
    requests w' !! r = Some zero_mrequest ∧ header_wf (header w') (r :: free) (u1 ++ u2).
Proof.
  intros Har (Hv & Hc & Hcomp & Ht) Hmem Hwf.
  exact (arrived_test buff_addr request r x d n e w q l1 l2 rs i msg Har mem Hmem
    size st free u1 u2 Hv Hc Hcomp Ht Hwf).
Qed.

(** The waiting request of the example, after a message of three bytes. *)
Definition arrived_queue : queue :=
  match queue_send (buffer_ref 0) waiting_queue with
  | Done (_, q) => q
  | Fault _ => waiting_queue
  end.
Definition user_mem : gmap Z Z := list_to_map [(200, 0); (201, 0); (202, 0)].
Definition arrived_world : world :=
  with_queue 0 0 0 arrived_queue (with_request 0 (λ _, waiting_request)
    (with_buffers (alter (filled [7; 8; 9]) 0%nat)
      (mk_world (zero_mdb <| request_reserves_header := example_header |>) user_mem))).
Lemma arrived_ring :
  ring arrived_queue [Live example_request (buffer_ref 0)] [] ∧
  q_channel_type arrived_queue = MCAPI_NO_CHAN.
Proof.
  destruct (buffer_ref_spec 0 (mk_desc 0 (buffer_ref 0) false)) as [Href _];
    [unfold MCAPI_MAX_BUFFERS; lia|done|].
  destruct (queue_send_spec _ _ _ (buffer_ref 0) waiting_ring Href)
    as (ok & q' & Hs & Hsc & Hok & Hr).
  rewrite bool_decide_eq_true_2 in Hok by done. subst ok.
  unfold arrived_queue. rewrite Hs. split; [exact Hr|]. by destruct Hsc as [_ _ ->].
Qed.
Lemma zeroed_buffers : buffers_wf (replicate MCAPI_MAX_BUFFERS zero_buffer).
Proof. split; [apply length_replicate|apply Forall_replicate, length_replicate]. Qed.
Lemma example_arrived :
  arrived example_request 0 waiting_request 0 0 0 arrived_world arrived_queue [] [] [] 0 [7; 8; 9].
Proof.
  assert (length [7; 8; 9] <= MCAPI_MAX_MSG_SIZE)%nat as Hlen
    by (unfold MCAPI_MAX_MSG_SIZE; cbn; lia).
  split.
  - reflexivity.
  - reflexivity.
  - reflexivity.
  - by vm_compute.
  - apply queue_at_with. by eexists.
  - exact (proj2 arrived_ring).
  - exact (proj1 arrived_ring).
  - done.
  - apply not_elem_of_nil.
  - apply not_elem_of_nil.
  - apply (alter_buffers_wf (filled [7; 8; 9]) 0%nat); [|exact zeroed_buffers].
    intros b Hb. by apply (filled_stores [7; 8; 9] Hlen).
  - apply (stores_in_buffer message _ _ _ _ zero_buffer zeroed_buffers); [by apply filled_stores|].
    apply (lookup_replicate_2 MCAPI_MAX_BUFFERS zero_buffer). unfold MCAPI_MAX_BUFFERS. lia.
Qed.
Lemma test_completes_receive_witness :
  ∃ mem w', store_bytes [7; 8; 9] 200 user_mem = Done mem ∧
    mcapi_trans_test_i (λ _, 0) example_request 0 0 arrived_world
      = Done (true, 0, 3, MCAPI_SUCCESS, w') ∧ w_mem w' = mem.
Proof.
  destruct (store_bytes [7; 8; 9] 200 user_mem) as [mem|f] eqn:Hs;
    [|vm_compute in Hs; discriminate].
  destruct (test_completes_receive (λ _, 0) example_request 0 waiting_request 0 0 0 arrived_world
    arrived_queue [] [] [] 0 [7; 8; 9] mem 0 0 (1%nat :: seq 2 1022) [] [] example_arrived)
    as (w' & q' & H1 & _ & _ & _ & H2 & _); [repeat split|exact Hs|exact (proj2 example_header_wf)|].
  exists mem, w'. by split_and!.
Defined.
