(* ===== verification/LockfreeQueue.v ===== *)
(** The lock-free transport of the _abb variant: receive queues with counters
    (transport_sm_queue_abb.c), the pool of buffers and the exchange of messages
    through a queue or through a state buffer (transport_sm_abb.c).

    Every access to shared memory is one step of a [prog].  The atomic operations
    have no sync descriptor here, so each is one access of its word
    (AtomicTheorems.v), and mrapi_atomic_xchg is the two that it is made of; the
    caller is an initialized node, so their status is that of the operation. *)

From S2P Require Import Prelude LockfreeProg.

(** ** The database (transport_sm_abb.h) *)

Definition MCAPI_MAX_BUFFERS : nat := 1284.
Definition MCAPI_MAX_QUEUE_ENTRIES : Z := 65.
Definition MCAPI_MAX_MSG_SIZE : nat := 1024.
Definition MAGIC_NUM : Z := 0xdeadcafe.
Definition RESERVED_NUM : Z := 0xdeadbeef.
Definition MCAPI_VALID_MASK : Z := 0x80000000.

Inductive channel_type := MCAPI_NO_CHAN | MCAPI_PKT_CHAN | MCAPI_SCL_CHAN.
Inductive mcapi_buffer_state := BUFFER_FREE | BUFFER_RESERVED | BUFFER_ALLOCATED | BUFFER_RECEIVED.
Inductive queue_status := MCAPI_SUCCESS | MCAPI_ERR_QUEUE_FULL | MCAPI_ERR_QUEUE_EMPTY
  | MCAPI_ERR_QUEUE_FULL_CONSUMER_READING | MCAPI_ERR_QUEUE_EMPTY_PRODUCER_INSERTING.
#[export] Instance channel_type_eq_dec : EqDecision channel_type.
Proof. solve_decision. Defined.
#[export] Instance mcapi_buffer_state_eq_dec : EqDecision mcapi_buffer_state.
Proof. solve_decision. Defined.

(** The indices of domain, node and endpoint. *)
Abbreviation endpoint_index := (nat * nat * nat)%type.

Record buffer_descriptor := mk_descriptor {
  bd_state : mcapi_buffer_state;
  bd_buff_index : Z;
  bd_reserved : bool }.
Record queue := mk_queue {
  channel : channel_type;
  update_counter : Z;
  ack_counter : Z;
  elements : list buffer_descriptor }.
(** [parent] points to an entry of a queue. *)
Record buffer_entry := mk_buffer {
  magic_num : Z;
  size : Z;
  scalar : Z;
  buff : list Z;
  parent : option (endpoint_index * Z) }.
Record endpoint_entry := mk_endpoint { recv_queue : queue; num_send_buffers : Z }.
Record database := mk_database {
  endpoints : gmap endpoint_index endpoint_entry;
  buffers : list buffer_entry }.
#[export] Instance eta_descriptor : Settable buffer_descriptor :=
  λ r, mk_descriptor (bd_state r) (bd_buff_index r) (bd_reserved r).
#[export] Instance eta_queue : Settable queue :=
  λ r, mk_queue (channel r) (update_counter r) (ack_counter r) (elements r).
#[export] Instance eta_buffer : Settable buffer_entry :=
  λ r, mk_buffer (magic_num r) (size r) (scalar r) (buff r) (parent r).
#[export] Instance eta_endpoint : Settable endpoint_entry :=
  λ r, mk_endpoint (recv_queue r) (num_send_buffers r).
#[export] Instance eta_database : Settable database := λ r, mk_database (endpoints r) (buffers r).

Definition free_descriptor : buffer_descriptor := mk_descriptor BUFFER_FREE 0 false.
Definition zero_buffer : buffer_entry := mk_buffer 0 0 0 (replicate MCAPI_MAX_MSG_SIZE 0) None.
Definition zero_queue (type : channel_type) : queue :=
  mk_queue type 0 0 (replicate (Z.to_nat MCAPI_MAX_QUEUE_ENTRIES + 1) free_descriptor).

(** ** Words of shared memory *)

Record location (A : Type) := mk_location {
  peek : database → option A;
  poke : A → database → database }.
Arguments peek {A} l d.
Arguments poke {A} l v d.

Definition upd_queue (f : queue → queue) (e : endpoint_index) : database → database :=
  λ d, d <| endpoints ::= alter (λ x, x <| recv_queue ::= f |>) e |>.
Definition upd_element (f : buffer_descriptor → buffer_descriptor) (e : endpoint_index) (i : Z) :
    database → database :=
  upd_queue (λ q, q <| elements ::= alter f (Z.to_nat i) |>) e.
Definition upd_buffer (f : buffer_entry → buffer_entry) (i : nat) : database → database :=
  λ d, d <| buffers ::= alter f i |>.
Definition queue_of (e : endpoint_index) (d : database) : option queue := recv_queue <$> endpoints d !! e.
Definition element_of (e : endpoint_index) (i : Z) (d : database) : option buffer_descriptor :=
  queue_of e d ≫= λ q, elements q !! Z.to_nat i.

Definition channel_at (e : endpoint_index) : location channel_type :=
  mk_location _ (λ d, channel <$> queue_of e d) (λ v, upd_queue (λ q, q <| channel := v |>) e).
Definition update_counter_at (e : endpoint_index) : location Z :=
  mk_location _ (λ d, update_counter <$> queue_of e d) (λ v, upd_queue (λ q, q <| update_counter := v |>) e).
Definition ack_counter_at (e : endpoint_index) : location Z :=
  mk_location _ (λ d, ack_counter <$> queue_of e d) (λ v, upd_queue (λ q, q <| ack_counter := v |>) e).
Definition state_at (e : endpoint_index) (i : Z) : location mcapi_buffer_state :=
  mk_location _ (λ d, bd_state <$> element_of e i d) (λ v, upd_element (λ x, x <| bd_state := v |>) e i).
Definition buff_index_at (e : endpoint_index) (i : Z) : location Z :=
  mk_location _ (λ d, bd_buff_index <$> element_of e i d) (λ v, upd_element (λ x, x <| bd_buff_index := v |>) e i).
Definition reserved_at (e : endpoint_index) (i : Z) : location bool :=
  mk_location _ (λ d, bd_reserved <$> element_of e i d) (λ v, upd_element (λ x, x <| bd_reserved := v |>) e i).
Definition send_buffers_at (e : endpoint_index) : location Z :=
  mk_location _ (λ d, num_send_buffers <$> endpoints d !! e)
    (λ v d, d <| endpoints ::= alter (λ x, x <| num_send_buffers := v |>) e |>).
Definition magic_at (i : nat) : location Z :=
  mk_location _ (λ d, magic_num <$> buffers d !! i) (λ v, upd_buffer (λ b, b <| magic_num := v |>) i).
Definition size_at (i : nat) : location Z :=
  mk_location _ (λ d, size <$> buffers d !! i) (λ v, upd_buffer (λ b, b <| size := v |>) i).
Definition scalar_at (i : nat) : location Z :=
  mk_location _ (λ d, scalar <$> buffers d !! i) (λ v, upd_buffer (λ b, b <| scalar := v |>) i).
Definition parent_at (i : nat) : location (option (endpoint_index * Z)) :=
  mk_location _ (λ d, parent <$> buffers d !! i) (λ v, upd_buffer (λ b, b <| parent := v |>) i).
Definition byte_at (i j : nat) : location Z :=
  mk_location _ (λ d, buffers d !! i ≫= λ b, buff b !! j) (λ v, upd_buffer (λ b, b <| buff ::= <[j := v]> |>) i).

(** ** Accesses *)

Section access.
Context {A : Type} `{!EqDecision A}.
Implicit Types (l : location A).

Definition load_of l : M database A := let* d := get in from_option_oob (peek l d).
Definition store_of l (v : A) : M database unit := load_of l;; modify (poke l v).
(** Whether the word was [compare] and is now [exchange], and what it was. *)
Definition cas_of l (exchange compare : A) : M database (bool * A) :=
  let* v := load_of l in
  if decide (v = compare) then modify (poke l exchange);; ret (true, v) else ret (false, v).

Definition load l : prog database A := once (load_of l).
Definition store l (v : A) : prog database unit := once (store_of l v).
Definition mrapi_atomic_read l : prog database A := once (load_of l).
Definition mrapi_atomic_cas l (exchange compare : A) : prog database (bool * A) :=
  once (cas_of l exchange compare).
Definition mrapi_atomic_xchg l (exchange : A) : prog database unit :=
  let! previous := once (load_of l) in
  let! _ := once (cas_of l exchange previous) in
  Return tt.
End access.
(** The new value. *)
Definition inc_of (l : location Z) : M database Z :=
  let* v := load_of l in modify (poke l (u32 (v + 1)));; ret (u32 (v + 1)).
Definition mrapi_atomic_inc (l : location Z) : prog database Z := once (inc_of l).

(** The remainder; a division by zero ends the process. *)
Definition remainder (a b : Z) : prog database Z :=
  if b =? 0 then Raise OutOfBounds else Return (a mod b).

(** ** Queue management (transport_sm_queue_abb.c) *)

Definition mcapi_trans_queue_elements (e : endpoint_index) : prog database Z :=
  let! tempAC := load (ack_counter_at e) in
  let! tempUC := load (update_counter_at e) in
  Return (u32 (tempUC - tempAC) / 2).

Definition mcapi_trans_queue_head (e : endpoint_index) : prog database (Z * queue_status) :=
  let! tempUC := load (update_counter_at e) in
  let! ack := load (ack_counter_at e) in
  let lastAC := 2 * (ack / 2) in (* last completed operation *)
  let status :=
    if tempUC =? lastAC then MCAPI_ERR_QUEUE_EMPTY
    else if u32 (tempUC - lastAC) =? 1 then MCAPI_ERR_QUEUE_EMPTY_PRODUCER_INSERTING
    else MCAPI_SUCCESS in
  Return ((lastAC / 2) mod MCAPI_MAX_QUEUE_ENTRIES, status).

(** Whether an entry can be inserted: counters are incremented twice for each
    operation. *)
Definition room (diff : Z) : queue_status :=
  if 2 * MCAPI_MAX_QUEUE_ENTRIES <=? diff then MCAPI_ERR_QUEUE_FULL
  else if diff =? 2 * MCAPI_MAX_QUEUE_ENTRIES - 1 then MCAPI_ERR_QUEUE_FULL_CONSUMER_READING
  else MCAPI_SUCCESS.

Definition mcapi_trans_queue_tail (e : endpoint_index) : prog database (Z * queue_status) :=
  let! tempAC := load (ack_counter_at e) in
  let! update := load (update_counter_at e) in
  let lastUC := 2 * (update / 2) in (* last completed operation *)
  let diff := i32 (lastUC - tempAC) in
  Return ((lastUC / 2) mod MCAPI_MAX_QUEUE_ENTRIES, room diff).

(** -1 if the queue is full. *)
Fixpoint mcapi_trans_push_queue (fuel : nat) (e : endpoint_index) : prog database (Z * queue_status) :=
  match fuel with
  | O => Raise OutOfFuel
  | S fuel =>
      let! UC := load (update_counter_at e) in
      if negb (UC mod 2 =? 0) then
        (* multiple clients, push in progress *)
        mcapi_trans_push_queue fuel e
      else
        let lastUC := 2 * (UC / 2) in
        let! tempAC := load (ack_counter_at e) in
        let diff := i32 (lastUC - tempAC) in
        match room diff with
        | MCAPI_SUCCESS =>
            (* producer is about to insert an item *)
            let newUC := u32 (UC + 1) in
            let! (ok, _) := mrapi_atomic_cas (update_counter_at e) newUC UC in
            if (ok : bool) then
              (* producer is finished inserting item *)
              mrapi_atomic_inc (update_counter_at e);!
              Return ((lastUC / 2) mod MCAPI_MAX_QUEUE_ENTRIES, MCAPI_SUCCESS)
            else mcapi_trans_push_queue fuel e
        | status => Return (-1, status)
        end
  end.

(** -1 if the queue is empty. *)
Fixpoint mcapi_trans_pop_queue (fuel : nat) (e : endpoint_index) : prog database (Z * queue_status) :=
  match fuel with
  | O => Raise OutOfFuel
  | S fuel =>
      let! AC := load (ack_counter_at e) in
      if negb (AC mod 2 =? 0) then
        (* multiple clients, pop in progress *)
        mcapi_trans_pop_queue fuel e
      else
        let lastAC := 2 * (AC / 2) in
        let! tempUC := load (update_counter_at e) in
        if tempUC =? lastAC then Return (-1, MCAPI_ERR_QUEUE_EMPTY)
        else if u32 (tempUC - lastAC) =? 1 then Return (-1, MCAPI_ERR_QUEUE_EMPTY_PRODUCER_INSERTING)
        else
          (* consumer is about to remove an item *)
          let newAC := u32 (AC + 1) in
          let! (ok, _) := mrapi_atomic_cas (ack_counter_at e) newAC AC in
          if (ok : bool) then
            (* consumer is finished removing item *)
            mrapi_atomic_inc (ack_counter_at e);!
            Return ((lastAC / 2) mod MCAPI_MAX_QUEUE_ENTRIES, MCAPI_SUCCESS)
          else mcapi_trans_pop_queue fuel e
  end.

Definition mcapi_trans_queue_status (e : endpoint_index) : prog database queue_status :=
  (* check write status *)
  let! tempAC := load (ack_counter_at e) in
  let! update := load (update_counter_at e) in
  let lastUC := 2 * (update / 2) in
  let diff := i32 (lastUC - tempAC) in
  match room diff with
  | MCAPI_SUCCESS =>
      (* check read status *)
      let! tempUC := load (update_counter_at e) in
      let! lastAC := load (ack_counter_at e) in
      Return (if tempUC =? lastAC then MCAPI_ERR_QUEUE_EMPTY
              else if u32 (tempUC - tempAC) =? 1 then MCAPI_ERR_QUEUE_EMPTY_PRODUCER_INSERTING
              else MCAPI_SUCCESS)
  | status => Return status
  end.

(** ** The pool of buffers (transport_sm_abb.c) *)

Fixpoint alloc_from (n i : nat) (magic : Z) : prog database (option nat) :=
  match n with
  | O => Return None
  | S n =>
      let! (ok, _) := mrapi_atomic_cas (magic_at i) magic 0 in
      if (ok : bool) then Return (Some i) else alloc_from n (S i) magic
  end.
Definition mcapi_trans_alloc_buffer (magic : Z) : prog database (option nat) :=
  alloc_from MCAPI_MAX_BUFFERS 0 magic.

Definition mcapi_trans_free_buffer (i : nat) : prog database bool :=
  let! oldnum := mrapi_atomic_read (magic_at i) in
  let! (ok, _) := mrapi_atomic_cas (magic_at i) 0 oldnum in
  Return ok.

(** ** Messages through the queue *)

(** [memcpy] from the memory of the user into a buffer, and back. *)
Definition copy_in (i : nat) (buffer : list Z) : prog database unit :=
  for_each 0 (length buffer) (λ j,
    match buffer !! j with Some b => store (byte_at i j) b | None => Raise OutOfBounds end).
Fixpoint copy_out (i j n : nat) (copied : list Z) : prog database (list Z) :=
  match n with
  | O => Return copied
  | S n => let! b := load (byte_at i j) in copy_out i (S j) n (copied ++ [b])
  end.

Definition buff_index_of (i : nat) : Z := i32 (Z.lor (Z.of_nat i) MCAPI_VALID_MASK).
Definition index_of (buff_index : Z) : nat := Z.to_nat (Z.land (u32 buff_index) (Z.lnot MCAPI_VALID_MASK)).

(** The next index in the circular receive queue, reserved; [None] if it is full. *)
Fixpoint reserve_tail (fuel : nat) (e : endpoint_index) : prog database (option Z) :=
  match fuel with
  | O => Raise OutOfFuel
  | S fuel =>
      let! (qindex, status) := mcapi_trans_queue_tail e in
      match status with
      | MCAPI_SUCCESS =>
          let! buff_index := mrapi_atomic_read (buff_index_at e qindex) in
          let! again := load (buff_index_at e qindex) in
          assert_that (0 =? again);!
          let! (ok, _) := mrapi_atomic_cas (state_at e qindex) BUFFER_RESERVED BUFFER_FREE in
          if (ok : bool) then Return (Some qindex) else reserve_tail fuel e
      | MCAPI_ERR_QUEUE_FULL => Return None
      | _ => reserve_tail fuel e
      end
  end.

(** What is written into a buffer: the scalar or the bytes, and the size. *)
Definition fill_buffer (e : endpoint_index) (qindex : Z) (i : nat) (buffer : list Z) (value : Z) :
    prog database unit :=
  store (parent_at i) (Some (e, qindex));!
  let! type := load (channel_at e) in
  (if decide (type = MCAPI_SCL_CHAN) then store (scalar_at i) value else copy_in i buffer);!
  store (size_at i) (Z.of_nat (length buffer)).

Definition mcapi_trans_send (fuel : nat) (e : endpoint_index) (buffer : list Z) (value : Z) :
    prog database bool :=
  let! found := reserve_tail fuel e in
  match found with
  | None => Return false
  | Some qindex =>
      (* find a free mcapi buffer *)
      let! db_buff := mcapi_trans_alloc_buffer MAGIC_NUM in
      match db_buff with
      | None =>
          mrapi_atomic_xchg (state_at e qindex) BUFFER_FREE;!
          Return false
      | Some i =>
          fill_buffer e qindex i buffer value;!
          (* update the pointer in the receive queue to point to our buffer *)
          mrapi_atomic_xchg (buff_index_at e qindex) (buff_index_of i);!
          let! (ok, _) := mrapi_atomic_cas (state_at e qindex) BUFFER_ALLOCATED BUFFER_RESERVED in
          assert_that ok;!
          (* add entry to queue *)
          let! (pushed, _) := mcapi_trans_push_queue fuel e in
          assert_that (qindex =? pushed);!
          Return true
      end
  end.

(** What a receiver gets: the bytes in its own buffer, the index of the system
    buffer whose address it is given, or the scalar. *)
Inductive received := Bytes (l : list Z) | Packet (i : nat) | Scalar (v : Z).

Definition take_data (e : endpoint_index) (i : nat) (n : Z) : prog database received :=
  let! type := load (channel_at e) in
  if decide (type = MCAPI_SCL_CHAN) then let! v := load (scalar_at i) in Return (Scalar v)
  else let! l := copy_out i 0 (Z.to_nat n) [] in Return (Bytes l).

Definition mcapi_trans_recv_ (e : endpoint_index) (buffer_size qindex : Z) :
    prog database (Z * received) :=
  let! buff_index := mrapi_atomic_read (buff_index_at e qindex) in
  let i := index_of buff_index in
  store (parent_at i) (Some (e, qindex));!
  let! received_size := load (size_at i) in
  let n := Z.min buffer_size received_size in
  let! type := load (channel_at e) in
  let! data :=
    if decide (type = MCAPI_PKT_CHAN) then Return (Packet i)
    else
      let! data := take_data e i n in
      (* free the mcapi buffer *)
      let! (ok, _) := mrapi_atomic_cas (magic_at i) 0 MAGIC_NUM in
      assert_that ok;! Return data in
  (* clear the buffer pointer in the receive queue entry *)
  store (reserved_at e qindex) false;!
  store (buff_index_at e qindex) 0;!
  mrapi_atomic_xchg (state_at e qindex) BUFFER_FREE;!
  Return (received_size, data).

(** The entry at the head of the queue, marked as received; [None] if there is
    none and the call does not block. *)
Fixpoint mark_head (fuel : nat) (e : endpoint_index) (blocking : bool) : prog database (option Z) :=
  match fuel with
  | O => Raise OutOfFuel
  | S fuel =>
      let! (qindex, status) := mcapi_trans_queue_head e in
      match status with
      | MCAPI_SUCCESS =>
          let! state := mrapi_atomic_read (state_at e qindex) in
          let! buff_index := mrapi_atomic_read (buff_index_at e qindex) in
          if bool_decide (state ≠ BUFFER_ALLOCATED) || (buff_index =? 0) then
            if blocking then mark_head fuel e blocking else Return None
          else
            let! (ok, _) := mrapi_atomic_cas (state_at e qindex) BUFFER_RECEIVED BUFFER_ALLOCATED in
            assert_that ok;! Return (Some qindex)
      | MCAPI_ERR_QUEUE_EMPTY => if blocking then mark_head fuel e blocking else Return None
      | _ => mark_head fuel e blocking
      end
  end.

Definition mcapi_trans_recv (fuel : nat) (e : endpoint_index) (buffer_size : Z) (blocking : bool) :
    prog database (option (Z * received)) :=
  let! found := mark_head fuel e blocking in
  match found with
  | None => Return None
  | Some qindex =>
      let! r := mcapi_trans_recv_ e buffer_size qindex in
      (* remove entry from queue *)
      let! (_, status) := mcapi_trans_pop_queue fuel e in
      assert_that (match status with MCAPI_SUCCESS => true | _ => false end);!
      Return (Some r)
  end.

(** ** State messages

    The sender is never blocked and overwrites the oldest of [num_send_buffers]
    entries; the receiver reads the newest complete one and reads again when it
    was overwritten meanwhile. *)

Definition mcapi_trans_send_state (e : endpoint_index) (buffer : list Z) (value : Z) :
    prog database bool :=
  (* select next index for write; operation is never blocked *)
  let! counter := mrapi_atomic_inc (update_counter_at e) in
  let! n := load (send_buffers_at e) in
  let! qindex := remainder (counter / 2) n in
  let! state := mrapi_atomic_read (state_at e qindex) in
  let! buff_index := mrapi_atomic_read (buff_index_at e qindex) in
  let index := index_of buff_index in
  (* reuse existing buffer if possible for state communication *)
  let! reused :=
    if buff_index =? 0 then Return None
    else
      let! type := load (channel_at e) in
      Return (if bool_decide (type ≠ MCAPI_PKT_CHAN) || bool_decide (state ≠ BUFFER_RECEIVED)
              then Some index else None) in
  (* reserve entry so mcapi_trans_recv_state does not attempt to read *)
  mrapi_atomic_xchg (state_at e qindex) BUFFER_RESERVED;!
  let! db_buff :=
    match reused with
    | Some i => Return (Some i)
    | None =>
        let! type := load (channel_at e) in
        (if bool_decide (type = MCAPI_PKT_CHAN) && negb (buff_index =? 0)
            && bool_decide (state = BUFFER_RECEIVED) then
           (* mcapi_trans_pktchan_free will garbage collect *)
           let! (ok, _) := mrapi_atomic_cas (magic_at index) MAGIC_NUM RESERVED_NUM in
           assert_that ok
         else Return tt);!
        let! db_buff := mcapi_trans_alloc_buffer RESERVED_NUM in
        match db_buff with
        | None =>
            mrapi_atomic_xchg (state_at e qindex) BUFFER_FREE;!
            mrapi_atomic_xchg (buff_index_at e qindex) 0;!
            Return None
        | Some i => mrapi_atomic_xchg (buff_index_at e qindex) (buff_index_of i);! Return (Some i)
        end
    end in
  let ncounter := u32 (counter + 1) in
  match db_buff with
  | None =>
      (* increment counter to complete write operation *)
      let! (ok, _) := mrapi_atomic_cas (update_counter_at e) ncounter counter in
      assert_that ok;! Return false
  | Some i =>
      fill_buffer e qindex i buffer value;!
      let! state := mrapi_atomic_read (state_at e qindex) in
      (if decide (state = BUFFER_ALLOCATED) then Return tt
       else
         (* mark buffer as allocated *)
         let! (ok, _) := mrapi_atomic_cas (state_at e qindex) BUFFER_ALLOCATED state in
         assert_that ok);!
      (* increment counter to complete write operation *)
      let! (ok, _) := mrapi_atomic_cas (update_counter_at e) ncounter counter in
      assert_that ok;! Return true
  end.

Definition mcapi_trans_recv_state_ (e : endpoint_index) (buffer_size qindex : Z) :
    prog database (Z * received) :=
  let! buff_index := mrapi_atomic_read (buff_index_at e qindex) in
  let i := index_of buff_index in
  store (parent_at i) (Some (e, qindex));!
  let! received_size := load (size_at i) in
  let n := Z.min buffer_size received_size in
  let! type := load (channel_at e) in
  let! data := if decide (type = MCAPI_PKT_CHAN) then Return (Packet i) else take_data e i n in
  Return (received_size, data).

Fixpoint mcapi_trans_recv_state (fuel : nat) (e : endpoint_index) (buffer_size : Z) :
    prog database (option (Z * received)) :=
  match fuel with
  | O => Raise OutOfFuel
  | S fuel =>
      (* save buffer index counter for later read success confirmation *)
      let! counter := mrapi_atomic_read (update_counter_at e) in
      let! n := load (send_buffers_at e) in
      let! qindex := remainder (u32 (counter / 2 - 1)) n in
      let! state := mrapi_atomic_read (state_at e qindex) in
      let! buff_index := mrapi_atomic_read (buff_index_at e qindex) in
      if buff_index =? 0 then
        (* no message to receive *)
        Return None
      else
        let! type := load (channel_at e) in
        let! collision :=
          if decide (type = MCAPI_PKT_CHAN) then
            (* prevent buffer reuse *)
            let! (ok, previous) := mrapi_atomic_cas (state_at e qindex) BUFFER_RECEIVED BUFFER_ALLOCATED in
            if (ok : bool) then Return false
            else if decide (previous = BUFFER_RESERVED) then Return true
            else assert_that (bool_decide (previous = BUFFER_RECEIVED));! Return false
          else Return false in
        if (collision : bool) then mcapi_trans_recv_state fuel e buffer_size
        else
          let! r := mcapi_trans_recv_state_ e buffer_size qindex in
          (* confirm successful read *)
          let! update := mrapi_atomic_read (update_counter_at e) in
          let! n := load (send_buffers_at e) in
          if u32 (update - counter / 2 * 2) <=? u32 (2 * n - 2) then Return (Some r)
          else mcapi_trans_recv_state fuel e buffer_size
  end.

(** The pointer of the user is the index of its buffer. *)
Definition mcapi_trans_pktchan_free (i : nat) : prog database bool :=
  let! oldnum := mrapi_atomic_read (magic_at i) in
  if oldnum =? MAGIC_NUM then mcapi_trans_free_buffer i
  else
    let! parent := load (parent_at i) in
    match parent with
    | None => Return true
    | Some (e, qindex) =>
        let! _ := mrapi_atomic_cas (state_at e qindex) BUFFER_ALLOCATED BUFFER_RECEIVED in
        Return true
    end.
