(* ===== verification/LockfreeFifo.v ===== *)
(** What holds of the receive queues of the lock-free transport between any two
    accesses, when every endpoint has at most one sender and one receiver: each of
    the two is in a phase, and the phases determine the counters, the entries and
    the buffers they point to. *)

From S2P Require Import Prelude LockfreeProg LockfreeQueue.

(** ** Ghost state *)

(** The sender between two sends, with the entry at the tail reserved, with a
    buffer of its own (and its contents), with the entry linked to it, marked as
    allocated, and about to finish the insertion. *)
Inductive sphase :=
| SIdle
| SReserved
| SOwns (b : nat) (x : buffer_entry)
| SLinked (b : nat) (x : buffer_entry)
| SReady (b : nat) (x : buffer_entry)
| SPushing (b : nat) (x : buffer_entry).
(** The receiver between two receives, with the head marked as received, with its
    buffer freed, the entry unlinked and cleared, and about to finish the removal. *)
Inductive rphase := RIdle | RMarked | RFreed | RUnlinked | RCleared | RPopping.

(** The items inserted so far, how many of them were removed, and the phases. *)
Record track := mk_track {
  items : list (nat * buffer_entry);
  popped : nat;
  sending : sphase;
  receiving : rphase }.
#[export] Instance eta_track : Settable track :=
  λ t, mk_track (items t) (popped t) (sending t) (receiving t).
(** [owner b]: the endpoint that buffer [b] belongs to, and the number of its item. *)
Record ghost := mk_ghost {
  tracks : endpoint_index → track;
  owner : nat → option (endpoint_index * nat) }.
Definition idle_track : track := mk_track [] 0 SIdle RIdle.

Definition set_track (e : endpoint_index) (t : track) (g : ghost) : ghost :=
  mk_ghost (λ e', if decide (e' = e) then t else tracks g e') (owner g).
Definition set_owner (b : nat) (o : option (endpoint_index * nat)) (g : ghost) : ghost :=
  mk_ghost (tracks g) (λ b', if decide (b' = b) then o else owner g b').
Lemma set_track_eq e t g : tracks (set_track e t g) e = t.
Proof. cbn. by rewrite decide_True. Qed.
Lemma set_track_ne e e' t g : e' ≠ e → tracks (set_track e t g) e' = tracks g e'.
Proof. intros. cbn. by rewrite decide_False. Qed.
Lemma set_owner_eq b o g : owner (set_owner b o g) b = o.
Proof. cbn. by rewrite decide_True. Qed.
Lemma set_owner_ne b b' o g : b' ≠ b → owner (set_owner b o g) b' = owner g b'.
Proof. intros. cbn. by rewrite decide_False. Qed.

(** ** Entries *)

Definition entries : nat := Z.to_nat MCAPI_MAX_QUEUE_ENTRIES.
Definition slot (k : nat) : Z := Z.of_nat k mod MCAPI_MAX_QUEUE_ENTRIES.

Definition sender_desc (p : sphase) : buffer_descriptor :=
  match p with
  | SIdle => free_descriptor
  | SReserved | SOwns _ _ => mk_descriptor BUFFER_RESERVED 0 false
  | SLinked b _ => mk_descriptor BUFFER_RESERVED (buff_index_of b) false
  | SReady b _ | SPushing b _ => mk_descriptor BUFFER_ALLOCATED (buff_index_of b) false
  end.
Definition receiver_desc (p : rphase) (b : nat) : buffer_descriptor :=
  match p with
  | RIdle => mk_descriptor BUFFER_ALLOCATED (buff_index_of b) false
  | RMarked | RFreed => mk_descriptor BUFFER_RECEIVED (buff_index_of b) false
  | RUnlinked => mk_descriptor BUFFER_RECEIVED 0 false
  | RCleared | RPopping => free_descriptor
  end.
(** The entry of item [k], which may be still to come. *)
Definition desc (t : track) (k : nat) : buffer_descriptor :=
  match items t !! k with
  | Some (b, _) => receiver_desc (if decide (k = popped t) then receiving t else RIdle) b
  | None => if decide (k = length (items t)) then sender_desc (sending t) else free_descriptor
  end.
Definition pushing (p : sphase) : Z := match p with SPushing _ _ => 1 | _ => 0 end.
Definition popping (p : rphase) : Z := match p with RPopping => 1 | _ => 0 end.
Definition sender_owns (p : sphase) : option (nat * buffer_entry) :=
  match p with
  | SIdle | SReserved => None
  | SOwns b x | SLinked b x | SReady b x | SPushing b x => Some (b, x)
  end.

(** ** The invariant *)

(** The buffer of item [k] still belongs to the endpoint: packets stay with the
    user, other items until their data was taken. *)
Definition kept (ty : channel_type) (t : track) (k : nat) : Prop :=
  ty = MCAPI_PKT_CHAN ∨ (popped t < k)%nat ∨
  popped t = k ∧ (receiving t = RIdle ∨ receiving t = RMarked).
Definition holds (ty : channel_type) (t : track) (k b : nat) (x : buffer_entry) : Prop :=
  (kept ty t k ∧ items t !! k = Some (b, x)) ∨
  (k = length (items t) ∧ sender_owns (sending t) = Some (b, x)).

Record queue_ok (e : endpoint_index) (ty : channel_type) (t : track) (q : queue) : Prop := {
  qo_channel : channel q = ty;
  qo_length : length (elements q) = S entries;
  qo_update : update_counter q = 2 * Z.of_nat (length (items t)) + pushing (sending t);
  qo_ack : ack_counter q = 2 * Z.of_nat (popped t) + popping (receiving t);
  qo_bound : Z.of_nat (length (items t)) < 2 ^ 31;
  qo_window : (popped t <= length (items t) <= popped t + entries)%nat;
  qo_room : sending t ≠ SIdle → (length (items t) < popped t + entries)%nat;
  qo_head : receiving t ≠ RIdle → (popped t < length (items t))%nat;
  qo_slots k : (popped t <= k < popped t + entries)%nat →
    elements q !! Z.to_nat (slot k) = Some (desc t k);
  qo_items k b x : items t !! k = Some (b, x) →
    parent x = Some (e, slot k) ∧ 0 <= size x <= Z.of_nat MCAPI_MAX_MSG_SIZE }.

Record pool_ok (own : nat → option (endpoint_index * nat)) (bs : list buffer_entry) : Prop := {
  po_length : length bs = MCAPI_MAX_BUFFERS;
  po_entry i x : bs !! i = Some x →
    length (buff x) = MCAPI_MAX_MSG_SIZE ∧ (magic_num x = 0 ↔ own i = None) }.

Record owned (e : endpoint_index) (ty : channel_type) (t : track)
    (own : nat → option (endpoint_index * nat)) (bs : list buffer_entry) : Prop := {
  ow_held k b x : holds ty t k b x →
    bs !! b = Some x ∧ own b = Some (e, k) ∧ magic_num x = MAGIC_NUM }.

Definition world : Type := database * ghost.
Definition real : world → database := fst.

Section invariant.
(** The channels of the endpoints that take part. *)
Context (types : gmap endpoint_index channel_type).

Record Inv (w : world) : Prop := {
  iv_pool : pool_ok (owner w.2) (buffers w.1);
  iv_queue e ty : types !! e = Some ty → ∃ q,
    queue_of e w.1 = Some q ∧ queue_ok e ty (tracks w.2 e) q;
  iv_owned e ty : types !! e = Some ty → owned e ty (tracks w.2 e) (owner w.2) (buffers w.1) }.

(** ** Threads: the part of the ghost state that is their own *)

Inductive role := Sender | Receiver.
Abbreviation thread_id := (role * endpoint_index)%type.

Definition same_part (r : thread_id) (t t' : track) : Prop :=
  match r.1 with
  | Sender => items t' = items t ∧ sending t' = sending t
  | Receiver => popped t' = popped t ∧ receiving t' = receiving t
  end.
Definition grows (t t' : track) : Prop :=
  items t `prefix_of` items t' ∧ (popped t <= popped t')%nat.

Definition rely (r : thread_id) (w w' : world) : Prop :=
  Inv w → Inv w' ∧ same_part r (tracks w.2 r.2) (tracks w'.2 r.2) ∧
    ∀ e, grows (tracks w.2 e) (tracks w'.2 e).
Definition guarantee (r : thread_id) (w w' : world) : Prop :=
  Inv w → Inv w' ∧ (∀ r', r' ≠ r → same_part r' (tracks w.2 r'.2) (tracks w'.2 r'.2)) ∧
    ∀ e, grows (tracks w.2 e) (tracks w'.2 e).

Lemma same_part_refl r t : same_part r t t.
Proof. by destruct r as [[] e]. Qed.
Lemma grows_refl t : grows t t.
Proof. done. Qed.
#[export] Instance rely_preorder r : PreOrder (rely r).
Proof.
  split.
  - intros w Hw. split_and!; [done|apply same_part_refl|done].
  - intros w1 w2 w3 H12 H23 H1. destruct (H12 H1) as (H2 & Hs & Hg). destruct (H23 H2) as (H3 & Hs' & Hg').
    split_and!; [done| |].
    + destruct r as [[] e]; unfold same_part in *; cbn in *; destruct Hs, Hs'; split; congruence.
    + intros e. destruct (Hg e), (Hg' e). split; [by etrans|lia].
Qed.
Lemma guarantee_rely r r' w w' : r' ≠ r → guarantee r w w' → rely r' w w'.
Proof. intros Hne HG Hw. destruct (HG Hw) as (H & Hs & Hg). split_and!; [done|by apply Hs|done]. Qed.
End invariant.

(** ** Indices *)

Lemma slot_range k : 0 <= slot k < MCAPI_MAX_QUEUE_ENTRIES.
Proof. apply Z.mod_pos_bound. done. Qed.
Lemma slot_index k : (Z.to_nat (slot k) < entries)%nat.
Proof. pose proof (slot_range k). unfold entries. lia. Qed.
Lemma slot_inj p j k :
  (p <= j < p + entries)%nat → (p <= k < p + entries)%nat →
  Z.to_nat (slot j) = Z.to_nat (slot k) → j = k.
Proof.
  intros Hj Hk He. pose proof (slot_range j). pose proof (slot_range k). unfold slot, entries in *.
  assert (Z.of_nat j mod MCAPI_MAX_QUEUE_ENTRIES = Z.of_nat k mod MCAPI_MAX_QUEUE_ENTRIES) as Hm by lia.
  unfold MCAPI_MAX_QUEUE_ENTRIES in *.
  pose proof (Z.div_mod (Z.of_nat j) 65 ltac:(lia)). pose proof (Z.div_mod (Z.of_nat k) 65 ltac:(lia)).
  rewrite Hm in *. assert (Z.of_nat j / 65 = Z.of_nat k / 65) by lia. lia.
Qed.
Lemma slot_next p : slot (p + entries) = slot p.
Proof.
  unfold slot, entries, MCAPI_MAX_QUEUE_ENTRIES. rewrite Nat2Z.inj_add.
  change (Z.of_nat (Z.to_nat 65)) with (1 * 65). apply Z_mod_plus_full.
Qed.
Lemma counter_slot k : (2 * (2 * Z.of_nat k / 2) / 2) mod MCAPI_MAX_QUEUE_ENTRIES = slot k.
Proof. unfold slot. f_equal. rewrite (Z.mul_comm 2 (Z.of_nat k)), Z.div_mul by done. by rewrite Z.mul_comm, Z.div_mul by done. Qed.

Lemma buff_index_ok b : (b < MCAPI_MAX_BUFFERS)%nat → buff_index_of b ≠ 0 ∧ index_of (buff_index_of b) = b.
Proof.
  assert (forallb (λ b, negb (buff_index_of b =? 0) && (index_of (buff_index_of b) =? b)%nat)
            (seq 0 MCAPI_MAX_BUFFERS) = true) as H by (vm_compute; reflexivity).
  intros Hb. rewrite forallb_forall in H. specialize (H b). rewrite in_seq in H.
  specialize (H ltac:(lia)). apply andb_prop in H as [H1 H2%Nat.eqb_eq]. split; [|done].
  intros H0. by rewrite H0 in H1.
Qed.

(** ** Writing a queue *)

Lemma queue_of_upd f e d : queue_of e (upd_queue f e d) = f <$> queue_of e d.
Proof. unfold queue_of, upd_queue. cbn. rewrite lookup_alter_eq. by destruct (endpoints d !! e). Qed.
Lemma queue_of_upd_ne f e e' d : e' ≠ e → queue_of e' (upd_queue f e d) = queue_of e' d.
Proof. intros. unfold queue_of, upd_queue. cbn. by rewrite lookup_alter_ne. Qed.

Section steps.
Context (types : gmap endpoint_index channel_type).

Lemma inv_queue_step e ty f q t' d g :
  Inv types (d, g) → types !! e = Some ty → queue_of e d = Some q → queue_ok e ty t' (f q) →
  (∀ k b x, holds ty t' k b x → holds ty (tracks g e) k b x) →
  Inv types (upd_queue f e d, set_track e t' g).
Proof.
  intros [Hpool Hq Ho] Hty Hd Hok Hh. split; cbn [fst snd].
  - exact Hpool.
  - intros e' ty' He'. destruct (decide (e' = e)) as [->|Hne].
    + simplify_eq. exists (f q). rewrite queue_of_upd, Hd, set_track_eq. done.
    + rewrite queue_of_upd_ne, set_track_ne by done. by apply Hq.
  - intros e' ty' He'. destruct (decide (e' = e)) as [->|Hne].
    + simplify_eq. rewrite set_track_eq. split. intros k b x Hk. apply Hh in Hk.
      by apply (ow_held _ _ _ _ _ (Ho e ty Hty)).
    + rewrite set_track_ne by done. by apply Ho.
Qed.

(** Writing a buffer that belongs to the endpoint or to nobody. *)
Lemma inv_buffer_step e ty f b x o t' d g :
  Inv types (d, g) → types !! e = Some ty → buffers d !! b = Some x →
  (owner g b = None ∨ ∃ k, owner g b = Some (e, k)) →
  length (buff (f x)) = MCAPI_MAX_MSG_SIZE → (magic_num (f x) = 0 ↔ o = None) →
  (∀ q, queue_of e d = Some q → queue_ok e ty (tracks g e) q → queue_ok e ty t' q) →
  (∀ k b' x', holds ty t' k b' x' → (b' ≠ b ∧ holds ty (tracks g e) k b' x') ∨
     (b' = b ∧ x' = f x ∧ o = Some (e, k) ∧ magic_num x' = MAGIC_NUM)) →
  Inv types (upd_buffer f b d, set_track e t' (set_owner b o g)).
Proof.
  intros [Hpool Hq Ho] Hty Hb Hown Hlen Hmagic Hok Hh. split; cbn [fst snd].
  - destruct Hpool as [Hl He]. split; [by cbn; rewrite length_alter|].
    intros i y. cbn. intros Hy. destruct (decide (i = b)) as [->|Hne].
    + rewrite list_lookup_alter_eq, Hb in Hy. injection Hy as <-. done.
    + rewrite list_lookup_alter_ne in Hy by done. by apply He.
  - intros e' ty' He'. change (queue_of e' (upd_buffer f b d)) with (queue_of e' d).
    destruct (decide (e' = e)) as [->|Hne].
    + simplify_eq. rewrite set_track_eq. destruct (Hq e ty Hty) as (q & Hqe & Hqo). exists q. split; [done|]. by apply Hok.
    + rewrite set_track_ne by done. by apply Hq.
  - intros e' ty' He'. destruct (decide (e' = e)) as [->|Hne].
    + simplify_eq. rewrite set_track_eq. split. intros k b' x' Hk.
      destruct (Hh k b' x' Hk) as [[Hne Hk']|(-> & -> & -> & Hm)].
      * destruct (ow_held _ _ _ _ _ (Ho e ty Hty) k b' x' Hk') as (H1 & H2 & H3).
        cbn [owner set_track]. rewrite set_owner_ne by done. split_and!; [|done|done].
        cbn. by rewrite list_lookup_alter_ne by done.
      * cbn [owner set_track]. rewrite set_owner_eq. split_and!; [|done|done].
        cbn. by rewrite list_lookup_alter_eq, Hb.
    + rewrite set_track_ne by done. split. intros k b' x' Hk.
      destruct (ow_held _ _ _ _ _ (Ho e' ty' He') k b' x' Hk) as (H1 & H2 & H3).
      assert (b' ≠ b) as Hbb.
      { intros ->. cbn in H2. destruct Hown as [H|[k' H]]; congruence. }
      cbn [owner set_track]. rewrite set_owner_ne by done. split_and!; [|done|done].
      cbn. by rewrite list_lookup_alter_ne by done.
Qed.
End steps.

(** ** The phases of the sender *)

Section sender_phases.
Context (e : endpoint_index) (ty : channel_type) (t : track) (q : queue) (Hok : queue_ok e ty t q).
Local Abbreviation len := (length (items t)).

Lemma desc_tail : desc t len = sender_desc (sending t).
Proof. unfold desc. rewrite lookup_ge_None_2 by lia. by rewrite decide_True. Qed.
Lemma desc_sending p k :
  desc (t <| sending := p |>) k = if decide (k = len) then sender_desc p else desc t k.
Proof.
  unfold desc, set_field; cbn. destruct (items t !! k) as [[b x]|] eqn:Hk.
  - apply lookup_lt_Some in Hk. by rewrite (decide_False (P := (k = len))) by lia.
  - by destruct (decide (k = length (items t))) as [He|He]; destruct (decide (k = len)).
Qed.
Lemma tail_entry :
  (len < popped t + entries)%nat → elements q !! Z.to_nat (slot len) = Some (sender_desc (sending t)).
Proof. intros Hr. rewrite <- desc_tail. apply (qo_slots _ _ _ _ Hok). pose proof (qo_window _ _ _ _ Hok). lia. Qed.

Lemma queue_ok_slot p f :
  (len < popped t + entries)%nat → f (sender_desc (sending t)) = sender_desc p →
  pushing p = pushing (sending t) →
  queue_ok e ty (t <| sending := p |>) (q <| elements ::= alter f (Z.to_nat (slot len)) |>).
Proof.
  intros Hr Hf Hp. destruct Hok. split; cbn; try done.
  - by rewrite length_alter.
  - by rewrite Hp.
  - intros k Hk. rewrite desc_sending. destruct (decide (k = len)) as [->|Hne].
    + by rewrite list_lookup_alter_eq, tail_entry, <- Hf.
    + rewrite list_lookup_alter_ne; [by apply qo_slots0|].
      intros He. apply Hne. symmetry. eapply slot_inj; [|exact Hk|exact He]. lia.
Qed.
Lemma queue_ok_phase p :
  (p ≠ SIdle → (len < popped t + entries)%nat) → sender_desc p = sender_desc (sending t) →
  pushing p = pushing (sending t) → queue_ok e ty (t <| sending := p |>) q.
Proof.
  intros Hr Hf Hp. destruct Hok. split; cbn; try done.
  - by rewrite Hp.
  - intros k Hk. rewrite desc_sending. destruct (decide (k = len)) as [->|Hne]; [|by apply qo_slots0].
    rewrite Hf, <- desc_tail. by apply qo_slots0.
Qed.
Lemma queue_ok_pushing b x :
  sending t = SReady b x →
  queue_ok e ty (t <| sending := SPushing b x |>) (q <| update_counter := u32 (2 * Z.of_nat len + 1) |>).
Proof.
  intros Hs. destruct Hok. rewrite Hs in *. split; cbn; try done.
  - apply u32_small. lia.
  - intros _. by apply qo_room0.
  - intros k Hk. rewrite desc_sending. destruct (decide (k = len)) as [->|Hne]; [|by apply qo_slots0].
    rewrite qo_slots0, desc_tail, Hs; [done|lia].
Qed.
Lemma queue_ok_pushed b x :
  sending t = SPushing b x → Z.of_nat (S len) < 2 ^ 31 →
  parent x = Some (e, slot len) → 0 <= size x <= Z.of_nat MCAPI_MAX_MSG_SIZE →
  queue_ok e ty (mk_track (items t ++ [(b, x)]) (popped t) SIdle (receiving t))
    (q <| update_counter := u32 (2 * Z.of_nat len + 1 + 1) |>).
Proof.
  intros Hs Hb Hpar Hsize. destruct Hok. rewrite Hs in *. specialize (qo_room0 ltac:(done)).
  split; cbn; rewrite ?length_app; cbn; try done; try lia.
  - rewrite u32_small; lia.
  - intros k Hk. rewrite (qo_slots0 k Hk). f_equal. unfold desc; cbn. rewrite length_app; cbn.
    destruct (decide (k = length (items t))) as [->|Hne].
    + rewrite lookup_ge_None_2, Hs by lia. rewrite lookup_app_r, Nat.sub_diag by lia. cbn.
      destruct (decide (length (items t) = popped t)) as [He|]; [|done].
      destruct (receiving t); try done; specialize (qo_head0 ltac:(done)); lia.
    + destruct (decide (k < length (items t))%nat) as [Hlt|Hge].
      * rewrite lookup_app_l by done.
        by destruct (lookup_lt_is_Some_2 (items t) k Hlt) as [[b' x'] ->].
      * rewrite lookup_ge_None_2 by lia. rewrite lookup_ge_None_2 by (rewrite length_app; cbn; lia).
        by destruct (decide _).
  - intros k b' x' Hk. destruct (decide (k = length (items t))) as [->|Hne].
    + rewrite lookup_app_r, Nat.sub_diag in Hk by lia. cbn in Hk. by simplify_eq.
    + apply (qo_items0 k b' x'). apply lookup_lt_Some in Hk as Hlt. rewrite length_app in Hlt. cbn in Hlt.
      rewrite lookup_app_l in Hk by lia. done.
Qed.
End sender_phases.

(** ** The phases of the receiver *)

Section receiver_phases.
Context (e : endpoint_index) (ty : channel_type) (t : track) (q : queue) (Hok : queue_ok e ty t q).
Context (b : nat) (x : buffer_entry) (Hitem : items t !! popped t = Some (b, x)).

Lemma desc_head : desc t (popped t) = receiver_desc (receiving t) b.
Proof. unfold desc. by rewrite Hitem, decide_True. Qed.
Lemma desc_receiving r k :
  desc (t <| receiving := r |>) k = if decide (k = popped t) then receiver_desc r b else desc t k.
Proof.
  unfold desc, set_field; cbn. destruct (decide (k = popped t)) as [->|Hne]; [|done].
  by rewrite Hitem.
Qed.
Lemma head_entry : elements q !! Z.to_nat (slot (popped t)) = Some (receiver_desc (receiving t) b).
Proof. rewrite <- desc_head. apply (qo_slots _ _ _ _ Hok). unfold entries, MCAPI_MAX_QUEUE_ENTRIES. lia. Qed.
Lemma head_item : (popped t < length (items t))%nat.
Proof. by eapply lookup_lt_Some. Qed.

Lemma queue_ok_head r f :
  f (receiver_desc (receiving t) b) = receiver_desc r b → popping r = popping (receiving t) →
  queue_ok e ty (t <| receiving := r |>) (q <| elements ::= alter f (Z.to_nat (slot (popped t))) |>).
Proof.
  intros Hf Hp. pose proof head_item. destruct Hok. split; cbn; try done.
  - by rewrite length_alter.
  - by rewrite Hp.
  - intros k Hk. rewrite desc_receiving. destruct (decide (k = popped t)) as [->|Hne].
    + by rewrite list_lookup_alter_eq, head_entry, <- Hf.
    + rewrite list_lookup_alter_ne; [by apply qo_slots0|].
      intros He. apply Hne. symmetry. eapply slot_inj; [|exact Hk|exact He]. lia.
Qed.
Lemma queue_ok_receiving r :
  receiver_desc r b = receiver_desc (receiving t) b → popping r = popping (receiving t) →
  queue_ok e ty (t <| receiving := r |>) q.
Proof.
  intros Hf Hp. pose proof head_item. destruct Hok. split; cbn; try done.
  - by rewrite Hp.
  - intros k Hk. rewrite desc_receiving. destruct (decide (k = popped t)) as [->|Hne]; [|by apply qo_slots0].
    by rewrite Hf, <- desc_head, qo_slots0.
Qed.
Lemma queue_ok_popping :
  receiving t = RCleared →
  queue_ok e ty (t <| receiving := RPopping |>) (q <| ack_counter := u32 (2 * Z.of_nat (popped t) + 1) |>).
Proof.
  intros Hr. pose proof head_item. destruct Hok. split; cbn; try done.
  - apply u32_small. lia.
  - intros k Hk. rewrite desc_receiving. destruct (decide (k = popped t)) as [->|Hne]; [|by apply qo_slots0].
    rewrite qo_slots0, desc_head, Hr; [done|lia].
Qed.
Lemma queue_ok_popped :
  receiving t = RPopping →
  queue_ok e ty (mk_track (items t) (S (popped t)) (sending t) RIdle)
    (q <| ack_counter := u32 (2 * Z.of_nat (popped t) + 1 + 1) |>).
Proof.
  intros Hr. pose proof head_item. destruct Hok. split; cbn; try done; try lia.
  - rewrite u32_small; lia.
  - intros k Hk. destruct (decide (k = popped t + entries)%nat) as [->|Hne].
    + rewrite slot_next, head_entry, Hr. cbn. f_equal. unfold desc; cbn.
      rewrite lookup_ge_None_2 by lia. destruct (decide _) as [He|]; [|done].
      destruct (sending t) eqn:Hs; try done; specialize (qo_room0 ltac:(done)); lia.
    + rewrite qo_slots0 by lia. f_equal. unfold desc; cbn. destruct (items t !! k) as [[b' x']|]; [|done].
      rewrite (decide_False (P := (k = popped t))) by lia. by destruct (decide _).
Qed.
End receiver_phases.
