(* ===== verification/LockfreeSender.v ===== *)
(** The sender of an endpoint, access by access: every step keeps the invariant of
    the lock-free queues and leaves the part of the receiver alone. *)

From S2P Require Import Prelude LockfreeProg LockfreeQueue LockfreeFifo.

(** ** Which buffers are held *)

Lemma holds_sending ty t p k b x :
  sender_owns p = None ∨ sender_owns p = sender_owns (sending t) →
  holds ty (t <| sending := p |>) k b x → holds ty t k b x.
Proof.
  intros Hp [[Hk Hi]|[Hk Ho]]; [by left|]. right. split; [done|].
  cbn in Ho. destruct Hp as [Hp|Hp]; congruence.
Qed.
Lemma holds_pushed ty t b x k b' x' :
  sending t = SPushing b x →
  holds ty (mk_track (items t ++ [(b, x)]) (popped t) SIdle (receiving t)) k b' x' → holds ty t k b' x'.
Proof.
  intros Hs [[Hk Hi]|[_ [=]]]. cbn in Hi. destruct (decide (k < length (items t))%nat) as [Hlt|Hge].
  - rewrite lookup_app_l in Hi by done. by left.
  - apply lookup_lt_Some in Hi as Hl. rewrite length_app in Hl. cbn in Hl.
    assert (k = length (items t)) as -> by lia. rewrite lookup_app_r, Nat.sub_diag in Hi by lia.
    cbn in Hi. simplify_eq. right. by rewrite Hs.
Qed.
Lemma holds_owns ty t k b x b' x' p :
  sender_owns p = Some (b, x) →
  holds ty (t <| sending := p |>) k b' x' →
  (k ≠ length (items t) ∧ kept ty t k ∧ items t !! k = Some (b', x')) ∨
  (k = length (items t) ∧ b' = b ∧ x' = x).
Proof.
  intros Hp [[Hk Hi]|[Hk Ho]]; cbn in *; [left|right; split; [done|by simplify_eq]].
  split_and!; [|done|done]. apply lookup_lt_Some in Hi. lia.
Qed.

(** Copying one more element. *)
Lemma insert_take_drop {A} j (v : A) l l' :
  l !! j = Some v → (j < length l')%nat → <[j := v]> (take j l ++ drop j l') = take (S j) l ++ drop (S j) l'.
Proof.
  intros Hv Hj. pose proof (lookup_lt_Some _ _ _ Hv). rewrite (take_S_r _ _ v) by done.
  rewrite insert_app_r_alt by (rewrite length_take; lia). rewrite length_take, Nat.min_l, Nat.sub_diag by lia.
  rewrite <- app_assoc. f_equal. destruct (drop j l') as [|c rest] eqn:Hd.
  - apply (f_equal length) in Hd. rewrite length_drop in Hd. cbn in Hd. lia.
  - cbn. f_equal. replace (S j) with (j + 1)%nat by lia. rewrite <- drop_drop, Hd. done.
Qed.

Lemma load_of_done {A} (l : location A) d v : peek l d = Some v → load_of l d = Done (v, d).
Proof. intros H. unfold load_of, bind, get. by rewrite H. Qed.
Lemma store_of_done {A} (l : location A) d v old :
  peek l d = Some old → store_of l v d = Done (tt, poke l v d).
Proof. intros H. unfold store_of, bind at 1. by rewrite (load_of_done l d old H). Qed.
Lemma cas_of_done `{!EqDecision A} (l : location A) d new old :
  peek l d = Some old → cas_of l new old d = Done ((true, old), poke l new d).
Proof. intros H. unfold cas_of. rewrite (bind_done _ _ _ _ _ (load_of_done l d old H)). by rewrite decide_True. Qed.
Lemma cas_of_miss `{!EqDecision A} (l : location A) d new old v :
  peek l d = Some v → v ≠ old → cas_of l new old d = Done ((false, v), d).
Proof. intros H Hne. unfold cas_of. rewrite (bind_done _ _ _ _ _ (load_of_done l d v H)). by rewrite decide_False. Qed.
Lemma inc_of_done (l : location Z) d v :
  peek l d = Some v → inc_of l d = Done (u32 (v + 1), poke l (u32 (v + 1)) d).
Proof. intros H. unfold inc_of. by rewrite (bind_done _ _ _ _ _ (load_of_done l d v H)). Qed.
Lemma guarantee_refl types r w : guarantee types r w w.
Proof. intros Hw. split_and!; [done| |done]. intros r' _. apply same_part_refl. Qed.

Section sender.
Context (types : gmap endpoint_index channel_type) (e : endpoint_index) (ty : channel_type).
Context (Hty : types !! e = Some ty).

(** Others make [R] steps, which may be fewer than the sender could rely on: it may
    be known that they keep [K] of what the receiver did so far, and [P] of the
    buffers. *)
Context (stuck : Prop) (R : relation world) `{!PreOrder R}.
Context (K : nat → rphase → Prop) (P : list buffer_entry → Prop) (n0 : nat).
Context (R_rely : ∀ w w', R w w' → rely types (Sender, e) w w').
Context (R_keeps : ∀ w w', R w w' → K (popped (tracks w.2 e)) (receiving (tracks w.2 e)) →
  K (popped (tracks w'.2 e)) (receiving (tracks w'.2 e))).
Context (R_pool : ∀ w w', R w w' → P (buffers w.1) → P (buffers w'.1)).

Local Abbreviation safe_s := (safe stuck real R (guarantee types (Sender, e))).

(** What the sender knows: the invariant, its own part, a bound on what was
    removed, and, until it has taken a buffer for item [n0], what is known of the
    buffers. *)
Record at_sender (I : list (nat * buffer_entry)) (ph : sphase) (p : nat) (w : world) : Prop := {
  as_inv : Inv types w;
  as_items : items (tracks w.2 e) = I;
  as_sending : sending (tracks w.2 e) = ph;
  as_popped : (p <= popped (tracks w.2 e))%nat;
  as_keeps : K (popped (tracks w.2 e)) (receiving (tracks w.2 e));
  as_pool : length I = n0 → sender_owns ph = None → P (buffers w.1) }.

Lemma at_sender_rely I ph p w w' :
  at_sender I ph p w → R w w' → at_sender I ph p w'.
Proof.
  intros [Hw Hi Hs Hp HK HP] HR. pose proof (R_keeps _ _ HR HK). pose proof (R_pool _ _ HR). destruct (R_rely _ _ HR Hw) as (Hw' & [Hi' Hs'] & Hg). destruct (Hg e) as [_ Hle].
  cbn in *. split; [done|congruence|congruence|lia|done|auto].
Qed.
Lemma at_sender_less I ph p p' w : at_sender I ph p w → (p' <= p)%nat → at_sender I ph p' w.
Proof. intros [] Hp. split; [done|done|done|lia|done|done]. Qed.
Lemma at_sender_queue I ph p d g :
  at_sender I ph p (d, g) →
  ∃ q, queue_of e d = Some q ∧ queue_ok e ty (tracks g e) q.
Proof. intros [Hw _ _ _ _ _]. apply (iv_queue _ _ Hw e ty Hty). Qed.

Lemma sender_return {A} (a : A) (Q : A → world → Prop) I ph p w :
  at_sender I ph p w → (∀ w', at_sender I ph p w' → Q a w') → safe_s (Return a) Q w.
Proof. intros Hw HQ w' HR. apply HQ. by eapply at_sender_rely. Qed.

Lemma sender_access {X B} (access : M database X) (k : X → prog database B) Q I ph p w :
  at_sender I ph p w →
  (∀ d g q, at_sender I ph p (d, g) → queue_of e d = Some q → queue_ok e ty (tracks g e) q →
     ∃ x w', access d = Done (x, real w') ∧ guarantee types (Sender, e) (d, g) w' ∧ safe_s (k x) Q w') →
  safe_s (let! x := once access in k x) Q w.
Proof.
  intros Hw Hk. apply safe_access. intros [d g] HR. pose proof (at_sender_rely _ _ _ _ _ Hw HR) as H.
  destruct (at_sender_queue _ _ _ _ _ H) as (q & Hq & Hok). by apply (Hk d g q).
Qed.
Lemma sender_read {A B} (l : location A) (k : A → prog database B) Q I ph p w :
  at_sender I ph p w →
  (∀ d g q, at_sender I ph p (d, g) → queue_of e d = Some q → queue_ok e ty (tracks g e) q →
     ∃ v, peek l d = Some v ∧ safe_s (k v) Q (d, g)) →
  safe_s (let! v := once (load_of l) in k v) Q w.
Proof.
  intros Hw Hk. eapply sender_access; [exact Hw|]. intros d g q H Hq Hok.
  destruct (Hk d g q H Hq Hok) as (v & Hv & Hs). exists v, (d, g).
  split; [by apply load_of_done|]. split; [apply guarantee_refl|done].
Qed.

(** A step that changes the sender's part of the ghost state. *)
Lemma sender_step I ph p d g d' I' ph' o :
  at_sender I ph p (d, g) → I `prefix_of` I' →
  (length I' = n0 → sender_owns ph' = None → P (buffers d')) →
  let w' := (d', set_track e (mk_track I' (popped (tracks g e)) ph' (receiving (tracks g e)))
              (mk_ghost (tracks g) o)) in
  Inv types w' → guarantee types (Sender, e) (d, g) w' ∧ at_sender I' ph' p w'.
Proof.
  intros [Hinv0 Hi Hsd Hp HKp HPp] Hpre HP. cbn zeta. intros Hinv. cbn [snd] in *. split.
  - intros _. split_and!; [exact Hinv| |].
    + intros [ro e'] Hne. cbn [snd]. destruct (decide (e' = e)) as [->|He].
      * rewrite set_track_eq. by destruct ro.
      * rewrite set_track_ne by done. apply same_part_refl.
    + intros e'. cbn [snd]. destruct (decide (e' = e)) as [->|He].
      * rewrite set_track_eq. split; [|done]. cbn. by rewrite Hi.
      * by rewrite set_track_ne by done.
  - split; cbn [fst snd]; rewrite ?set_track_eq; done.
Qed.
Lemma track_of I ph p d g :
  at_sender I ph p (d, g) →
  tracks g e = mk_track I (popped (tracks g e)) ph (receiving (tracks g e)).
Proof. intros [_ Hi Hs _ _ _]. cbn in *. destruct (tracks g e). cbn in *. by subst. Qed.

(** Writing the entry at the tail. *)
Lemma sender_tail I ph p d g :
  at_sender I ph p (d, g) → (length I < p + entries)%nat →
  element_of e (slot (length I)) d = Some (sender_desc ph).
Proof.
  intros H Hroom. destruct (at_sender_queue _ _ _ _ _ H) as (q & Hq & Hok). destruct H as [_ Hi Hs Hp _ _].
  cbn [snd] in *. unfold element_of. rewrite Hq. cbn. rewrite <- Hi, <- Hs. apply (tail_entry _ _ _ _ Hok).
  rewrite Hi. lia.
Qed.
Lemma sender_entry {X B} (access : M database X) x f ph' (k : X → prog database B) Q I ph p w :
  at_sender I ph p w → (length I < p + entries)%nat →
  (∀ d, element_of e (slot (length I)) d = Some (sender_desc ph) →
     access d = Done (x, upd_element f e (slot (length I)) d)) →
  f (sender_desc ph) = sender_desc ph' → pushing ph' = pushing ph →
  sender_owns ph' = sender_owns ph →
  (∀ w', at_sender I ph' p w' → safe_s (k x) Q w') →
  safe_s (let! x := once access in k x) Q w.
Proof.
  intros Hw Hroom Ha Hf Hpush Howns Hk. eapply sender_access; [exact Hw|]. intros d g q H Hq Hok.
  pose proof (track_of _ _ _ _ _ H) as Ht. pose proof H as [Hinv Hi Hs Hp HKp HPp]. cbn [snd] in *.
  pose proof (sender_tail _ _ _ _ _ H Hroom) as Hel.
  edestruct (sender_step I ph p d g (upd_element f e (slot (length I)) d) I ph' (owner g) H) as [HG Hat];
    [done|rewrite Howns; exact HPp| |eexists x, (_, _); split; [exact (Ha d Hel)|split; [exact HG|by apply Hk]]].
  unfold upd_element.
  replace (mk_ghost (tracks g) (owner g)) with g by (by destruct g).
  eapply inv_queue_step; [exact Hinv|exact Hty|exact Hq| |].
  - rewrite <- Hi. rewrite Ht at 1 2. rewrite <- Hi.
    apply (queue_ok_slot e ty (tracks g e) q Hok ph' f); [rewrite Hi; lia|by rewrite Hs|by rewrite Hs].
  - intros j b y Hh. apply (holds_sending ty (tracks g e) ph'); [right; by rewrite Hs|].
    unfold set_field; cbn. by rewrite Hi.
Qed.

(** An exchange is a read and a compare-and-swap. *)
Lemma sender_xchg `{!EqDecision A} {B} (l : location A) v old f ph' (k : prog database B) Q I ph p w :
  at_sender I ph p w → (length I < p + entries)%nat →
  (∀ d, element_of e (slot (length I)) d = Some (sender_desc ph) → peek l d = Some old) →
  poke l v = upd_element f e (slot (length I)) →
  f (sender_desc ph) = sender_desc ph' → pushing ph' = pushing ph →
  sender_owns ph' = sender_owns ph →
  (∀ w', at_sender I ph' p w' → safe_s k Q w') →
  safe_s (mrapi_atomic_xchg l v;! k) Q w.
Proof.
  intros Hw Hroom Hpeek Hpoke Hf Hpush Howns Hk.
  change (safe_s (let! previous := once (load_of l) in let! _ := once (cas_of l v previous) in k) Q w).
  eapply sender_read; [exact Hw|]. intros d g q H _ _. exists old. split; [by eapply Hpeek, sender_tail|].
  eapply sender_entry; [exact H|exact Hroom| |exact Hf|exact Hpush|exact Howns|exact Hk].
  intros d' Hd. by rewrite (cas_of_done l d' v old (Hpeek d' Hd)), Hpoke.
Qed.

(** Taking a buffer. *)
Definition busy_below (I : list (nat * buffer_entry)) (i : nat) : Prop :=
  length I = n0 → ∀ j, (j < i)%nat → ∃ bs x, P bs ∧ bs !! j = Some x ∧ magic_num x ≠ 0.
Lemma sender_alloc {B} n i (k : option nat → prog database B) Q I p w :
  at_sender I SReserved p w → (length I < p + entries)%nat → (i + n = MCAPI_MAX_BUFFERS)%nat →
  busy_below I i →
  (∀ w', at_sender I SReserved p w' → busy_below I MCAPI_MAX_BUFFERS → safe_s (k None) Q w') →
  (∀ b x w', (b < MCAPI_MAX_BUFFERS)%nat → length (buff x) = MCAPI_MAX_MSG_SIZE → magic_num x = MAGIC_NUM →
     at_sender I (SOwns b x) p w' → safe_s (k (Some b)) Q w') →
  safe_s (let! r := alloc_from n i MAGIC_NUM in k r) Q w.
Proof.
  intros Hw Hroom. revert i w Hw. induction n as [|n IH]; intros i w Hw Hi Hbusy Hnone Hsome.
  { replace i with MCAPI_MAX_BUFFERS in Hbusy by lia. by apply Hnone. }
  cbn [alloc_from].
  change (safe_s (let! r := once (cas_of (magic_at i) MAGIC_NUM 0) in
    let! r' := (let '(ok, _) := r in if (ok : bool) then Return (Some i) else alloc_from n (S i) MAGIC_NUM) in k r') Q w).
  eapply sender_access; [exact Hw|]. intros d g q H Hq Hok.
  pose proof (track_of _ _ _ _ _ H) as Ht. pose proof H as [Hinv HI Hs Hp HKp HPp]. cbn [snd] in *.
  pose proof (iv_pool _ _ Hinv) as [Hlen Hpool]. cbn [fst snd] in *.
  destruct (lookup_lt_is_Some_2 (buffers d) i) as [x Hx]; [lia|]. destruct (Hpool i x Hx) as [Hl Hm].
  assert (peek (magic_at i) d = Some (magic_num x)) as Hpeek by (cbn; by rewrite Hx).
  destruct (decide (magic_num x = 0)) as [H0|H0].
  - rewrite H0 in Hpeek. set (x' := x <| magic_num := MAGIC_NUM |>).
    edestruct (sender_step I SReserved p d g (poke (magic_at i) MAGIC_NUM d) I (SOwns i x')
      (λ b, if decide (b = i) then Some (e, length I) else owner g b) H) as [HG Hat]; [done|done| |].
    2:{ eexists _, (_, _). split; [by apply cas_of_done|]. split; [exact HG|].
        apply (Hsome i x'); [lia|done|done|exact Hat]. }
    change (mk_ghost (tracks g) (λ b, if decide (b = i) then Some (e, length I) else owner g b))
      with (set_owner i (Some (e, length I)) g).
    assert (mk_track I (popped (tracks g e)) (SOwns i x') (receiving (tracks g e))
            = tracks g e <| sending := SOwns i x' |>) as -> by (rewrite Ht at 3; done).
    eapply inv_buffer_step with (x := x); [exact Hinv|exact Hty|exact Hx|left; by apply Hm|done|done| |].
    + intros q' Hq' Hok'. apply (queue_ok_phase _ _ _ _ Hok'); [rewrite HI; lia|by rewrite Hs|by rewrite Hs].
    + intros j b' y Hh. apply holds_owns with (b := i) (x := x') in Hh; [|done].
      destruct Hh as [(Hne & Hk & Hj)|(-> & -> & ->)]; [left|right; by rewrite HI].
      assert (holds ty (tracks g e) j b' y) as Hh by (by left). split; [|done]. intros ->.
      destruct (ow_held _ _ _ _ _ (iv_owned _ _ Hinv e ty Hty) j i y Hh) as (Hb & Ho & _). cbn in *.
      simplify_eq. rewrite H0 in *. destruct Hm as [Hm _]. specialize (Hm eq_refl). congruence.
  - eexists _, (d, g). split; [by apply cas_of_miss|]. split; [apply guarantee_refl|].
    apply (IH (S i) (d, g) H); [lia| |done|done]. intros Hn j Hj.
    destruct (decide (j = i)) as [->|Hne]; [exists (buffers d), x; split_and!; [by apply HPp|done..]|].
    apply Hbusy; [done|lia].
Qed.

(** Filling the buffer that was taken. *)
Lemma sender_buffer I ph b x p d g :
  at_sender I ph p (d, g) → sender_owns ph = Some (b, x) →
  buffers d !! b = Some x ∧ owner g b = Some (e, length I) ∧ magic_num x = MAGIC_NUM ∧
  length (buff x) = MCAPI_MAX_MSG_SIZE ∧ (b < MCAPI_MAX_BUFFERS)%nat.
Proof.
  intros [Hinv Hi Hs _ _ _] Ho. cbn [snd] in *. pose proof (iv_pool _ _ Hinv) as [Hl Hp].
  destruct (ow_held _ _ _ _ _ (iv_owned _ _ Hinv e ty Hty) (length I) b x) as (Hb & Hown & Hm).
  { right. cbn [snd]. by rewrite Hi, Hs. }
  destruct (Hp b x Hb) as [Hlen _]. apply lookup_lt_Some in Hb as Hlt. cbn [fst snd] in *.
  split_and!; [done..|lia].
Qed.
Lemma sender_fill {X B} (access : M database X) y f (k : X → prog database B) Q I b x p w :
  at_sender I (SOwns b x) p w → (length I < p + entries)%nat →
  (∀ d, buffers d !! b = Some x → length (buff x) = MCAPI_MAX_MSG_SIZE →
     access d = Done (y, upd_buffer f b d)) →
  magic_num (f x) = magic_num x → length (buff (f x)) = length (buff x) →
  (∀ w', at_sender I (SOwns b (f x)) p w' → safe_s (k y) Q w') →
  safe_s (let! r := once access in k r) Q w.
Proof.
  intros Hw Hroom Ha Hm Hl Hk. eapply sender_access; [exact Hw|]. intros d g q H Hq Hok.
  pose proof (track_of _ _ _ _ _ H) as Ht. pose proof H as [Hinv HI Hs Hp HKp HPp]. cbn [snd] in *.
  destruct (sender_buffer _ _ b x _ _ _ H eq_refl) as (Hb & Ho & Hmagic & Hlen & _).
  edestruct (sender_step I (SOwns b x) p d g (upd_buffer f b d) I (SOwns b (f x))
    (λ b', if decide (b' = b) then Some (e, length I) else owner g b') H) as [HG Hat]; [done|done| |].
  2:{ eexists y, (_, _). split; [by apply Ha|]. split; [exact HG|]. by apply Hk. }
  change (mk_ghost (tracks g) (λ b', if decide (b' = b) then Some (e, length I) else owner g b'))
    with (set_owner b (Some (e, length I)) g).
  assert (mk_track I (popped (tracks g e)) (SOwns b (f x)) (receiving (tracks g e))
          = tracks g e <| sending := SOwns b (f x) |>) as -> by (rewrite Ht at 3; done).
  eapply inv_buffer_step with (x := x); [exact Hinv|exact Hty|exact Hb|right; by eexists|congruence| | |].
  - rewrite Hm, Hmagic. done.
  - intros q' Hq' Hok'. apply (queue_ok_phase _ _ _ _ Hok'); [rewrite HI; lia|by rewrite Hs|by rewrite Hs].
  - intros j b' z Hh. apply holds_owns with (b := b) (x := f x) in Hh; [|done].
    destruct Hh as [(Hne & Hkept & Hj)|(-> & -> & ->)]; [left|right; split_and!; [done|done|by rewrite ?HI|congruence]].
    assert (holds ty (tracks g e) j b' z) as Hh by (by left). split; [|done]. intros ->.
    destruct (ow_held _ _ _ _ _ (iv_owned _ _ Hinv e ty Hty) j b z Hh) as (_ & Ho' & _). cbn in *.
    rewrite Ho in Ho'. simplify_eq. 
Qed.

(** The message that an item carries. *)
Definition carries (msg : list Z * Z) (x : buffer_entry) : Prop :=
  size x = Z.of_nat (length msg.1) ∧
  if decide (ty = MCAPI_SCL_CHAN) then scalar x = msg.2 else take (length msg.1) (buff x) = msg.1.

Lemma sender_copy_in {B} (k : prog database B) Q I b x p w buffer :
  at_sender I (SOwns b x) p w → (length I < p + entries)%nat → length (buff x) = MCAPI_MAX_MSG_SIZE →
  (length buffer <= MCAPI_MAX_MSG_SIZE)%nat →
  (∀ w', at_sender I (SOwns b (x <| buff := buffer ++ drop (length buffer) (buff x) |>)) p w' → safe_s k Q w') →
  safe_s (copy_in b buffer;! k) Q w.
Proof.
  intros Hw Hroom Hlen Hsize Hk. apply safe_then; [apply _|].
  set (at_j := λ j, at_sender I (SOwns b (x <| buff := take j buffer ++ drop j (buff x) |>)) p).
  apply safe_for with (I := at_j); [apply _| | | |].
  - intros j w1 w2 HR H. by eapply at_sender_rely.
  - intros j w1 [_ Hj] H. cbn in Hj. destruct (lookup_lt_is_Some_2 buffer j Hj) as [v Hv]. rewrite Hv.
    change (safe_s (let! r := once (store_of (byte_at b j) v) in Return r) (λ _, at_j (S j)) w1).
    assert (j < length (buff x))%nat by lia.
    eapply sender_fill with (y := tt) (f := λ z, z <| buff ::= <[j := v]> |>); [exact H|exact Hroom| | | |].
    + intros d Hd Hl. destruct (lookup_lt_is_Some_2 (buff (x <| buff := take j buffer ++ drop j (buff x) |>)) j) as [old Ho];
        [lia|]. apply store_of_done with (old := old). cbn. rewrite Hd. exact Ho.
    + done.
    + cbn. by rewrite length_insert.
    + intros w2 H2. eapply sender_return; [exact H2|]. intros w3 H3. unfold at_j.
      rewrite <- (insert_take_drop j v buffer (buff x)) by (try done; lia). exact H3.
  - intros w1 H. unfold at_j in H. cbn in H. rewrite firstn_all in H. by apply Hk.
  - unfold at_j. cbn. rewrite drop_0. by destruct x.
Qed.
Lemma sender_fill_buffer I b x p w msg :
  at_sender I (SOwns b x) p w → (length I < p + entries)%nat → length (buff x) = MCAPI_MAX_MSG_SIZE →
  (length msg.1 <= MCAPI_MAX_MSG_SIZE)%nat →
  safe_s (fill_buffer e (slot (length I)) b msg.1 msg.2) (λ _ w', ∃ x', at_sender I (SOwns b x') p w' ∧
    parent x' = Some (e, slot (length I)) ∧ carries msg x') w.
Proof.
  intros Hw Hroom Hlen Hsize. unfold fill_buffer.
  eapply sender_fill with (access := store_of (parent_at b) (Some (e, slot (length I)))) (y := tt)
    (f := λ z, z <| parent := Some (e, slot (length I)) |>); [exact Hw|exact Hroom| |done|done|].
  { intros d Hd _. eapply (store_of_done (parent_at b)). cbn. by rewrite Hd. }
  intros w1 H1. eapply sender_read; [exact H1|]. intros d g q H Hq Hok. exists ty.
  split; [cbn; rewrite Hq; cbn; by rewrite (qo_channel _ _ _ _ Hok)|].
  set (x1 := x <| parent := Some (e, slot (length I)) |>) in *.
  set (Q := λ (_ : unit) w', ∃ x', at_sender I (SOwns b x') p w' ∧
    parent x' = Some (e, slot (length I)) ∧ carries msg x').
  assert (∀ x2 w2, at_sender I (SOwns b x2) p w2 → parent x2 = Some (e, slot (length I)) →
    (if decide (ty = MCAPI_SCL_CHAN) then scalar x2 = msg.2 else take (length msg.1) (buff x2) = msg.1) →
    safe_s (store (size_at b) (Z.of_nat (length msg.1))) Q w2) as Hlast.
  { intros x2 w2 H2 Hp2 Hc2.
    change (safe_s (let! r := once (store_of (size_at b) (Z.of_nat (length msg.1))) in Return r) Q w2).
    eapply sender_fill with (y := tt) (f := λ z, z <| size := Z.of_nat (length msg.1) |>); [exact H2|exact Hroom| |done|done|].
    - intros d' Hd _. eapply (store_of_done (size_at b)). cbn. by rewrite Hd.
    - intros w3 H3. eapply sender_return; [exact H3|]. intros w4 H4. eexists. split; [exact H4|]. by split. }
  destruct (decide (ty = MCAPI_SCL_CHAN)) as [He|Hne].
  - eapply sender_fill with (access := store_of (scalar_at b) msg.2) (y := tt)
      (f := λ z, z <| scalar := msg.2 |>); [exact H|exact Hroom| |done|done|].
    { intros d' Hd _. eapply (store_of_done (scalar_at b)). cbn. by rewrite Hd. }
    intros w2 H2. by eapply Hlast.
  - eapply sender_copy_in; [exact H|exact Hroom|exact Hlen|exact Hsize|].
    intros w2 H2. eapply Hlast; [exact H2|done|]. cbn. by rewrite take_app_length.
Qed.

(** Looking at the tail, and reserving the entry there. *)
Lemma room_spec len pp b :
  (pp <= len <= pp + entries)%nat → 0 <= b <= 1 → (b = 1 → (pp < len)%nat) →
  i32 (2 * Z.of_nat len - (2 * Z.of_nat pp + b)) = 2 * Z.of_nat len - (2 * Z.of_nat pp + b) ∧
  match room (2 * Z.of_nat len - (2 * Z.of_nat pp + b)) with
  | MCAPI_SUCCESS => (len < pp + entries)%nat
  | MCAPI_ERR_QUEUE_FULL => len = (pp + entries)%nat
  | MCAPI_ERR_QUEUE_FULL_CONSUMER_READING => len = (pp + entries)%nat ∧ b = 1
  | _ => False
  end.
Proof.
  unfold entries, room, MCAPI_MAX_QUEUE_ENTRIES. intros Hw Hb Hlt. change (Z.to_nat 65) with 65%nat in *.
  split; [apply i32_small; lia|].
  repeat match goal with
  | |- context [Z.leb ?a ?b] => destruct (Z.leb_spec a b)
  | |- context [Z.eqb ?a ?b] => destruct (Z.eqb_spec a b)
  end; lia.
Qed.
Lemma popping_range r : 0 <= popping r <= 1.
Proof. destruct r; cbn; lia. Qed.
Lemma popping_head t q : queue_ok e ty t q → popping (receiving t) = 1 → (popped t < length (items t))%nat.
Proof. intros Hok Hp. apply (qo_head _ _ _ _ Hok). by destruct (receiving t). Qed.
Lemma even_half n : 2 * (2 * n / 2) = 2 * n.
Proof. rewrite (Z.mul_comm 2 n), Z.div_mul by done. lia. Qed.

Lemma sender_looks {B} (k : Z * queue_status → prog database B) Q I p w :
  at_sender I SIdle p w →
  (∀ st p' r w', at_sender I SIdle p' w' → K p' r → match st with
     | MCAPI_SUCCESS => (length I < p' + entries)%nat
     | MCAPI_ERR_QUEUE_FULL => length I = (p' + entries)%nat
     | MCAPI_ERR_QUEUE_FULL_CONSUMER_READING => length I = (p' + entries)%nat ∧ popping r = 1
     | _ => False
     end → safe_s (k (slot (length I), st)) Q w') →
  safe_s (let! r := mcapi_trans_queue_tail e in k r) Q w.
Proof.
  intros Hw Hk. unfold mcapi_trans_queue_tail. cbn [then_do]. unfold load. cbn [then_do once].
  change (safe_s (let! tempAC := once (load_of (ack_counter_at e)) in
    let! update := once (load_of (update_counter_at e)) in
    k ((2 * (update / 2) / 2) mod MCAPI_MAX_QUEUE_ENTRIES, room (i32 (2 * (update / 2) - tempAC)))) Q w).
  eapply sender_read; [exact Hw|]. intros d g q H Hq Hok.
  exists (2 * Z.of_nat (popped (tracks g e)) + popping (receiving (tracks g e))).
  split; [cbn; rewrite Hq; cbn; by rewrite (qo_ack _ _ _ _ Hok)|].
  set (pp := popped (tracks g e)). set (b := popping (receiving (tracks g e))).
  assert (at_sender I SIdle pp (d, g)) as H' by (destruct H; by split).
  assert ((pp <= length I <= pp + entries)%nat ∧ (b = 1 → (pp < length I)%nat)) as [Hwin Hb].
  { destruct H as [_ Hi _ _ _ _]. cbn in Hi. subst I. split; [apply (qo_window _ _ _ _ Hok)|].
    apply (popping_head _ q Hok). }
  eapply sender_read; [exact H'|]. intros d2 g2 q2 H2 Hq2 Hok2.
  exists (2 * Z.of_nat (length I)). split.
  { cbn. rewrite Hq2. cbn. rewrite (qo_update _ _ _ _ Hok2). destruct H2 as [_ Hi Hs _ _ _]. cbn in *.
    rewrite Hi, Hs. cbn. f_equal. lia. }
  rewrite counter_slot, even_half.
  destruct (room_spec (length I) pp b Hwin (popping_range _) Hb) as [-> Hroom].
  apply (Hk _ pp (receiving (tracks g e)) (d2, g2) H2); [apply (as_keeps _ _ _ _ H)|exact Hroom].
Qed.

(** It waits only while the receiver is in the middle of a removal. *)
Lemma sender_reserves fuel I w :
  at_sender I SIdle 0 w → stuck ∨ (0 < fuel)%nat ∧ (∀ pp r, K pp r → popping r = 0) →
  safe_s (reserve_tail fuel e) (λ r w', match r with
    | None => at_sender I SIdle 0 w' ∧ ∃ pp r, K pp r ∧ length I = (pp + entries)%nat
    | Some i => i = slot (length I) ∧ ∃ p, (length I < p + entries)%nat ∧ at_sender I SReserved p w'
    end) w.
Proof.
  revert w. induction fuel as [|fuel IH]; intros w Hw Hfuel; [by destruct Hfuel as [?|[? _]]; [|lia]|].
  cbn [reserve_tail]. eapply sender_looks; [exact Hw|]. intros st p r w1 H1 HK Hst.
  pose proof (at_sender_less _ _ _ 0 _ H1 ltac:(lia)) as H10.
  destruct st; [| | |destruct Hst as [_ Hpop]|]; try done.
  - eapply (sender_read (buff_index_at e (slot (length I)))); [exact H1|]. intros d g q H Hq Hok. exists 0.
    split; [cbn; by rewrite (sender_tail _ _ _ _ _ H Hst)|].
    eapply (sender_read (buff_index_at e (slot (length I)))); [exact H|]. intros d2 g2 q2 H2 Hq2 Hok2. exists 0.
    split; [cbn; by rewrite (sender_tail _ _ _ _ _ H2 Hst)|]. cbn [Z.eqb assert_that then_do].
    eapply (sender_entry (cas_of (state_at e (slot (length I))) BUFFER_RESERVED BUFFER_FREE))
      with (f := λ x, x <| bd_state := BUFFER_RESERVED |>) (ph' := SReserved); [exact H2|exact Hst| |done|done|done|].
    + intros d3 Hd. apply (cas_of_done (state_at e (slot (length I)))). cbn. by rewrite Hd.
    + intros w4 H4. eapply sender_return; [exact H4|]. intros w5 H5. split; [done|]. by exists p.
  - eapply sender_return; [exact H10|]. intros w2 H2. split; [done|]. by exists p, r.
  - apply IH; [done|]. destruct Hfuel as [?|[_ Hno]]; [by left|]. rewrite (Hno p r HK) in Hpop. done.
Qed.

(** Inserting the entry. *)
Lemma sender_pushes fuel I b x p w :
  at_sender I (SReady b x) p w → (length I < p + entries)%nat → Z.of_nat (S (length I)) < 2 ^ 31 →
  parent x = Some (e, slot (length I)) → 0 <= size x <= Z.of_nat MCAPI_MAX_MSG_SIZE →
  stuck ∨ (0 < fuel)%nat → (n0 <= length I)%nat →
  safe_s (mcapi_trans_push_queue fuel e) (λ r w', r.1 = slot (length I) ∧ at_sender (I ++ [(b, x)]) SIdle 0 w') w.
Proof.
  intros Hw Hroom Hbound Hpar Hsize Hfuel Hn0. destruct fuel as [|fuel]; [by destruct Hfuel; [|lia]|]. cbn [mcapi_trans_push_queue].
  eapply (sender_read (update_counter_at e)); [exact Hw|]. intros d g q H Hq Hok.
  exists (2 * Z.of_nat (length I)). split.
  { cbn. rewrite Hq. cbn. rewrite (qo_update _ _ _ _ Hok). destruct H as [_ Hi Hs _ _ _]. cbn in *.
    rewrite Hi, Hs. cbn. f_equal. lia. }
  rewrite (Z.mul_comm 2), Z_mod_mult. cbn [Z.eqb negb]. rewrite <- (Z.mul_comm 2).
  eapply (sender_read (ack_counter_at e)); [exact H|]. intros d1 g1 q1 H1 Hq1 Hok1.
  exists (2 * Z.of_nat (popped (tracks g1 e)) + popping (receiving (tracks g1 e))).
  split; [cbn; rewrite Hq1; cbn; by rewrite (qo_ack _ _ _ _ Hok1)|].
  assert ((popped (tracks g1 e) <= length I <= popped (tracks g1 e) + entries)%nat ∧
    (popping (receiving (tracks g1 e)) = 1 → (popped (tracks g1 e) < length I)%nat)) as [Hwin Hb].
  { destruct H1 as [_ Hi _ _ _ _]. cbn in Hi. subst I. split; [apply (qo_window _ _ _ _ Hok1)|].
    apply (popping_head _ q1 Hok1). }
  rewrite even_half. destruct (room_spec (length I) _ _ Hwin (popping_range _) Hb) as [-> Hr].
  assert (length I < popped (tracks g1 e) + entries)%nat as Hroom1 by (destruct H1; cbn in *; lia).
  destruct (room _); try lia.
  eapply sender_access; [exact H1|]. intros d2 g2 q2 H2 Hq2 Hok2.
  pose proof (track_of _ _ _ _ _ H2) as Ht. pose proof H2 as [Hinv HI Hs Hp HKp HPp]. cbn [snd] in *.
  edestruct (sender_step I (SReady b x) p d2 g2 (poke (update_counter_at e) (u32 (2 * Z.of_nat (length I) + 1)) d2)
    I (SPushing b x) (owner g2) H2) as [HG Hat]; [done|done| |].
  { replace (mk_ghost (tracks g2) (owner g2)) with g2 by (by destruct g2).
    assert (mk_track I (popped (tracks g2 e)) (SPushing b x) (receiving (tracks g2 e))
            = tracks g2 e <| sending := SPushing b x |>) as -> by (rewrite Ht at 3; done).
    eapply inv_queue_step; [exact Hinv|exact Hty|exact Hq2| |].
    - rewrite <- HI. by apply (queue_ok_pushing e ty (tracks g2 e) q2 Hok2).
    - intros j b' y Hh. eapply holds_sending; [|exact Hh]. right. by rewrite Hs. }
  eexists _, (_, _). split.
  { apply (cas_of_done (update_counter_at e)). cbn. rewrite Hq2. cbn. rewrite (qo_update _ _ _ _ Hok2), HI, Hs.
    cbn. f_equal. lia. }
  split; [exact HG|]. clear HG. cbn beta iota.
  eapply (sender_access (inc_of (update_counter_at e))); [exact Hat|]. intros d3 g3 q3 H3 Hq3 Hok3.
  pose proof H3 as [Hinv3 HI3 Hs3 Hp3 HKp3 HPp3]. cbn [snd] in *.
  edestruct (sender_step I (SPushing b x) p d3 g3 (poke (update_counter_at e) (u32 (2 * Z.of_nat (length I) + 1 + 1)) d3)
    (I ++ [(b, x)]) SIdle (owner g3) H3) as [HG3 Hat3]; [by eexists|rewrite length_app; cbn; lia| |].
  { replace (mk_ghost (tracks g3) (owner g3)) with g3 by (by destruct g3). rewrite <- HI3.
    eapply inv_queue_step; [exact Hinv3|exact Hty|exact Hq3| |].
    - by apply (queue_ok_pushed e ty (tracks g3 e) q3 Hok3); rewrite ?HI3.
    - intros j b' y Hh. by eapply holds_pushed. }
  eexists _, (_, _). split.
  { apply (inc_of_done (update_counter_at e)). cbn. rewrite Hq3. cbn. by rewrite (qo_update _ _ _ _ Hok3), HI3, Hs3. }
  split; [exact HG3|]. eapply sender_return; [exact Hat3|]. intros w4 H4.
  split; [by rewrite <- counter_slot, even_half|]. by eapply at_sender_less; [|lia].
Qed.

(** A whole send: the message is appended; or nothing is, since the queue was full or
    no buffer was free. *)
Definition refused (I : list (nat * buffer_entry)) : Prop :=
  (∃ pp r, K pp r ∧ length I = (pp + entries)%nat) ∨ busy_below I MCAPI_MAX_BUFFERS.
Lemma sender_sends fuel I w msg :
  at_sender I SIdle 0 w → (length msg.1 <= MCAPI_MAX_MSG_SIZE)%nat → Z.of_nat (S (length I)) < 2 ^ 31 →
  (n0 <= length I)%nat → stuck ∨ (0 < fuel)%nat ∧ (∀ pp r, K pp r → popping r = 0) →
  safe_s (mcapi_trans_send fuel e msg.1 msg.2) (λ r w',
    if r then ∃ b x, carries msg x ∧ at_sender (I ++ [(b, x)]) SIdle 0 w'
    else at_sender I SIdle 0 w' ∧ refused I) w.
Proof.
  intros Hw Hsize Hbound Hn0 Hfuel. unfold mcapi_trans_send. apply safe_then; [apply _|].
  eapply safe_mono; [by apply sender_reserves|]. cbn beta. intros [i|] w1; [intros (-> & p & Hroom & H1)|].
  2:{ intros [H1 Hfull]. eapply sender_return; [exact H1|]. intros w2 H2. split; [done|by left]. }
  eapply (sender_alloc MCAPI_MAX_BUFFERS 0); [exact H1|exact Hroom|done|intros _ j; lia| |].
  - intros w2 H2 Hbusy.
    eapply (sender_xchg (state_at e (slot (length I)))) with (f := λ x, x <| bd_state := BUFFER_FREE |>) (ph' := SIdle)
      (old := BUFFER_RESERVED); [exact H2|exact Hroom| |done|done|done|done|].
    + intros d Hd. cbn. by rewrite Hd.
    + intros w3 H3. eapply sender_return; [exact H3|]. intros w4 H4.
      split; [by eapply at_sender_less; [|lia]|by right].
  - intros b x w2 Hb Hlen Hmagic H2. apply safe_then; [apply _|].
    eapply safe_mono; [by eapply sender_fill_buffer; [exact H2|..]|]. cbn beta. intros _ w3 (x' & H3 & Hpar & Hcar).
    eapply (sender_xchg (buff_index_at e (slot (length I)))) with (f := λ y, y <| bd_buff_index := buff_index_of b |>)
      (ph' := SLinked b x') (old := 0); [exact H3|exact Hroom| |done|done|done|done|].
    { intros d Hd. cbn. by rewrite Hd. }
    intros w4 H4.
    eapply (sender_entry (cas_of (state_at e (slot (length I))) BUFFER_ALLOCATED BUFFER_RESERVED))
      with (f := λ y, y <| bd_state := BUFFER_ALLOCATED |>) (ph' := SReady b x');
      [exact H4|exact Hroom| |done|done|done|].
    { intros d Hd. apply (cas_of_done (state_at e (slot (length I)))). cbn. by rewrite Hd. }
    intros w5 H5. cbn [assert_that then_do]. apply safe_then; [apply _|].
    eapply safe_mono; [eapply sender_pushes; [exact H5|exact Hroom|exact Hbound|exact Hpar| | |exact Hn0]|].
    { destruct Hcar as [-> _]. lia. }
    { tauto. }
    cbn beta. intros [pushed st] w6 [Hpu H6]. cbn [fst] in Hpu. subst pushed.
    rewrite Z.eqb_refl. cbn [assert_that then_do].
    eapply sender_return; [exact H6|]. intros w7 H7. by exists b, x'.
Qed.
End sender.
