(* ===== verification/LockfreeReceiver.v ===== *)
(** The receiver of an endpoint, access by access: every step keeps the invariant of
    the lock-free queues and leaves the part of the sender alone. *)

From S2P Require Import Prelude LockfreeProg LockfreeQueue LockfreeFifo LockfreeSender.

Lemma kept_receiving ty t r k :
  kept ty (t <| receiving := r |>) k →
  (r = RIdle ∨ r = RMarked → receiving t = RIdle ∨ receiving t = RMarked) → kept ty t k.
Proof. intros [H|[H|[H1 H2]]] Hr; [by left|by right; left|]. right; right. split; [done|]. by apply Hr. Qed.
Lemma kept_popped ty t k :
  kept ty (mk_track (items t) (S (popped t)) (sending t) RIdle) k → kept ty t k.
Proof. intros [H|[H|[H1 H2]]]; cbn in *; [by left|right; left; lia|right; left; lia]. Qed.

Lemma alter_same {A} (f : A → A) (l : list A) i x : l !! i = Some x → f x = x → alter f i l = l.
Proof.
  intros Hi Hf. apply list_eq. intros j. destruct (decide (j = i)) as [->|Hne].
  - rewrite list_lookup_alter_eq, Hi. cbn. by rewrite Hf.
  - by rewrite list_lookup_alter_ne.
Qed.

Lemma pushing_range s : 0 <= pushing s <= 1.
Proof. destruct s; cbn; lia. Qed.

Section receiver.
Context (types : gmap endpoint_index channel_type) (e : endpoint_index) (ty : channel_type).
Context (Hty : types !! e = Some ty).

(** Others make [R] steps, which may be fewer than the receiver could rely on: it may
    be known that they keep [K] of what the sender did so far. *)
Context (stuck : Prop) (R : relation world) `{!PreOrder R}.
Context (K : list (nat * buffer_entry) → sphase → Prop).
Context (R_rely : ∀ w w', R w w' → rely types (Receiver, e) w w').
Context (R_keeps : ∀ w w', R w w' → K (items (tracks w.2 e)) (sending (tracks w.2 e)) →
  K (items (tracks w'.2 e)) (sending (tracks w'.2 e))).

Local Abbreviation safe_r := (safe stuck real R (guarantee types (Receiver, e))).

(** What the receiver knows: the invariant, its own part, and a prefix of what was
    sent. *)
Record at_receiver (L : list (nat * buffer_entry)) (p : nat) (ph : rphase) (w : world) : Prop := {
  ar_inv : Inv types w;
  ar_items : L `prefix_of` items (tracks w.2 e);
  ar_popped : popped (tracks w.2 e) = p;
  ar_receiving : receiving (tracks w.2 e) = ph;
  ar_keeps : K (items (tracks w.2 e)) (sending (tracks w.2 e)) }.

Lemma at_receiver_rely L p ph w w' :
  at_receiver L p ph w → R w w' → at_receiver L p ph w'.
Proof.
  intros [Hw Hi Hp Hr HK] HR. pose proof (R_keeps _ _ HR HK). destruct (R_rely _ _ HR Hw) as (Hw' & [Hp' Hr'] & Hg). destruct (Hg e) as [Hpre _].
  cbn in *. split; [done|by etrans|congruence|congruence|done].
Qed.
Lemma receiver_return {A} (a : A) (Q : A → world → Prop) L p ph w :
  at_receiver L p ph w → (∀ w', at_receiver L p ph w' → Q a w') → safe_r (Return a) Q w.
Proof. intros Hw HQ w' HR. apply HQ. by eapply at_receiver_rely. Qed.
Lemma receiver_access {X B} (access : M database X) (k : X → prog database B) Q L p ph w :
  at_receiver L p ph w →
  (∀ d g q, at_receiver L p ph (d, g) → queue_of e d = Some q → queue_ok e ty (tracks g e) q →
     ∃ x w', access d = Done (x, real w') ∧ guarantee types (Receiver, e) (d, g) w' ∧ safe_r (k x) Q w') →
  safe_r (let! x := once access in k x) Q w.
Proof.
  intros Hw Hk. apply safe_access. intros [d g] HR. pose proof (at_receiver_rely _ _ _ _ _ Hw HR) as H.
  destruct (iv_queue _ _ (ar_inv _ _ _ _ H) e ty Hty) as (q & Hq & Hok). by apply (Hk d g q).
Qed.
Lemma receiver_read {A B} (l : location A) (k : A → prog database B) Q L p ph w :
  at_receiver L p ph w →
  (∀ d g q, at_receiver L p ph (d, g) → queue_of e d = Some q → queue_ok e ty (tracks g e) q →
     ∃ v, peek l d = Some v ∧ safe_r (k v) Q (d, g)) →
  safe_r (let! v := once (load_of l) in k v) Q w.
Proof.
  intros Hw Hk. eapply receiver_access; [exact Hw|]. intros d g q H Hq Hok.
  destruct (Hk d g q H Hq Hok) as (v & Hv & Hs). exists v, (d, g).
  split; [by apply load_of_done|]. split; [apply guarantee_refl|done].
Qed.

(** A step that changes the receiver's part of the ghost state. *)
Lemma receiver_step L p ph d g d' p' ph' o :
  at_receiver L p ph (d, g) → (p <= p')%nat →
  let w' := (d', set_track e (mk_track (items (tracks g e)) p' (sending (tracks g e)) ph')
              (mk_ghost (tracks g) o)) in
  Inv types w' → guarantee types (Receiver, e) (d, g) w' ∧ at_receiver L p' ph' w'.
Proof.
  intros [Hinv0 Hi Hp Hr HKp] Hle. cbn zeta. intros Hinv. cbn [snd] in *. split.
  - intros _. split_and!; [exact Hinv| |].
    + intros [ro e'] Hne. cbn [snd]. destruct (decide (e' = e)) as [->|He].
      * rewrite set_track_eq. by destruct ro.
      * rewrite set_track_ne by done. apply same_part_refl.
    + intros e'. cbn [snd]. destruct (decide (e' = e)) as [->|He].
      * rewrite set_track_eq. split; [done|]. cbn. lia.
      * by rewrite set_track_ne by done.
  - split; cbn [fst snd]; rewrite ?set_track_eq; done.
Qed.
Lemma track_at L p ph d g :
  at_receiver L p ph (d, g) → tracks g e = mk_track (items (tracks g e)) p (sending (tracks g e)) ph.
Proof. intros [_ _ Hp Hr _]. cbn in *. destruct (tracks g e). cbn in *. by subst. Qed.

(** The item at the head, once it is known. *)
Context (L : list (nat * buffer_entry)) (p b : nat) (x : buffer_entry) (Hitem : L !! p = Some (b, x)).

Lemma receiver_item ph d g : at_receiver L p ph (d, g) → items (tracks g e) !! popped (tracks g e) = Some (b, x).
Proof. intros [_ Hi Hp _ _]. cbn in *. rewrite Hp. by eapply prefix_lookup_Some. Qed.
Lemma receiver_head ph d g :
  at_receiver L p ph (d, g) → element_of e (slot p) d = Some (receiver_desc ph b).
Proof.
  intros H. destruct (iv_queue _ _ (ar_inv _ _ _ _ H) e ty Hty) as (q & Hq & Hok). cbn [fst snd] in *.
  unfold element_of. rewrite Hq. cbn. pose proof (head_entry _ _ _ _ Hok b x (receiver_item _ _ _ H)) as Hh.
  destruct H as [_ _ Hp Hr _]. cbn [snd] in *. by rewrite Hp, Hr in Hh.
Qed.

Lemma receiver_entry {X B} (access : M database X) y f ph ph' (k : X → prog database B) Q w :
  at_receiver L p ph w →
  (∀ d, element_of e (slot p) d = Some (receiver_desc ph b) →
     access d = Done (y, upd_element f e (slot p) d)) →
  f (receiver_desc ph b) = receiver_desc ph' b → popping ph' = popping ph →
  (ph' = RIdle ∨ ph' = RMarked → ph = RIdle ∨ ph = RMarked) →
  (∀ w', at_receiver L p ph' w' → safe_r (k y) Q w') →
  safe_r (let! r := once access in k r) Q w.
Proof.
  intros Hw Ha Hf Hpop Hkept Hk. eapply receiver_access; [exact Hw|]. intros d g q H Hq Hok.
  pose proof (track_at _ _ _ _ _ H) as Ht. pose proof H as [Hinv Hi Hp Hr HKp]. cbn [snd] in *.
  pose proof (receiver_head _ _ _ H) as Hel.
  edestruct (receiver_step L p ph d g (upd_element f e (slot p) d) p ph' (owner g) H) as [HG Hat];
    [done| |eexists y, (_, _); split; [exact (Ha d Hel)|split; [exact HG|by apply Hk]]].
  unfold upd_element.
  replace (mk_ghost (tracks g) (owner g)) with g by (by destruct g).
  assert (mk_track (items (tracks g e)) p (sending (tracks g e)) ph' = tracks g e <| receiving := ph' |>) as ->
    by (rewrite Ht at 3; done).
  eapply inv_queue_step; [exact Hinv|exact Hty|exact Hq| |].
  - rewrite <- Hp. apply (queue_ok_head e ty (tracks g e) q Hok b x (receiver_item _ _ _ H)); by rewrite Hr.
  - intros j b' z [[Hkp Hj]|Hs]; [left|by right]. split; [|done]. eapply kept_receiving; [exact Hkp|]. by rewrite Hr.
Qed.
Lemma receiver_xchg `{!EqDecision A} {B} (l : location A) v old f ph ph' (k : prog database B) Q w :
  at_receiver L p ph w →
  (∀ d, element_of e (slot p) d = Some (receiver_desc ph b) → peek l d = Some old) →
  poke l v = upd_element f e (slot p) →
  f (receiver_desc ph b) = receiver_desc ph' b → popping ph' = popping ph →
  (ph' = RIdle ∨ ph' = RMarked → ph = RIdle ∨ ph = RMarked) →
  (∀ w', at_receiver L p ph' w' → safe_r k Q w') →
  safe_r (mrapi_atomic_xchg l v;! k) Q w.
Proof.
  intros Hw Hpeek Hpoke Hf Hpop Hkept Hk.
  change (safe_r (let! previous := once (load_of l) in let! _ := once (cas_of l v previous) in k) Q w).
  eapply receiver_read; [exact Hw|]. intros d g q H _ _. exists old. split; [by eapply Hpeek, receiver_head|].
  eapply receiver_entry; [exact H| |exact Hf|exact Hpop|exact Hkept|exact Hk].
  intros d' Hd. by rewrite (cas_of_done l d' v old (Hpeek d' Hd)), Hpoke.
Qed.

(** The buffer of the item, until it is freed. *)
Definition readable (ph : rphase) : Prop := ph = RIdle ∨ ph = RMarked ∨ ty = MCAPI_PKT_CHAN.
Lemma receiver_buffer ph d g :
  at_receiver L p ph (d, g) → readable ph →
  buffers d !! b = Some x ∧ owner g b = Some (e, p) ∧ magic_num x = MAGIC_NUM ∧
  length (buff x) = MCAPI_MAX_MSG_SIZE ∧ parent x = Some (e, slot p) ∧ 0 <= size x <= Z.of_nat MCAPI_MAX_MSG_SIZE.
Proof.
  intros H Hrd. pose proof (receiver_item _ _ _ H) as Hit. destruct H as [Hinv Hi Hp Hr HKp]. cbn [snd] in *.
  pose proof (iv_pool _ _ Hinv) as [Hl Hpool].
  destruct (iv_queue _ _ Hinv e ty Hty) as (q & Hq & Hok). cbn [fst snd] in *. rewrite Hp in Hit.
  destruct (ow_held _ _ _ _ _ (iv_owned _ _ Hinv e ty Hty) p b x) as (Hb & Hown & Hm).
  { left. cbn [snd]. split; [|done]. unfold kept. rewrite Hp, Hr. unfold readable in Hrd. tauto. }
  destruct (Hpool b x Hb) as [Hlen _]. destruct (qo_items _ _ _ _ Hok p b x Hit).
  repeat (split; [done|]). done.
Qed.
Lemma receiver_buffer_read {A B} (l : location A) v ph (k : A → prog database B) Q w :
  at_receiver L p ph w → readable ph →
  (∀ d, buffers d !! b = Some x → length (buff x) = MCAPI_MAX_MSG_SIZE → peek l d = Some v) →
  (∀ w', at_receiver L p ph w' → safe_r (k v) Q w') →
  safe_r (let! r := once (load_of l) in k r) Q w.
Proof.
  intros Hw Hrd Hv Hk. eapply receiver_read; [exact Hw|]. intros d g q H _ _. exists v.
  destruct (receiver_buffer _ _ _ H Hrd) as (Hb & _ & _ & Hl & _). split; [by apply Hv|by apply Hk].
Qed.
(** The pointer that is stored is already there. *)
Lemma receiver_parent {B} ph (k : prog database B) Q w :
  at_receiver L p ph w → readable ph → (∀ w', at_receiver L p ph w' → safe_r k Q w') →
  safe_r (store (parent_at b) (Some (e, slot p));! k) Q w.
Proof.
  intros Hw Hrd Hk. change (safe_r (let! _ := once (store_of (parent_at b) (Some (e, slot p))) in k) Q w).
  eapply receiver_access; [exact Hw|]. intros d g q H _ _.
  destruct (receiver_buffer _ _ _ H Hrd) as (Hb & _ & _ & _ & Hpar & _).
  exists tt, (d, g). split; [|split; [apply guarantee_refl|by apply Hk]].
  erewrite store_of_done by (cbn; by rewrite Hb). cbn [real fst]. f_equal. f_equal.
  destruct d as [ep bs]. cbn in *. unfold upd_buffer, set_field. cbn. f_equal.
  apply (alter_same _ _ _ x Hb). destruct x. cbn in *. by subst.
Qed.

(** Freeing the buffer. *)
Lemma receiver_frees {B} (k : bool * Z → prog database B) Q w :
  at_receiver L p RMarked w → ty ≠ MCAPI_PKT_CHAN →
  (∀ w', at_receiver L p RFreed w' → safe_r (k (true, MAGIC_NUM)) Q w') →
  safe_r (let! r := mrapi_atomic_cas (magic_at b) 0 MAGIC_NUM in k r) Q w.
Proof.
  intros Hw Hnp Hk. change (safe_r (let! r := once (cas_of (magic_at b) 0 MAGIC_NUM) in k r) Q w).
  eapply receiver_access; [exact Hw|]. intros d g q H Hq Hok.
  pose proof (track_at _ _ _ _ _ H) as Ht. pose proof H as [Hinv Hi Hp Hr HKp]. cbn [snd] in *.
  destruct (receiver_buffer _ _ _ H ltac:(right; by left)) as (Hb & Hown & Hm & Hlen & _).
  pose proof (receiver_item _ _ _ H) as Hit. rewrite Hp in Hit.
  edestruct (receiver_step L p RMarked d g (poke (magic_at b) 0 d) p RFreed
    (λ b', if decide (b' = b) then None else owner g b') H) as [HG Hat]; [done| |].
  2:{ eexists _, (_, _). split; [apply cas_of_done; cbn; by rewrite Hb, <- Hm|]. split; [exact HG|]. by apply Hk. }
  change (mk_ghost (tracks g) (λ b', if decide (b' = b) then None else owner g b')) with (set_owner b None g).
  assert (mk_track (items (tracks g e)) p (sending (tracks g e)) RFreed = tracks g e <| receiving := RFreed |>) as ->
    by (rewrite Ht at 3; done).
  assert (∀ j y, holds ty (tracks g e) j b y → j = p) as Honly.
  { intros j y Hh. destruct (ow_held _ _ _ _ _ (iv_owned _ _ Hinv e ty Hty) j b y Hh) as (_ & Ho & _).
    cbn in Ho. rewrite Hown in Ho. by simplify_eq. }
  eapply inv_buffer_step with (x := x); [exact Hinv|exact Hty|exact Hb|right; by eexists|done|done| |].
  - intros q' _ Hok'. apply (queue_ok_receiving _ _ _ _ Hok' b x); [by rewrite Hp|by rewrite Hr..].
  - intros j b' z [[Hkp Hj]|[Hj Hs]]; left.
    + assert (j ≠ p) as Hne.
      { intros ->. destruct Hkp as [?|[Hlt|[_ [?|?]]]]; cbn in *; [done|lia|done..]. }
      assert (holds ty (tracks g e) j b' z) as Hh.
      { left. split; [|done]. destruct Hkp as [?|[Hlt|[He _]]]; cbn in *; [by left|by right; left|congruence]. }
      split; [|done]. intros ->. apply Hne. by eapply Honly.
    + assert (holds ty (tracks g e) j b' z) as Hh by (by right). split; [|done]. intros ->.
      apply Honly in Hh as ->. cbn in Hj. apply lookup_lt_Some in Hit. lia.
Qed.

Lemma receiver_copies {B} ph n j copied (k : list Z → prog database B) Q w :
  at_receiver L p ph w → readable ph → (j + n <= MCAPI_MAX_MSG_SIZE)%nat →
  (∀ w', at_receiver L p ph w' → safe_r (k (copied ++ take n (drop j (buff x)))) Q w') →
  safe_r (let! l := copy_out b j n copied in k l) Q w.
Proof.
  revert j copied w. induction n as [|n IH]; intros j copied w Hw Hrd Hn Hk.
  - cbn. rewrite <- (app_nil_r copied). by apply Hk.
  - cbn [copy_out].
    eapply receiver_read; [exact Hw|]. intros d g q H _ _.
    destruct (receiver_buffer _ _ _ H Hrd) as (Hb & _ & _ & Hl & _).
    destruct (lookup_lt_is_Some_2 (buff x) j) as [v Hv]; [lia|]. exists v.
    split; [cbn; rewrite Hb; exact Hv|]. apply (IH (S j) (copied ++ [v]) (d, g) H Hrd); [lia|].
    intros w' H'. rewrite <- app_assoc. cbn. specialize (Hk w' H').
    by rewrite (drop_S _ v) in Hk by done.
Qed.

(** What the receiver of an item gets. *)
Definition delivered (buffer_size : Z) (r : Z * received) : Prop :=
  r.1 = size x ∧ r.2 = match ty with
    | MCAPI_SCL_CHAN => Scalar (scalar x)
    | MCAPI_PKT_CHAN => Packet b
    | MCAPI_NO_CHAN => Bytes (take (Z.to_nat (Z.min buffer_size (size x))) (buff x))
    end.

Lemma receiver_takes {B} n (k : received → prog database B) Q w :
  at_receiver L p RMarked w → ty ≠ MCAPI_PKT_CHAN → (Z.to_nat n <= MCAPI_MAX_MSG_SIZE)%nat →
  (∀ w', at_receiver L p RMarked w' → safe_r (k (match ty with
     | MCAPI_SCL_CHAN => Scalar (scalar x) | _ => Bytes (take (Z.to_nat n) (buff x)) end)) Q w') →
  safe_r (let! r := take_data e b n in k r) Q w.
Proof.
  intros Hw Hnp Hn Hk. unfold take_data. eapply receiver_read; [exact Hw|]. intros d g q H Hq Hok.
  exists ty. split; [cbn; rewrite Hq; cbn; by rewrite (qo_channel _ _ _ _ Hok)|].
  assert (readable RMarked) as Hrd by (right; by left).
  destruct (decide (ty = MCAPI_SCL_CHAN)) as [Hs|Hs].
  - eapply (receiver_buffer_read (scalar_at b)); [exact H|exact Hrd| |].
    + intros d' Hb _. cbn. by rewrite Hb.
    + intros w' H'. specialize (Hk w' H'). by rewrite Hs in Hk.
  - cbn [then_do].
    change (safe_r (let! l := (let! l := copy_out b 0 (Z.to_nat n) [] in Return (Bytes l)) in k l) Q (d, g)).
    apply safe_then; [apply _|]. eapply receiver_copies; [exact H|exact Hrd|lia|]. intros w' H'.
    eapply receiver_return; [exact H'|]. intros w2 H2. cbn [app]. rewrite drop_0.
    specialize (Hk w2 H2). by destruct ty.
Qed.

Lemma receiver_clears r buffer_size ph w :
  at_receiver L p ph w → ph ≠ RIdle → popping ph = 0 →
  delivered buffer_size r →
  (receiver_desc ph b = mk_descriptor BUFFER_RECEIVED (buff_index_of b) false) →
  safe_r (store (reserved_at e (slot p)) false;!
          store (buff_index_at e (slot p)) 0;!
          mrapi_atomic_xchg (state_at e (slot p)) BUFFER_FREE;!
          Return r) (λ r' w', at_receiver L p RCleared w' ∧ delivered buffer_size r') w.
Proof.
  intros Hw Hne Hpop Hr Hd.
  eapply (receiver_entry (store_of (reserved_at e (slot p)) false)) with (y := tt)
    (f := λ z, z <| bd_reserved := false |>) (ph' := ph); [exact Hw| |by rewrite Hd|done|done|].
  { intros d Hel. eapply (store_of_done (reserved_at e (slot p))). cbn. by rewrite Hel. }
  intros w1 H1.
  eapply (receiver_entry (store_of (buff_index_at e (slot p)) 0)) with (y := tt)
    (f := λ z, z <| bd_buff_index := 0 |>) (ph' := RUnlinked); [exact H1| |by rewrite Hd|by rewrite Hpop|by intros [?|?]|].
  { intros d Hel. eapply (store_of_done (buff_index_at e (slot p))). cbn. by rewrite Hel. }
  intros w2 H2.
  eapply (receiver_xchg (state_at e (slot p))) with (old := BUFFER_RECEIVED)
    (f := λ z, z <| bd_state := BUFFER_FREE |>) (ph' := RCleared); [exact H2| |done|done|done|by intros [?|?]|].
  { intros d Hel. cbn. by rewrite Hel. }
  intros w3 H3. eapply receiver_return; [exact H3|]. by split.
Qed.

Lemma receiver_receives buffer_size w :
  at_receiver L p RMarked w →
  safe_r (mcapi_trans_recv_ e buffer_size (slot p))
    (λ r w', at_receiver L p RCleared w' ∧ delivered buffer_size r) w.
Proof.
  intros Hw. unfold mcapi_trans_recv_. assert (readable RMarked) as Hrd by (right; by left).
  eapply (receiver_read (buff_index_at e (slot p))); [exact Hw|]. intros d g q H Hq Hok. exists (buff_index_of b).
  split; [cbn; by rewrite (receiver_head _ _ _ H)|].
  destruct (receiver_buffer _ _ _ H Hrd) as (Hb & _ & _ & _ & _ & Hsize).
  assert (b < MCAPI_MAX_BUFFERS)%nat as Hlt.
  { rewrite <- (po_length _ _ (iv_pool _ _ (ar_inv _ _ _ _ H))). by eapply lookup_lt_Some. }
  destruct (buff_index_ok b Hlt) as [_ ->].
  apply receiver_parent with (ph := RMarked); [exact H|exact Hrd|]. intros w1 H1.
  eapply (receiver_buffer_read (size_at b)); [exact H1|exact Hrd| |].
  { intros d' Hd _. cbn. by rewrite Hd. }
  intros w2 H2. eapply (receiver_read (channel_at e)); [exact H2|]. intros d3 g3 q3 H3 Hq3 Hok3. exists ty.
  split; [cbn; rewrite Hq3; cbn; by rewrite (qo_channel _ _ _ _ Hok3)|].
  destruct (decide (ty = MCAPI_PKT_CHAN)) as [Hp|Hp].
  - cbn [then_do]. eapply receiver_clears; [exact H3|done|done| |done]. split; [done|]. by rewrite Hp.
  - apply safe_then; [apply _|]. eapply receiver_takes; [exact H3|exact Hp|lia|]. intros w4 H4.
    eapply receiver_frees; [exact H4|exact Hp|]. intros w5 H5. cbn [assert_that then_do].
    eapply receiver_return; [exact H5|]. intros w6 H6.
    eapply receiver_clears; [exact H6|done|done| |done]. split; [done|]. by destruct ty.
Qed.

(** Removing the entry. *)
Lemma receiver_pops fuel w :
  at_receiver L p RCleared w → stuck ∨ (0 < fuel)%nat →
  safe_r (mcapi_trans_pop_queue fuel e) (λ r w', r.2 = MCAPI_SUCCESS ∧ at_receiver L (S p) RIdle w') w.
Proof.
  intros Hw Hfuel. destruct fuel as [|fuel]; [by destruct Hfuel; [|lia]|]. cbn [mcapi_trans_pop_queue].
  eapply (receiver_read (ack_counter_at e)); [exact Hw|]. intros d g q H Hq Hok.
  exists (2 * Z.of_nat p). split.
  { cbn. rewrite Hq. cbn. rewrite (qo_ack _ _ _ _ Hok). destruct H as [_ _ Hp Hr _]. cbn in *.
    rewrite Hp, Hr. cbn. f_equal. lia. }
  rewrite (Z.mul_comm 2), Z_mod_mult. cbn [Z.eqb negb]. rewrite <- (Z.mul_comm 2), even_half.
  eapply (receiver_read (update_counter_at e)); [exact H|]. intros d1 g1 q1 H1 Hq1 Hok1.
  exists (2 * Z.of_nat (length (items (tracks g1 e))) + pushing (sending (tracks g1 e))).
  split; [cbn; rewrite Hq1; cbn; by rewrite (qo_update _ _ _ _ Hok1)|].
  pose proof (lookup_lt_Some _ _ _ (receiver_item _ _ _ H1)) as Hlen.
  pose proof (qo_bound _ _ _ _ Hok1) as Hbound. pose proof (pushing_range (sending (tracks g1 e))) as Hpr.
  pose proof (ar_popped _ _ _ _ H1) as Hpp. cbn [snd] in Hpp. rewrite Hpp in Hlen.
  rewrite (proj2 (Z.eqb_neq _ _)) by lia. rewrite u32_small by lia. rewrite (proj2 (Z.eqb_neq _ _)) by lia.
  eapply receiver_access; [exact H1|]. intros d2 g2 q2 H2 Hq2 Hok2.
  pose proof (track_at _ _ _ _ _ H2) as Ht. pose proof H2 as [Hinv Hi Hp Hr HKp]. cbn [snd] in *.
  edestruct (receiver_step L p RCleared d2 g2 (poke (ack_counter_at e) (u32 (2 * Z.of_nat p + 1)) d2)
    p RPopping (owner g2) H2) as [HG Hat]; [done| |].
  { replace (mk_ghost (tracks g2) (owner g2)) with g2 by (by destruct g2).
    assert (mk_track (items (tracks g2 e)) p (sending (tracks g2 e)) RPopping
            = tracks g2 e <| receiving := RPopping |>) as -> by (rewrite Ht at 3; done).
    eapply inv_queue_step; [exact Hinv|exact Hty|exact Hq2| |].
    - rewrite <- Hp. by apply (queue_ok_popping e ty (tracks g2 e) q2 Hok2 b x (receiver_item _ _ _ H2)).
    - intros j b' y [[Hkp Hj]|Hs]; [left|by right]. split; [|done]. eapply kept_receiving; [exact Hkp|]. by intros [?|?]. }
  eexists _, (_, _). split.
  { apply (cas_of_done (ack_counter_at e)). cbn. rewrite Hq2. cbn. rewrite (qo_ack _ _ _ _ Hok2), Hp, Hr.
    cbn. f_equal. lia. }
  split; [exact HG|]. clear HG. cbn beta iota.
  eapply (receiver_access (inc_of (ack_counter_at e))); [exact Hat|]. intros d3 g3 q3 H3 Hq3 Hok3.
  pose proof (track_at _ _ _ _ _ H3) as Ht3. pose proof H3 as [Hinv3 HI3 Hp3 Hr3 HKp3]. cbn [snd] in *.
  edestruct (receiver_step L p RPopping d3 g3 (poke (ack_counter_at e) (u32 (2 * Z.of_nat p + 1 + 1)) d3)
    (S p) RIdle (owner g3) H3) as [HG3 Hat3]; [lia| |].
  { replace (mk_ghost (tracks g3) (owner g3)) with g3 by (by destruct g3). rewrite <- Hp3.
    eapply inv_queue_step; [exact Hinv3|exact Hty|exact Hq3| |].
    - by apply (queue_ok_popped e ty (tracks g3 e) q3 Hok3 b x (receiver_item _ _ _ H3)).
    - intros j b' y [[Hkp Hj]|Hs]; [left|by right]. split; [|done]. by apply kept_popped. }
  eexists _, (_, _). split.
  { apply (inc_of_done (ack_counter_at e)). cbn. rewrite Hq3. cbn. by rewrite (qo_ack _ _ _ _ Hok3), Hp3, Hr3. }
  split; [exact HG3|]. eapply receiver_return; [exact Hat3|]. done.
Qed.
End receiver.

Section receive.
Context (types : gmap endpoint_index channel_type) (e : endpoint_index) (ty : channel_type).
Context (Hty : types !! e = Some ty).
Context (stuck : Prop) (R : relation world) `{!PreOrder R}.
Context (K : list (nat * buffer_entry) → sphase → Prop).
Context (R_rely : ∀ w w', R w w' → rely types (Receiver, e) w w').
Context (R_keeps : ∀ w w', R w w' → K (items (tracks w.2 e)) (sending (tracks w.2 e)) →
  K (items (tracks w'.2 e)) (sending (tracks w'.2 e))).
Local Abbreviation safe_r := (safe stuck real R (guarantee types (Receiver, e))).
Local Abbreviation at_r := (at_receiver types e K).

(** Nothing was there to receive. *)
Definition nothing (p : nat) : Prop := ∃ I s, K I s ∧ length I = p.
(** A call waits only while the sender is in the middle of an insertion, or for a
    message. *)
Definition prompt (blocking : bool) (p : nat) : Prop :=
  ∀ I s, K I s → pushing s = 0 ∧ (blocking = true → (p < length I)%nat).

Lemma receiver_marks fuel blocking L p w :
  at_r L p RIdle w → stuck ∨ (0 < fuel)%nat ∧ prompt blocking p →
  safe_r (mark_head fuel e blocking) (λ r w', match r with
    | None => at_r L p RIdle w' ∧ nothing p
    | Some i => i = slot p ∧ ∃ L' b x, L `prefix_of` L' ∧ L' !! p = Some (b, x) ∧ at_r L' p RMarked w'
    end) w.
Proof.
  revert w. induction fuel as [|fuel IH]; intros w Hw Hfuel; [by destruct Hfuel as [?|[? _]]; [|lia]|].
  cbn [mark_head]. unfold mcapi_trans_queue_head, load. cbn [then_do once].
  assert (∀ w', at_r L p RIdle w' → nothing p → safe_r (Return None) (λ r w', match r with
    | None => at_r L p RIdle w' ∧ nothing p
    | Some i => i = slot p ∧ ∃ L' b x, L `prefix_of` L' ∧ L' !! p = Some (b, x) ∧ at_r L' p RMarked w'
    end) w') as Hnone by (intros; by eapply (receiver_return types e stuck R K R_rely R_keeps)).
  match goal with |- safe _ _ _ _ (Atomic _ ?k) ?Q _ =>
    change (safe_r (let! v := once (load_of (update_counter_at e)) in k v) Q w) end.
  eapply receiver_read; [exact Hty|exact R_rely|exact R_keeps|exact Hw|]. intros d g q H Hq Hok. cbn beta.
  exists (2 * Z.of_nat (length (items (tracks g e))) + pushing (sending (tracks g e))).
  split; [cbn; rewrite Hq; cbn; by rewrite (qo_update _ _ _ _ Hok)|].
  assert (at_r (items (tracks g e)) p RIdle (d, g)) as Hnew by (destruct H; by split).
  assert (L `prefix_of` items (tracks g e)) as Hpre by apply (ar_items _ _ _ _ _ _ _ H).
  pose proof (qo_bound _ _ _ _ Hok) as Hbound. pose proof (qo_window _ _ _ _ Hok) as [Hwin _].
  rewrite (ar_popped _ _ _ _ _ _ _ H : popped (tracks g e) = p) in Hwin.
  pose proof (pushing_range (sending (tracks g e))) as Hpr.
  pose proof (ar_keeps _ _ _ _ _ _ _ H : K (items (tracks g e)) (sending (tracks g e))) as HK.
  clear H Hw. set (I := items (tracks g e)) in *. set (s := sending (tracks g e)) in *. set (pb := pushing s) in *.
  clearbody I s.
  match goal with |- safe _ _ _ _ (Atomic _ ?k) ?Q ?w =>
    change (safe_r (let! v := once (load_of (ack_counter_at e)) in k v) Q w) end.
  eapply receiver_read; [exact Hty|exact R_rely|exact R_keeps|exact Hnew|]. intros d1 g1 q1 H1 Hq1 Hok1. cbn beta.
  exists (2 * Z.of_nat p). split.
  { cbn. rewrite Hq1. cbn. rewrite (qo_ack _ _ _ _ Hok1). destruct H1 as [_ _ Hp Hr _]. cbn in *.
    rewrite Hp, Hr. cbn. f_equal. lia. }
  rewrite counter_slot, even_half.
  assert (∀ w', at_r I p RIdle w' → at_r L p RIdle w') as Hold by (intros w' []; split; [done|by etrans|done..]).
  destruct (Z.eqb_spec (2 * Z.of_nat (length I) + pb) (2 * Z.of_nat p)).
  { destruct blocking; [|apply Hnone; [by apply Hold|exists I, s; split; [done|lia]]].
    apply IH; [by apply Hold|]. destruct Hfuel as [?|[_ Hno]]; [by left|]. destruct (Hno I s HK) as [_ Hlt].
    specialize (Hlt eq_refl). lia. }
  rewrite u32_small by lia.
  destruct (Z.eqb_spec (2 * Z.of_nat (length I) + pb - 2 * Z.of_nat p) 1).
  { apply IH; [by apply Hold|]. destruct Hfuel as [?|[_ Hno]]; [by left|]. destruct (Hno I s HK) as [Hp0 _]. lia. }
  destruct (lookup_lt_is_Some_2 I p) as [[b x] Hitem]; [lia|].
  eapply (receiver_read types e ty Hty stuck R K R_rely R_keeps (state_at e (slot p))); [exact H1|]. intros d2 g2 q2 H2 _ _.
  exists BUFFER_ALLOCATED. split; [cbn; by rewrite (receiver_head types e ty Hty K _ _ _ _ Hitem _ _ _ H2)|].
  eapply (receiver_read types e ty Hty stuck R K R_rely R_keeps (buff_index_at e (slot p))); [exact H2|]. intros d3 g3 q3 H3 _ _.
  exists (buff_index_of b). split; [cbn; by rewrite (receiver_head types e ty Hty K _ _ _ _ Hitem _ _ _ H3)|].
  destruct (receiver_buffer types e ty Hty K _ _ _ _ Hitem RIdle _ _ H3 ltac:(by left)) as (Hb & _).
  assert (b < MCAPI_MAX_BUFFERS)%nat as Hlt.
  { rewrite <- (po_length _ _ (iv_pool _ _ (ar_inv _ _ _ _ _ _ _ H3))). by eapply lookup_lt_Some. }
  destruct (buff_index_ok b Hlt) as [Hnz _].
  rewrite bool_decide_eq_false_2 by (intros Hc; by apply Hc). rewrite (proj2 (Z.eqb_neq _ _)) by done. cbn [orb].
  eapply (receiver_entry types e ty Hty stuck R K R_rely R_keeps _ _ _ _ Hitem (cas_of (state_at e (slot p)) BUFFER_RECEIVED BUFFER_ALLOCATED))
    with (f := λ z, z <| bd_state := BUFFER_RECEIVED |>) (ph' := RMarked); [exact H3| |done|done|by left|].
  { intros d4 Hel. apply (cas_of_done (state_at e (slot p))). cbn. by rewrite Hel. }
  intros w4 H4. eapply (receiver_return types e stuck R K R_rely R_keeps); [exact H4|]. intros w5 H5. split; [done|]. by exists I, b, x.
Qed.

(** A whole receive: the next item, or nothing, since there was none. *)
Lemma receiver_gets fuel buffer_size blocking L p w :
  at_r L p RIdle w → stuck ∨ (0 < fuel)%nat ∧ prompt blocking p →
  safe_r (mcapi_trans_recv fuel e buffer_size blocking) (λ r w', match r with
    | None => at_r L p RIdle w' ∧ nothing p
    | Some got => ∃ L' b x, L `prefix_of` L' ∧ L' !! p = Some (b, x) ∧
        delivered ty b x buffer_size got ∧ at_r L' (S p) RIdle w'
    end) w.
Proof.
  intros Hw Hfuel. unfold mcapi_trans_recv. apply safe_then; [apply _|].
  eapply safe_mono; [by apply receiver_marks|]. cbn beta.
  intros [i|] w1; [intros (-> & L' & b & x & Hpre & Hitem & H1)|intros [H1 Hno]; by eapply (receiver_return types e stuck R K R_rely R_keeps)].
  apply safe_then; [apply _|].
  eapply safe_mono; [by apply (receiver_receives types e ty Hty stuck R K R_rely R_keeps L' p b x Hitem)|]. cbn beta. intros r w2 [H2 Hdel].
  apply safe_then; [apply _|].
  eapply safe_mono; [apply (receiver_pops types e ty Hty stuck R K R_rely R_keeps L' p b x Hitem); [done|tauto]|]. cbn beta. intros [i st] w3 [Hst H3].
  cbn [snd] in Hst. subst st. cbn [assert_that then_do].
  eapply (receiver_return types e stuck R K R_rely R_keeps); [exact H3|]. intros w4 H4. by exists L', b, x.
Qed.
End receive.
