(* ===== verification/LockfreeTheorems.v ===== *)
(** The lock-free queues of the _abb variant under every schedule: what the receiver
    of an endpoint gets, when each endpoint has one sender and one receiver, and
    that the fuel of a run is enough; and what one call does when it is alone. *)

From S2P Require Import Prelude LockfreeProg LockfreeQueue LockfreeFifo LockfreeSender LockfreeReceiver.

(** ** Threads *)

(** What a thread does with its endpoint: the messages it sends, or the sizes of the
    buffers it receives into. *)
Inductive work :=
| Sends (msgs : list (list Z * Z))
| Receives (sizes : list Z) (blocking : bool).
Definition results : Type := list bool + list (option (Z * received)).

Fixpoint send_all (fuel : nat) (e : endpoint_index) (msgs : list (list Z * Z)) : prog database (list bool) :=
  match msgs with
  | [] => Return []
  | m :: msgs =>
      let! ok := mcapi_trans_send fuel e m.1 m.2 in
      let! oks := send_all fuel e msgs in Return (ok :: oks)
  end.
Fixpoint receive_all (fuel : nat) (e : endpoint_index) (blocking : bool) (sizes : list Z) :
    prog database (list (option (Z * received))) :=
  match sizes with
  | [] => Return []
  | n :: sizes =>
      let! r := mcapi_trans_recv fuel e n blocking in
      let! rs := receive_all fuel e blocking sizes in Return (r :: rs)
  end.
Definition thread (fuel : nat) (t : endpoint_index * work) : prog database results :=
  match t.2 with
  | Sends msgs => let! oks := send_all fuel t.1 msgs in Return (inl oks)
  | Receives sizes blocking => let! rs := receive_all fuel t.1 blocking sizes in Return (inr rs)
  end.

(** The messages that were accepted, and the data that was received. *)
Definition accepted (msgs : list (list Z * Z)) (oks : list bool) : list (list Z * Z) :=
  omap (λ '(m, ok), if (ok : bool) then Some m else None) (zip msgs oks).
Definition obtained (sizes : list Z) (rs : list (option (Z * received))) : list (Z * (Z * received)) :=
  omap (λ '(n, r), (n,.) <$> r) (zip sizes rs).

(** Receiving a message: its size, and its bytes as far as the buffer of the receiver
    has room for them, its scalar value, or a buffer that contains it. *)
Definition receives (ty : channel_type) (d : database) (got : Z * (Z * received)) (msg : list Z * Z) : Prop :=
  got.2.1 = Z.of_nat (length msg.1) ∧
  match ty with
  | MCAPI_NO_CHAN => got.2.2 = Bytes (take (Z.to_nat got.1) msg.1)
  | MCAPI_SCL_CHAN => got.2.2 = Scalar msg.2
  | MCAPI_PKT_CHAN => ∃ b x, got.2.2 = Packet b ∧ buffers d !! b = Some x ∧ take (length msg.1) (buff x) = msg.1
  end.

(** Endpoints as they are created, and a pool of free buffers. *)
Definition fresh (types : gmap endpoint_index channel_type) : database :=
  mk_database ((λ ty, mk_endpoint (zero_queue ty) 0) <$> types) (replicate MCAPI_MAX_BUFFERS zero_buffer).
Definition idle_ghost : ghost := mk_ghost (λ _, idle_track) (λ _, None).

Lemma inv_fresh types : Inv types (fresh types, idle_ghost).
Proof.
  split; cbn [fst snd].
  - split; [done|]. intros i x Hx. cbn [fresh buffers] in Hx. apply lookup_replicate in Hx as [-> _]. done.
  - intros e ty He. exists (zero_queue ty). split.
    + unfold queue_of, fresh. cbn. by rewrite lookup_fmap, He.
    + split; cbn [tracks idle_ghost idle_track items popped sending receiving length]; try done; [unfold entries; lia|].
      intros k Hk. unfold desc. cbn.
      unfold zero_queue; cbn [elements]. rewrite lookup_replicate_2 by (pose proof (slot_index k); unfold entries in *; lia).
      by destruct (decide (k = 0)%nat).
  - intros e ty _. split. intros k b x [[_ [=]]|[_ [=]]].
Qed.

(** ** Each thread *)

Section thread.
Context (types : gmap endpoint_index channel_type) (e : endpoint_index) (ty : channel_type).
Context (Hty : types !! e = Some ty).
(** Nothing more is known of what others do. *)
Local Abbreviation at_s := (at_sender types e (λ _ _, True) (λ _, True) 0).
Local Abbreviation at_r := (at_receiver types e (λ _ _, True)).

Lemma safe_send_all fuel msgs I w :
  at_s I SIdle 0 w → Forall (λ m, length m.1 <= MCAPI_MAX_MSG_SIZE)%nat msgs →
  Z.of_nat (length I + length msgs) < 2 ^ 31 →
  safe True real (rely types (Sender, e)) (guarantee types (Sender, e)) (send_all fuel e msgs)
    (λ oks w', ∃ J, at_s (I ++ J) SIdle 0 w' ∧
       Forall2 (λ m it, carries ty m it.2) (accepted msgs oks) J) w.
Proof.
  assert (∀ (oks : list bool) (Q : list bool → world → Prop) J w, at_s J SIdle 0 w → (∀ w', at_s J SIdle 0 w' → Q oks w') →
    safe True real (rely types (Sender, e)) (guarantee types (Sender, e)) (Return oks) Q w) as Hret.
  { intros oks Q J w' HJ HQ. eapply sender_return; [exact (λ _ _ H, H)| | |exact HJ|exact HQ]; done. }
  revert I w. induction msgs as [|m msgs IH]; intros I w Hw Hf Hb; cbn [send_all].
  { eapply Hret; [exact Hw|]. intros w' H'. exists []. by rewrite app_nil_r. }
  apply Forall_cons in Hf as [Hm Hf]. cbn [length] in Hb. apply safe_then; [apply _|].
  eapply safe_mono.
  { eapply (sender_sends types e ty Hty True (rely types (Sender, e))); [exact (λ _ _ H, H)| | |exact Hw|exact Hm|lia|lia|by left]; done. }
  cbn beta. intros ok w1 H1. apply safe_then; [apply _|]. destruct ok.
  - destruct H1 as (b & x & Hc & H1).
    eapply safe_mono; [apply (IH _ _ H1 Hf); rewrite length_app; cbn; lia|]. cbn beta. intros oks w2 (J & H2 & HJ).
    eapply Hret; [exact H2|]. intros w3 H3. exists ((b, x) :: J). rewrite <- app_assoc in H3.
    split; [exact H3|]. cbn. by constructor.
  - destruct H1 as [H1 _].
    eapply safe_mono; [apply (IH _ _ H1 Hf); lia|]. cbn beta. intros oks w2 (J & H2 & HJ).
    eapply Hret; [exact H2|]. intros w3 H3. by exists J.
Qed.

Lemma safe_receive_all fuel blocking sizes L w :
  at_r L (length L) RIdle w →
  safe True real (rely types (Receiver, e)) (guarantee types (Receiver, e)) (receive_all fuel e blocking sizes)
    (λ rs w', ∃ J, at_r (L ++ J) (length (L ++ J)) RIdle w' ∧
       Forall2 (λ got it, delivered ty it.1 it.2 got.1 got.2) (obtained sizes rs) J) w.
Proof.
  assert (∀ (rs : list (option (Z * received))) (Q : list (option (Z * received)) → world → Prop) J p w,
    at_r J p RIdle w → (∀ w', at_r J p RIdle w' → Q rs w') →
    safe True real (rely types (Receiver, e)) (guarantee types (Receiver, e)) (Return rs) Q w) as Hret.
  { intros rs Q J p w' HJ HQ. eapply receiver_return; [exact (λ _ _ H, H)| |exact HJ|exact HQ]; done. }
  revert L w. induction sizes as [|n sizes IH]; intros L w Hw; cbn [receive_all].
  { eapply Hret; [exact Hw|]. intros w' H'. exists []. by rewrite app_nil_r. }
  apply safe_then; [apply _|]. eapply safe_mono.
  { eapply (receiver_gets types e ty Hty True (rely types (Receiver, e))); [exact (λ _ _ H, H)| |exact Hw|by left]; done. }
  cbn beta. intros r w1 H1. apply safe_then; [apply _|]. destruct r as [got|].
  - destruct H1 as (L' & b & x & [J0 ->] & Hitem & Hdel & H1).
    rewrite lookup_app_r, Nat.sub_diag in Hitem by lia. destruct J0 as [|it J0]; [done|]. cbn in Hitem. simplify_eq.
    assert (at_r (L ++ [(b, x)]) (length (L ++ [(b, x)])) RIdle w1) as H1'.
    { destruct H1 as [Hi Hit Hp Hr _]. split; [done| |by rewrite length_app, Nat.add_1_r|done|done].
      etrans; [|exact Hit]. exists J0. by rewrite <- app_assoc. }
    eapply safe_mono; [apply (IH _ _ H1')|]. cbn beta. intros rs w2 (J & H2 & HJ).
    eapply Hret; [exact H2|]. intros w3 H3. exists ((b, x) :: J). rewrite <- app_assoc in H3.
    split; [exact H3|]. cbn. by constructor.
  - destruct H1 as [H1 _]. eapply safe_mono; [apply (IH _ _ H1)|]. cbn beta. intros rs w2 (J & H2 & HJ).
    eapply Hret; [exact H2|]. intros w3 H3. by exists J.
Qed.
End thread.

(** ** All threads *)

Definition role_of (w : work) : role := match w with Sends _ => Sender | Receives _ _ => Receiver end.
Definition thread_id_of (t : endpoint_index * work) : role * endpoint_index := (role_of t.2, t.1).
Definition fits (w : work) : Prop :=
  match w with
  | Sends msgs => Forall (λ m, length m.1 <= MCAPI_MAX_MSG_SIZE)%nat msgs ∧ Z.of_nat (length msgs) < 2 ^ 31
  | Receives _ _ => True
  end.

Section threads.
Context (types : gmap endpoint_index channel_type) (threads : list (endpoint_index * work)).
Context (Hids : NoDup (thread_id_of <$> threads)).

Definition rely_at (i : nat) (w w' : world) : Prop :=
  match threads !! i with Some t => rely types (thread_id_of t) w w' | None => True end.
Definition guarantee_at (i : nat) (w w' : world) : Prop :=
  match threads !! i with Some t => guarantee types (thread_id_of t) w w' | None => False end.
#[global] Instance rely_at_preorder i : PreOrder (rely_at i).
Proof. unfold rely_at. destruct (threads !! i); [apply _|]. by split. Qed.
Lemma rely_at_compatible i j w w' : i ≠ j → guarantee_at i w w' → rely_at j w w'.
Proof.
  unfold rely_at, guarantee_at. intros Hne. destruct (threads !! i) as [t|] eqn:Hi; [|done].
  destruct (threads !! j) as [t'|] eqn:Hj; [|done]. apply guarantee_rely. intros He. apply Hne.
  eapply NoDup_lookup; [exact Hids| |]; rewrite list_lookup_fmap, ?Hi, ?Hj; cbn; [done|by rewrite He].
Qed.

(** What the result of a thread says of the items of its endpoint. *)
Definition outcome_ok (i : nat) (r : results) (w : world) : Prop :=
  ∀ e wk ty, threads !! i = Some (e, wk) → types !! e = Some ty →
  match wk, r with
  | Sends msgs, inl oks => Inv types w ∧ Forall2 (λ m it, carries ty m it.2) (accepted msgs oks) (items (tracks w.2 e))
  | Receives sizes _, inr rs => ∃ L, Inv types w ∧ L `prefix_of` items (tracks w.2 e) ∧ popped (tracks w.2 e) = length L ∧
      Forall2 (λ got it, delivered ty it.1 it.2 got.1 got.2) (obtained sizes rs) L
  | _, _ => False
  end.
Lemma all_threads_safe fuel :
  Forall (λ t, t.1 ∈ dom types ∧ fits t.2) threads →
  all_safe real rely_at guarantee_at outcome_ok (thread fuel <$> threads) (fresh types, idle_ghost).
Proof.
  intros Hf i p. rewrite list_lookup_fmap. destruct (threads !! i) as [[e wk]|] eqn:Hi; [|done]. intros [= <-].
  rewrite Forall_lookup in Hf. destruct (Hf i _ Hi) as [[ty Hty]%elem_of_dom Hfit]. cbn [fst snd] in *.
  unfold rely_at, guarantee_at, outcome_ok. rewrite Hi. unfold thread_id_of. cbn [fst snd].
  destruct wk as [msgs|sizes blocking]; unfold thread; cbn [fst snd role_of].
  - destruct Hfit as [Hm Hb]. apply safe_then; [apply _|].
    eapply safe_mono; [apply (safe_send_all types e ty Hty fuel msgs []); [|exact Hm|exact Hb]|].
    { split; [apply inv_fresh|done|done|cbn; lia|done|done]. }
    cbn beta. intros oks w1 (J & H1 & HJ). eapply sender_return; [exact (λ _ _ H, H)| | |exact H1|]; [done..|]. intros w2 [Hinv Hit _ _ _ _] e' wk' ty' [= <- <-] Hty'.
    simplify_eq. cbn in Hit. by rewrite Hit.
  - apply safe_then; [apply _|].
    eapply safe_mono; [apply (safe_receive_all types e ty Hty fuel blocking sizes [])|].
    { split; [apply inv_fresh|done..]. }
    cbn beta. intros rs w1 (J & H1 & HJ). eapply receiver_return; [exact (λ _ _ H, H)| |exact H1|]; [done|].
    intros w2 [Hinv Hit Hp _ _] e' wk' ty' [= <- <-] Hty'. simplify_eq. by exists J.
Qed.
End threads.

(** What was delivered from a buffer that carries a message. *)
Lemma delivered_receives ty b x (got : Z * (Z * received)) msg d :
  carries ty msg x → delivered ty b x got.1 got.2 →
  (ty = MCAPI_PKT_CHAN → buffers d !! b = Some x) → receives ty d got msg.
Proof.
  intros [Hsize Hc] [H1 H2] Hb. split; [congruence|]. destruct (decide (ty = MCAPI_SCL_CHAN)) as [->|Hns]; [congruence|]. destruct ty; [| |done].
  - rewrite H2, Hsize. f_equal. rewrite <- Hc at 2. rewrite take_take. f_equal. lia.
  - exists b, x. by split_and!; [|apply Hb|].
Qed.

(** C8: With at most one sender and one receiver per endpoint, every schedule of the
    lock-free sends and receives runs without a failed assertion or an access out of
    bounds; and what the receiver of an endpoint got is, in order, without loss,
    duplication or change, the beginning of the messages whose send succeeded. *)
Theorem lockfree_fifo types threads fuel schedule
    (Hthreads : Forall (λ t, t.1 ∈ dom types ∧ fits t.2) threads)
    (Hids : NoDup (thread_id_of <$> threads)) :
  ∃ ts d, run schedule (thread fuel <$> threads) (fresh types) = Done (ts, d) ∧
    ∀ i j e ty msgs sizes blocking oks rs,
      threads !! i = Some (e, Sends msgs) → threads !! j = Some (e, Receives sizes blocking) →
      types !! e = Some ty → ts !! i = Some (Return (inl oks)) → ts !! j = Some (Return (inr rs)) →
      Forall2 (receives ty d) (obtained sizes rs) (take (length (obtained sizes rs)) (accepted msgs oks)).
Proof.
  destruct (run_safe real (rely_at types threads) (guarantee_at types threads) (outcome_ok types threads)
    (rely_at_compatible types threads Hids) schedule _ _ (all_threads_safe types threads fuel Hthreads))
    as (ts & [d g] & Hrun & Hall).
  exists ts, d. split; [exact Hrun|]. intros i j e ty msgs sizes blocking oks rs Hi Hj Hty Hsi Hsj.
  pose proof (Hall i _ Hsi (d, g) (reflexivity _) e _ ty Hi Hty) as [Hinv HF]. cbn [fst snd] in *.
  pose proof (Hall j _ Hsj (d, g) (reflexivity _) e _ ty Hj Hty) as (L & _ & [J HL] & Hp & HF2). cbn [fst snd] in *.
  rewrite HL in HF. apply Forall2_app_inv_r in HF as (m1 & m2 & HF1 & _ & ->).
  rewrite (Forall2_length _ _ _ HF2), <- (Forall2_length _ _ _ HF1), take_app_length.
  apply Forall2_same_length_lookup. split; [by rewrite (Forall2_length _ _ _ HF2), (Forall2_length _ _ _ HF1)|].
  intros k got msg Hg Hm. destruct (Forall2_lookup_l _ _ _ _ _ HF2 Hg) as ([b x] & Hk & Hdel).
  destruct (Forall2_lookup_l _ _ _ _ _ HF1 Hm) as (it & Hk' & Hcar). simplify_eq.
  eapply delivered_receives; [exact Hcar|exact Hdel|]. intros Hpkt.
  eapply (ow_held _ _ _ _ _ (iv_owned _ _ Hinv e ty Hty) k b x). left. split; [by left|].
  cbn [snd]. rewrite HL. by apply lookup_app_l_Some.
Qed.

(** ** One operation alone *)

(** The endpoint is between operations, [n] messages were sent to it, and [ms] are
    waiting. *)
Definition queued (types : gmap endpoint_index channel_type) (e : endpoint_index) (n : nat)
    (ms : list (list Z * Z)) (d : database) : Prop :=
  ∃ g I p ty, Inv types (d, g) ∧ tracks g e = mk_track I p SIdle RIdle ∧ length I = n ∧
    types !! e = Some ty ∧ Forall2 (λ m it, carries ty m it.2) ms (drop p I).

Lemma track_eta t I p s r :
  items t = I → popped t = p → sending t = s → receiving t = r → t = mk_track I p s r.
Proof. destruct t. cbn. congruence. Qed.
Lemma queued_window types e ty I p ms d g :
  Inv types (d, g) → types !! e = Some ty → tracks g e = mk_track I p SIdle RIdle →
  Forall2 (λ m it, carries ty m it.2) ms (drop p I) → (p + length ms = length I)%nat.
Proof.
  intros Hinv Hty Ht HF. destruct (iv_queue _ _ Hinv e ty Hty) as (q & _ & Hok). cbn [snd] in Hok.
  pose proof (qo_window _ _ _ _ Hok) as Hw. rewrite Ht in Hw. cbn in Hw.
  rewrite (Forall2_length _ _ _ HF), length_drop. lia.
Qed.

(** The ghost of the queue after a send that is alone. *)
Lemma sender_alone types e ty d g I p fuel msg :
  types !! e = Some ty → Inv types (d, g) → tracks g e = mk_track I p SIdle RIdle →
  (length msg.1 <= MCAPI_MAX_MSG_SIZE)%nat → Z.of_nat (S (length I)) < 2 ^ 31 → (0 < fuel)%nat →
  ∃ ok d' g', alone (mcapi_trans_send fuel e msg.1 msg.2) d = Done (ok, d') ∧ Inv types (d', g') ∧
    if ok then ∃ b x, carries ty msg x ∧ tracks g' e = mk_track (I ++ [(b, x)]) p SIdle RIdle
    else tracks g' e = mk_track I p SIdle RIdle ∧
      ((length I - p)%nat = entries ∨ ∀ i, (i < MCAPI_MAX_BUFFERS)%nat → ∃ v, peek (magic_at i) d = Some v ∧ v ≠ 0).
Proof.
  intros Hty Hinv Ht Hsize Hn Hfuel.
  set (K := λ pp r, pp = p ∧ r = RIdle). set (P := λ bs, bs = buffers d).
  assert (at_sender types e K P (length I) I SIdle 0 (d, g)) as Hat.
  { split; cbn [snd]; rewrite ?Ht; cbn; try done. lia. }
  destruct (safe_alone False real eq (guarantee types (Sender, e)) (mcapi_trans_send fuel e msg.1 msg.2)
    _ (d, g) (λ H, H) (sender_sends types e ty Hty False eq K P (length I)
      (λ w w' H, eq_ind w _ (reflexivity w) w' H) ltac:(by intros w w' <-) ltac:(by intros w w' <-)
      fuel I (d, g) msg Hat Hsize Hn ltac:(lia) ltac:(right; split; [done|by intros pp r [_ ->]])))
    as (ok & [d' g'] & Hrun & Hpost).
  exists ok, d', g'. split; [exact Hrun|]. destruct ok.
  - destruct Hpost as (b & x & Hc & [Hinv' HI Hs Hp [Hpp Hr] _]). cbn [snd] in *.
    split; [done|]. exists b, x. split; [done|by apply track_eta].
  - destruct Hpost as [[Hinv' HI Hs Hp [Hpp Hr] _] Hwhy]. cbn [snd] in *.
    split; [done|]. split; [by apply track_eta|].
    destruct Hwhy as [(pp & r & [-> _] & Hfull)|Hbusy]; [left; lia|right].
    intros i Hi. destruct (Hbusy eq_refl i Hi) as (bs & x & -> & Hx & Hm). exists (magic_num x).
    split; [cbn; by rewrite Hx|done].
Qed.
Lemma queued_send types e ty I p ms d g b x msg :
  types !! e = Some ty → Inv types (d, g) → tracks g e = mk_track (I ++ [(b, x)]) p SIdle RIdle →
  (p <= length I)%nat → Forall2 (λ m it, carries ty m it.2) ms (drop p I) → carries ty msg x →
  queued types e (S (length I)) (ms ++ [msg]) d.
Proof.
  intros Hty Hinv Ht Hle HF Hc. exists g, (I ++ [(b, x)]), p, ty. split_and!; [done|done|rewrite length_app; cbn; lia|done|].
  rewrite drop_app_le by lia. apply Forall2_app; [done|]. by constructor; [|constructor].
Qed.

(** C12: A send that is alone returns: it appends the message, or the queue was full
    with 65 messages, or every buffer was taken; a message that was refused leaves no
    trace. *)
Theorem send_alone types e n ms d fuel msg
    (Hd : queued types e n ms d) (Hsize : (length msg.1 <= MCAPI_MAX_MSG_SIZE)%nat)
    (Hn : Z.of_nat (S n) < 2 ^ 31) (Hfuel : (0 < fuel)%nat) :
  ∃ ok d', alone (mcapi_trans_send fuel e msg.1 msg.2) d = Done (ok, d') ∧
    if ok then queued types e (S n) (ms ++ [msg]) d'
    else queued types e n ms d' ∧
      (length ms = entries ∨ ∀ i, (i < MCAPI_MAX_BUFFERS)%nat → ∃ v, peek (magic_at i) d = Some v ∧ v ≠ 0).
Proof.
  destruct Hd as (g & I & p & ty & Hinv & Ht & <- & Hty & HF).
  pose proof (queued_window _ _ _ _ _ _ _ _ Hinv Hty Ht HF) as Hlen.
  destruct (sender_alone types e ty d g I p fuel msg Hty Hinv Ht Hsize Hn Hfuel) as (ok & d' & g' & Hrun & Hinv' & Hpost).
  exists ok, d'. split; [exact Hrun|]. destruct ok.
  - destruct Hpost as (b & x & Hc & Ht'). eapply queued_send; [done..|lia|done|done].
  - destruct Hpost as [Ht' Hwhy]. split; [by exists g', I, p, ty|].
    destruct Hwhy as [?|?]; [left; lia|by right].
Qed.

(** A blocking receive does not return empty-handed. *)
Fixpoint returns_some {S A} (p : prog S (option A)) : Prop :=
  match p with
  | Return r => r ≠ None
  | Atomic _ k => ∀ x, returns_some (k x)
  | Raise _ => True
  end.
Lemma returns_some_then {S A B} (p : prog S A) (k : A → prog S (option B)) :
  (∀ a, returns_some (k a)) → returns_some (then_do p k).
Proof. intros Hk. induction p; cbn; auto. Qed.
Lemma returns_some_then_some {S A B} (p : prog S (option A)) (k : option A → prog S (option B)) :
  returns_some p → (∀ a, returns_some (k (Some a))) → returns_some (then_do p k).
Proof. intros Hp Hk. induction p as [[a|]| |]; cbn in *; auto; done. Qed.
Lemma returns_some_alone {S A} (p : prog S (option A)) s s' :
  returns_some p → alone p s ≠ Done (None, s').
Proof.
  revert s. induction p as [r|X access k IH|f]; cbn; intros s Hp; [by intros [= -> _]| |done].
  unfold bind. destruct (access s) as [[x s1]|f]; [by apply IH|done].
Qed.
Lemma blocking_marks_some fuel e : returns_some (mark_head fuel e true).
Proof.
  induction fuel as [|fuel IH]; [done|]. cbn [mark_head]. apply returns_some_then. intros [i st].
  destruct st; try exact IH. apply returns_some_then. intros st. apply returns_some_then. intros b.
  destruct (_ || _); [exact IH|]. apply returns_some_then. intros [ok c]. by apply returns_some_then.
Qed.
Lemma blocking_receives_some fuel e size : returns_some (mcapi_trans_recv fuel e size true).
Proof.
  unfold mcapi_trans_recv. apply returns_some_then_some; [apply blocking_marks_some|]. intros i.
  apply returns_some_then. intros r. apply returns_some_then. intros [b st]. by apply returns_some_then.
Qed.

(** The item of the queue that a receive has taken is the first one waiting. *)
Lemma queued_receive types e ty I p ms size got d g L b x :
  types !! e = Some ty → Forall2 (λ m it, carries ty m it.2) ms (drop p I) →
  I `prefix_of` L → L !! p = Some (b, x) → delivered ty b x size got →
  at_receiver types e (λ J s, J = I ∧ s = SIdle) L (S p) RIdle (d, g) →
  ∃ m ms', ms = m :: ms' ∧ receives ty d (size, got) m ∧ queued types e (length I) ms' d.
Proof.
  intros Hty HF Hpre Hitem Hdel [Hinv' HI Hp Hr [HJ Hs]]. cbn [snd] in *. rewrite HJ in HI.
  assert (L = I) as -> by (by apply (anti_symm prefix)).
  rewrite (drop_S I (b, x) p Hitem) in HF.
  destruct ms as [|m ms]; [by inversion HF|]. apply Forall2_cons in HF as [Hc HF].
  exists m, ms. split_and!; [done| |].
  - eapply (delivered_receives ty b x (size, got)); [done|done|]. intros Hpkt.
    eapply (ow_held _ _ _ _ _ (iv_owned _ _ Hinv' e ty Hty) p b x). left. split; [by left|]. cbn [snd]. by rewrite HJ.
  - exists g, I, (S p), ty. split_and!; [done|by apply track_eta|done..].
Qed.

(** C13: A receive that is alone takes the oldest waiting message, whether it blocks or
    not; with no message waiting, one that does not block returns nothing and leaves the
    queue empty, and one that blocks never returns: it uses up any number of
    iterations. *)
Theorem receive_alone types e ty n ms d fuel size (blocking : bool)
    (Hty : types !! e = Some ty) (Hd : queued types e n ms d) (Hfuel : (0 < fuel)%nat) :
  match ms with
  | m :: ms => ∃ got d', alone (mcapi_trans_recv fuel e size blocking) d = Done (Some got, d') ∧
      receives ty d' (size, got) m ∧ queued types e n ms d'
  | [] =>
      if blocking then alone (mcapi_trans_recv fuel e size blocking) d = Fault OutOfFuel
      else ∃ d', alone (mcapi_trans_recv fuel e size blocking) d = Done (None, d') ∧ queued types e n [] d'
  end.
Proof.
  destruct Hd as (g & I & p & ty' & Hinv & Ht & <- & Hty' & HF). simplify_eq.
  pose proof (queued_window _ _ _ _ _ _ _ _ Hinv Hty Ht HF) as Hlen.
  set (K := λ J s, J = I ∧ s = SIdle).
  assert (at_receiver types e K I p RIdle (d, g)) as Hat.
  { split; cbn [snd]; rewrite ?Ht; done. }
  assert (∀ w w' : world, w = w' → rely types (Receiver, e) w w') as Hrely by (by intros w w' <-).
  assert (∀ w w' : world, w = w' → K (items (tracks w.2 e)) (sending (tracks w.2 e)) →
    K (items (tracks w'.2 e)) (sending (tracks w'.2 e))) as Hkeeps by (by intros w w' <-).
  pose proof (λ stuck, receiver_gets types e ty Hty stuck eq K Hrely Hkeeps fuel size blocking I p (d, g) Hat) as Hgets.
  destruct (decide (blocking = true ∧ ms = [])) as [[-> ->]|Hmore].
  { destruct (safe_alone_or_stuck True real eq _ _ _ (d, g) (Hgets True (or_introl Logic.I))) as [?|(r & [d' g'] & Hrun & Hpost)];
      [done|exfalso].
    destruct r as [got|]; [|by eapply returns_some_alone; [apply blocking_receives_some|exact Hrun]].
    destruct Hpost as (L & b & x & Hpre & Hitem & Hdel & H1).
    by destruct (queued_receive _ _ _ _ _ _ _ _ _ _ _ _ _ Hty HF Hpre Hitem Hdel H1) as (m & ms' & ? & _). }
  destruct (safe_alone False real eq _ _ _ (d, g) (λ H, H) (Hgets False ltac:(right; split; [done|
    intros J s [-> ->]; split; [done|]; intros Hb; destruct ms; [by destruct Hmore|cbn in Hlen; lia]])))
    as (r & [d' g'] & Hrun & Hpost).
  destruct r as [got|].
  - destruct Hpost as (L & b & x & Hpre & Hitem & Hdel & H1).
    destruct (queued_receive _ _ _ _ _ _ _ _ _ _ _ _ _ Hty HF Hpre Hitem Hdel H1) as (m & ms' & -> & Hgot & Hq).
    by exists got, d'.
  - destruct Hpost as [[Hinv' HI Hp Hr [HJ Hs]] (J & s & [-> _] & Hp')]. cbn [snd] in *.
    destruct ms; [|cbn in Hlen; lia]. destruct blocking; [by destruct Hmore|]. exists d'. split; [exact Hrun|].
    exists g', I, p, ty. split_and!; [done|by apply track_eta|done..].
Qed.

(** ** The iterations of the loops *)

(** Straight-line code, whose own steps need not be counted. *)
Ltac lasts_tac :=
  repeat first
    [ progress intros | apply lasts_atomic | apply lasts_then | apply lasts_once | apply lasts_return | apply lasts_assert
    | apply lasts_for | apply lasts_raise; discriminate | progress unfold load, store, mrapi_atomic_read, mrapi_atomic_cas, mrapi_atomic_inc, mrapi_atomic_xchg
    | case_match ].

(** ** The loops of the queue *)

Lemma lasts_reserve_tail fuel e : lasts fuel (reserve_tail fuel e).
Proof.
  induction fuel as [|fuel IH]; [done|]. cbn [reserve_tail]. unfold mcapi_trans_queue_tail, load.
  cbn [then_do once]. intros ac. lasts_tac; exact IH.
Qed.
Lemma lasts_push fuel e : lasts fuel (mcapi_trans_push_queue fuel e).
Proof.
  induction fuel as [|fuel IH]; [done|]. cbn [mcapi_trans_push_queue]. unfold load. cbn [then_do once].
  intros uc. lasts_tac; exact IH.
Qed.
Lemma lasts_pop fuel e : lasts fuel (mcapi_trans_pop_queue fuel e).
Proof.
  induction fuel as [|fuel IH]; [done|]. cbn [mcapi_trans_pop_queue]. unfold load. cbn [then_do once].
  intros ac. lasts_tac; exact IH.
Qed.
Lemma lasts_mark_head fuel e blocking : lasts fuel (mark_head fuel e blocking).
Proof.
  induction fuel as [|fuel IH]; [done|]. cbn [mark_head]. unfold mcapi_trans_queue_head, load.
  cbn [then_do once]. intros uc. lasts_tac; exact IH.
Qed.
Lemma lasts_alloc n c i magic : lasts n (alloc_from c i magic).
Proof. revert i. induction c as [|c IH]; intros i; cbn [alloc_from]; lasts_tac. apply IH. Qed.
Lemma lasts_copy_out n i j c l : lasts n (copy_out i j c l).
Proof. revert j l. induction c as [|c IH]; intros j l; cbn [copy_out]; lasts_tac. apply IH. Qed.
Lemma lasts_copy_in n i buffer : lasts n (copy_in i buffer).
Proof. unfold copy_in. lasts_tac. Qed.
Lemma lasts_send fuel e buffer value : lasts fuel (mcapi_trans_send fuel e buffer value).
Proof.
  unfold mcapi_trans_send, mcapi_trans_alloc_buffer, fill_buffer. generalize MCAPI_MAX_BUFFERS as c.
  lasts_tac; auto using lasts_reserve_tail, lasts_alloc, lasts_copy_in, lasts_push.
Qed.
Lemma lasts_recv fuel e size blocking : lasts fuel (mcapi_trans_recv fuel e size blocking).
Proof.
  unfold mcapi_trans_recv, mcapi_trans_recv_, take_data.
  lasts_tac; auto using lasts_mark_head, lasts_copy_out, lasts_pop.
Qed.
Lemma lasts_thread fuel t : lasts fuel (thread fuel t).
Proof.
  destruct t as [e [msgs|sizes blocking]]; unfold thread; cbn [fst snd]; apply lasts_then; intros; try apply lasts_return.
  - induction msgs as [|m msgs IH]; cbn [send_all]; [apply lasts_return|].
    apply lasts_then; [apply lasts_send|]. intros ok. apply lasts_then; [exact IH|]. intros. apply lasts_return.
  - induction sizes as [|n sizes IH]; cbn [receive_all]; [apply lasts_return|].
    apply lasts_then; [apply lasts_recv|]. intros got. apply lasts_then; [exact IH|]. intros. apply lasts_return.
Qed.

(** With as many iterations for each loop as the run has steps, no thread of the
    run comes to the end of its iterations: the loops of the model are the loops of
    the code for every finite run. *)
Theorem enough_iterations types threads fuel schedule ts d
    (Hfuel : (length schedule < fuel)%nat)
    (Hrun : run schedule (thread fuel <$> threads) (fresh types) = Done (ts, d)) :
  Forall (λ p, p ≠ Raise OutOfFuel) ts.
Proof.
  eapply run_lasts; [|exact Hrun]. apply Forall_fmap, Forall_true. intros t.
  eapply lasts_le; [apply lasts_thread|lia].
Qed.
