(* ===== verification/LockfreeState.v ===== *)
(** State messages: one writer that is never blocked and any number of readers, on an
    endpoint that is not a packet channel.  What holds between any two accesses. *)

From S2P Require Import Prelude LockfreeProg LockfreeQueue LockfreeFifo LockfreeSender.

(** ** What is shared, but for the pointers of the buffers to their entries *)

(** Readers write the pointer of the buffer that they read. *)
Definition unparent (x : buffer_entry) : buffer_entry := x <| parent := None |>.
Definition contents (d : database) : list buffer_entry := unparent <$> buffers d.

(** The writes so far, with the message or nothing for want of a buffer; whether one
    is being made; and the buffers of the entries, which they keep. *)
Record history := mk_history {
  written : list (option (list Z * Z));
  busy : bool;
  linked : nat → option nat }.
Definition started (g : history) : nat := (length (written g) + Nat.b2n (busy g))%nat.
Definition link (o : option nat) : Z := match o with Some b => buff_index_of b | None => 0 end.

Section state.
Context (e : endpoint_index) (ty : channel_type) (n : nat).
Context (Hpkt : ty ≠ MCAPI_PKT_CHAN).
(** The number of buffers divides 2^32, and there are entries for them. *)
Context (Hn : (0 < n <= S entries)%nat) (Hdiv : (Z.of_nat n | 2 ^ 32)).

(** Write [k] is the last one that was begun for its entry. *)
Definition current (g : history) (k : nat) : Prop := (started g <= k + n)%nat.
Definition entry_of (k : nat) : nat := (k mod n)%nat.

Record sinv (ep : endpoint_entry) (cs : list buffer_entry) (g : history) : Prop := {
  si_channel : channel (recv_queue ep) = ty;
  si_buffers : num_send_buffers ep = Z.of_nat n;
  si_length : length (elements (recv_queue ep)) = S entries;
  si_counter : update_counter (recv_queue ep) = 2 * Z.of_nat (length (written g)) + Z.b2z (busy g);
  si_bound : Z.of_nat (length (written g)) < 2 ^ 31 - Z.b2z (busy g);
  si_pool : length cs = MCAPI_MAX_BUFFERS;
  si_entry i x : cs !! i = Some x → length (buff x) = MCAPI_MAX_MSG_SIZE ∧ 0 <= size x <= Z.of_nat MCAPI_MAX_MSG_SIZE;
  si_slot j : (j < n)%nat → bd_buff_index <$> elements (recv_queue ep) !! j = Some (link (linked g j));
  si_linked j b : linked g j = Some b → ∃ x, cs !! b = Some x ∧ magic_num x ≠ 0;
  si_unique i j b : linked g i = Some b → linked g j = Some b → i = j;
  si_unused j : (started g <= j < n)%nat → linked g j = None;
  si_message k m : written g !! k = Some (Some m) → current g k → ∃ b x,
    linked g (entry_of k) = Some b ∧ cs !! b = Some x ∧ carries ty m x;
  si_some k m : written g !! k = Some (Some m) → is_Some (linked g (entry_of k));
  si_none k : written g !! k = Some None → current g k → linked g (entry_of k) = None }.

Definition sworld : Type := database * history.
Definition sreal : sworld → database := fst.
Definition SInv (w : sworld) : Prop := ∃ ep, endpoints w.1 !! e = Some ep ∧ sinv ep (contents w.1) w.2.

(** ** What threads do *)

Definition extends (g g' : history) : Prop :=
  written g `prefix_of` written g' ∧ (started g <= started g')%nat ∧
  ∀ j b, linked g j = Some b → linked g' j = Some b.
(** A reader leaves everything as it is, but for the pointers. *)
Definition reads_only (w w' : sworld) : Prop :=
  w'.2 = w.2 ∧ endpoints w'.1 !! e = endpoints w.1 !! e ∧ contents w'.1 = contents w.1.
Definition progress (w w' : sworld) : Prop := SInv w → SInv w' ∧ extends w.2 w'.2.

#[global] Instance reads_only_preorder : PreOrder reads_only.
Proof.
  split; [done|]. intros w1 w2 w3 (H1 & H2 & H3) (H4 & H5 & H6). unfold reads_only. by split_and!; etrans.
Qed.
#[global] Instance extends_preorder : PreOrder extends.
Proof using Type.
  clear. split.
  - intros g. by split_and!.
  - intros g1 g2 g3 (H1 & H2 & H3) (H4 & H5 & H6). split_and!; [by etrans|lia|auto].
Qed.
#[global] Instance progress_preorder : PreOrder progress.
Proof.
  split; [by intros w Hw|]. intros w1 w2 w3 H12 H23 H1. destruct (H12 H1) as [H2 He]. destruct (H23 H2) as [H3 He'].
  split; [done|by etrans].
Qed.
Lemma reads_only_progress w w' : reads_only w w' → progress w w'.
Proof.
  intros (Hg & He & Hc) (ep & Hep & Hinv). rewrite Hg. split; [|done].
  exists ep. by rewrite He, Hc, Hg.
Qed.

(** ** Contents *)

Lemma contents_lookup d b : contents d !! b = unparent <$> buffers d !! b.
Proof. apply list_lookup_fmap. Qed.
Lemma contents_some d b y : contents d !! b = Some y → ∃ x, buffers d !! b = Some x ∧ y = unparent x.
Proof. rewrite contents_lookup. destruct (buffers d !! b); [|done]. cbn. intros [= <-]. eauto. Qed.
Lemma contents_upd f f' b d :
  (∀ x, unparent (f x) = f' (unparent x)) → contents (upd_buffer f b d) = alter f' b (contents d).
Proof.
  intros Hf. unfold contents, upd_buffer. cbn. apply list_eq. intros j. rewrite list_lookup_fmap.
  destruct (decide (j = b)) as [->|Hne].
  - rewrite !list_lookup_alter_eq, list_lookup_fmap. destruct (buffers d !! b); cbn; [by rewrite Hf|done].
  - by rewrite !list_lookup_alter_ne, list_lookup_fmap.
Qed.
Lemma contents_parent b v d : contents (poke (parent_at b) v d) = contents d.
Proof.
  change (poke (parent_at b) v d) with (upd_buffer (λ x, x <| parent := v |>) b d).
  rewrite (contents_upd _ (λ x, x)) by (by intros []).
  apply list_eq. intros j. destruct (decide (j = b)) as [->|Hne].
  - rewrite list_lookup_alter_eq. by destruct (_ !! _).
  - by rewrite list_lookup_alter_ne.
Qed.
Lemma endpoint_upd f d ep :
  endpoints d !! e = Some ep → endpoints (upd_queue f e d) !! e = Some (ep <| recv_queue ::= f |>).
Proof. intros H. cbn. by rewrite lookup_alter_eq, H. Qed.

(** ** Steps of the writer *)

Lemma entry_lt k : (entry_of k < n)%nat.
Proof. apply Nat.mod_upper_bound. lia. Qed.
Lemma entry_ne k l : (k < l < k + n)%nat → entry_of k ≠ entry_of l.
Proof.
  unfold entry_of. intros Hkl He. pose proof (Nat.div_mod_eq k n). pose proof (Nat.div_mod_eq l n).
  rewrite He in *. assert (k / n = l / n)%nat by nia. lia.
Qed.
(** The buffer of the entry being written belongs to no current message. *)
Lemma unprotected ep cs g b k m :
  sinv ep cs g → busy g = true → linked g (entry_of (length (written g))) = Some b →
  written g !! k = Some (Some m) → current g k → linked g (entry_of k) ≠ Some b.
Proof.
  intros Hinv Hb Hl Hk Hc Hl'. apply lookup_lt_Some in Hk. unfold current, started in Hc. rewrite Hb in Hc. cbn in Hc.
  apply (entry_ne k (length (written g))); [lia|]. by eapply (si_unique _ _ _ Hinv).
Qed.

Lemma sinv_start ep cs g :
  sinv ep cs g → busy g = false → Z.of_nat (S (length (written g))) < 2 ^ 31 →
  sinv (ep <| recv_queue ::= λ q, q <| update_counter := u32 (2 * Z.of_nat (length (written g)) + 1) |> |>)
    cs (mk_history (written g) true (linked g)).
Proof.
  intros Hinv Hb Hlen. destruct Hinv. split; cbn; try done.
  - apply u32_small. lia.
  - lia.
  - intros j Hj. apply si_unused0. unfold started in *. cbn in *. rewrite Hb. cbn. lia.
  - intros k m Hk Hc. apply si_message0; [done|]. unfold current, started in *. cbn in *. rewrite Hb. cbn. lia.
  - intros k Hk Hc. apply si_none0; [done|]. unfold current, started in *. cbn in *. rewrite Hb. cbn. lia.
Qed.
Lemma sinv_element ep cs g j x f :
  sinv ep cs g → elements (recv_queue ep) !! j = Some x → bd_buff_index (f x) = bd_buff_index x →
  sinv (ep <| recv_queue ::= λ q, q <| elements ::= alter f j |> |>) cs g.
Proof.
  intros [] Hx Hf. split; cbn; try done.
  - by rewrite length_alter.
  - intros i Hi. rewrite <- (si_slot0 i Hi). destruct (decide (i = j)) as [->|Hne].
    + rewrite list_lookup_alter_eq, Hx. cbn. by rewrite Hf.
    + by rewrite list_lookup_alter_ne.
Qed.
Lemma sinv_content ep cs g b x f :
  sinv ep cs g → cs !! b = Some x →
  (∀ k m, written g !! k = Some (Some m) → current g k → linked g (entry_of k) ≠ Some b) →
  length (buff (f x)) = length (buff x) → 0 <= size (f x) <= Z.of_nat MCAPI_MAX_MSG_SIZE → magic_num (f x) ≠ 0 →
  sinv ep (alter f b cs) g.
Proof.
  intros [] Hx Hfree Hl Hs Hm. split; try done.
  - by rewrite length_alter.
  - intros i y Hi. destruct (decide (i = b)) as [->|Hne].
    + rewrite list_lookup_alter_eq, Hx in Hi. cbn in Hi. simplify_eq.
      destruct (si_entry0 b x Hx) as [Hl' _]. by rewrite Hl.
    + rewrite list_lookup_alter_ne in Hi by done. by apply (si_entry0 i).
  - intros j c Hj. destruct (si_linked0 j c Hj) as (y & Hy & Hmy). destruct (decide (c = b)) as [->|Hne].
    + exists (f x). by rewrite list_lookup_alter_eq, Hx.
    + exists y. by rewrite list_lookup_alter_ne.
  - intros k m Hk Hc. destruct (si_message0 k m Hk Hc) as (c & y & Hc1 & Hc2 & Hc3). exists c, y.
    split_and!; [done| |done]. rewrite list_lookup_alter_ne; [done|]. intros ->. by eapply Hfree.
Qed.
Lemma sinv_link ep cs g b x :
  let j := entry_of (length (written g)) in
  sinv ep cs g → busy g = true → linked g j = None → (∀ i, linked g i ≠ Some b) →
  cs !! b = Some x → magic_num x ≠ 0 →
  sinv (ep <| recv_queue ::= λ q, q <| elements ::= alter (λ z, z <| bd_buff_index := buff_index_of b |>) j |> |>)
    cs (mk_history (written g) true (λ i, if decide (i = j) then Some b else linked g i)).
Proof.
  intros j [] Hb Hnone Hfree Hx Hm. pose proof (entry_lt (length (written g))) as Hj. fold j in Hj.
  split; cbn; try done.
  - by rewrite length_alter.
  - by rewrite si_counter0, Hb.
  - by rewrite Hb in si_bound0.
  - intros i Hi. destruct (decide (i = j)) as [->|Hne].
    + rewrite list_lookup_alter_eq. specialize (si_slot0 j Hi). destruct (_ !! j) eqn:Hel; [|done]. cbn. done.
    + rewrite list_lookup_alter_ne by done. by apply si_slot0.
  - intros i c. destruct (decide (i = j)); [intros [= <-]; by exists x|apply si_linked0].
  - intros i1 i2 c. destruct (decide (i1 = j)), (decide (i2 = j)); intros H1 H2; simplify_eq; try done;
      [by destruct (Hfree i2)|by destruct (Hfree i1)|by eapply si_unique0].
  - intros i Hi. unfold started in *. cbn in *. rewrite decide_False; [apply si_unused0; rewrite Hb; cbn; lia|].
    intros ->. unfold j, entry_of in Hi. pose proof (Nat.Div0.mod_le (length (written g)) n). lia.
  - intros k m Hk Hc. destruct (si_message0 k m Hk) as (c & y & Hc1 & Hc2 & Hc3).
    { unfold current, started in *. cbn in *. by rewrite Hb. }
    exists c, y. split_and!; [|done|done]. rewrite decide_False; [done|]. intros He. congruence.
  - intros k m Hk. destruct (decide _); [done|]. by eapply si_some0.
  - intros k Hk Hc. unfold current, started in *. cbn in *. apply lookup_lt_Some in Hk as Hlt.
    rewrite decide_False; [apply si_none0; [done|]; by rewrite Hb|]. apply entry_ne. lia.
Qed.
Lemma sinv_finish ep cs g o :
  let j := entry_of (length (written g)) in
  sinv ep cs g → busy g = true →
  (∀ m, o = Some m → ∃ b x, linked g j = Some b ∧ cs !! b = Some x ∧ carries ty m x) →
  (o = None → linked g j = None) →
  sinv (ep <| recv_queue ::= λ q, q <| update_counter := u32 (2 * Z.of_nat (length (written g)) + 2) |> |>)
    cs (mk_history (written g ++ [o]) false (linked g)).
Proof.
  intros j [] Hb Ho Hno. rewrite Hb in *. cbn in *. split; cbn; rewrite ?length_app; cbn; try done.
  - rewrite u32_small; lia.
  - lia.
  - intros i Hi. apply si_unused0. unfold started in *. cbn in *. rewrite ?length_app in Hi. cbn in Hi. rewrite Hb. cbn. lia.
  - intros k m Hk Hc. destruct (decide (k = length (written g))) as [->|Hne].
    + rewrite lookup_app_r, Nat.sub_diag in Hk by lia. cbn in Hk. apply (inj Some) in Hk. by apply Ho.
    + apply lookup_lt_Some in Hk as Hlt. rewrite length_app in Hlt. cbn in Hlt.
      rewrite lookup_app_l in Hk by lia. apply si_message0; [done|].
      unfold current, started in *. cbn in *. rewrite ?length_app in Hc. cbn in Hc. rewrite Hb. cbn. lia.
  - intros k m Hk. destruct (decide (k = length (written g))) as [->|Hne].
    + rewrite lookup_app_r, Nat.sub_diag in Hk by lia. cbn in Hk. apply (inj Some) in Hk.
      destruct (Ho m Hk) as (b & x & Hl & _). by exists b.
    + apply lookup_lt_Some in Hk as Hlt. rewrite length_app in Hlt. cbn in Hlt.
      rewrite lookup_app_l in Hk by lia. by eapply si_some0.
  - intros k Hk Hc. destruct (decide (k = length (written g))) as [->|Hne].
    + rewrite lookup_app_r, Nat.sub_diag in Hk by lia. cbn in Hk. apply (inj Some) in Hk. by apply Hno.
    + apply lookup_lt_Some in Hk as Hlt. rewrite length_app in Hlt. cbn in Hlt.
      rewrite lookup_app_l in Hk by lia. apply si_none0; [done|].
      unfold current, started in *. cbn in *. rewrite ?length_app in Hc. cbn in Hc. rewrite Hb. cbn. lia.
Qed.

(** ** The writer, access by access *)

Local Abbreviation safe_w := (safe True sreal reads_only progress).

Record at_writer (ep : endpoint_entry) (cs : list buffer_entry) (g : history) (w : sworld) : Prop := {
  aw_inv : sinv ep cs g;
  aw_history : w.2 = g;
  aw_endpoint : endpoints w.1 !! e = Some ep;
  aw_contents : contents w.1 = cs }.

Lemma at_writer_rely ep cs g w w' : at_writer ep cs g w → reads_only w w' → at_writer ep cs g w'.
Proof. intros [] (H1 & H2 & H3). split; [done|congruence..]. Qed.
Lemma writer_return {A} (a : A) (Q : A → sworld → Prop) ep cs g w :
  at_writer ep cs g w → (∀ w', at_writer ep cs g w' → Q a w') → safe_w (Return a) Q w.
Proof. intros Hw HQ w' HR. apply HQ. by eapply at_writer_rely. Qed.
Lemma writer_access {X B} (access : M database X) y ep' cs' g' (k : X → prog database B) Q ep cs g w :
  at_writer ep cs g w → extends g g' → sinv ep' cs' g' →
  (∀ d, endpoints d !! e = Some ep → contents d = cs → ∃ d', access d = Done (y, d') ∧
     endpoints d' !! e = Some ep' ∧ contents d' = cs') →
  (∀ w', at_writer ep' cs' g' w' → safe_w (k y) Q w') →
  safe_w (let! x := once access in k x) Q w.
Proof.
  intros Hw He Hinv Ha Hk. apply safe_access. intros w1 HR.
  pose proof (at_writer_rely _ _ _ _ _ Hw HR) as [_ Hg Hep Hcs]. destruct (Ha w1.1 Hep Hcs) as (d' & Hd & Hep' & Hcs').
  exists y, (d', g'). split; [exact Hd|]. split; [|by apply Hk].
  intros _. cbn [fst snd]. rewrite Hg. split; [|done]. exists ep'. cbn [fst snd]. by rewrite Hcs'.
Qed.
Lemma writer_read {A B} (l : location A) v (k : A → prog database B) Q ep cs g w :
  at_writer ep cs g w →
  (∀ d, endpoints d !! e = Some ep → contents d = cs → peek l d = Some v) →
  (∀ w', at_writer ep cs g w' → safe_w (k v) Q w') →
  safe_w (let! x := once (load_of l) in k x) Q w.
Proof.
  intros Hw Hv Hk. eapply writer_access; [exact Hw|done|apply Hw| |exact Hk].
  intros d Hep Hcs. exists d. split; [|done]. by apply load_of_done, Hv.
Qed.
Lemma writer_queue {X B} (access : M database X) y f g' (k : X → prog database B) Q ep cs g w :
  at_writer ep cs g w → extends g g' → sinv (ep <| recv_queue ::= f |>) cs g' →
  (∀ d, endpoints d !! e = Some ep → contents d = cs → access d = Done (y, upd_queue f e d)) →
  (∀ w', at_writer (ep <| recv_queue ::= f |>) cs g' w' → safe_w (k y) Q w') →
  safe_w (let! x := once access in k x) Q w.
Proof.
  intros Hw He Hinv Ha Hk. eapply writer_access; [exact Hw|exact He|exact Hinv| |exact Hk].
  intros d Hep Hcs. exists (upd_queue f e d). split; [by apply Ha|]. split; [by apply endpoint_upd|done].
Qed.
Lemma writer_buffer {X B} (access : M database X) y f f' b (k : X → prog database B) Q ep cs g w :
  at_writer ep cs g w → sinv ep (alter f' b cs) g → (∀ x, unparent (f x) = f' (unparent x)) →
  (∀ d, endpoints d !! e = Some ep → contents d = cs → access d = Done (y, upd_buffer f b d)) →
  (∀ w', at_writer ep (alter f' b cs) g w' → safe_w (k y) Q w') →
  safe_w (let! x := once access in k x) Q w.
Proof.
  intros Hw Hinv Hf Ha Hk. eapply writer_access; [exact Hw|done|exact Hinv| |exact Hk].
  intros d Hep Hcs. exists (upd_buffer f b d). split; [by apply Ha|]. split; [done|].
  by rewrite (contents_upd f f') by done; rewrite Hcs.
Qed.

Lemma element_at j ep d : endpoints d !! e = Some ep →
  element_of e (Z.of_nat j) d = elements (recv_queue ep) !! j.
Proof. intros H. unfold element_of, queue_of. rewrite H. cbn. by rewrite Nat2Z.id. Qed.

(** The state of an entry, which readers ignore. *)
Lemma writer_marks {B} j v x (k : prog database B) Q ep cs g w :
  at_writer ep cs g w → elements (recv_queue ep) !! j = Some x →
  (∀ w', at_writer (ep <| recv_queue ::= λ q, q <| elements ::= alter (λ z, z <| bd_state := v |>) j |> |>) cs g w' →
     safe_w k Q w') →
  safe_w (mrapi_atomic_xchg (state_at e (Z.of_nat j)) v;! k) Q w.
Proof.
  intros Hw Hx Hk.
  change (safe_w (let! previous := once (load_of (state_at e (Z.of_nat j))) in
                  let! _ := once (cas_of (state_at e (Z.of_nat j)) v previous) in k) Q w).
  eapply writer_read with (v := bd_state x); [exact Hw| |].
  { intros d Hep _. cbn. by rewrite (element_at j ep d Hep), Hx. }
  intros w1 H1.
  eapply writer_queue with (f := λ q, q <| elements ::= alter (λ z, z <| bd_state := v |>) j |>) (g' := g);
    [exact H1|done| | |exact Hk].
  - by eapply sinv_element; [apply Hw|exact Hx|].
  - intros d Hep _. rewrite (cas_of_done (state_at e (Z.of_nat j)) d v (bd_state x)).
    + cbn. unfold upd_element. by rewrite Nat2Z.id.
    + cbn. by rewrite (element_at j ep d Hep), Hx.
Qed.

(** Taking a buffer, which belongs to no entry. *)
Lemma writer_alloc {B} c i (k : option nat → prog database B) Q ep cs g w :
  at_writer ep cs g w → (i + c = MCAPI_MAX_BUFFERS)%nat →
  (∀ w', at_writer ep cs g w' → safe_w (k None) Q w') →
  (∀ b x cs' w', cs' !! b = Some x → magic_num x ≠ 0 → (∀ j, linked g j ≠ Some b) →
     at_writer ep cs' g w' → safe_w (k (Some b)) Q w') →
  safe_w (let! r := alloc_from c i RESERVED_NUM in k r) Q w.
Proof.
  revert i w. induction c as [|c IH]; intros i w Hw Hi Hnone Hsome; [by apply Hnone|]. cbn [alloc_from].
  change (safe_w (let! r := once (cas_of (magic_at i) RESERVED_NUM 0) in
    let! r' := (let '(ok, _) := r in if (ok : bool) then Return (Some i) else alloc_from c (S i) RESERVED_NUM) in k r') Q w).
  pose proof (aw_inv _ _ _ _ Hw) as Hinv.
  destruct (lookup_lt_is_Some_2 cs i) as [x Hx]; [rewrite (si_pool _ _ _ Hinv); lia|].
  destruct (decide (magic_num x = 0)) as [H0|H0].
  - set (f := λ z, z <| magic_num := RESERVED_NUM |>).
    assert (∀ j, linked g j ≠ Some i) as Hfree.
    { intros j Hj. destruct (si_linked _ _ _ Hinv j i Hj) as (y & Hy & Hm). congruence. }
    eapply writer_buffer with (f := f) (f' := f) (b := i); [exact Hw| |done| |].
    + eapply sinv_content; [exact Hinv|exact Hx|intros k' m _ _; apply Hfree|done| |done].
      apply (si_entry _ _ _ Hinv i x Hx).
    + intros d _ Hcs. apply (cas_of_done (magic_at i)). rewrite <- Hcs in Hx.
      apply contents_some in Hx as (y & Hy & ->). cbn in H0 |- *. by rewrite Hy, <- H0.
    + intros w1 H1. apply (Hsome i (f x) (alter f i cs)); [|done|done|exact H1]. by rewrite list_lookup_alter_eq, Hx.
  - eapply writer_access with (g' := g); [exact Hw|done|exact Hinv| |].
    + intros d Hep Hcs. exists d. split; [|done]. apply (cas_of_miss (magic_at i)) with (v := magic_num x); [|done].
      rewrite <- Hcs in Hx. apply contents_some in Hx as (y & Hy & ->). cbn. by rewrite Hy.
    + intros w1 H1. apply (IH (S i) w1 H1); [lia|done|done].
Qed.

(** Filling the buffer of the entry being written. *)
Record filling (g : history) (b : nat) (ep : endpoint_entry) (x : buffer_entry) (w : sworld) : Prop := {
  fi_writer : ∃ cs, at_writer ep cs g w ∧ cs !! b = Some x;
  fi_busy : busy g = true;
  fi_entry : linked g (entry_of (length (written g))) = Some b }.

Lemma writer_fills {X B} (access : M database X) y f (k : X → prog database B) Q g b ep x w :
  filling g b ep x w → unparent x = x → (∀ z, unparent (f z) = f (unparent z)) →
  (∀ d z, buffers d !! b = Some z → unparent z = x → access d = Done (y, upd_buffer f b d)) →
  length (buff (f x)) = length (buff x) → 0 <= size (f x) <= Z.of_nat MCAPI_MAX_MSG_SIZE → magic_num (f x) = magic_num x →
  (∀ w', filling g b ep (f x) w' → safe_w (k y) Q w') →
  safe_w (let! r := once access in k r) Q w.
Proof.
  intros [(cs & Hw & Hx) Hb Hl] Hun Hf Ha Hlen Hsize Hm Hk.
  eapply writer_buffer with (f := f) (f' := f) (b := b); [exact Hw| |exact Hf| |].
  - eapply sinv_content; [apply Hw|exact Hx| |exact Hlen|exact Hsize|].
    + intros k' m Hk' Hc. eapply unprotected; [apply Hw|done..].
    + rewrite Hm. destruct (si_linked _ _ _ (aw_inv _ _ _ _ Hw) _ _ Hl) as (y' & Hy & Hmy). congruence.
  - intros d _ Hcs. rewrite <- Hcs in Hx. apply contents_some in Hx as (z & Hz & Hzx). by eapply Ha.
  - intros w' H'. apply Hk. split; [|done|done]. eexists. split; [exact H'|]. by rewrite list_lookup_alter_eq, Hx.
Qed.
Lemma filling_length g b ep x w : filling g b ep x w →
  length (buff x) = MCAPI_MAX_MSG_SIZE ∧ 0 <= size x <= Z.of_nat MCAPI_MAX_MSG_SIZE ∧ unparent x = x.
Proof.
  intros [(cs & [Hinv _ _ Hcs] & Hx) _ _]. destruct (si_entry _ _ _ Hinv b x Hx). split_and!; [done|lia|lia|].
  rewrite <- Hcs in Hx. by apply contents_some in Hx as (z & _ & ->).
Qed.
Lemma writer_parent {B} v (k : prog database B) Q g b ep x w :
  filling g b ep x w → (∀ w', filling g b ep x w' → safe_w k Q w') →
  safe_w (store (parent_at b) v;! k) Q w.
Proof.
  intros [(cs & Hw & Hx) Hb Hl] Hk. change (safe_w (let! _ := once (store_of (parent_at b) v) in k) Q w).
  eapply writer_access with (ep' := ep) (cs' := cs) (g' := g); [exact Hw|done|apply Hw| |].
  - intros d Hep Hcs. exists (poke (parent_at b) v d). split_and!; [|done|by rewrite contents_parent].
    rewrite <- Hcs in Hx. apply contents_some in Hx as (z & Hz & _).
    eapply (store_of_done (parent_at b)). cbn. by rewrite Hz.
  - intros w' H'. apply Hk. split; [|done|done]. by exists cs.
Qed.

Lemma writer_copy_in {B} (k : prog database B) Q g b ep x w buffer :
  filling g b ep x w → (length buffer <= MCAPI_MAX_MSG_SIZE)%nat →
  (∀ w', filling g b ep (x <| buff := buffer ++ drop (length buffer) (buff x) |>) w' → safe_w k Q w') →
  safe_w (copy_in b buffer;! k) Q w.
Proof.
  intros Hw Hsize Hk. destruct (filling_length _ _ _ _ _ Hw) as (Hlen & Hs & Hun). apply safe_then; [apply _|].
  set (at_j := λ j, filling g b ep (x <| buff := take j buffer ++ drop j (buff x) |>)).
  assert (∀ x' w1 w2, reads_only w1 w2 → filling g b ep x' w1 → filling g b ep x' w2) as Hrely.
  { intros x' w1 w2 HR [(cs & H & Hx) ? ?]. split; [|done|done]. exists cs. split; [by eapply at_writer_rely|done]. }
  apply safe_for with (I := at_j); [apply _| | | |].
  - intros j w1 w2 HR H. by eapply Hrely.
  - intros j w1 [_ Hj] H. cbn in Hj. destruct (lookup_lt_is_Some_2 buffer j Hj) as [v Hv]. rewrite Hv.
    change (safe_w (let! r := once (store_of (byte_at b j) v) in Return r) (λ _, at_j (S j)) w1).
    eapply writer_fills with (y := tt) (f := λ z, z <| buff ::= <[j := v]> |>); [exact H| |done| |by cbn; rewrite length_insert|done|done|].
    + by destruct (filling_length _ _ _ _ _ H) as (_ & _ & ?).
    + intros d z Hz Hzx. destruct (lookup_lt_is_Some_2 (buff z) j) as [old Ho].
      { apply (f_equal buff) in Hzx. cbn in Hzx. rewrite Hzx, length_app, length_take, length_drop. lia. }
      apply store_of_done with (old := old). cbn. rewrite Hz. exact Ho.
    + intros w2 H2 w3 HR. unfold at_j. rewrite <- (insert_take_drop j v buffer (buff x)) by (try done; lia).
      eapply Hrely; [exact HR|exact H2].
  - intros w1 H. unfold at_j in H. cbn in H. rewrite firstn_all in H. by apply Hk.
  - unfold at_j. cbn. rewrite drop_0. by destruct x.
Qed.

Lemma writer_fill_buffer j g b ep x w msg :
  filling g b ep x w → (length msg.1 <= MCAPI_MAX_MSG_SIZE)%nat →
  safe_w (fill_buffer e j b msg.1 msg.2) (λ _ w', ∃ x', filling g b ep x' w' ∧ carries ty msg x') w.
Proof.
  intros Hw Hsize. unfold fill_buffer. eapply writer_parent; [exact Hw|]. intros w1 H1.
  destruct (filling_length _ _ _ _ _ H1) as (Hlen & Hs & Hun).
  assert (∃ cs, at_writer ep cs g w1) as [cs Hat] by (destruct H1 as [(cs & ? & _) _ _]; by exists cs).
  set (Q := λ (_ : unit) w', ∃ x', filling g b ep x' w' ∧ carries ty msg x').
  assert (∀ x2 w2, filling g b ep x2 w2 →
    (if decide (ty = MCAPI_SCL_CHAN) then scalar x2 = msg.2 else take (length msg.1) (buff x2) = msg.1) →
    safe_w (store (size_at b) (Z.of_nat (length msg.1))) Q w2) as Hlast.
  { intros x2 w2 H2 Hc2. change (safe_w (let! r := once (store_of (size_at b) (Z.of_nat (length msg.1))) in Return r) Q w2).
    destruct (filling_length _ _ _ _ _ H2) as (_ & _ & Hun2).
    eapply writer_fills with (y := tt) (f := λ z, z <| size := Z.of_nat (length msg.1) |>);
      [exact H2|exact Hun2|done| |done|cbn; lia|done|].
    - intros d z Hz _. eapply (store_of_done (size_at b)). cbn. by rewrite Hz.
    - intros w3 H3 w4 HR. exists (x2 <| size := Z.of_nat (length msg.1) |>). split; [|by split].
      destruct H3 as [(cs3 & H3 & Hx3) ? ?]. split; [|done|done]. exists cs3. split; [by eapply at_writer_rely|done]. }
  assert (∀ k, (∀ w2, filling g b ep x w2 → safe_w (k ty) Q w2) →
    safe_w (let! type := once (load_of (channel_at e)) in k type) Q w1) as Hload.
  { intros k Hk. destruct H1 as [(cs1 & H1 & Hx1) Hb1 Hl1]. eapply writer_read with (v := ty); [exact H1| |].
    - intros d Hep _. cbn. unfold queue_of. rewrite Hep. cbn. by rewrite (si_channel _ _ _ (aw_inv _ _ _ _ H1)).
    - intros w2 H2. apply Hk. split; [|done|done]. by exists cs1. }
  apply Hload. intros w2 H2. cbn beta. destruct (decide (ty = MCAPI_SCL_CHAN)) as [He|Hne].
  - eapply (writer_fills (store_of (scalar_at b) msg.2)) with (y := tt) (f := λ z, z <| scalar := msg.2 |>);
      [exact H2|exact Hun|done| |done|exact Hs|done|].
    { intros d z Hz _. eapply (store_of_done (scalar_at b)). cbn. by rewrite Hz. }
    intros w3 H3. by eapply Hlast.
  - eapply writer_copy_in; [exact H2|exact Hsize|]. intros w3 H3. eapply Hlast; [exact H3|].
    cbn. by rewrite take_app_length.
Qed.

(** Completing the write. *)
Lemma writer_finishes o r ep cs g w (Q : bool → sworld → Prop) :
  at_writer ep cs g w → busy g = true →
  (∀ m, o = Some m → ∃ b x, linked g (entry_of (length (written g))) = Some b ∧ cs !! b = Some x ∧ carries ty m x) →
  (o = None → linked g (entry_of (length (written g))) = None) →
  (∀ w' ep', at_writer ep' cs (mk_history (written g ++ [o]) false (linked g)) w' → Q r w') →
  let counter := 2 * Z.of_nat (length (written g)) + 1 in
  safe_w (let! (ok, _) := mrapi_atomic_cas (update_counter_at e) (u32 (counter + 1)) counter in
    assert_that ok;! Return r) Q w.
Proof.
  intros Hw Hb Ho Hno HQ counter. pose proof (si_counter _ _ _ (aw_inv _ _ _ _ Hw)) as Hc. rewrite Hb in Hc.
  change (safe_w (let! res := once (cas_of (update_counter_at e) (u32 (counter + 1)) counter) in
    (let '(ok, _) := res in assert_that ok;! Return r)) Q w).
  eapply writer_queue with (g' := mk_history (written g ++ [o]) false (linked g)) (y := (true, counter))
    (f := λ q, q <| update_counter := u32 (2 * Z.of_nat (length (written g)) + 2) |>); [exact Hw| | | |].
  - split_and!; [by eexists| |done]. unfold started. cbn. rewrite Hb, length_app. cbn. lia.
  - apply sinv_finish; [apply Hw|done|exact Ho|exact Hno].
  - intros d Hep _. unfold counter. rewrite (cas_of_done (update_counter_at e)).
    + by replace (2 * Z.of_nat (length (written g)) + 1 + 1) with (2 * Z.of_nat (length (written g)) + 2) by lia.
    + cbn. unfold queue_of. rewrite Hep. cbn. by rewrite Hc.
  - intros w1 H1. cbn [assert_that then_do]. eapply writer_return; [exact H1|]. intros w2 H2. by eapply HQ.
Qed.

(** A whole write: the message is the next one written, or there was no buffer. *)
Definition idle_writer (ms : list (option (list Z * Z))) (w : sworld) : Prop :=
  ∃ ep cs g, at_writer ep cs g w ∧ busy g = false ∧ written g = ms.

Lemma slot_at ep cs g j : sinv ep cs g → (j < n)%nat →
  ∃ x, elements (recv_queue ep) !! j = Some x ∧ bd_buff_index x = link (linked g j).
Proof.
  intros Hinv Hj. pose proof (si_slot _ _ _ Hinv j Hj) as H. destruct (_ !! j) as [x|]; [|done].
  exists x. split; [done|]. by injection H.
Qed.
Lemma writer_completes b g ep x w msg :
  let k := length (written g) in
  let qindex := Z.of_nat (entry_of k) in
  let counter := 2 * Z.of_nat k + 1 in
  filling g b ep x w → (length msg.1 <= MCAPI_MAX_MSG_SIZE)%nat →
  safe_w (fill_buffer e qindex b msg.1 msg.2;!
    let! state := mrapi_atomic_read (state_at e qindex) in
    (if decide (state = BUFFER_ALLOCATED) then Return tt
     else
       let! (ok, _) := mrapi_atomic_cas (state_at e qindex) BUFFER_ALLOCATED state in
       assert_that ok);!
    let! (ok, _) := mrapi_atomic_cas (update_counter_at e) (u32 (counter + 1)) counter in
    assert_that ok;! Return true)
    (λ r w', idle_writer (written g ++ [if (r : bool) then Some msg else None]) w') w.
Proof.
  intros k qindex counter Hw Hsize. apply safe_then; [apply _|].
  eapply safe_mono; [by eapply writer_fill_buffer|]. cbn beta.
  intros _ w1 (x' & [(cs & H1 & Hx') Hb Hl] & Hcar).
  destruct (slot_at _ _ _ (entry_of k) (aw_inv _ _ _ _ H1) (entry_lt k)) as (el & Hel & _).
  assert (∀ ep' w', at_writer ep' cs g w' →
    safe_w (let! (ok, _) := mrapi_atomic_cas (update_counter_at e) (u32 (counter + 1)) counter in
            assert_that ok;! Return true)
      (λ r w', idle_writer (written g ++ [if (r : bool) then Some msg else None]) w') w') as Hfin.
  { intros ep' w' H'. eapply (writer_finishes (Some msg)); [exact H'|exact Hb| |done|].
    - intros m [= <-]. by exists b, x'.
    - intros w2 ep2 H2. by exists ep2, cs, (mk_history (written g ++ [Some msg]) false (linked g)). }
  eapply (writer_read (state_at e qindex)) with (v := bd_state el); [exact H1| |].
  { intros d Hep _. cbn. unfold qindex. by rewrite (element_at _ ep d Hep), Hel. }
  intros w2 H2. cbn beta. destruct (decide (bd_state el = BUFFER_ALLOCATED)); [by eapply Hfin|].
  change (safe_w (let! res := once (cas_of (state_at e qindex) BUFFER_ALLOCATED (bd_state el)) in
    ((let '(ok, _) := res in assert_that ok);!
     let! (ok, _) := mrapi_atomic_cas (update_counter_at e) (u32 (counter + 1)) counter in
     assert_that ok;! Return true))
    (λ r w', idle_writer (written g ++ [if (r : bool) then Some msg else None]) w') w2).
  eapply writer_queue with (y := (true, bd_state el)) (g' := g)
    (f := λ q, q <| elements ::= alter (λ z, z <| bd_state := BUFFER_ALLOCATED |>) (entry_of k) |>); [exact H2|done| | |].
  - by eapply sinv_element; [apply H2|exact Hel|].
  - intros d Hep _. rewrite (cas_of_done (state_at e qindex) d _ (bd_state el)).
    + cbn. unfold upd_element, qindex. by rewrite Nat2Z.id.
    + cbn. unfold qindex. by rewrite (element_at _ ep d Hep), Hel.
  - intros w3 H3. cbn [assert_that then_do]. by eapply Hfin.
Qed.

(** Beginning the write: the next entry, and its buffer if it has one. *)
Lemma writer_starts {B} (k : Z → prog database B) Q ep cs g w :
  let c := length (written g) in
  at_writer ep cs g w → busy g = false → Z.of_nat (S c) < 2 ^ 31 →
  (∀ ep' w', at_writer ep' cs (mk_history (written g) true (linked g)) w' → safe_w (k (2 * Z.of_nat c + 1)) Q w') →
  safe_w (let! counter := mrapi_atomic_inc (update_counter_at e) in k counter) Q w.
Proof.
  intros c Hw Hb Hlen Hk. pose proof (si_counter _ _ _ (aw_inv _ _ _ _ Hw)) as Hc. rewrite Hb in Hc. cbn in Hc.
  eapply (writer_queue (inc_of (update_counter_at e))) with (y := 2 * Z.of_nat c + 1)
    (g' := mk_history (written g) true (linked g))
    (f := λ q, q <| update_counter := u32 (2 * Z.of_nat c + 1) |>); [exact Hw| | | |].
  - split_and!; [done| |done]. unfold started. cbn. rewrite Hb. cbn. lia.
  - by apply sinv_start; [apply Hw|..].
  - intros d Hep _. rewrite (inc_of_done (update_counter_at e) d (2 * Z.of_nat c)).
    + by rewrite (u32_small (2 * Z.of_nat c + 1)) by lia.
    + cbn. unfold queue_of. rewrite Hep. cbn. rewrite Hc. f_equal. lia.
  - intros w1 H1. by eapply Hk.
Qed.
Lemma remainder_entry c : remainder ((2 * Z.of_nat c + 1) / 2) (Z.of_nat n) = Return (Z.of_nat (entry_of c)).
Proof.
  unfold remainder, entry_of. rewrite (proj2 (Z.eqb_neq _ _)) by lia. rewrite Nat2Z.inj_mod. do 2 f_equal.
  symmetry. apply (Z.div_unique_pos _ 2 _ 1); lia.
Qed.
(** Linking a buffer that was just taken to the entry. *)
Lemma writer_links {B} b x (k : prog database B) Q ep cs g w :
  let j := entry_of (length (written g)) in
  at_writer ep cs g w → busy g = true → linked g j = None → (∀ i, linked g i ≠ Some b) →
  cs !! b = Some x → magic_num x ≠ 0 →
  (∀ g' ep' w', written g' = written g → filling g' b ep' x w' → safe_w k Q w') →
  safe_w (mrapi_atomic_xchg (buff_index_at e (Z.of_nat j)) (buff_index_of b);! k) Q w.
Proof.
  intros j Hw Hb Hnone Hfree Hx Hm Hk.
  destruct (slot_at _ _ _ j (aw_inv _ _ _ _ Hw) (entry_lt _)) as (el & Hel & Hlink). rewrite Hnone in Hlink. cbn in Hlink.
  change (safe_w (let! previous := once (load_of (buff_index_at e (Z.of_nat j))) in
                  let! _ := once (cas_of (buff_index_at e (Z.of_nat j)) (buff_index_of b) previous) in k) Q w).
  eapply writer_read with (v := 0); [exact Hw| |].
  { intros d Hep _. cbn. by rewrite (element_at j ep d Hep), Hel, <- Hlink. }
  intros w1 H1.
  set (g' := mk_history (written g) true (λ i, if decide (i = j) then Some b else linked g i)).
  eapply writer_queue with (f := λ q, q <| elements ::= alter (λ z, z <| bd_buff_index := buff_index_of b |>) j |>)
    (g' := g') (y := (true, 0)); [exact H1| | | |].
  - split_and!; [done| |].
    + unfold started. cbn. by rewrite Hb.
    + intros i c Hi. cbn. rewrite decide_False; [done|]. intros ->. congruence.
  - by eapply sinv_link; [apply H1|..].
  - intros d Hep _. rewrite (cas_of_done (buff_index_at e (Z.of_nat j)) d _ 0).
    + cbn. unfold upd_element. by rewrite Nat2Z.id.
    + cbn. by rewrite (element_at j ep d Hep), Hel, <- Hlink.
  - intros w2 H2. eapply (Hk g'); [done|]. split; [by exists cs|done|]. cbn. by rewrite decide_True.
Qed.

Lemma writer_channel {B} (k : channel_type → prog database B) Q ep cs g w :
  at_writer ep cs g w → (∀ w', at_writer ep cs g w' → safe_w (k ty) Q w') →
  safe_w (let! type := load (channel_at e) in k type) Q w.
Proof.
  intros Hw Hk. eapply (writer_read (channel_at e)) with (v := ty); [exact Hw| |exact Hk].
  intros d Hep _. cbn. unfold queue_of. rewrite Hep. cbn. by rewrite (si_channel _ _ _ (aw_inv _ _ _ _ Hw)).
Qed.

(** Clearing an entry that has no buffer changes nothing. *)
Lemma writer_clears {B} j x (k : prog database B) Q ep cs g w :
  at_writer ep cs g w → elements (recv_queue ep) !! j = Some x → bd_buff_index x = 0 →
  (∀ w' ep', at_writer ep' cs g w' → safe_w k Q w') →
  safe_w (mrapi_atomic_xchg (buff_index_at e (Z.of_nat j)) 0;! k) Q w.
Proof.
  intros Hw Hx H0 Hk.
  change (safe_w (let! previous := once (load_of (buff_index_at e (Z.of_nat j))) in
                  let! _ := once (cas_of (buff_index_at e (Z.of_nat j)) 0 previous) in k) Q w).
  eapply writer_read with (v := 0); [exact Hw| |].
  { intros d Hep _. cbn. by rewrite (element_at j ep d Hep), Hx, <- H0. }
  intros w1 H1.
  eapply writer_queue with (f := λ q, q <| elements ::= alter (λ z, z <| bd_buff_index := 0 |>) j |>) (g' := g);
    [exact H1|done| | |].
  - by eapply sinv_element; [apply Hw|exact Hx|].
  - intros d Hep _. rewrite (cas_of_done (buff_index_at e (Z.of_nat j)) d 0 0).
    + cbn. unfold upd_element. by rewrite Nat2Z.id.
    + cbn. by rewrite (element_at j ep d Hep), Hx, <- H0.
  - intros w2 H2. by eapply Hk.
Qed.

Lemma writer_writes ms w msg :
  idle_writer ms w → (length msg.1 <= MCAPI_MAX_MSG_SIZE)%nat → Z.of_nat (S (length ms)) < 2 ^ 31 →
  safe_w (mcapi_trans_send_state e msg.1 msg.2)
    (λ r w', idle_writer (ms ++ [if (r : bool) then Some msg else None]) w') w.
Proof.
  intros (ep0 & cs & g0 & Hw & Hb & <-) Hsize Hlen. unfold mcapi_trans_send_state.
  set (k := length (written g0)) in *. set (j := entry_of k).
  eapply writer_starts; [exact Hw|exact Hb|exact Hlen|]. fold k. intros ep w1 H1.
  set (g := mk_history (written g0) true (linked g0)) in *.
  eapply (writer_read (send_buffers_at e)) with (v := Z.of_nat n); [exact H1| |].
  { intros d Hep _. cbn. rewrite Hep. cbn. by rewrite (si_buffers _ _ _ (aw_inv _ _ _ _ H1)). }
  intros w2 H2. rewrite remainder_entry. cbn [then_do]. fold j.
  destruct (slot_at _ _ _ j (aw_inv _ _ _ _ H2) (entry_lt k)) as (el & Hel & Hlink).
  eapply (writer_read (state_at e (Z.of_nat j))) with (v := bd_state el); [exact H2| |].
  { intros d Hep _. cbn. by rewrite (element_at j ep d Hep), Hel. }
  intros w3 H3.
  eapply (writer_read (buff_index_at e (Z.of_nat j))) with (v := bd_buff_index el); [exact H3| |].
  { intros d Hep _. cbn. by rewrite (element_at j ep d Hep), Hel. }
  intros w4 H4. rewrite Hlink. change (linked g j) with (linked g0 j) in *. destruct (linked g0 j) as [b|] eqn:Hl; cbn [link].
  - destruct (si_linked _ _ _ (aw_inv _ _ _ _ H4) j b Hl) as (x & Hx & Hm).
    assert (b < MCAPI_MAX_BUFFERS)%nat as Hbm.
    { rewrite <- (si_pool _ _ _ (aw_inv _ _ _ _ H4)). by eapply lookup_lt_Some. }
    destruct (buff_index_ok b Hbm) as [Hnz ->]. rewrite (proj2 (Z.eqb_neq _ _)) by done.
    eapply writer_channel; [exact H4|]. intros w5 H5. rewrite bool_decide_eq_true_2 by done. cbn [orb then_do].
    eapply writer_marks; [exact H5|exact Hel|]. intros w6 H6.
    eapply (writer_completes b g); [|exact Hsize]. split; [by exists cs|done|done].
  - cbn [Z.eqb then_do]. eapply writer_marks; [exact H4|exact Hel|]. intros w5 H5.
    eapply writer_channel; [exact H5|]. intros w6 H6. rewrite bool_decide_eq_false_2 by done. cbn [andb then_do].
    apply safe_then; [apply _|]. eapply (writer_alloc MCAPI_MAX_BUFFERS 0); [exact H6|done| |].
    + intros w7 H7. destruct (slot_at _ _ _ j (aw_inv _ _ _ _ H7) (entry_lt k)) as (el7 & Hel7 & Hlink7).
      eapply writer_marks; [exact H7|exact Hel7|]. intros w8 H8.
      destruct (slot_at _ _ _ j (aw_inv _ _ _ _ H8) (entry_lt k)) as (el8 & Hel8 & Hlink8).
      change (linked g j) with (linked g0 j) in Hlink8. rewrite Hl in Hlink8. cbn in Hlink8.
      eapply writer_clears; [exact H8|exact Hel8|exact Hlink8|]. intros w9 ep9 H9.
      eapply writer_return; [exact H9|]. intros w10 H10.
      eapply (writer_finishes None false ep9 cs g); [exact H10|done|done|done|]. intros w11 ep11 H11.
      by exists ep11, cs, (mk_history (written g0 ++ [None]) false (linked g0)).
    + intros b x cs' w7 Hx Hm Hfree H7. eapply (writer_links b x) with (g := g); [exact H7|done|exact Hl|exact Hfree|exact Hx|exact Hm|].
      intros g' ep' w8 Hg' H8.
      assert (∀ w', reads_only w8 w' → filling g' b ep' x w') as Hrely.
      { intros w' HR. destruct H8 as [(cs8 & H8 & Hx8) ? ?]. split; [|done|done]. exists cs8.
        split; [by eapply at_writer_rely|done]. }
      intros w9 HR. pose proof (writer_completes b g' ep' x w9 msg (Hrely w9 HR) Hsize) as Hdone. by rewrite Hg' in Hdone.
Qed.
End state.
