(* ===== verification/LockfreeReader.v ===== *)
(** The readers of state messages, access by access: a read that is confirmed has the
    message of one write, and what was read in between is of no consequence. *)

From S2P Require Import Prelude LockfreeProg LockfreeQueue LockfreeFifo LockfreeSender LockfreeState.

(** Following the moments of a read. *)
Ltac extends_tac := first [assumption | reflexivity | etrans; [eassumption|]; extends_tac].

Section readers.
Context (e : endpoint_index) (ty : channel_type) (n : nat).
Context (Hpkt : ty ≠ MCAPI_PKT_CHAN) (Hn : (0 < n <= S entries)%nat) (Hdiv : (Z.of_nat n | 2 ^ 32)).

Local Abbreviation safe_r := (safe True sreal (progress e ty n) (reads_only e)).
Local Abbreviation inv := (sinv ty n).

(** What a reader knows: the invariant, and what was written until some moment. *)
Record at_reader (g : history) (w : sworld) : Prop := {
  ard_inv : SInv e ty n w;
  ard_extends : extends g w.2 }.

Lemma at_reader_rely g w w' : at_reader g w → progress e ty n w w' → at_reader g w'.
Proof. intros [Hw He] HR. destruct (HR Hw) as [Hw' He']. split; [done|by etrans]. Qed.
Lemma reader_return {A} (a : A) (Q : A → sworld → Prop) g w :
  at_reader g w → (∀ w', at_reader g w' → Q a w') → safe_r (Return a) Q w.
Proof. intros Hw HQ w' HR. apply HQ. by eapply at_reader_rely. Qed.

(** A read: the value is that of some later moment. *)
Lemma reader_read {A B} (l : location A) (k : A → prog database B) Q g w :
  at_reader g w →
  (∀ d g' ep, endpoints d !! e = Some ep → inv ep (contents d) g' → extends g g' →
     ∃ v, peek l d = Some v ∧ (at_reader g' (d, g') → safe_r (k v) Q (d, g'))) →
  safe_r (let! v := once (load_of l) in k v) Q w.
Proof.
  intros Hw Hk. apply safe_access. intros [d g'] HR. pose proof (at_reader_rely _ _ _ Hw HR) as [Hinv He].
  pose proof Hinv as (ep & Hep & Hi). cbn [fst snd] in *. destruct (Hk d g' ep Hep Hi He) as (v & Hv & Hs).
  exists v, (d, g'). split; [by apply load_of_done|]. split; [done|]. by apply Hs.
Qed.
Lemma reader_queue {A B} (l : location A) (f : queue → A) (k : A → prog database B) Q g w :
  at_reader g w → (∀ d, peek l d = f <$> queue_of e d) →
  (∀ q g' w', update_counter q = 2 * Z.of_nat (length (written g')) + Z.b2z (busy g') → channel q = ty →
     Z.of_nat (length (written g')) < 2 ^ 31 - Z.b2z (busy g') →
     extends g g' → at_reader g' w' → safe_r (k (f q)) Q w') →
  safe_r (let! v := once (load_of l) in k v) Q w.
Proof.
  intros Hw Hf Hk. eapply reader_read; [exact Hw|]. intros d g' ep Hep Hinv He. exists (f (recv_queue ep)).
  split; [by rewrite Hf; unfold queue_of; rewrite Hep|]. intros Hat.
  apply (Hk _ g'); [apply Hinv|apply Hinv|apply Hinv|exact He|exact Hat].
Qed.
Lemma reader_limit {B} (k : Z → prog database B) Q g w :
  at_reader g w → (∀ g' w', extends g g' → at_reader g' w' → safe_r (k (Z.of_nat n)) Q w') →
  safe_r (let! v := load (send_buffers_at e) in k v) Q w.
Proof.
  intros Hw Hk. eapply (reader_read (send_buffers_at e)); [exact Hw|]. intros d g' ep Hep Hinv He.
  exists (Z.of_nat n). split; [cbn; rewrite Hep; cbn; by rewrite (si_buffers _ _ _ _ _ Hinv)|]. by apply Hk.
Qed.
(** The index of the buffer of an entry. *)
Lemma reader_slot {B} j (k : Z → prog database B) Q g w :
  at_reader g w → (j < n)%nat →
  (∀ g' w', extends g g' → at_reader g' w' → (∀ b, linked g' j = Some b → (b < MCAPI_MAX_BUFFERS)%nat) →
     (∀ k' m, written g' !! k' = Some (Some m) → is_Some (linked g' (entry_of n k'))) →
     (∀ i, (started g' <= i < n)%nat → linked g' i = None) →
     (∀ k', written g' !! k' = Some None → current n g' k' → linked g' (entry_of n k') = None) →
     safe_r (k (link (linked g' j))) Q w') →
  safe_r (let! v := mrapi_atomic_read (buff_index_at e (Z.of_nat j)) in k v) Q w.
Proof.
  intros Hw Hj Hk. eapply (reader_read (buff_index_at e (Z.of_nat j))); [exact Hw|]. intros d g' ep Hep Hinv He.
  exists (link (linked g' j)). split.
  - cbn. rewrite (element_at e j ep d Hep). by apply (si_slot _ _ _ _ _ Hinv).
  - intros Hat. apply (Hk g'); [done|done| |by eapply si_some|by eapply si_unused|by eapply si_none].
    intros b Hb. destruct (si_linked _ _ _ _ _ Hinv j b Hb) as (x & Hx & _).
    rewrite <- (si_pool _ _ _ _ _ Hinv). by eapply lookup_lt_Some.
Qed.
Lemma reader_state {B} j (k : mcapi_buffer_state → prog database B) Q g w :
  at_reader g w → (j < n)%nat → (∀ v g' w', extends g g' → at_reader g' w' → safe_r (k v) Q w') →
  safe_r (let! v := mrapi_atomic_read (state_at e (Z.of_nat j)) in k v) Q w.
Proof.
  intros Hw Hj Hk. eapply (reader_read (state_at e (Z.of_nat j))); [exact Hw|]. intros d g' ep Hep Hinv He.
  destruct (slot_at _ _ _ _ _ j Hinv Hj) as (el & Hel & _). exists (bd_state el).
  split; [cbn; by rewrite (element_at e j ep d Hep), Hel|]. by apply Hk.
Qed.
(** The buffer of an entry: its contents are those of a message as long as the
    message is current. *)
Lemma reader_buffer {A B} (l : location A) (f : buffer_entry → option A) b (k : A → prog database B) Q g w :
  at_reader g w → (∃ j, linked g j = Some b) → (∀ d, peek l d = buffers d !! b ≫= f) →
  (∀ x, f (unparent x) = f x) →
  (∀ x, length (buff x) = MCAPI_MAX_MSG_SIZE → 0 <= size x <= Z.of_nat MCAPI_MAX_MSG_SIZE → is_Some (f x)) →
  (∀ x v g' w', f x = Some v → 0 <= size x <= Z.of_nat MCAPI_MAX_MSG_SIZE → extends g g' → at_reader g' w' →
     (∀ k' m, written g' !! k' = Some (Some m) → current n g' k' → linked g' (entry_of n k') = Some b → carries ty m x) →
     safe_r (k v) Q w') →
  safe_r (let! v := once (load_of l) in k v) Q w.
Proof.
  intros Hw [j Hj] Hf Hun Hdef Hk. eapply reader_read; [exact Hw|]. intros d g' ep Hep Hinv He.
  assert (linked g' j = Some b) as Hj' by (by apply He).
  destruct (si_linked _ _ _ _ _ Hinv j b Hj') as (x & Hx & _). destruct (si_entry _ _ _ _ _ Hinv b x Hx) as [Hlen Hsize].
  destruct (Hdef x Hlen Hsize) as [v Hv]. exists v.
  pose proof (contents_some _ _ _ Hx) as (y & Hy & ->). split; [by rewrite Hf, Hy; cbn; rewrite <- Hun|].
  intros Hat. apply (Hk (unparent y) v g'); [exact Hv|exact Hsize|exact He|exact Hat|].
  intros k' m Hk' Hc Hl. destruct (si_message _ _ _ _ _ Hinv k' m Hk' Hc) as (b' & x' & Hb' & Hx' & Hcar). by simplify_eq.
Qed.
Lemma reader_parent {B} b v (k : prog database B) Q g w :
  at_reader g w → (∃ j, linked g j = Some b) → (∀ w', at_reader g w' → safe_r k Q w') →
  safe_r (store (parent_at b) v;! k) Q w.
Proof.
  intros Hw [j Hj] Hk. change (safe_r (let! _ := once (store_of (parent_at b) v) in k) Q w).
  apply safe_access. intros [d g'] HR. pose proof (at_reader_rely _ _ _ Hw HR) as [Hinv He].
  pose proof Hinv as (ep & Hep & Hi). cbn [fst snd] in *.
  destruct (si_linked _ _ _ _ _ Hi j b) as (x & Hx & _); [by apply He|].
  apply contents_some in Hx as (y & Hy & _).
  assert (reads_only e (d, g') (poke (parent_at b) v d, g')) as Hro by (split_and!; [done|done|apply contents_parent]).
  exists tt, (poke (parent_at b) v d, g'). split; [|split; [exact Hro|apply Hk]].
  - eapply (store_of_done (parent_at b)). cbn. by rewrite Hy.
  - apply (at_reader_rely g (d, g')); [by split|]. by apply reads_only_progress.
Qed.

(** ** Reading a message *)

(** What is known of the message of the buffer, if it is still current. *)
Definition if_current (b : nat) (g g' : history) (P : list Z * Z → Prop) : Prop :=
  ∀ k m, written g !! k = Some (Some m) → linked g (entry_of n k) = Some b → current n g' k → P m.
Lemma if_current_later b g g' g'' P : if_current b g g' P → extends g' g'' → if_current b g g'' P.
Proof. clear. intros H (_ & He & _) k m Hk Hl Hc. apply (H k m Hk Hl). unfold current in *. lia. Qed.
Lemma if_current_and b g g' (P P' P2 : list Z * Z → Prop) :
  if_current b g g' P → if_current b g g' P' → (∀ m, P m → P' m → P2 m) → if_current b g g' P2.
Proof. intros H H' HP k m Hk Hl Hc. by apply HP; [eapply H|eapply H']. Qed.

(** What the reader gets of a message. *)
Definition read_of (buffer_size : Z) (m : list Z * Z) : Z * received :=
  (Z.of_nat (length m.1),
   if decide (ty = MCAPI_SCL_CHAN) then Scalar m.2 else Bytes (take (Z.to_nat buffer_size) m.1)).

Lemma reader_field {A B} (l : location A) (f : buffer_entry → A) b (k : A → prog database B) Q g0 g w :
  extends g0 g → at_reader g w → (∃ j, linked g j = Some b) → (∀ d, peek l d = f <$> buffers d !! b) →
  (∀ x, f (unparent x) = f x) →
  (∀ x g' w', 0 <= size x <= Z.of_nat MCAPI_MAX_MSG_SIZE → extends g g' → at_reader g' w' →
     if_current b g0 g' (λ m, carries ty m x) → safe_r (k (f x)) Q w') →
  safe_r (let! v := once (load_of l) in k v) Q w.
Proof.
  intros He0 Hw Hl Hf Hun Hk. eapply (reader_buffer l (Some ∘ f) b); [exact Hw|exact Hl| | |by eexists|].
  - intros d. rewrite Hf. by destruct (buffers d !! b).
  - intros x. cbn. by rewrite Hun.
  - intros x v g' w' [= <-] Hsize He Hat Hcar. apply (Hk x g'); [done|done|done|].
    intros k' m Hk' Hl' Hc. destruct He0 as (Hp & _ & Hlk), He as (Hp' & _ & Hlk').
    apply (Hcar k'); [|done|by apply Hlk', Hlk]. do 2 (eapply prefix_lookup_Some; [|done]). done.
Qed.

Lemma reader_copies {B} b c j l (k : list Z → prog database B) Q g0 g w :
  extends g0 g → at_reader g w → (∃ i, linked g i = Some b) → (j + c <= MCAPI_MAX_MSG_SIZE)%nat → ty ≠ MCAPI_SCL_CHAN →
  (∀ bs g' w', length bs = c → extends g g' → at_reader g' w' →
     if_current b g0 g' (λ m, ∀ i v, bs !! i = Some v → (j + i < length m.1)%nat → m.1 !! (j + i)%nat = Some v) →
     safe_r (k (l ++ bs)) Q w') →
  safe_r (let! r := copy_out b j c l in k r) Q w.
Proof.
  revert j l g w. induction c as [|c IH]; intros j l g w He0 Hw Hl Hc Hty Hk.
  - cbn. rewrite <- (app_nil_r l). apply (Hk [] g); [done|done|done|]. by intros ? ? _ _ _ ? ? [=].
  - cbn [copy_out]. eapply (reader_buffer (byte_at b j) (λ x, buff x !! j) b); [exact Hw|exact Hl|done|done| |].
    { intros x Hx _. apply lookup_lt_is_Some_2. lia. }
    intros x v g1 w1 Hv _ He1 H1 Hcar. apply (IH (S j) (l ++ [v]) g1); [by etrans|done| |lia|done|].
    { destruct Hl as [i Hi]. exists i. by apply He1. }
    intros bs g2 w2 Hlen He2 H2 Hbs. rewrite <- app_assoc. cbn. apply (Hk (v :: bs) g2); [by cbn; rewrite Hlen|by etrans|done|].
    intros k' m Hk' Hl' Hc' [|i] u Hi Hlt; cbn in Hi.
    + simplify_eq. rewrite Nat.add_0_r in *.
      assert (carries ty m x) as [_ Hbytes].
      { apply (Hcar k').
        - destruct He0 as (Hp & _), He1 as (Hp1 & _). do 2 (eapply prefix_lookup_Some; [|done]). done.
        - destruct He2 as (_ & Hst & _). unfold current in *. lia.
        - destruct He0 as (_ & _ & Hp), He1 as (_ & _ & Hp1). by apply Hp1, Hp. }
      rewrite decide_False in Hbytes by done. rewrite <- Hbytes, lookup_take_lt by done. done.
    + replace (j + S i)%nat with (S j + i)%nat in * by lia. by apply (Hbs k' m Hk' Hl' Hc').
Qed.

Lemma reader_takes {B} b c (k : received → prog database B) Q g0 g w :
  extends g0 g → at_reader g w → (∃ i, linked g i = Some b) → (Z.to_nat c <= MCAPI_MAX_MSG_SIZE)%nat →
  (∀ r g' w', extends g g' → at_reader g' w' →
     if_current b g0 g' (λ m, c <= Z.of_nat (length m.1) →
       r = if decide (ty = MCAPI_SCL_CHAN) then Scalar m.2 else Bytes (take (Z.to_nat c) m.1)) →
     safe_r (k r) Q w') →
  safe_r (let! r := take_data e b c in k r) Q w.
Proof.
  intros He0 Hw Hl Hc Hk. unfold take_data.
  eapply (reader_queue (channel_at e) channel); [exact Hw|done|]. intros q g1 w1 _ Hch _ He1 H1.
  assert (∃ i, linked g1 i = Some b) as Hl1 by (destruct Hl as [i Hi]; exists i; by apply He1).
  rewrite Hch. destruct (decide (ty = MCAPI_SCL_CHAN)) as [Hs|Hs].
  - eapply (reader_field (scalar_at b) scalar b _ _ g0 g1); [by etrans|exact H1|exact Hl1|done|done|].
    intros x g2 w2 _ He2 H2 Hcar. apply (Hk _ g2); [by etrans|done|].
    intros k' m Hk' Hl' Hc' _. destruct (Hcar k' m Hk' Hl' Hc') as [_ Hsc]. rewrite decide_True in Hsc by done. by rewrite Hsc.
  - cbn [then_do].
    change (safe_r (let! l := (let! l := copy_out b 0 (Z.to_nat c) [] in Return (Bytes l)) in k l) Q w1).
    apply safe_then; [apply _|]. eapply (reader_copies b _ 0 [] _ _ g0 g1); [by etrans|exact H1|exact Hl1|lia|done|].
    intros bs g2 w2 Hlen He2 H2 Hbs. eapply reader_return; [exact H2|]. intros w3 H3. cbn [app].
    apply (Hk _ g2); [by etrans|done|]. intros k' m Hk' Hl' Hc' Hle. f_equal. apply list_eq_same_length with (n := Z.to_nat c).
    + rewrite length_take. lia.
    + done.
    + intros i u v Hi Hu Hv. rewrite lookup_take_lt in Hv by lia.
      pose proof (Hbs k' m Hk' Hl' Hc' i u Hu ltac:(lia)) as Hm. cbn in Hm. congruence.
Qed.

(** Reading entry [j], whose buffer is [b]. *)
Lemma reader_reads {B} j b buffer_size (k : Z * received → prog database B) Q g w :
  at_reader g w → (j < n)%nat → linked g j = Some b → (b < MCAPI_MAX_BUFFERS)%nat →
  (∀ r g' w', extends g g' → at_reader g' w' → if_current b g g' (λ m, r = read_of buffer_size m) → safe_r (k r) Q w') →
  safe_r (let! r := mcapi_trans_recv_state_ e buffer_size (Z.of_nat j) in k r) Q w.
Proof.
  intros Hw Hj Hl Hb Hk. apply safe_then; [apply _|]. unfold mcapi_trans_recv_state_.
  eapply reader_slot; [exact Hw|exact Hj|]. intros g1 w1 He1 H1 _ _ _ _.
  assert (linked g1 j = Some b) as Hl1 by (by apply He1). rewrite Hl1. cbn [link].
  destruct (buff_index_ok b Hb) as [_ ->].
  eapply reader_parent; [exact H1|by exists j|]. intros w2 H2.
  eapply (reader_field (size_at b) size b _ _ g g1); [done|exact H2|by exists j|done|done|].
  intros x g3 w3 Hsize He3 H3 Hc3.
  assert (linked g3 j = Some b) as Hl3 by (by apply He3).
  eapply (reader_queue (channel_at e) channel); [exact H3|done|]. intros q g4 w4 _ Hch _ He4 H4. rewrite Hch.
  rewrite decide_False by done.
  assert (linked g4 j = Some b) as Hl4 by (by apply He4).
  assert (extends g g4) as Heg by extends_tac.
  eapply (reader_takes b _ _ _ g g4); [exact Heg|exact H4|by exists j|lia|]. intros r g5 w5 He5 H5 Hr.
  eapply reader_return; [exact H5|]. intros w6 H6. apply (Hk _ g5); [by etrans|done|].
  apply (if_current_later b g g3 g5) in Hc3; [|by etrans].
  eapply if_current_and; [exact Hc3|exact Hr|]. cbn beta. intros m [Hm _] Hrm. unfold read_of. rewrite Hm in *.
  rewrite Hrm by lia. f_equal. destruct (decide _); [done|]. f_equal.
  destruct (decide (buffer_size <= Z.of_nat (length m.1))); [by rewrite Z.min_l|].
  rewrite Z.min_r by lia. by rewrite !take_ge by lia.
Qed.

(** The outcome of a read that took the writes up to the [m]-th as done. *)
Definition read_ok (ms : list (option (list Z * Z))) (m : nat) (buffer_size : Z) (r : option (Z * received)) : Prop :=
  match r with
  | None => m = 0%nat ∨ ms !! pred m = Some None
  | Some got => ∃ msg, (0 < m)%nat ∧ ms !! pred m = Some (Some msg) ∧ got = read_of buffer_size msg
  end.

Lemma last_entry m : Z.of_nat m < 2 ^ 31 →
  remainder (u32 (Z.of_nat m - 1)) (Z.of_nat n) = Return (Z.of_nat (match m with O => pred n | S k => entry_of n k end)).
Proof.
  intros Hm. unfold remainder. rewrite (proj2 (Z.eqb_neq _ _)) by lia. f_equal. destruct m as [|m].
  - destruct Hdiv as [c Hc]. change (u32 (Z.of_nat 0 - 1)) with (2 ^ 32 - 1). rewrite Hc.
    symmetry. apply (Z.mod_unique_pos _ _ (c - 1)); lia.
  - rewrite u32_small by lia. unfold entry_of. rewrite Nat2Z.inj_mod. f_equal. lia.
Qed.

(** A read that is confirmed. *)
Lemma read_confirmed b g1 g4 g5 g6 g7 g8 m buffer_size r :
  extends g1 g4 → extends g4 g5 → extends g5 g6 → extends g6 g7 → extends g7 g8 →
  length (written g1) = m → linked g4 (match m with O => pred n | S k => entry_of n k end) = Some b →
  (∀ i, (started g4 <= i < n)%nat → linked g4 i = None) →
  (∀ k, written g4 !! k = Some None → current n g4 k → linked g4 (entry_of n k) = None) →
  if_current b g5 g6 (λ msg, r = read_of buffer_size msg) →
  2 * Z.of_nat (started g7) <= 2 * Z.of_nat m + 2 * Z.of_nat n - 1 →
  read_ok (written g8) m buffer_size (Some r).
Proof.
  intros He14 He45 He56 He67 He78 Hm Hl Hunused Hnone Hr Hstart.
  pose proof (proj1 (proj2 He45)). pose proof (proj1 (proj2 He56)). pose proof (proj1 (proj2 He67)).
  destruct m as [|k].
  - rewrite Hunused in Hl; [done|]. lia.
  - destruct (lookup_lt_is_Some_2 (written g1) k) as [o Ho]; [lia|].
    assert (written g4 !! k = Some o) as Ho4 by (eapply prefix_lookup_Some; [exact Ho|apply He14]).
    assert (written g5 !! k = Some o) as Ho5 by (eapply prefix_lookup_Some; [exact Ho4|apply He45]).
    destruct o as [msg|].
    + exists msg. split; [lia|]. split.
      * eapply prefix_lookup_Some; [exact Ho5|]. by etrans; [apply He56|etrans; [apply He67|apply He78]].
      * apply (Hr k msg Ho5); [by apply He45|]. unfold current. lia.
    + rewrite Hnone in Hl; [done|exact Ho4|]. unfold current. lia.
Qed.

Lemma reader_receives fuel buffer_size g w :
  at_reader g w →
  safe_r (mcapi_trans_recv_state fuel e buffer_size) (λ r w', ∃ g' m, at_reader g' w' ∧ extends g g' ∧
    (length (written g) <= m <= length (written g'))%nat ∧ read_ok (written g') m buffer_size r) w.
Proof.
  revert g w. induction fuel as [|fuel IH]; intros g w Hw; [done|]. cbn [mcapi_trans_recv_state].
  eapply (reader_queue (update_counter_at e) update_counter); [exact Hw|done|].
  intros q g1 w1 Huc _ Hbound He1 H1. rewrite Huc.
  set (m := length (written g1)) in *.
  replace ((2 * Z.of_nat m + Z.b2z (busy g1)) / 2) with (Z.of_nat m)
    by (apply (Z.div_unique_pos _ 2 _ (Z.b2z (busy g1))); destruct (busy g1); cbn; lia).
  assert (length (written g) <= m)%nat as Hle by (by apply prefix_length, He1).
  eapply reader_limit; [exact H1|]. intros g2 w2 He2 H2. rewrite last_entry by (destruct (busy g1); cbn in Hbound; lia).
  cbn [then_do]. set (j := match m with O => pred n | S k => entry_of n k end).
  assert (j < n)%nat as Hj by (unfold j; destruct m; [lia|by apply entry_lt]).
  eapply reader_state; [exact H2|exact Hj|]. intros st g3 w3 He3 H3.
  eapply reader_slot; [exact H3|exact Hj|]. intros g4 w4 He4 H4 Hmax Hsome Hunused Hnone.
  assert (extends g1 g4) as He14 by extends_tac.
  destruct (linked g4 j) as [b|] eqn:Hl; cbn [link].
  - specialize (Hmax b eq_refl). destruct (buff_index_ok b Hmax) as [Hnz _]. rewrite (proj2 (Z.eqb_neq _ _)) by done.
    eapply (reader_queue (channel_at e) channel); [exact H4|done|]. intros q5 g5 w5 _ Hch _ He5 H5. rewrite Hch.
    rewrite decide_False by done. cbn [then_do].
    eapply reader_reads; [exact H5|exact Hj|by apply He5|exact Hmax|]. intros r g6 w6 He6 H6 Hr.
    eapply (reader_queue (update_counter_at e) update_counter); [exact H6|done|].
    intros q7 g7 w7 Huc7 _ Hbound7 He7 H7. rewrite Huc7.
    eapply reader_limit; [exact H7|]. intros g8 w8 He8 H8.
    destruct (Z.leb_spec (u32 (2 * Z.of_nat (length (written g7)) + Z.b2z (busy g7) - Z.of_nat m * 2))
                (u32 (2 * Z.of_nat n - 2))) as [Hval|Hval].
    + eapply reader_return; [exact H8|]. intros w9 H9. exists g8, m. split; [done|].
      assert (extends g1 g7) as He17 by extends_tac. assert (extends g1 g8) as He18 by extends_tac.
      split; [by etrans|]. split; [split; [done|by apply prefix_length, He18]|].
      assert (2 * Z.of_nat (started g7) <= 2 * Z.of_nat m + 2 * Z.of_nat n - 1) as Hstart.
      { pose proof (prefix_length _ _ (proj1 He17)) as Hlen. unfold started. unfold entries in Hn. fold m in Hlen.
        change (S (Z.to_nat MCAPI_MAX_QUEUE_ENTRIES)) with 66%nat in Hn.
        destruct (busy g7); cbn [Z.b2z Nat.b2n] in *; rewrite !u32_small in Hval by lia; lia. }
      apply (read_confirmed b g1 g4 g5 g6 g7 g8 m buffer_size r); try done; extends_tac.
    + eapply safe_mono; [apply (IH g8 w8 H8)|]. cbn beta. intros r' w9 (g9 & m' & H9 & He9 & Hm' & Hok).
      assert (extends g g8) as Heg by extends_tac.
      exists g9, m'. split; [done|]. split; [by etrans|]. split; [|done].
      assert (length (written g) <= length (written g8))%nat by (by apply prefix_length, Heg). lia.
  - rewrite Z.eqb_refl. eapply reader_return; [exact H4|]. intros w5 H5. exists g4, m.
    split; [done|]. split; [by etrans|]. split; [split; [done|by apply prefix_length, He14]|]. unfold read_ok, j in *.
    destruct m as [|k] eqn:Hm; [by left|right]. cbn [pred].
    destruct (lookup_lt_is_Some_2 (written g1) k) as [o Ho]; [lia|].
    assert (written g4 !! k = Some o) as Ho4 by (eapply prefix_lookup_Some; [exact Ho|apply He14]).
    destruct o as [msg|]; [|done]. destruct (Hsome k msg Ho4) as [b Hb]. congruence.
Qed.
End readers.
