(* ===== verification/LockfreeStateTheorems.v ===== *)
(** State messages under every schedule: one writer and any number of readers. *)

From Stdlib Require Import Sorting.Sorted.
From S2P Require Import Prelude LockfreeProg LockfreeQueue LockfreeFifo LockfreeSender LockfreeState LockfreeReader LockfreeTheorems.

(** ** Threads *)

Fixpoint write_all (e : endpoint_index) (msgs : list (list Z * Z)) : prog database (list bool) :=
  match msgs with
  | [] => Return []
  | m :: msgs =>
      let! ok := mcapi_trans_send_state e m.1 m.2 in
      let! oks := write_all e msgs in Return (ok :: oks)
  end.
Fixpoint read_all (fuel : nat) (e : endpoint_index) (sizes : list Z) : prog database (list (option (Z * received))) :=
  match sizes with
  | [] => Return []
  | s :: sizes =>
      let! r := mcapi_trans_recv_state fuel e s in
      let! rs := read_all fuel e sizes in Return (r :: rs)
  end.
(** Thread 0 writes, the others read. *)
Definition state_threads (fuel : nat) (e : endpoint_index) (msgs : list (list Z * Z)) (readers : list (list Z)) :
    list (prog database results) :=
  (let! oks := write_all e msgs in Return (inl oks)) ::
  ((λ sizes, let! rs := read_all fuel e sizes in Return (inr rs)) <$> readers).
Definition outcomes (msgs : list (list Z * Z)) (oks : list bool) : list (option (list Z * Z)) :=
  zip_with (λ m (ok : bool), if ok then Some m else None) msgs oks.

(** An endpoint as it is created, with [n] buffers for state messages. *)
Definition state_endpoint (e : endpoint_index) (ty : channel_type) (n : nat) : database :=
  mk_database {[e := mk_endpoint (zero_queue ty) (Z.of_nat n)]} (replicate MCAPI_MAX_BUFFERS zero_buffer).
Definition nothing_written : history := mk_history [] false (λ _, None).

Section state_theorems.
Context (e : endpoint_index) (ty : channel_type) (n : nat).
Context (Hpkt : ty ≠ MCAPI_PKT_CHAN) (Hn : (0 < n <= S entries)%nat) (Hdiv : (Z.of_nat n | 2 ^ 32)).

Lemma sinv_initial :
  sinv ty n (mk_endpoint (zero_queue ty) (Z.of_nat n)) (contents (state_endpoint e ty n)) nothing_written.
Proof.
  split; try done.
  - intros i x Hx. unfold contents in Hx. rewrite list_lookup_fmap in Hx. cbn [state_endpoint buffers] in Hx.
    apply fmap_Some in Hx as (y & [-> _]%lookup_replicate & ->). done.
  - intros j Hj. cbn [recv_queue zero_queue elements]. rewrite lookup_replicate_2 by (unfold entries in Hn; lia). done.
Qed.
Lemma at_writer_initial :
  at_writer e ty n (mk_endpoint (zero_queue ty) (Z.of_nat n)) (contents (state_endpoint e ty n)) nothing_written
    (state_endpoint e ty n, nothing_written).
Proof. split; [apply sinv_initial|done|apply lookup_singleton_eq|done]. Qed.
Lemma at_reader_initial : at_reader e ty n nothing_written (state_endpoint e ty n, nothing_written).
Proof.
  split; [|done]. eexists. split; [apply lookup_singleton_eq|]. apply sinv_initial.
Qed.

(** ** Each thread *)

Lemma safe_write_all msgs ms w :
  idle_writer e ty n ms w → Forall (λ m, length m.1 <= MCAPI_MAX_MSG_SIZE)%nat msgs →
  Z.of_nat (length ms + length msgs) < 2 ^ 31 →
  safe True sreal (reads_only e) (progress e ty n) (write_all e msgs)
    (λ oks w', idle_writer e ty n (ms ++ outcomes msgs oks) w') w.
Proof.
  assert (∀ (oks : list bool) (Q : list bool → sworld → Prop) ms' w', idle_writer e ty n ms' w' →
    (∀ w2, idle_writer e ty n ms' w2 → Q oks w2) → safe True sreal (reads_only e) (progress e ty n) (Return oks) Q w') as Hret.
  { intros oks Q ms' w' (ep & cs & g & Hw & Hb & Hm) HQ. eapply writer_return; [exact Hw|]. intros w2 H2. apply HQ. by exists ep, cs, g. }
  revert ms w. induction msgs as [|m msgs IH]; intros ms w Hw Hf Hlen; cbn [write_all].
  { eapply Hret; [exact Hw|]. intros w2 H2. by rewrite app_nil_r. }
  apply Forall_cons in Hf as [Hm Hf]. cbn [length] in Hlen. apply safe_then; [apply _|].
  eapply safe_mono; [apply (writer_writes e ty n Hpkt Hn ms w m Hw Hm); lia|]. cbn beta. intros ok w1 H1.
  apply safe_then; [apply _|]. eapply safe_mono; [apply (IH _ _ H1 Hf); rewrite length_app; cbn; lia|]. cbn beta. intros oks w2 H2.
  eapply Hret; [exact H2|]. intros w3 H3. rewrite <- app_assoc in H3. exact H3.
Qed.
Lemma read_ok_prefix ms ms' m size r : read_ok ty ms m size r → ms `prefix_of` ms' → read_ok ty ms' m size r.
Proof.
  intros Hr Hp. destruct r as [got|]; cbn in *.
  - destruct Hr as (msg & Hm & Hl & Hgot). exists msg. split_and!; [done| |done]. by eapply prefix_lookup_Some.
  - destruct Hr as [?|Hl]; [by left|right]. by eapply prefix_lookup_Some.
Qed.
Lemma safe_read_all fuel sizes g w :
  at_reader e ty n g w →
  safe True sreal (progress e ty n) (reads_only e) (read_all fuel e sizes)
    (λ rs w', ∃ ks g', at_reader e ty n g' w' ∧ extends g g' ∧ StronglySorted le ks ∧
       Forall (λ k, length (written g) <= k)%nat ks ∧
       Forall2 (λ k sr, read_ok ty (written g') k sr.1 sr.2) ks (zip sizes rs)) w.
Proof.
  revert g w. induction sizes as [|s sizes IH]; intros g w Hw; cbn [read_all].
  { eapply reader_return; [exact Hw|]. intros w2 H2. exists [], g. split_and!; [done|done|constructor..]. }
  apply safe_then; [apply _|]. eapply safe_mono; [by apply reader_receives|]. cbn beta.
  intros r w1 (g1 & m & H1 & He1 & Hm & Hr). apply safe_then; [apply _|].
  eapply safe_mono; [apply (IH _ _ H1)|]. cbn beta. intros rs w2 (ks & g2 & H2 & He2 & Hs & Hge & Hrs).
  eapply reader_return; [exact H2|]. intros w3 H3. exists (m :: ks), g2. split_and!; [done|by etrans| | |].
  - constructor; [done|]. eapply Forall_impl; [exact Hge|]. cbn. lia.
  - constructor; [lia|]. eapply Forall_impl; [exact Hge|]. cbn. lia.
  - constructor; [|done]. eapply read_ok_prefix; [exact Hr|apply He2].
Qed.

(** ** All threads *)

Definition state_rely (i : nat) : relation sworld :=
  match i with O => reads_only e | S _ => progress e ty n end.
Definition state_guarantee (i : nat) : relation sworld :=
  match i with O => progress e ty n | S _ => reads_only e end.
#[global] Instance state_rely_preorder i : PreOrder (state_rely i).
Proof. destruct i; apply _. Qed.
Lemma state_compatible i j w w' : i ≠ j → state_guarantee i w w' → state_rely j w w'.
Proof. destruct i, j; try done; intros _. by apply reads_only_progress. Qed.

Definition state_outcome (msgs : list (list Z * Z)) (readers : list (list Z)) (i : nat) (r : results) (w : sworld) : Prop :=
  match i, r with
  | O, inl oks => written w.2 = outcomes msgs oks
  | S i, inr rs => ∀ sizes, readers !! i = Some sizes → ∃ ks g', g' `prefix_of` written w.2 ∧ StronglySorted le ks ∧
      Forall2 (λ k sr, read_ok ty g' k sr.1 sr.2) ks (zip sizes rs)
  | _, _ => False
  end.
Lemma state_threads_safe fuel msgs readers :
  Forall (λ m, length m.1 <= MCAPI_MAX_MSG_SIZE)%nat msgs → Z.of_nat (length msgs) < 2 ^ 31 →
  all_safe sreal state_rely state_guarantee (state_outcome msgs readers) (state_threads fuel e msgs readers)
    (state_endpoint e ty n, nothing_written).
Proof.
  intros Hf Hlen i p. unfold state_threads. destruct i as [|i]; cbn [lookup list_lookup].
  - intros [= <-]. cbn [state_rely state_guarantee]. apply safe_then; [apply _|].
    eapply safe_mono; [apply (safe_write_all msgs []); [|exact Hf|exact Hlen]|].
    { eexists _, _, nothing_written. split; [apply at_writer_initial|done]. }
    cbn beta. intros oks w1 (ep & cs & g & Hw & _ & Hg). eapply writer_return; [exact Hw|]. intros w2 H2.
    cbn. by rewrite (aw_history _ _ _ _ _ _ _ H2).
  - intros (sizes & -> & Hi)%list_lookup_fmap_Some. cbn [state_rely state_guarantee]. apply safe_then; [apply _|].
    eapply safe_mono; [apply (safe_read_all fuel sizes), at_reader_initial|]. cbn beta.
    intros rs w1 (ks & g' & H1 & _ & Hs & _ & Hrs). eapply reader_return; [exact H1|]. intros w2 H2 sizes' Hi'.
    simplify_eq. exists ks, (written g'). split; [apply H2|done].
Qed.
End state_theorems.

(** C11: One thread writes state messages and any number of threads read them, on an
    endpoint whose number of buffers is at most 66 and divides 2^32 and that is not a
    packet channel, up to 2^31 messages:
    no schedule makes an assertion fail or an access go out of bounds; and what each
    reader gets is, one after the other, whole messages that were written, never an
    older one after a newer one, or nothing, when none was written yet or the last
    write found no buffer. *)
Theorem state_messages e ty n msgs readers fuel schedule
    (Hpkt : ty ≠ MCAPI_PKT_CHAN) (Hn : (0 < n <= S entries)%nat) (Hdiv : (Z.of_nat n | 2 ^ 32))
    (Hsizes : Forall (λ m, length m.1 <= MCAPI_MAX_MSG_SIZE)%nat msgs) (Hlen : Z.of_nat (length msgs) < 2 ^ 31) :
  ∃ ts d, run schedule (state_threads fuel e msgs readers) (state_endpoint e ty n) = Done (ts, d) ∧
    ∀ oks i sizes rs, ts !! 0%nat = Some (Return (inl oks)) → ts !! S i = Some (Return (inr rs)) → readers !! i = Some sizes →
      ∃ ks, StronglySorted le ks ∧
        Forall2 (λ k sr, read_ok ty (outcomes msgs oks) k sr.1 sr.2) ks (zip sizes rs).
Proof.
  destruct (run_safe sreal (state_rely e ty n) (state_guarantee e ty n) (state_outcome ty msgs readers)
    (state_compatible e ty n) schedule _ _ (state_threads_safe e ty n Hpkt Hn Hdiv fuel msgs readers Hsizes Hlen))
    as (ts & w & Hrun & Hall).
  exists ts, (sreal w). split; [exact Hrun|]. intros oks i sizes rs H0 Hi Hsz.
  pose proof (Hall 0%nat _ H0 w (reflexivity w)) as Hout. cbn in Hout.
  destruct (Hall (S i) _ Hi w (λ H, conj H (reflexivity _)) sizes Hsz) as (ks & g' & Hp & Hs & Hrs).
  exists ks. split; [done|]. eapply Forall2_impl; [exact Hrs|]. cbn. intros k sr Hk.
  rewrite <- Hout. by eapply read_ok_prefix.
Qed.

(** The retries of a read: an attempt makes at least one access. *)
Lemma lasts_recv_state fuel e size : lasts fuel (mcapi_trans_recv_state fuel e size).
Proof.
  induction fuel as [|fuel IH]; [done|]. cbn [mcapi_trans_recv_state]. unfold mrapi_atomic_read at 1.
  cbn [then_do once]. intros counter. unfold mcapi_trans_recv_state_, take_data, remainder.
  lasts_tac; auto using lasts_copy_out.
Qed.
