(* ===== verification/LockfreeUse.v ===== *)
(** Concrete runs of the lock-free transport: the theorems applied to them, and what
    happens when an endpoint has two senders, when the counters wrap around, and with
    other numbers of buffers for state messages. *)

From Stdlib Require Import Sorting.Sorted.
From S2P Require Import Prelude LockfreeProg LockfreeQueue LockfreeFifo LockfreeTheorems LockfreeReader LockfreeStateTheorems.

Definition e0 : endpoint_index := (0, 0, 0)%nat.
Definition one_endpoint (ty : channel_type) : gmap endpoint_index channel_type := {[e0 := ty]}.
Definition finished {S A} (ts : list (prog S A)) : list (option A) :=
  (λ p, match p with Return r => Some r | _ => None end) <$> ts.
Definition finished_run {S A} (r : result (list (prog S A) * S)) : option (list (option A)) :=
  match r with Done (ts, _) => Some (finished ts) | Fault _ => None end.

(** Two messages; the receiver first finds nothing, gets the first message cut to its
    buffer with the second one being inserted, and then the other. *)
Definition two_messages : list (endpoint_index * work) :=
  [(e0, Sends [([1; 2; 3], 0); ([4], 0)]); (e0, Receives [2; 2; 2] false)].
Definition in_turn : list nat :=
  replicate 2 1%nat ++ replicate 30 0%nat ++ replicate 10 1%nat ++ replicate 60 0%nat ++ replicate 40 1%nat.
Definition two_messages_results : list (option results) :=
  [Some (inl [true; true]); Some (inr [None; Some (3, Bytes [1; 2]); Some (1, Bytes [4])])].

Lemma two_messages_run :
  finished_run (run in_turn (thread 200 <$> two_messages) (fresh (one_endpoint MCAPI_NO_CHAN))) = Some two_messages_results.
Proof. vm_compute. reflexivity. Qed.

Lemma two_messages_fit :
  Forall (λ t, t.1 ∈ dom (one_endpoint MCAPI_NO_CHAN) ∧ fits t.2) two_messages.
Proof.
  unfold two_messages, MCAPI_MAX_MSG_SIZE, one_endpoint.
  repeat constructor; cbn; try lia; rewrite dom_singleton; by apply elem_of_singleton.
Qed.
Lemma two_messages_ids : NoDup (thread_id_of <$> two_messages).
Proof.
  cbn. apply NoDup_cons. split; [|apply NoDup_singleton].
  intros H%list_elem_of_singleton. discriminate H.
Qed.

Lemma lockfree_fifo_witness : ∃ ts d,
  run in_turn (thread 200 <$> two_messages) (fresh (one_endpoint MCAPI_NO_CHAN)) = Done (ts, d) ∧
  finished ts = two_messages_results ∧
  Forall2 (receives MCAPI_NO_CHAN d) [(2, (3, Bytes [1; 2])); (2, (1, Bytes [4]))] [([1; 2; 3], 0); ([4], 0)].
Proof.
  destruct (lockfree_fifo (one_endpoint MCAPI_NO_CHAN) two_messages 200 in_turn two_messages_fit two_messages_ids)
    as (ts & d & Hrun & Hfifo).
  exists ts, d. split; [exact Hrun|]. pose proof two_messages_run as Hfin. rewrite Hrun in Hfin. cbn [finished_run] in Hfin.
  apply (inj Some) in Hfin. split; [exact Hfin|].
  assert (ts !! 0%nat = Some (Return (inl [true; true])) ∧
    ts !! 1%nat = Some (Return (inr [None; Some (3, Bytes [1; 2]); Some (1, Bytes [4])]))) as [H0 H1].
  { clear -Hfin. destruct ts as [|[] [|[] [|]]]; cbn in Hfin; try discriminate Hfin. injection Hfin as -> ->. done. }
  apply (Hfifo 0%nat 1%nat e0 MCAPI_NO_CHAN [([1; 2; 3], 0); ([4], 0)] [2; 2; 2] false _ _ eq_refl eq_refl
    (lookup_singleton_eq e0 _) H0 H1).
Defined.
Lemma enough_iterations_witness :
  match run in_turn (thread 200 <$> two_messages) (fresh (one_endpoint MCAPI_NO_CHAN)) with
  | Done (ts, _) => Forall (λ p, p ≠ Raise OutOfFuel) ts
  | Fault _ => False
  end.
Proof.
  destruct (run in_turn (thread 200 <$> two_messages) (fresh (one_endpoint MCAPI_NO_CHAN))) as [[ts d]|f] eqn:Hrun.
  - apply (enough_iterations (one_endpoint MCAPI_NO_CHAN) two_messages 200 in_turn ts d); [|exact Hrun].
    apply Nat.ltb_lt. reflexivity.
  - pose proof two_messages_run as Hfin. by rewrite Hrun in Hfin.
Defined.

(** A fresh endpoint has nothing queued. *)
Lemma fresh_queued types e ty : types !! e = Some ty → queued types e 0 [] (fresh types).
Proof. intros He. exists idle_ghost, [], 0%nat, ty. by split_and!; [apply inv_fresh|..]. Qed.
Lemma send_alone_witness : ∃ ok d',
  alone (mcapi_trans_send 1 e0 [7; 8] 0) (fresh (one_endpoint MCAPI_NO_CHAN)) = Done (ok, d') ∧
  ok = true ∧ queued (one_endpoint MCAPI_NO_CHAN) e0 1 [([7; 8], 0)] d'.
Proof.
  destruct (send_alone (one_endpoint MCAPI_NO_CHAN) e0 0 [] (fresh (one_endpoint MCAPI_NO_CHAN)) 1 ([7; 8], 0)
    (fresh_queued _ e0 MCAPI_NO_CHAN (lookup_singleton_eq e0 _)) ltac:(unfold MCAPI_MAX_MSG_SIZE; cbn; lia)
    ltac:(reflexivity) ltac:(lia)) as (ok & d' & Hrun & Hd).
  assert (match alone (mcapi_trans_send 1 e0 [7; 8] 0) (fresh (one_endpoint MCAPI_NO_CHAN)) with
    Done (ok, _) => ok | Fault _ => false end = true) as Hok by (vm_compute; reflexivity).
  cbn [fst snd] in Hrun. rewrite Hrun in Hok. subst ok. by exists true, d'.
Defined.
(** An empty queue, with a receive that does not block and one that does, and a queue
    with one message of two bytes, whose first byte is received. *)
Lemma one_message_queued d :
  alone (mcapi_trans_send 1 e0 [7; 8] 0) (fresh (one_endpoint MCAPI_NO_CHAN)) = Done (true, d) →
  queued (one_endpoint MCAPI_NO_CHAN) e0 1 [([7; 8], 0)] d.
Proof.
  intros Hrun. pose proof (lookup_singleton_eq e0 MCAPI_NO_CHAN) as Hty.
  destruct (sender_alone (one_endpoint MCAPI_NO_CHAN) e0 MCAPI_NO_CHAN (fresh (one_endpoint MCAPI_NO_CHAN)) idle_ghost
    [] 0 1 ([7; 8], 0) Hty (inv_fresh _) eq_refl ltac:(unfold MCAPI_MAX_MSG_SIZE; cbn; lia) ltac:(reflexivity) ltac:(lia))
    as (ok & d' & g' & Hrun' & Hinv & Hpost).
  cbn [fst snd] in Hrun'. rewrite Hrun in Hrun'. injection Hrun' as <- <-. destruct Hpost as (b & x & Hc & Ht).
  apply (queued_send _ e0 MCAPI_NO_CHAN [] 0 [] d g' b x ([7; 8], 0)); [done..|cbn; lia|constructor|done].
Qed.
Lemma receive_alone_witness :
  (∃ d', alone (mcapi_trans_recv 1 e0 10 false) (fresh (one_endpoint MCAPI_NO_CHAN)) = Done (None, d')) ∧
  alone (mcapi_trans_recv 1000 e0 10 true) (fresh (one_endpoint MCAPI_NO_CHAN)) = Fault OutOfFuel ∧
  ∃ d d', alone (mcapi_trans_send 1 e0 [7; 8] 0) (fresh (one_endpoint MCAPI_NO_CHAN)) = Done (true, d) ∧
    alone (mcapi_trans_recv 1 e0 1 true) d = Done (Some (2, Bytes [7]), d').
Proof.
  split; [|split].
  - destruct (receive_alone (one_endpoint MCAPI_NO_CHAN) e0 MCAPI_NO_CHAN 0 [] (fresh (one_endpoint MCAPI_NO_CHAN)) 1 10 false
      (lookup_singleton_eq e0 _) (fresh_queued _ e0 MCAPI_NO_CHAN (lookup_singleton_eq e0 _)) ltac:(lia)) as (d' & Hrun & _).
    by exists d'.
  - exact (receive_alone (one_endpoint MCAPI_NO_CHAN) e0 MCAPI_NO_CHAN 0 [] (fresh (one_endpoint MCAPI_NO_CHAN)) 1000 10 true
      (lookup_singleton_eq e0 _) (fresh_queued _ e0 MCAPI_NO_CHAN (lookup_singleton_eq e0 _)) ltac:(lia)).
  - assert (match alone (mcapi_trans_send 1 e0 [7; 8] 0) (fresh (one_endpoint MCAPI_NO_CHAN)) with
      Done (ok, _) => ok | Fault _ => false end = true) as Hok by (vm_compute; reflexivity).
    destruct (alone (mcapi_trans_send 1 e0 [7; 8] 0) (fresh (one_endpoint MCAPI_NO_CHAN))) as [[ok d]|f] eqn:Hsend;
      [|discriminate Hok]. subst ok.
    destruct (receive_alone (one_endpoint MCAPI_NO_CHAN) e0 MCAPI_NO_CHAN 1 [([7; 8], 0)] d 1 1 true
      (lookup_singleton_eq e0 _) (one_message_queued d Hsend) ltac:(lia)) as ([size data] & d' & Hrun & Hgot & _).
    exists d, d'. split; [done|]. rewrite Hrun. destruct Hgot as [Hsize Hdata]. cbn in Hsize, Hdata. by subst size data.
Defined.

(** ** Two senders on one endpoint *)

(** Two threads may not send to one endpoint: while one of them has linked its buffer
    to the entry at the tail and has not yet advanced the counter, the other one finds
    the entry in use, and its assertion that it is not fails. *)
Theorem two_senders_fail : ∃ schedule,
  run schedule (thread 10 <$> [(e0, Sends [([1], 0)]); (e0, Sends [([2], 0)])]) (fresh (one_endpoint MCAPI_NO_CHAN))
  = Fault AssertFailed.
Proof. exists (replicate 14 0 ++ replicate 5 1)%nat. vm_compute. reflexivity. Qed.
(** Nor receive from one: both read the head as allocated, and the assertion that it
    still is fails for the second. *)
Theorem two_receivers_fail : ∃ schedule,
  run schedule (thread 10 <$> [(e0, Sends [([1], 0)]); (e0, Receives [5] false); (e0, Receives [5] false)])
    (fresh (one_endpoint MCAPI_NO_CHAN)) = Fault AssertFailed.
Proof. exists (replicate 40 0 ++ replicate 4 1 ++ replicate 5 2 ++ [1; 1])%nat. vm_compute. reflexivity. Qed.

(** ** The counters wrap around

    An empty queue after 2^31 - 10 messages.  The number of entries does not divide
    2^31, and the entry after the last one before the wrap is entry 0: two messages
    that may both be waiting share an entry, and the assertion that the entry at the
    tail is free fails with 63 messages waiting, where the queue has room for 65. *)
Definition before_the_wrap : database :=
  upd_queue (λ q, q <| update_counter := 2 ^ 32 - 20 |> <| ack_counter := 2 ^ 32 - 20 |>) e0
    (fresh (one_endpoint MCAPI_SCL_CHAN)).
Theorem counter_wrap_fails :
  alone (send_all 2 e0 (replicate 64 ([], 7))) before_the_wrap = Fault AssertFailed ∧
  match alone (send_all 2 e0 (replicate 63 ([], 7))) before_the_wrap with
  | Done (oks, _) => oks = replicate 63 true
  | Fault _ => False
  end.
Proof. split; vm_compute; reflexivity. Qed.

(** ** State messages on concrete runs, and the numbers of buffers they do not work with. *)

(** Two buffers, three writes.  The first read finds nothing; the second one is
    overtaken while it copies the first message, and gets the last one. *)
Definition three_writes : list (list Z * Z) := [([1; 2; 3], 0); ([4; 5; 6], 0); ([7; 8], 0)].
Definition overtaken : list nat :=
  replicate 4 1%nat ++ replicate 21 0%nat ++ replicate 10 1%nat ++ replicate 60 0%nat ++ replicate 40 1%nat.
Definition three_writes_results : list (option results) :=
  [Some (inl [true; true; true]); Some (inr [None; Some (2, Bytes [7; 8])])].
Lemma three_writes_run :
  finished_run (run overtaken (state_threads 200 e0 three_writes [[10; 10]]) (state_endpoint e0 MCAPI_NO_CHAN 2))
  = Some three_writes_results.
Proof. vm_compute. reflexivity. Qed.

Lemma state_messages_witness : ∃ ts d ks,
  run overtaken (state_threads 200 e0 three_writes [[10; 10]]) (state_endpoint e0 MCAPI_NO_CHAN 2) = Done (ts, d) ∧
  finished ts = three_writes_results ∧ StronglySorted le ks ∧
  Forall2 (λ k sr, read_ok MCAPI_NO_CHAN (Some <$> three_writes) k sr.1 sr.2) ks [(10, None); (10, Some (2, Bytes [7; 8]))].
Proof.
  destruct (state_messages e0 MCAPI_NO_CHAN 2 three_writes [[10; 10]] 200 overtaken) as (ts & d & Hrun & Hall).
  - discriminate.
  - change entries with 65%nat. lia.
  - by exists (2 ^ 31).
  - unfold MCAPI_MAX_MSG_SIZE. repeat constructor; cbn; lia.
  - reflexivity.
  - pose proof three_writes_run as Hfin. rewrite Hrun in Hfin. cbn [finished_run] in Hfin. apply (inj Some) in Hfin.
    assert (ts !! 0%nat = Some (Return (inl [true; true; true])) ∧
      ts !! 1%nat = Some (Return (inr [None; Some (2, Bytes [7; 8])]))) as [H0 H1].
    { clear -Hfin. destruct ts as [|[] [|[] [|]]]; cbn in Hfin; try discriminate Hfin. injection Hfin as -> ->. done. }
    destruct (Hall _ 0%nat _ _ H0 H1 eq_refl) as (ks & Hs & Hks). 
    exists ts, d, ks. split; [exact Hrun|]. split; [exact Hfin|]. split; [exact Hs|exact Hks].
Defined.

(** With a number of buffers that does not divide 2^32, the entry that a reader takes
    before the first write is the entry that the first write uses: what it gets was
    not written. *)
Theorem three_buffers_tear : ∃ schedule,
  finished_run (run schedule (state_threads 200 e0 [([7; 8; 9], 0)] [[10]]) (state_endpoint e0 MCAPI_NO_CHAN 3))
  = Some [Some (inl [true]); Some (inr [Some (0, Bytes [])])].
Proof. exists (replicate 2 1 ++ replicate 12 0 ++ replicate 20 1 ++ replicate 30 0)%nat. vm_compute. reflexivity. Qed.
(** An endpoint whose attribute was never set: the process ends with the first write. *)
Theorem no_buffers_fail : alone (mcapi_trans_send_state e0 [1] 0) (state_endpoint e0 MCAPI_NO_CHAN 0) = Fault OutOfBounds.
Proof. vm_compute. reflexivity. Qed.
