(* ===== verification/Mtapi.v ===== *)
(** MTAPI (src/mca-2.0.3/mtapi): tasks that run as threads of this process or of
    another one (mtapi.c), and the wrapper around the operating system's threads
    (mthread_impl_posix.c).

    A thread is a [prog]: each call of MCAPI and of the threads' wrapper is one
    step, and so is a run of accesses to the variables of the process between two
    such calls.  What MTAPI uses of MCAPI is the class [Mcapi]; a blocking call is
    a loop that looks at the answer again and again.  A struct that is sent is its
    bytes. *)

From S2P Require Import Prelude Bytes McapiTypes LockfreeProg.

(** ** Data (mtapi.h, mthread.h) *)

Definition MTAPI_MAX_TASKS : nat := 64.
Definition MTAPI_MAX_INSTANCES : nat := MTAPI_MAX_TASKS.
Definition MTAPI_MAX_TASK_NAME_LENGTH : nat := 32.

Inductive mtapi_status := MTAPI_ERROR | MTAPI_SUCCESS | MTAPI_EREMOTE | MTAPI_ENAME_LENGTH
  | MTAPI_EMAX_TASKS | MTAPI_EMAX_INSTANCES | MTAPI_EDATA_SIZE | MTAPI_EBAD_HANDLE.
Inductive mtapi_task_status := MTAPI_TASK_ERROR | MTAPI_TASK_SUCCESS.
Inductive mthread_status := MTHREAD_ERROR | MTHREAD_EINIT | MTHREAD_ENOINIT | MTHREAD_EMAXTHRD
  | MTHREAD_SUCCESS.
#[export] Instance mtapi_status_eq_dec : EqDecision mtapi_status.
Proof. solve_decision. Defined.
#[export] Instance mthread_status_eq_dec : EqDecision mthread_status.
Proof. solve_decision. Defined.

Record mtapi_task_descriptor := mk_task { domain : Z; node : Z; task : Z }.
#[export] Instance eta_task : Settable mtapi_task_descriptor :=
  λ r, mk_task (domain r) (node r) (task r).
#[export] Instance mtapi_task_descriptor_eq_dec : EqDecision mtapi_task_descriptor.
Proof. solve_decision. Defined.

(** ** The variables of a process (mtapi.c)

    A function pointer is a number, 0 is NULL.  Handles are addresses of
    descriptors in [heap]; input and return data belong to one instance each and
    are kept by value.  A string is its bytes without the terminator. *)

Record task_impl_t := mk_impl { name : option (list Z); impl : Z }.
Record local_task_descriptor := mk_instance {
  thread : nat;
  handle : Z;
  task_impl : option nat; (* the index of the entry of [task_impls] *)
  status : mtapi_task_status;
  input_data_size : Z;
  input_data : option (list Z);
  return_data_size : Z;
  return_data : option (list Z) }.
#[export] Instance eta_instance : Settable local_task_descriptor := λ r,
  mk_instance (thread r) (handle r) (task_impl r) (status r) (input_data_size r) (input_data r)
    (return_data_size r) (return_data r).

(** What the operating system knows of a thread: what it was started with, and
    whether it runs, has ended, or has been joined. *)
Inductive thread_body := Listener | Dispatcher (instance : nat).
Inductive thread_state := Running | Ended | Joined.
#[export] Instance thread_state_eq_dec : EqDecision thread_state.
Proof. solve_decision. Defined.

Record mtapi := mk_mtapi {
  task_impls : list task_impl_t;
  task_impl_count : nat;
  task_instances : list local_task_descriptor;
  task_instance_count : nat;
  the_domain : Z;
  the_listener_node : Z;
  the_requester_node : Z;
  finalize_mcapi : bool;
  keep_listening : bool;
  listener : nat;
  listener_send_endpt : Z;
  listener_recv_endpt : Z;
  requester_send_endpt : Z;
  requester_recv_endpt : Z;
  task_create_count : Z; (* of create_task_id *)
  mthread_initialized : bool;
  heap : gmap Z mtapi_task_descriptor;
  threads : list (thread_body * thread_state) }.
#[export] Instance eta_mtapi : Settable mtapi := λ r,
  mk_mtapi (task_impls r) (task_impl_count r) (task_instances r) (task_instance_count r)
    (the_domain r) (the_listener_node r) (the_requester_node r) (finalize_mcapi r)
    (keep_listening r) (listener r) (listener_send_endpt r) (listener_recv_endpt r)
    (requester_send_endpt r) (requester_recv_endpt r) (task_create_count r)
    (mthread_initialized r) (heap r) (threads r).

Definition listener_send_port : Z := 0.
Definition listener_recv_port : Z := 1.
Definition requester_send_port : Z := 2.
Definition requester_recv_port : Z := 3.

(** The variables when the program starts. *)
Definition zero_instance : local_task_descriptor :=
  mk_instance 0 0 None MTAPI_TASK_ERROR 0 None 0 None.
Definition start_mtapi : mtapi :=
  mk_mtapi (replicate MTAPI_MAX_TASKS (mk_impl None 0)) 0
    (replicate MTAPI_MAX_INSTANCES zero_instance) 0 (2 ^ 32 - 1) (2 ^ 32 - 1) (2 ^ 32 - 1)
    false true 0 0 0 0 0 0 false ∅ [].

(** ** Memory *)

(** [*p] *)
Definition deref (p : Z) : M mtapi mtapi_task_descriptor :=
  let* s := get in from_option_oob (heap s !! p).
Definition set_instance (i : nat) (f : local_task_descriptor → local_task_descriptor) : M mtapi unit :=
  arr_get task_instances i;; modify (λ s, s <| task_instances ::= alter f i |>).
(** [memcpy] from a block that holds [l]; a [size_t] is never negative. *)
Definition copied {S} (l : list Z) (size : Z) : M S (list Z) :=
  if (0 <=? size) && (size <=? Z.of_nat (length l)) then ret (take (Z.to_nat size) l)
  else raise OutOfBounds.
Definition copied_from {S} (p : option (list Z)) (size : Z) : M S (list Z) :=
  copied (default [] p) size.

(** ** Threads (mthread_impl_posix.c)

    Thread [k] of a process is the [k]-th it has started, 0 is the main thread.
    pthread_create succeeds for thread [k] if [pthread_ok k]; joining a thread that
    was joined before, or that is none, is the error ESRCH. *)

Definition mthread_initialize : M mtapi mthread_status :=
  let* s := get in
  if negb (mthread_initialized s) then
    modify (λ s, s <| mthread_initialized := true |>);; ret MTHREAD_SUCCESS
  else ret MTHREAD_EINIT.
Definition mthread_create (pthread_ok : nat → bool) (store : nat → M mtapi unit)
    (body : thread_body) : M mtapi mthread_status :=
  let* s := get in
  if negb (mthread_initialized s) then ret MTHREAD_ENOINIT
  else
    let k := S (length (threads s)) in
    if pthread_ok k then
      modify (λ s, s <| threads := threads s ++ [(body, Running)] |>);;
      store k;; ret MTHREAD_SUCCESS
    else ret MTHREAD_ERROR.
Definition mthread_yield : M mtapi mthread_status :=
  let* s := get in
  ret (if negb (mthread_initialized s) then MTHREAD_ENOINIT else MTHREAD_SUCCESS).
Definition mthread_finalize : M mtapi mthread_status :=
  let* s := get in
  if mthread_initialized s then
    modify (λ s, s <| mthread_initialized := false |>);; ret MTHREAD_SUCCESS
  else ret MTHREAD_ENOINIT.

(** One look of [pthread_join], which waits while the thread runs. *)
Definition thread_at (k : nat) (s : mtapi) : option (thread_body * thread_state) :=
  match k with O => None | S i => threads s !! i end.
Definition set_thread_state (k : nat) (x : thread_state) (s : mtapi) : mtapi :=
  s <| threads ::= alter (λ t, (t.1, x)) (pred k) |>.
Definition pthread_join (k : nat) : M mtapi (option mthread_status) :=
  let* s := get in
  match thread_at k s with
  | Some (_, Ended) => modify (set_thread_state k Joined);; ret (Some MTHREAD_SUCCESS)
  | Some (_, Running) => ret None
  | _ => ret (Some MTHREAD_ERROR)
  end.
Definition mthread_strerr (st : mthread_status) : string :=
  match st with
  | MTHREAD_ERROR => "general error"
  | MTHREAD_EINIT => "already initialized"
  | MTHREAD_ENOINIT => "not initialized"
  | MTHREAD_EMAXTHRD => "at max thread count"
  | MTHREAD_SUCCESS => "success"
  end.

(** ** The tables *)

(** [strcmp(task_name, task_impls[i].name) == 0], over the whole table: the name
    of an entry that nobody registered is NULL. *)
Fixpoint find_impl (task_name : list Z) (l : list task_impl_t) (i : Z) : result Z :=
  match l with
  | [] => Done (-1)
  | x :: l =>
      match name x with
      | None => Fault OutOfBounds
      | Some n => if decide (n = task_name) then Done i else find_impl task_name l (i + 1)
      end
  end.
Definition get_task_impl_idx (task_name : list Z) : M mtapi Z :=
  let* s := get in lift (find_impl task_name (task_impls s) 0).

Fixpoint find_instance (h : gmap Z mtapi_task_descriptor) (t : mtapi_task_descriptor)
    (l : list local_task_descriptor) (i : Z) : result Z :=
  match l with
  | [] => Done (-1)
  | x :: l =>
      match h !! handle x with
      | None => Fault OutOfBounds
      | Some d => if decide (d = t) then Done i else find_instance h t l (i + 1)
      end
  end.
Definition get_task_instance_idx (task_handle : mtapi_task_descriptor) : M mtapi Z :=
  let* s := get in lift (find_instance (heap s) task_handle (task_instances s) 0).

Definition create_task_id : M mtapi Z :=
  let* s := get in
  modify (λ s, s <| task_create_count ::= λ c, i32 (c + 1) |>);; ret (task_create_count s).

(** ** Structs that are sent *)

Inductive listener_cmd_t := MTAPI_CMD_CREATE_TASK | MTAPI_CMD_WAIT_TASK | MTAPI_CMD_SHUTDOWN.
Inductive listener_reply_t := MTAPI_REPLY_ACK | MTAPI_REPLY_NACK.
Definition cmd_word (c : listener_cmd_t) : Z :=
  match c with MTAPI_CMD_CREATE_TASK => 0 | MTAPI_CMD_WAIT_TASK => 1 | MTAPI_CMD_SHUTDOWN => 2 end.
Definition reply_word (r : listener_reply_t) : Z :=
  match r with MTAPI_REPLY_ACK => 0 | MTAPI_REPLY_NACK => 1 end.

(** [sizeof] the commands and replies, and the offsets of their members:
    cmd, from_domain, from_node, data_size, task_name and data of
    mtapi_remote_cmd_t; reply, task, data_size and data of mtapi_remote_reply_t. *)
Definition struct_size : nat := 1024.
Definition cmd_at : nat := 0.
Definition from_domain_at : nat := 4.
Definition from_node_at : nat := 8.
Definition cmd_size_at : nat := 12.
Definition task_name_at : nat := 16.
Definition cmd_data_at : nat := 49.
Definition reply_at : nat := 0.
Definition task_at : nat := 4.
Definition reply_size_at : nat := 16.
Definition reply_data_at : nat := 20.
Definition MTAPI_MAX_INPUT_DATA_SIZE : Z :=
  Z.of_nat MCAPI_MAX_MSG_SIZE - (4 + 4 + 4 + 4 + (Z.of_nat MTAPI_MAX_TASK_NAME_LENGTH + 1)).
Definition MTAPI_MAX_RETURN_DATA_SIZE : Z := Z.of_nat MCAPI_MAX_MSG_SIZE - (4 + 12 + 4).

(** Writing and reading a struct.  A write past a member changes the next one, a
    write past the struct is a fault. *)
Definition put (off : nat) (l : list Z) : M (list Z) unit := λ b,
  if (off + length l <=? length b)%nat
  then Done (tt, take off b ++ l ++ drop (off + length l) b) else Fault OutOfBounds.
Definition word (z : Z) : list Z := le_bytes 4 z.
Definition descriptor_bytes (t : mtapi_task_descriptor) : list Z :=
  word (domain t) ++ word (node t) ++ word (task t).
Definition unsigned_at (off : nat) (b : list Z) : Z := le_value (take 4 (drop off b)).
Definition int_at (off : nat) (b : list Z) : Z := i32 (unsigned_at off b).
Definition descriptor_at (off : nat) (b : list Z) : mtapi_task_descriptor :=
  mk_task (unsigned_at off b) (unsigned_at (off + 4) b) (int_at (off + 8) b).
Fixpoint c_string (b : list Z) : result (list Z) :=
  match b with
  | [] => Fault OutOfBounds
  | c :: b =>
      if c =? 0 then Done []
      else match c_string b with Done l => Done (c :: l) | Fault f => Fault f end
  end.

(** The command of each request and the reply to it. *)
Definition create_cmd (s : mtapi) (task_name input_data : list Z) (size : Z) : M (list Z) unit :=
  put cmd_at (word (cmd_word MTAPI_CMD_CREATE_TASK));;
  put from_domain_at (word (the_domain s));;
  put from_node_at (word (the_requester_node s));;
  put task_name_at (task_name ++ [0]);;
  put cmd_size_at (word size);;
  let* data := copied input_data size in
  put cmd_data_at data;;
  put (cmd_data_at + Z.to_nat size) [0].
Definition wait_cmd (s : mtapi) (t : mtapi_task_descriptor) : M (list Z) unit :=
  put cmd_at (word (cmd_word MTAPI_CMD_WAIT_TASK));;
  put from_domain_at (word (the_domain s));;
  put from_node_at (word (the_requester_node s));;
  put task_name_at [0];;
  put cmd_size_at (word 12);;
  put cmd_data_at (descriptor_bytes t).
Definition shutdown_cmd (s : mtapi) : M (list Z) unit :=
  put cmd_at (word (cmd_word MTAPI_CMD_SHUTDOWN));;
  put from_domain_at (word (the_domain s));;
  put from_node_at (word (the_requester_node s));;
  put task_name_at [0];;
  put cmd_size_at (word 0).
Definition start_reply (s : mtapi) (t : option mtapi_task_descriptor) : M (list Z) unit :=
  match t with
  | Some t =>
      put reply_at (word (reply_word MTAPI_REPLY_ACK));;
      put task_at (descriptor_bytes t);;
      put reply_size_at (word 0);;
      put reply_data_at [0]
  | None =>
      put reply_at (word (reply_word MTAPI_REPLY_NACK));;
      put task_at (descriptor_bytes (mk_task (the_domain s) (the_listener_node s) (-1)));;
      put reply_size_at (word 0);;
      put reply_data_at [0]
  end.
Definition wait_reply (s : mtapi) (which : listener_reply_t) (cmd return_data : list Z)
    (return_data_size : Z) : M (list Z) unit :=
  let t := mk_task (the_domain s) (the_listener_node s) (task (descriptor_at cmd_data_at cmd)) in
  put reply_at (word (reply_word which));;
  put task_at (descriptor_bytes t);;
  put reply_size_at (word return_data_size);;
  match which with
  | MTAPI_REPLY_ACK => let* data := copied return_data return_data_size in put reply_data_at data
  | MTAPI_REPLY_NACK => put reply_data_at [0]
  end.
Definition shutdown_reply (s : mtapi) : M (list Z) unit :=
  put reply_at (word (reply_word MTAPI_REPLY_ACK));;
  put task_at (descriptor_bytes (mk_task (the_domain s) (the_listener_node s) 0));;
  put reply_size_at (word 0).

(** ** The system: processes and the network between them *)

Record system (N : Type) := mk_system { procs : list mtapi; net : N }.
Arguments mk_system {N} _ _.
Arguments procs {N} _.
Arguments net {N} _.

(** What MTAPI uses of MCAPI.  A caller is a process with the number of its
    thread; identities are per thread.  [mcapi_endpoint_look] is one look of
    mcapi_endpoint_get, which waits for the endpoint; [mcapi_test] answers whether
    the request is done, and then with the bytes received. *)
Class Mcapi (N : Type) := {
  mcapi_initialize : nat * nat → Z → Z → M N Z;
  mcapi_domain_id_get : nat * nat → M N (Z * Z);
  mcapi_endpoint_create : nat * nat → Z → M N (Z * Z);
  mcapi_endpoint_look : Z → Z → Z → M N (option (Z * Z));
  mcapi_msg_send : Z → Z → list Z → M N Z;
  mcapi_msg_recv_i : Z → Z → M N (Z * Z);
  mcapi_test : Z → M N (bool * Z * list Z * Z);
  mcapi_endpoint_delete : nat * nat → Z → M N Z;
  mcapi_finalize : nat * nat → M N Z }.

(** A step on the variables of process [p], and a step on the network. *)
Definition of_process {N A} (p : nat) (m : M mtapi A) : M (system N) A := λ s,
  match procs s !! p with
  | None => Fault OutOfBounds
  | Some x =>
      match m x with
      | Done (a, x) => Done (a, mk_system (<[p := x]> (procs s)) (net s))
      | Fault f => Fault f
      end
  end.
Definition of_net {N A} (m : M N A) : M (system N) A := λ s,
  match m (net s) with
  | Done (a, n) => Done (a, mk_system (procs s) n)
  | Fault f => Fault f
  end.

(** Looking until there is an answer. *)
Fixpoint poll {S A} (fuel : nat) (look : M S (option A)) : prog S A :=
  match fuel with
  | O => Raise OutOfFuel
  | Datatypes.S fuel =>
      Atomic look (λ o, match o with Some a => Return a | None => poll fuel look end)
  end.

(** ** The functions of mtapi.c

    [task_code] is what the function pointers of the user stand for: from the
    process and the number of the thread, and the arguments of the call.  [malloc]
    gives an address for a new descriptor, [garbage] is what a local struct holds
    before it is written, and [fuel] bounds the looks of each wait. *)

Section mtapi.
Context {N : Type} `{!Mcapi N}.
Abbreviation thread_of A := (prog (system N) A).
Context (task_code : Z → nat → nat → Z → list Z → Z → thread_of unit).
Context (pthread_ok : nat → bool) (malloc : gset Z → Z) (garbage : list Z) (fuel : nat).

(** The process and the number of the calling thread. *)
Section caller.
Context (me self : nat).

Definition mine {A} (m : M mtapi A) : thread_of A := once (of_process me m).
Definition call {A} (m : M N A) : thread_of A := once (of_net m).
Definition build (m : M (list Z) unit) : thread_of (list Z) :=
  match m garbage with Done (_, b) => Return b | Fault f => Raise f end.
Definition new_descriptor (t : mtapi_task_descriptor) : M mtapi Z :=
  let* s := get in
  let p := malloc (dom (heap s)) in
  modify (λ s, s <| heap ::= <[p := t]> |>);; ret p.
(** free(NULL) does nothing. *)
Definition free_descriptor (p : Z) : M mtapi unit :=
  if p =? 0 then ret tt else deref p;; modify (λ s, s <| heap ::= delete p |>).

Definition mcapi_endpoint_get (domain node port : Z) : thread_of (Z * Z) :=
  poll fuel (of_net (mcapi_endpoint_look domain node port)).
Definition received (request : Z) : M (system N) (option (list Z * Z)) :=
  let* (done, _, bytes, st) := of_net (mcapi_test request) in
  ret (if (done : bool) then Some (bytes, st) else None).
(** Returns what was received and the status. *)
Definition mcapi_msg_recv (endpoint size : Z) : thread_of (list Z * Z) :=
  let! (request, st) := call (mcapi_msg_recv_i endpoint size) in
  if negb (st =? MCAPI_SUCCESS) then Return ([], st)
  else poll fuel (received request).
(** Returns the result, the request, what was received and the status. *)
Fixpoint mcapi_wait (fuel : nat) (request timeout time : Z) : thread_of (bool * Z * list Z * Z) :=
  match fuel with
  | O => Raise OutOfFuel
  | S fuel =>
      let! (done, request, bytes, st) := call (mcapi_test request) in
      if (done : bool) then Return (true, request, bytes, st)
      else if timeout <=? time + 1 then Return (false, request, bytes, MCAPI_TIMEOUT)
      else mcapi_wait fuel request timeout (time + 1)
  end.

Definition mthread_wait (k : nat) : thread_of mthread_status :=
  let! initialized := mine (gets mthread_initialized) in
  if negb initialized then Return MTHREAD_ENOINIT
  else poll fuel (of_process me (pthread_join k)).

(** *** Tasks of this process *)

(** The entry at [task_instance_count], and its index. *)
Definition fill_instance (task_idx : Z) (input : list Z) (size : Z) : M mtapi nat :=
  let* s := get in
  let* id := create_task_id in
  let* h := new_descriptor (mk_task (the_domain s) (the_listener_node s) id) in
  let* data := copied input size in
  set_instance (task_instance_count s) (λ x, x
    <| handle := h |> <| task_impl := Some (Z.to_nat task_idx) |>
    <| input_data_size := size |> <| input_data := Some data |>);;
  ret (task_instance_count s).
(** &task_instances[task_instance_count].thread is written by the creation. *)
Definition create_task_thread (instance : nat) : M mtapi mthread_status :=
  mthread_create pthread_ok (λ k, set_instance instance (λ x, x <| thread := k |>))
    (Dispatcher instance).
(** After a failure the handle is used although it has been freed. *)
Definition task_created (st : mthread_status) : M mtapi Z :=
  match st with
  | MTHREAD_SUCCESS =>
      modify (λ s, s <| task_instance_count ::= S |>);;
      let* x := arr_get task_instances 0 in ret (handle x)
  | _ =>
      let* s := get in
      let* x := arr_get task_instances (task_instance_count s) in
      free_descriptor (handle x);;
      deref (handle x);;
      modify (λ s, s <| heap ::= <[handle x := mk_task (2 ^ 32 - 1) (2 ^ 32 - 1) (-1)]> |>);;
      set_instance (task_instance_count s) (λ x, x
        <| task_impl := None |> <| input_data_size := 0 |> <| input_data := None |>);;
      ret 0
  end.
Definition start_local_task (task_name input : list Z) (size : Z) : thread_of Z :=
  let! task_idx := mine (get_task_impl_idx task_name) in
  if 0 <=? task_idx then
    let! instance := mine (fill_instance task_idx input size) in
    let! st := mine (create_task_thread instance) in
    mine (task_created st)
  else Return 0.

Definition return_of (x : local_task_descriptor) : M mtapi (list Z * Z) :=
  let* data := copied_from (return_data x) (return_data_size x) in
  ret (data, return_data_size x).
(** Returns [*return_data], [*return_data_size] and [*status]; the task's status
    is MTAPI_TASK_SUCCESS. *)
Definition wait_local_task (t : mtapi_task_descriptor) :
    thread_of (mtapi_task_status * list Z * Z * mtapi_status) :=
  let! x := mine (let* instance_idx := get_task_instance_idx t in
                  if instance_idx <? 0 then raise OutOfBounds
                  else ret (Z.to_nat instance_idx)) in
  let! k := mine (let* d := arr_get task_instances x in ret (thread d)) in
  let! _ := mthread_wait k in
  let! (data, size) := mine (let* d := arr_get task_instances x in return_of d) in
  Return (MTAPI_TASK_SUCCESS, data, size, MTAPI_SUCCESS).

Definition mtapi_task_exit (handle : Z) (data : list Z) (size : Z) (task_status : mtapi_task_status) :
    M mtapi mtapi_status :=
  let* t := deref handle in
  let* instance_idx := get_task_instance_idx t in
  if instance_idx <? 0 then ret MTAPI_EBAD_HANDLE
  else if MTAPI_MAX_RETURN_DATA_SIZE <? size then ret MTAPI_EDATA_SIZE
  else
    let* data := copied data size in
    set_instance (Z.to_nat instance_idx) (λ x, x
      <| return_data := Some data |> <| return_data_size := size |> <| status := task_status |>);;
    ret MTAPI_SUCCESS.

(** The program of a task's thread. *)
Definition local_dispatcher (instance : nat) : thread_of unit :=
  let! (f, x) := mine (
    let* x := arr_get task_instances instance in
    let* i := from_option_oob (task_impl x) in
    let* t := arr_get task_impls i in
    if impl t =? 0 then raise OutOfBounds else ret (impl t, x)) in
  task_code f me self (handle x) (default [] (input_data x)) (input_data_size x).

(** *** Tasks of another process *)

(** Sends a command to the listener of a node and waits for its reply; [None] when
    a call of MCAPI fails, which each caller reports in its way. *)
Definition request_reply (domain node : Z) (cmd : mtapi → M (list Z) unit) :
    thread_of (option (list Z)) :=
  let! (remote_endpt, st) := mcapi_endpoint_get domain node listener_recv_port in
  if negb (st =? MCAPI_SUCCESS) then Return None
  else
    let! s := mine get in
    let! cmd := build (cmd s) in
    let! st := call (mcapi_msg_send (requester_send_endpt s) remote_endpt cmd) in
    if negb (st =? MCAPI_SUCCESS) then Return None
    else
      let! (reply, st) := mcapi_msg_recv (requester_recv_endpt s) (Z.of_nat struct_size) in
      if negb (st =? MCAPI_SUCCESS) || negb (Z.of_nat (length reply) =? Z.of_nat struct_size)
      then Return None else Return (Some reply).
Definition is_nack (reply : list Z) : bool :=
  unsigned_at reply_at reply =? reply_word MTAPI_REPLY_NACK.

Definition start_remote_task (domain node : Z) (task_name input : list Z) (size : Z) : thread_of Z :=
  let! reply := request_reply domain node (λ s, create_cmd s task_name input size) in
  match reply with
  | None => Return 0
  | Some reply =>
      if is_nack reply then Return 0 else mine (new_descriptor (descriptor_at task_at reply))
  end.
(** Returns nothing for [*return_data] and [*return_data_size] where they stay as
    they were. *)
Definition wait_remote_task (t : mtapi_task_descriptor) :
    thread_of (mtapi_task_status * option (list Z * Z) * mtapi_status) :=
  let! reply := request_reply (domain t) (node t) (λ s, wait_cmd s t) in
  match reply with
  | None => Return (MTAPI_TASK_ERROR, None, MTAPI_EREMOTE)
  | Some reply =>
      if is_nack reply then Return (MTAPI_TASK_ERROR, None, MTAPI_SUCCESS)
      else
        let size := int_at reply_size_at reply in
        let! data := mine (copied (drop reply_data_at reply) size) in
        Return (MTAPI_TASK_SUCCESS, Some (data, size), MTAPI_SUCCESS)
  end.

(** *** The listener *)

Definition send_reply (cmd : list Z) (reply : mtapi → M (list Z) unit) : thread_of mtapi_status :=
  let! (remote_endpt, st) :=
    mcapi_endpoint_get (unsigned_at from_domain_at cmd) (unsigned_at from_node_at cmd)
      requester_recv_port in
  if negb (st =? MCAPI_SUCCESS) then Return MTAPI_EREMOTE
  else
    let! s := mine get in
    let! reply := build (reply s) in
    let! st := call (mcapi_msg_send (listener_send_endpt s) remote_endpt reply) in
    Return (if negb (st =? MCAPI_SUCCESS) then MTAPI_EREMOTE else MTAPI_SUCCESS).
Definition send_remote_start_response (cmd : list Z) (task : Z) : thread_of mtapi_status :=
  let! t := mine (if task =? 0 then ret None else let* t := deref task in ret (Some t)) in
  send_reply cmd (λ s, start_reply s t).
Definition send_remote_wait_response (which : listener_reply_t) (cmd return_data : list Z)
    (return_data_size : Z) : thread_of mtapi_status :=
  send_reply cmd (λ s, wait_reply s which cmd return_data return_data_size).
Definition send_remote_shutdown_response (cmd : list Z) : thread_of mtapi_status :=
  send_reply cmd shutdown_reply.

(** The switch on the command; one that is none of them is only reported. *)
Definition serve (cmd : list Z) : thread_of unit :=
  let code := unsigned_at cmd_at cmd in
  if code =? cmd_word MTAPI_CMD_CREATE_TASK then
    let! task_name := once (lift (c_string (drop task_name_at cmd))) in
    let! task := start_local_task task_name (drop cmd_data_at cmd) (int_at cmd_size_at cmd) in
    send_remote_start_response cmd task;! Return tt
  else if code =? cmd_word MTAPI_CMD_WAIT_TASK then
    let! (_, data, size, st) := wait_local_task (descriptor_at cmd_data_at cmd) in
    (if decide (st = MTAPI_SUCCESS) then send_remote_wait_response MTAPI_REPLY_ACK cmd data size
     else send_remote_wait_response MTAPI_REPLY_NACK cmd [] 0);!
    Return tt
  else if code =? cmd_word MTAPI_CMD_SHUTDOWN then
    mine (modify (λ s, s <| keep_listening := false |>));!
    send_remote_shutdown_response cmd;! Return tt
  else Return tt.

(** The bytes received overwrite the first ones of [cmd]. *)
Definition overwritten (cmd bytes : list Z) : list Z := bytes ++ drop (length bytes) cmd.
Fixpoint listen (fuel_left : nat) (cmd : list Z) (request : Z) : thread_of unit :=
  match fuel_left with
  | O => Raise OutOfFuel
  | S fuel_left =>
      let! s := mine get in
      if negb (keep_listening s) then Return tt
      else
        let! (recvd, request, bytes, st) := mcapi_wait fuel request 1000000 0 in
        if (recvd : bool) && (st =? MCAPI_SUCCESS) then
          let cmd := overwritten cmd bytes in
          serve cmd;!
          let! (request, _) :=
            call (mcapi_msg_recv_i (listener_recv_endpt s) (Z.of_nat struct_size)) in
          mine mthread_yield;! listen fuel_left cmd request
        else mine mthread_yield;! listen fuel_left cmd request
  end.
Definition mtapi_listener : thread_of unit :=
  let! s := mine get in
  let! st := call (mcapi_initialize (me, self) (the_domain s) (the_listener_node s)) in
  if negb (st =? MCAPI_SUCCESS) then Return tt
  else
    let! (e, st) := call (mcapi_endpoint_create (me, self) listener_recv_port) in
    mine (modify (λ s, s <| listener_recv_endpt := e |>));!
    if negb (st =? MCAPI_SUCCESS) then Return tt
    else
      let! (e', st) := call (mcapi_endpoint_create (me, self) listener_send_port) in
      mine (modify (λ s, s <| listener_send_endpt := e' |>));!
      if negb (st =? MCAPI_SUCCESS) then Return tt
      else
        let! (request, _) := call (mcapi_msg_recv_i e (Z.of_nat struct_size)) in
        listen fuel garbage request;!
        call (mcapi_endpoint_delete (me, self) e');!
        call (mcapi_endpoint_delete (me, self) e);!
        call (mcapi_finalize (me, self));! Return tt.

(** *** The public functions (mtapi.h) *)

Definition cleared (s : mtapi) : mtapi := s
  <| task_impls ::= fmap (λ _, mk_impl None 0) |>
  <| task_instances ::= fmap (λ x, x <| handle := 0 |> <| return_data := None |>
       <| return_data_size := 0 |> <| status := MTAPI_TASK_ERROR |>) |>.
(** The main thread's part of MCAPI: [None] when it goes well. *)
Definition initialize_mcapi : thread_of (option mtapi_status) :=
  let! s := mine get in
  let! st := call (mcapi_initialize (me, self) (the_domain s) (the_requester_node s)) in
  if st =? MCAPI_ERR_NODE_INITFAILED then
    mine (modify (λ s, s <| finalize_mcapi := false |>));!
    let! (d, st) := call (mcapi_domain_id_get (me, self)) in
    mine (modify (λ s, s <| the_domain := d |>));!
    Return (if negb (st =? MCAPI_SUCCESS) then Some MTAPI_ERROR else None)
  else Return (if negb (st =? MCAPI_SUCCESS) then Some MTAPI_ERROR else None).
Definition create_requester (port : Z) (store : Z → mtapi → mtapi) : thread_of (option mtapi_status) :=
  let! (e, st) := call (mcapi_endpoint_create (me, self) port) in
  mine (modify (store e));!
  Return (if negb (st =? MCAPI_SUCCESS) then Some MTAPI_ERROR else None).
Definition or_else (p : thread_of (option mtapi_status)) (q : thread_of mtapi_status) :
    thread_of mtapi_status :=
  let! o := p in match o with Some st => Return st | None => q end.
Definition mtapi_initialize (domain node : Z) : thread_of mtapi_status :=
  mine (modify (λ s, cleared s <| the_domain := domain |> <| the_requester_node := u32 (node + 1) |>
    <| the_listener_node := node |> <| finalize_mcapi := true |>));!
  or_else initialize_mcapi
    (or_else (create_requester requester_recv_port (λ e s, s <| requester_recv_endpt := e |>))
      (or_else (create_requester requester_send_port (λ e s, s <| requester_send_endpt := e |>))
        (let! st := mine mthread_initialize in
         if decide (st = MTHREAD_SUCCESS) then
           let! st := mine (mthread_create pthread_ok (λ k, modify (λ s, s <| listener := k |>))
                              Listener) in
           if decide (st = MTHREAD_SUCCESS) then mine mthread_yield;! Return MTAPI_SUCCESS
           else Return MTAPI_ERROR
         else Return MTAPI_ERROR))).

Definition mtapi_register_impl (task_name : list Z) (f : Z) : M mtapi mtapi_status :=
  let* s := get in
  if (MTAPI_MAX_TASK_NAME_LENGTH <? length task_name)%nat then ret MTAPI_ENAME_LENGTH
  else if (MTAPI_MAX_TASKS <=? task_impl_count s)%nat then ret MTAPI_EMAX_TASKS
  else
    arr_get task_impls (task_impl_count s);;
    modify (λ s, s <| task_impls ::= <[task_impl_count s := mk_impl (Some task_name) f]> |>);;
    ret MTAPI_SUCCESS.

(** Returns the handle and [*status]. *)
Definition mtapi_create_task (domain node : Z) (task_name input : list Z) (size : Z) :
    thread_of (Z * mtapi_status) :=
  let! s := mine get in
  let! ret_val :=
    (if MTAPI_MAX_INPUT_DATA_SIZE <? size then Return 0
     else if (MTAPI_MAX_INSTANCES <=? task_instance_count s)%nat then Return 0
     else if (domain =? the_domain s) && (node =? the_listener_node s) then
       start_local_task task_name input size
     else start_remote_task domain node task_name input size) in
  Return (ret_val, if ret_val =? 0 then MTAPI_EREMOTE else MTAPI_SUCCESS).

Definition mtapi_task_wait (task : Z) :
    thread_of (mtapi_task_status * option (list Z * Z) * mtapi_status) :=
  let! (t, s) := mine (let* t := deref task in let* s := get in ret (t, s)) in
  if (domain t =? the_domain s) && (node t =? the_listener_node s) then
    let! (ts, data, size, st) := wait_local_task t in Return (ts, Some (data, size), st)
  else wait_remote_task t.

Definition mtapi_slave : thread_of unit :=
  let! s := mine get in mthread_wait (listener s);! Return tt.

Definition mtapi_shutdown_slave (domain node : Z) : thread_of mtapi_status :=
  let! reply := request_reply domain node shutdown_cmd in
  Return (match reply with Some _ => MTAPI_SUCCESS | None => MTAPI_ERROR end).

(** The frees of mtapi_finalize; what has been freed cannot be read any more. *)
Definition free_tables : M mtapi unit :=
  let* s := get in
  c_for (task_impl_count s) 0 (λ i,
    modify (λ s, s <| task_impls ::= alter (λ x, mk_impl None (impl x)) i |>));;
  c_for (task_instance_count s) 0 (λ i,
    let* x := arr_get task_instances i in
    free_descriptor (handle x);;
    set_instance i (λ x, x <| return_data := None |>)).
Definition mtapi_finalize : thread_of mtapi_status :=
  let! s := mine get in
  let! st :=
    (if keep_listening s then
       mine (modify (λ s, s <| keep_listening := false |>));!
       let! st := mthread_wait (listener s) in
       Return (if decide (st = MTHREAD_SUCCESS) then MTAPI_SUCCESS else MTAPI_ERROR)
     else Return MTAPI_SUCCESS) in
  let! st' := mine mthread_finalize in
  let st := if decide (st' = MTHREAD_SUCCESS) then st else MTAPI_ERROR in
  mine free_tables;!
  if finalize_mcapi s then
    let! st' := call (mcapi_finalize (me, self)) in
    Return (if negb (st' =? MCAPI_SUCCESS) then MTAPI_ERROR else st)
  else Return st.
End caller.

(** What thread [k] of process [me] does once it is started. *)
Definition started (k : nat) : M mtapi (option thread_body) :=
  let* s := get in ret (fst <$> thread_at k s).
Definition thread_main (me k : nat) : thread_of unit :=
  let! body := poll fuel (of_process me (started k)) in
  match body with
  | Listener => mtapi_listener me k
  | Dispatcher i => local_dispatcher me k i
  end;!
  mine me (modify (set_thread_state k Ended)).
End mtapi.
