(* ===== verification/MtapiTasks.v ===== *)
(** The life of one task (MTAPI), seen from the thread that creates and joins it
    and from its own thread, and the protocol between a client and the listener. *)

From S2P Require Import Prelude Bytes McapiTypes LockfreeProg Mtapi.

(** ** Steps on the variables of a process *)

Lemma of_process_done {N A} p (m : M mtapi A) (s : system N) x a x' :
  procs s !! p = Some x → m x = Done (a, x') →
  of_process p m s = Done (a, mk_system (<[p := x']> (procs s)) (net s)).
Proof. intros Hp Hm. unfold of_process. by rewrite Hp, Hm. Qed.
Lemma of_process_same {N A} p (m : M mtapi A) (s : system N) x a :
  procs s !! p = Some x → m x = Done (a, x) → of_process p m s = Done (a, s).
Proof.
  intros Hp Hm. rewrite (of_process_done p m s x a x Hp Hm), list_insert_id by done. by destruct s.
Qed.
Lemma of_net_done {N A} (m : M N A) (s : system N) a n' :
  m (net s) = Done (a, n') → of_net m s = Done (a, mk_system (procs s) n').
Proof. intros Hm. unfold of_net. by rewrite Hm. Qed.

Lemma copied_done {S} l size (s : S) :
  0 <= size <= Z.of_nat (length l) → copied l size s = Done (take (Z.to_nat size) l, s).
Proof.
  intros Hs. unfold copied. destruct (Z.leb_spec 0 size); [|lia].
  by destruct (Z.leb_spec size (Z.of_nat (length l))); [|lia].
Qed.
Lemma set_instance_done i f x s :
  task_instances s !! i = Some x →
  set_instance i f s = Done (tt, s <| task_instances ::= alter f i |>).
Proof. intros Hx. unfold set_instance, arr_get, bind, get. by rewrite Hx. Qed.

(** A wait: each look keeps the invariant until there is an answer, which is there
    as soon as the thread need not wait. *)
Lemma live_poll {S W A} (real : W → S) (R G : relation W) hope waits idle pot `{!PreOrder R}
    (I : W → Prop) (look : M S (option A)) Q t n fuel w :
  (t <= fuel)%nat →
  (∀ w w', R w w' → I w → I w') →
  (∀ w, I w → ∃ o w', look (real w) = Done (o, real w') ∧ G w w' ∧
     match o with
     | None => I w' ∧ (hope → waits w ∧ idle w w' ∧ (pot w' <= pot w)%nat)
     | Some a => ∃ m, (hope → pays waits idle pot n w m w') ∧ ∀ w'', R w' w'' → Q m a w''
     end) →
  I w → live real R G hope waits idle pot t n (poll fuel look) Q w.
Proof.
  intros Ht HI Hlook. revert t w Ht. induction fuel as [|fuel IH]; intros t w Ht Hw.
  { split; [done|lia]. }
  cbn [poll live]. intros w' Hw'. destruct (Hlook w') as (o & w'' & Hl & HG & Ho); [by eapply HI|].
  exists o, w''. destruct o as [a|].
  - destruct Ho as (m & Hm & HQ). exists m. split_and!; [done..|]. by apply live_return.
  - destruct Ho as [Ho Hn]. exists n. split_and!; [done..| |apply IH; [lia|done]].
    intros Hh. destruct (Hn Hh) as (? & ? & ?). right. split_and!; [done..|lia].
Qed.
Lemma pays_one {W} (waits : W → Prop) (idle : relation W) (pot : W → nat) n w w' :
  pot w' = pot w → pays waits idle pot (S n) w n w'.
Proof. intros Hp. left. lia. Qed.

(** ** The stages of the first task of a process

    [Spawned counted st] is a task whose thread exists; it is counted in
    task_instance_count or not yet.  The task's thread stores its result
    ([TExited]), ends and is joined. *)

Inductive task_state := TRunning | TExited | TEnded | TJoined.
Inductive stage := Fresh | Filled | Spawned (counted : bool) (st : task_state).
Definition stored_result (st : task_state) : bool :=
  match st with TRunning => false | _ => true end.
Definition os_state (st : task_state) : thread_state :=
  match st with TRunning | TExited => Running | TEnded => Ended | TJoined => Joined end.

(** What the task's thread does to the stage, and what the thread that creates and
    joins it does. *)
Inductive task_moves : relation stage :=
| task_exits c : task_moves (Spawned c TRunning) (Spawned c TExited)
| task_ends c : task_moves (Spawned c TExited) (Spawned c TEnded).
Inductive owner_moves : relation stage :=
| owner_fills : owner_moves Fresh Filled
| owner_spawns : owner_moves Filled (Spawned false TRunning)
| owner_counts st : owner_moves (Spawned false st) (Spawned true st)
| owner_joins c : owner_moves (Spawned c TEnded) (Spawned c TJoined).

Lemma task_moves_early g g' :
  rtc task_moves g g' → (∀ c st, g ≠ Spawned c st) → g' = g.
Proof.
  destruct 1 as [|g g1 g' Hm _]; [done|]. intros Hg. inversion Hm; subst; exfalso; by eapply Hg.
Qed.
Lemma task_moves_spawned c st g' :
  rtc task_moves (Spawned c st) g' →
  ∃ st', g' = Spawned c st' ∧ (st = TJoined ↔ st' = TJoined).
Proof.
  intros Hm. remember (Spawned c st) as g eqn:Hg. revert st Hg.
  induction Hm as [g|g g1 g' Hm _ IH]; intros st ->; [by exists st|].
  inversion Hm; subst; destruct (IH _ eq_refl) as (st' & -> & Hj); exists st'; split; try done;
    split; [done|by intros ?%Hj|done|by intros ?%Hj].
Qed.
Lemma task_moves_after c st g' :
  rtc task_moves (Spawned c st) g' → st = TEnded ∨ st = TJoined → g' = Spawned c st.
Proof. intros Hm. remember (Spawned c st) as g eqn:Hg. destruct Hm as [|g g1 g' Hm _]; [done|]. inversion Hm; naive_solver. Qed.
Lemma owner_moves_running c st g' :
  rtc owner_moves (Spawned c st) g' → st = TRunning ∨ st = TExited → ∃ c', g' = Spawned c' st.
Proof.
  intros Hm. remember (Spawned c st) as g eqn:Hg. revert c Hg.
  induction Hm as [g|g g1 g' Hm _ IH]; intros c -> Hst; [eauto|].
  inversion Hm; subst; [by eapply IH|naive_solver].
Qed.
(** Until the task's thread starts it finds itself not there, or running. *)
Definition not_started (g : stage) : Prop :=
  match g with Fresh | Filled => True | Spawned _ st => st = TRunning end.
Lemma owner_moves_not_started g g' : rtc owner_moves g g' → not_started g → not_started g'.
Proof. induction 1 as [|g g1 g' Hm _ IH]; [done|]. intros Hg. apply IH. by destruct Hm. Qed.

(** The task's thread has ended. *)
Definition task_over (g : stage) : Prop :=
  match g with Spawned _ st => st = TEnded ∨ st = TJoined | _ => False end.
Lemma owner_moves_over g g' : rtc owner_moves g g' → task_over g → task_over g'.
Proof. induction 1 as [|g g1 g' Hm _ IH]; [done|]. intros Hg. apply IH. destruct Hm; cbn in *; tauto. Qed.

Section task.
Context {N : Type} `{!Mcapi N}.
Context (task_code : Z → nat → nat → Z → list Z → Z → prog (system N) unit).
Context (pthread_ok : nat → bool) (malloc : gset Z → Z) (garbage : list Z) (fuel : nat).

(** The process [sv] before its first task, and what is asked of it. *)
Context (sv : nat) (s1 : mtapi) (x0 : local_task_descriptor) (xs : list local_task_descriptor).
Context (task_name input : list Z) (size : Z) (i : nat) (f : Z) (n : option (list Z)).
(** What the task answers to its input. *)
Context (answer : list Z → list Z) (ts : mtapi_task_status).

Definition task_thread : nat := S (length (threads s1)).
Definition task_input : list Z := take (Z.to_nat size) input.
Definition task_output : list Z := answer task_input.
Definition output_size : Z := Z.of_nat (length task_output).
Definition task_id : mtapi_task_descriptor :=
  mk_task (the_domain s1) (the_listener_node s1) (task_create_count s1).
Definition task_handle : Z := malloc (dom (heap s1)).

Record ready : Prop := {
  rd_instances : task_instances s1 = x0 :: xs;
  rd_count : task_instance_count s1 = 0%nat;
  rd_threads : mthread_initialized s1 = true;
  rd_name : find_impl task_name (task_impls s1) 0 = Done (Z.of_nat i);
  rd_impl : task_impls s1 !! i = Some (mk_impl n f);
  rd_code : f ≠ 0;
  rd_malloc : task_handle ≠ 0;
  rd_pthread : pthread_ok task_thread = true;
  rd_size : 0 <= size <= Z.of_nat (length input);
  rd_output : output_size <= MTAPI_MAX_RETURN_DATA_SIZE;
  rd_task : ∀ h, task_code f sv task_thread h task_input size =
    (let! _ := mine sv (mtapi_task_exit h task_output output_size ts) in Return tt) }.
Context (Hrd : ready).

(** The variables of the process at each stage. *)
Definition instance_at (g : stage) : local_task_descriptor :=
  let filled := x0 <| handle := task_handle |> <| task_impl := Some i |>
    <| input_data_size := size |> <| input_data := Some task_input |> in
  match g with
  | Fresh => x0
  | Filled => filled
  | Spawned _ st =>
      let x := filled <| thread := task_thread |> in
      if stored_result st then x <| return_data := Some task_output |>
        <| return_data_size := output_size |> <| status := ts |> else x
  end.
Definition process_at (g : stage) : mtapi :=
  match g with
  | Fresh => s1
  | _ => mk_mtapi (task_impls s1) (task_impl_count s1) (instance_at g :: xs)
      (match g with Spawned true _ => 1 | _ => 0 end)%nat (the_domain s1) (the_listener_node s1)
      (the_requester_node s1) (finalize_mcapi s1) (keep_listening s1) (listener s1)
      (listener_send_endpt s1) (listener_recv_endpt s1) (requester_send_endpt s1)
      (requester_recv_endpt s1) (i32 (task_create_count s1 + 1)) (mthread_initialized s1)
      (<[task_handle := task_id]> (heap s1))
      (match g with Spawned _ st => threads s1 ++ [(Dispatcher 0, os_state st)] | _ => threads s1 end)
  end.

Lemma process_impls g : task_impls (process_at g) = task_impls s1.
Proof using. by destruct g. Qed.
Lemma process_instances g : task_instances (process_at g) = instance_at g :: xs.
Proof using Hrd. destruct g; [apply (rd_instances Hrd)|done..]. Qed.
Lemma process_init g : mthread_initialized (process_at g) = true.
Proof using Hrd. pose proof (rd_threads Hrd). by destruct g. Qed.
Lemma process_thread g :
  thread_at task_thread (process_at g) =
  match g with Spawned _ st => Some (Dispatcher 0, os_state st) | _ => None end.
Proof using.
  unfold thread_at, task_thread. destruct g; [by apply lookup_ge_None_2..|cbn [process_at threads]].
  by rewrite lookup_app_r, Nat.sub_diag by done.
Qed.
Lemma process_set_thread c st st' :
  stored_result st = stored_result st' →
  set_thread_state task_thread (os_state st') (process_at (Spawned c st)) = process_at (Spawned c st').
Proof using.
  intros Hs. unfold set_thread_state, task_thread, process_at, set_field. cbn beta iota delta -[alter].
  f_equal; [by cbn; rewrite Hs|]. cbn [pred threads].
  rewrite alter_app_r_alt by lia. by rewrite Nat.sub_diag.
Qed.

(** The functions on these variables. *)
Lemma get_impl_at g :
  get_task_impl_idx task_name (process_at g) = Done (Z.of_nat i, process_at g).
Proof using Hrd.
  unfold get_task_impl_idx, bind, get, lift. by rewrite process_impls, (rd_name Hrd).
Qed.
Lemma fill_at :
  fill_instance malloc (Z.of_nat i) input size (process_at Fresh) = Done (0%nat, process_at Filled).
Proof using Hrd.
  unfold fill_instance, create_task_id, new_descriptor, bind, get, modify, ret. cbv beta iota.
  rewrite (copied_done _ _ _ (rd_size Hrd)). erewrite set_instance_done.
  2:{ cbn. by rewrite (rd_instances Hrd), (rd_count Hrd). }
  cbn. rewrite (rd_count Hrd). unfold process_at, set_field. cbn.
  by rewrite (rd_instances Hrd), (rd_count Hrd), Nat2Z.id.
Qed.
Lemma spawn_at :
  create_task_thread pthread_ok 0 (process_at Filled) = Done (MTHREAD_SUCCESS, process_at (Spawned false TRunning)).
Proof using Hrd.
  unfold create_task_thread, mthread_create, bind, get, modify, ret. rewrite process_init by done.
  cbn [negb]. change (S (length (threads (process_at Filled)))) with task_thread.
  rewrite (rd_pthread Hrd). by erewrite set_instance_done.
Qed.
Lemma created_at st :
  task_created MTHREAD_SUCCESS (process_at (Spawned false st)) = Done (task_handle, process_at (Spawned true st)).
Proof using Hrd.
  unfold task_created, arr_get, bind, get, modify, ret. cbn.
  by destruct st.
Qed.
Lemma deref_at c st : deref task_handle (process_at (Spawned c st)) = Done (task_id, process_at (Spawned c st)).
Proof using. unfold deref, bind, get. cbn. by rewrite lookup_insert_eq. Qed.
Lemma get_instance_at c st :
  get_task_instance_idx task_id (process_at (Spawned c st)) = Done (0, process_at (Spawned c st)).
Proof using Hrd.
  unfold get_task_instance_idx, bind, get, lift. rewrite process_instances by done.
  cbn [find_instance]. replace (handle (instance_at (Spawned c st))) with task_handle by by destruct st.
  cbn. by rewrite lookup_insert_eq, decide_True.
Qed.
Lemma exit_at c :
  mtapi_task_exit task_handle task_output output_size ts (process_at (Spawned c TRunning))
  = Done (MTAPI_SUCCESS, process_at (Spawned c TExited)).
Proof using Hrd.
  unfold mtapi_task_exit. rewrite (bind_done _ _ _ _ _ (deref_at c TRunning)).
  rewrite (bind_done _ _ _ _ _ (get_instance_at c TRunning)). cbn [Z.ltb Z.compare].
  pose proof (rd_output Hrd) as Ho. unfold output_size in *.
  destruct (Z.ltb_spec MTAPI_MAX_RETURN_DATA_SIZE (Z.of_nat (length task_output))); [lia|].
  erewrite bind_done; [|by apply copied_done; lia]. rewrite Nat2Z.id, firstn_all.
  by erewrite bind_done; [|by eapply set_instance_done].
Qed.
Lemma joined_at c :
  pthread_join task_thread (process_at (Spawned c TEnded)) = Done (Some MTHREAD_SUCCESS, process_at (Spawned c TJoined)).
Proof using Hrd.
  unfold pthread_join, bind, get, modify, ret. rewrite process_thread. cbv beta iota.
  by rewrite <- (process_set_thread c TEnded TJoined) by done.
Qed.

Lemma running_at c st :
  st = TRunning ∨ st = TExited →
  pthread_join task_thread (process_at (Spawned c st)) = Done (None, process_at (Spawned c st)).
Proof using.
  intros Hst. unfold pthread_join, bind, get, modify, ret. rewrite process_thread. by destruct Hst as [-> | ->].
Qed.
Lemma rejoined_at c :
  pthread_join task_thread (process_at (Spawned c TJoined)) = Done (Some MTHREAD_ERROR, process_at (Spawned c TJoined)).
Proof using. unfold pthread_join, bind, get, modify, ret. by rewrite process_thread. Qed.
Lemma return_at c :
  (let* d := arr_get task_instances 0 in return_of d) (process_at (Spawned c TJoined))
  = Done ((task_output, output_size), process_at (Spawned c TJoined)).
Proof using.
  unfold arr_get, return_of, copied_from, bind, get, from_option_oob. cbn.
  rewrite copied_done by (unfold output_size; lia). unfold output_size. by rewrite Nat2Z.id, firstn_all.
Qed.
Lemma dispatch_at c :
  (let* x := arr_get task_instances 0 in
   let* i := from_option_oob (task_impl x) in
   let* t := arr_get task_impls i in
   if impl t =? 0 then raise OutOfBounds else ret (impl t, x)) (process_at (Spawned c TRunning))
  = Done ((f, instance_at (Spawned c TRunning)), process_at (Spawned c TRunning)).
Proof using Hrd.
  unfold arr_get, bind, get, from_option_oob. cbn. rewrite (rd_impl Hrd). cbn.
  pose proof (rd_code Hrd) as Hf. by destruct (Z.eqb_spec f 0).
Qed.

(** ** The two threads

    [W] is the shared state with its ghost state, in which the variables of the
    process are those of a stage. *)

Section threads.
Context {W : Type} (real : W → system N) (stage_of : W → stage) (update : stage → W → W).
Context (R G : relation W) `{!PreOrder R} `{!Reflexive G}.
Context (real_process : ∀ w, procs (real w) !! sv = Some (process_at (stage_of w))).
Context (real_update : ∀ w g,
  mk_system (<[sv := process_at g]> (procs (real w))) (net (real w)) = real (update g w)).
Context (stage_update : ∀ w g, stage_of (update g w) = g).
(** What else is known of the state, which neither thread spoils. *)
Context (F : W → Prop) (F_rely : ∀ w w', R w w' → F w → F w').
Context (F_update : ∀ w g, F w → F (update g w)).
(** What the steps cost, and when a thread waits in vain. *)
Context (hope : Prop) (waits : W → Prop) (idle : relation W) (pot : W → nat) `{!Reflexive idle}.
Context (pot_update : ∀ w g, pot (update g w) = pot w).

Abbreviation lively t n p Q w := (live real R G hope waits idle pot t n p Q w).

Lemma live_read {A B} t b (m : M mtapi A) (k : A → prog (system N) B) Q w :
  (∀ w', R w w' → ∃ x, m (process_at (stage_of w')) = Done (x, process_at (stage_of w')) ∧
     lively t b (k x) Q w') →
  lively t (S b) (let! x := mine sv m in k x) Q w.
Proof using real_process Reflexive0.
  intros Hm. apply live_access. intros w' Hw. destruct (Hm w' Hw) as (x & Hx & Hk).
  exists x, w', b. split; [by eapply of_process_same|]. split; [done|].
  split; [intros _; by apply pays_one|]. eapply live_le; [exact Hk|lia|done].
Qed.
Lemma live_move {A B} t b (m : M mtapi A) (k : A → prog (system N) B) Q w :
  (∀ w', R w w' → ∃ x g, m (process_at (stage_of w')) = Done (x, process_at g) ∧
     G w' (update g w') ∧ lively t b (k x) Q (update g w')) →
  lively t (S b) (let! x := mine sv m in k x) Q w.
Proof using real_process real_update pot_update.
  intros Hm. apply live_access. intros w' Hw. destruct (Hm w' Hw) as (x & g & Hx & HG & Hk).
  exists x, (update g w'), b. split; [rewrite <- real_update; by eapply of_process_done|]. split; [done|].
  split; [intros _; by apply pays_one|]. eapply live_le; [exact Hk|lia|done].
Qed.

(** *** The thread that creates and joins the task *)

Section owner.
Context (rely : ∀ w w', R w w' → rtc task_moves (stage_of w) (stage_of w')).
Context (guarantee : ∀ w g, F w → owner_moves (stage_of w) g → G w (update g w)).
Context (owner_waits : ∀ w c st, F w → stage_of w = Spawned c st → st = TRunning ∨ st = TExited →
  hope → waits w).

Definition alive (w : W) : Prop := ∃ st, stage_of w = Spawned true st.
Lemma rely_early w w' g : R w w' → stage_of w = g → (∀ c st, g ≠ Spawned c st) → stage_of w' = g.
Proof using rely. intros Hw <- Hg. apply task_moves_early; [by apply rely|done]. Qed.
Lemma rely_spawned w w' c st :
  R w w' → stage_of w = Spawned c st → ∃ st', stage_of w' = Spawned c st'.
Proof using rely.
  intros Hw Hg. pose proof (rely _ _ Hw) as Hm. rewrite Hg in Hm.
  destruct (task_moves_spawned _ _ _ Hm) as (st' & Hst & _). by exists st'.
Qed.

Lemma start_live t m w :
  stage_of w = Fresh → F w →
  lively t (4 + m) (start_local_task pthread_ok malloc sv task_name input size)
    (λ m' h w', m' = m ∧ h = task_handle ∧ F w' ∧ alive w') w.
Proof using Hrd PreOrder0 Reflexive0 Reflexive1 real_process real_update stage_update F_rely F_update pot_update rely guarantee.
  intros Hg HF. apply live_read. intros w1 Hw1. exists (Z.of_nat i).
  split; [by apply get_impl_at|]. destruct (Z.leb_spec 0 (Z.of_nat i)); [|lia].
  apply live_move. intros w2 Hw2. assert (R w w2) as Hw by by etrans.
  assert (F w2) as HF2 by by eapply F_rely.
  assert (stage_of w2 = Fresh) as Hg2 by by eapply rely_early.
  exists 0%nat, Filled. rewrite Hg2. split; [by apply fill_at|].
  split; [apply guarantee; [done|rewrite Hg2; constructor]|].
  apply live_move. intros w3 Hw3. assert (F w3) as HF3 by (eapply F_rely; [exact Hw3|by apply F_update]).
  assert (stage_of w3 = Filled) as Hg3 by by eapply rely_early.
  exists MTHREAD_SUCCESS, (Spawned false TRunning). rewrite Hg3. split; [by apply spawn_at|].
  split; [apply guarantee; [done|rewrite Hg3; constructor]|].
  apply (live_move _ _ _ Return). intros w4 Hw4. assert (F w4) as HF4 by (eapply F_rely; [exact Hw4|by apply F_update]).
  destruct (rely_spawned _ _ false TRunning Hw4) as [st Hg4]; [done|].
  exists task_handle, (Spawned true st). rewrite Hg4. split; [by apply created_at|].
  split; [apply guarantee; [done|rewrite Hg4; constructor]|].
  apply live_return. intros w5 Hw5. split_and!; [done..| |by eapply rely_spawned].
  eapply F_rely; [exact Hw5|by apply F_update].
Qed.

Lemma wait_live t m w :
  (t <= fuel)%nat → alive w → F w →
  lively t (5 + m) (wait_local_task fuel sv task_id)
    (λ m' r w', m' = m ∧ r = (MTAPI_TASK_SUCCESS, task_output, output_size, MTAPI_SUCCESS) ∧ F w' ∧
       stage_of w' = Spawned true TJoined) w.
Proof using Hrd PreOrder0 Reflexive0 Reflexive1 real_process real_update stage_update F_rely F_update pot_update rely guarantee owner_waits.
  intros Ht [st Hg] HF. apply live_read. intros w1 Hw1.
  destruct (rely_spawned _ _ _ _ Hw1 Hg) as [st1 Hg1]. exists 0%nat. rewrite Hg1.
  split; [by rewrite (bind_done _ _ _ _ _ (get_instance_at true st1))|].
  apply live_read. intros w2 Hw2. destruct (rely_spawned _ _ _ _ Hw2 Hg1) as [st2 Hg2].
  exists task_thread. rewrite Hg2. split.
  { unfold arr_get, bind, get, from_option_oob. cbn. by destruct st2. }
  apply live_then; [apply _|]. unfold mthread_wait. apply live_read. intros w3 Hw3.
  destruct (rely_spawned _ _ _ _ Hw3 Hg2) as [st3 Hg3]. exists true.
  split; [unfold gets; by rewrite process_init|]. cbn [negb].
  apply (live_poll real R G hope waits idle pot (λ w, F w ∧ alive w)); [done| | |].
  - intros v v' Hv [HFv [stv Hgv]]. split; [by eapply F_rely|by eapply rely_spawned].
  - intros v [HFv [stv Hgv]].
    assert (∀ v', F v' → stage_of v' = Spawned true TJoined → ∀ v'', R v' v'' →
      lively t (1 + m) (let! (data, size) := mine sv (let* d := arr_get task_instances 0 in return_of d) in
              Return (MTAPI_TASK_SUCCESS, data, size, MTAPI_SUCCESS))
        (λ m' r w', m' = m ∧ r = (MTAPI_TASK_SUCCESS, task_output, output_size, MTAPI_SUCCESS) ∧ F w' ∧
           stage_of w' = Spawned true TJoined) v'') as Hrest.
    { intros v' HF' Hg' v'' Hv''. apply live_read. intros v3 Hv3.
      assert (R v' v3) as Hv by by etrans.
      assert (stage_of v3 = Spawned true TJoined) as Hg3'.
      { apply task_moves_after; [|by right]. rewrite <- Hg'. by apply rely. }
      exists (task_output, output_size). rewrite Hg3'. split; [by apply return_at|].
      apply live_return. intros v4 Hv4. split_and!; [done..| |].
      - eapply F_rely; [exact Hv4|]. by eapply F_rely.
      - apply task_moves_after; [|by right]. rewrite <- Hg3'. by apply rely. }
    assert (stv = TRunning ∨ stv = TExited ∨ stv = TEnded ∨ stv = TJoined) as [Hst|[Hst|[-> | ->]]]
      by (destruct stv; tauto).
    1,2: exists None, v; split; [eapply of_process_same; [done|]; rewrite Hgv; apply running_at; tauto|];
      split; [done|]; split; [split; [done|by eexists]|]; intros Hh;
      split_and!; [eapply owner_waits; [done..|tauto|done]|done|done].
    + exists (Some MTHREAD_SUCCESS), (update (Spawned true TJoined) v). split_and!.
      * rewrite <- real_update. eapply of_process_done; [done|]. rewrite Hgv. apply joined_at.
      * apply guarantee; [done|]. rewrite Hgv. constructor.
      * exists (1 + m)%nat. split; [intros _; by apply pays_one|]. apply Hrest; [by apply F_update|done].
    + exists (Some MTHREAD_ERROR), v. split_and!; [|done|].
      * eapply of_process_same; [done|]. rewrite Hgv. apply rejoined_at.
      * exists (1 + m)%nat. split; [intros _; by apply pays_one|]. by apply Hrest.
  - split; [|by eexists]. by apply (F_rely w2 w3), (F_rely w1 w2), (F_rely w w1).
Qed.

(** The same through the public functions, where the task is one of this process. *)
Lemma create_live t m w :
  stage_of w = Fresh → F w → size <= MTAPI_MAX_INPUT_DATA_SIZE →
  lively t (5 + m) (mtapi_create_task pthread_ok malloc garbage fuel sv (the_domain s1) (the_listener_node s1)
            task_name input size)
    (λ m' r w', m' = m ∧ r = (task_handle, MTAPI_SUCCESS) ∧ F w' ∧ alive w') w.
Proof using Hrd PreOrder0 Reflexive0 Reflexive1 real_process real_update stage_update F_rely F_update pot_update rely guarantee.
  intros Hg HF Hs. apply live_read. intros w1 Hw1.
  assert (stage_of w1 = Fresh) as Hg1 by by eapply rely_early.
  exists (process_at Fresh). rewrite Hg1. split; [done|].
  destruct (Z.ltb_spec MTAPI_MAX_INPUT_DATA_SIZE size); [lia|].
  cbn [process_at]. rewrite (rd_count Hrd), !Z.eqb_refl. cbn [Nat.leb MTAPI_MAX_INSTANCES MTAPI_MAX_TASKS andb].
  apply live_then; [apply _|]. eapply live_mono; [apply start_live; [done|by eapply F_rely]|].
  intros m' h w2 (-> & -> & HF2 & st & Hg2). apply live_return. intros w3 Hw3.
  pose proof (rd_malloc Hrd) as Hm. apply Z.eqb_neq in Hm. rewrite Hm. split_and!; [done..| |].
  - by eapply F_rely.
  - by eapply rely_spawned.
Qed.
Lemma task_wait_live t m w :
  (t <= fuel)%nat → alive w → F w →
  lively t (6 + m) (mtapi_task_wait garbage fuel sv task_handle)
    (λ m' r w', m' = m ∧ r = (MTAPI_TASK_SUCCESS, Some (task_output, output_size), MTAPI_SUCCESS) ∧ F w') w.
Proof using Hrd PreOrder0 Reflexive0 Reflexive1 real_process real_update stage_update F_rely F_update pot_update rely guarantee owner_waits.
  intros Ht [st Hg] HF. apply live_read. intros w1 Hw1.
  destruct (rely_spawned _ _ _ _ Hw1 Hg) as [st1 Hg1]. exists (task_id, process_at (Spawned true st1)).
  rewrite Hg1. split; [by rewrite (bind_done _ _ _ _ _ (deref_at true st1))|].
  cbn [domain node task_id process_at the_domain the_listener_node]. rewrite !Z.eqb_refl.
  apply live_then; [apply _|]. eapply live_mono; [apply wait_live; [done|by eexists|by eapply F_rely]|].
  intros m' r w2 (-> & -> & HF2 & _). apply live_return. intros w3 Hw3. split_and!; [done..|]. by eapply F_rely.
Qed.
End owner.

(** *** The task's own thread *)

Section worker.
Context (rely : ∀ w w', R w w' → rtc owner_moves (stage_of w) (stage_of w')).
Context (guarantee : ∀ w g, task_moves (stage_of w) g → G w (update g w)).
Context (worker_waits : ∀ w, (∀ c st, stage_of w ≠ Spawned c st) → hope → waits w).

Lemma rely_running w w' c st :
  R w w' → stage_of w = Spawned c st → st = TRunning ∨ st = TExited →
  ∃ c', stage_of w' = Spawned c' st.
Proof using rely. intros Hw Hg. pose proof (rely _ _ Hw) as Hm. rewrite Hg in Hm. by eapply owner_moves_running. Qed.

Lemma task_live t m w :
  (t <= fuel)%nat → not_started (stage_of w) →
  lively t (4 + m) (thread_main task_code pthread_ok malloc garbage fuel sv task_thread)
    (λ m' _ w', m' = m ∧ task_over (stage_of w')) w.
Proof using Hrd PreOrder0 Reflexive0 Reflexive1 real_process real_update stage_update pot_update rely guarantee worker_waits.
  intros Ht Hg. unfold thread_main. apply live_then; [apply _|].
  apply (live_poll real R G hope waits idle pot (λ w, not_started (stage_of w))); [done| | |done].
  { intros v v' Hv Hn. by eapply owner_moves_not_started; [apply rely|]. }
  intros v Hn. exists (match stage_of v with Spawned _ _ => Some (Dispatcher 0) | _ => None end), v.
  split; [|split; [done|]].
  { eapply of_process_same; [done|]. unfold started, bind, get, ret. rewrite process_thread.
    by destruct (stage_of v). }
  destruct (stage_of v) as [| |c st] eqn:Hv.
  1,2: split; [done|]; intros Hh; split_and!; [apply worker_waits; [by rewrite Hv|done]|done|done].
  cbn in Hn. subst st. exists (3 + m)%nat. split; [intros _; by apply pays_one|].
  intros v1 Hv1. apply live_then; [apply _|]. apply live_read. intros v2 Hv2.
  destruct (rely_running v v2 c TRunning) as [c2 Hg2]; [by etrans|done|by left|].
  exists (f, instance_at (Spawned c2 TRunning)). rewrite Hg2. split; [by apply dispatch_at|].
  cbn [handle input_data input_data_size instance_at default]. rewrite (rd_task Hrd).
  apply live_move. intros v3 Hv3.
  destruct (rely_running v2 v3 c2 TRunning) as [c3 Hg3]; [done..|by left|].
  exists MTAPI_SUCCESS, (Spawned c3 TExited). rewrite Hg3. split; [by apply exit_at|].
  split; [apply guarantee; rewrite Hg3; constructor|].
  apply live_return. intros v4 Hv4. apply (live_move _ _ _ Return). intros v5 Hv5.
  destruct (rely_running (update (Spawned c3 TExited) v3) v5 c3 TExited) as [c5 Hg5];
    [by etrans|done|by right|].
  exists tt, (Spawned c5 TEnded). rewrite Hg5. split.
  { unfold modify. by rewrite <- (process_set_thread c5 TExited TEnded). }
  split; [apply guarantee; rewrite Hg5; constructor|].
  apply live_return. intros v6 Hv6. split; [done|].
  eapply owner_moves_over; [by apply rely|]. rewrite stage_update. by left.
Qed.
End worker.
End threads.
End task.
