(* ===== verification/MtapiRemote.v ===== *)
(** Tasks of another process (MTAPI): what a command or reply carries, the laws of
    the messages between the processes, and the protocol between the thread that
    asks and the listener that answers. *)

From S2P Require Import Prelude Bytes McapiTypes LockfreeProg Mtapi MtapiTasks.

(** ** Members of a struct *)

Definition member (off len : nat) (b : list Z) : list Z := take len (drop off b).
Definition with_member (off : nat) (l b : list Z) : list Z := take off b ++ l ++ drop (off + length l) b.

Lemma put_done off l b :
  (off + length l <= length b)%nat → put off l b = Done (tt, with_member off l b).
Proof. intros H. unfold put. by destruct (Nat.leb_spec (off + length l) (length b)); [|lia]. Qed.
Lemma length_with_member off l b :
  (off + length l <= length b)%nat → length (with_member off l b) = length b.
Proof. intros H. unfold with_member. rewrite !length_app, length_take, length_drop. lia. Qed.
Lemma member_same off l b :
  (off + length l <= length b)%nat → member off (length l) (with_member off l b) = l.
Proof.
  intros H. unfold member, with_member. rewrite drop_app_length' by (rewrite length_take; lia).
  by rewrite take_app_length.
Qed.
Lemma member_before off len off' l b :
  (off + len <= off')%nat → (off' + length l <= length b)%nat →
  member off len (with_member off' l b) = member off len b.
Proof.
  intros Hd H. unfold member, with_member. rewrite drop_app_le by (rewrite length_take; lia).
  rewrite take_app_le by (rewrite length_drop, length_take; lia).
  by rewrite !take_drop_commute, take_take, Nat.min_l by lia.
Qed.
Lemma member_after off len off' l b :
  (off' + length l <= off)%nat → (off' + length l <= length b)%nat →
  member off len (with_member off' l b) = member off len b.
Proof.
  intros Hd H. unfold member, with_member. rewrite drop_app_ge by (rewrite length_take; lia).
  rewrite length_take, Nat.min_l by lia. rewrite drop_app_ge by lia. rewrite drop_drop.
  f_equal. f_equal. lia.
Qed.
Lemma unsigned_member off b : unsigned_at off b = le_value (member off 4 b).
Proof. done. Qed.
Lemma word_length z : length (word z) = 4%nat.
Proof. apply le_bytes_length. Qed.
Lemma word_value z : 0 <= z < 2 ^ 32 → le_value (word z) = z.
Proof. intros Hz. unfold word. rewrite le_value_bytes. by apply Z.mod_small. Qed.
Lemma word_int z : - 2 ^ 31 <= z < 2 ^ 31 → i32 (le_value (word z)) = z.
Proof.
  intros Hz. unfold word, i32. rewrite le_value_bytes. change (8 * Z.of_nat 4) with 32.
  rewrite Z.mod_mod by done. destruct (Z.leb_spec 0 z).
  - rewrite Z.mod_small by lia. by destruct (Z.ltb_spec z (2 ^ 31)); [|lia].
  - replace (z mod 2 ^ 32) with (z + 2 ^ 32).
    + destruct (Z.ltb_spec (z + 2 ^ 32) (2 ^ 31)); lia.
    + symmetry. rewrite <- (Z_mod_plus_full z 1), Z.mul_1_l. apply Z.mod_small. lia.
Qed.
Lemma c_string_done l rest : Forall (λ c, c ≠ 0) l → c_string (l ++ 0 :: rest) = Done l.
Proof.
  induction 1 as [|c l Hc _ IH]; [done|]. cbn. apply Z.eqb_neq in Hc. by rewrite Hc, IH.
Qed.
Lemma member_split off len b : drop off b = member off len b ++ drop (off + len) b.
Proof. unfold member. by rewrite <- drop_drop, take_drop. Qed.

(** A descriptor that fits its three words. *)
Record descriptor_ok (t : mtapi_task_descriptor) : Prop := {
  do_domain : 0 <= domain t < 2 ^ 32;
  do_node : 0 <= node t < 2 ^ 32;
  do_task : - 2 ^ 31 <= task t < 2 ^ 31 }.
Lemma descriptor_length t : length (descriptor_bytes t) = 12%nat.
Proof. unfold descriptor_bytes. by rewrite !length_app, !word_length. Qed.
Lemma member_member off len off' len' b :
  (off' + len' <= len)%nat → member off' len' (member off len b) = member (off + off') len' b.
Proof.
  intros H. unfold member.
  by rewrite take_drop_commute, take_take, Nat.min_l, <- take_drop_commute, drop_drop by lia.
Qed.
Lemma descriptor_read off t b :
  descriptor_ok t → member off 12 b = descriptor_bytes t → descriptor_at off b = t.
Proof.
  intros [Hd Hn Ht] Hb. unfold descriptor_at, int_at. rewrite !unsigned_member.
  rewrite <- (Nat.add_0_r off) at 1. rewrite <- !(member_member off 12) by lia. rewrite Hb.
  assert (member 0 4 (descriptor_bytes t) = word (domain t)) as ->.
  { unfold member, descriptor_bytes. cbn [drop]. apply take_app_length'. by rewrite word_length. }
  assert (member 4 4 (descriptor_bytes t) = word (node t)) as ->.
  { unfold member, descriptor_bytes. rewrite drop_app_length' by by rewrite word_length.
    apply take_app_length'. by rewrite word_length. }
  assert (member 8 4 (descriptor_bytes t) = word (task t)) as ->.
  { unfold member, descriptor_bytes. rewrite app_assoc, drop_app_length' by by rewrite length_app, !word_length.
    apply take_ge. by rewrite word_length. }
  rewrite !word_value, word_int by done. by destruct t.
Qed.

(** Writing members one after the other. *)
Lemma put_then {A} off l b (k : unit → M (list Z) A) :
  (off + length l <= length b)%nat → bind (put off l) k b = k tt (with_member off l b).
Proof. intros H. by rewrite (bind_done _ _ _ _ _ (put_done _ _ _ H)). Qed.
Lemma member_same' off len l b :
  len = length l → (off + length l <= length b)%nat → member off len (with_member off l b) = l.
Proof. intros ->. apply member_same. Qed.
Lemma unsigned_word off z b : member off 4 b = word z → 0 <= z < 2 ^ 32 → unsigned_at off b = z.
Proof. intros Hb Hz. rewrite unsigned_member, Hb. by apply word_value. Qed.
Lemma int_word off z b : member off 4 b = word z → - 2 ^ 31 <= z < 2 ^ 31 → int_at off b = z.
Proof. intros Hb Hz. unfold int_at. rewrite unsigned_member, Hb. by apply word_int. Qed.
Lemma data_member off l b : member off (length l) b = l → take (length l) (drop off b) = l.
Proof. done. Qed.
Lemma string_member off l b :
  member off (length l + 1) b = l ++ [0] → Forall (λ c, c ≠ 0) l → c_string (drop off b) = Done l.
Proof. intros Hb Hl. rewrite (member_split off (length l + 1)), Hb, <- app_assoc. by apply c_string_done. Qed.

(** The arithmetic of members. *)
Ltac room :=
  repeat rewrite length_with_member by room;
  rewrite ?length_app, ?word_length, ?descriptor_length, ?length_take;
  cbn [length] in *; unfold cmd_at, from_domain_at, from_node_at, cmd_size_at, task_name_at,
    cmd_data_at, reply_at, task_at, reply_size_at, reply_data_at, struct_size in *; lia.
Ltac read_member :=
  repeat first
    [ rewrite member_before by room | rewrite member_after by room ];
  try (apply member_same'; room).

Section structs.
Context (garbage : list Z) (Hgarbage : length garbage = struct_size).

(** What the listener finds in the command to create a task. *)
Record create_cmd_carries (s : mtapi) (task_name data : list Z) (cmd : list Z) : Prop := {
  cc_length : length cmd = struct_size;
  cc_cmd : unsigned_at cmd_at cmd = cmd_word MTAPI_CMD_CREATE_TASK;
  cc_domain : unsigned_at from_domain_at cmd = the_domain s;
  cc_node : unsigned_at from_node_at cmd = the_requester_node s;
  cc_name : c_string (drop task_name_at cmd) = Done task_name;
  cc_size : int_at cmd_size_at cmd = Z.of_nat (length data);
  cc_data : take (length data) (drop cmd_data_at cmd) = data }.
Definition address_ok (s : mtapi) : Prop :=
  0 <= the_domain s < 2 ^ 32 ∧ 0 <= the_requester_node s < 2 ^ 32 ∧ 0 <= the_listener_node s < 2 ^ 32.

Lemma create_cmd_done s task_name input size :
  address_ok s → Forall (λ c, c ≠ 0) task_name →
  (length task_name <= MTAPI_MAX_TASK_NAME_LENGTH)%nat →
  0 <= size <= Z.of_nat (length input) → size < MTAPI_MAX_INPUT_DATA_SIZE →
  ∃ cmd, create_cmd s task_name input size garbage = Done (tt, cmd) ∧
    create_cmd_carries s task_name (take (Z.to_nat size) input) cmd.
Proof using Hgarbage.
  intros (Hd & Hn & _) Hname Hlen Hsize Hmax. unfold MTAPI_MAX_TASK_NAME_LENGTH in Hlen.
  change MTAPI_MAX_INPUT_DATA_SIZE with 975 in Hmax. unfold create_cmd.
  set (data := take (Z.to_nat size) input).
  assert (length data = Z.to_nat size) as Hdata by (unfold data; rewrite length_take; lia).
  rewrite !put_then by room. erewrite bind_done by by apply copied_done.
  fold data. rewrite put_then by room. rewrite put_done by room.
  eexists. split; [done|]. split.
  - room.
  - apply unsigned_word; [read_member|done].
  - apply unsigned_word; [read_member|done].
  - apply unsigned_word; [read_member|done].
  - apply string_member; [read_member|done].
  - apply int_word; [|lia]. rewrite Hdata, Z2Nat.id by lia. read_member.
  - apply data_member. read_member.
Qed.

(** ... in the command to wait for a task ... *)
Record wait_cmd_carries (s : mtapi) (t : mtapi_task_descriptor) (cmd : list Z) : Prop := {
  wc_length : length cmd = struct_size;
  wc_cmd : unsigned_at cmd_at cmd = cmd_word MTAPI_CMD_WAIT_TASK;
  wc_domain : unsigned_at from_domain_at cmd = the_domain s;
  wc_node : unsigned_at from_node_at cmd = the_requester_node s;
  wc_task : descriptor_at cmd_data_at cmd = t }.
Lemma wait_cmd_done s t :
  address_ok s → descriptor_ok t →
  ∃ cmd, wait_cmd s t garbage = Done (tt, cmd) ∧ wait_cmd_carries s t cmd.
Proof using Hgarbage.
  intros (Hd & Hn & _) Ht. unfold wait_cmd. rewrite !put_then by room. rewrite put_done by room.
  eexists. split; [done|]. split.
  - room.
  - apply unsigned_word; [read_member|done].
  - apply unsigned_word; [read_member|done].
  - apply unsigned_word; [read_member|done].
  - apply descriptor_read; [done|]. read_member.
Qed.

(** ... and what the other side finds in the replies. *)
Lemma start_reply_done s t :
  descriptor_ok t →
  ∃ reply, start_reply s (Some t) garbage = Done (tt, reply) ∧ length reply = struct_size ∧
    is_nack reply = false ∧ descriptor_at task_at reply = t.
Proof using Hgarbage.
  intros Ht. unfold start_reply. rewrite !put_then by room. rewrite put_done by room.
  eexists. split; [done|]. split; [room|]. split.
  - unfold is_nack. erewrite unsigned_word; [|read_member|by split]. done.
  - apply descriptor_read; [done|]. read_member.
Qed.
Lemma wait_reply_done s cmd data :
  Z.of_nat (length data) <= MTAPI_MAX_RETURN_DATA_SIZE →
  ∃ reply, wait_reply s MTAPI_REPLY_ACK cmd data (Z.of_nat (length data)) garbage = Done (tt, reply) ∧
    length reply = struct_size ∧ is_nack reply = false ∧
    int_at reply_size_at reply = Z.of_nat (length data) ∧
    take (length data) (drop reply_data_at reply) = data.
Proof using Hgarbage.
  change MTAPI_MAX_RETURN_DATA_SIZE with 1004. intros Hmax. unfold wait_reply.
  rewrite !put_then by room. erewrite bind_done by (apply copied_done; lia).
  rewrite Nat2Z.id, firstn_all, put_done by room.
  eexists. split; [done|]. split; [room|]. split_and!.
  - unfold is_nack. erewrite unsigned_word; [|read_member|by split]. done.
  - apply int_word; [|lia]. read_member.
  - apply data_member. read_member.
Qed.
End structs.

(** ** The laws of the messages

    [waiting] are the messages that wait at each endpoint, [pending] the receives
    that were posted, [directory] the endpoints by domain, node and port.  A send
    appends a message or is refused; an endpoint where no receive is pending takes
    one, which is done as soon as a message is there, with the first one. *)

Class McapiLaws (N : Type) `{!Mcapi N} := {
  network_ok : N → Prop;
  waiting : N → gmap Z (list (list Z));
  pending : N → gmap Z Z;
  directory : N → gmap (Z * Z * Z) Z;
  look_finds s d n p e : network_ok s → directory s !! (d, n, p) = Some e →
    mcapi_endpoint_look d n p s = Done (Some (e, MCAPI_SUCCESS), s);
  send_appends s from to msg :
    network_ok s → is_Some (waiting s !! from) → is_Some (waiting s !! to) →
    (length msg <= MCAPI_MAX_MSG_SIZE)%nat →
    ∃ st s', mcapi_msg_send from to msg s = Done (st, s') ∧ network_ok s' ∧
      directory s' = directory s ∧ pending s' = pending s ∧
      waiting s' = if st =? MCAPI_SUCCESS then alter (λ ms, ms ++ [msg]) to (waiting s) else waiting s;
  receive_posts s e :
    network_ok s → is_Some (waiting s !! e) → (∀ r, pending s !! r ≠ Some e) →
    ∃ r s', mcapi_msg_recv_i e (Z.of_nat MCAPI_MAX_MSG_SIZE) s = Done ((r, MCAPI_SUCCESS), s') ∧
      network_ok s' ∧ directory s' = directory s ∧ waiting s' = waiting s ∧
      pending s !! r = None ∧ pending s' = <[r := e]> (pending s);
  test_answers s r e msgs :
    network_ok s → pending s !! r = Some e → waiting s !! e = Some msgs →
    ∃ done r' bytes st s', mcapi_test r s = Done ((done, r', bytes, st), s') ∧ network_ok s' ∧
      directory s' = directory s ∧
      match msgs with
      | [] => done = false ∧ r' = r ∧ waiting s' = waiting s ∧ pending s' = pending s
      | msg :: msgs => done = true ∧ bytes = msg ∧ st = MCAPI_SUCCESS ∧
          waiting s' = <[e := msgs]> (waiting s) ∧ pending s' = delete r (pending s)
      end }.

(** ** A client and a listener *)

Inductive kind := Create | Wait.
(** Where the exchange is: nothing asked, a command under way, the listener works
    on it, a reply under way. *)
Inductive phase := Calm | Asked (k : kind) | Serving (k : kind) | Answered (k : kind).

Section protocol.
Context {N : Type} `{McapiLaws N}.
Context (task_code : Z → nat → nat → Z → list Z → Z → prog (system N) unit).
Context (pthread_ok : nat → bool) (malloc : gset Z → Z) (garbage : list Z) (fuel : nat).
(** The process [cl] asks, [sv] serves. *)
Context (ps : list mtapi) (cl sv : nat) (c0 s1 : mtapi).
Context (task_name input : list Z) (size : Z) (i : nat) (f : Z) (n : option (list Z)).
Context (x0 : local_task_descriptor) (xs : list local_task_descriptor).
Context (answer : list Z → list Z) (ts : mtapi_task_status).

Definition message_of (m : M (list Z) unit) : list Z :=
  match m garbage with Done (_, b) => b | Fault _ => [] end.
Definition create_command : list Z := message_of (create_cmd c0 task_name input size).

(** The listener's task gets the bytes of the command. *)
Abbreviation sv_input := (drop cmd_data_at create_command).
Abbreviation process := (process_at malloc s1 x0 xs sv_input size i answer ts).
Abbreviation output := (task_output sv_input size answer).

Record parties : Prop := {
  pa_distinct : cl ≠ sv;
  pa_client : ps !! cl = Some c0;
  pa_server : ps !! sv = Some s1;
  pa_garbage : length garbage = struct_size;
  pa_client_ok : address_ok c0;
  pa_server_ok : address_ok s1;
  pa_elsewhere : (the_domain s1, the_listener_node s1) ≠ (the_domain c0, the_listener_node c0);
  pa_count : (task_instance_count c0 < MTAPI_MAX_INSTANCES)%nat;
  pa_listening : keep_listening s1 = true;
  pa_task : - 2 ^ 31 <= task_create_count s1 < 2 ^ 31;
  pa_name : Forall (λ c, c ≠ 0) task_name;
  pa_name_length : (length task_name <= MTAPI_MAX_TASK_NAME_LENGTH)%nat;
  pa_size : 0 <= size <= Z.of_nat (length input);
  pa_size_max : size < MTAPI_MAX_INPUT_DATA_SIZE;
  pa_malloc : ∀ D, malloc D ≠ 0;
  pa_ends : listener_recv_endpt s1 ≠ requester_recv_endpt c0;
  pa_ready : ready task_code pthread_ok malloc sv s1 x0 xs task_name sv_input size i f n answer ts }.
Context (Hpa : parties).

(** The shared state, with where the exchange is, the pending receives and whether
    the client has its handle. *)
Record exchange := mk_exchange {
  w_stage : stage;
  w_phase : phase;
  w_handle : bool;
  w_client : option Z;
  w_listener : option Z;
  w_net : N }.
Definition client_at (b : bool) : mtapi :=
  if b then c0 <| heap ::= <[malloc (dom (heap c0)) := task_id s1]> |> else c0.
Definition real (w : exchange) : system N :=
  mk_system (<[cl := client_at (w_handle w)]> (<[sv := process (w_stage w)]> ps)) (w_net w).

Definition command_of (k : kind) : list Z :=
  match k with Create => create_command | Wait => message_of (wait_cmd c0 (task_id s1)) end.
Definition reply_of (k : kind) : list Z :=
  match k with
  | Create => message_of (start_reply s1 (Some (task_id s1)))
  | Wait => message_of (wait_reply s1 MTAPI_REPLY_ACK (command_of Wait) output (Z.of_nat (length output)))
  end.
Abbreviation asked_at := (listener_recv_endpt s1).
Abbreviation answered_at := (requester_recv_endpt c0).

Definition task_made (g : stage) : Prop := ∃ st, g = Spawned true st.
Record exchange_ok (w : exchange) : Prop := {
  ex_net : network_ok (w_net w);
  ex_listener : directory (w_net w) !! (the_domain s1, the_listener_node s1, listener_recv_port) = Some asked_at;
  ex_requester : directory (w_net w) !! (the_domain c0, the_requester_node c0, requester_recv_port) = Some answered_at;
  ex_asked : waiting (w_net w) !! asked_at = Some (match w_phase w with Asked k => [command_of k] | _ => [] end);
  ex_answered : waiting (w_net w) !! answered_at = Some (match w_phase w with Answered k => [reply_of k] | _ => [] end);
  ex_from : is_Some (waiting (w_net w) !! requester_send_endpt c0);
  ex_to : is_Some (waiting (w_net w) !! listener_send_endpt s1);
  ex_pending_listener : ∀ r, pending (w_net w) !! r = Some asked_at ↔ w_listener w = Some r;
  ex_pending_client : ∀ r, pending (w_net w) !! r = Some answered_at ↔ w_client w = Some r;
  ex_stage : match w_phase w with
             | Asked Wait | Answered _ => task_made (w_stage w)
             | _ => True
             end;
  ex_fresh : w_phase w = Asked Create → w_stage w = Fresh }.

(** What each thread may do. *)
Definition keeps_ok (w w' : exchange) : Prop := exchange_ok w → exchange_ok w'.
Definition client_phase (p p' : phase) : Prop :=
  p' = p ∨ (p = Calm ∧ ∃ k, p' = Asked k) ∨ (p' = Calm ∧ ∃ k, p = Answered k).
Definition listener_phase (p p' : phase) : Prop :=
  p' = p ∨ (∃ k, p = Asked k ∧ p' = Serving k) ∨ (∃ k, p = Serving k ∧ p' = Answered k).
Definition client_step (w w' : exchange) : Prop :=
  keeps_ok w w' ∧ w_stage w' = w_stage w ∧ w_listener w' = w_listener w ∧
  client_phase (w_phase w) (w_phase w').
Definition listener_step (w w' : exchange) : Prop :=
  keeps_ok w w' ∧ w_handle w' = w_handle w ∧ w_client w' = w_client w ∧
  ((w_stage w' = w_stage w ∧ listener_phase (w_phase w) (w_phase w')) ∨
   ((∃ k, w_phase w = Serving k) ∧ w_phase w' = w_phase w ∧ owner_moves (w_stage w) (w_stage w'))).
Definition task_step (w w' : exchange) : Prop :=
  keeps_ok w w' ∧ w_handle w' = w_handle w ∧ w_client w' = w_client w ∧ w_listener w' = w_listener w ∧
  w_phase w' = w_phase w ∧ (w_stage w' = w_stage w ∨ task_moves (w_stage w) (w_stage w')).

Definition client_rely : relation exchange := rtc (λ w w', listener_step w w' ∨ task_step w w').
Definition listener_rely : relation exchange := rtc (λ w w', client_step w w' ∨ task_step w w').
Definition task_rely : relation exchange := rtc (λ w w', client_step w w' ∨ listener_step w w').

(** What a thread pays for its steps, and when it waits for the others: the client
    for a reply, the listener for a command or the end of the task, the task for
    its start.  A command carries what serving it costs.  The threads are only sure
    to go on where the network accepts every message. *)
Definition accepting : Prop := ∀ s from to msg st s',
  network_ok s → is_Some (waiting s !! from) → is_Some (waiting s !! to) →
  mcapi_msg_send from to msg s = Done (st, s') → st = MCAPI_SUCCESS.
Definition client_waits (w : exchange) : Prop :=
  match w_phase w with Asked _ | Serving _ => True | _ => False end.
Definition joining (g : stage) : Prop :=
  match g with Spawned _ (TRunning | TExited) => True | _ => False end.
Definition listener_waits (w : exchange) : Prop :=
  match w_phase w with
  | Calm | Answered _ => True
  | Serving Wait => joining (w_stage w)
  | _ => False
  end.
Definition task_waits (w : exchange) : Prop := ∀ c st, w_stage w ≠ Spawned c st.
Definition idle (w w' : exchange) : Prop := w_stage w' = w_stage w ∧ w_phase w' = w_phase w.
Definition serving_cost : nat := 14.
Definition pot (w : exchange) : nat := match w_phase w with Asked _ => serving_cost | _ => 0 end.

(** *** What a thread relies on *)

Lemma client_relies w w' :
  client_rely w w' → exchange_ok w →
  exchange_ok w' ∧ w_handle w' = w_handle w ∧ w_client w' = w_client w ∧
  match w_phase w with
  | Calm => w_phase w' = Calm ∧ rtc task_moves (w_stage w) (w_stage w')
  | Answered k => w_phase w' = Answered k
  | Asked k | Serving k => w_phase w' = Asked k ∨ w_phase w' = Serving k ∨ w_phase w' = Answered k
  end.
Proof using.
  induction 1 as [w|w w1 w' Hs _ IH]; intros Hok.
  { split_and!; try done. destruct (w_phase w); naive_solver. }
  assert (exchange_ok w1) as Hok1 by (destruct Hs as [[Hk _]|[Hk _]]; by apply Hk).
  destruct (IH Hok1) as (Hok' & -> & -> & Hph). split; [done|].
  destruct Hs as [(_ & Hh & Hc & Hp)|(_ & Hh & Hc & _ & Hp & Hg)].
  - split; [done|]. split; [done|].
    assert (match w_phase w with
            | Calm => w_phase w1 = Calm ∧ w_stage w1 = w_stage w
            | Asked k => w_phase w1 = Asked k ∨ w_phase w1 = Serving k
            | Serving k => w_phase w1 = Serving k ∨ w_phase w1 = Answered k
            | Answered k => w_phase w1 = Answered k
            end) as Hone by (unfold listener_phase in Hp; destruct (w_phase w); naive_solver).
    destruct (w_phase w).
    + destruct Hone as [E <-]. by rewrite E in Hph.
    + destruct Hone as [E|E]; rewrite E in Hph; tauto.
    + destruct Hone as [E|E]; rewrite E in Hph; tauto.
    + by rewrite Hone in Hph.
  - split; [done|]. split; [done|]. rewrite Hp in Hph. destruct (w_phase w); try done.
    destruct Hph as [Hph Ht]. split; [done|].
    destruct Hg as [Hg|Hg]; [by rewrite <- Hg|by eapply rtc_l].
Qed.
Lemma listener_relies w w' :
  listener_rely w w' →
  (exchange_ok w → exchange_ok w') ∧ w_listener w' = w_listener w ∧
  rtc task_moves (w_stage w) (w_stage w') ∧
  (∀ k, w_phase w = Serving k ↔ w_phase w' = Serving k) ∧
  (∀ k, w_phase w = Asked k → w_phase w' = Asked k).
Proof using.
  induction 1 as [w|w w1 w' Hs _ (Hok & Hl & Hg & Hph & Has)]; [done|].
  destruct Hs as [(Hk & Hg1 & Hl1 & Hp)|(Hk & _ & _ & Hl1 & Hp & Hg1)].
  - split; [auto|]. split; [congruence|]. split; [by rewrite <- Hg1|].
    split; [intros k; rewrite <- Hph|intros k Hw; apply Has]; unfold client_phase in Hp; naive_solver congruence.
  - split; [auto|]. split; [congruence|]. split; [|by rewrite <- Hp].
    destruct Hg1 as [Hg1|Hg1]; [by rewrite <- Hg1|by eapply rtc_l].
Qed.
Lemma task_relies w w' : task_rely w w' → rtc owner_moves (w_stage w) (w_stage w').
Proof using.
  induction 1 as [w|w w1 w' Hs _ IH]; [done|].
  destruct Hs as [(_ & Hg & _)|(_ & _ & _ & [[Hg _]|(_ & _ & Hg)])].
  - by rewrite <- Hg.
  - by rewrite <- Hg.
  - by eapply rtc_l.
Qed.

(** *** How the exchange goes on *)

(** The same with another phase, other pending receives and another network. *)
Definition exchanged (p : phase) (c l : option Z) (net' : N) (w : exchange) : exchange :=
  mk_exchange (w_stage w) p (w_handle w) c l net'.

Definition askable (k : kind) (g : stage) : Prop :=
  match k with Create => g = Fresh | Wait => task_made g end.
Lemma alter_some (e e' : Z) (g : list (list Z) → list (list Z)) (m : gmap Z (list (list Z))) :
  is_Some (m !! e) → is_Some (alter g e' m !! e).
Proof using. intros Hm. rewrite lookup_alter_is_Some. done. Qed.

Lemma ask_ok k w net' :
  w_phase w = Calm → askable k (w_stage w) → network_ok net' →
  directory net' = directory (w_net w) → pending net' = pending (w_net w) →
  waiting net' = alter (λ ms, ms ++ [command_of k]) asked_at (waiting (w_net w)) →
  exchange_ok w → exchange_ok (exchanged (Asked k) (w_client w) (w_listener w) net' w).
Proof using Hpa.
  intros Hp Hk Hn Hd Hpe Hw []. rewrite Hp in *. pose proof (pa_ends Hpa) as Hne.
  split; cbn; rewrite ?Hd, ?Hpe, ?Hw; try done.
  - by rewrite lookup_alter_eq, ex_asked0.
  - by rewrite lookup_alter_ne.
  - by apply alter_some.
  - by apply alter_some.
  - by destruct k.
  - by intros [= ->].
Qed.
Lemma answer_ok k w net' :
  w_phase w = Serving k → task_made (w_stage w) → network_ok net' →
  directory net' = directory (w_net w) → pending net' = pending (w_net w) →
  waiting net' = alter (λ ms, ms ++ [reply_of k]) answered_at (waiting (w_net w)) →
  exchange_ok w → exchange_ok (exchanged (Answered k) (w_client w) (w_listener w) net' w).
Proof using Hpa.
  intros Hp Hk Hn Hd Hpe Hw []. rewrite Hp in *. pose proof (pa_ends Hpa) as Hne.
  split; cbn; rewrite ?Hd, ?Hpe, ?Hw; try done.
  - by rewrite lookup_alter_ne.
  - by rewrite lookup_alter_eq, ex_answered0.
  - by apply alter_some.
  - by apply alter_some.
Qed.
(** A receive that was posted or taken back, by the one who waits at [e]. *)
Lemma post_pending (m : gmap Z Z) e r o :
  m !! r = None → (∀ r', m !! r' = Some e ↔ o = Some r') → o = None →
  ∀ r', <[r := e]> m !! r' = Some e ↔ Some r = Some r'.
Proof using.
  intros Hr Hm -> r'. destruct (decide (r = r')) as [->|Hne]; [by rewrite lookup_insert_eq|].
  rewrite lookup_insert_ne, Hm by done. naive_solver.
Qed.
Lemma post_pending_ne (m : gmap Z Z) e e' r o :
  e ≠ e' → m !! r = None → (∀ r', m !! r' = Some e ↔ o = Some r') →
  ∀ r', <[r := e']> m !! r' = Some e ↔ o = Some r'.
Proof using.
  intros He Hr Hm r'. rewrite <- Hm. destruct (decide (r = r')) as [->|Hne].
  - rewrite lookup_insert_eq. naive_solver.
  - by rewrite lookup_insert_ne.
Qed.
Lemma take_pending (m : gmap Z Z) e r o :
  (∀ r', m !! r' = Some e ↔ o = Some r') → o = Some r →
  ∀ r', delete r m !! r' = Some e ↔ None = Some r'.
Proof using.
  intros Hm -> r'. rewrite lookup_delete_Some, Hm. naive_solver.
Qed.
Lemma take_pending_ne (m : gmap Z Z) e e' r o :
  e ≠ e' → m !! r = Some e' → (∀ r', m !! r' = Some e ↔ o = Some r') →
  ∀ r', delete r m !! r' = Some e ↔ o = Some r'.
Proof using.
  intros He Hr Hm r'. rewrite lookup_delete_Some, <- Hm. naive_solver.
Qed.

Lemma same_ok w net' :
  network_ok net' → directory net' = directory (w_net w) → pending net' = pending (w_net w) →
  waiting net' = waiting (w_net w) →
  exchange_ok w → exchange_ok (exchanged (w_phase w) (w_client w) (w_listener w) net' w).
Proof using. intros Hn Hd Hp Hw []. split; cbn; rewrite ?Hd, ?Hp, ?Hw; done. Qed.
Lemma client_posts_ok w r net' :
  w_client w = None → pending (w_net w) !! r = None → network_ok net' →
  directory net' = directory (w_net w) → waiting net' = waiting (w_net w) →
  pending net' = <[r := answered_at]> (pending (w_net w)) →
  exchange_ok w → exchange_ok (exchanged (w_phase w) (Some r) (w_listener w) net' w).
Proof using Hpa.
  intros Hc Hr Hn Hd Hw Hp []. pose proof (pa_ends Hpa). split; cbn; rewrite ?Hd, ?Hp, ?Hw; try done.
  - by apply post_pending_ne.
  - by eapply post_pending.
Qed.
Lemma listener_posts_ok w r net' :
  w_listener w = None → pending (w_net w) !! r = None → network_ok net' →
  directory net' = directory (w_net w) → waiting net' = waiting (w_net w) →
  pending net' = <[r := asked_at]> (pending (w_net w)) →
  exchange_ok w → exchange_ok (exchanged (w_phase w) (w_client w) (Some r) net' w).
Proof using Hpa.
  intros Hc Hr Hn Hd Hw Hp []. pose proof (pa_ends Hpa). split; cbn; rewrite ?Hd, ?Hp, ?Hw; try done.
  - by eapply post_pending.
  - by apply post_pending_ne.
Qed.
Lemma client_takes_ok k w r net' :
  w_phase w = Answered k → w_client w = Some r → network_ok net' →
  directory net' = directory (w_net w) → waiting net' = <[answered_at := []]> (waiting (w_net w)) →
  pending net' = delete r (pending (w_net w)) →
  exchange_ok w → exchange_ok (exchanged Calm None (w_listener w) net' w).
Proof using Hpa.
  intros Hph Hc Hn Hd Hw Hp []. pose proof (pa_ends Hpa). rewrite Hph in *.
  split; cbn; rewrite ?Hd, ?Hp, ?Hw; try done.
  - by rewrite lookup_insert_ne.
  - by rewrite lookup_insert_eq.
  - rewrite lookup_insert_is_Some'. by right.
  - rewrite lookup_insert_is_Some'. by right.
  - eapply take_pending_ne; [done|by apply ex_pending_client0|done].
  - by eapply take_pending.
Qed.
Lemma listener_takes_ok k w r net' :
  w_phase w = Asked k → w_listener w = Some r → network_ok net' →
  directory net' = directory (w_net w) → waiting net' = <[asked_at := []]> (waiting (w_net w)) →
  pending net' = delete r (pending (w_net w)) →
  exchange_ok w → exchange_ok (exchanged (Serving k) (w_client w) None net' w).
Proof using Hpa.
  intros Hph Hc Hn Hd Hw Hp []. pose proof (pa_ends Hpa). rewrite Hph in *.
  split; cbn; rewrite ?Hd, ?Hp, ?Hw; try done.
  - by rewrite lookup_insert_eq.
  - by rewrite lookup_insert_ne.
  - rewrite lookup_insert_is_Some'. by right.
  - rewrite lookup_insert_is_Some'. by right.
  - by eapply take_pending.
  - eapply take_pending_ne; [done|by apply ex_pending_listener0|done].
Qed.
Lemma pending_none w (e : Z) o :
  (∀ r, pending (w_net w) !! r = Some e ↔ o = Some r) → o = None → ∀ r, pending (w_net w) !! r ≠ Some e.
Proof using. intros Hp -> r Hr%Hp. done. Qed.

(** *** The messages themselves *)

Lemma task_id_ok : descriptor_ok (task_id s1).
Proof using Hpa. destruct (pa_server_ok Hpa) as (Hd & _ & Hn). split; [done|done|]. apply (pa_task Hpa). Qed.
Lemma create_command_spec :
  create_cmd c0 task_name input size garbage = Done (tt, create_command) ∧
  create_cmd_carries c0 task_name (take (Z.to_nat size) input) create_command.
Proof using Hpa.
  destruct (create_cmd_done garbage (pa_garbage Hpa) c0 task_name input size (pa_client_ok Hpa)
    (pa_name Hpa) (pa_name_length Hpa) (pa_size Hpa) (pa_size_max Hpa)) as (cmd & Hc & Hs).
  unfold create_command, message_of. rewrite Hc. done.
Qed.
Lemma wait_command_spec :
  wait_cmd c0 (task_id s1) garbage = Done (tt, command_of Wait) ∧
  wait_cmd_carries c0 (task_id s1) (command_of Wait).
Proof using Hpa.
  destruct (wait_cmd_done garbage (pa_garbage Hpa) c0 (task_id s1) (pa_client_ok Hpa) task_id_ok) as (cmd & Hc & Hs).
  unfold command_of, message_of. rewrite Hc. done.
Qed.
Lemma start_reply_spec :
  start_reply s1 (Some (task_id s1)) garbage = Done (tt, reply_of Create) ∧
  length (reply_of Create) = struct_size ∧ is_nack (reply_of Create) = false ∧
  descriptor_at task_at (reply_of Create) = task_id s1.
Proof using Hpa.
  destruct (start_reply_done garbage (pa_garbage Hpa) s1 (task_id s1) task_id_ok) as (r & Hc & Hs).
  unfold reply_of, message_of. rewrite Hc. done.
Qed.
Lemma wait_reply_spec :
  wait_reply s1 MTAPI_REPLY_ACK (command_of Wait) output (Z.of_nat (length output)) garbage
    = Done (tt, reply_of Wait) ∧
  length (reply_of Wait) = struct_size ∧ is_nack (reply_of Wait) = false ∧
  int_at reply_size_at (reply_of Wait) = Z.of_nat (length output) ∧
  take (length output) (drop reply_data_at (reply_of Wait)) = output.
Proof using Hpa.
  destruct (wait_reply_done garbage (pa_garbage Hpa) s1 (command_of Wait) output) as (r & Hc & Hs).
  { apply (rd_output _ _ _ _ _ _ _ _ _ _ _ _ _ _ _ (pa_ready Hpa)). }
  unfold reply_of, message_of. rewrite Hc. done.
Qed.
Lemma command_length k : length (command_of k) = struct_size.
Proof using Hpa.
  destruct k; [apply (cc_length _ _ _ _ (proj2 create_command_spec))|apply (wc_length _ _ _ (proj2 wait_command_spec))].
Qed.
Lemma reply_length k : length (reply_of k) = struct_size.
Proof using Hpa. destruct k; [apply start_reply_spec|apply wait_reply_spec]. Qed.

(** *** The client *)

Lemma real_client w : procs (real w) !! cl = Some (client_at (w_handle w)).
Proof using Hpa.
  unfold real. cbn. apply list_lookup_insert_eq. rewrite length_insert. eapply lookup_lt_Some, (pa_client Hpa).
Qed.
Lemma real_server w : procs (real w) !! sv = Some (process (w_stage w)).
Proof using Hpa.
  unfold real. cbn. rewrite list_lookup_insert_ne by apply (pa_distinct Hpa).
  apply list_lookup_insert_eq. eapply lookup_lt_Some, (pa_server Hpa).
Qed.
Abbreviation clive t b p Q w := (live real client_rely client_step accepting client_waits idle pot t b p Q w).
#[local] Instance client_step_refl : Reflexive client_step.
Proof. intros w. unfold client_step, keeps_ok, client_phase. naive_solver. Qed.
#[local] Instance idle_refl : Reflexive idle.
Proof. done. Qed.

Lemma client_reads {A B} t b (m : M mtapi A) (k : A → prog (system N) B) Q w :
  (∀ w', client_rely w w' → ∃ x, m (client_at (w_handle w')) = Done (x, client_at (w_handle w')) ∧
     clive t b (k x) Q w') →
  clive t (1 + b) (let! x := mine cl m in k x) Q w.
Proof using Hpa.
  intros Hm. apply live_access. intros w' Hw. destruct (Hm w' Hw) as (x & Hx & Hk).
  exists x, w', b. split; [eapply of_process_same; [apply real_client|done]|]. split; [done|].
  split; [intros _; by apply pays_one|]. eapply live_le; [exact Hk|lia|done].
Qed.
Lemma client_net {X B} t b (m : M N X) (k : X → prog (system N) B) Q w :
  (∀ w', client_rely w w' → ∃ x p c net' b', m (w_net w') = Done (x, net') ∧
     client_phase (w_phase w') p ∧ keeps_ok w' (exchanged p c (w_listener w') net' w') ∧
     pays client_waits idle pot b w' b' (exchanged p c (w_listener w') net' w') ∧
     clive t b' (k x) Q (exchanged p c (w_listener w') net' w')) →
  clive t b (let! x := call m in k x) Q w.
Proof using.
  intros Hm. apply live_access. intros w' Hw.
  destruct (Hm w' Hw) as (x & p & c & net' & b' & Hx & Hp & Hok & Hpay & Hk).
  exists x, (exchanged p c (w_listener w') net' w'), b'. split; [exact (of_net_done m (real w') x net' Hx)|].
  split; [by split_and!|]. split; [done|]. eapply live_le; [exact Hk|lia|done].
Qed.

Lemma task_made_rely g g' : rtc task_moves g g' → task_made g → task_made g'.
Proof using.
  intros Hm [st ->]. destruct (task_moves_spawned _ _ _ Hm) as (st' & -> & _). by exists st'.
Qed.
(** Nothing is asked, and nothing is to come. *)
Record calm (b : bool) (w : exchange) : Prop := {
  ca_ok : exchange_ok w;
  ca_phase : w_phase w = Calm;
  ca_client : w_client w = None;
  ca_handle : w_handle w = b }.
Lemma calm_rely b w w' : calm b w → client_rely w w' → calm b w' ∧ rtc task_moves (w_stage w) (w_stage w').
Proof using.
  intros [Hok Hp Hc Hh] Hw. destruct (client_relies w w' Hw Hok) as (Hok' & Hh' & Hc' & Hph).
  rewrite Hp in Hph. destruct Hph. split; [|done]. split; congruence.
Qed.

Definition command_fun (k : kind) : mtapi → M (list Z) unit :=
  match k with
  | Create => λ s, create_cmd s task_name input size
  | Wait => λ s, wait_cmd s (task_id s1)
  end.
Lemma command_fun_at k b : command_fun k (client_at b) garbage = Done (tt, command_of k).
Proof using Hpa.
  destruct k.
  - transitivity (create_cmd c0 task_name input size garbage); [by destruct b|]. apply create_command_spec.
  - transitivity (wait_cmd c0 (task_id s1) garbage); [by destruct b|]. apply wait_command_spec.
Qed.

(** The receive that waits for the reply. *)
Record awaiting (k : kind) (b : bool) (r : Z) (w : exchange) : Prop := {
  aw_ok : exchange_ok w;
  aw_phase : w_phase w = Asked k ∨ w_phase w = Serving k ∨ w_phase w = Answered k;
  aw_client : w_client w = Some r;
  aw_handle : w_handle w = b }.
Lemma awaiting_rely k b r w w' : client_rely w w' → awaiting k b r w → awaiting k b r w'.
Proof using.
  intros Hw [Hok Hp Hc Hh]. destruct (client_relies w w' Hw Hok) as (Hok' & Hh' & Hc' & Hph).
  split; [done| |congruence|congruence].
  destruct Hp as [Hp|[Hp|Hp]]; rewrite Hp in Hph; tauto.
Qed.
Lemma awaits_reply t l k b r w :
  (t <= fuel)%nat → awaiting k b r w →
  clive t (1 + l) (poll fuel (received r))
    (λ m a w', m = l ∧ a = (reply_of k, MCAPI_SUCCESS) ∧ calm b w' ∧ task_made (w_stage w')) w.
Proof using Hpa.
  intros Hf Hw. apply (live_poll real client_rely client_step accepting client_waits idle pot (awaiting k b r));
    [done|apply awaiting_rely| |done].
  clear w Hw. intros w [Hok Hp Hc Hh].
  pose proof (proj2 (ex_pending_client _ Hok r) Hc) as Hr.
  destruct (test_answers _ _ _ _ (ex_net _ Hok) Hr (ex_answered _ Hok)) as (done & r' & bytes & st & n' & Ht & Hn & Hd & Hm).
  assert (∀ w'', real w'' = mk_system (procs (real w)) n' →
    received r (real w) = Done (if done then Some (bytes, st) else None, real w'')) as Hrun.
  { intros w'' ->. unfold received. by rewrite (bind_done _ _ _ _ _ (of_net_done _ (real w) _ _ Ht)). }
  destruct Hp as [Hp|[Hp|Hp]].
  1,2: rewrite Hp in Hm; destruct Hm as (-> & -> & Hw & Hpe);
    set (w' := exchanged (w_phase w) (w_client w) (w_listener w) n' w);
    assert (exchange_ok w') as Hok' by (by apply same_ok);
    exists None, w'; split; [by apply Hrun|];
    split; [split; [by intros _|split_and!; [done|done|by left]]|];
    split; [split; [done|cbn; tauto|done|done]|];
    intros _; split; [unfold client_waits; by rewrite Hp|]; by unfold pot.
  rewrite Hp in Hm. destruct Hm as (-> & -> & -> & Hw & Hpe).
  set (w' := exchanged Calm None (w_listener w) n' w).
  assert (exchange_ok w') as Hok' by by eapply client_takes_ok.
  exists (Some (reply_of k, MCAPI_SUCCESS)), w'. split; [by apply Hrun|]. split.
  { split; [by intros _|]. split_and!; [done..|]. right. right. split; [done|]. by exists k. }
  exists l. split; [intros _; apply pays_one; unfold pot; cbn; by rewrite Hp|].
  intros w'' Hw''. destruct (calm_rely b w' w'') as [Hcalm Hg]; [by split|done|].
  split; [done|]. split; [done|]. split; [done|]. eapply task_made_rely; [exact Hg|].
  pose proof (ex_stage _ Hok) as Hst. by rewrite Hp in Hst.
Qed.

Lemma askable_rely k g g' : rtc task_moves g g' → askable k g → askable k g'.
Proof using.
  intros Hm. destruct k; [|by apply task_made_rely]. cbn. intros ->. by apply (task_moves_early Fresh g').
Qed.
Lemma calm_askable k b w w' :
  client_rely w w' → calm b w ∧ askable k (w_stage w) → calm b w' ∧ askable k (w_stage w').
Proof using.
  intros Hw [Hc Hk]. destruct (calm_rely b w w' Hc Hw) as [Hc' Hm]. split; [done|]. by eapply askable_rely.
Qed.
Lemma client_finds_listener t l k b w :
  (t <= fuel)%nat → calm b w ∧ askable k (w_stage w) →
  clive t (1 + l) (mcapi_endpoint_get fuel (the_domain s1) (the_listener_node s1) listener_recv_port)
    (λ m a w', m = l ∧ a = (asked_at, MCAPI_SUCCESS) ∧ calm b w' ∧ askable k (w_stage w')) w.
Proof using.
  intros Hf Hw. apply (live_poll real client_rely client_step accepting client_waits idle pot
    (λ w, calm b w ∧ askable k (w_stage w))); [done|apply calm_askable| |done].
  clear w Hw. intros w Hw. pose proof (ca_ok _ _ (proj1 Hw)) as Hok.
  pose proof (look_finds _ _ _ _ _ (ex_net _ Hok) (ex_listener _ Hok)) as Hl.
  exists (Some (asked_at, MCAPI_SUCCESS)), w. split; [by apply (of_net_done _ (real w) _ _ Hl)|].
  split; [done|]. exists l. split; [intros _; by apply pays_one|].
  intros w' Hw'. split; [done|]. split; [done|]. by eapply calm_askable.
Qed.

Lemma request_live t l k b w :
  (t <= fuel)%nat → calm b w → askable k (w_stage w) →
  clive t (5 + serving_cost + l)
    (request_reply garbage fuel cl (the_domain s1) (the_listener_node s1) (command_fun k))
    (λ m o w', m = l ∧ calm b w' ∧
       match o with
       | None => ¬ accepting
       | Some reply => reply = reply_of k ∧ task_made (w_stage w')
       end) w.
Proof using Hpa.
  intros Hf Hc Hk. apply live_then; [apply _|].
  eapply live_mono; [by apply (client_finds_listener t (4 + serving_cost + l) k b)|].
  intros m [e st] w1 (-> & [= -> ->] & Hc1 & Hk1). cbv beta iota. cbn [Z.eqb MCAPI_SUCCESS Pos.eqb negb].
  apply (client_reads t (3 + serving_cost + l)). intros w2 Hw2. exists (client_at (w_handle w2)). split; [done|].
  unfold build. rewrite command_fun_at. cbn [then_do].
  destruct (calm_askable k b w1 w2 Hw2 (conj Hc1 Hk1)) as [Hc2 Hk2].
  assert (requester_send_endpt (client_at (w_handle w2)) = requester_send_endpt c0) as -> by by destruct (w_handle w2).
  assert (requester_recv_endpt (client_at (w_handle w2)) = answered_at) as -> by by destruct (w_handle w2).
  apply client_net. intros w3 Hw3.
  destruct (calm_askable k b w2 w3 Hw3 (conj Hc2 Hk2)) as [[Hok3 Hp3 Hcl3 Hh3] Hk3].
  destruct (send_appends (w_net w3) (requester_send_endpt c0) asked_at (command_of k))
    as (st & n' & Hs & Hn & Hd & Hpe & Hw); [apply Hok3|apply Hok3|by rewrite (ex_asked _ Hok3)
    |by rewrite command_length|].
  destruct (Z.eqb_spec st MCAPI_SUCCESS) as [->|Hst].
  2:{ exists st, Calm, None, n', l. split; [done|]. split; [by left|].
      pose proof Hst as Hst'. apply Z.eqb_neq in Hst'. rewrite Hst'. cbn [negb].
      assert (exchange_ok (exchanged Calm None (w_listener w3) n' w3)) as Hok.
      { rewrite <- Hp3, <- Hcl3. by apply same_ok. }
      split; [by intros _|]. split; [left; unfold pot; cbn; lia|].
      apply live_return. intros w4 Hw4. split; [done|]. split.
      - refine (proj1 (calm_rely b _ w4 _ Hw4)). by split.
      - intros Hacc. apply Hst. refine (Hacc _ _ _ _ _ _ _ _ _ Hs); [apply Hok3|apply Hok3|]. by rewrite (ex_asked _ Hok3). }
  exists MCAPI_SUCCESS, (Asked k), (w_client w3), n', (2 + l)%nat. split; [done|].
  split; [right; left; split; [done|by exists k]|]. split; [intros Hok3'; by apply ask_ok|].
  split; [left; unfold pot, serving_cost; cbn; rewrite Hp3; lia|].
  rewrite Z.eqb_refl. cbn [negb]. apply live_then; [apply _|].
  assert (exchange_ok (exchanged (Asked k) (w_client w3) (w_listener w3) n' w3)) as Hok4 by (by apply ask_ok).
  apply client_net. intros w5 Hw5.
  destruct (client_relies _ w5 Hw5 Hok4) as (Hok5 & Hh5 & Hcl5 & Hp5). cbn in Hh5, Hcl5, Hp5.
  destruct (receive_posts (w_net w5) answered_at) as (r & n5 & Hr & Hn5 & Hd5 & Hw5' & Hr5 & Hpe5);
    [apply Hok5|by rewrite (ex_answered _ Hok5)|eapply pending_none; [apply Hok5|congruence]|].
  exists (r, MCAPI_SUCCESS), (w_phase w5), (Some r), n5, (1 + l)%nat.
  assert (exchange_ok (exchanged (w_phase w5) (Some r) (w_listener w5) n5 w5)) as Hok6.
  { apply client_posts_ok; try done. congruence. }
  split; [done|]. split; [by left|]. split; [by intros _|]. split; [by apply pays_one|].
  rewrite Z.eqb_refl. cbn [negb]. eapply live_mono; [apply (awaits_reply t l k b r); [done|]|].
  { split; [done|cbn; tauto|done|cbn; congruence]. }
  intros m a w7 (-> & -> & Hc7 & Ht7). rewrite reply_length, !Z.eqb_refl. cbn [negb orb].
  apply live_return. intros w8 Hw8. destruct (calm_rely b w7 w8 Hc7 Hw8) as [Hc8 Hm8].
  split; [done|]. split; [done|]. split; [done|]. by eapply task_made_rely.
Qed.

Abbreviation client_handle := (malloc (dom (heap c0))).
Definition with_handle (w : exchange) : exchange :=
  mk_exchange (w_stage w) (w_phase w) true (w_client w) (w_listener w) (w_net w).
Lemma real_handle w :
  real (with_handle w) = mk_system (<[cl := client_at true]> (procs (real w))) (net (real w)).
Proof using. unfold real, with_handle. cbn. by rewrite list_insert_insert_eq. Qed.
Lemma remote_address :
  (the_domain s1 =? the_domain c0) && (the_listener_node s1 =? the_listener_node c0) = false.
Proof using Hpa.
  pose proof (pa_elsewhere Hpa) as Hne.
  destruct (Z.eqb_spec (the_domain s1) (the_domain c0)) as [Hd|]; [|done].
  destruct (Z.eqb_spec (the_listener_node s1) (the_listener_node c0)) as [Hl|]; [|done].
  by rewrite Hd, Hl in Hne.
Qed.

Definition request_cost : nat := 7 + serving_cost.
Lemma ask_create_live t l w :
  (t <= fuel)%nat → calm false w → w_stage w = Fresh →
  clive t (request_cost + l) (mtapi_create_task pthread_ok malloc garbage fuel cl (the_domain s1) (the_listener_node s1)
           task_name input size)
    (λ m r w', m = l ∧ (r = (0, MTAPI_EREMOTE) ∧ ¬ accepting ∨
       r = (client_handle, MTAPI_SUCCESS) ∧ calm true w' ∧ task_made (w_stage w'))) w.
Proof using Hpa.
  intros Hf Hc Hg. apply (client_reads t (6 + serving_cost + l)). intros w1 Hw1. exists (client_at (w_handle w1)). split; [done|].
  destruct (calm_askable Create false w w1 Hw1 (conj Hc Hg)) as [Hc1 Hg1].
  rewrite (ca_handle _ _ Hc1). cbn [client_at].
  pose proof (pa_size_max Hpa) as Hmax. destruct (Z.ltb_spec MTAPI_MAX_INPUT_DATA_SIZE size); [lia|].
  pose proof (pa_count Hpa) as Hcount. apply Nat.leb_gt in Hcount. rewrite Hcount, remote_address.
  apply live_then; [apply _|]. unfold start_remote_task. apply live_then; [apply _|].
  eapply live_mono; [by apply (request_live t (1 + l) Create false)|]. intros m [reply|] w2 (-> & Hc2 & Hr2).
  2:{ intros w3 _. exists l. split; [lia|]. apply live_return. intros w4 _. split; [done|by left]. }
  destruct Hr2 as [-> Ht2]. destruct start_reply_spec as (_ & _ & Hnack & Htask). rewrite Hnack, Htask.
  intros w3 Hw3. destruct (calm_rely _ w2 w3 Hc2 Hw3) as [Hc3 Hm3].
  exists client_handle, (with_handle w3), l. destruct Hc3 as [Hok3 Hp3 Hcl3 Hh3].
  assert (exchange_ok (with_handle w3)) as Hok4 by by destruct Hok3.
  assert (calm true (with_handle w3)) as Hc4 by by split.
  split; [|split; [|split]].
  - rewrite real_handle. apply of_process_done with (x := c0); [|done].
    rewrite real_client. by rewrite Hh3.
  - split; [by intros _|]. split_and!; [done|done|by left].
  - intros _. by apply pays_one.
  - apply live_return. intros w5 Hw5. apply live_return. intros w6 Hw6.
    destruct (calm_rely true _ w6 Hc4) as [Hc6 Hm6]; [by etrans|].
    pose proof (rd_malloc _ _ _ _ _ _ _ _ _ _ _ _ _ _ _ (pa_ready Hpa)).
    pose proof (pa_malloc Hpa (dom (heap c0))) as Hp. apply Z.eqb_neq in Hp. rewrite Hp.
    split; [done|]. right. split; [done|]. split; [done|]. eapply task_made_rely; [exact Hm6|]. by eapply task_made_rely.
Qed.

Lemma ask_wait_live t l w :
  (t <= fuel)%nat → calm true w → task_made (w_stage w) →
  clive t (request_cost + l) (mtapi_task_wait garbage fuel cl client_handle)
    (λ m r _, m = l ∧ (r = (MTAPI_TASK_SUCCESS, Some (output, Z.of_nat (length output)), MTAPI_SUCCESS) ∨
            r = (MTAPI_TASK_ERROR, None, MTAPI_EREMOTE) ∧ ¬ accepting)) w.
Proof using Hpa.
  intros Hf Hc Ht. apply (client_reads t (6 + serving_cost + l)). intros w1 Hw1.
  destruct (calm_askable Wait true w w1 Hw1 (conj Hc Ht)) as [Hc1 Ht1].
  exists (task_id s1, client_at true). rewrite (ca_handle _ _ Hc1). split.
  { unfold bind, deref, get. cbn. by rewrite lookup_insert_eq. }
  change ((domain (task_id s1) =? the_domain (client_at true)) && (node (task_id s1) =? the_listener_node (client_at true)))
    with ((the_domain s1 =? the_domain c0) && (the_listener_node s1 =? the_listener_node c0)).
  rewrite remote_address.
  apply live_then; [apply _|].
  eapply live_mono; [by apply (request_live t (1 + l) Wait true)|]. intros m [reply|] w2 (-> & Hc2 & Hr2).
  2:{ intros w3 _. exists l. split; [lia|]. split; [done|by right]. }
  destruct Hr2 as [-> Ht2]. destruct wait_reply_spec as (_ & Hlen & Hnack & Hsize & Hdata).
  rewrite Hnack, Hsize. apply (client_reads t l). intros w3 Hw3.
  exists output. split.
  - rewrite copied_done; [by rewrite Nat2Z.id, Hdata|]. split; [lia|].
    rewrite <- Hdata at 1. rewrite length_take. lia.
  - apply live_return. intros w4 _. split; [done|by left].
Qed.

(** *** The listener *)

Abbreviation llive t b p Q w := (live real listener_rely listener_step accepting listener_waits idle pot t b p Q w).
#[local] Instance listener_step_refl : Reflexive listener_step.
Proof. intros w. split; [by intros ?|]. split_and!; [done|done|]. left. split; [done|by left]. Qed.
Definition with_stage (g : stage) (w : exchange) : exchange :=
  mk_exchange g (w_phase w) (w_handle w) (w_client w) (w_listener w) (w_net w).
Lemma real_stage w g :
  mk_system (<[sv := process g]> (procs (real w))) (net (real w)) = real (with_stage g w).
Proof using Hpa.
  unfold real, with_stage. cbn. pose proof (pa_distinct Hpa).
  by rewrite list_insert_insert_ne, list_insert_insert_eq by congruence.
Qed.

(** The listener works on a command. *)
Record working (k : kind) (w : exchange) : Prop := {
  wo_ok : exchange_ok w;
  wo_phase : w_phase w = Serving k;
  wo_listener : w_listener w = None }.
Lemma working_rely k w w' : listener_rely w w' → working k w → working k w'.
Proof using.
  intros Hw [Hok Hp Hl]. destruct (listener_relies w w' Hw) as (Hok' & Hl' & _ & Hp' & _).
  split; [auto|by apply Hp'|congruence].
Qed.
Lemma working_update k w g : working k w → working k (with_stage g w).
Proof using.
  intros [[] Hp Hl]. split; [|done|done]. split; try done; cbn; rewrite Hp in *; [done|by intros [=]].
Qed.
Lemma working_guarantee k w g : working k w → owner_moves (w_stage w) g → listener_step w (with_stage g w).
Proof using.
  intros Hw Hg. split; [intros _; apply (working_update k w g Hw)|]. split_and!; [done|done|].
  right. split; [|done]. exists k. apply Hw.
Qed.
Lemma working_waits w c st :
  working Wait w → w_stage w = Spawned c st → st = TRunning ∨ st = TExited → accepting → listener_waits w.
Proof using. intros Hw Hg Hst _. unfold listener_waits. rewrite (wo_phase _ _ Hw), Hg. by destruct Hst as [-> | ->]. Qed.
Lemma listener_rely_stage w w' : listener_rely w w' → rtc task_moves (w_stage w) (w_stage w').
Proof using. intros Hw. apply (listener_relies w w' Hw). Qed.

(** A step that leaves the exchange as it is may pay as the listener likes. *)
Lemma listener_reads {A B} t b (m : M mtapi A) (k : A → prog (system N) B) Q w :
  (∀ w', listener_rely w w' → ∃ x b', m (process (w_stage w')) = Done (x, process (w_stage w')) ∧
     (accepting → pays listener_waits idle pot b w' b' w') ∧ llive (pred t) b' (k x) Q w') →
  llive t b (let! x := mine sv m in k x) Q w.
Proof using Hpa.
  intros Hm. apply live_access. intros w' Hw. destruct (Hm w' Hw) as (x & b' & Hx & Hpay & Hk).
  exists x, w', b'. split; [eapply of_process_same; [apply real_server|done]|done].
Qed.
Lemma listener_net {X B} t b (m : M N X) (k : X → prog (system N) B) Q w :
  (∀ w', listener_rely w w' → ∃ x p l net' b', m (w_net w') = Done (x, net') ∧
     listener_phase (w_phase w') p ∧ keeps_ok w' (exchanged p (w_client w') l net' w') ∧
     (accepting → pays listener_waits idle pot b w' b' (exchanged p (w_client w') l net' w')) ∧
     llive (pred t) b' (k x) Q (exchanged p (w_client w') l net' w')) →
  llive t b (let! x := call m in k x) Q w.
Proof using.
  intros Hm. apply live_access. intros w' Hw.
  destruct (Hm w' Hw) as (x & p & l & net' & b' & Hx & Hp & Hok & Hpay & Hk).
  exists x, (exchanged p (w_client w') l net' w'), b'. split; [exact (of_net_done m (real w') x net' Hx)|].
  split; [|done]. split; [done|]. split_and!; [done|done|]. left. by split.
Qed.

Lemma command_from k :
  unsigned_at from_domain_at (command_of k) = the_domain c0 ∧
  unsigned_at from_node_at (command_of k) = the_requester_node c0 ∧
  unsigned_at cmd_at (command_of k) =
    cmd_word match k with Create => MTAPI_CMD_CREATE_TASK | Wait => MTAPI_CMD_WAIT_TASK end.
Proof using Hpa.
  destruct k; [destruct create_command_spec as [_ []]|destruct wait_command_spec as [_ []]]; done.
Qed.

(** The listener has done its work, and no receive is posted. *)
Record served (w : exchange) : Prop := {
  se_ok : exchange_ok w;
  se_listener : w_listener w = None;
  se_phase : accepting → ∀ k, w_phase w ≠ Serving k }.
Lemma served_rely w w' : listener_rely w w' → served w → served w'.
Proof using.
  intros Hw [Hok Hl Hp]. destruct (listener_relies w w' Hw) as (Hok' & Hl' & _ & Hp' & _).
  split; [auto|congruence|]. intros Hacc k Hk. apply (Hp Hacc k), Hp', Hk.
Qed.

Lemma send_reply_live t b k (reply : mtapi → M (list Z) unit) w :
  (t <= fuel)%nat → (∀ g, reply (process g) garbage = Done (tt, reply_of k)) →
  working k w → task_made (w_stage w) →
  llive t (3 + b) (send_reply garbage fuel sv (command_of k) reply) (λ m _ w', m = b ∧ served w') w.
Proof using Hpa.
  intros Hf Hreply Hw Ht. destruct (command_from k) as (Hfd & Hfn & _). unfold send_reply. rewrite Hfd, Hfn.
  apply live_then; [apply _|].
  apply (live_poll real listener_rely listener_step accepting listener_waits idle pot
    (λ w, working k w ∧ task_made (w_stage w))); [done| | |done].
  { intros v v' Hv [Hwv Htv]. split; [by eapply working_rely|]. by eapply task_made_rely, Htv; apply listener_rely_stage. }
  clear w Hw Ht. intros w [Hw Ht]. pose proof (wo_ok _ _ Hw) as Hok.
  pose proof (look_finds _ _ _ _ _ (ex_net _ Hok) (ex_requester _ Hok)) as Hl.
  exists (Some (answered_at, MCAPI_SUCCESS)), w. split; [by apply (of_net_done _ (real w) _ _ Hl)|].
  split; [done|]. exists (2 + b)%nat. split; [intros _; by apply pays_one|].
  intros w1 Hw1. cbv beta iota. cbn [Z.eqb MCAPI_SUCCESS Pos.eqb negb].
  apply listener_reads. intros w2 Hw2. exists (process (w_stage w2)), (1 + b)%nat. split; [done|].
  split; [intros _; by apply pays_one|].
  unfold build. rewrite Hreply. cbn [then_do].
  assert (listener_send_endpt (process (w_stage w2)) = listener_send_endpt s1) as -> by by destruct (w_stage w2).
  apply listener_net. intros w3 Hw3.
  assert (listener_rely w w3) as Hw13 by (etrans; [exact Hw1|by etrans]).
  pose proof (working_rely k _ _ Hw13 Hw) as Hwo. destruct Hwo as [Hok3 Hp3 Hl3].
  assert (task_made (w_stage w3)) as Ht3 by (eapply task_made_rely; [by apply listener_rely_stage|done]).
  destruct (send_appends (w_net w3) (listener_send_endpt s1) answered_at (reply_of k))
    as (st & n' & Hs & Hn & Hd & Hpe & Hwa); [apply Hok3|apply Hok3|by rewrite (ex_answered _ Hok3)
    |by rewrite reply_length|].
  destruct (Z.eqb_spec st MCAPI_SUCCESS) as [->|Hst].
  - exists MCAPI_SUCCESS, (Answered k), (w_listener w3), n', b.
    assert (exchange_ok (exchanged (Answered k) (w_client w3) (w_listener w3) n' w3)) as Hok4
      by (by apply answer_ok).
    split; [done|]. split; [right; right; by exists k|]. split; [by intros _|].
    split; [intros _; apply pays_one; unfold pot; cbn; by rewrite Hp3|].
    apply live_return. intros w4 Hw4. split; [done|]. eapply served_rely; [exact Hw4|]. by split.
  - exists st, (w_phase w3), (w_listener w3), n', b.
    assert (exchange_ok (exchanged (w_phase w3) (w_client w3) (w_listener w3) n' w3)) as Hok4
      by (by apply same_ok).
    split; [done|]. split; [by left|]. split; [by intros _|]. split; [intros _; by apply pays_one|].
    apply live_return. intros w4 Hw4. split; [done|]. eapply served_rely; [exact Hw4|]. split; [done..|].
    intros Hacc. destruct Hst. refine (Hacc _ _ _ _ _ _ _ _ _ Hs); [apply Hok3|apply Hok3|]. by rewrite (ex_answered _ Hok3).
Qed.

Lemma serve_create_live t b w :
  (t <= fuel)%nat → working Create w → w_stage w = Fresh →
  llive t (9 + b) (serve pthread_ok malloc garbage fuel sv (command_of Create)) (λ m _ w', m = b ∧ served w') w.
Proof using Hpa.
  intros Hf Hw Hg. unfold serve. rewrite (proj2 (proj2 (command_from Create))). cbn [cmd_word Z.eqb].
  destruct create_command_spec as [_ [_ _ _ _ Hname Hsize _]].
  assert (int_at cmd_size_at (command_of Create) = size) as Hsz.
  { cbn [command_of]. rewrite Hsize, length_take. destruct (pa_size Hpa). lia. }
  apply live_access. intros w1 Hw1. exists task_name, w1, (8 + b)%nat.
  split; [cbn [command_of]; by rewrite Hname|]. split; [done|]. split; [intros _; by apply pays_one|].
  rewrite Hsz. cbn [command_of]. apply live_then; [apply _|]. eapply live_mono.
  - eapply (start_live _ _ _ _ _ _ _ _ _ _ _ _ _ _ _ (pa_ready Hpa) real w_stage with_stage)
      with (F := working Create) (m := (4 + b)%nat);
      [apply _|apply _|apply real_server|apply real_stage|done|apply working_rely
      |apply working_update|apply _|done|apply listener_rely_stage|apply working_guarantee| |by eapply working_rely].
    eapply task_moves_early; [rewrite <- Hg; by apply listener_rely_stage|done].
  - intros m h w2 (-> & -> & Hw2 & Ht2). cbv beta. apply live_then; [apply _|].
    unfold send_remote_start_response. apply listener_reads. intros w3 Hw3.
    assert (task_made (w_stage w3)) as [st Hg3] by (eapply task_made_rely; [by apply listener_rely_stage|done]).
    exists (Some (task_id s1)), (3 + b)%nat. rewrite Hg3. split.
    { pose proof (rd_malloc _ _ _ _ _ _ _ _ _ _ _ _ _ _ _ (pa_ready Hpa)) as Hm. apply Z.eqb_neq in Hm.
      rewrite Hm. erewrite bind_done; [done|]. eapply deref_at. }
    split; [intros _; by apply pays_one|].
    eapply live_mono; [apply (send_reply_live _ b Create)|].
    + lia.
    + intros g. apply start_reply_spec.
    + by eapply working_rely.
    + rewrite Hg3. by exists st.
    + intros m a w4 [-> H4]. apply live_return. intros w5 Hw5. split; [done|]. by eapply served_rely.
Qed.
Lemma serve_wait_live t b w :
  (t <= fuel)%nat → working Wait w → task_made (w_stage w) →
  llive t (8 + b) (serve pthread_ok malloc garbage fuel sv (command_of Wait)) (λ m _ w', m = b ∧ served w') w.
Proof using Hpa.
  intros Hf Hw Ht. unfold serve. rewrite (proj2 (proj2 (command_from Wait))). cbn [cmd_word Z.eqb Pos.eqb].
  rewrite (wc_task _ _ _ (proj2 wait_command_spec)). apply live_then; [apply _|]. eapply live_mono.
  - eapply (wait_live _ _ _ _ _ _ _ _ _ _ _ _ _ _ _ _ (pa_ready Hpa) real w_stage with_stage)
      with (F := working Wait) (m := (3 + b)%nat);
      [apply _|apply _|apply real_server|apply real_stage|done|apply working_rely
      |apply working_update|apply _|done|apply listener_rely_stage|apply working_guarantee|apply working_waits
      |done|exact Ht|done].
  - intros m r w2 (-> & -> & Hw2 & Hg2). cbv beta iota. rewrite decide_True by done.
    apply live_then; [apply _|]. unfold send_remote_wait_response.
    eapply live_mono; [apply (send_reply_live _ b Wait)|].
    + done.
    + intros g. transitivity (wait_reply s1 MTAPI_REPLY_ACK (command_of Wait) output
        (Z.of_nat (length output)) garbage); [by destruct g|]. apply wait_reply_spec.
    + done.
    + rewrite Hg2. by exists TJoined.
    + intros m a w4 [-> H4]. apply live_return. intros w5 Hw5. split; [done|]. by eapply served_rely.
Qed.
Lemma serve_live t b k w :
  (t <= fuel)%nat → working k w → askable k (w_stage w) →
  llive t (9 + b) (serve pthread_ok malloc garbage fuel sv (command_of k)) (λ m _ w', m = b ∧ served w') w.
Proof using Hpa.
  intros Hf Hw Hk. destruct k; [by apply serve_create_live|].
  eapply live_le; [by apply (serve_wait_live t b)|done|lia].
Qed.

(** One wait: a command is taken, or none is there in time. *)
Record listening (r : Z) (w : exchange) : Prop := {
  li_ok : exchange_ok w;
  li_pending : w_listener w = Some r;
  li_phase : accepting → ∀ k, w_phase w ≠ Serving k }.
Lemma listening_rely r w w' : listener_rely w w' → listening r w → listening r w'.
Proof using.
  intros Hw [Hok Hl Hp]. destruct (listener_relies w w' Hw) as (Hok' & Hl' & _ & Hp' & _).
  split; [auto|congruence|]. intros Hacc k Hk. apply (Hp Hacc k), Hp', Hk.
Qed.
(** A listener without a command keeps three steps for the next one; once a command
    is there it has to take it within the next [e] steps. *)
Definition spare (e b : nat) (w : exchange) : Prop :=
  accepting → (3 <= b)%nat ∨ ((e <= b)%nat ∧ ∃ k, w_phase w = Asked k).
Lemma spare_rely e b w w' : listener_rely w w' → spare e b w → spare e b w'.
Proof using.
  intros Hw Hb Hacc. destruct (Hb Hacc) as [?|[? [k Hk]]]; [by left|]. right. split; [done|]. exists k.
  destruct (listener_relies w w' Hw) as (_ & _ & _ & _ & Ha). by apply Ha.
Qed.
Lemma spare_step e b r w :
  (e < 3)%nat → listening r w → spare (S e) b w →
  ∃ b', (accepting → pays listener_waits idle pot b w b' w) ∧ spare e b' w.
Proof using.
  intros He Hl Hb. destruct (w_phase w) as [|k|k|k] eqn:Hp.
  2:{ exists (pred b). split.
      - intros Hacc. left. destruct (Hb Hacc) as [?|[? _]]; lia.
      - intros Hacc. right. split; [destruct (Hb Hacc) as [?|[? _]]; lia|by exists k]. }
  2:{ exists b. split; intros Hacc; by destruct (li_phase _ _ Hl Hacc k). }
  all: exists b; split; [intros Hacc; right; split; [unfold listener_waits; by rewrite Hp|done]|];
    intros Hacc; left; destruct (Hb Hacc) as [?|[_ [k' Hk]]]; [done|congruence].
Qed.
Lemma wait_command t b fuel' r timeout time w :
  (t <= fuel')%nat → listening r w → spare 1 b w →
  llive t b (mcapi_wait fuel' r timeout time)
    (λ m '(recvd, r', bytes, st) w',
       if (recvd : bool) then m = serving_cost ∧ st = MCAPI_SUCCESS ∧
         ∃ k, bytes = command_of k ∧ working k w' ∧ askable k (w_stage w')
       else r' = r ∧ listening r w' ∧ spare 3 m w') w.
Proof using Hpa.
  revert t time w. induction fuel' as [|fuel' IH]; intros t time w Hf Hw Hb; [split; [done|lia]|].
  apply listener_net. intros w1 Hw1. pose proof (listening_rely _ _ _ Hw1 Hw) as Hli.
  pose proof (spare_rely _ _ _ _ Hw1 Hb) as Hb1. pose proof Hli as [Hok Hl Hph].
  pose proof (proj2 (ex_pending_listener _ Hok r) Hl) as Hr.
  destruct (test_answers _ _ _ _ (ex_net _ Hok) Hr (ex_asked _ Hok)) as (don & r' & bytes & st & n' & Ht & Hn & Hd & Hm).
  destruct (w_phase w1) as [|k|k|k] eqn:Hk.
  2:{ destruct Hm as (-> & -> & -> & Hwa & Hpe).
    assert (exchange_ok (exchanged (Serving k) (w_client w1) None n' w1)) as Hok'
      by (by eapply listener_takes_ok).
    eexists _, (Serving k), None, n', serving_cost. split; [exact Ht|]. split; [right; left; by exists k|].
    split; [by intros _|]. split.
    { intros Hacc. left. unfold pot, serving_cost. cbn. rewrite Hk. destruct (Hb1 Hacc) as [?|[? _]]; lia. }
    apply live_return. intros w2 Hw2. split; [done|]. split; [done|]. exists k. split; [done|].
    split; [eapply working_rely; [exact Hw2|by split]|].
    eapply askable_rely; [by apply listener_rely_stage|]. cbn.
    pose proof (ex_stage _ Hok) as Hst. pose proof (ex_fresh _ Hok) as Hfr. rewrite Hk in Hst, Hfr.
    destruct k; [by apply Hfr|done]. }
  all: destruct Hm as (-> & -> & Hwa & Hpe);
    assert (exchange_ok (exchanged (w_phase w1) (w_client w1) (w_listener w1) n' w1)) as Hok'
      by (by apply same_ok);
    assert (listening r (exchanged (w_phase w1) (w_client w1) (w_listener w1) n' w1)) as Hli'
      by (split; [done|done|cbn; by rewrite Hk]);
    assert (accepting → 3 <= b)%nat as Hb3
      by (intros Hacc; destruct (Hb1 Hacc) as [?|[_ [k' Hk']]]; [done|congruence]);
    eexists _, (w_phase w1), (w_listener w1), n', b; split; [exact Ht|]; split; [by left|];
    split; [by intros _|]; (split; [intros Hacc; right; split; [unfold listener_waits; rewrite Hk|split; [done|]]|]);
    [first [done|by destruct (Hph Hacc k)]|by unfold pot|];
    cbv beta iota;
    (destruct (timeout <=? time + 1); [|apply IH; [lia|done|intros Hacc; left; by apply Hb3]]);
    apply live_return; intros w2 Hw2; split; [done|]; (split; [by eapply listening_rely|]);
    intros Hacc; left; by apply Hb3.
Qed.

(** The listener serves whatever comes, and never fails. *)
Lemma listen_live t b fuel' cmd r w :
  (t <= fuel')%nat → (t <= fuel)%nat → listening r w → spare 2 b w → length cmd = struct_size →
  llive t b (listen pthread_ok malloc garbage fuel sv fuel' cmd r) (λ _ _ _, False) w.
Proof using Hpa.
  revert t b cmd r w. induction fuel' as [|fuel' IH]; intros t b cmd r w Hf Hf' Hw Hb Hcmd; [split; [done|lia]|].
  apply listener_reads. intros w1 Hw1. pose proof (listening_rely _ _ _ Hw1 Hw) as Hli1.
  destruct (spare_step 1 b r w1) as (b1 & Hpay1 & Hb1); [lia|done|by eapply spare_rely|].
  exists (process (w_stage w1)), b1. split; [done|]. split; [done|].
  assert (keep_listening (process (w_stage w1)) = true) as ->.
  { rewrite <- (pa_listening Hpa). by destruct (w_stage w1). }
  assert (listener_recv_endpt (process (w_stage w1)) = asked_at) as -> by by destruct (w_stage w1).
  cbn [negb]. apply live_then; [apply _|].
  eapply live_mono; [apply (wait_command (pred t) b1 fuel r); [lia|done|done]|].
  intros m [[[recvd r'] bytes] st] w2 H2.
  assert (∀ g, mthread_yield (process g) = Done (MTHREAD_SUCCESS, process g)) as Hyield.
  { intros g. unfold mthread_yield, bind, get, ret. erewrite process_init by apply (pa_ready Hpa). done. }
  destruct recvd; cbn [andb].
  2:{ destruct H2 as (-> & H2 & Hb2). apply listener_reads. intros w3 Hw3.
      destruct (spare_step 2 m r w3) as (b3 & Hpay3 & Hb3); [lia|by eapply listening_rely|by eapply spare_rely|].
      exists MTHREAD_SUCCESS, b3. split; [done|]. split; [done|].
      apply IH; [lia|lia|by eapply listening_rely|done|done]. }
  destruct H2 as (-> & -> & k & -> & Hwo & Hk). rewrite Z.eqb_refl.
  assert (overwritten cmd (command_of k) = command_of k) as ->.
  { unfold overwritten. rewrite drop_ge by by rewrite command_length, Hcmd. apply app_nil_r. }
  apply live_then; [apply _|]. eapply live_mono; [apply (serve_live _ 5); [lia|done|done]|].
  intros m _ w3 [-> H3].
  apply listener_net. intros w4 Hw4. destruct (served_rely _ _ Hw4 H3) as [Hok4 Hl4 Hp4].
  destruct (receive_posts (w_net w4) asked_at) as (q & n' & Hq & Hn & Hd & Hwa & Hfree & Hpe);
    [apply Hok4|by rewrite (ex_asked _ Hok4)|eapply pending_none; [apply Hok4|done]|].
  assert (exchange_ok (exchanged (w_phase w4) (w_client w4) (Some q) n' w4)) as Hok5
    by (by apply listener_posts_ok).
  exists (q, MCAPI_SUCCESS), (w_phase w4), (Some q), n', 4%nat. split; [exact Hq|]. split; [by left|].
  split; [by intros _|]. split; [intros _; by apply pays_one|]. cbv beta iota.
  apply listener_reads. intros w5 Hw5. exists MTHREAD_SUCCESS, 3%nat. split; [done|].
  split; [intros _; by apply pays_one|].
  apply IH; [lia|lia|eapply listening_rely; [exact Hw5|by split]|by left|apply command_length].
Qed.

(** *** The task *)

Abbreviation tlive t b p Q w := (live real task_rely task_step accepting task_waits idle pot t b p Q w).
#[local] Instance task_step_refl : Reflexive task_step.
Proof. intros w. split; [by intros ?|]. split_and!; [done..|by left]. Qed.
Lemma task_guarantee w g : task_moves (w_stage w) g → task_step w (with_stage g w).
Proof using.
  intros Hg. split; [|by split_and!; [..|right]]. intros []. split; try done; cbn.
  - destruct (w_phase w) as [|[]|[]|k]; try done; by eapply task_made_rely; [apply rtc_once|].
  - intros Hp. apply ex_fresh0 in Hp. rewrite Hp in Hg. by inversion Hg.
Qed.
Lemma task_thread_live t b w :
  (t <= fuel)%nat → w_stage w = Fresh →
  tlive t (4 + b) (thread_main task_code pthread_ok malloc garbage fuel sv (task_thread s1))
    (λ m _ w', m = b ∧ task_over (w_stage w')) w.
Proof using Hpa.
  intros Hf Hg. eapply (task_live _ _ _ _ _ _ _ _ _ _ _ _ _ _ _ _ _ (pa_ready Hpa) real w_stage with_stage);
    [apply _|apply _|apply real_server|apply real_stage|done|apply _|done|apply task_relies
    |apply task_guarantee|intros v Hv _; exact Hv|done|by rewrite Hg].
Qed.
End protocol.
