(* ===== verification/MtapiTheorems.v ===== *)
(** Tasks (MTAPI): a task's result reaches the one who waits for it, in this
    process and across processes, under every schedule; registration, creation and
    shutdown as they are. *)

From S2P Require Import Prelude Bytes McapiTypes LockfreeProg Mtapi MtapiTasks MtapiRemote.

(** ** A network of mailboxes, which obeys the laws *)

Record office := mk_office {
  o_waiting : gmap Z (list (list Z));
  o_pending : gmap Z Z;
  o_directory : gmap (Z * Z * Z) Z;
  o_identity : gmap (nat * nat) (Z * Z);
  o_next : Z }.
#[export] Instance eta_office : Settable office := λ r,
  mk_office (o_waiting r) (o_pending r) (o_directory r) (o_identity r) (o_next r).
Definition office_create (who : nat * nat) (port : Z) : M office (Z * Z) := λ s,
  match o_identity s !! who with
  | None => Done ((0, MCAPI_ERR_NODE_NOTINIT), s)
  | Some (d, n) =>
      let e := d * 65536 + n * 256 + port in
      Done ((e, MCAPI_SUCCESS),
        s <| o_waiting ::= <[e := []]> |> <| o_directory ::= <[(d, n, port) := e]> |>)
  end.
Definition office_send (from to : Z) (msg : list Z) : M office Z := λ s,
  match o_waiting s !! from, o_waiting s !! to with
  | Some _, Some _ => Done (MCAPI_SUCCESS, s <| o_waiting ::= alter (λ ms, ms ++ [msg]) to |>)
  | _, _ => Done (MCAPI_ERR_ENDP_INVALID, s)
  end.
Definition office_receive (e size : Z) : M office (Z * Z) := λ s,
  match o_waiting s !! e with
  | None => Done ((0, MCAPI_ERR_ENDP_INVALID), s)
  | Some _ => Done ((o_next s, MCAPI_SUCCESS),
      s <| o_pending ::= <[o_next s := e]> |> <| o_next ::= Z.succ |>)
  end.
Definition office_test (r : Z) : M office (bool * Z * list Z * Z) := λ s,
  match o_pending s !! r with
  | None => Done ((true, r, [], MCAPI_ERR_REQUEST_INVALID), s)
  | Some e =>
      match o_waiting s !! e with
      | Some (msg :: msgs) => Done ((true, 0, msg, MCAPI_SUCCESS),
          s <| o_waiting ::= <[e := msgs]> |> <| o_pending ::= delete r |>)
      | _ => Done ((false, r, [], MCAPI_PENDING), s)
      end
  end.
#[export] Instance office_mcapi : Mcapi office := {
  mcapi_initialize who d n := λ s, Done (MCAPI_SUCCESS, s <| o_identity ::= <[who := (d, n)]> |>);
  mcapi_domain_id_get who := λ s,
    Done (match o_identity s !! who with Some (d, _) => (d, MCAPI_SUCCESS) | None => (0, MCAPI_ERR_NODE_NOTINIT) end, s);
  mcapi_endpoint_create := office_create;
  mcapi_endpoint_look d n p := λ s, Done ((λ e, (e, MCAPI_SUCCESS)) <$> o_directory s !! (d, n, p), s);
  mcapi_msg_send := office_send;
  mcapi_msg_recv_i := office_receive;
  mcapi_test := office_test;
  mcapi_endpoint_delete _ e := λ s, Done (MCAPI_SUCCESS, s <| o_waiting ::= delete e |>);
  mcapi_finalize who := λ s, Done (MCAPI_SUCCESS, s <| o_identity ::= delete who |>) }.
#[export, refine] Instance office_laws : McapiLaws office := {
  network_ok s := ∀ r e, o_pending s !! r = Some e → r < o_next s;
  waiting := o_waiting; pending := o_pending; directory := o_directory }.
Proof.
  - intros s d n p e _ He. cbn. by rewrite He.
  - intros s from to msg Hok [? Hf] [msgs Ht] _. cbn. unfold office_send. rewrite Hf, Ht.
    eexists _, _. split; [done|]. by split_and!.
  - intros s e Hok [msgs He] _. cbn. unfold office_receive. rewrite He.
    assert (o_pending s !! o_next s = None) as Hnone.
    { destruct (o_pending s !! o_next s) eqn:Hp; [|done]. apply Hok in Hp. lia. }
    eexists _, _. split; [done|]. split_and!; try done. cbn. intros r e' Hr.
    destruct (decide (r = o_next s)) as [->|Hne]; [lia|]. rewrite lookup_insert_ne in Hr by done.
    apply Hok in Hr. lia.
  - intros s r e msgs Hok Hr He. cbn. unfold office_test. rewrite Hr, He.
    destruct msgs as [|msg msgs]; eexists _, _, _, _, _; (split; [done|]); split_and!; try done.
    cbn. intros r' e' [_ Hr']%lookup_delete_Some. by eapply Hok.
Defined.

(** ** A task of another process *)

(** What waiting for a task returns. *)
Abbreviation outcome := (mtapi_task_status * option (list Z * Z) * mtapi_status)%type.

(** Creating a task on a node and waiting for it: [None] when there is no handle. *)
Definition create_and_wait {N} `{!Mcapi N} (pthread_ok : nat → bool) (malloc : gset Z → Z) (garbage : list Z)
    (fuel me : nat) (domain node : Z) (task_name input : list Z) (size : Z) :
    prog (system N) (option outcome) :=
  let! (h, _) := mtapi_create_task pthread_ok malloc garbage fuel me domain node task_name input size in
  if h =? 0 then Return None
  else let! r := mtapi_task_wait garbage fuel me h in Return (Some r).

Section remote.
Context {N : Type} `{McapiLaws N}.

Section steps.
Context (task_code : Z → nat → nat → Z → list Z → Z → prog (system N) unit).
Context (pthread_ok : nat → bool) (malloc : gset Z → Z) (garbage : list Z) (fuel : nat).
Context (ps : list mtapi) (cl sv : nat) (c0 s1 : mtapi).
Context (task_name input : list Z) (size : Z) (i : nat) (f : Z) (n : option (list Z)).
Context (x0 : local_task_descriptor) (xs : list local_task_descriptor).
Context (answer : list Z → list Z) (ts : mtapi_task_status).
Context (Hpa : parties task_code pthread_ok malloc garbage ps cl sv c0 s1 task_name input size i f n x0 xs answer ts).

Abbreviation output := (answer (take (Z.to_nat size) input)).
Abbreviation real := (real malloc garbage ps cl sv c0 s1 task_name input size i x0 xs answer ts).
Abbreviation exchange_ok := (exchange_ok garbage c0 s1 task_name input size answer).

Lemma command_input :
  take (Z.to_nat size) (drop cmd_data_at (create_command garbage c0 task_name input size))
  = take (Z.to_nat size) input.
Proof using Hpa.
  destruct (create_command_spec _ _ _ _ _ _ _ _ _ _ _ _ _ _ _ _ _ _ _ Hpa) as [_ Hc].
  pose proof (cc_data _ _ _ _ Hc) as Hd. rewrite length_take, Nat.min_l in Hd; [done|].
  destruct (pa_size _ _ _ _ _ _ _ _ _ _ _ _ _ _ _ _ _ _ _ Hpa). lia.
Qed.

Definition thread_rely (j : nat) : relation (exchange (N := N)) :=
  match j with
  | 0 => client_rely garbage c0 s1 task_name input size answer
  | 1 => listener_rely garbage c0 s1 task_name input size answer
  | 2 => task_rely garbage c0 s1 task_name input size answer
  | _ => λ _ _, True
  end%nat.
Definition thread_step (j : nat) : relation (exchange (N := N)) :=
  match j with
  | 0 => client_step garbage c0 s1 task_name input size answer
  | 1 => listener_step garbage c0 s1 task_name input size answer
  | 2 => task_step garbage c0 s1 task_name input size answer
  | _ => λ w w', w = w'
  end%nat.
#[export] Instance thread_rely_preorder j : PreOrder (thread_rely j).
Proof. destruct j as [|[|[|j]]]; [apply _..|]. by split. Qed.
Lemma threads_compatible j j' w w' : j ≠ j' → thread_step j w w' → thread_rely j' w w'.
Proof using.
  intros Hne Hs. destruct j as [|[|[|j]]], j' as [|[|[|j']]]; try done;
    try (apply rtc_once; by (left + right)); by rewrite Hs.
Qed.

(** What the client gets: the task's answer, or, where the network refuses a
    command, that this went wrong. *)
Definition answered : option outcome :=
  Some (MTAPI_TASK_SUCCESS, Some (output, Z.of_nat (length output)), MTAPI_SUCCESS).
Definition as_asked (o : option outcome) : Prop :=
  o = answered ∨ ¬ accepting (N := N) ∧ (o = None ∨ o = Some (MTAPI_TASK_ERROR, None, MTAPI_EREMOTE)).

(** When each thread waits for another, and what each thread leaves. *)
Definition thread_waits (j : nat) : exchange (N := N) → Prop :=
  match j with 0 => client_waits | 1 => listener_waits | 2 => task_waits | _ => λ _, True end%nat.
Lemma thread_idle j w w' : idle w w' → thread_waits j w' → thread_waits j w.
Proof using.
  intros [Hg Hp]. destruct j as [|[|[|j]]]; cbn; unfold client_waits, listener_waits, task_waits; by rewrite ?Hp, ?Hg.
Qed.
Definition thread_result (j : nat) (_ : nat) (o : option outcome) (w : exchange (N := N)) : Prop :=
  match j with 0 => as_asked o | 1 => False | _ => task_over (w_stage w) end%nat.

Abbreviation thread_live j t b p :=
  (live real (thread_rely j) (thread_step j) (accepting (N := N)) (thread_waits j) idle pot t b p (thread_result j)).
Lemma client_live t w :
  (t <= fuel)%nat → calm garbage c0 s1 task_name input size answer false w → w_stage w = Fresh →
  thread_live 0 t (request_cost + request_cost)
    (create_and_wait pthread_ok malloc garbage fuel cl (the_domain s1) (the_listener_node s1)
       task_name input size) w.
Proof using Hpa.
  intros Hf Hc Hg. apply live_then; [apply _|].
  eapply live_mono; [by eapply (ask_create_live _ _ _ _ _ _ _ _ _ _ _ _ _ _ _ _ _ _ _ _ Hpa t request_cost)|].
  intros m [h st] w1 [-> [[[= -> ->] Hno]|([= -> ->] & Hc1 & Ht1)]].
  { apply live_return. intros w2 _. right. split; [done|by left]. }
  pose proof (pa_malloc _ _ _ _ _ _ _ _ _ _ _ _ _ _ _ _ _ _ _ Hpa (dom (heap c0))) as Hm.
  apply Z.eqb_neq in Hm. rewrite Hm. apply live_then; [apply _|].
  eapply live_mono; [by eapply (ask_wait_live _ _ _ _ _ _ _ _ _ _ _ _ _ _ _ _ _ _ _ _ Hpa t 0)|].
  intros m o w2 [_ Ho]. apply live_return. intros w3 _.
  unfold task_output, task_input in Ho. rewrite command_input in Ho.
  destruct Ho as [->|[-> Hno]]; [by left|right]. split; [done|by right].
Qed.

(** The three threads, and a state in which nothing has been asked. *)
Definition remote_threads (r : Z) (cmd : list Z) : list (prog (system N) (option outcome)) :=
  [create_and_wait pthread_ok malloc garbage fuel cl (the_domain s1) (the_listener_node s1)
     task_name input size;
   (listen pthread_ok malloc garbage fuel sv fuel cmd r;! Return None);
   (thread_main task_code pthread_ok malloc garbage fuel sv (task_thread s1);! Return None)].
Definition remote_budgets : list nat := [request_cost + request_cost; 3; 4]%nat.
Lemma remote_live r cmd net0 :
  exchange_ok (mk_exchange Fresh Calm false None (Some r) net0) → length cmd = struct_size →
  all_live real thread_rely thread_step thread_result (accepting (N := N)) thread_waits idle pot fuel
    remote_budgets (remote_threads r cmd) (mk_exchange Fresh Calm false None (Some r) net0).
Proof using Hpa.
  intros Hok Hcmd. split; [done|]. intros [|[|[|j]]] b p; [intros [= <-] [= <-]..|done].
  - apply client_live; [done|by split|done].
  - apply live_then; [apply _|]. eapply live_mono.
    + eapply (listen_live _ _ _ _ _ _ _ _ _ _ _ _ _ _ _ _ _ _ _ _ Hpa); [done|done|by split|by left|done].
    + by intros m _ w1 [].
  - apply live_then; [apply _|]. eapply live_mono.
    + by eapply (task_thread_live _ _ _ _ _ _ _ _ _ _ _ _ _ _ _ _ _ _ _ _ Hpa fuel 0).
    + intros m _ w1 [_ Hw1]. apply live_return. intros w2 Hw2. cbn.
      eapply owner_moves_over; [by eapply task_relies|done].
Qed.
(** Until the client has its answer one of the three need not wait. *)
Lemma remote_progress t ns ts' w :
  all_live real thread_rely thread_step thread_result (accepting (N := N)) thread_waits idle pot (S t) ns ts' w →
  length ts' = 3%nat → (∃ p, ts' !! 0%nat = Some p ∧ ¬ has_returned p) →
  ∃ j p, ts' !! j = Some p ∧ ¬ has_returned p ∧ ¬ thread_waits j w.
Proof using.
  intros [Hlen Hts] H3 Hclient. destruct ts' as [|p0 [|p1 [|p2 [|]]]]; try done.
  destruct ns as [|b0 [|b1 [|b2 [|]]]]; try done.
  assert (¬ has_returned p1) as Hp1.
  { intros [o ->]. destruct (Hts 1%nat b1 _ eq_refl eq_refl w) as (m & _ & []).
    change (thread_rely 1 w w). reflexivity. }
  destruct (w_phase w) as [|k|[]|k] eqn:Hp.
  1,5: destruct Hclient as (p & Hp0 & Hr); exists 0%nat, p; split; [done|]; split; [done|];
    cbn; unfold client_waits; rewrite Hp; tauto.
  1,2: exists 1%nat, p1; split; [done|]; split; [done|]; cbn; unfold listener_waits; rewrite Hp; tauto.
  destruct (w_stage w) as [| |c st] eqn:Hg.
  1,2: exists 1%nat, p1; split; [done|]; split; [done|]; cbn; unfold listener_waits; rewrite Hp, Hg; by intros [].
  assert (st = TRunning ∨ st = TExited ∨ st = TEnded ∨ st = TJoined) as Hst by (destruct st; tauto).
  destruct Hst as [Hst|[Hst|Hst]].
  3:{ exists 1%nat, p1. split; [done|]. split; [done|]. cbn. unfold listener_waits. rewrite Hp, Hg.
      destruct Hst as [-> | ->]; by intros []. }
  all: exists 2%nat, p2; split; [done|]; split; [|cbn; unfold task_waits; intros Hw; by destruct (Hw c st)].
  all: intros [o ->]; destruct (Hts 2%nat b2 _ eq_refl eq_refl w) as (m & _ & Hover);
    [change (thread_rely 2 w w); reflexivity|]; cbn in Hover; rewrite Hg in Hover; subst st; by destruct Hover.
Qed.
End steps.

(** C9: the first task of another process gives its result to the one who asked.  Whatever
    the schedule of the client, the listener and the thread of the task, nothing
    faults, and a client that creates a task on the node of the listener and waits
    for it gets exactly the task's answer to the bytes it sent, unless the network
    refuses a command, which it is told.  Where the network accepts every message,
    the client has its answer after 50 rounds, in each of which every thread takes
    a step.  ([parties] collects what the theorem asks of the two processes: among
    others that the name is registered, that the command fits its struct and that
    the server has created no task yet; for every later task the handle is that of
    the first one, and the answer the first one's: [second_task_returns_first_result].) *)
Theorem remote_task_roundtrip
    (task_code : Z → nat → nat → Z → list Z → Z → prog (system N) unit) pthread_ok malloc garbage
    fuel ps cl sv c0 s1 task_name input size i f n x0 xs answer ts net0 r cmd schedule :
  parties task_code pthread_ok malloc garbage ps cl sv c0 s1 task_name input size i f n x0 xs answer ts →
  exchange_ok garbage c0 s1 task_name input size answer (mk_exchange Fresh Calm false None (Some r) net0) →
  length cmd = struct_size →
  ∃ ts' s', run schedule
    (remote_threads task_code pthread_ok malloc garbage fuel cl sv s1 task_name input size r cmd)
    (mk_system ps net0) = Done (ts', s') ∧
  (∀ o, ts' !! 0%nat = Some (Return o) → as_asked input size answer o) ∧
  (accepting (N := N) → (length schedule < fuel)%nat → has_rounds 50 3 schedule →
   ts' !! 0%nat = Some (Return (answered input size answer))).
Proof.
  intros Hpa Hok Hcmd. set (w := mk_exchange Fresh Calm false None (Some r) net0) in Hok.
  set (rl := real (N := N) malloc garbage ps cl sv c0 s1 task_name input size i x0 xs answer ts).
  assert (rl w = mk_system ps net0) as <-.
  { unfold rl, real. cbn. rewrite !list_insert_id; [done|by eapply pa_server|].
    rewrite list_insert_id; [by eapply pa_client|by eapply pa_server]. }
  pose proof (remote_live _ _ _ _ fuel _ _ _ _ _ _ _ _ _ _ _ _ _ _ _ Hpa r cmd net0 Hok Hcmd) as Hlive.
  destruct (run_live rl _ _ _ _ _ _ _ (threads_compatible garbage c0 s1 task_name input size answer) thread_idle
    schedule _ _ _ _ Hlive) as (ts' & w' & ns' & Hrun & [Hlen Hts] & _).
  assert (∀ o, ts' !! 0%nat = Some (Return o) → as_asked input size answer o) as Hres.
  { intros o Ho. destruct (lookup_lt_is_Some_2 ns' 0%nat) as [b Hb]; [rewrite Hlen; by eapply lookup_lt_Some|].
    destruct (Hts 0%nat b _ Hb Ho w') as (m & _ & Ha); [apply thread_rely_preorder|exact Ha]. }
  exists ts', (rl w'). split; [done|]. split; [done|]. intros Hacc Hf Hr.
  destruct (run_returns rl _ _ _ _ _ _ _ (threads_compatible garbage c0 s1 task_name input size answer) thread_idle
    0 3 schedule _ _ _ _ 50 Hacc Hlive) as (ts2 & s2 & o & Hrun2 & Ho);
    [done|lia|done|done| | |].
  - unfold total, pot. cbn. lia.
  - intros. by eapply remote_progress.
  - rewrite Hrun in Hrun2. injection Hrun2 as <- <-. rewrite Ho. do 2 f_equal.
    destruct (Hres o Ho) as [->|[Hno _]]; [done|by destruct Hno].
Qed.
End remote.

(** ** A task of this process *)

Section local.
Context {N : Type} `{!Mcapi N}.

Definition owner_rely (j : nat) : relation stage :=
  match j with 0 => rtc task_moves | 1 => rtc owner_moves | _ => λ _ _, True end%nat.
Definition owner_step (j : nat) : relation stage :=
  match j with
  | 0 => λ g g', g' = g ∨ owner_moves g g'
  | 1 => λ g g', g' = g ∨ task_moves g g'
  | _ => λ g g', g' = g
  end%nat.
#[export] Instance owner_rely_preorder j : PreOrder (owner_rely j).
Proof. destruct j as [|[|j]]; [apply _..|]. by split. Qed.
#[export] Instance owner_step_refl j : Reflexive (owner_step j).
Proof. intros g. destruct j as [|[|j]]; [by left..|done]. Qed.
Lemma owner_compatible j j' g g' : j ≠ j' → owner_step j g g' → owner_rely j' g g'.
Proof.
  intros Hne Hs. destruct j as [|[|j]], j' as [|[|j']]; try done; cbn in *;
    (destruct Hs as [->|Hs] || rewrite Hs); try done; by apply rtc_once.
Qed.
(** The owner waits for the end of the task, the task for its start. *)
Definition stage_waits (j : nat) (g : stage) : Prop :=
  match j with 0 => joining g | 1 => ∀ c st, g ≠ Spawned c st | _ => True end%nat.
Lemma stage_idle j g g' : g' = g → stage_waits j g' → stage_waits j g.
Proof. by intros ->. Qed.
Lemma stage_progress g : ¬ joining g ∨ (¬ task_over g ∧ ¬ stage_waits 1 g).
Proof.
  destruct g as [| |c []]; cbn; try (left; tauto); right; (split; [intuition congruence|]);
    intros Hw; by eapply Hw.
Qed.

Section steps.
Context (task_code : Z → nat → nat → Z → list Z → Z → prog (system N) unit).
Context (pthread_ok : nat → bool) (malloc : gset Z → Z) (garbage : list Z) (fuel : nat).
Context (ps : list mtapi) (sv : nat) (s1 : mtapi) (x0 : local_task_descriptor) (xs : list local_task_descriptor).
Context (task_name input : list Z) (size : Z) (i : nat) (f : Z) (n : option (list Z)).
Context (answer : list Z → list Z) (ts : mtapi_task_status) (net0 : N).
Context (Hrd : ready task_code pthread_ok malloc sv s1 x0 xs task_name input size i f n answer ts).
Context (Hsv : ps !! sv = Some s1) (Hmax : size <= MTAPI_MAX_INPUT_DATA_SIZE).

Abbreviation process := (process_at malloc s1 x0 xs input size i answer ts).
Definition local_real (g : stage) : system N := mk_system (<[sv := process g]> ps) net0.
Definition local_threads : list (prog (system N) (option outcome)) :=
  [create_and_wait pthread_ok malloc garbage fuel sv (the_domain s1) (the_listener_node s1)
     task_name input size;
   (thread_main task_code pthread_ok malloc garbage fuel sv (task_thread s1);! Return None)].
Definition local_result (j : nat) (_ : nat) (o : option outcome) (g : stage) : Prop :=
  match j with 0 => o = answered input size answer | _ => task_over g end%nat.
Lemma local_process g : procs (local_real g) !! sv = Some (process g).
Proof using Hsv. apply list_lookup_insert_eq. by eapply lookup_lt_Some. Qed.
Lemma local_update g g' :
  mk_system (<[sv := process g']> (procs (local_real g))) (net (local_real g)) = local_real g'.
Proof using. unfold local_real. cbn. by rewrite list_insert_insert_eq. Qed.

Lemma local_live :
  all_live local_real owner_rely owner_step local_result True stage_waits (λ g g', g' = g) (λ _, 0%nat) fuel
    [11; 4]%nat local_threads Fresh.
Proof using Hrd Hsv Hmax.
  split; [done|]. intros [|[|j]] b p; [intros [= <-] [= <-]..|done].
  - apply live_then; [apply _|]. eapply live_mono.
    + eapply (create_live _ _ _ _ _ _ _ _ _ _ _ _ _ _ _ _ _ Hrd local_real (λ g, g) (λ g _, g))
        with (F := λ _, True) (m := 6%nat); try done; [apply _|apply _|apply local_process
        |apply local_update|by right].
    + intros m [h st] w1 (-> & [= -> ->] & _ & Ha). pose proof (rd_malloc _ _ _ _ _ _ _ _ _ _ _ _ _ _ _ Hrd) as Hm.
      apply Z.eqb_neq in Hm. rewrite Hm. apply live_then; [apply _|]. eapply live_mono.
      * eapply (task_wait_live _ _ _ _ _ _ _ _ _ _ _ _ _ _ _ _ _ Hrd local_real (λ g, g) (λ g _, g))
          with (F := λ _, True) (m := 0%nat); try done; [apply _|apply _|apply local_process
          |apply local_update|by right|].
        intros g c st _ -> [-> | ->] _; done.
      * intros m r w2 (-> & -> & _). by apply live_return.
  - apply live_then; [apply _|]. eapply live_mono.
    + eapply (task_live _ _ _ _ _ _ _ _ _ _ _ _ _ _ _ _ _ Hrd local_real (λ g, g) (λ g _, g))
        with (m := 0%nat); try done; [apply _|apply _|apply local_process|apply local_update|by right].
    + intros m _ w1 [_ Hw1]. apply live_return. intros w2 Hw2. by eapply owner_moves_over.
Qed.
Lemma local_progress t ns ts' g :
  all_live local_real owner_rely owner_step local_result True stage_waits (λ g g', g' = g) (λ _, 0%nat) (S t)
    ns ts' g →
  length ts' = 2%nat → (∃ p, ts' !! 0%nat = Some p ∧ ¬ has_returned p) →
  ∃ j p, ts' !! j = Some p ∧ ¬ has_returned p ∧ ¬ stage_waits j g.
Proof using.
  intros [Hlen Hts] H2 (p & Hp & Hr). destruct (stage_progress g) as [Hg|[Hover Hg]]; [by exists 0%nat, p|].
  destruct ts' as [|p0 [|p1 [|]]]; try done. destruct ns as [|b0 [|b1 [|]]]; try done.
  exists 1%nat, p1. split; [done|]. split; [|done]. intros [o ->].
  destruct (Hts 1%nat b1 _ eq_refl eq_refl g) as (m & _ & Ho); [done|done].
Qed.
End steps.

(** C10: the first task of this process gives its result to the one who waits for it: whatever
    the schedule of the two threads, nothing faults, and a thread that creates a
    task on its own node and waits for it gets exactly the task's answer to the
    input it gave; it has the answer after 16 rounds, in each of which both threads
    take a step.  ([ready] collects what is asked of the process: the name is
    registered, it has created no task yet, and the answer fits; waiting for a later
    task gives the first one's answer: [second_task_returns_first_result].) *)
Theorem local_task_roundtrip
    (task_code : Z → nat → nat → Z → list Z → Z → prog (system N) unit) pthread_ok malloc garbage
    fuel ps sv s1 task_name input size i f n x0 xs answer ts net0 schedule :
  ready task_code pthread_ok malloc sv s1 x0 xs task_name input size i f n answer ts →
  ps !! sv = Some s1 → size <= MTAPI_MAX_INPUT_DATA_SIZE →
  ∃ ts' s', run schedule
    (local_threads task_code pthread_ok malloc garbage fuel sv s1 task_name input size)
    (mk_system ps net0) = Done (ts', s') ∧
  (∀ o, ts' !! 0%nat = Some (Return o) → o = answered input size answer) ∧
  ((length schedule < fuel)%nat → has_rounds 16 2 schedule →
   ts' !! 0%nat = Some (Return (answered input size answer))).
Proof.
  intros Hrd Hsv Hmax. set (rl := local_real malloc ps sv s1 x0 xs input size i answer ts net0).
  assert (mk_system ps net0 = rl Fresh) as -> by (unfold rl, local_real; by rewrite list_insert_id).
  pose proof (local_live _ _ _ garbage fuel _ _ _ _ _ _ _ _ _ _ _ _ _ net0 Hrd Hsv Hmax) as Hlive.
  destruct (run_live rl _ _ _ _ _ _ _ owner_compatible stage_idle schedule _ _ _ _ Hlive)
    as (ts' & w' & ns' & Hrun & [Hlen Hts] & _).
  assert (∀ o, ts' !! 0%nat = Some (Return o) → o = answered input size answer) as Hres.
  { intros o Ho. destruct (lookup_lt_is_Some_2 ns' 0%nat) as [b Hb]; [rewrite Hlen; by eapply lookup_lt_Some|].
    destruct (Hts 0%nat b _ Hb Ho w') as (m & _ & Ha); [apply owner_rely_preorder|exact Ha]. }
  exists ts', (rl w'). split; [done|]. split; [done|]. intros Hf Hr.
  destruct (run_returns rl _ _ _ _ _ _ _ owner_compatible stage_idle 0 2 schedule _ _ _ _ 16 I Hlive)
    as (ts2 & s2 & o & Hrun2 & Ho); [done|lia|done|done| | |].
  - unfold total. cbn. lia.
  - intros. by eapply local_progress.
  - rewrite Hrun in Hrun2. injection Hrun2 as <- <-. rewrite Ho. by rewrite (Hres o Ho).
Qed.
End local.

(** ** Concrete processes

    Two processes: 0 asks, 1 serves.  The task of process 1, with the name "rev"
    and the function pointer 7, answers with its input reversed. *)

Definition example_task (f : Z) (me self : nat) (h : Z) (data : list Z) (size : Z) :
    prog (system office) unit :=
  let! _ := mine me (mtapi_task_exit h (rev data) (Z.of_nat (length data)) MTAPI_TASK_SUCCESS) in
  Return tt.
Definition example_malloc (D : gset Z) : Z := Z.of_nat (size D) + 1.
Definition example_garbage : list Z := replicate struct_size 170.
Definition task_rev : list Z := [114; 101; 118].

(** What the threads of a run return. *)
Inductive returned := Waited (o : option outcome) (shutdown : mtapi_status) | Served (st : mtapi_status) | Ran.

(** The two main programs of the repository's test (tests/mtapi_test2.c). *)
Definition client_main (fuel : nat) (input : list Z) : prog (system office) returned :=
  let! _ := mtapi_initialize (λ _, true) 0 0 0 20 in
  let! (h, _) := mtapi_create_task (λ _, true) example_malloc example_garbage fuel 0 0 10 task_rev
                   input (Z.of_nat (length input)) in
  let! o := (if h =? 0 then Return None
             else let! r := mtapi_task_wait example_garbage fuel 0 h in Return (Some r)) in
  let! st := mtapi_shutdown_slave example_garbage fuel 0 0 10 in
  Return (Waited o st).
Definition server_main (fuel : nat) : prog (system office) returned :=
  let! _ := mtapi_initialize (λ _, true) 1 0 0 10 in
  let! _ := mine 1 (mtapi_register_impl task_rev 7) in
  mtapi_slave fuel 1;!
  let! st := mtapi_finalize fuel 1 0 in
  Return (Served st).
Definition thread_run (fuel me k : nat) : prog (system office) returned :=
  thread_main example_task (λ _, true) example_malloc example_garbage fuel me k;! Return Ran.

(** The main threads of both processes, their listeners and the task. *)
Definition session (fuel : nat) (input : list Z) : list (prog (system office) returned) :=
  [client_main fuel input; server_main fuel; thread_run fuel 0 1; thread_run fuel 1 1; thread_run fuel 1 2].
Definition session_start : system office :=
  mk_system [start_mtapi; start_mtapi] (mk_office ∅ ∅ ∅ ∅ 1).
Fixpoint rounds (k : nat) : list nat :=
  match k with O => [] | S k => [0; 1; 2; 3; 4]%nat ++ rounds k end.
Definition results {S A} (r : result (list (prog S A) * S)) : option (list (option A)) :=
  match r with
  | Done (ts, _) => Some ((λ t, match t with Return a => Some a | _ => None end) <$> ts)
  | Fault _ => None
  end.
Definition session_results : option (list (option returned)) :=
  Eval vm_compute in results (run (replicate 30 1%nat ++ rounds 60) (session 200 [1; 2; 3; 4]) session_start).

(** ** Registration

    task_impl_count never grows: every registration goes to the first entry, and a
    search for another name reaches an entry whose name is NULL. *)

Fixpoint register_all (l : list (list Z * Z)) : M mtapi (list mtapi_status) :=
  match l with
  | [] => ret []
  | (task_name, f) :: l =>
      let* st := mtapi_register_impl task_name f in
      let* sts := register_all l in ret (st :: sts)
  end.
Definition register_done (l : list (list Z * Z)) (s : mtapi) : mtapi :=
  match last l with
  | None => s
  | Some (task_name, f) => s <| task_impls ::= <[0%nat := mk_impl (Some task_name) f]> |>
  end.

Lemma register_done_cons x l s : register_done l (register_done [x] s) = register_done (x :: l) s.
Proof.
  destruct x as [task_name f]. unfold register_done at 1 3. rewrite last_cons.
  destruct (last l) as [[task_name' f']|]; [|done].
  unfold register_done, set_field. cbn -[insert]. by rewrite list_insert_insert_eq.
Qed.
Lemma register_all_done l s :
  task_impl_count s = 0%nat → length (task_impls s) = MTAPI_MAX_TASKS →
  Forall (λ x, (length x.1 <= MTAPI_MAX_TASK_NAME_LENGTH)%nat) l →
  register_all l s = Done ((λ _, MTAPI_SUCCESS) <$> l, register_done l s).
Proof.
  intros Hc Hl Hnames. revert s Hc Hl. induction Hnames as [|[task_name f] l Hn _ IH]; intros s Hc Hl; [done|].
  destruct (lookup_lt_is_Some_2 (task_impls s) 0) as [x Hx]; [unfold MTAPI_MAX_TASKS in Hl; lia|].
  set (s1 := s <| task_impls ::= <[0%nat := mk_impl (Some task_name) f]> |>).
  assert (mtapi_register_impl task_name f s = Done (MTAPI_SUCCESS, s1)) as Hreg.
  { unfold mtapi_register_impl, arr_get, bind, get, modify, ret. apply Nat.ltb_ge in Hn. cbn [fst] in Hn.
    rewrite Hn, Hc. cbn [Nat.leb MTAPI_MAX_TASKS]. rewrite Hx. cbn. by rewrite Hc. }
  cbn [register_all]. rewrite (bind_done _ _ _ _ _ Hreg).
  erewrite bind_done by (apply IH; [done|unfold s1; cbn; by rewrite length_insert]).
  unfold ret. change s1 with (register_done [(task_name, f)] s). by rewrite register_done_cons.
Qed.

(** C25: whatever a process registers, each registration is told to have succeeded,
    but only the last name is known afterwards: looking for it finds the first
    entry with its function, and looking for any other name reads a NULL pointer. *)
Theorem only_last_registration_counts l task_name f s :
  task_impl_count s = 0%nat → task_impls s = replicate MTAPI_MAX_TASKS (mk_impl None 0) →
  Forall (λ x, (length x.1 <= MTAPI_MAX_TASK_NAME_LENGTH)%nat) (l ++ [(task_name, f)]) →
  ∃ s', register_all (l ++ [(task_name, f)]) s = Done ((λ _, MTAPI_SUCCESS) <$> l ++ [(task_name, f)], s') ∧
    task_impls s' !! 0%nat = Some (mk_impl (Some task_name) f) ∧
    get_task_impl_idx task_name s' = Done (0, s') ∧
    ∀ other, other ≠ task_name → get_task_impl_idx other s' = Fault OutOfBounds.
Proof.
  intros Hc Hl Hn. eexists. split; [apply register_all_done; [done|by rewrite Hl, length_replicate|done]|].
  unfold register_done. rewrite last_snoc.
  assert (task_impls (s <| task_impls ::= <[0%nat := mk_impl (Some task_name) f]> |>)
    = mk_impl (Some task_name) f :: replicate (pred MTAPI_MAX_TASKS) (mk_impl None 0)) as Ht.
  { cbn. by rewrite Hl. }
  split; [by rewrite Ht|]. unfold get_task_impl_idx, bind, get, lift. rewrite Ht. cbn [find_impl name].
  split; [by rewrite decide_True|]. intros other Hne. rewrite decide_False by congruence. done.
Qed.

(** ** Commands *)

(** C40: what mtapi_create_task accepts and what the command can carry: a name of up
    to 32 characters and fewer than 975 bytes arrive as they were sent, with the
    address to answer to; with 975 bytes, which mtapi_create_task also accepts, the
    terminating zero is written past the struct. *)
Theorem create_command_exact garbage s task_name input size :
  length garbage = struct_size → address_ok s → Forall (λ c, c ≠ 0) task_name →
  (length task_name <= MTAPI_MAX_TASK_NAME_LENGTH)%nat →
  0 <= size <= Z.of_nat (length input) → size <= MTAPI_MAX_INPUT_DATA_SIZE →
  if size <? MTAPI_MAX_INPUT_DATA_SIZE then
    ∃ cmd, create_cmd s task_name input size garbage = Done (tt, cmd) ∧
      create_cmd_carries s task_name (take (Z.to_nat size) input) cmd
  else create_cmd s task_name input size garbage = Fault OutOfBounds.
Proof.
  intros Hg Hs Hn Hlen Hsize Hmax. destruct (Z.ltb_spec size MTAPI_MAX_INPUT_DATA_SIZE) as [Hlt|Hge].
  - by apply create_cmd_done.
  - change MTAPI_MAX_INPUT_DATA_SIZE with 975 in *. assert (size = 975) as -> by lia.
    unfold MTAPI_MAX_TASK_NAME_LENGTH in Hlen. unfold create_cmd. rewrite !put_then by room.
    erewrite bind_done by by apply copied_done. rewrite put_then by room.
    unfold put. lazymatch goal with
    | |- context [(_ <=? length ?b)%nat] => assert (length b = struct_size) as -> by room
    end. reflexivity.
Qed.

(** ** Ends of tasks *)

(** Mtapi_task_exit on every branch, for a task whose entry is the first one
    with its descriptor: more bytes than a reply carries are refused and change
    nothing; else the bytes, their number and the status are stored in the entry,
    where the wait finds them. *)
Theorem task_exit_exact h data size ts s t i x l1 l2 :
  heap s !! h = Some t → task_instances s = l1 ++ x :: l2 → length l1 = i → heap s !! handle x = Some t →
  Forall (λ y, ∃ d, heap s !! handle y = Some d ∧ d ≠ t) l1 →
  0 <= size <= Z.of_nat (length data) →
  mtapi_task_exit h data size ts s =
    if MTAPI_MAX_RETURN_DATA_SIZE <? size then Done (MTAPI_EDATA_SIZE, s)
    else
      let y := x <| return_data := Some (take (Z.to_nat size) data) |> <| return_data_size := size |>
        <| status := ts |> in
      Done (MTAPI_SUCCESS, s <| task_instances := l1 ++ y :: l2 |>).
Proof.
  intros Hh Hs Hi Hx Hl Hsize.
  assert (∀ k, find_instance (heap s) t (l1 ++ x :: l2) k = Done (k + Z.of_nat i)) as Hfind.
  { clear Hs. revert i Hi. induction Hl as [|y l1 (d & Hy & Hne) _ IH]; intros i <- k; cbn.
    - rewrite Hx, decide_True by done. f_equal. lia.
    - rewrite Hy, decide_False by done. rewrite (IH _ eq_refl). f_equal. lia. }
  unfold mtapi_task_exit. erewrite bind_done by (unfold deref, bind, get; by rewrite Hh).
  erewrite bind_done by (unfold get_task_instance_idx, bind, get, lift; by rewrite Hs, Hfind).
  destruct (Z.ltb_spec (0 + Z.of_nat i) 0); [lia|].
  destruct (Z.ltb_spec MTAPI_MAX_RETURN_DATA_SIZE size); [done|].
  erewrite bind_done by by apply copied_done. rewrite Z.add_0_l, Nat2Z.id.
  erewrite bind_done.
  2:{ apply set_instance_done with (x := x). rewrite Hs. by apply list_lookup_middle. }
  unfold ret, set_field. cbn -[alter]. rewrite Hs, <- Hi, alter_app_r_alt, Nat.sub_diag by lia. done.
Qed.

(** ** The theorems at work *)

(** Process 1 has registered "rev" and listens; process 0 is initialized. *)
Definition example_server : mtapi := start_mtapi
  <| task_impls ::= <[0%nat := mk_impl (Some task_rev) 7]> |>
  <| the_domain := 0 |> <| the_listener_node := 10 |> <| the_requester_node := 11 |>
  <| finalize_mcapi := true |> <| listener := 1%nat |> <| mthread_initialized := true |>
  <| listener_send_endpt := 2560 |> <| listener_recv_endpt := 2561 |>
  <| requester_send_endpt := 2818 |> <| requester_recv_endpt := 2819 |>
  <| threads := [(Listener, Running)] |>.
Definition example_client : mtapi := start_mtapi
  <| the_domain := 0 |> <| the_listener_node := 20 |> <| the_requester_node := 21 |>
  <| finalize_mcapi := true |> <| listener := 1%nat |> <| mthread_initialized := true |>
  <| listener_send_endpt := 5120 |> <| listener_recv_endpt := 5121 |>
  <| requester_send_endpt := 5378 |> <| requester_recv_endpt := 5379 |>
  <| threads := [(Listener, Running)] |>.
Definition example_office : office :=
  mk_office (list_to_map ((λ e, (e, [])) <$> [2560; 2561; 2818; 2819; 5120; 5121; 5378; 5379]))
    {[ 1 := 2561 ]}
    (list_to_map [((0, 10, 0), 2560); ((0, 10, 1), 2561); ((0, 11, 2), 2818); ((0, 11, 3), 2819);
       ((0, 20, 0), 5120); ((0, 20, 1), 5121); ((0, 21, 2), 5378); ((0, 21, 3), 5379)]) ∅ 2.
Definition example_processes : list mtapi := [example_client; example_server].
Definition example_input : list Z := [1; 2; 3; 4].
Definition example_instances : list local_task_descriptor := replicate 63 zero_instance.

Lemma example_malloc_ok D : example_malloc D ≠ 0.
Proof. unfold example_malloc. lia. Qed.
Lemma example_ready input :
  input = [1; 2; 3; 4] ∨ input = drop cmd_data_at (create_command example_garbage example_client task_rev [1; 2; 3; 4] 4) →
  ready example_task (λ _, true) example_malloc 1 example_server zero_instance example_instances
    task_rev input 4 0 7 (Some task_rev) (λ l, rev l) MTAPI_TASK_SUCCESS.
Proof.
  intros Hin. assert (take 4 input = [1; 2; 3; 4]) as Htake by (destruct Hin as [-> | ->]; vm_compute; reflexivity).
  assert (4 <= Z.of_nat (length input)) by (destruct Hin as [-> | ->]; vm_compute; discriminate).
  split; try (vm_compute; done); unfold output_size, task_output, task_input; change (Z.to_nat 4) with 4%nat;
    rewrite ?Htake; try done.
Qed.
Lemma example_parties :
  parties example_task (λ _, true) example_malloc example_garbage example_processes 0 1 example_client
    example_server task_rev example_input 4 0 7 (Some task_rev) zero_instance example_instances
    (λ l, rev l) MTAPI_TASK_SUCCESS.
Proof.
  split; try done; try (by repeat constructor); try (by vm_compute); try apply example_malloc_ok.
Qed.
Lemma example_exchange :
  exchange_ok example_garbage example_client example_server task_rev example_input 4 (λ l, rev l)
    (mk_exchange Fresh Calm false None (Some 1) example_office).
Proof.
  split; try done; try (by vm_compute); try (by vm_compute; eexists); cbn.
  - intros r e [<- <-]%lookup_singleton_Some. done.
  - intros r. rewrite lookup_singleton_Some. naive_solver.
  - intros r. rewrite lookup_singleton_Some. naive_solver.
Qed.

Lemma office_accepting : accepting (N := office).
Proof.
  intros s from to msg st s' _ [? Hf] [? Ht] Hs. cbn in Hf, Ht, Hs. unfold office_send in Hs.
  rewrite Hf, Ht in Hs. by injection Hs.
Qed.
Lemma remote_task_roundtrip_witness :
  let threads := remote_threads example_task (λ _, true) example_malloc example_garbage 200 0 1
    example_server task_rev example_input 4 1 example_garbage in
  let output := Some (MTAPI_TASK_SUCCESS, Some ([4; 3; 2; 1], 4), MTAPI_SUCCESS) in
  let schedule := concat (replicate 50 (seq 0 3)) in
  (∃ ts' s', run schedule threads (mk_system example_processes example_office) = Done (ts', s') ∧
     ts' !! 0%nat = Some (Return output)) ∧
  results (run schedule threads (mk_system example_processes example_office)) = Some [Some output; None; Some None].
Proof.
  split; [|vm_compute; reflexivity].
  destruct (remote_task_roundtrip example_task (λ _, true) example_malloc example_garbage 200 example_processes
    0 1 example_client example_server task_rev example_input 4 0 7 (Some task_rev) zero_instance
    example_instances (λ l, rev l) MTAPI_TASK_SUCCESS example_office 1 example_garbage
    (concat (replicate 50 (seq 0 3))) example_parties example_exchange eq_refl) as (ts' & s' & Hrun & _ & Hreturns).
  exists ts', s'. split; [exact Hrun|]. apply Hreturns; [exact office_accepting|vm_compute; lia|].
  apply has_rounds_replicate.
Defined.

Lemma local_task_roundtrip_witness :
  let threads := local_threads example_task (λ _, true) example_malloc example_garbage 100 1
    example_server task_rev example_input 4 in
  let output := Some (MTAPI_TASK_SUCCESS, Some ([4; 3; 2; 1], 4), MTAPI_SUCCESS) in
  let schedule := concat (replicate 16 (seq 0 2)) in
  (∃ ts' s', run schedule threads (mk_system example_processes example_office) = Done (ts', s') ∧
     ts' !! 0%nat = Some (Return output)) ∧
  results (run schedule threads (mk_system example_processes example_office)) = Some [Some output; Some None].
Proof.
  split; [|vm_compute; reflexivity].
  destruct (local_task_roundtrip example_task (λ _, true) example_malloc example_garbage 100 example_processes
    1 example_server task_rev example_input 4 0 7 (Some task_rev) zero_instance example_instances
    (λ l, rev l) MTAPI_TASK_SUCCESS example_office (concat (replicate 16 (seq 0 2)))
    (example_ready _ (or_introl eq_refl)) eq_refl ltac:(vm_compute; discriminate)) as (ts' & s' & Hrun & _ & Hreturns).
  exists ts', s'. split; [exact Hrun|]. apply Hreturns; [vm_compute; lia|apply has_rounds_replicate].
Defined.

Lemma only_last_registration_counts_witness :
  ∃ s', register_all [([97], 5); (task_rev, 7)] start_mtapi = Done ([MTAPI_SUCCESS; MTAPI_SUCCESS], s') ∧
    get_task_impl_idx task_rev s' = Done (0, s') ∧ get_task_impl_idx [97] s' = Fault OutOfBounds.
Proof.
  destruct (only_last_registration_counts [([97], 5)] task_rev 7 start_mtapi eq_refl eq_refl)
    as (s' & Hrun & _ & Hlast & Hother).
  - repeat constructor; vm_compute; repeat constructor.
  - exists s'. split_and!; [exact Hrun|exact Hlast|by apply Hother].
Defined.

Lemma example_address : address_ok example_client.
Proof. by repeat split. Qed.
Lemma create_command_exact_witness :
  (∃ cmd, create_cmd example_client task_rev example_input 4 example_garbage = Done (tt, cmd) ∧
     create_cmd_carries example_client task_rev [1; 2; 3; 4] cmd) ∧
  create_cmd example_client task_rev (replicate 975 1) 975 example_garbage = Fault OutOfBounds.
Proof.
  assert (Forall (λ c, c ≠ 0) task_rev) as Hn by by repeat constructor.
  split.
  - exact (create_command_exact example_garbage example_client task_rev example_input 4 eq_refl
      example_address Hn ltac:(vm_compute; repeat constructor) ltac:(vm_compute; by split)
      ltac:(vm_compute; discriminate)).
  - exact (create_command_exact example_garbage example_client task_rev (replicate 975 1) 975 eq_refl
      example_address Hn ltac:(vm_compute; repeat constructor) ltac:(vm_compute; by split)
      ltac:(vm_compute; discriminate)).
Defined.

(** The server after its first task was created. *)
Definition task_server : mtapi :=
  process_at example_malloc example_server zero_instance example_instances example_input 4 0
    (λ l, rev l) MTAPI_TASK_SUCCESS (Spawned true TRunning).
Lemma task_exit_exact_witness :
  ∃ s', mtapi_task_exit 1 [9; 8] 2 MTAPI_TASK_ERROR task_server = Done (MTAPI_SUCCESS, s') ∧
    (return_data <$> task_instances s' !! 0%nat) = Some (Some [9; 8]).
Proof.
  eexists. split.
  - eapply (task_exit_exact 1 [9; 8] 2 MTAPI_TASK_ERROR task_server (mk_task 0 10 0) 0
      (instance_at example_malloc example_server zero_instance example_input 4 0 (λ l, rev l)
         MTAPI_TASK_SUCCESS (Spawned true TRunning)) [] example_instances);
      first [reflexivity | cbn; lia | constructor].
  - reflexivity.
Defined.

(** ** Where tasks go wrong *)

(** The whole session of the repository's test, from zeroed variables to the end of
    the server: the client gets its answer. *)
Example session_ends :
  results (run (replicate 30 1%nat ++ rounds 60) (session 200 example_input) session_start)
  = Some [Some (Waited (Some (MTAPI_TASK_SUCCESS, Some ([4; 3; 2; 1], 4), MTAPI_SUCCESS)) MTAPI_SUCCESS);
          Some (Served MTAPI_SUCCESS); None; Some Ran; Some Ran].
Proof. vm_compute. reflexivity. Qed.

(** The same when the client's command comes before the server has registered the
    name: the listener compares it with NULL. *)
Example session_before_registration :
  run (replicate 10 1 ++ replicate 20 3 ++ replicate 20 0 ++ replicate 20 3)%nat
    (session 200 example_input) session_start = Fault OutOfBounds.
Proof. vm_compute. reflexivity. Qed.

(** Two tasks of one process: the second creation returns the first one's handle,
    and waiting for it returns the first one's result. *)
Definition two_tasks : prog (system office) (option outcome * option outcome) :=
  let create input := mtapi_create_task (λ _, true) example_malloc example_garbage 100 1 0 10 task_rev
                        input (Z.of_nat (length input)) in
  let! (h1, _) := create [1; 2] in
  let! (h2, _) := create [3; 4] in
  let! o1 := mtapi_task_wait example_garbage 100 1 h1 in
  let! o2 := mtapi_task_wait example_garbage 100 1 h2 in
  Return (Some o1, Some o2).
Example second_task_returns_first_result :
  results (run (concat (replicate 40 [0; 1; 2]%nat))
    [two_tasks;
     (thread_main example_task (λ _, true) example_malloc example_garbage 100 1 2;! Return (None, None));
     (thread_main example_task (λ _, true) example_malloc example_garbage 100 1 3;! Return (None, None))]
    (mk_system example_processes example_office))
  = Some [Some (Some (MTAPI_TASK_SUCCESS, Some ([2; 1], 2), MTAPI_SUCCESS),
                Some (MTAPI_TASK_SUCCESS, Some ([2; 1], 2), MTAPI_SUCCESS));
          Some (None, None); Some (None, None)].
Proof. vm_compute. reflexivity. Qed.

(** Two threads of one process create a task at the same time: both fill the first
    entry, so that both threads work on the second input. *)
Definition one_creation (input : list Z) : prog (system office) (option Z) :=
  let! h := start_local_task (λ _, true) example_malloc 1 task_rev input (Z.of_nat (length input)) in
  Return (Some h).
Example creations_race :
  match run [0; 0; 1; 1; 0; 0; 1; 1]%nat [one_creation [1; 2]; one_creation [3; 4]]
    (mk_system example_processes example_office) with
  | Done (_, s) => (λ p, (task_instance_count p, (threads p).*1, input_data <$> task_instances p !! 0%nat,
                          handle <$> task_instances p !! 1%nat)) <$> procs s !! 1%nat
  | Fault _ => None
  end = Some (2%nat, [Listener; Dispatcher 0; Dispatcher 0], Some (Some [3; 4]), Some 0).
Proof. vm_compute. reflexivity. Qed.

(** A thread that cannot be created: the handle is written after it was freed. *)
Example failed_creation_faults :
  alone (start_local_task (λ k, Nat.eqb k 1) example_malloc 1 task_rev example_input 4)
    (mk_system example_processes example_office) = Fault OutOfBounds.
Proof. vm_compute. reflexivity. Qed.

(** A listener that was shut down never comes back: keep_listening stays 0 over
    mtapi_finalize and mtapi_initialize, and the new listener returns at once. *)
Example listener_not_restarted :
  results (run (replicate 40 0 ++ replicate 20 1)%nat
    [(let! _ := mtapi_initialize (λ _, true) 1 0 0 10 in Return tt);
     thread_main example_task (λ _, true) example_malloc example_garbage 100 1 1]
    (mk_system [start_mtapi; start_mtapi <| keep_listening := false |>] (mk_office ∅ ∅ ∅ ∅ 1)))
  = Some [Some tt; Some tt].
Proof. vm_compute. reflexivity. Qed.

(** The 65th task that another process creates is written past the table, because
    only mtapi_create_task looks at the number of tasks. *)
Example remote_tasks_overrun :
  alone (start_local_task (λ _, true) example_malloc 1 task_rev example_input 4)
    (mk_system [example_client; example_server <| task_instance_count := MTAPI_MAX_INSTANCES |>] example_office)
  = Fault OutOfBounds.
Proof. vm_compute. reflexivity. Qed.
